(* ===== verification/_CoqProject ===== *)
-Q . S2P
Prelude.v
Float64.v
Float64Round.v
GoTime.v
GoZone.v
Grouping.v
Uuid.v
GoStrings.v
Effects.v
Keyset.v
Versioned.v
Records.v
Eval.v
EvalProps.v
Ranking.v
Matching.v
MatchProps.v
Aggregate.v
AggregateProps.v
RankService.v
RankProps.v
Circuit.v
Catalog.v
CatalogService.v
CatalogProps.v
ReadModel.v
ReadProps.v
Collection.v
CollectionProps.v
Reader.v
Observe.v
ObserveProps.v
Scheduler.v
SchedulerProps.v
Transport.v
Adapters.v
OpenMeteo.v
OpenWeather.v
Historical.v
AdapterProps.v
BudgetProps.v
Cache.v
CacheProps.v
Credential.v
Identity.v
IdentityProps.v
Limiter.v
Respond.v
Api.v
ApiProps.v
Dashboard.v
DashboardProps.v
Jwks.v
PayloadStore.v
Config.v
Logging.v
CatalogApi.v
CatalogApiProps.v
Boot.v
Admin.v
