(* ===== verification/Prelude.v ===== *)
(** * ForecastIQ: a verification development

    ForecastIQ collects weather forecasts and observations, matches them, computes
    accuracy metrics and ranks forecast providers.  It is a Go program with a
    PostgreSQL database.  This library translates its core into Rocq functions and
    proves what makes the parts correct, alone and together.

    ** Reading the models

    Go's pure functions are functions.  A service is a program of the monad
    [Effects.M D A] over the tables [D] it owns: it may end with an error, any
    statement, begin or commit may fail (the oracle [fault]), and new ids come from a
    supply ([newID]).  [tx_run] is [dbtx.Runner.Run]; an error rolls the tables back,
    and a failed commit is taken as not applied.  A statement that fails inside a
    transaction whose error the code drops aborts the transaction in PostgreSQL; here
    that is left to the oracle, which may fail the commit.  Repositories ([pg_...])
    are functions on tables written from their SQL and from the constraints of
    [migrations/].  [Env] gives the oracle and the ids; [FreshIds] and [Healthy] are
    the hypotheses "ids are distinct" and "nothing fails", each used only where a
    theorem says so.  Theorems without [Healthy] hold under every pattern of faults.
    Domain errors are values of sum types; other errors carry an abbreviated text.

    Numbers: [float64] is IEEE binary64 ([Float64], on [SpecFloat]), with Go's
    operations in source order and no fused multiply-add (as on amd64).  Integers
    that cannot overflow in the code's ranges are [Z]; [time.Time] and
    [time.Duration] are nanoseconds in [Z], with the saturation of [Sub].  UUIDs are
    [N], with their canonical text.

    ** The parts and their files

    - [Prelude], [Float64], [Float64Round], [GoTime], [GoStrings], [Uuid], [Effects],
      [Versioned]: shared tactics and lemmas, binary64 with correct rounding,
      monotonicity and bounds of each operation, the calendar and truncation of
      [time], strings, UUID text, the transaction monad with its Hoare rules, and the
      supersede-and-insert protocol of versioned tables.
    - [Eval], [EvalProps] ([internal/analysis/eval]): accumulators, error measures,
      rain scores, the Brier score and their confidence intervals.  Bounds, bracketing
      and the methodology's formulas are proved on binary64 for inputs in the physical
      ranges.
    - [Ranking] ([internal/analysis/domain/ranking.go]): normalisation, composite
      score, statuses and tie groups of a cohort.
    - [Records] ([internal/collection/domain]): snapshots, observations, collections
      and their validation.
    - [Matching], [MatchProps] ([internal/analysis/match.go], [domain/match.go],
      [analysispg]): candidate choice and the keyset batch, against the interface
      [MatchRepository] with its laws; the PostgreSQL adapter is an instance.  The
      batch loop has fuel; [match_batch_returns] gives the fuel that suffices.
    - [Aggregate], [AggregateProps] ([internal/analysis/aggregate.go], [metricspg]):
      metric rows of a cell and period, their CHECKs, versioned publication.
    - [RankService], [RankProps] ([internal/analysis/rank.go], [rankingpg]): cohorts
      from the live metrics and publication; the rows aggregation writes satisfy what
      ranking requires.
    - [Circuit] ([internal/catalog/domain/circuit.go], [circuit_service.go]): the
      breaker, refining the rule FC-09 over the calls made one after the other.
    - [Catalog], [CatalogService], [CatalogProps] ([internal/catalog], [catalogpg]):
      entities, cadences ([SlotTimes]), the location, provider and configuration
      services with their audit records, keyset pages.
    - [Collection], [CollectionProps] ([internal/collection/collect.go],
      [replay.go], [collectionpg]): the collection and replay workflows with breaker,
      deduplication, snapshots and events.
    - [Observe], [ObserveProps] ([internal/collection/observe.go],
      [observationpg]): observation collection with corrections.
    - [Scheduler], [SchedulerProps] ([internal/scheduler], [schedulerpg]): slot
      generation, claims and leases, execution with retries, dispatchers.  The
      instances and their goroutines are a step relation over atomic statements;
      execution of a slot is proved to be a step of it, and what it leaves of the slot
      and of the run history is proved branch by branch.
    - [Transport] ([forecastproviders/providerhttp], [ports/errors.go]): the GET
      with retries shared by the adapters, and the classification of failures.
    - [Adapters], [OpenMeteo], [OpenWeather], [Historical], [AdapterProps]
      ([adapters/forecastproviders], [adapters/observationsources]): decomposition of
      provider payloads; they satisfy the promises that [CollectionProps] and
      [ObserveProps] assume of the ports.
    - [BudgetProps] ([openweather/budget.go]): the daily budget refines a log of the
      requests made.
    - [Cache], [CacheProps] ([internal/api/cache.go]): the response cache refines an
      LRU list, and what the caching middleware serves under interleaving.
    - [GoZone], [Grouping], [Keyset]: wall-clock time in a zone given by its offsets,
      the grouping of rows by key that several queries use, and the pages that the
      lists are handed out in.
    - [ReadModel], [ReadProps] ([internal/analysis/read.go],
      [analysispg/readpg.go]): the queries behind the public pages: rankings,
      accuracy series re-bucketed in the zone of a location, forecast comparison.  The
      zone need only be regular from some instant on, as the tables of real zones are.
    - [Credential] ([internal/identity/credential.go]): API keys, their text, their
      hashing and their verification.
    - [Identity], [IdentityProps] ([internal/identity], [identitypg], [auditpg]):
      users, provisioning, keys, exports, deletion and webhooks, each mutation with
      its audit record; a step relation over the services and its invariant.
    - [Limiter] ([internal/platform/ratelimit]): token buckets on binary64.
    - [Respond] ([internal/api/respond]): classification of errors, envelopes, query
      options.
    - [Api], [ApiProps] ([internal/api]: [router.go], [middleware.go],
      [security.go], and the identity handlers): the route table with the middleware
      chain of each route, authentication, scopes, roles, limits.
    - [Dashboard], [DashboardProps] ([handlers/rankings.go], [accuracy.go],
      [forecast_comparison.go], [partial.go]): the public handlers over [ReadModel].
    - [Reader] ([internal/collection/reader.go]): the read side of the collections.
    - [CatalogApi], [CatalogApiProps] ([handlers/location.go], [provider.go],
      [admin_provider.go], [collection.go], [handlers.go]): the handlers over the
      catalog and the collections, and the whole request over router, gates and handler.
    - [Boot] ([cmd/forecastiq/seed.go], [collection/registry.go], [platform/health]):
      seeding, the first administrator, the adapter registry, readiness.
    - [Admin] ([internal/admin], [adminpg], [handlers/admin_health.go],
      [admin_recompute.go]): the health view and the recompute.
    - [Jwks] ([adapters/auth/jwks], [adapters/auth/devauth]): verification of bearer
      tokens and the key cache.
    - [PayloadStore] ([adapters/payloadstore/filesystem.go]): raw payload files, over
      a small file system in which any call may fail.
    - [Config] ([internal/platform/config]): the environment to a validated
      configuration.
    - [Logging] ([platform/logging/sanitize.go], [platform/events]): redaction of
      log attributes over attached attributes and opened groups, and the event bus.

    ** What the theorems show

    Invariants of the tables under arbitrary faults (collections, observations,
    matched pairs, metrics, rankings, catalog, slots, users, keys and exports); what
    each workflow returns and stores when nothing fails, on each branch; idempotence
    of the batches; refinement of history, interface and machine specifications;
    numeric bounds on binary64; termination of the batch loop.  At the boundary of
    the system: every route carries the guards of the access policy, what a request
    changes in the accounts or the catalog was authorised and is recorded in the audit
    log, and an answer shows what was committed; reads show the latest rows; a token is
    accepted exactly when its signature, algorithm and claims are right; secret
    attributes are not written to the log, but for two gaps that are stated; a payload
    path is absent or holds a whole payload; a configuration that loads is one the
    services can run with, and invalid values are named.
    Where the code and the documents of the repository disagree, the theorems are stated
    for the cases on which they agree (ES256 tokens and the leeway, pauses of the budget
    that cross midnight, failures of the database behind the dashboard, the breaker after
    a deduplicated collection, ages between two published thresholds), and the deviation
    is a theorem of its own ("Note") or a finding of the manifest.

    ** Bounds and fuel

    [SlotTimes] and [analysisSlotTimes] iterate once per hour of the window plus a
    margin, and are proved to return every instant; the matching loop takes the
    number of unmatched snapshots plus one, and [walk] over pages the number of rows
    plus one; [blank] takes the length of the string.
    Physical ranges (temperature -90..60, and so on) are those of [snapshot.go].
    Horizons are bounded by the 32 bits of their statement parameter; the breaker's
    failure count by those of its column; the sums of [Eval] are exact enough for up to
    2^28 pairs.

    ** Not modelled

    Metrics, log lines and traces; panics; [updated_at] triggers; rounding by
    [numeric(p,s)] columns; foreign keys between modules; primary-key conflicts of
    freshly generated metric ids.  Skew between the clocks of scheduler instances; two
    concurrent writers of one payload key and crashes during a write; the audit events
    that handlers outside the identity surface append, in the traffic of [ApiProps].
    The methodology document, a constant.  The client of
    the auth provider's administration API (the identity model records its calls in
    order), disk statistics, connection pools, exporters, the boot sequence and the
    wiring of [cmd/forecastiq]: I/O whose effects are outside the program.
    Parameters, with their documented behaviour as hypotheses where it is used:
    trigonometry of [math], the IANA zone database, third-party UUID parsing, JSON
    decoding and encoding, [time.Parse] and [time.ParseDuration], argon2, HMAC, SHA,
    RSA and ECDSA, gzip and the network. *)

From Stdlib Require Import ZArith Lia Bool.
From stdpp Require Import base tactics option list sorting.

(** ** Automation *)

Create HintDb fiq.

(** [simp_if]: case analysis on every boolean test of the goal, keeping its
    equation. *)
Ltac simp_if :=
  repeat match goal with
  | |- context [if ?b then _ else _] => let E := fresh "E" in destruct b eqn:E
  end.

(** [bool_simp]: turn boolean equations of the context into propositions. *)
Ltac bool_simp :=
  repeat match goal with
  | H : _ && _ = true |- _ => apply andb_true_iff in H; destruct H
  | H : _ || _ = false |- _ => apply orb_false_iff in H; destruct H
  | H : negb _ = true |- _ => apply negb_true_iff in H
  | H : negb _ = false |- _ => apply negb_false_iff in H
  | H : (_ <? _)%Z = true |- _ => apply Z.ltb_lt in H
  | H : (_ <? _)%Z = false |- _ => apply Z.ltb_ge in H
  | H : (_ <=? _)%Z = true |- _ => apply Z.leb_le in H
  | H : (_ <=? _)%Z = false |- _ => apply Z.leb_gt in H
  | H : (_ =? _)%Z = true |- _ => apply Z.eqb_eq in H
  | H : (_ =? _)%Z = false |- _ => apply Z.eqb_neq in H
  end.

(** ** Selecting a best element

    The loop [for _, c := range cs { if best == nil || less(c, best) { best = c } }]
    over possibly-nil pointers. *)

Section Selection.
Context {A : Type} (less : A -> A -> bool).

Definition keep_best (best c : option A) : option A :=
  match c with
  | None => best
  | Some c => match best with
              | None => Some c
              | Some b => if less c b then Some c else best
              end
  end.

Context (P : A -> Prop).
Context (less_irrefl : forall a, P a -> less a a = false).
Context (less_trans : forall a b c, P a -> P b -> P c -> less a b = true -> less b c = true -> less a c = true).

Definition all_P (l : list (option A)) : Prop := forall a, Some a ∈ l -> P a.

(** [r] is a least element of [l]. *)
Definition best_of (l : list (option A)) (r : option A) : Prop :=
  match r with
  | None => forall a, Some a ∉ l
  | Some b => Some b ∈ l /\ forall a, Some a ∈ l -> less a b = false
  end.

Lemma keep_best_spec l r c :
  all_P (l ++ [c]) -> best_of l r -> best_of (l ++ [c]) (keep_best r c).
Proof.
  intros HP Hr. assert (In1 : forall a, Some a ∈ l ++ [c] <-> Some a ∈ l \/ c = Some a).
  { intros a. rewrite elem_of_app, list_elem_of_singleton. intuition. }
  destruct c as [c|]; cbn.
  - destruct r as [b|]; cbn in *.
    + destruct Hr as [Hb Hr]. destruct (less c b) eqn:E; cbn; (split; [apply In1; auto|]).
      * intros a [Ha|[= <-]]%In1; [|apply less_irrefl, HP, In1; auto].
        apply not_true_is_false. intros L. specialize (Hr a Ha).
        rewrite (less_trans a c b) in Hr; [discriminate|apply HP, In1; auto..|assumption|assumption].
      * intros a [Ha|[= <-]]%In1; auto.
    + split; [apply In1; auto|]. intros a [Ha|[= <-]]%In1; [now apply Hr in Ha|].
      apply less_irrefl, HP, In1; auto.
  - destruct r as [b|]; cbn in *.
    + destruct Hr as [Hb Hr]. split; [apply In1; auto|]. intros a [Ha|?]%In1; [auto|discriminate].
    + intros a [Ha|?]%In1; [now apply Hr in Ha|discriminate].
Qed.

Lemma foldl_best l : all_P l -> best_of l (foldl keep_best None l).
Proof.
  induction l as [|c l IH] using rev_ind; intros HP; [intros a; apply not_elem_of_nil|].
  rewrite foldl_app. cbn. apply keep_best_spec; [assumption|]. apply IH.
  intros a Ha. apply HP, elem_of_app; auto.
Qed.

(** If incomparable elements are equal, the least element does not depend on
    the order of the list. *)
Lemma foldl_best_perm l l' :
  (forall a b, Some a ∈ l -> Some b ∈ l -> less a b = false -> less b a = false -> a = b) ->
  all_P l -> l ≡ₚ l' -> foldl keep_best None l = foldl keep_best None l'.
Proof.
  intros Tot HP Pm. assert (HP' : all_P l') by (intros a Ha; apply HP; now rewrite Pm).
  pose proof (foldl_best l HP) as B. pose proof (foldl_best l' HP') as B'.
  destruct (foldl keep_best None l) as [b|], (foldl keep_best None l') as [b'|]; cbn in B, B'.
  - destruct B as [I M], B' as [I' M']. f_equal.
    assert (J : Some b' ∈ l) by now rewrite Pm. assert (J' : Some b ∈ l') by now rewrite <- Pm.
    apply Tot; auto.
  - destruct B as [I _]. rewrite Pm in I. now apply B' in I.
  - destruct B' as [I _]. rewrite <- Pm in I. now apply B in I.
  - reflexivity.
Qed.
End Selection.

(** ** Prefixes of sorted lists: what [ORDER BY ... LIMIT n] returns *)

Lemma elem_of_take_in {A} n (l : list A) x : x ∈ take n l -> x ∈ l.
Proof. intros Hx. rewrite <- (take_drop n l). apply elem_of_app. auto. Qed.

Lemma StronglySorted_take {A} (R : relation A) n l : StronglySorted R l -> StronglySorted R (take n l).
Proof.
  intros S. revert n. induction S as [|a l S IH F]; intros [|n]; cbn; try constructor; auto.
  rewrite Forall_forall in F |- *. intros x Hx. apply F.
  eapply elem_of_take_in, Hx.
Qed.

Lemma take_sorted_complete {A} (R : relation A) n l x :
  StronglySorted R l -> x ∈ l -> x ∉ take n l ->
  length (take n l) = n /\ forall y, y ∈ take n l -> R y x.
Proof.
  intros S. revert n. induction S as [|a l S IH F]; intros n Hx Nx; [now apply not_elem_of_nil in Hx|].
  destruct n as [|n]; cbn in *; [split; [reflexivity|intros y Hy; now apply not_elem_of_nil in Hy]|].
  apply not_elem_of_cons in Nx as [Na Nx]. apply elem_of_cons in Hx as [->|Hx]; [contradiction|].
  destruct (IH n Hx Nx) as [L H]. split; [now f_equal|]. intros y [->|Hy]%elem_of_cons; [|auto].
  rewrite Forall_forall in F. now apply F.
Qed.

(** ** [sort.SliceStable]

    Insertion into a sorted list, before the first element that is not less: equal
    elements keep their order. *)

Section StableSort.
Context {A : Type} (less : A -> A -> bool).

Fixpoint stable_insert (x : A) (l : list A) : list A :=
  match l with
  | [] => [x]
  | y :: l' => if less y x then y :: stable_insert x l' else x :: l
  end.

Definition stable_sort (l : list A) : list A := foldr stable_insert [] l.

Lemma stable_insert_perm x l : stable_insert x l ≡ₚ x :: l.
Proof.
  induction l as [|y l IH]; cbn; [reflexivity|]. destruct (less y x); [|reflexivity].
  rewrite IH. constructor.
Qed.

Lemma stable_sort_perm l : stable_sort l ≡ₚ l.
Proof. induction l as [|x l IH]; cbn; [reflexivity|]. now rewrite stable_insert_perm, IH. Qed.

Context (P : A -> Prop).
Context (less_asym : forall a b, P a -> P b -> less a b = true -> less b a = false).
Context (nless_trans : forall a b c, P a -> P b -> P c -> less b a = false -> less c b = false -> less c a = false).

(** Sorted: no later element is less than an earlier one. *)
Definition ordered (l : list A) : Prop := StronglySorted (fun a b => less b a = false) l.

Lemma stable_insert_ordered x l : P x -> Forall P l -> ordered l -> ordered (stable_insert x l).
Proof.
  intros Px Pl S. induction S as [|y l S IH F]; cbn; [repeat constructor|].
  apply Forall_cons in Pl as [Py Pl]. destruct (less y x) eqn:E.
  - constructor; [now apply IH|]. apply Forall_forall. intros z Hz. rewrite stable_insert_perm in Hz.
    apply elem_of_cons in Hz as [->|Hz]; [now apply less_asym|]. rewrite Forall_forall in F. now apply F.
  - constructor; [now constructor|]. apply Forall_cons. split; [assumption|]. apply Forall_forall. intros z Hz.
    rewrite Forall_forall in F, Pl. apply (nless_trans x y z); auto.
Qed.

Lemma stable_sort_ordered l : Forall P l -> ordered (stable_sort l).
Proof.
  intros Pl. induction l as [|x l IH]; cbn; [constructor|]. apply Forall_cons in Pl as [Px Pl].
  apply stable_insert_ordered; auto. now rewrite stable_sort_perm.
Qed.
End StableSort.

(** ** Grouping a run of elements under leaders

    The loop that appends an element to the last group when it ties with that
    group's first element, and opens a new group otherwise. *)

Section Groups.
Context {A : Type} (tie : A -> A -> bool).

(** [groups] newest last, as the Go slices are. *)
Definition group_step (groups : list (list A)) (i : A) : list (list A) :=
  match last groups with
  | Some g =>
      match g with
      | lead :: _ => if tie lead i then take (length groups - 1) groups ++ [g ++ [i]] else groups ++ [[i]]
      | [] => groups ++ [[i]]
      end
  | None => groups ++ [[i]]
  end.

Definition group_by_leader (l : list A) : list (list A) := foldl group_step [] l.

Definition group_ok (g : list A) : Prop :=
  match g with [] => False | lead :: rest => Forall (fun i => tie lead i = true) rest end.

Record groups_inv (l : list A) (groups : list (list A)) : Prop := {
  gi_concat : concat groups = l;
  gi_ok : Forall group_ok groups;
  gi_leads : forall k lead g lead' g', groups !! k = Some (lead :: g) -> groups !! S k = Some (lead' :: g') ->
    tie lead lead' = false;
}.

Lemma group_step_inv l groups i : groups_inv l groups -> groups_inv (l ++ [i]) (group_step groups i).
Proof.
  intros [C O L]. unfold group_step. destruct (last groups) as [g|] eqn:E.
  - apply last_Some in E as [gs ->]. pose proof O as O'. apply Forall_app in O' as [Og Ol]. apply Forall_inv in Ol.
    destruct g as [|lead rest]; [destruct Ol|]. rewrite concat_app in C. cbn in C. rewrite app_nil_r in C.
    destruct (tie lead i) eqn:T.
    + rewrite length_app. cbn [length]. replace (length gs + 1 - 1)%nat with (length gs) by lia.
      rewrite take_app_length. constructor.
      * rewrite concat_app. cbn. rewrite app_nil_r, <- C. now rewrite <- app_assoc.
      * apply Forall_app. split; [assumption|]. repeat constructor. apply Forall_app; auto.
      * intros k x gx y gy Hk Hk'. apply lookup_app_Some in Hk' as [Hk'|[Hle Hk']].
        -- pose proof (lookup_lt_Some _ _ _ Hk'). rewrite lookup_app_l in Hk by lia.
           apply (L k x gx y gy); now apply lookup_app_l_Some.
        -- apply list_lookup_singleton_Some in Hk' as [Hz [= <- <-]].
           rewrite lookup_app_l in Hk by lia. apply (L k x gx lead rest); [now apply lookup_app_l_Some|].
           rewrite lookup_app_r by lia. now replace (S k - length gs)%nat with 0%nat by lia.
    + constructor.
      * rewrite concat_app. cbn. rewrite concat_app. cbn. rewrite app_nil_r. now rewrite C.
      * apply Forall_app. split; [assumption|]. repeat constructor.
      * intros k x gx y gy Hk Hk'. apply lookup_app_Some in Hk' as [Hk'|[Hle Hk']].
        -- pose proof (lookup_lt_Some _ _ _ Hk'). rewrite lookup_app_l in Hk by lia. eapply L; eauto.
        -- apply list_lookup_singleton_Some in Hk' as [Hz [= <- <-]]. rewrite length_app in Hle, Hz. cbn in Hle, Hz.
           assert (k = length gs) as -> by lia. rewrite lookup_app_l in Hk by (rewrite length_app; cbn; lia).
           rewrite lookup_app_r in Hk by lia. rewrite Nat.sub_diag in Hk. injection Hk as <- <-. exact T.
  - apply last_None in E as ->. cbn in *. subst l. constructor; [reflexivity|repeat constructor|].
    intros k x gx y gy _ Hk'. now destruct k.
Qed.

Lemma group_by_leader_inv l : groups_inv l (group_by_leader l).
Proof.
  unfold group_by_leader. induction l as [|i l IH] using rev_ind.
  - constructor; [reflexivity|constructor|]. intros k x gx y gy Hk. now destruct k.
  - rewrite foldl_app. cbn. now apply group_step_inv.
Qed.
End Groups.

(** ** Keys *)

(** Elements of a list with pairwise different keys are determined by their key. *)
Lemma NoDup_key_unique {A B} (f : A -> B) (l : list A) x y :
  NoDup (f <$> l) -> x ∈ l -> y ∈ l -> f x = f y -> x = y.
Proof.
  intros N [i Hi]%list_elem_of_lookup [j Hj]%list_elem_of_lookup E.
  assert (i = j) as ->; [|congruence].
  eapply (NoDup_lookup _ i j (f x) N); rewrite list_lookup_fmap; [now rewrite Hi|rewrite Hj; cbn; now rewrite E].
Qed.

(** Adding a fresh element. *)
Lemma NoDup_snoc {A} (l : list A) x : NoDup l -> x ∉ l -> NoDup (l ++ [x]).
Proof.
  intros N F. apply NoDup_app. split; [assumption|]. split; [|apply NoDup_singleton].
  intros y Hy ->%list_elem_of_singleton. contradiction.
Qed.
