(* ===== verification/Float64.v ===== *)
(** * Go's [float64]

    Every numeric column of ForecastIQ (metric values, scores, weights, rate
    limiter tokens) is a Go [float64], an IEEE-754 binary64 number.  The
    definitions of this file fix the Standard Library's executable
    specification of IEEE arithmetic ([SpecFloat], round to nearest even) at
    binary64 and name the operations as the Go code uses them: [+ - * /],
    [<], [<=], [==], [math.Abs], [math.Sqrt], the conversions [float64(n)] and
    [int(x)].  Every operation is rounded on its own (the amd64 build; the
    language also allows a fused multiply-add).  A decimal literal of the source
    is the correctly rounded quotient of two exactly represented integers.

    The second half is the theory of the comparison operators, NaN included:
    comparison is a strict weak order on the numbers that are not NaN. *)

From Stdlib Require Import ZArith Lia Bool.
From Stdlib Require Import SpecFloat.
From stdpp Require Import base decidable option list.
From S2P Require Import Prelude.

Local Open Scope Z_scope.

(** ** Representation and operations *)

Definition prec : Z := 53.
Definition emax : Z := 1024.

Definition float64 : Type := spec_float.

#[export] Instance float64_eq_dec : EqDecision float64.
Proof. intros x y; unfold Decision, float64 in *; repeat decide equality. Defined.

Definition fadd (x y : float64) : float64 := SFadd prec emax x y.
Definition fsub (x y : float64) : float64 := SFsub prec emax x y.
Definition fmul (x y : float64) : float64 := SFmul prec emax x y.
Definition fdiv (x y : float64) : float64 := SFdiv prec emax x y.
Definition fsqrt (x : float64) : float64 := SFsqrt prec emax x.
Definition fabs (x : float64) : float64 := SFabs x.
Definition fopp (x : float64) : float64 := SFopp x.
Definition fltb (x y : float64) : bool := SFltb x y.
Definition fleb (x y : float64) : bool := SFleb x y.
Definition feqb (x y : float64) : bool := SFeqb x y.

(** [float64(n)] for a Go integer. *)
Definition f64_of_Z (n : Z) : float64 := binary_normalize prec emax n 0 false.

(** The literal [n/d]. *)
Definition f64_lit (n d : Z) : float64 := fdiv (f64_of_Z n) (f64_of_Z d).

(** [int(x)]: truncation toward zero.  Go leaves the conversion of a value
    out of range (NaN and infinities included) to the implementation; [None]
    stands for it. *)
Definition f64_to_Z (x : float64) : option Z :=
  match x with
  | S754_zero _ => Some 0
  | S754_finite s m e =>
      let a := if e <? 0 then Zpos m / 2 ^ (- e) else Zpos m * 2 ^ e in
      Some (if s then - a else a)
  | _ => None
  end.

Declare Scope f64_scope.
Delimit Scope f64_scope with f64.
Bind Scope f64_scope with float64.
Infix "+" := fadd : f64_scope.
Infix "-" := fsub : f64_scope.
Infix "*" := fmul : f64_scope.
Infix "/" := fdiv : f64_scope.
Infix "<?" := fltb : f64_scope.
Infix "<=?" := fleb : f64_scope.
Infix "=?" := feqb : f64_scope.

Definition f0 : float64 := f64_of_Z 0.
Definition f1 : float64 := f64_of_Z 1.

Definition is_nan (x : float64) : bool :=
  match x with S754_nan => true | _ => false end.

Definition is_finite (x : float64) : bool :=
  match x with S754_zero _ | S754_finite _ _ _ => true | _ => false end.

(** [valid x]: the mantissa and exponent of [x] are in binary64's canonical
    form, as every value a Go program holds is. *)
Definition valid (x : float64) : bool := valid_binary prec emax x.

(** ** Comparison

    [SFcompare] orders the finite numbers by sign, then exponent, then
    mantissa; [fkey] makes the lexicographic key explicit, so that [lia] decides
    the order properties. *)

Definition fkey (x : float64) : Z * Z * Z :=
  match x with
  | S754_nan => (3, 0, 0)
  | S754_infinity true => (-2, 0, 0)
  | S754_finite true m e => (-1, - e, - Zpos m)
  | S754_zero _ => (0, 0, 0)
  | S754_finite false m e => (1, e, Zpos m)
  | S754_infinity false => (2, 0, 0)
  end.

Definition klt (a b : Z * Z * Z) : Prop :=
  let '(a1, a2, a3) := a in
  let '(b1, b2, b3) := b in
  a1 < b1 \/ (a1 = b1 /\ (a2 < b2 \/ (a2 = b2 /\ a3 < b3))).

Definition kle (a b : Z * Z * Z) : Prop := klt a b \/ a = b.

Lemma klt_trichotomy a b : klt a b \/ a = b \/ klt b a.
Proof.
  destruct a as [[a1 a2] a3], b as [[b1 b2] b3]; unfold klt.
  destruct (Z.lt_trichotomy a1 b1) as [?|[->|?]]; [lia| |lia].
  destruct (Z.lt_trichotomy a2 b2) as [?|[->|?]]; [lia| |lia].
  destruct (Z.lt_trichotomy a3 b3) as [?|[->|?]]; [lia|auto|lia].
Qed.

Lemma klt_irrefl a : ~ klt a a.
Proof. destruct a as [[a1 a2] a3]; unfold klt; lia. Qed.

Lemma klt_trans a b c : klt a b -> klt b c -> klt a c.
Proof.
  destruct a as [[a1 a2] a3], b as [[b1 b2] b3], c as [[c1 c2] c3]; unfold klt; lia.
Qed.

Lemma SFcompare_key x y :
  is_nan x = false -> is_nan y = false ->
  match SFcompare x y with
  | Some Lt => klt (fkey x) (fkey y)
  | Some Eq => fkey x = fkey y
  | Some Gt => klt (fkey y) (fkey x)
  | None => False
  end.
Proof.
  destruct x as [[]|[]| |[] m e], y as [[]|[]| |[] m' e'];
    cbn; intros Hx Hy; try discriminate; try reflexivity; try lia.
  - destruct (Z.compare_spec e e'); [subst e'|lia|lia].
    change (Pos.compare_cont Eq m m') with (Pos.compare m m').
    destruct (Pos.compare_spec m m'); cbn; [subst; reflexivity|lia|lia].
  - destruct (Z.compare_spec e e'); [subst e'|lia|lia].
    change (Pos.compare_cont Eq m m') with (Pos.compare m m').
    destruct (Pos.compare_spec m m'); cbn; [subst; reflexivity|lia|lia].
Qed.

Lemma fltb_klt x y :
  fltb x y = true <-> is_nan x = false /\ is_nan y = false /\ klt (fkey x) (fkey y).
Proof.
  destruct (is_nan x) eqn:Hx; [destruct x as [[]|[]| |[]]; cbn in *; split; intros; easy|].
  destruct (is_nan y) eqn:Hy; [destruct y, x; cbn in *; split; intros; easy|].
  pose proof (SFcompare_key x y Hx Hy) as H.
  unfold fltb, SFltb; destruct (SFcompare x y) as [[]|]; [| | |easy].
  - rewrite H; split; [easy|]; intros (_ & _ & Hk); now apply klt_irrefl in Hk.
  - easy.
  - split; [easy|]; intros (_ & _ & Hk). now destruct (klt_irrefl _ (klt_trans _ _ _ H Hk)).
Qed.

Lemma fleb_kle x y :
  fleb x y = true <-> is_nan x = false /\ is_nan y = false /\ kle (fkey x) (fkey y).
Proof.
  destruct (is_nan x) eqn:Hx; [destruct x as [[]|[]| |[]]; cbn in *; split; intros; easy|].
  destruct (is_nan y) eqn:Hy; [destruct y, x; cbn in *; split; intros; easy|].
  pose proof (SFcompare_key x y Hx Hy) as H. unfold kle.
  unfold fleb, SFleb; destruct (SFcompare x y) as [[]|]; [| | |easy].
  - rewrite H; tauto.
  - tauto.
  - split; [easy|]; intros (_ & _ & [Hk|Hk]).
    + now destruct (klt_irrefl _ (klt_trans _ _ _ H Hk)).
    + rewrite Hk in H. now apply klt_irrefl in H.
Qed.

Lemma feqb_key x y :
  feqb x y = true <-> is_nan x = false /\ is_nan y = false /\ fkey x = fkey y.
Proof.
  destruct (is_nan x) eqn:Hx; [destruct x as [[]|[]| |[]]; cbn in *; split; intros; easy|].
  destruct (is_nan y) eqn:Hy; [destruct y, x; cbn in *; split; intros; easy|].
  pose proof (SFcompare_key x y Hx Hy) as H.
  unfold feqb, SFeqb; destruct (SFcompare x y) as [[]|]; [| | |easy].
  - tauto.
  - split; [easy|]; intros (_ & _ & Hk); rewrite Hk in H; now apply klt_irrefl in H.
  - split; [easy|]; intros (_ & _ & Hk); rewrite Hk in H; now apply klt_irrefl in H.
Qed.

Lemma fltb_irrefl x : fltb x x = false.
Proof.
  apply not_true_is_false; rewrite fltb_klt; intros (_ & _ & H); now apply klt_irrefl in H.
Qed.

Lemma fltb_trans x y z : fltb x y = true -> fltb y z = true -> fltb x z = true.
Proof. rewrite !fltb_klt; intros (? & ? & ?) (? & ? & ?); eauto using klt_trans. Qed.

Lemma fleb_refl x : is_nan x = false -> fleb x x = true.
Proof. rewrite fleb_kle; unfold kle; auto. Qed.

Lemma fleb_trans x y z : fleb x y = true -> fleb y z = true -> fleb x z = true.
Proof.
  rewrite !fleb_kle; unfold kle; intros (? & ? & [?|E]) (? & ? & [?|E']).
  all: repeat split; eauto using klt_trans.
  all: try (rewrite E in *; tauto); rewrite <- E' in *; tauto.
Qed.

Lemma fltb_fleb x y : fltb x y = true -> fleb x y = true.
Proof. rewrite fltb_klt, fleb_kle; unfold kle; tauto. Qed.

Lemma fltb_fleb_trans x y z : fltb x y = true -> fleb y z = true -> fltb x z = true.
Proof.
  rewrite !fleb_kle, !fltb_klt; unfold kle; intros (? & ? & ?) (? & ? & [?|E]).
  - repeat split; eauto using klt_trans.
  - rewrite <- E in *; tauto.
Qed.

Lemma fleb_fltb_trans x y z : fleb x y = true -> fltb y z = true -> fltb x z = true.
Proof.
  rewrite !fleb_kle, !fltb_klt; unfold kle; intros (? & ? & [?|E]) (? & ? & ?).
  - repeat split; eauto using klt_trans.
  - rewrite E in *; tauto.
Qed.

(** On numbers that are not NaN, [<] and [<=] are complementary. *)
Lemma fltb_false_fleb x y :
  is_nan x = false -> is_nan y = false -> fltb x y = false <-> fleb y x = true.
Proof.
  intros Hx Hy; split.
  - intros H; rewrite fleb_kle; repeat split; auto. unfold kle.
    destruct (klt_trichotomy (fkey x) (fkey y)) as [K|[K|K]]; [|now auto|now auto].
    exfalso; revert H; apply not_false_iff_true, fltb_klt; auto.
  - intros H; apply not_true_is_false; intros K.
    pose proof (fltb_fleb_trans _ _ _ K H) as F. now rewrite fltb_irrefl in F.
Qed.

Lemma fleb_false_fltb x y :
  is_nan x = false -> is_nan y = false -> fleb x y = false <-> fltb y x = true.
Proof.
  intros Hx Hy; pose proof (fltb_false_fleb y x Hy Hx) as H.
  destruct (fleb x y), (fltb y x); intuition congruence.
Qed.

Lemma fleb_not_nan x y : fleb x y = true -> is_nan x = false /\ is_nan y = false.
Proof. rewrite fleb_kle; tauto. Qed.

Lemma fltb_not_nan x y : fltb x y = true -> is_nan x = false /\ is_nan y = false.
Proof. rewrite fltb_klt; tauto. Qed.
