(* ===== verification/Float64Round.v ===== *)
(** * Rounding of binary64 is monotone

    IEEE-754 rounding, as [SpecFloat] computes it (shift right with a round
    and a sticky bit, then to nearest even), never crosses a representable
    number: if the exact result of an operation is on one side of a float [f],
    so is the rounded result.  From this one fact about [binary_round_aux] the
    file derives the bounds the components use: a quotient of [0 <= a <= b] is
    at most one, [x - h <= x <= x + h] for [h >= 0], a product of two numbers of
    the unit interval stays in it, sums of non-negative numbers do not shrink;
    and that none of these is NaN. *)

From Stdlib Require Import ZArith Lia Bool.
From Stdlib Require Import SpecFloat.
From stdpp Require Import base.
From S2P Require Import Prelude Float64.

Local Open Scope Z_scope.

(** ** Digits *)

Lemma digits2_pos_bounds p :
  2 ^ (Zpos (digits2_pos p) - 1) <= Zpos p < 2 ^ Zpos (digits2_pos p).
Proof.
  induction p as [p IH|p IH|]; cbn [digits2_pos]; [| |cbn; lia].
  all: rewrite !Pos2Z.inj_succ; set (d := Zpos (digits2_pos p)) in *.
  all: assert (0 < d) by lia.
  all: replace (Z.succ d - 1) with (Z.succ (d - 1)) by lia.
  all: rewrite !Z.pow_succ_r by lia; lia.
Qed.

Lemma Zdigits2_bounds m : 0 < m -> 2 ^ (Zdigits2 m - 1) <= m < 2 ^ Zdigits2 m.
Proof. destruct m; cbn; try lia. intros _; apply digits2_pos_bounds. Qed.

Lemma Zdigits2_pos m : 0 < m -> 0 < Zdigits2 m.
Proof. destruct m; cbn; lia. Qed.

Lemma Zdigits2_unique m d : 0 < d -> 2 ^ (d - 1) <= m < 2 ^ d -> Zdigits2 m = d.
Proof.
  intros Hd [H1 H2]. assert (0 < 2 ^ (d - 1)) by (apply Z.pow_pos_nonneg; lia).
  assert (0 < m) as Hm by lia.
  pose proof (Zdigits2_bounds m Hm) as [K1 K2]. pose proof (Zdigits2_pos m Hm).
  destruct (Z.lt_trichotomy (Zdigits2 m) d) as [E|[E|E]]; [|assumption|].
  - assert (2 ^ Zdigits2 m <= 2 ^ (d - 1)) by (apply Z.pow_le_mono_r; lia). lia.
  - assert (2 ^ d <= 2 ^ (Zdigits2 m - 1)) by (apply Z.pow_le_mono_r; lia). lia.
Qed.

(** ** The right shift with round and sticky bits *)

Lemma iter_pos_add {A} (f : A -> A) p x :
  SpecFloat.iter_pos f p x = Nat.iter (Pos.to_nat p) f x.
Proof.
  revert x; induction p as [p IH|p IH|]; intros x; cbn [SpecFloat.iter_pos].
  - rewrite !IH, Pos2Nat.inj_xI, Nat.iter_succ_r.
    replace (2 * Pos.to_nat p)%nat with (Pos.to_nat p + Pos.to_nat p)%nat by lia.
    now rewrite Nat.iter_add.
  - rewrite !IH, Pos2Nat.inj_xO.
    replace (2 * Pos.to_nat p)%nat with (Pos.to_nat p + Pos.to_nat p)%nat by lia.
    now rewrite Nat.iter_add.
  - reflexivity.
Qed.

Lemma shr_1_m mrs : 0 <= shr_m mrs -> shr_m (shr_1 mrs) = shr_m mrs / 2.
Proof.
  destruct mrs as [[|[p|p|]|p] r s]; cbn [shr_m shr_1]; intros H; try reflexivity; [| |lia].
  - apply (Z.div_unique (Zpos p~1) 2 (Zpos p) 1); lia.
  - apply (Z.div_unique (Zpos p~0) 2 (Zpos p) 0); lia.
Qed.

Lemma shr_1_exact m : 0 <= m -> Z.even m = true ->
  loc_of_shr_record (shr_1 (Build_shr_record m false false)) = loc_Exact.
Proof. destruct m as [|[p|p|]|p]; cbn; try easy; lia. Qed.

Lemma shr_iter_m n mrs : 0 <= shr_m mrs ->
  shr_m (Nat.iter n shr_1 mrs) = shr_m mrs / 2 ^ Z.of_nat n.
Proof.
  intros H; induction n as [|n IH].
  - cbn. now rewrite Z.div_1_r.
  - rewrite Nat.iter_succ, shr_1_m.
    + rewrite IH, Nat2Z.inj_succ, Z.pow_succ_r by lia.
      rewrite (Z.mul_comm 2), <- Z.div_div by lia. reflexivity.
    + rewrite IH. apply Z.div_pos; [assumption|lia].
Qed.

Lemma shr_iter_exact n m : 0 <= m -> m mod 2 ^ Z.of_nat n = 0 ->
  Nat.iter n shr_1 (Build_shr_record m false false)
  = Build_shr_record (m / 2 ^ Z.of_nat n) false false.
Proof.
  revert m; induction n as [|n IH]; intros m Hm Hmod.
  - cbn. now rewrite Z.div_1_r.
  - rewrite Nat.iter_succ, Nat2Z.inj_succ, Z.pow_succ_r in * by lia.
    assert (Hd : (2 ^ Z.of_nat n * 2 | m)).
    { apply Z.mod_divide; [lia|]. now rewrite Z.mul_comm. }
    destruct Hd as [k ->].
    rewrite IH; [|lia|].
    2: { replace (k * (2 ^ Z.of_nat n * 2)) with (k * 2 * 2 ^ Z.of_nat n) by lia.
         apply Z.mod_mul; lia. }
    replace (k * (2 ^ Z.of_nat n * 2)) with (k * 2 * 2 ^ Z.of_nat n) by lia.
    rewrite Z.div_mul by lia.
    replace (k * 2 * 2 ^ Z.of_nat n) with (k * (2 * 2 ^ Z.of_nat n)) by lia.
    rewrite Z.div_mul by lia.
    destruct k as [|p|p]; [reflexivity| |lia]. rewrite Z.mul_comm. reflexivity.
Qed.

Lemma shr_spec mrs e n :
  0 <= shr_m mrs -> 0 <= n ->
  shr mrs e n = (Nat.iter (Z.to_nat n) shr_1 mrs, e + n).
Proof.
  intros Hm Hn; destruct n as [|p|p]; [|cbn [shr]|lia].
  - cbn. now rewrite Z.add_0_r.
  - rewrite iter_pos_add. reflexivity.
Qed.

Lemma shr_record_of_loc_m m l : shr_m (shr_record_of_loc m l) = m.
Proof. now destruct l as [|[]]. Qed.

Lemma shr_fexp_m m e l n :
  0 <= m -> n = fexp prec emax (Zdigits2 m + e) - e -> 0 <= n ->
  shr_m (fst (shr_fexp prec emax m e l)) = m / 2 ^ n /\
  snd (shr_fexp prec emax m e l) = e + n.
Proof.
  intros Hm -> Hn. unfold shr_fexp.
  rewrite shr_spec; [|now rewrite shr_record_of_loc_m|assumption].
  cbn [fst snd]. split; [|reflexivity].
  rewrite shr_iter_m by now rewrite shr_record_of_loc_m.
  now rewrite shr_record_of_loc_m, Z2Nat.id.
Qed.

Lemma shr_fexp_exact m e n :
  0 <= m -> n = fexp prec emax (Zdigits2 m + e) - e -> 0 <= n -> m mod 2 ^ n = 0 ->
  shr_fexp prec emax m e loc_Exact = (Build_shr_record (m / 2 ^ n) false false, e + n).
Proof.
  intros Hm -> Hn Hmod. unfold shr_fexp.
  rewrite shr_spec by (cbn; lia). cbn [shr_record_of_loc].
  rewrite shr_iter_exact; [|assumption|now rewrite Z2Nat.id].
  now rewrite Z2Nat.id.
Qed.

Lemma shr_fexp_le m e l :
  fexp prec emax (Zdigits2 m + e) <= e ->
  shr_fexp prec emax m e l = (shr_record_of_loc m l, e).
Proof.
  intros H. unfold shr_fexp, shr.
  destruct (fexp prec emax (Zdigits2 m + e) - e) eqn:E; try reflexivity; lia.
Qed.

Lemma round_nearest_even_cases m l :
  (l = loc_Exact /\ round_nearest_even m l = m) \/
  (l <> loc_Exact /\ (round_nearest_even m l = m \/ round_nearest_even m l = m + 1)).
Proof.
  destruct l as [|[]]; cbn; [auto|right|right|right]; (split; [discriminate|]); auto.
  destruct (Z.even m); auto.
Qed.

(** ** The shape of a rounded result

    [fine m e]: the exponent of an unrounded magnitude [m * 2^e] is fine enough
    for one rounding (what every operation of [SpecFloat] arranges before it
    rounds). *)
Definition fine (m e : Z) : Prop :=
  0 <= m /\ e <= fexp prec emax (Zdigits2 m + e) /\ (m = 0 -> e <= -1074).

Definition canonical (m e : Z) : Prop :=
  0 < m /\ fexp prec emax (Zdigits2 m + e) = e.

Lemma canonical_bounds m e :
  canonical m e ->
  0 < m < 2 ^ prec /\ -1074 <= e /\ (-1074 < e -> 2 ^ (prec - 1) <= m).
Proof.
  intros [Hm H]. pose proof (Zdigits2_bounds m Hm) as [B1 B2].
  pose proof (Zdigits2_pos m Hm). unfold fexp, emin, prec, emax in *.
  assert (Zdigits2 m <= 53) by lia.
  assert (2 ^ Zdigits2 m <= 2 ^ 53) by (apply Z.pow_le_mono_r; lia).
  repeat split; try lia.
  intros He. assert (Zdigits2 m = 53) as Hd by lia. rewrite Hd in B1. exact B1.
Qed.

Lemma canonical_intro m e :
  0 < m < 2 ^ prec -> -1074 <= e -> (-1074 < e -> 2 ^ (prec - 1) <= m) -> canonical m e.
Proof.
  intros [Hm Hu] He Hl; split; [assumption|].
  pose proof (Zdigits2_bounds m Hm) as [B1 B2]. pose proof (Zdigits2_pos m Hm).
  unfold fexp, emin, prec, emax in *.
  assert (Zdigits2 m <= 53).
  { destruct (Z.le_gt_cases (Zdigits2 m) 53); [assumption|exfalso].
    assert (2 ^ 53 <= 2 ^ (Zdigits2 m - 1)) by (apply Z.pow_le_mono_r; lia). lia. }
  destruct (Z.eq_dec e (-1074)) as [->|]; [lia|].
  rewrite (Zdigits2_unique m 53); [lia|lia|lia].
Qed.

(** The first shift: [m1] is the mantissa truncated to the target exponent
    [e1], [m2] the rounded one. *)
Lemma fine_first_shift m e l :
  fine m e ->
  let e1 := fexp prec emax (Zdigits2 m + e) in
  let m1 := m / 2 ^ (e1 - e) in
  exists m2,
    (m2 = m1 \/ m2 = m1 + 1) /\
    (l = loc_Exact -> m mod 2 ^ (e1 - e) = 0 -> m2 = m1) /\
    0 <= m1 < 2 ^ prec /\ -1074 <= e1 /\ (-1074 < e1 -> 2 ^ (prec - 1) <= m1) /\
    (forall s, binary_round_aux prec emax s m e l =
       let '(mrs, e'') := shr_fexp prec emax m2 e1 loc_Exact in
       match shr_m mrs with
       | Z0 => S754_zero s
       | Zpos p => if e'' <=? emax - prec then S754_finite s p e'' else S754_infinity s
       | _ => S754_nan
       end).
Proof.
  intros (Hm & Hf & H0) e1 m1.
  destruct (shr_fexp_m m e l (e1 - e) ltac:(lia) eq_refl ltac:(unfold e1; lia)) as [S1 S2].
  exists (round_nearest_even (shr_m (fst (shr_fexp prec emax m e l)))
            (loc_of_shr_record (fst (shr_fexp prec emax m e l)))).
  fold m1 in S1. rewrite S1.
  assert (0 < 2 ^ (e1 - e)) by (apply Z.pow_pos_nonneg; unfold e1; lia).
  split; [destruct (round_nearest_even_cases m1 (loc_of_shr_record (fst (shr_fexp prec emax m e l)))); intuition|].
  split.
  { intros -> Hmod.
    rewrite (shr_fexp_exact m e (e1 - e)); [reflexivity|lia|reflexivity|unfold e1; lia|assumption]. }
  assert (m1 < 2 ^ prec /\ (-1074 < e1 -> 2 ^ (prec - 1) <= m1)) as [U L].
  { unfold m1. destruct (Z.eq_dec m 0) as [->|Hm0].
    { specialize (H0 eq_refl). rewrite Z.div_0_l by lia. split; [unfold prec; lia|].
      unfold e1, fexp, emin, prec, emax; cbn [Zdigits2]; lia. }
    assert (Hp : 0 < m) by lia.
    pose proof (Zdigits2_bounds m Hp) as [B1 B2]. pose proof (Zdigits2_pos m Hp) as Hd. split.
    - apply Z.div_lt_upper_bound; [assumption|].
      rewrite <- Z.pow_add_r by (unfold e1, prec in *; lia).
      apply (Z.lt_le_trans _ _ _ B2), Z.pow_le_mono_r; [lia|].
      unfold e1, fexp, prec; lia.
    - intros He. apply Z.div_le_lower_bound; [assumption|].
      assert (Zdigits2 m + e - 53 = e1) by (unfold e1, fexp, emin, prec, emax in *; lia).
      rewrite <- Z.pow_add_r by (unfold prec in *; lia).
      replace (e1 - e + (prec - 1)) with (Zdigits2 m - 1) by (unfold prec; lia). exact B1. }
  repeat split; auto.
  - apply Z.div_pos; lia.
  - unfold e1, fexp, emin, prec, emax; lia.
  - intros s. unfold binary_round_aux. rewrite (surjective_pairing (shr_fexp prec emax m e l)).
    rewrite S1, S2. replace (e + (e1 - e)) with e1 by lia. reflexivity.
Qed.

(** A rounded mantissa is put back in canonical form. *)
Definition pack (s : bool) (m2 e1 : Z) : float64 :=
  if m2 =? 0 then S754_zero s
  else if m2 <? 2 ^ prec then
    if e1 <=? emax - prec then S754_finite s (Z.to_pos m2) e1 else S754_infinity s
  else
    if e1 + 1 <=? emax - prec then S754_finite s (Z.to_pos (2 ^ (prec - 1))) (e1 + 1)
    else S754_infinity s.

Lemma round_aux_pack m e l :
  fine m e ->
  let e1 := fexp prec emax (Zdigits2 m + e) in
  let m1 := m / 2 ^ (e1 - e) in
  exists m2,
    (m2 = m1 \/ m2 = m1 + 1) /\
    (l = loc_Exact -> m mod 2 ^ (e1 - e) = 0 -> m2 = m1) /\
    0 <= m1 < 2 ^ prec /\ -1074 <= e1 /\ (-1074 < e1 -> 2 ^ (prec - 1) <= m1) /\
    (forall s, binary_round_aux prec emax s m e l = pack s m2 e1).
Proof.
  intros Hf e1 m1. destruct (fine_first_shift m e l Hf) as (m2 & C & X & [P U] & E & L & R).
  fold e1 in C, X, P, U, E, L, R; fold m1 in C, P, U, L.
  exists m2; repeat split; auto. intros s. rewrite R. unfold pack.
  destruct (Z.eqb_spec m2 0) as [->|N0].
  { rewrite shr_fexp_le; [reflexivity|].
    unfold fexp, emin, prec, emax; cbn [Zdigits2]; lia. }
  destruct (Z.ltb_spec m2 (2 ^ prec)) as [Hlt|Hge].
  - assert (canonical m2 e1) as [_ Hc] by (apply canonical_intro; lia).
    rewrite shr_fexp_le by lia. rewrite shr_record_of_loc_m.
    destruct m2 as [|p|p]; [lia|reflexivity|lia].
  - assert (m2 = 2 ^ prec) as -> by lia.
    assert (Hd : fexp prec emax (Zdigits2 (2 ^ prec) + e1) - e1 = 1).
    { unfold fexp, emin, prec, emax in *. cbn [Zdigits2 digits2_pos]. change (Zdigits2 (2 ^ 53)) with 54. lia. }
    rewrite (shr_fexp_exact (2 ^ prec) e1 1); [|unfold prec; lia|lia|lia|reflexivity].
    reflexivity.
Qed.

Lemma pow2_cancel a b k : 0 <= k -> a * 2 ^ k <= b * 2 ^ k <-> a <= b.
Proof. intros Hk; symmetry; apply Z.mul_le_mono_pos_r, Z.pow_pos_nonneg; lia. Qed.

(** If [mf * 2^ef < 2^..] on the scale [2^k], the binades compare. *)
Lemma binade_le m e m' e' k :
  0 < m -> 0 < m' -> k <= e -> k <= e' ->
  m * 2 ^ (e - k) <= m' * 2 ^ (e' - k) -> Zdigits2 m + e <= Zdigits2 m' + e'.
Proof.
  intros Hm Hm' He He' H.
  pose proof (Zdigits2_bounds m Hm) as [B _]. pose proof (Zdigits2_bounds m' Hm') as [_ B'].
  pose proof (Zdigits2_pos m Hm). pose proof (Zdigits2_pos m' Hm').
  assert (P : 0 < 2 ^ (e - k)) by (apply Z.pow_pos_nonneg; lia).
  assert (P' : 0 < 2 ^ (e' - k)) by (apply Z.pow_pos_nonneg; lia).
  assert (2 ^ (Zdigits2 m - 1 + (e - k)) < 2 ^ (Zdigits2 m' + (e' - k))) as K.
  { rewrite !Z.pow_add_r by lia. nia. }
  apply Z.pow_lt_mono_r_iff in K; lia.
Qed.

Lemma fexp_mono x y : x <= y -> fexp prec emax x <= fexp prec emax y.
Proof. unfold fexp; lia. Qed.

Notation pos_f m e := (S754_finite false m e).

(** Rounding does not go below a float that is below the exact value. *)
Lemma round_aux_lower m e l mf ef k :
  fine m e -> canonical (Zpos mf) ef -> k <= e -> k <= ef ->
  Zpos mf * 2 ^ (ef - k) <= m * 2 ^ (e - k) ->
  fleb (pos_f mf ef) (binary_round_aux prec emax false m e l) = true.
Proof.
  intros Hf Hc Hk Hkf H. pose proof Hf as (Hm & Hfe & _).
  assert (0 < m).
  { assert (0 < 2 ^ (ef - k)) by (apply Z.pow_pos_nonneg; lia).
    destruct (Z.eq_dec m 0) as [->|]; lia. }
  destruct (round_aux_pack m e l Hf) as (m2 & C & _ & [P U] & E & L & R).
  set (e1 := fexp prec emax (Zdigits2 m + e)) in *. set (m1 := m / 2 ^ (e1 - e)) in *.
  assert (ef <= e1).
  { destruct Hc as [_ <-]. apply fexp_mono. eapply binade_le; eauto; lia. }
  pose proof (canonical_bounds _ _ Hc) as (_ & Hlo & _).
  assert (Hmf : ef = e1 -> Zpos mf <= m1).
  { intros ->. apply Z.div_le_lower_bound; [apply Z.pow_pos_nonneg; lia|].
    rewrite <- (pow2_cancel _ _ (e - k)) by lia. rewrite Z.mul_comm, Z.mul_assoc.
    rewrite (Z.mul_comm _ (2 ^ (e1 - e))), <- Z.mul_assoc in *.
    replace (e1 - k) with ((e1 - e) + (e - k)) in H by lia. rewrite Z.pow_add_r in H by lia. lia. }
  assert (0 < m1) by (destruct (Z.eq_dec ef e1); [lia|specialize (L ltac:(lia)); unfold prec in L; lia]).
  rewrite R, fleb_kle. unfold pack. rewrite (proj2 (Z.eqb_neq m2 0)) by lia.
  destruct (Z.ltb_spec m2 (2 ^ prec)).
  - destruct (Z.leb_spec e1 (emax - prec)); cbn; repeat split; unfold kle, klt; [|left; lia].
    rewrite Z2Pos.id by lia. destruct (Z.eq_dec ef e1) as [->|]; [|left; lia].
    destruct (Z.eq_dec (Zpos mf) m2) as [->|]; [right; reflexivity|left; lia].
  - destruct (Z.leb_spec (e1 + 1) (emax - prec)); cbn; repeat split; unfold kle, klt; left; lia.
Qed.

(** Rounding does not go above a float that is above the exact value, which
    is [m * 2^e] when exact and below [(m + 1) * 2^e] otherwise. *)
Lemma round_aux_upper m e l mf ef k :
  fine m e -> canonical (Zpos mf) ef -> ef <= emax - prec -> k <= e -> k <= ef ->
  m * 2 ^ (e - k) <= Zpos mf * 2 ^ (ef - k) ->
  (l <> loc_Exact -> (m + 1) * 2 ^ (e - k) <= Zpos mf * 2 ^ (ef - k)) ->
  fleb (binary_round_aux prec emax false m e l) (pos_f mf ef) = true.
Proof.
  intros Hf Hc Hb Hk Hkf H Hx. pose proof Hf as (Hm & Hfe & H0).
  destruct (round_aux_pack m e l Hf) as (m2 & C & X & [P U] & E & L & R).
  set (e1 := fexp prec emax (Zdigits2 m + e)) in *. set (m1 := m / 2 ^ (e1 - e)) in *.
  pose proof (canonical_bounds _ _ Hc) as ((_ & Hmu) & Hlo & Hnorm).
  assert (Hee : e1 <= ef).
  { destruct (Z.eq_dec m 0) as [->|].
    - specialize (H0 eq_refl). unfold e1, fexp, emin, prec, emax; cbn [Zdigits2]; lia.
    - destruct Hc as [? <-]. apply fexp_mono. eapply binade_le; eauto; lia. }
  assert (Hpow : 0 < 2 ^ (e1 - e)) by (apply Z.pow_pos_nonneg; lia).
  assert (Hm2 : ef = e1 -> m2 <= Zpos mf).
  { intros ->. pose proof (Z.div_mod m (2 ^ (e1 - e)) ltac:(lia)) as D. fold m1 in D.
    pose proof (Z.mod_pos_bound m (2 ^ (e1 - e)) Hpow) as B.
    replace (e1 - k) with ((e1 - e) + (e - k)) in * by lia. rewrite Z.pow_add_r in * by lia.
    rewrite Z.mul_assoc, pow2_cancel in H by lia.
    destruct C as [->| ->]; [nia|].
    destruct l as [|c].
    - destruct (Z.eq_dec (m mod 2 ^ (e1 - e)) 0) as [Z0|]; [specialize (X eq_refl Z0); lia|nia].
    - specialize (Hx ltac:(discriminate)). rewrite Z.mul_assoc, pow2_cancel in Hx by lia. nia. }
  rewrite R, fleb_kle. unfold pack. destruct (Z.eqb_spec m2 0) as [->|N0].
  { cbn; repeat split. unfold kle, klt; left; lia. }
  destruct (Z.ltb_spec m2 (2 ^ prec)).
  - rewrite (proj2 (Z.leb_le e1 (emax - prec))) by lia. cbn; repeat split; unfold kle, klt.
    rewrite Z2Pos.id by lia. destruct (Z.eq_dec ef e1) as [->|]; [|left; lia].
    destruct (Z.eq_dec (Zpos mf) m2) as [->|]; [right; reflexivity|left; lia].
  - assert (ef <> e1) by (intros Ee; specialize (Hm2 Ee); lia).
    rewrite (proj2 (Z.leb_le (e1 + 1) (emax - prec))) by lia. cbn; repeat split; unfold kle, klt.
    destruct (Z.eq_dec ef (e1 + 1)) as [->|]; [|left; lia].
    specialize (Hnorm ltac:(lia)). unfold prec in *.
    destruct (Z.eq_dec (Zpos mf) (2 ^ 52)) as [->|]; [right; reflexivity|left; lia].
Qed.

(** ** Validity of results *)

Lemma valid_finite s m e :
  valid (S754_finite s m e) = true <-> canonical (Zpos m) e /\ e <= emax - prec.
Proof.
  unfold valid, valid_binary, bounded, canonical_mantissa, canonical.
  rewrite andb_true_iff, Z.eqb_eq, Z.leb_le. cbn [Zdigits2]. intuition lia.
Qed.

Lemma round_aux_valid s m e l :
  fine m e -> valid (binary_round_aux prec emax s m e l) = true.
Proof.
  intros Hf. destruct (round_aux_pack m e l Hf) as (m2 & C & _ & [P U] & E & L & R).
  rewrite R. unfold pack. destruct (Z.eqb_spec m2 0); [reflexivity|].
  destruct (Z.ltb_spec m2 (2 ^ prec)).
  - destruct (Z.leb_spec (fexp prec emax (Zdigits2 m + e)) (emax - prec)); [|reflexivity].
    apply valid_finite; split; [|assumption]. rewrite Z2Pos.id by lia.
    apply canonical_intro; lia.
  - destruct (Z.leb_spec (fexp prec emax (Zdigits2 m + e) + 1) (emax - prec)); [|reflexivity].
    apply valid_finite; split; [|assumption].
    change (Zpos (Z.to_pos (2 ^ (prec - 1)))) with (2 ^ 52).
    apply canonical_intro; unfold prec in *; lia.
Qed.

(** The result carries the requested sign and is never NaN. *)
Definition signed (s : bool) (x : float64) : Prop :=
  x = S754_zero s \/ x = S754_infinity s \/ exists m e, x = S754_finite s m e.

Lemma round_aux_signed s m e l :
  fine m e -> signed s (binary_round_aux prec emax s m e l).
Proof.
  intros Hf. destruct (round_aux_pack m e l Hf) as (m2 & _ & _ & _ & _ & _ & R).
  rewrite R. unfold pack, signed. simp_if; eauto.
Qed.

Lemma round_aux_opp m e l :
  fine m e ->
  binary_round_aux prec emax true m e l = fopp (binary_round_aux prec emax false m e l).
Proof.
  intros Hf. destruct (round_aux_pack m e l Hf) as (m2 & _ & _ & _ & _ & _ & R).
  rewrite !R. unfold pack. simp_if; reflexivity.
Qed.

Lemma shl_align_spec m e e' :
  e' <= e -> shl_align m e e' = (Z.to_pos (Zpos m * 2 ^ (e - e')), e').
Proof.
  intros H. unfold shl_align. destruct (e' - e) as [|d|d] eqn:E; [|lia|].
  - replace e' with e by lia. rewrite Z.sub_diag. cbn [Z.pow Z.pow_pos Pos.iter].
    now rewrite Z.mul_1_r.
  - f_equal. replace (e - e') with (Zpos d) by lia. clear E H.
    apply Pos2Z.inj. rewrite Z2Pos.id by (apply Z.mul_pos_pos; [lia|apply Z.pow_pos_nonneg; lia]).
    rewrite <- (positive_nat_Z d), (Pos2Nat.inj_iter d). generalize (Pos.to_nat d) as n.
    intros n; induction n as [|n IH]; [cbn; lia|].
    rewrite Nat2Z.inj_succ, Z.pow_succ_r by lia. cbn [nat_rect]. rewrite Pos2Z.inj_xO. lia.
Qed.

Lemma Zdigits2_shift m n : 0 < m -> 0 <= n -> Zdigits2 (m * 2 ^ n) = Zdigits2 m + n.
Proof.
  intros Hm Hn. pose proof (Zdigits2_bounds m Hm) as [B1 B2]. pose proof (Zdigits2_pos m Hm).
  assert (0 < 2 ^ n) by (apply Z.pow_pos_nonneg; lia).
  apply Zdigits2_unique; [lia|].
  replace (Zdigits2 m + n - 1) with (Zdigits2 m - 1 + n) by lia. rewrite !Z.pow_add_r by lia. nia.
Qed.

(** [binary_round] first refines the exponent: it is one rounding of the exact
    value. *)
Lemma shl_align_fine m e mz ez :
  shl_align m e (fexp prec emax (Zpos (digits2_pos m) + e)) = (mz, ez) ->
  fine (Zpos mz) ez /\ ez <= e /\ Zpos mz = Zpos m * 2 ^ (e - ez).
Proof.
  set (t := fexp prec emax (Zpos (digits2_pos m) + e)). intros S.
  destruct (Z.le_gt_cases t e) as [H|H].
  - rewrite shl_align_spec in S by assumption. injection S as <- <-.
    assert (0 < 2 ^ (e - t)) by (apply Z.pow_pos_nonneg; lia).
    rewrite Z2Pos.id by lia. repeat split; try lia.
    rewrite Zdigits2_shift by lia. cbn [Zdigits2].
    replace (Zpos (digits2_pos m) + (e - t) + t) with (Zpos (digits2_pos m) + e) by lia. fold t; lia.
  - assert ((m, e) = (mz, ez)) as [= <- <-].
    { rewrite <- S. unfold shl_align. destruct (t - e) eqn:E; try lia; reflexivity. }
    rewrite Z.sub_diag, Z.mul_1_r. repeat split; try lia. cbn [Zdigits2]; fold t; lia.
Qed.

Lemma binary_round_fine m e :
  exists m' e', fine m' e' /\ e' <= e /\ m' = Zpos m * 2 ^ (e - e') /\
    forall s, binary_round prec emax s m e = binary_round_aux prec emax s m' e' loc_Exact.
Proof.
  unfold binary_round. destruct (shl_align m e _) as [mz ez] eqn:S.
  destruct (shl_align_fine _ _ _ _ S) as (? & ? & ?). eauto 10.
Qed.

(** ** Signed exact values

    [sval k x] is the finite number [x] as an integer multiple of [2^k]. *)
Definition fexpo (x : float64) : Z := match x with S754_finite _ _ e => e | _ => 0 end.

Definition sval (k : Z) (x : float64) : Z :=
  match x with
  | S754_finite s m e => cond_Zopp s (Zpos m * 2 ^ (e - k))
  | _ => 0
  end.

Lemma fopp_fleb x y : fleb x y = true -> fleb (fopp y) (fopp x) = true.
Proof.
  rewrite !fleb_kle. unfold kle.
  destruct x as [[]|[]| |[] m e], y as [[]|[]| |[] m' e']; cbn; intros (? & ? & [H|H]);
    try easy; repeat split; try (left; lia); auto.
  all: right; injection H; intros; f_equal; [f_equal|]; lia.
Qed.

Lemma fopp_involutive x : fopp (fopp x) = x.
Proof. destruct x as [[]|[]| |[]]; reflexivity. Qed.

Lemma fopp_valid x : valid (fopp x) = valid x.
Proof. destruct x; reflexivity. Qed.

Lemma binary_normalize_valid m e b : valid (binary_normalize prec emax m e b) = true.
Proof.
  destruct m as [|p|p]; cbn [binary_normalize]; [reflexivity| |].
  all: destruct (binary_round_fine p e) as (m' & e' & F & _ & _ & ->); now apply round_aux_valid.
Qed.

Lemma binary_normalize_opp m e b :
  m <> 0 -> binary_normalize prec emax (- m) e b = fopp (binary_normalize prec emax m e b).
Proof.
  assert (K : forall p, binary_round prec emax true p e = fopp (binary_round prec emax false p e)).
  { intros p. destruct (binary_round_fine p e) as (m' & e' & F & _ & _ & R).
    rewrite !R. now apply round_aux_opp. }
  destruct m as [|p|p]; [easy| |]; intros _.
  - change (- Zpos p) with (Zneg p). cbn [binary_normalize]. apply K.
  - change (- Zneg p) with (Zpos p). cbn [binary_normalize]. now rewrite K, fopp_involutive.
Qed.

Lemma binary_normalize_not_nan m e b : is_nan (binary_normalize prec emax m e b) = false.
Proof.
  destruct m as [|p|p]; cbn [binary_normalize]; [reflexivity| |].
  all: destruct (binary_round_fine p e) as (m' & e' & F & _ & _ & ->).
  all: match goal with |- context [binary_round_aux _ _ ?s _ _ _] =>
         destruct (round_aux_signed s m' e' loc_Exact F) as [->|[->|(? & ? & ->)]] end; reflexivity.
Qed.

Lemma scale_le a e b e' k k' :
  k' <= k -> k <= e -> k <= e' ->
  a * 2 ^ (e - k) <= b * 2 ^ (e' - k) <-> a * 2 ^ (e - k') <= b * 2 ^ (e' - k').
Proof.
  intros. replace (e - k') with ((e - k) + (k - k')) by lia.
  replace (e' - k') with ((e' - k) + (k - k')) by lia.
  rewrite !Z.pow_add_r, !Z.mul_assoc by lia. now rewrite pow2_cancel by lia.
Qed.

(** Normalising a positive mantissa against a positive float. *)
Lemma normalize_pos_lower p e mf ef k :
  canonical (Zpos mf) ef -> k <= e -> k <= ef ->
  Zpos mf * 2 ^ (ef - k) <= Zpos p * 2 ^ (e - k) ->
  fleb (pos_f mf ef) (binary_round prec emax false p e) = true.
Proof.
  intros Hc Hk Hkf H. destruct (binary_round_fine p e) as (m' & e' & F & He & -> & ->).
  apply (round_aux_lower _ _ _ _ _ (Z.min k e')); try assumption; try lia.
  rewrite <- Z.mul_assoc, <- Z.pow_add_r by lia.
  replace (e - e' + (e' - Z.min k e')) with (e - Z.min k e') by lia.
  apply (scale_le _ _ _ _ k); lia.
Qed.

Lemma normalize_pos_upper p e mf ef k :
  canonical (Zpos mf) ef -> ef <= emax - prec -> k <= e -> k <= ef ->
  Zpos p * 2 ^ (e - k) <= Zpos mf * 2 ^ (ef - k) ->
  fleb (binary_round prec emax false p e) (pos_f mf ef) = true.
Proof.
  intros Hc Hb Hk Hkf H. destruct (binary_round_fine p e) as (m' & e' & F & He & -> & ->).
  apply (round_aux_upper _ _ _ _ _ (Z.min k e')); try assumption; try lia; [|easy].
  rewrite <- Z.mul_assoc, <- Z.pow_add_r by lia.
  replace (e - e' + (e' - Z.min k e')) with (e - Z.min k e') by lia.
  apply (scale_le _ _ _ _ k); lia.
Qed.

Lemma round_pos_shape p e : signed false (binary_round prec emax false p e).
Proof.
  destruct (binary_round_fine p e) as (m' & e' & F & _ & _ & ->). now apply round_aux_signed.
Qed.

Lemma signed_false_nonneg x : signed false x -> fleb f0 x = true.
Proof. intros [->|[->|(m & e & ->)]]; reflexivity. Qed.

(** Rounding an exact sum [m * 2^e] keeps it on its side of any float. *)
Lemma normalize_upper m e b f k :
  is_finite f = true -> valid f = true -> k <= e -> k <= fexpo f ->
  m * 2 ^ (e - k) <= sval k f ->
  fleb (binary_normalize prec emax m e b) f = true.
Proof.
  intros Hfin Hv Hk Hkf H. assert (P : 0 < 2 ^ (e - k)) by (apply Z.pow_pos_nonneg; lia).
  destruct f as [sf|sf| |sf mf ef]; try discriminate; cbn [sval cond_Zopp fexpo] in *.
  - destruct m as [|p|p]; [reflexivity|lia|].
    change (Zneg p) with (- Zpos p). rewrite binary_normalize_opp by lia. cbn [binary_normalize].
    destruct (round_pos_shape p e) as [->|[->|(? & ? & ->)]]; reflexivity.
  - apply valid_finite in Hv as [Hc Hb]. assert (Q : 0 < 2 ^ (ef - k)) by (apply Z.pow_pos_nonneg; lia).
    destruct sf; cbn [cond_Zopp] in H.
    + destruct m as [|p|p]; [lia|lia|]. change (Zneg p) with (- Zpos p).
      rewrite binary_normalize_opp by lia. cbn [binary_normalize].
      change (S754_finite true mf ef) with (fopp (pos_f mf ef)).
      apply fopp_fleb, (normalize_pos_lower _ _ _ _ k); auto; lia.
    + destruct m as [|p|p]; [reflexivity| |].
      * cbn [binary_normalize]. now apply (normalize_pos_upper _ _ _ _ k).
      * change (Zneg p) with (- Zpos p). rewrite binary_normalize_opp by lia. cbn [binary_normalize].
        destruct (round_pos_shape p e) as [->|[->|(? & ? & ->)]]; reflexivity.
Qed.

Lemma fopp_sval k f : sval k (fopp f) = - sval k f.
Proof. destruct f as [[]|[]| |[] m e]; cbn; lia. Qed.

Lemma normalize_lower m e b f k :
  is_finite f = true -> valid f = true -> k <= e -> k <= fexpo f ->
  sval k f <= m * 2 ^ (e - k) ->
  fleb f (binary_normalize prec emax m e b) = true.
Proof.
  intros Hfin Hv Hk Hkf H. destruct (Z.eq_dec m 0) as [->|Hm].
  - cbn [binary_normalize].
    destruct f as [sf|sf| |[] mf ef]; try discriminate; cbn [sval cond_Zopp fexpo] in *; try reflexivity.
    assert (Q : 0 < 2 ^ (ef - k)) by (apply Z.pow_pos_nonneg; lia). lia.
  - replace m with (- - m) by lia. rewrite binary_normalize_opp by lia.
    rewrite <- (fopp_involutive f). apply fopp_fleb, (normalize_upper _ _ _ _ k); auto.
    + now destruct f.
    + now rewrite fopp_valid.
    + now destruct f.
    + rewrite fopp_sval; lia.
Qed.

(** ** Addition and subtraction *)

Definition nonneg (x : float64) : Prop := fleb f0 x = true.

Lemma nonneg_shape x :
  nonneg x <-> x = S754_infinity false \/ (exists s, x = S754_zero s) \/ (exists m e, x = pos_f m e).
Proof.
  unfold nonneg; split.
  - destruct x as [s|[]| |[] m e]; cbn; intros; try discriminate; eauto.
  - intros [->|[[s ->]|(m & e & ->)]]; reflexivity.
Qed.

Lemma nonneg_not_nan x : nonneg x -> is_nan x = false.
Proof. intros H; apply fleb_not_nan in H; tauto. Qed.

Lemma align_sval s m e ez :
  ez <= e -> cond_Zopp s (Zpos (fst (shl_align m e ez))) = sval ez (S754_finite s m e).
Proof.
  intros H. rewrite shl_align_spec by assumption. cbn [fst sval].
  rewrite Z2Pos.id; [reflexivity|]. apply Z.mul_pos_pos; [lia|apply Z.pow_pos_nonneg; lia].
Qed.

Lemma fadd_finite sx mx ex sy my ey :
  fadd (S754_finite sx mx ex) (S754_finite sy my ey) =
  binary_normalize prec emax
    (sval (Z.min ex ey) (S754_finite sx mx ex) + sval (Z.min ex ey) (S754_finite sy my ey))
    (Z.min ex ey) false.
Proof. unfold fadd, SFadd. rewrite !align_sval by lia. reflexivity. Qed.

Lemma fsub_finite sx mx ex sy my ey :
  fsub (S754_finite sx mx ex) (S754_finite sy my ey) =
  binary_normalize prec emax
    (sval (Z.min ex ey) (S754_finite sx mx ex) - sval (Z.min ex ey) (S754_finite sy my ey))
    (Z.min ex ey) false.
Proof. unfold fsub, SFsub. rewrite !align_sval by lia. reflexivity. Qed.

Lemma fadd_valid x y : valid x = true -> valid y = true -> valid (fadd x y) = true.
Proof.
  destruct x as [[]|[]| |], y as [[]|[]| |]; intros Hx Hy; try assumption; try reflexivity.
  rewrite fadd_finite. apply binary_normalize_valid.
Qed.

Lemma fsub_valid x y : valid x = true -> valid y = true -> valid (fsub x y) = true.
Proof.
  destruct x as [[]|[]| |], y as [[]|[]| |]; intros Hx Hy; try assumption; try reflexivity.
  rewrite fsub_finite. apply binary_normalize_valid.
Qed.

Lemma sval_pos k m e : k <= e -> 0 < sval k (pos_f m e).
Proof. intros; cbn. apply Z.mul_pos_pos; [lia|apply Z.pow_pos_nonneg; lia]. Qed.

Lemma fadd_upper x h :
  is_finite x = true -> valid x = true -> nonneg h -> fleb x (fadd x h) = true.
Proof.
  intros Hx Hv Hh. apply nonneg_shape in Hh as [->|[[s ->]|(m & e & ->)]].
  - destruct x as [[]|[]| |[]]; try discriminate; reflexivity.
  - destruct x as [[]|[]| |sx mx ex], s; try discriminate; try reflexivity.
    all: apply fleb_refl; reflexivity.
  - destruct x as [[]|[]| |sx mx ex]; try discriminate; try reflexivity.
    rewrite fadd_finite. apply (normalize_lower _ _ _ _ (Z.min ex e)); auto; cbn [fexpo]; try lia.
    rewrite Z.sub_diag, Z.mul_1_r. pose proof (sval_pos (Z.min ex e) m e ltac:(lia)). lia.
Qed.

Lemma fsub_lower x h :
  is_finite x = true -> valid x = true -> nonneg h -> fleb (fsub x h) x = true.
Proof.
  intros Hx Hv Hh. apply nonneg_shape in Hh as [->|[[s ->]|(m & e & ->)]].
  - destruct x as [[]|[]| |[]]; try discriminate; reflexivity.
  - destruct x as [[]|[]| |sx mx ex], s; try discriminate; try reflexivity.
    all: apply fleb_refl; reflexivity.
  - destruct x as [[]|[]| |sx mx ex]; try discriminate; try reflexivity.
    rewrite fsub_finite. apply (normalize_upper _ _ _ _ (Z.min ex e)); auto; cbn [fexpo]; try lia.
    rewrite Z.sub_diag, Z.mul_1_r. pose proof (sval_pos (Z.min ex e) m e ltac:(lia)). lia.
Qed.

Lemma fadd_nonneg x y : nonneg x -> nonneg y -> nonneg (fadd x y).
Proof.
  intros [->|[[[] ->]|(m & e & ->)]]%nonneg_shape [->|[[[] ->]|(m' & e' & ->)]]%nonneg_shape;
    try reflexivity.
  rewrite fadd_finite.
  pose proof (sval_pos (Z.min e e') m e ltac:(lia)). pose proof (sval_pos (Z.min e e') m' e' ltac:(lia)).
  destruct (sval (Z.min e e') (pos_f m e) + sval (Z.min e e') (pos_f m' e')) eqn:E; try lia.
  apply signed_false_nonneg, round_pos_shape.
Qed.

(** ** Multiplication *)

Lemma Zdigits2_mul a b : 0 < a -> 0 < b -> Zdigits2 a + Zdigits2 b - 1 <= Zdigits2 (a * b).
Proof.
  intros Ha Hb. pose proof (Zdigits2_bounds a Ha) as [A _]. pose proof (Zdigits2_bounds b Hb) as [B _].
  pose proof (Zdigits2_bounds (a * b) ltac:(lia)) as [_ C].
  pose proof (Zdigits2_pos a Ha). pose proof (Zdigits2_pos b Hb). pose proof (Zdigits2_pos (a * b) ltac:(lia)).
  assert (2 ^ (Zdigits2 a - 1 + (Zdigits2 b - 1)) < 2 ^ Zdigits2 (a * b)) as K.
  { rewrite Z.pow_add_r by lia. assert (0 < 2 ^ (Zdigits2 b - 1)) by (apply Z.pow_pos_nonneg; lia). nia. }
  apply Z.pow_lt_mono_r_iff in K; lia.
Qed.

Lemma fmul_fine m e m' e' :
  canonical m e -> canonical m' e' -> fine (m * m') (e + e').
Proof.
  intros Hc Hc'. pose proof (canonical_bounds _ _ Hc) as ((? & _) & ? & _).
  pose proof (canonical_bounds _ _ Hc') as ((? & _) & ? & _).
  pose proof (Zdigits2_mul m m' ltac:(lia) ltac:(lia)).
  pose proof (Zdigits2_pos m ltac:(lia)). pose proof (Zdigits2_pos m' ltac:(lia)).
  split; [lia|split; [|nia]].
  destruct Hc as [_ Hc], Hc' as [_ Hc']. unfold fexp, emin, prec, emax in *. lia.
Qed.

Lemma fmul_valid x y : valid x = true -> valid y = true -> valid (fmul x y) = true.
Proof.
  destruct x as [[]|[]| |sx mx ex], y as [[]|[]| |sy my ey]; intros Hx Hy; try reflexivity.
  apply valid_finite in Hx as [Hx _], Hy as [Hy _].
  apply round_aux_valid. rewrite Pos2Z.inj_mul. now apply fmul_fine.
Qed.

Lemma fmul_nonneg x y :
  valid x = true -> valid y = true -> is_finite x = true -> is_finite y = true ->
  nonneg x -> nonneg y -> nonneg (fmul x y).
Proof.
  intros Vx Vy Fx Fy [->|[[s ->]|(m & e & ->)]]%nonneg_shape [->|[[s' ->]|(m' & e' & ->)]]%nonneg_shape;
    try discriminate; try (destruct s; reflexivity); try (destruct s'; reflexivity).
  apply valid_finite in Vx as [Vx _], Vy as [Vy _].
  apply signed_false_nonneg, round_aux_signed. rewrite Pos2Z.inj_mul. now apply fmul_fine.
Qed.

(** Comparison of canonical floats is comparison of values. *)
Lemma canonical_value m e m' e' k :
  canonical (Zpos m) e -> canonical (Zpos m') e' -> k <= e -> k <= e' ->
  fleb (pos_f m e) (pos_f m' e') = true ->
  Zpos m * 2 ^ (e - k) <= Zpos m' * 2 ^ (e' - k).
Proof.
  intros Hc Hc' Hk Hk' H. apply fleb_kle in H as (_ & _ & H). cbn in H.
  pose proof (canonical_bounds _ _ Hc) as (B & _ & _).
  pose proof (canonical_bounds _ _ Hc') as (B' & Lo & N).
  assert (e < e' \/ (e = e' /\ Zpos m <= Zpos m')) as [He|[-> Hm]].
  { destruct H as [H|[= -> ->]]; [unfold klt in H; lia|right; split; [reflexivity|apply Z.le_refl]]. }
  - pose proof (canonical_bounds _ _ Hc) as (_ & ? & _). specialize (N ltac:(lia)).
    replace (e' - k) with ((e' - e - 1) + (1 + (e - k))) by lia.
    rewrite !Z.pow_add_r by lia. unfold prec in *.
    assert (0 < 2 ^ (e - k)) by (apply Z.pow_pos_nonneg; lia).
    assert (0 < 2 ^ (e' - e - 1)) by (apply Z.pow_pos_nonneg; lia).
    transitivity (2 * Zpos m' * 2 ^ (e - k)); [apply Z.mul_le_mono_nonneg_r; lia|].
    replace (Zpos m' * (2 ^ (e' - e - 1) * (2 ^ 1 * 2 ^ (e - k))))
      with (2 ^ (e' - e - 1) * (2 * Zpos m' * 2 ^ (e - k))) by ring.
    assert (0 < 2 * Zpos m' * 2 ^ (e - k)) by (apply Z.mul_pos_pos; lia).
    rewrite <- (Z.mul_1_l (2 * Zpos m' * 2 ^ (e - k))) at 1. apply Z.mul_le_mono_nonneg_r; lia.
  - apply pow2_cancel; lia.
Qed.

Lemma f1_eq : f1 = pos_f 4503599627370496 (-52).
Proof. reflexivity. Qed.

Lemma f1_canonical : canonical 4503599627370496 (-52).
Proof. split; reflexivity. Qed.

Lemma fmul_le_l x y :
  valid x = true -> valid y = true -> is_finite x = true ->
  nonneg x -> nonneg y -> fleb y f1 = true -> fleb (fmul x y) x = true.
Proof.
  intros Vx Vy Fx [->|[[s ->]|(m & e & ->)]]%nonneg_shape [->|[[s' ->]|(m' & e' & ->)]]%nonneg_shape H1;
    try discriminate; try (destruct s, s'; reflexivity); try (destruct s'; reflexivity);
    try (destruct s; reflexivity).
  pose proof (proj1 (valid_finite _ _ _) Vx) as [Cx Bx]. pose proof (proj1 (valid_finite _ _ _) Vy) as [Cy By].
  unfold fmul, SFmul. cbn [xorb]. rewrite Pos2Z.inj_mul.
  pose proof (canonical_bounds _ _ Cx) as (_ & ? & _). pose proof (canonical_bounds _ _ Cy) as (_ & ? & _).
  apply (round_aux_upper _ _ _ _ _ (-2200)); auto using fmul_fine; try lia; [|easy].
  rewrite f1_eq in H1.
  pose proof (canonical_value _ _ _ _ (-1074) Cy f1_canonical ltac:(lia) ltac:(lia) H1) as V.
  change (-52 - -1074) with 1022 in V.
  replace (4503599627370496 * 2 ^ 1022) with (2 ^ 1074) in V by reflexivity.
  replace (e + e' - -2200) with ((e + 1126) + (e' - -1074)) by lia.
  replace (e - -2200) with ((e + 1126) + 1074) by lia. rewrite !Z.pow_add_r by lia.
  assert (P : 0 < 2 ^ (e + 1126)) by (apply Z.pow_pos_nonneg; lia).
  replace (Zpos m * Zpos m' * (2 ^ (e + 1126) * 2 ^ (e' - -1074)))
    with ((Zpos m * 2 ^ (e + 1126)) * (Zpos m' * 2 ^ (e' - -1074))) by ring.
  rewrite (Z.pow_add_r 2 (e + 1126) 1074), (Z.mul_assoc (Zpos m)) by lia.
  apply Z.mul_le_mono_nonneg_l; [apply Z.mul_nonneg_nonneg; lia|exact V].
Qed.

Lemma fmul_unit x y :
  valid x = true -> valid y = true -> is_finite x = true -> is_finite y = true ->
  nonneg x -> nonneg y -> fleb x f1 = true -> fleb y f1 = true ->
  nonneg (fmul x y) /\ fleb (fmul x y) f1 = true.
Proof.
  intros; split; [now apply fmul_nonneg|].
  apply fleb_trans with x; [now apply fmul_le_l|assumption].
Qed.

(** ** Division *)

Lemma new_location_exact n r : new_location n r = loc_Exact <-> r = 0.
Proof.
  unfold new_location, new_location_even, new_location_odd.
  destruct (Z.even n), (Z.eqb_spec r 0); split; intros H; congruence || discriminate.
Qed.

Lemma div_core m1 e1 m2 e2 :
  0 < m1 -> 0 < m2 ->
  let e' := Z.min (fexp prec emax (Zdigits2 m1 + e1 - (Zdigits2 m2 + e2))) (e1 - e2) in
  let N := m1 * 2 ^ (e1 - e2 - e') in
  SFdiv_core_binary prec emax m1 e1 m2 e2 = (N / m2, e', new_location m2 (N mod m2)) /\
  fine (N / m2) e'.
Proof.
  intros H1 H2 e' N. assert (Hs : 0 <= e1 - e2 - e') by (unfold e'; lia).
  assert (HN : 0 < N) by (apply Z.mul_pos_pos; [lia|apply Z.pow_pos_nonneg; lia]).
  split.
  - unfold SFdiv_core_binary. fold e'.
    replace (match e1 - e2 - e' with 0 => m1 | Zpos _ => Z.shiftl m1 (e1 - e2 - e') | Zneg _ => 0 end)
      with N.
    { unfold Z.div, Z.modulo. destruct (Z.div_eucl N m2); reflexivity. }
    unfold N. destruct (e1 - e2 - e') as [|p|p] eqn:E; [cbn; lia| |lia].
    now rewrite Z.shiftl_mul_pow2 by lia.
  - assert (0 <= N / m2) by (apply Z.div_pos; lia).
    pose proof (Zdigits2_bounds m1 H1) as [B1 _]. pose proof (Zdigits2_bounds m2 H2) as [_ B2].
    pose proof (Zdigits2_pos m1 H1). pose proof (Zdigits2_pos m2 H2).
    assert (K : 0 <= Zdigits2 m1 - 1 + (e1 - e2 - e') - Zdigits2 m2 ->
                2 ^ (Zdigits2 m1 - 1 + (e1 - e2 - e') - Zdigits2 m2) <= N / m2).
    { intros Hp. apply Z.div_le_lower_bound; [lia|]. unfold N.
      transitivity (2 ^ Zdigits2 m2 * 2 ^ (Zdigits2 m1 - 1 + (e1 - e2 - e') - Zdigits2 m2)).
      - apply Z.mul_le_mono_nonneg_r; [apply Z.pow_nonneg|]; lia.
      - rewrite <- Z.pow_add_r by lia.
        replace (Zdigits2 m2 + (Zdigits2 m1 - 1 + (e1 - e2 - e') - Zdigits2 m2))
          with ((Zdigits2 m1 - 1) + (e1 - e2 - e')) by lia.
        rewrite Z.pow_add_r by lia. apply Z.mul_le_mono_nonneg_r; [apply Z.pow_nonneg|]; lia. }
    split; [assumption|].
    destruct (Z.eq_dec (N / m2) 0) as [Z0|NZ].
    + assert (e' <= -1074).
      { destruct (Z.le_gt_cases 0 (Zdigits2 m1 - 1 + (e1 - e2 - e') - Zdigits2 m2)) as [Hp|Hp].
        - specialize (K Hp). pose proof (Z.pow_pos_nonneg 2 _ ltac:(lia) Hp). lia.
        - unfold e', fexp, emin, prec, emax in *. lia. }
      rewrite Z0. split; [|auto]. unfold fexp, emin, prec, emax; cbn [Zdigits2]; lia.
    + split; [|lia]. assert (Hq : 0 < N / m2) by lia.
      pose proof (Zdigits2_bounds _ Hq) as [_ Bq]. pose proof (Zdigits2_pos _ Hq).
      assert (Zdigits2 m1 + (e1 - e2 - e') - Zdigits2 m2 <= Zdigits2 (N / m2)).
      { destruct (Z.le_gt_cases 0 (Zdigits2 m1 - 1 + (e1 - e2 - e') - Zdigits2 m2)) as [Hp|Hp]; [|lia].
        specialize (K Hp).
        assert (2 ^ (Zdigits2 m1 - 1 + (e1 - e2 - e') - Zdigits2 m2) < 2 ^ Zdigits2 (N / m2)) as L by lia.
        apply Z.pow_lt_mono_r_iff in L; lia. }
      transitivity (fexp prec emax (Zdigits2 m1 + e1 - (Zdigits2 m2 + e2))); [unfold e'; lia|].
      apply fexp_mono. lia.
Qed.

Lemma fdiv_valid x y : valid (fdiv x y) = true.
Proof.
  destruct x as [[]|[]| |sx mx ex], y as [[]|[]| |sy my ey]; try reflexivity.
  unfold fdiv, SFdiv. destruct (div_core (Zpos mx) ex (Zpos my) ey) as [-> F]; [lia|lia|].
  now apply round_aux_valid.
Qed.

(** A non-negative finite number divided by a positive one. *)
Lemma fdiv_nonneg x y :
  is_finite x = true -> nonneg x -> fltb f0 y = true -> nonneg (fdiv x y).
Proof.
  intros Fx [->|[[s ->]|(m & e & ->)]]%nonneg_shape Hy; try discriminate.
  all: destruct y as [[]|[]| |[] my ey]; try discriminate; try (destruct s; reflexivity);
    try reflexivity.
  unfold fdiv, SFdiv. destruct (div_core (Zpos m) e (Zpos my) ey) as [-> F]; [lia|lia|].
  now apply signed_false_nonneg, round_aux_signed.
Qed.

(** The quotient bound on exact integers: [N * 2^j <= m2 * (F * 2^i)] bounds
    the quotient, and strictly when there is a remainder. *)
Lemma quotient_bound N m2 F i j :
  0 < N -> 0 < m2 -> 0 <= i -> 0 <= j -> N * 2 ^ j <= m2 * (F * 2 ^ i) ->
  (N / m2) * 2 ^ j <= F * 2 ^ i /\
  (N mod m2 <> 0 -> j <= i -> (N / m2 + 1) * 2 ^ j <= F * 2 ^ i).
Proof.
  intros HN H2 Hi Hj H. pose proof (Z.div_mod N m2 ltac:(lia)) as D.
  pose proof (Z.mod_pos_bound N m2 H2) as B. assert (0 <= N / m2) by (apply Z.div_pos; lia).
  assert (P : 0 < 2 ^ j) by (apply Z.pow_pos_nonneg; lia).
  set (q := N / m2) in *. set (r := N mod m2) in *.
  assert (Q : m2 * (q * 2 ^ j) + r * 2 ^ j <= m2 * (F * 2 ^ i)) by (rewrite D in H; lia).
  split.
  - apply (Z.mul_le_mono_pos_l _ _ m2); [lia|]. nia.
  - intros Hr Hji. assert (S : q * 2 ^ j < F * 2 ^ i) by nia.
    replace i with ((i - j) + j) in * by lia. rewrite Z.pow_add_r, Z.mul_assoc in * by lia.
    apply Z.mul_le_mono_nonneg_r; [lia|]. apply Z.mul_lt_mono_pos_r in S; lia.
Qed.

(** A quotient whose unit is coarser than [2^ef] has full precision. *)
Lemma fine_coarse q e' : fine q e' -> -1074 < e' -> 2 ^ 52 <= q.
Proof.
  intros (Hq & Hf & H0) He. assert (Hp : 0 < q) by (destruct (Z.eq_dec q 0); [specialize (H0 e)|]; lia).
  pose proof (Zdigits2_bounds q Hp) as [B _].
  assert (53 <= Zdigits2 q) by (unfold fexp, emin, prec, emax in Hf; lia).
  transitivity (2 ^ (Zdigits2 q - 1)); [apply Z.pow_le_mono_r; lia|exact B].
Qed.

Section Division.
Context (m : positive) (e : Z) (my : positive) (ey : Z) (mf : positive) (ef : Z).
Context (Cx : canonical (Zpos m) e) (Cy : canonical (Zpos my) ey) (By : ey <= emax - prec)
        (Cf : canonical (Zpos mf) ef) (Bf : ef <= emax - prec).

Let e' := Z.min (fexp prec emax (Zdigits2 (Zpos m) + e - (Zdigits2 (Zpos my) + ey))) (e - ey).
Let N := Zpos m * 2 ^ (e - ey - e').

Lemma div_scale :
  0 < N /\ -2200 <= e' /\ N * 2 ^ (e' + 3171) = Zpos m * 2 ^ (e + 2200) * 2 ^ (971 - ey).
Proof.
  pose proof (canonical_bounds _ _ Cx) as (_ & ? & _). pose proof (canonical_bounds _ _ Cy) as (_ & ? & _).
  unfold emax, prec in By.
  assert (-2200 <= e') by (unfold e', fexp, emin, prec, emax; lia). assert (e' <= e - ey) by (unfold e'; lia).
  repeat split; auto.
  - apply Z.mul_pos_pos; [lia|apply Z.pow_pos_nonneg; lia].
  - unfold N. rewrite <- !Z.mul_assoc, <- !Z.pow_add_r by lia. do 2 f_equal. lia.
Qed.

Lemma fdiv_pos_upper :
  Zpos m * 2 ^ (e + 2200) <= Zpos mf * Zpos my * 2 ^ (ef + ey + 2200) ->
  fleb (fdiv (pos_f m e) (pos_f my ey)) (pos_f mf ef) = true.
Proof.
  intros H. destruct div_scale as (HN & Hlo & HS).
  pose proof (canonical_bounds _ _ Cf) as ((_ & Fu) & ? & _). pose proof (canonical_bounds _ _ Cy) as (_ & ? & _).
  unfold fdiv, SFdiv. destruct (div_core (Zpos m) e (Zpos my) ey) as [-> F]; [lia|lia|].
  fold e' in F |- *. fold N in F |- *. cbn [xorb]. unfold emax, prec in By.
  assert (V : N * 2 ^ (e' + 3171) <= Zpos my * (Zpos mf * 2 ^ (ef + 3171))).
  { rewrite HS. replace (Zpos my * (Zpos mf * 2 ^ (ef + 3171)))
      with (Zpos mf * Zpos my * 2 ^ (ef + ey + 2200) * 2 ^ (971 - ey)).
    - apply Z.mul_le_mono_nonneg_r; [apply Z.pow_nonneg; lia|exact H].
    - rewrite <- (Z.mul_assoc (Zpos mf * Zpos my)), <- Z.pow_add_r by lia.
      replace (ef + ey + 2200 + (971 - ey)) with (ef + 3171) by lia. ring. }
  destruct (quotient_bound N (Zpos my) (Zpos mf) (ef + 3171) (e' + 3171) HN ltac:(lia) ltac:(lia) ltac:(lia) V)
    as [Q Q'].
  assert (Hee : e' <= ef).
  { destruct (Z.le_gt_cases e' ef) as [|Hgt]; [assumption|exfalso].
    pose proof (fine_coarse _ _ F ltac:(lia)) as C.
    replace (e' + 3171) with ((e' - ef - 1) + (1 + (ef + 3171))) in Q by lia.
    rewrite !Z.pow_add_r, !Z.mul_assoc in Q by lia. rewrite pow2_cancel in Q by lia.
    assert (0 < 2 ^ (e' - ef - 1)) by (apply Z.pow_pos_nonneg; lia). unfold prec in Fu. nia. }
  apply (round_aux_upper _ _ _ _ _ (-3171)); try assumption; try lia.
  intros Hx. replace (e' - -3171) with (e' + 3171) by lia. replace (ef - -3171) with (ef + 3171) by lia.
  apply Q'; [|lia]. intros Hr. apply Hx, new_location_exact, Hr.
Qed.
End Division.

Lemma fdiv_le_1 x y :
  valid x = true -> valid y = true -> is_finite y = true ->
  nonneg x -> fltb f0 y = true -> fleb x y = true -> fleb (fdiv x y) f1 = true.
Proof.
  intros Vx Vy Fy [->|[[s ->]|(m & e & ->)]]%nonneg_shape Hy H.
  all: destruct y as [[]|[]| |[] my ey]; try discriminate; try (destruct s; reflexivity).
  apply valid_finite in Vx as [Cx Bx], Vy as [Cy By].
  pose proof (canonical_bounds _ _ Cx) as (_ & ? & _). pose proof (canonical_bounds _ _ Cy) as (_ & ? & _).
  rewrite f1_eq. apply fdiv_pos_upper; auto using f1_canonical; [unfold emax, prec; lia|].
  pose proof (canonical_value _ _ _ _ (-2200) Cx Cy ltac:(lia) ltac:(lia) H) as V.
  replace (e - -2200) with (e + 2200) in V by lia. etransitivity; [exact V|].
  replace (ey - -2200) with (52 + (-52 + ey + 2200)) by lia. rewrite Z.pow_add_r by lia.
  change 4503599627370496 with (2 ^ 52). lia.
Qed.

(** ** Square root *)

Lemma square_lt N q r D : N = q * q + r -> 0 < q -> q < D -> r <= 2 * q -> N < D * D.
Proof. intros -> Hq HD Hr. assert ((q + 1) * (q + 1) <= D * D) by (apply Z.mul_le_mono_nonneg; lia). lia. Qed.

Lemma sqrt_core m e :
  0 < m ->
  exists q e' l, SFsqrt_core_binary prec emax m e = (q, e', l) /\ fine q e'.
Proof.
  intros Hm. unfold SFsqrt_core_binary.
  set (e' := Z.min (fexp prec emax (Z.div2 (Zdigits2 m + e + 1))) (Z.div2 e)).
  assert (Hhalf : forall z, 2 * Z.div2 z <= z < 2 * Z.div2 z + 2).
  { intros z. rewrite Z.div2_div. pose proof (Z.div_mod z 2 ltac:(lia)).
    pose proof (Z.mod_pos_bound z 2 ltac:(lia)). lia. }
  pose proof (Hhalf e). pose proof (Hhalf (Zdigits2 m + e + 1)). clear Hhalf.
  assert (Hs : 0 <= e - 2 * e') by (unfold e'; lia).
  replace (match e - 2 * e' with 0 => m | Zpos _ => Z.shiftl m (e - 2 * e') | Zneg _ => 0 end)
    with (m * 2 ^ (e - 2 * e')).
  2: { destruct (e - 2 * e') as [|p|p] eqn:E; [cbn; lia| |lia]. now rewrite Z.shiftl_mul_pow2 by lia. }
  set (N := m * 2 ^ (e - 2 * e')).
  assert (HN : 0 < N) by (apply Z.mul_pos_pos; [lia|apply Z.pow_pos_nonneg; lia]).
  pose proof (Z.sqrtrem_spec N ltac:(lia)) as S. destruct (Z.sqrtrem N) as [q r] eqn:Er.
  eexists q, e', _. split; [reflexivity|]. destruct S as [S [R0 R1]].
  assert (Hq : 0 < q) by nia. split; [lia|split; [|lia]].
  pose proof (Zdigits2_bounds m Hm) as [B _]. pose proof (Zdigits2_pos m Hm).
  pose proof (Zdigits2_bounds q Hq) as [_ Bq]. pose proof (Zdigits2_pos q Hq).
  assert (K : 2 ^ (Zdigits2 m - 1 + (e - 2 * e')) < 2 ^ (2 * Zdigits2 q)).
  { apply Z.le_lt_trans with N.
    - unfold N. rewrite Z.pow_add_r by lia. apply Z.mul_le_mono_nonneg_r; [apply Z.pow_nonneg|]; lia.
    - replace (2 * Zdigits2 q) with (Zdigits2 q + Zdigits2 q) by lia. rewrite Z.pow_add_r by lia. now apply (square_lt N q r). }
  apply Z.pow_lt_mono_r_iff in K; [|lia|lia].
  transitivity (fexp prec emax (Z.div2 (Zdigits2 m + e + 1))); [unfold e'; lia|].
  apply fexp_mono. lia.
Qed.

Lemma fsqrt_valid x : valid x = true -> valid (fsqrt x) = true.
Proof.
  destruct x as [[]|[]| |[] m e]; intros Hx; try reflexivity.
  unfold fsqrt, SFsqrt. destruct (sqrt_core (Zpos m) e) as (q & e' & l & -> & F); [lia|].
  now apply round_aux_valid.
Qed.

Lemma fsqrt_nonneg x : nonneg x -> nonneg (fsqrt x).
Proof.
  intros [->|[[[] ->]|(m & e & ->)]]%nonneg_shape; try reflexivity.
  unfold fsqrt, SFsqrt. destruct (sqrt_core (Zpos m) e) as (q & e' & l & -> & F); [lia|].
  now apply signed_false_nonneg, round_aux_signed.
Qed.

(** ** Conversions and literals *)

Lemma f64_of_Z_valid n : valid (f64_of_Z n) = true.
Proof. apply binary_normalize_valid. Qed.

Lemma f64_of_Z_nonneg n : 0 <= n -> nonneg (f64_of_Z n).
Proof.
  intros H; destruct n as [|p|p]; [reflexivity| |lia].
  apply signed_false_nonneg, round_pos_shape.
Qed.

Lemma f64_of_Z_pos n : 0 < n -> fltb f0 (f64_of_Z n) = true.
Proof.
  intros H. apply fltb_fleb_trans with f1; [reflexivity|]. rewrite f1_eq.
  destruct n as [|p|p]; [lia| |lia]. unfold f64_of_Z.
  apply (normalize_lower _ _ _ _ (-52)); try reflexivity; cbn; lia.
Qed.

(** Absolute value. *)
Lemma fabs_nonneg x : is_nan x = false -> nonneg (fabs x).
Proof. destruct x as [[]|[]| |[]]; intros; try discriminate; reflexivity. Qed.

Lemma fabs_valid x : valid (fabs x) = valid x.
Proof. now destruct x. Qed.

#[export] Hint Resolve fadd_valid fsub_valid fmul_valid fdiv_valid fsqrt_valid f64_of_Z_valid
  fadd_nonneg fsqrt_nonneg f64_of_Z_nonneg : fiq.

(** ** Sign-clear numbers

    [psign x]: not NaN and the sign bit clear ([+0] included, [-0] excluded),
    the class in which division by a possibly vanishing number stays defined. *)

Abbreviation psign := (signed false).

Lemma psign_nonneg x : psign x -> nonneg x.
Proof. apply signed_false_nonneg. Qed.

Lemma psign_not_nan x : psign x -> is_nan x = false.
Proof. intros [->|[->|(m & e & ->)]]; reflexivity. Qed.

Lemma psign_add x y : psign x -> nonneg y -> psign (fadd x y).
Proof.
  intros [->|[->|(m & e & ->)]] [->|[[[] ->]|(m' & e' & ->)]]%nonneg_shape;
    try (right; left; reflexivity); try (now left); try (right; right; now eauto).
  rewrite fadd_finite.
  pose proof (sval_pos (Z.min e e') m e ltac:(lia)). pose proof (sval_pos (Z.min e e') m' e' ltac:(lia)).
  destruct (sval (Z.min e e') (pos_f m e) + sval (Z.min e e') (pos_f m' e')) eqn:E; try lia.
  apply round_pos_shape.
Qed.

Lemma psign_mul x y :
  valid x = true -> valid y = true -> is_finite x = true -> is_finite y = true ->
  psign x -> psign y -> psign (fmul x y).
Proof.
  intros Vx Vy Fx Fy [->|[->|(m & e & ->)]] [->|[->|(m' & e' & ->)]];
    try discriminate; try (now left).
  apply valid_finite in Vx as [Vx _], Vy as [Vy _].
  apply round_aux_signed. rewrite Pos2Z.inj_mul. now apply fmul_fine.
Qed.

(** A positive finite number times a sign-clear one, infinity included. *)
Lemma psign_mul_pos m e y :
  valid (pos_f m e) = true -> valid y = true -> psign y -> psign (fmul (pos_f m e) y).
Proof.
  intros Vx Vy [->|[->|(m' & e' & ->)]]; [now left|right; left; reflexivity|].
  apply psign_mul; auto; right; right; eauto.
Qed.

(** [finite / sign-clear] is sign-clear unless [0/0]. *)
Lemma psign_div x y :
  is_finite x = true -> psign x -> psign y -> (fltb f0 x = true \/ fltb f0 y = true) ->
  psign (fdiv x y).
Proof.
  intros Fx [->|[->|(m & e & ->)]] [->|[->|(m' & e' & ->)]] [H|H]; try discriminate;
    try (now left); try (right; left; reflexivity).
  all: unfold fdiv, SFdiv; destruct (div_core (Zpos m) e (Zpos m') e') as [-> F]; [lia|lia|].
  all: now apply round_aux_signed.
Qed.

Lemma psign_div_finite_den x m e : psign x -> psign (fdiv x (pos_f m e)).
Proof.
  intros [->|[->|(m' & e' & ->)]]; [now left|right; left; reflexivity|].
  apply psign_div; [reflexivity|right; right; eauto|right; right; eauto|now left].
Qed.

Lemma psign_sqrt x : psign x -> psign (fsqrt x).
Proof.
  intros [->|[->|(m & e & ->)]]; [now left|right; left; reflexivity|].
  unfold fsqrt, SFsqrt. destruct (sqrt_core (Zpos m) e) as (q & e' & l & -> & F); [lia|].
  now apply round_aux_signed.
Qed.

Lemma fleb_finite x c :
  nonneg x -> fleb x c = true -> is_finite c = true -> is_finite x = true.
Proof.
  intros [->|[[s ->]|(m & e & ->)]]%nonneg_shape H Hc; try reflexivity.
  destruct c as [|[]| |[]]; discriminate.
Qed.

Lemma fltb_pos x : fltb f0 x = true -> x = S754_infinity false \/ exists m e, x = pos_f m e.
Proof. destruct x as [[]|[]| |[]]; intros; try discriminate; eauto. Qed.

Lemma nonneg_le x y : nonneg x -> fleb x y = true -> nonneg y.
Proof. apply fleb_trans. Qed.

(** [1 - p] for [p] in the unit interval stays in it. *)
Lemma one_minus_unit p :
  valid p = true -> nonneg p -> fleb p f1 = true ->
  psign (fsub f1 p) /\ fleb (fsub f1 p) f1 = true.
Proof.
  intros Vp Hp H1. split; [|apply fsub_lower; [reflexivity|reflexivity|assumption]].
  apply nonneg_shape in Hp as [->|[[s ->]|(m & e & ->)]]; [discriminate| |].
  - right; right. destruct s; cbn; eauto.
  - pose proof (proj1 (valid_finite _ _ _) Vp) as [C B].
    pose proof (canonical_bounds _ _ C) as (_ & ? & _). rewrite f1_eq in H1 |- *.
    pose proof (canonical_value _ _ _ _ (Z.min (-52) e) C f1_canonical ltac:(lia) ltac:(lia) H1) as V.
    rewrite fsub_finite. cbn [sval cond_Zopp].
    match goal with |- psign (binary_normalize _ _ ?z _ _) => destruct z eqn:E end.
    + now left.
    + apply round_pos_shape.
    + lia.
Qed.

Lemma psign_add_r x y : nonneg x -> psign y -> psign (fadd x y).
Proof.
  intros [->|[[[] ->]|(m' & e' & ->)]]%nonneg_shape [->|[->|(m & e & ->)]];
    try (right; left; reflexivity); try (now left); try (right; right; now eauto).
  apply psign_add; [right; right; eauto|reflexivity].
Qed.

(** A sign-clear number, infinity included, times a positive finite one. *)
Lemma psign_mul_pos_r x m e :
  valid x = true -> valid (pos_f m e) = true -> psign x -> psign (fmul x (pos_f m e)).
Proof.
  intros Vx Vy [->|[->|(m' & e' & ->)]]; [now left|right; left; reflexivity|].
  apply psign_mul; auto; right; right; eauto.
Qed.

(** A float below the exact product is below the rounded product. *)
Lemma fmul_pos_lower m e m' e' mf ef :
  canonical (Zpos m) e -> canonical (Zpos m') e' -> canonical (Zpos mf) ef ->
  Zpos mf * 2 ^ (ef + 2200) <= Zpos m * Zpos m' * 2 ^ (e + e' + 2200) ->
  fleb (pos_f mf ef) (fmul (pos_f m e) (pos_f m' e')) = true.
Proof.
  intros C C' Cf H. pose proof (canonical_bounds _ _ C) as (_ & ? & _).
  pose proof (canonical_bounds _ _ C') as (_ & ? & _). pose proof (canonical_bounds _ _ Cf) as (_ & ? & _).
  unfold fmul, SFmul. cbn [xorb]. rewrite Pos2Z.inj_mul.
  apply (round_aux_lower _ _ _ _ _ (-2200)); auto using fmul_fine; lia.
Qed.

(** Dividing by a number of at least one does not increase. *)
Lemma fdiv_le_num x y :
  valid x = true -> valid y = true -> is_finite x = true -> nonneg x ->
  is_finite y = true -> fleb f1 y = true -> fleb (fdiv x y) x = true.
Proof.
  intros Vx Vy Fx [->|[[s ->]|(m & e & ->)]]%nonneg_shape Fy H1; [discriminate| |].
  all: destruct y as [[]|[]| |[] my ey]; try discriminate; try (destruct s; reflexivity).
  pose proof (proj1 (valid_finite _ _ _) Vx) as [Cx Bx]. apply valid_finite in Vy as [Cy By].
  pose proof (canonical_bounds _ _ Cx) as (_ & ? & _). pose proof (canonical_bounds _ _ Cy) as (_ & ? & _).
  apply fdiv_pos_upper; auto. rewrite f1_eq in H1.
  pose proof (canonical_value _ _ _ _ (-1074) f1_canonical Cy ltac:(lia) ltac:(lia) H1) as V.
  replace (4503599627370496 * 2 ^ (-52 - -1074)) with (2 ^ 1074) in V by reflexivity.
  assert (E1 : 2 ^ (e + 2200) = 2 ^ (e + 1126) * 2 ^ 1074) by (rewrite <- Z.pow_add_r by lia; f_equal; lia).
  assert (E2 : 2 ^ (e + ey + 2200) = 2 ^ (e + 1126) * 2 ^ (ey - -1074))
    by (rewrite <- Z.pow_add_r by lia; f_equal; lia).
  rewrite E1, E2. revert V. assert (A : 0 <= 2 ^ (e + 1126)) by (apply Z.pow_nonneg; lia). revert A.
  generalize (2 ^ (e + 1126)) (2 ^ 1074) (2 ^ (ey - -1074)). intros a b c A V.
  replace (Zpos m * Zpos my * (a * c)) with ((Zpos m * a) * (Zpos my * c)) by ring.
  rewrite (Z.mul_assoc (Zpos m) a b). apply Z.mul_le_mono_nonneg_l; [|exact V].
  apply Z.mul_nonneg_nonneg; [lia|exact A].
Qed.

(** Sums of small numbers do not overflow. *)
Lemma fadd_le_16 x y :
  valid x = true -> valid y = true -> nonneg x -> nonneg y ->
  fleb x (f64_of_Z 8) = true -> fleb y (f64_of_Z 8) = true ->
  fleb (fadd x y) (f64_of_Z 16) = true.
Proof.
  change (f64_of_Z 8) with (pos_f 4503599627370496 (-49)).
  intros Vx Vy [->|[[s ->]|(m & e & ->)]]%nonneg_shape [->|[[s' ->]|(m' & e' & ->)]]%nonneg_shape Hx Hy;
    try discriminate; try (destruct s, s'; reflexivity).
  1,2: unfold fadd, SFadd; eapply fleb_trans; [eassumption|reflexivity].
  change (f64_of_Z 16) with (pos_f 4503599627370496 (-48)).
  apply valid_finite in Vx as [Cx _], Vy as [Cy _].
  pose proof (canonical_bounds _ _ Cx) as (_ & ? & _). pose proof (canonical_bounds _ _ Cy) as (_ & ? & _).
  assert (C8 : canonical 4503599627370496 (-49)) by (split; reflexivity).
  pose proof (canonical_value _ _ _ _ (-1074) Cx C8 ltac:(lia) ltac:(lia) Hx) as X.
  pose proof (canonical_value _ _ _ _ (-1074) Cy C8 ltac:(lia) ltac:(lia) Hy) as Y.
  rewrite fadd_finite. cbn [sval cond_Zopp].
  apply (normalize_upper _ _ _ _ (-1074)); try reflexivity; try (cbn [fexpo]; lia).
  rewrite Z.mul_add_distr_r, <- !Z.mul_assoc, <- !Z.pow_add_r by lia.
  replace (e - Z.min e e' + (Z.min e e' - -1074)) with (e - -1074) by lia.
  replace (e' - Z.min e e' + (Z.min e e' - -1074)) with (e' - -1074) by lia.
  change (sval (-1074) (pos_f 4503599627370496 (-48))) with (2 * (4503599627370496 * 2 ^ (-49 - -1074))). lia.
Qed.

(** ** Integer bounds

    [zb A x]: [x] is a finite number of magnitude at most the integer [A].
    Sums and products of bounded numbers are bounded (so do not overflow, and are
    not NaN) as long as the bound stays exactly representable. *)

Definition kmin : Z := -1074.

Definition zb (A : Z) (x : float64) : Prop :=
  is_finite x = true /\ valid x = true /\ Z.abs (sval kmin x) <= A * 2 ^ 1074.

Lemma fexpo_kmin x : valid x = true -> kmin <= fexpo x.
Proof.
  destruct x as [| | |s m e]; unfold kmin; cbn [fexpo]; try lia.
  rewrite valid_finite. intros [C _]. now destruct (canonical_bounds _ _ C) as (_ & ? & _).
Qed.

Lemma fleb_sval x y :
  is_finite x = true -> is_finite y = true -> valid x = true -> valid y = true ->
  fleb x y = true -> sval kmin x <= sval kmin y.
Proof.
  intros Fx Fy Vx Vy H. pose proof (fexpo_kmin x Vx) as Kx. pose proof (fexpo_kmin y Vy) as Ky.
  destruct x as [sx| | |sx mx ex]; try discriminate; destruct y as [sy| | |sy my ey]; try discriminate;
    cbn [sval fexpo] in *.
  - pose proof (sval_pos kmin my ey Ky) as P. cbn in P. destruct sy; [discriminate|cbn; lia].
  - pose proof (sval_pos kmin mx ex Kx) as P. cbn in P. destruct sx; [cbn; lia|discriminate].
  - apply valid_finite in Vx as [Cx _], Vy as [Cy _].
    pose proof (sval_pos kmin mx ex Kx) as P. pose proof (sval_pos kmin my ey Ky) as Q. cbn in P, Q.
    destruct sx, sy; cbn [cond_Zopp]; try discriminate; try lia.
    + apply fopp_fleb in H. cbn in H.
      pose proof (canonical_value _ _ _ _ kmin Cy Cx Ky Kx H). lia.
    + now apply canonical_value.
Qed.

(** Integers below [2^53] are represented exactly. *)
Lemma f64_of_Z_exact A :
  0 <= A < 2 ^ 53 ->
  is_finite (f64_of_Z A) = true /\ sval kmin (f64_of_Z A) = A * 2 ^ 1074.
Proof.
  intros H. destruct (Z.eq_dec A 0) as [->|NZ]; [split; reflexivity|].
  destruct A as [|p|p]; [lia| |lia].
  unfold f64_of_Z, binary_normalize.
  destruct (binary_round_fine p 0) as (m' & e' & F & He & Em & R). rewrite R.
  rewrite Z.sub_0_l in Em. assert (P : 0 < 2 ^ (- e')) by (apply Z.pow_pos_nonneg; lia).
  assert (Hm : 0 < m') by (rewrite Em; lia).
  pose proof (Zdigits2_bounds (Zpos p) ltac:(lia)) as [B _].
  assert (Hd : Zdigits2 (Zpos p) <= 53).
  { destruct (Z.le_gt_cases (Zdigits2 (Zpos p)) 53); [assumption|].
    assert (2 ^ 53 <= 2 ^ (Zdigits2 (Zpos p) - 1)) by (apply Z.pow_le_mono_r; lia). lia. }
  pose proof (Zdigits2_pos (Zpos p) ltac:(lia)).
  assert (Ds : Zdigits2 m' + e' = Zdigits2 (Zpos p)) by (rewrite Em, Zdigits2_shift by lia; lia).
  assert (Fe : fexp prec emax (Zdigits2 m' + e') = Zdigits2 (Zpos p) - 53)
    by (rewrite Ds; unfold fexp, emin, prec, emax; lia).
  destruct (round_aux_pack m' e' loc_Exact F) as (m2 & C & X & [P1 U] & E & L & Rp).
  rewrite Fe in *. set (e1 := Zdigits2 (Zpos p) - 53) in *.
  assert (Hfe : e' <= e1) by (destruct F as (_ & F & _); rewrite Fe in F; exact F).
  assert (Ediv : m' = Zpos p * 2 ^ (- e1) * 2 ^ (e1 - e')).
  { rewrite Em, <- Z.mul_assoc, <- Z.pow_add_r by (unfold e1; lia). do 2 f_equal. lia. }
  assert (Q : 0 < 2 ^ (e1 - e')) by (apply Z.pow_pos_nonneg; lia).
  assert (m2 = Zpos p * 2 ^ (- e1)) as Em2.
  { rewrite X; [|reflexivity|].
    - rewrite Ediv, Z.div_mul by lia. reflexivity.
    - rewrite Ediv. apply Z.mod_mul. lia. }
  rewrite Rp. unfold pack.
  assert (0 < 2 ^ (- e1)) by (apply Z.pow_pos_nonneg; unfold e1; lia).
  rewrite (proj2 (Z.eqb_neq m2 0)) by nia.
  assert (m2 < 2 ^ prec) as L2.
  { pose proof (Zdigits2_bounds (Zpos p) ltac:(lia)) as [_ B2]. rewrite Em2.
    replace prec with (Zdigits2 (Zpos p) + - e1) by (unfold e1, prec; lia).
    rewrite Z.pow_add_r by (unfold e1; lia). nia. }
  rewrite (proj2 (Z.ltb_lt m2 (2 ^ prec))) by exact L2.
  rewrite (proj2 (Z.leb_le e1 (emax - prec))) by (unfold e1, emax, prec; lia).
  split; [reflexivity|]. cbn [sval cond_Zopp]. rewrite Z2Pos.id by nia.
  rewrite Em2, <- Z.mul_assoc, <- Z.pow_add_r by (unfold e1, kmin; lia). do 2 f_equal. unfold kmin; lia.
Qed.

Lemma zb_intro A x :
  0 <= A < 2 ^ 53 -> valid x = true ->
  fleb x (f64_of_Z A) = true -> fleb (fopp (f64_of_Z A)) x = true -> zb A x.
Proof.
  intros HA Vx U L. destruct (f64_of_Z_exact A HA) as [Fa Sa].
  assert (Fx : is_finite x = true).
  { destruct x as [|[]| |]; try reflexivity; destruct (f64_of_Z A) as [|[]| |[]]; discriminate. }
  assert (Fo : is_finite (fopp (f64_of_Z A)) = true) by (now destruct (f64_of_Z A)).
  pose proof (fleb_sval _ _ Fx Fa Vx (f64_of_Z_valid A) U) as H1.
  pose proof (fleb_sval _ _ Fo Fx ltac:(rewrite fopp_valid; apply f64_of_Z_valid) Vx L) as H2.
  rewrite fopp_sval in H2. rewrite Sa in *. repeat split; auto. lia.
Qed.

Lemma zb_finite A x : zb A x -> is_finite x = true.
Proof. now intros (? & _). Qed.

Lemma zb_valid A x : zb A x -> valid x = true.
Proof. now intros (_ & ? & _). Qed.

Lemma zb_not_nan A x : zb A x -> is_nan x = false.
Proof. intros (H & _). now destruct x. Qed.

Lemma zb_weaken A B x : A <= B -> zb A x -> zb B x.
Proof.
  intros H (F & V & L). repeat split; auto. etransitivity; [exact L|].
  apply Z.mul_le_mono_nonneg_r; [apply Z.pow_nonneg; lia|assumption].
Qed.

Lemma zb_of_Z A : 0 <= A < 2 ^ 53 -> zb A (f64_of_Z A).
Proof.
  intros H. destruct (f64_of_Z_exact A H) as [F S]. repeat split; [assumption|apply f64_of_Z_valid|].
  rewrite S. assert (0 <= 2 ^ 1074) by (apply Z.pow_nonneg; lia). nia.
Qed.

Lemma normalize_zb A m e b :
  0 <= A < 2 ^ 53 -> kmin <= e -> Z.abs (m * 2 ^ (e - kmin)) <= A * 2 ^ 1074 ->
  zb A (binary_normalize prec emax m e b).
Proof.
  intros HA He H. destruct (f64_of_Z_exact A HA) as [Fa Sa].
  pose proof (fexpo_kmin _ (f64_of_Z_valid A)) as K.
  apply zb_intro; auto; [apply binary_normalize_valid| |].
  - apply (normalize_upper _ _ _ _ kmin); auto; [apply f64_of_Z_valid|]. rewrite Sa. lia.
  - apply (normalize_lower _ _ _ _ kmin); auto.
    + now destruct (f64_of_Z A).
    + rewrite fopp_valid; apply f64_of_Z_valid.
    + now destruct (f64_of_Z A).
    + rewrite fopp_sval, Sa. lia.
Qed.

Lemma sval_scale k x : kmin <= k <= fexpo x -> sval k x * 2 ^ (k - kmin) = sval kmin x.
Proof.
  destruct x as [| | |s m e]; cbn [sval fexpo]; intros H; try lia.
  replace (e - kmin) with ((e - k) + (k - kmin)) by lia. rewrite Z.pow_add_r by lia.
  destruct s; cbn [cond_Zopp]; lia.
Qed.

Lemma zb_add A B x y :
  0 <= A -> 0 <= B -> A + B < 2 ^ 53 -> zb A x -> zb B y -> zb (A + B) (fadd x y).
Proof.
  intros HA HB HAB Hx Hy. pose proof Hx as (Fx & Vx & Lx). pose proof Hy as (Fy & Vy & Ly).
  destruct x as [sx| | |sx mx ex]; try discriminate; destruct y as [sy| | |sy my ey]; try discriminate.
  - apply (zb_weaken 0); [lia|]. destruct sx, sy; repeat split; cbn; lia.
  - apply (zb_weaken B); [lia|]. exact Hy.
  - apply (zb_weaken A); [lia|]. exact Hx.
  - rewrite fadd_finite. pose proof (fexpo_kmin _ Vx) as Kx. pose proof (fexpo_kmin _ Vy) as Ky.
    cbn [fexpo] in Kx, Ky. apply normalize_zb; [lia|lia|].
    rewrite Z.mul_add_distr_r, !sval_scale by (cbn [fexpo]; lia). lia.
Qed.

Lemma zb_opp A x : zb A x -> zb A (fopp x).
Proof.
  intros (F & V & L). repeat split; [now destruct x|now rewrite fopp_valid|].
  rewrite fopp_sval. lia.
Qed.

Lemma zb_sub A B x y :
  0 <= A -> 0 <= B -> A + B < 2 ^ 53 -> zb A x -> zb B y -> zb (A + B) (fsub x y).
Proof.
  intros HA HB HAB Hx Hy. pose proof Hx as (Fx & Vx & Lx). pose proof Hy as (Fy & Vy & Ly).
  destruct x as [sx| | |sx mx ex]; try discriminate; destruct y as [sy| | |sy my ey]; try discriminate.
  - apply (zb_weaken 0); [lia|]. destruct sx, sy; repeat split; cbn; lia.
  - apply (zb_weaken B); [lia|]. apply zb_opp in Hy. exact Hy.
  - apply (zb_weaken A); [lia|]. exact Hx.
  - rewrite fsub_finite. pose proof (fexpo_kmin _ Vx) as Kx. pose proof (fexpo_kmin _ Vy) as Ky.
    cbn [fexpo] in Kx, Ky. apply normalize_zb; [lia|lia|].
    rewrite Z.mul_sub_distr_r, !sval_scale by (cbn [fexpo]; lia). lia.
Qed.

Lemma zb_abs A x : zb A x -> zb A (fabs x).
Proof.
  intros (F & V & L). repeat split; [now destruct x|now rewrite fabs_valid|].
  replace (sval kmin (fabs x)) with (Z.abs (sval kmin x)); [lia|].
  destruct x as [| | |[] m e]; try reflexivity; cbn [sval fabs SFabs cond_Zopp].
  all: pose proof (fexpo_kmin _ V) as K; cbn [fexpo] in K; pose proof (sval_pos kmin m e K) as P; cbn in P; lia.
Qed.

(** A float above the exact product is above the rounded product. *)
Lemma fmul_pos_upper m e m' e' mf ef :
  canonical (Zpos m) e -> canonical (Zpos m') e' -> canonical (Zpos mf) ef -> ef <= emax - prec ->
  (Zpos m * 2 ^ (e - kmin)) * (Zpos m' * 2 ^ (e' - kmin)) <= Zpos mf * 2 ^ (ef - kmin) * 2 ^ 1074 ->
  fleb (fmul (pos_f m e) (pos_f m' e')) (pos_f mf ef) = true.
Proof.
  intros Cx Cy Cf Bf H. pose proof (canonical_bounds _ _ Cx) as (_ & ? & _).
  pose proof (canonical_bounds _ _ Cy) as (_ & ? & _). pose proof (canonical_bounds _ _ Cf) as (_ & ? & _).
  unfold fmul, SFmul. cbn [xorb]. rewrite Pos2Z.inj_mul.
  apply (round_aux_upper _ _ _ _ _ (2 * kmin)); auto using fmul_fine; try (unfold kmin in *; lia); [|easy].
  replace (e + e' - 2 * kmin) with ((e - kmin) + (e' - kmin)) by lia.
  replace (ef - 2 * kmin) with ((ef - kmin) + 1074) by (unfold kmin; lia).
  rewrite !Z.pow_add_r by (unfold kmin in *; lia). rewrite (Z.mul_assoc (Zpos mf)).
  etransitivity; [|exact H]. apply Z.eq_le_incl. ring.
Qed.

Lemma zb_mul_pos A B m e m' e' :
  0 <= A -> 0 <= B -> A * B < 2 ^ 53 -> zb A (pos_f m e) -> zb B (pos_f m' e') ->
  zb (A * B) (fmul (pos_f m e) (pos_f m' e')).
Proof.
  intros HA HB HAB (_ & Vx & Lx) (_ & Vy & Ly).
  pose proof (fexpo_kmin _ Vx) as Kx. pose proof (fexpo_kmin _ Vy) as Ky. cbn [fexpo] in Kx, Ky.
  pose proof (sval_pos kmin m e Kx) as Px. pose proof (sval_pos kmin m' e' Ky) as Py.
  cbn [sval cond_Zopp] in Lx, Ly, Px, Py.
  assert (P : 0 < 2 ^ 1074) by (apply Z.pow_pos_nonneg; lia).
  assert (HAB0 : 0 < A * B) by nia.
  destruct (f64_of_Z_exact (A * B) ltac:(lia)) as [Ff Sf]. pose proof (f64_of_Z_valid (A * B)) as Vf.
  pose proof (f64_of_Z_pos (A * B) HAB0) as Hf.
  apply valid_finite in Vx as [Cx Bx], Vy as [Cy By].
  assert (N : nonneg (fmul (pos_f m e) (pos_f m' e'))).
  { apply signed_false_nonneg, round_aux_signed. rewrite Pos2Z.inj_mul. now apply fmul_fine. }
  apply zb_intro; [lia| | |].
  - apply fmul_valid; apply valid_finite; auto.
  - destruct (f64_of_Z (A * B)) as [|[]| |[] mf ef]; try discriminate.
    apply valid_finite in Vf as [Cf Bf]. cbn [sval cond_Zopp] in Sf.
    apply fmul_pos_upper; auto. rewrite Sf.
    replace (A * B * 2 ^ 1074 * 2 ^ 1074) with ((A * 2 ^ 1074) * (B * 2 ^ 1074))
      by (generalize (2 ^ 1074); intros; ring).
    apply Z.mul_le_mono_nonneg; lia.
  - apply fleb_trans with f0; [|exact N].
    destruct (f64_of_Z (A * B)) as [|[]| |[] mf ef]; try discriminate; reflexivity.
Qed.

Lemma fmul_opp_l x y : is_finite x = true -> is_finite y = true -> valid x = true -> valid y = true ->
  fmul (fopp x) y = fopp (fmul x y).
Proof.
  destruct x as [sx| | |sx mx ex], y as [sy| | |sy my ey]; intros Fx Fy Vx Vy; try discriminate.
  1,2,3: destruct sx, sy; reflexivity.
  apply valid_finite in Vx as [Cx _], Vy as [Cy _]. cbn [fopp SFopp fmul SFmul]. unfold fmul, SFmul.
  rewrite Pos2Z.inj_mul. pose proof (fmul_fine _ _ _ _ Cx Cy) as F.
  destruct sx, sy; cbn [negb xorb]; rewrite ?(round_aux_opp _ _ _ F), ?fopp_involutive; reflexivity.
Qed.

Lemma fmul_opp_r x y : is_finite x = true -> is_finite y = true -> valid x = true -> valid y = true ->
  fmul x (fopp y) = fopp (fmul x y).
Proof.
  destruct x as [sx| | |sx mx ex], y as [sy| | |sy my ey]; intros Fx Fy Vx Vy; try discriminate.
  1,2,3: destruct sx, sy; reflexivity.
  apply valid_finite in Vx as [Cx _], Vy as [Cy _]. unfold fmul, SFmul. cbn [fopp SFopp].
  rewrite Pos2Z.inj_mul. pose proof (fmul_fine _ _ _ _ Cx Cy) as F.
  destruct sx, sy; cbn [negb xorb]; rewrite ?(round_aux_opp _ _ _ F), ?fopp_involutive; reflexivity.
Qed.

Lemma zb_mul A B x y :
  0 <= A -> 0 <= B -> A * B < 2 ^ 53 -> zb A x -> zb B y -> zb (A * B) (fmul x y).
Proof.
  intros HA HB HAB Hx Hy. pose proof Hx as (Fx & Vx & _). pose proof Hy as (Fy & Vy & _).
  assert (Z0 : forall s, zb (A * B) (S754_zero s)) by (intros s; apply (zb_weaken 0); [nia|repeat split; cbn; lia]).
  destruct x as [sx| | |sx mx ex]; try discriminate; destruct y as [sy| | |sy my ey]; try discriminate;
    [apply Z0|apply Z0|apply Z0|].
  assert (Px : zb A (pos_f mx ex)) by (destruct sx; [apply (zb_opp _ _ Hx)|exact Hx]).
  assert (Py : zb B (pos_f my ey)) by (destruct sy; [apply (zb_opp _ _ Hy)|exact Hy]).
  pose proof (zb_mul_pos A B mx ex my ey HA HB HAB Px Py) as P.
  destruct Px as (Fx' & Vx' & _), Py as (Fy' & Vy' & _).
  destruct sx, sy; try exact P.
  - change (S754_finite true mx ex) with (fopp (pos_f mx ex)). rewrite fmul_opp_l; auto. now apply zb_opp.
  - change (S754_finite true my ey) with (fopp (pos_f my ey)). rewrite fmul_opp_r; auto. now apply zb_opp.
Qed.

(** A decidable form of the bound, for literals and measured values. *)
Definition zb_check (A : Z) (x : float64) : bool :=
  is_finite x && valid x && (Z.abs (sval kmin x) <=? A * 2 ^ 1074).

Lemma zb_check_spec A x : zb_check A x = true <-> zb A x.
Proof. unfold zb_check, zb. rewrite !andb_true_iff, Z.leb_le. tauto. Qed.

Lemma zb_nonneg_le A x : 0 <= A < 2 ^ 53 -> valid x = true -> nonneg x ->
  fleb x (f64_of_Z A) = true -> zb A x.
Proof.
  intros HA Vx Nx U. apply zb_intro; auto. apply fleb_trans with f0; [|exact Nx].
  pose proof (f64_of_Z_nonneg A ltac:(lia)) as [E|[[s E]|(m & e & E)]]%nonneg_shape; rewrite E;
    try reflexivity; destruct s; reflexivity.
Qed.

(** Products of bounded numbers are finite, even when the product of the
    bounds is no longer an exact integer. *)
Lemma fmul_finite A B x y :
  0 <= A < 2 ^ 53 -> 0 <= B < 2 ^ 53 -> zb A x -> zb B y -> is_finite (fmul x y) = true.
Proof.
  intros HA HB (Fx & Vx & Lx) (Fy & Vy & Ly).
  pose proof (fexpo_kmin _ Vx) as Kx. pose proof (fexpo_kmin _ Vy) as Ky.
  destruct x as [sx| | |sx mx ex]; try discriminate; destruct y as [sy| | |sy my ey]; try discriminate;
    try reflexivity.
  apply valid_finite in Vx as [Cx Bx], Vy as [Cy By]. cbn [fexpo] in Kx, Ky.
  pose proof (sval_pos kmin mx ex Kx) as Px. pose proof (sval_pos kmin my ey Ky) as Py.
  assert (P : 0 < 2 ^ 1074) by (apply Z.pow_pos_nonneg; lia).
  assert (H : is_finite (fmul (pos_f mx ex) (pos_f my ey)) = true).
  { apply (fleb_finite _ (pos_f 4503599627370496 54)).
    - apply signed_false_nonneg, round_aux_signed. rewrite Pos2Z.inj_mul. now apply fmul_fine.
    - apply fmul_pos_upper; auto; [split; reflexivity|unfold emax, prec; lia|].
      cbn [sval cond_Zopp] in *.
      assert (L1 : Zpos mx * 2 ^ (ex - kmin) <= 2 ^ 53 * 2 ^ 1074) by (destruct sx; cbn [cond_Zopp] in Lx; nia).
      assert (L2 : Zpos my * 2 ^ (ey - kmin) <= 2 ^ 53 * 2 ^ 1074) by (destruct sy; cbn [cond_Zopp] in Ly; nia).
      transitivity ((2 ^ 53 * 2 ^ 1074) * (2 ^ 53 * 2 ^ 1074)); [apply Z.mul_le_mono_nonneg; lia|].
      vm_compute. discriminate.
    - reflexivity. }
  destruct sx, sy; try exact H.
  - change (is_finite (fmul (fopp (pos_f mx ex)) (pos_f my ey)) = true). rewrite fmul_opp_l.
    + destruct (fmul (pos_f mx ex) (pos_f my ey)); try discriminate; reflexivity.
    + reflexivity.
    + reflexivity.
    + now apply valid_finite.
    + now apply valid_finite.
  - change (is_finite (fmul (pos_f mx ex) (fopp (pos_f my ey))) = true). rewrite fmul_opp_r.
    + destruct (fmul (pos_f mx ex) (pos_f my ey)); try discriminate; reflexivity.
    + reflexivity.
    + reflexivity.
    + now apply valid_finite.
    + now apply valid_finite.
Qed.

Lemma fsub_not_nan x y : is_finite x = true -> is_nan y = false -> is_nan (fsub x y) = false.
Proof.
  destruct x as [[]|[]| |], y as [[]|[]| |]; intros; try discriminate; try reflexivity.
  rewrite fsub_finite. apply binary_normalize_not_nan.
Qed.

Lemma fdiv_pos_not_nan x m e : is_nan x = false -> is_nan (fdiv x (pos_f m e)) = false.
Proof.
  destruct x as [[]|[]| |s mx ex]; intros; try discriminate; try reflexivity.
  unfold fdiv, SFdiv. destruct (div_core (Zpos mx) ex (Zpos m) e) as [-> F]; [lia|lia|].
  destruct (round_aux_signed (xorb s false) _ _ (new_location (Zpos m)
    ((Zpos mx * 2 ^ (ex - e - Z.min (fexp prec emax (Zdigits2 (Zpos mx) + ex - (Zdigits2 (Zpos m) + e))) (ex - e)))
       mod Zpos m)) F) as [->|[->|(? & ? & ->)]]; reflexivity.
Qed.

Lemma nonneg_mul_pos m e y :
  valid (pos_f m e) = true -> valid y = true -> nonneg y -> nonneg (fmul (pos_f m e) y).
Proof.
  intros Vx Vy [->|[[[] ->]|(m' & e' & ->)]]%nonneg_shape; try reflexivity.
  apply psign_nonneg, psign_mul_pos; auto. right; right; eauto.
Qed.

Lemma nonneg_div_pos x m e : nonneg x -> nonneg (fdiv x (pos_f m e)).
Proof.
  intros [->|[[[] ->]|(m' & e' & ->)]]%nonneg_shape; try reflexivity.
  apply psign_nonneg, psign_div_finite_den. right; right; eauto.
Qed.

(** The square root of a finite number is finite, and positive from one on. *)
Lemma fsqrt_shape m e :
  canonical (Zpos m) e -> e <= emax - prec ->
  is_finite (fsqrt (pos_f m e)) = true /\
  (fleb f1 (pos_f m e) = true -> exists m' e', fsqrt (pos_f m e) = pos_f m' e').
Proof.
  intros C B. unfold fsqrt, SFsqrt.
  destruct (sqrt_core (Zpos m) e) as (q & e' & l & E & F); [lia|]. rewrite E.
  unfold SFsqrt_core_binary in E.
  set (x' := Z.min (fexp prec emax (Z.div2 (Zdigits2 (Zpos m) + e + 1))) (Z.div2 e)) in *.
  assert (Hhalf : forall z, 2 * Z.div2 z <= z < 2 * Z.div2 z + 2).
  { intros z. rewrite Z.div2_div. pose proof (Z.div_mod z 2 ltac:(lia)).
    pose proof (Z.mod_pos_bound z 2 ltac:(lia)). lia. }
  pose proof (Hhalf e) as He. clear Hhalf.
  assert (Hs : 0 <= e - 2 * x') by (unfold x'; lia).
  replace (match e - 2 * x' with 0 => Zpos m | Zpos _ => Z.shiftl (Zpos m) (e - 2 * x') | Zneg _ => 0 end)
    with (Zpos m * 2 ^ (e - 2 * x')) in E.
  2: { destruct (e - 2 * x') as [|p|p] eqn:Es; [cbn; lia| |lia]. now rewrite Z.shiftl_mul_pow2 by lia. }
  set (N := Zpos m * 2 ^ (e - 2 * x')) in *.
  assert (HN : 0 < N) by (apply Z.mul_pos_pos; [lia|apply Z.pow_pos_nonneg; lia]).
  pose proof (Z.sqrtrem_spec N ltac:(lia)) as S. destruct (Z.sqrtrem N) as [q0 r].
  injection E as -> <- _. destruct S as [S [R0 R1]].
  destruct (round_aux_pack q x' l F) as (m2 & Cc & _ & [P1 U] & Lo & L & R).
  rewrite R. unfold pack. set (e1 := fexp prec emax (Zdigits2 q + x')) in *.
  pose proof (canonical_bounds _ _ C) as ((_ & Mu) & Elo & _).
  pose proof (Zdigits2_bounds (Zpos m) ltac:(lia)) as [_ Bm].
  assert (Hq : 0 < q) by nia.
  pose proof (Zdigits2_bounds q Hq) as [Bq _]. pose proof (Zdigits2_pos q Hq).
  assert (Hd : Zdigits2 (Zpos m) <= 53).
  { destruct C as [_ C]. unfold fexp, emin, prec, emax in *. pose proof (Zdigits2_pos (Zpos m) ltac:(lia)). lia. }
  pose proof (Zdigits2_pos (Zpos m) ltac:(lia)).
  assert (K : 2 ^ (2 * (Zdigits2 q - 1)) < 2 ^ (Zdigits2 (Zpos m) + (e - 2 * x'))).
  { apply Z.le_lt_trans with (q * q).
    - replace (2 * (Zdigits2 q - 1)) with ((Zdigits2 q - 1) + (Zdigits2 q - 1)) by lia.
      rewrite Z.pow_add_r by lia. assert (0 < 2 ^ (Zdigits2 q - 1)) by (apply Z.pow_pos_nonneg; lia). nia.
    - apply Z.le_lt_trans with N; [lia|]. unfold N. rewrite Z.pow_add_r by lia.
      apply Z.mul_lt_mono_pos_r; [apply Z.pow_pos_nonneg; lia|lia]. }
  apply Z.pow_lt_mono_r_iff in K; [|lia|lia].
  assert (He1 : e1 + 1 <= emax - prec) by (unfold e1, fexp, emin, prec, emax in *; lia).
  split.
  { destruct (m2 =? 0); [reflexivity|].
    destruct (m2 <? 2 ^ prec); [rewrite (proj2 (Z.leb_le e1 (emax - prec))) by lia|
      rewrite (proj2 (Z.leb_le (e1 + 1) (emax - prec))) by lia]; reflexivity. }
  intros H1. assert (M0 : m2 <> 0).
  { intros ->. assert (q / 2 ^ (e1 - x') = 0) as Z0 by lia.
    assert (e1 = -1074) by (destruct (Z.eq_dec e1 (-1074)); [assumption|specialize (L ltac:(lia)); unfold prec in L; lia]).
    rewrite f1_eq in H1.
    pose proof (canonical_value _ _ _ _ kmin f1_canonical C ltac:(unfold kmin; lia) Elo H1) as V.
    pose proof (binade_le 4503599627370496 (-52) (Zpos m) e kmin ltac:(lia) ltac:(lia) ltac:(unfold kmin; lia) Elo V) as Bd.
    change (Zdigits2 4503599627370496) with 53 in Bd.
    assert (K2 : 2 ^ (Zdigits2 (Zpos m) - 1 + (e - 2 * x')) < 2 ^ (2 * Zdigits2 q)).
    { apply Z.le_lt_trans with N.
      - unfold N. rewrite Z.pow_add_r by lia.
        apply Z.mul_le_mono_nonneg_r; [apply Z.pow_nonneg; lia|].
        now destruct (Zdigits2_bounds (Zpos m) ltac:(lia)).
      - replace (2 * Zdigits2 q) with (Zdigits2 q + Zdigits2 q) by lia. rewrite Z.pow_add_r by lia.
        destruct (Zdigits2_bounds q Hq) as [_ ?]. now apply (square_lt N q r). }
    apply Z.pow_lt_mono_r_iff in K2; [|lia|lia]. unfold e1, fexp, emin, prec, emax in *. lia. }
  rewrite (proj2 (Z.eqb_neq m2 0)) by assumption.
  destruct (m2 <? 2 ^ prec); [rewrite (proj2 (Z.leb_le e1 (emax - prec))) by lia|
    rewrite (proj2 (Z.leb_le (e1 + 1) (emax - prec))) by lia]; eauto.
Qed.

Lemma fsqrt_finite x : valid x = true -> nonneg x -> is_finite x = true -> is_finite (fsqrt x) = true.
Proof.
  intros V [->|[[s ->]|(m & e & ->)]]%nonneg_shape F; [discriminate|reflexivity|].
  apply valid_finite in V as [C B]. now apply fsqrt_shape.
Qed.

(** A bounded number divided by at least one half is finite. *)
Lemma fdiv_finite_pos A m e my ey :
  0 <= A < 2 ^ 53 -> zb A (pos_f m e) -> valid (pos_f my ey) = true ->
  fleb (f64_lit 1 2) (pos_f my ey) = true -> is_finite (fdiv (pos_f m e) (pos_f my ey)) = true.
Proof.
  intros HA (_ & Vx & Lx) Vy Hy.
  pose proof (fexpo_kmin _ Vx) as Kx. pose proof (fexpo_kmin _ Vy) as Ky. cbn [fexpo sval cond_Zopp] in Kx, Ky, Lx.
  apply valid_finite in Vx as [Cx Bx], Vy as [Cy By].
  apply (fleb_finite _ (pos_f 4503599627370496 2)); [|apply fdiv_pos_upper; auto|reflexivity].
  - apply psign_nonneg, psign_div_finite_den. right; right; eauto.
  - split; reflexivity.
  - unfold emax, prec; lia.
  - change (f64_lit 1 2) with (pos_f 4503599627370496 (-53)) in Hy.
    pose proof (canonical_value _ _ _ _ kmin (conj eq_refl eq_refl : canonical 4503599627370496 (-53)) Cy
      ltac:(unfold kmin; lia) Ky Hy) as V.
    change (4503599627370496 * 2 ^ (-53 - kmin)) with (2 ^ 1073) in V.
    replace (e + 2200) with ((e - kmin) + 1126) by (unfold kmin; lia).
    replace (2 + ey + 2200) with ((ey - kmin) + 1128) by (unfold kmin; lia).
    rewrite !Z.pow_add_r by lia.
    assert (X : Zpos m * 2 ^ (e - kmin) <= 2 ^ 53 * 2 ^ 1074) by (assert (0 < 2 ^ 1074) by (apply Z.pow_pos_nonneg; lia); nia).
    transitivity (2 ^ 53 * 2 ^ 1074 * 2 ^ 1126).
    + rewrite Z.mul_assoc. apply Z.mul_le_mono_nonneg_r; [apply Z.pow_nonneg; lia|exact X].
    + transitivity (4503599627370496 * (2 ^ 1073 * 2 ^ 1128)); [vm_compute; discriminate|].
      rewrite <- Z.mul_assoc. apply Z.mul_le_mono_nonneg_l; [lia|]. rewrite Z.mul_assoc.
      apply Z.mul_le_mono_nonneg_r; [apply Z.pow_nonneg; lia|exact V].
Qed.

Lemma fdiv_opp_l x m e : fdiv (fopp x) (pos_f m e) = fopp (fdiv x (pos_f m e)).
Proof.
  destruct x as [[]|[]| |s mx ex]; try reflexivity.
  unfold fdiv, SFdiv. cbn [fopp SFopp].
  destruct (div_core (Zpos mx) ex (Zpos m) e) as [-> F]; [lia|lia|].
  destruct s; cbn [negb xorb]; rewrite (round_aux_opp _ _ _ F), ?fopp_involutive; reflexivity.
Qed.

Lemma fdiv_finite A x my ey :
  0 <= A < 2 ^ 53 -> zb A x -> valid (pos_f my ey) = true ->
  fleb (f64_lit 1 2) (pos_f my ey) = true -> is_finite (fdiv x (pos_f my ey)) = true.
Proof.
  intros HA Hx Vy Hy. pose proof Hx as (Fx & _ & _).
  destruct x as [s| | |[] mx ex]; try discriminate; [reflexivity| |now apply (fdiv_finite_pos A)].
  apply zb_opp in Hx. cbn in Hx.
  change (S754_finite true mx ex) with (fopp (pos_f mx ex)). rewrite fdiv_opp_l.
  pose proof (fdiv_finite_pos A mx ex my ey HA Hx Vy Hy) as F.
  destruct (fdiv (pos_f mx ex) (pos_f my ey)); try discriminate; reflexivity.
Qed.

(** ** Addition is monotone

    The round and sticky bits decide on which side of the midpoint the exact
    value lies, so rounding two values of the same binade keeps their order. *)

Definition rne (m n : Z) : Z :=
  let q := m / 2 ^ n in
  let r := m mod 2 ^ n in
  if 2 * r <? 2 ^ n then q
  else if 2 ^ n <? 2 * r then q + 1
  else if Z.even q then q else q + 1.

Lemma rne_mono m m' n : 0 <= n -> m <= m' -> rne m n <= rne m' n.
Proof.
  intros Hn H. assert (P : 0 < 2 ^ n) by (apply Z.pow_pos_nonneg; lia). unfold rne.
  pose proof (Z.div_mod m (2 ^ n) ltac:(lia)) as D. pose proof (Z.div_mod m' (2 ^ n) ltac:(lia)) as D'.
  pose proof (Z.mod_pos_bound m (2 ^ n) P). pose proof (Z.mod_pos_bound m' (2 ^ n) P).
  pose proof (Z.div_le_mono m m' (2 ^ n) P H) as Q.
  destruct (Z.eq_dec (m / 2 ^ n) (m' / 2 ^ n)) as [E|N].
  - rewrite E in *.
    destruct (Z.ltb_spec (2 * (m mod 2 ^ n)) (2 ^ n)), (Z.ltb_spec (2 * (m' mod 2 ^ n)) (2 ^ n)),
      (Z.ltb_spec (2 ^ n) (2 * (m mod 2 ^ n))), (Z.ltb_spec (2 ^ n) (2 * (m' mod 2 ^ n))),
      (Z.even (m' / 2 ^ n)); lia.
  - repeat match goal with |- context [if ?b then _ else _] => destruct b end; lia.
Qed.

Lemma shr_iter_bits n m :
  0 <= m ->
  Nat.iter (S n) shr_1 (Build_shr_record m false false) =
  Build_shr_record (m / 2 ^ Z.of_nat (S n)) (Z.odd (m / 2 ^ Z.of_nat n))
    (negb (m mod 2 ^ Z.of_nat n =? 0)).
Proof.
  intros Hm.
  assert (S1 : forall q s, 0 <= q -> shr_1 (Build_shr_record q s false) = Build_shr_record (q / 2) (Z.odd q) s).
  { intros q s Hq. pose proof (shr_1_m (Build_shr_record q s false) Hq) as E. cbn [shr_m] in E.
    destruct q as [|[p|p|]|p]; cbn [shr_1 shr_m Z.odd] in *; try lia; rewrite <- E; destruct s; reflexivity. }
  assert (S2 : forall q r s, 0 <= q -> shr_1 (Build_shr_record q r s) = Build_shr_record (q / 2) (Z.odd q) (r || s)).
  { intros q r s Hq. pose proof (shr_1_m (Build_shr_record q r s) Hq) as E. cbn [shr_m] in E.
    destruct q as [|[p|p|]|p]; cbn [shr_1 shr_m Z.odd] in *; try lia; rewrite <- E; reflexivity. }
  induction n as [|n IH].
  - cbn [Nat.iter nat_rect]. rewrite S1 by assumption. change (Z.of_nat 1) with 1. change (Z.of_nat 0) with 0.
    rewrite Z.pow_0_r, Z.pow_1_r, Z.div_1_r, Z.mod_1_r. reflexivity.
  - rewrite Nat.iter_succ, IH.
    assert (P : 0 < 2 ^ Z.of_nat n) by (apply Z.pow_pos_nonneg; lia).
    rewrite S2 by (apply Z.div_pos; [assumption|apply Z.pow_pos_nonneg; lia]).
    replace (Z.of_nat (S (S n))) with (Z.of_nat (S n) + 1) by lia.
    rewrite Z.pow_add_r, Z.pow_1_r, <- Z.div_div by lia. f_equal.
    replace (Z.of_nat (S n)) with (Z.of_nat n + 1) by lia. rewrite Z.pow_add_r, Z.pow_1_r by lia.
    rewrite Z.rem_mul_r by lia.
    pose proof (Z.mod_pos_bound m _ P). rewrite Zmod_odd.
    destruct (Z.odd (m / 2 ^ Z.of_nat n)), (Z.eqb_spec (m mod 2 ^ Z.of_nat n) 0) as [->|];
      cbn [negb orb]; match goal with |- _ = negb (?a =? 0) => destruct (Z.eqb_spec a 0) end;
      cbn [negb]; reflexivity || lia.
Qed.

Lemma round_bits_rne m n :
  0 <= m -> 0 <= n ->
  let mrs := Nat.iter (Z.to_nat n) shr_1 (Build_shr_record m false false) in
  round_nearest_even (shr_m mrs) (loc_of_shr_record mrs) = rne m n.
Proof.
  intros Hm Hn mrs. unfold mrs. destruct (Z.to_nat n) as [|k] eqn:E.
  - assert (n = 0) as -> by lia. unfold rne. cbn. now rewrite Z.div_1_r, Z.mod_1_r.
  - rewrite shr_iter_bits by assumption. unfold rne. replace (Z.of_nat (S k)) with n by lia.
    assert (Hk : n = Z.of_nat k + 1) by lia.
    assert (P : 0 < 2 ^ Z.of_nat k) by (apply Z.pow_pos_nonneg; lia).
    assert (R : m mod 2 ^ n = m mod 2 ^ Z.of_nat k + 2 ^ Z.of_nat k * Z.b2z (Z.odd (m / 2 ^ Z.of_nat k))).
    { rewrite Hk, Z.pow_add_r, Z.pow_1_r, Z.rem_mul_r, Zmod_odd by lia. now destruct (Z.odd _). }
    rewrite R. replace (2 ^ n) with (2 * 2 ^ Z.of_nat k) by (rewrite Hk, Z.pow_add_r; lia).
    pose proof (Z.mod_pos_bound m _ P). cbn [shr_m].
    destruct (Z.odd (m / 2 ^ Z.of_nat k)), (Z.eqb_spec (m mod 2 ^ Z.of_nat k) 0) as [E0|E0];
      cbn [negb loc_of_shr_record round_nearest_even Z.b2z].
    + rewrite E0. rewrite (proj2 (Z.ltb_ge _ _)), (proj2 (Z.ltb_ge _ _)) by lia. reflexivity.
    + rewrite (proj2 (Z.ltb_ge _ _)), (proj2 (Z.ltb_lt _ _)) by lia. reflexivity.
    + rewrite E0. rewrite (proj2 (Z.ltb_lt _ _)) by lia. reflexivity.
    + rewrite (proj2 (Z.ltb_lt _ _)) by lia. reflexivity.
Qed.

(** The rounded mantissa of an exact magnitude, in closed form. *)
Lemma round_aux_rne s m e :
  fine m e ->
  let e1 := fexp prec emax (Zdigits2 m + e) in
  binary_round_aux prec emax s m e loc_Exact = pack s (rne m (e1 - e)) e1.
Proof.
  intros Hf e1. pose proof Hf as (Hm & Hfe & _).
  destruct (fine_first_shift m e loc_Exact Hf) as (m2 & C & X & [P U] & E & L & R).
  destruct (round_aux_pack m e loc_Exact Hf) as (m3 & _ & _ & _ & _ & _ & R3).
  assert (K : forall s, binary_round_aux prec emax s m e loc_Exact = pack s (rne m (e1 - e)) e1); [|apply K].
  clear s. intros s. fold e1 in C, X, P, U, E, L, R.
  set (mm := rne m (e1 - e)).
  assert (Hmm : mm = m / 2 ^ (e1 - e) \/ mm = m / 2 ^ (e1 - e) + 1).
  { unfold mm, rne. destruct (_ <? _); [auto|]. destruct (_ <? _); [auto|]. destruct (Z.even _); auto. }
  unfold binary_round_aux, shr_fexp at 1. fold e1. cbn [shr_record_of_loc].
  rewrite shr_spec by (cbn [shr_m]; unfold e1; lia).
  replace (e + (e1 - e)) with e1 by lia.
  rewrite round_bits_rne by (unfold e1; lia). fold mm. unfold pack.
  destruct (Z.eqb_spec mm 0) as [->|N0].
  { rewrite shr_fexp_le; [reflexivity|]. unfold fexp, emin, prec, emax; cbn [Zdigits2]; lia. }
  destruct (Z.ltb_spec mm (2 ^ prec)) as [Hlt|Hge].
  - assert (canonical mm e1) as [_ Hc] by (apply canonical_intro; lia).
    rewrite shr_fexp_le by lia. rewrite shr_record_of_loc_m.
    destruct mm as [|p|p]; [lia|reflexivity|lia].
  - assert (mm = 2 ^ prec) as Em by lia. clearbody mm. subst mm.
    assert (Hd : fexp prec emax (Zdigits2 (2 ^ prec) + e1) - e1 = 1).
    { unfold fexp, emin, prec, emax in *. change (Zdigits2 (2 ^ 53)) with 54. lia. }
    rewrite (shr_fexp_exact (2 ^ prec) e1 1); [|unfold prec; lia|lia|lia|reflexivity].
    reflexivity.
Qed.

Lemma rne_scale m n j : 0 <= n -> 0 <= j -> rne (m * 2 ^ j) (n + j) = rne m n.
Proof.
  intros Hn Hj. unfold rne. assert (Pj : 0 < 2 ^ j) by (apply Z.pow_pos_nonneg; lia).
  assert (Pn : 0 < 2 ^ n) by (apply Z.pow_pos_nonneg; lia).
  rewrite Z.pow_add_r, Z.div_mul_cancel_r, Zmult_mod_distr_r by lia.
  replace (2 * (m mod 2 ^ n * 2 ^ j)) with ((2 * (m mod 2 ^ n)) * 2 ^ j) by lia.
  assert (K : forall a b, (a * 2 ^ j <? b * 2 ^ j) = (a <? b)).
  { intros a b. apply Bool.eq_iff_eq_true. rewrite !Z.ltb_lt. symmetry. now apply Z.mul_lt_mono_pos_r. }
  now rewrite !K.
Qed.

Lemma pack_mono m m' e :
  -1074 <= e -> 0 <= m <= m' -> m' <= 2 ^ prec ->
  fleb (pack false m e) (pack false m' e) = true.
Proof.
  intros He Hm Hu. unfold pack. destruct (Z.eqb_spec m 0) as [->|N].
  { destruct (m' =? 0); [reflexivity|]. destruct (m' <? _); destruct (_ <=? _); reflexivity. }
  rewrite (proj2 (Z.eqb_neq m' 0)) by lia.
  destruct (Z.ltb_spec m (2 ^ prec)), (Z.ltb_spec m' (2 ^ prec)); [| |lia|].
  - destruct (Z.leb_spec e (emax - prec)); [|reflexivity]. rewrite fleb_kle. cbn. repeat split.
    rewrite !Z2Pos.id by lia. unfold kle, klt.
    destruct (Z.eq_dec m m') as [->|]; [right; reflexivity|left; lia].
  - destruct (Z.leb_spec e (emax - prec)), (Z.leb_spec (e + 1) (emax - prec)); try lia; try reflexivity.
    rewrite fleb_kle. cbn. repeat split. left. unfold klt. lia.
  - destruct (Z.leb_spec (e + 1) (emax - prec)); [|reflexivity]. apply fleb_refl. reflexivity.
Qed.

Lemma rne_bound m e :
  fine m e -> let e1 := fexp prec emax (Zdigits2 m + e) in 0 <= rne m (e1 - e) <= 2 ^ prec.
Proof.
  intros Hf e1. destruct (round_aux_pack m e loc_Exact Hf) as (_ & _ & _ & [P U] & _ & _ & _).
  fold e1 in P, U. unfold rne. destruct (_ <? _); [lia|]. destruct (_ <? _); [lia|]. destruct (Z.even _); lia.
Qed.

(** Rounding is monotone: a smaller exact magnitude never rounds above a
    larger one. *)
Lemma binary_round_mono p p' e d k :
  k <= e -> k <= d -> Zpos p * 2 ^ (e - k) <= Zpos p' * 2 ^ (d - k) ->
  fleb (binary_round prec emax false p e) (binary_round prec emax false p' d) = true.
Proof.
  intros Ke Kd H. destruct (binary_round_fine p e) as (m & x & F & Hx & Em & R).
  destruct (binary_round_fine p' d) as (m' & x' & F' & Hx' & Em' & R').
  assert (P : 0 < 2 ^ (e - x)) by (apply Z.pow_pos_nonneg; lia).
  assert (P' : 0 < 2 ^ (d - x')) by (apply Z.pow_pos_nonneg; lia).
  assert (Ds : Zdigits2 m + x = Zdigits2 (Zpos p) + e) by (rewrite Em, Zdigits2_shift by lia; lia).
  assert (Ds' : Zdigits2 m' + x' = Zdigits2 (Zpos p') + d) by (rewrite Em', Zdigits2_shift by lia; lia).
  assert (Hd : Zdigits2 (Zpos p) + e <= Zdigits2 (Zpos p') + d).
  { apply (binade_le _ _ _ _ k); lia. }
  rewrite R, R', !round_aux_rne by assumption. rewrite Ds, Ds'.
  pose proof (rne_bound m x F) as B. pose proof (rne_bound m' x' F') as B'. cbv zeta in B, B'.
  rewrite Ds in B. rewrite Ds' in B'.
  set (e1 := fexp prec emax (Zdigits2 (Zpos p) + e)) in *. set (e1' := fexp prec emax (Zdigits2 (Zpos p') + d)) in *.
  assert (Hlo : -1074 <= e1) by (unfold e1, fexp, emin, prec, emax; lia).
  assert (X1 : x <= e1) by (destruct F as (_ & F & _); rewrite Ds in F; exact F).
  assert (X1' : x' <= e1') by (destruct F' as (_ & F' & _); rewrite Ds' in F'; exact F').
  destruct (Z.eq_dec e1 e1') as [E|NE].
  - rewrite <- E in *. set (j := Z.min (Z.min x x') k).
    assert (Q : rne m (e1 - x) <= rne m' (e1 - x')).
    { rewrite <- (rne_scale m (e1 - x) (x - j)), <- (rne_scale m' (e1 - x') (x' - j)) by lia.
      replace (e1 - x + (x - j)) with (e1 - j) by lia. replace (e1 - x' + (x' - j)) with (e1 - j) by lia.
      apply rne_mono; [lia|]. rewrite Em, Em', <- !Z.mul_assoc, <- !Z.pow_add_r by lia.
      replace (e - x + (x - j)) with ((e - k) + (k - j)) by lia.
      replace (d - x' + (x' - j)) with ((d - k) + (k - j)) by lia.
      rewrite !Z.pow_add_r, !Z.mul_assoc by lia.
      apply Z.mul_le_mono_nonneg_r; [apply Z.pow_nonneg; lia|assumption]. }
    apply pack_mono; try lia.
  - assert (e1 < e1') by (pose proof (fexp_mono _ _ Hd); unfold e1, e1' in *; lia).
    destruct (Z.le_gt_cases e1' (emax - prec)) as [Hb|Hb].
    + assert (Em1 : e1' = Zdigits2 (Zpos p') + d - 53)
        by (unfold e1', fexp, emin, prec, emax in *; lia).
      assert (Cg : canonical 4503599627370496 e1').
      { apply canonical_intro; unfold prec; lia. }
      apply fleb_trans with (pos_f 4503599627370496 e1').
      * replace (pack false (rne m (e1 - x)) e1) with (binary_round prec emax false p e)
          by (rewrite R, round_aux_rne by assumption; rewrite Ds; reflexivity).
        apply (normalize_pos_upper _ _ _ _ (Z.min (Z.min e d) e1')); auto; try lia.
        pose proof (Zdigits2_bounds (Zpos p) ltac:(lia)) as [_ Bp].
        assert (Hd2 : Zdigits2 (Zpos p) + e + 1 <= Zdigits2 (Zpos p') + d).
        { destruct (Z.eq_dec (Zdigits2 (Zpos p) + e) (Zdigits2 (Zpos p') + d)) as [Eq|]; [|lia].
          exfalso. apply NE. unfold e1, e1'. now rewrite Eq. }
        assert (Pe : 0 < 2 ^ (e - Z.min (Z.min e d) e1')) by (apply Z.pow_pos_nonneg; lia).
        transitivity (2 ^ Zdigits2 (Zpos p) * 2 ^ (e - Z.min (Z.min e d) e1')); [nia|].
        change 4503599627370496 with (2 ^ 52). pose proof (Zdigits2_pos (Zpos p) ltac:(lia)).
        rewrite <- !Z.pow_add_r by lia. apply Z.pow_le_mono_r; lia.
      * replace (pack false (rne m' (e1' - x')) e1') with (binary_round prec emax false p' d)
          by (rewrite R', round_aux_rne by assumption; rewrite Ds'; reflexivity).
        apply (normalize_pos_lower _ _ _ _ (Z.min (Z.min e d) e1')); auto; try lia.
        pose proof (Zdigits2_bounds (Zpos p') ltac:(lia)) as [Bp _].
        pose proof (Zdigits2_pos (Zpos p') ltac:(lia)).
        assert (Pe : 0 < 2 ^ (d - Z.min (Z.min e d) e1')) by (apply Z.pow_pos_nonneg; lia).
        transitivity (2 ^ (Zdigits2 (Zpos p') - 1) * 2 ^ (d - Z.min (Z.min e d) e1')); [|nia].
        change 4503599627370496 with (2 ^ 52). rewrite <- !Z.pow_add_r by lia.
        apply Z.pow_le_mono_r; lia.
    + assert (M0 : rne m' (e1' - x') <> 0).
      { destruct (round_aux_pack m' x' loc_Exact F') as (_ & _ & _ & _ & _ & L & _).
        rewrite Ds' in L. fold e1' in L.
        specialize (L ltac:(unfold emax, prec in *; lia)). clear B B'. change (2 ^ (prec - 1)) with 4503599627370496 in L. unfold rne.
        destruct (_ <? _); [lia|]. destruct (_ <? _); [lia|]. destruct (Z.even _); lia. }
      unfold pack at 2. rewrite (proj2 (Z.eqb_neq _ 0)) by assumption.
      rewrite (proj2 (Z.leb_gt e1' (emax - prec))) by lia. rewrite (proj2 (Z.leb_gt (e1' + 1) (emax - prec))) by lia.
      assert (forall b : bool, (if b then S754_infinity false else S754_infinity false) = S754_infinity false) as ->
        by (intros []; reflexivity).
      unfold pack. destruct (_ =? 0); [reflexivity|]. destruct (_ <? _); destruct (_ <=? _); reflexivity.
Qed.

(** Addition of non-negative floats is monotone in each operand. *)
Lemma fadd_mono_pos x m e x' m' e' :
  x = pos_f m e -> x' = pos_f m' e' -> valid x = true -> valid x' = true ->
  fleb x x' = true -> forall y, is_finite y = true -> valid y = true -> nonneg y ->
  fleb (fadd x y) (fadd x' y) = true.
Proof.
  intros -> -> V V' L y Fy Vy Ny. pose proof L as L0. apply fleb_sval in L; [|reflexivity..|assumption|assumption].
  apply nonneg_shape in Ny as [->|[[s ->]|(my & ey & ->)]]; [discriminate|destruct s; exact L0|].
  rewrite !fadd_finite. cbn [sval cond_Zopp]. 
  set (k := Z.min e ey). set (k' := Z.min e' ey).
  assert (Pk : forall a b, 0 < 2 ^ (a - Z.min a b)) by (intros; apply Z.pow_pos_nonneg; lia).
  assert (P1 : 0 < 2 ^ (e - k)) by apply Pk. assert (P2 : 0 < 2 ^ (e' - k')) by apply Pk.
  assert (P3 : 0 < 2 ^ (ey - k)) by (apply Z.pow_pos_nonneg; lia).
  assert (P4 : 0 < 2 ^ (ey - k')) by (apply Z.pow_pos_nonneg; lia).
  unfold binary_normalize. 
  destruct (Z.pos m * 2 ^ (e - k) + Z.pos my * 2 ^ (ey - k)) as [|q|] eqn:E1; [nia| |nia].
  destruct (Z.pos m' * 2 ^ (e' - k') + Z.pos my * 2 ^ (ey - k')) as [|q'|] eqn:E2; [nia| |nia].
  pose proof (fexpo_kmin _ V) as K1. pose proof (fexpo_kmin _ V') as K2. pose proof (fexpo_kmin _ Vy) as K3.
  cbn [fexpo sval cond_Zopp] in *.
  apply (binary_round_mono _ _ _ _ kmin); try lia.
  rewrite <- E1, <- E2, !Z.mul_add_distr_r, <- !Z.mul_assoc, <- !Z.pow_add_r by lia.
  replace (e - k + (k - kmin)) with (e - kmin) by lia. replace (ey - k + (k - kmin)) with (ey - kmin) by lia.
  replace (e' - k' + (k' - kmin)) with (e' - kmin) by lia. replace (ey - k' + (k' - kmin)) with (ey - kmin) by lia.
  lia.
Qed.

Lemma fadd_comm x y : fadd x y = fadd y x.
Proof.
  destruct x as [[]|[]| |sx mx ex], y as [[]|[]| |sy my ey]; try reflexivity.
  rewrite !fadd_finite. rewrite Z.min_comm. f_equal. lia.
Qed.

Lemma fadd_mono_l x x' y :
  is_finite x = true -> is_finite x' = true -> is_finite y = true ->
  valid x = true -> valid x' = true -> valid y = true ->
  nonneg x -> nonneg y -> fleb x x' = true -> fleb (fadd x y) (fadd x' y) = true.
Proof.
  intros Fx Fx' Fy Vx Vx' Vy Nx Ny L. pose proof (nonneg_le _ _ Nx L) as Nx'.
  apply nonneg_shape in Nx as [->|[[s ->]|(m & e & ->)]]; [discriminate| |].
  - assert (U : fleb y (fadd x' y) = true) by (rewrite fadd_comm; now apply fadd_upper).
    destruct y as [[]|[]| |]; try discriminate; destruct s; try exact U.
    all: rewrite fadd_comm in U; apply U || (rewrite fadd_comm; apply U).
  - apply nonneg_shape in Nx' as [->|[[s ->]|(m' & e' & ->)]]; [discriminate|destruct s; discriminate|].
    eapply fadd_mono_pos; eauto.
Qed.

Lemma fadd_mono_r x y y' :
  is_finite x = true -> is_finite y = true -> is_finite y' = true ->
  valid x = true -> valid y = true -> valid y' = true ->
  nonneg x -> nonneg y -> fleb y y' = true -> fleb (fadd x y) (fadd x y') = true.
Proof. intros. rewrite (fadd_comm x y), (fadd_comm x y'). now apply fadd_mono_l. Qed.

(** The largest finite float bounds every finite float. *)
Definition max_float : float64 := S754_finite false 9007199254740991 971.

Lemma finite_le_max x : valid x = true -> is_finite x = true -> fleb x max_float = true.
Proof.
  intros V F. destruct x as [s|s| |[] m e]; try discriminate; [destruct s; reflexivity|reflexivity|].
  apply valid_finite in V as [C B]. pose proof (canonical_bounds _ _ C) as ([_ U] & _ & _). apply fleb_kle.
  repeat split. unfold kle, klt, max_float. cbn. unfold prec, emax in B. change (2 ^ prec) with 9007199254740992 in U.
  destruct (Z.eq_dec e 971) as [->|]; [|left; lia].
  destruct (Z.eq_dec (Zpos m) 9007199254740991) as [[= ->]|]; [now right|left; lia].
Qed.

(** Adding a number too small to matter does not overflow. *)
Lemma fadd_small_finite x y :
  valid x = true -> is_finite x = true -> nonneg x -> valid y = true -> is_finite y = true -> nonneg y ->
  is_finite (max_float + y)%f64 = true -> is_finite (x + y)%f64 = true.
Proof.
  intros Vx Fx Nx Vy Fy Ny Fm. apply (fleb_finite _ (max_float + y)%f64); [now apply fadd_nonneg| |assumption].
  apply fadd_mono_l; auto. now apply finite_le_max.
Qed.

(** The conversion of small integers keeps their order. *)
Lemma f64_of_Z_le j j' : 0 <= j <= j' -> j' < 2 ^ 53 -> fleb (f64_of_Z j) (f64_of_Z j') = true.
Proof.
  intros Hj Hj'. destruct (f64_of_Z_exact j ltac:(lia)) as [Fj Sj]. destruct (f64_of_Z_exact j' ltac:(lia)) as [Fj' Sj'].
  destruct (fleb (f64_of_Z j) (f64_of_Z j')) eqn:E; [reflexivity|]. apply fleb_false_fltb in E; [|now destruct (f64_of_Z j)|now destruct (f64_of_Z j')].
  pose proof (fleb_sval _ _ Fj' Fj (f64_of_Z_valid _) (f64_of_Z_valid _) (fltb_fleb _ _ E)) as X. rewrite Sj, Sj' in X.
  assert (0 < 2 ^ 1074) by (apply Z.pow_pos_nonneg; lia). assert (j' <= j) by nia. assert (j = j') as -> by lia. now rewrite fltb_irrefl in E.
Qed.
