(* ===== verification/GoTime.v ===== *)
(** * Go's [time] package, as the code uses it

    A [time.Time] is an instant: a [Z] of nanoseconds since the Unix epoch (the
    code normalises to UTC before it looks at fields).  A [time.Duration] is a
    [Z] of nanoseconds; [Sub] saturates at the 64-bit range as Go's does.
    [Truncate], the duration accessors, the proleptic Gregorian calendar behind
    [time.Date], [Year]/[Month]/[Day], [Weekday] and [AddDate] follow the
    package.  The theorems relate the calendar's two directions. *)

From Stdlib Require Import ZArith Lia Bool List.
From stdpp Require Import base list.
From S2P Require Import Prelude Float64.

Local Open Scope Z_scope.

Abbreviation Time := Z (only parsing).
Abbreviation Duration := Z (only parsing).

Definition Nanosecond : Duration := 1.
Definition Millisecond : Duration := 1000000.
Definition Second : Duration := 1000000000.
Definition Minute : Duration := 60 * Second.
Definition Hour : Duration := 60 * Minute.
Definition Day : Duration := 24 * Hour.

Definition minInt64 : Z := - 2 ^ 63.
Definition maxInt64 : Z := 2 ^ 63 - 1.

(** 64-bit wrap-around. *)
Definition wrap64 (n : Z) : Z := (n + 2 ^ 63) mod 2 ^ 64 - 2 ^ 63.

(** The zero [time.Time], January 1 of year 1. *)
Definition zeroTime : Time := - 62135596800 * Second.

Definition Add (t : Time) (d : Duration) : Time := t + d.
Definition Sub (t u : Time) : Duration := Z.max minInt64 (Z.min maxInt64 (t - u)).
Definition Before (t u : Time) : bool := t <? u.
Definition After (t u : Time) : bool := u <? t.

(** [t.Truncate(d)]: down to a multiple of [d] since the zero time. *)
Definition Truncate (t : Time) (d : Duration) : Time :=
  if d <=? 0 then t else t - (t - zeroTime) mod d.

(** [d.Seconds()], [d.Minutes()], [d.Hours()]: whole units, then the rest as a
    fraction, both in [float64]. *)
Definition dur_units (unit : Duration) (d : Duration) : float64 :=
  (f64_of_Z (Z.quot d unit) + f64_of_Z (Z.rem d unit) / f64_of_Z unit)%f64.
Definition Seconds : Duration -> float64 := dur_units Second.
Definition Minutes : Duration -> float64 := dur_units Minute.
Definition Hours : Duration -> float64 := dur_units Hour.
Definition Milliseconds (d : Duration) : Z := Z.quot d Millisecond.

(** ** The calendar *)

Definition isLeap (y : Z) : bool :=
  (y mod 4 =? 0) && (negb (y mod 100 =? 0) || (y mod 400 =? 0)).

(** Days before the first of each month of a common year. *)
Definition daysBefore : list Z := [0; 31; 59; 90; 120; 151; 181; 212; 243; 273; 304; 334; 365].

(** Day number (day 0 is January 1 of year 1) of January 1 of [y]. *)
Definition yearStart (y : Z) : Z :=
  let p := y - 1 in 365 * p + p / 4 - p / 100 + p / 400.

Definition unixDay : Z := 719162.

(** Days before month [m] (1..13) of a year. *)
Definition monthStart (leap : bool) (m : Z) : Z :=
  nth (Z.to_nat (m - 1)) daysBefore 0 + (if leap && (3 <=? m) then 1 else 0).

(** [time.Date(y, m, d, 0, 0, 0, 0, time.UTC)] as a day number since the Unix
    epoch; an out-of-range month is carried into the year, an out-of-range day
    into the month, as Go normalises them. *)
Definition dateDays (y m d : Z) : Z :=
  let y' := y + (m - 1) / 12 in
  let m' := (m - 1) mod 12 + 1 in
  yearStart y' + monthStart (isLeap y') m' + (d - 1) - unixDay.

Definition Date (y m d : Z) : Time := dateDays y m d * Day.

(** The year of a day number, by 400-, 100-, 4- and 1-year cycles. *)
Definition yearOfDay (n : Z) : Z :=
  let n400 := n / 146097 in
  let r400 := n mod 146097 in
  let n100 := Z.min 3 (r400 / 36524) in
  let r100 := r400 - 36524 * n100 in
  let n4 := r100 / 1461 in
  let r4 := r100 - 1461 * n4 in
  let n1 := Z.min 3 (r4 / 365) in
  400 * n400 + 100 * n100 + 4 * n4 + n1 + 1.

Fixpoint monthSearch (leap : bool) (yday : Z) (m : Z) (fuel : nat) : Z :=
  match fuel with
  | O => m
  | S k => if yday <? monthStart leap (m + 1) then m else monthSearch leap yday (m + 1) k
  end.

Definition monthOfYday (leap : bool) (yday : Z) : Z := monthSearch leap yday 1 11.

Definition dayNumber (t : Time) : Z := t / Day.

Definition Year (t : Time) : Z := yearOfDay (dayNumber t + unixDay).
Definition yearDay (t : Time) : Z := dayNumber t + unixDay - yearStart (Year t).
Definition Month (t : Time) : Z := monthOfYday (isLeap (Year t)) (yearDay t).
Definition DayOfMonth (t : Time) : Z := yearDay t - monthStart (isLeap (Year t)) (Month t) + 1.

(** Sunday is 0; January 1, 1970 was a Thursday. *)
Definition Weekday (t : Time) : Z := (dayNumber t + 4) mod 7.

(** [t.AddDate(ys, ms, ds)]: the calendar fields move, the clock stays. *)
Definition AddDate (t : Time) (ys ms ds : Z) : Time :=
  Date (Year t + ys) (Month t + ms) (DayOfMonth t + ds) + t mod Day.

(** ** Facts *)

Ltac zdiv := Z.to_euclidean_division_equations; lia.

Lemma Truncate_hour t : Truncate t Hour = t - t mod Hour.
Proof.
  unfold Truncate. change (Hour <=? 0) with false. f_equal.
  replace (t - zeroTime) with (t + 17259888 * Hour) by (unfold zeroTime, Hour, Minute, Second; lia).
  apply Z_mod_plus_full.
Qed.

Lemma Truncate_hour_bounds t : Truncate t Hour <= t < Truncate t Hour + Hour.
Proof.
  rewrite Truncate_hour. pose proof (Z.mod_pos_bound t Hour eq_refl). unfold Hour, Minute, Second in *. lia.
Qed.

Lemma Truncate_hour_idem t : Truncate (Truncate t Hour) Hour = Truncate t Hour.
Proof.
  rewrite !Truncate_hour. rewrite Zminus_mod_idemp_r, Z.sub_diag, Zmod_0_l. lia.
Qed.

Lemma Sub_exact t u : minInt64 <= t - u <= maxInt64 -> Sub t u = t - u.
Proof. unfold Sub; lia. Qed.

Lemma isLeap_spec y :
  isLeap y = true <-> y mod 4 = 0 /\ (y mod 100 <> 0 \/ y mod 400 = 0).
Proof.
  unfold isLeap. rewrite andb_true_iff, orb_true_iff, negb_true_iff, !Z.eqb_eq, Z.eqb_neq. tauto.
Qed.

Lemma yearStart_succ y :
  yearStart (y + 1) = yearStart y + 365 + (if isLeap y then 1 else 0).
Proof.
  unfold yearStart. destruct (isLeap y) eqn:E; [|apply not_true_iff_false in E];
    rewrite isLeap_spec in E; zdiv.
Qed.

Lemma yearOfDay_spec n : yearStart (yearOfDay n) <= n < yearStart (yearOfDay n + 1).
Proof. unfold yearStart, yearOfDay. zdiv. Qed.

Lemma monthSearch_spec (leap : bool) (yday : Z) :
  0 <= yday < 365 + (if leap then 1 else 0) ->
  let m := monthOfYday leap yday in
  1 <= m <= 12 /\ monthStart leap m <= yday < monthStart leap (m + 1).
Proof.
  intros H m. pose (ok l y := let m := monthOfYday l y in
    (1 <=? m) && (m <=? 12) && (monthStart l m <=? y) && (y <? monthStart l (m + 1))).
  assert (K : forall n : nat, (n < 365 + (if leap then 1 else 0))%nat -> ok leap (Z.of_nat n) = true).
  { assert (A : forallb (fun n => ok leap (Z.of_nat n)) (seq 0 (365 + (if leap then 1 else 0))) = true)
      by (destruct leap; vm_compute; reflexivity).
    intros n Hn. rewrite forallb_forall in A. apply A, in_seq. lia. }
  specialize (K (Z.to_nat yday)). rewrite Z2Nat.id in K by lia.
  specialize (K ltac:(destruct leap; lia)). unfold ok in K. fold m in K. bool_simp. lia.
Qed.

Lemma yearDay_bounds t : 0 <= yearDay t < 365 + (if isLeap (Year t) then 1 else 0).
Proof.
  unfold yearDay. pose proof (yearOfDay_spec (dayNumber t + unixDay)) as H.
  fold (Year t) in H. rewrite yearStart_succ in H. lia.
Qed.

Lemma Month_bounds t : 1 <= Month t <= 12.
Proof. apply (monthSearch_spec _ _ (yearDay_bounds t)). Qed.

Lemma dateDays_of_month y m d :
  1 <= m <= 12 -> dateDays y m d = yearStart y + monthStart (isLeap y) m + (d - 1) - unixDay.
Proof.
  intros H. unfold dateDays. rewrite (Z.div_small (m - 1) 12), (Z.mod_small (m - 1) 12) by lia.
  rewrite Z.add_0_r. replace (m - 1 + 1) with m by lia. reflexivity.
Qed.

(** The fields of an instant give back its day. *)
Lemma Date_fields t : Date (Year t) (Month t) (DayOfMonth t) = t - t mod Day.
Proof.
  unfold Date. rewrite dateDays_of_month by apply Month_bounds.
  unfold DayOfMonth, yearDay, dayNumber. pose proof (Z.div_mod t Day ltac:(discriminate)). unfold Day, Hour, Minute, Second in *. lia.
Qed.

Lemma monthStart_1 l : monthStart l 1 = 0.
Proof. destruct l; reflexivity. Qed.

Lemma monthStart_13 l : monthStart l 13 = 365 + (if l then 1 else 0).
Proof. destruct l; reflexivity. Qed.

Lemma nextMonth_days y m :
  1 <= m <= 12 -> dateDays y (m + 1) 1 = yearStart y + monthStart (isLeap y) (m + 1) - unixDay.
Proof.
  intros H. destruct (Z.eq_dec m 12) as [->|].
  - unfold dateDays. change ((12 + 1 - 1) / 12) with 1. change ((12 + 1 - 1) mod 12 + 1) with 1.
    rewrite yearStart_succ, monthStart_1. change (12 + 1) with 13. rewrite monthStart_13. lia.
  - rewrite dateDays_of_month by lia. lia.
Qed.

(** An instant lies in its calendar month. *)
Lemma month_contains t :
  Date (Year t) (Month t) 1 <= t < Date (Year t) (Month t + 1) 1.
Proof.
  unfold Date. rewrite nextMonth_days, dateDays_of_month by apply Month_bounds.
  pose proof (monthSearch_spec _ _ (yearDay_bounds t)) as (_ & H). fold (Month t) in H.
  unfold yearDay in H. pose proof (Z.div_mod t Day ltac:(discriminate)). pose proof (Z.mod_pos_bound t Day eq_refl).
  unfold dayNumber in H. unfold Day, Hour, Minute, Second in *. lia.
Qed.

(** Moving by days only is adding days. *)
Lemma AddDate_days t n : AddDate t 0 0 n = t + n * Day.
Proof.
  unfold AddDate. rewrite !Z.add_0_r.
  assert (Date (Year t) (Month t) (DayOfMonth t + n) = Date (Year t) (Month t) (DayOfMonth t) + n * Day) as ->.
  { unfold Date. rewrite !dateDays_of_month by apply Month_bounds. lia. }
  rewrite Date_fields. lia.
Qed.

Lemma yearStart_mono y y' : y <= y' -> yearStart y <= yearStart y'.
Proof. unfold yearStart. intros H. zdiv. Qed.

Lemma yearOfDay_unique n y : yearStart y <= n < yearStart (y + 1) -> yearOfDay n = y.
Proof.
  intros H. pose proof (yearOfDay_spec n) as S.
  destruct (Z.lt_trichotomy (yearOfDay n) y) as [L|[E|L]]; [|assumption|].
  - pose proof (yearStart_mono (yearOfDay n + 1) y ltac:(lia)). lia.
  - pose proof (yearStart_mono (y + 1) (yearOfDay n) ltac:(lia)). lia.
Qed.

(** The first of a month reads back as its year and month. *)
Lemma Date_first y m : 1 <= m <= 12 ->
  let t := Date y m 1 in Year t = y /\ Month t = m /\ DayOfMonth t = 1 /\ t mod Day = 0.
Proof.
  intros Hm t. assert (En : dayNumber t = yearStart y + monthStart (isLeap y) m - unixDay).
  { unfold dayNumber, t, Date. rewrite Z.div_mul by discriminate. rewrite dateDays_of_month by assumption. lia. }
  assert (B : 0 <= monthStart (isLeap y) m < 365 + (if isLeap y then 1 else 0) /\
              monthOfYday (isLeap y) (monthStart (isLeap y) m) = m).
  { assert (m = 1 \/ m = 2 \/ m = 3 \/ m = 4 \/ m = 5 \/ m = 6 \/ m = 7 \/ m = 8 \/ m = 9 \/ m = 10 \/ m = 11 \/ m = 12)
      as K by lia.
    destruct (isLeap y); decompose [or] K; subst m; vm_compute; intuition discriminate. }
  assert (Ey : Year t = y).
  { unfold Year. apply yearOfDay_unique. rewrite yearStart_succ. lia. }
  assert (Ed : yearDay t = monthStart (isLeap y) m) by (unfold yearDay; rewrite Ey; lia).
  assert (Em : Month t = m) by (unfold Month; rewrite Ey, Ed; tauto).
  repeat split; auto.
  - unfold DayOfMonth. rewrite Ey, Ed, Em. lia.
  - apply Z.mod_mul. discriminate.
Qed.

Lemma AddDate_next_month y m : 1 <= m <= 12 -> AddDate (Date y m 1) 0 1 0 = Date y (m + 1) 1.
Proof.
  intros Hm. destruct (Date_first y m Hm) as (Ey & Em & Ed & E0). unfold AddDate. rewrite Ey, Em, Ed, E0.
  rewrite !Z.add_0_r. reflexivity.
Qed.

(** A calendar month has 28 to 31 days. *)
Lemma month_length y m : 1 <= m <= 12 -> 28 * Day <= Date y (m + 1) 1 - Date y m 1 <= 31 * Day.
Proof.
  intros Hm. unfold Date. rewrite nextMonth_days, dateDays_of_month by assumption.
  assert (28 <= monthStart (isLeap y) (m + 1) - monthStart (isLeap y) m <= 31).
  { assert (m = 1 \/ m = 2 \/ m = 3 \/ m = 4 \/ m = 5 \/ m = 6 \/ m = 7 \/ m = 8 \/ m = 9 \/ m = 10 \/ m = 11 \/ m = 12)
      as K by lia.
    destruct (isLeap y); decompose [or] K; subst m; vm_compute; intuition discriminate. }
  unfold Day, Hour, Minute, Second. lia.
Qed.
