(* ===== verification/GoZone.v ===== *)
(** * Time zones of Go's [time] package

    A [time.Location] is the table of its transitions: the offset before the first
    one and, for each transition, its instant (Unix seconds) and the offset (seconds
    east of UTC) in force from then on.  [lookup] is [Location.lookup]; [In] reads an
    instant as local civil time; [resolve] is the part of [time.Date] that turns a
    civil time back into an instant, with its guess of the offset and the second
    lookup near a transition.  A civil time is a [Z] of nanoseconds, as if in UTC, so
    that the calendar of [GoTime] gives its fields.

    [zone_ok] describes the zones for which every local midnight exists once: offsets
    of less than a day, transitions at least three days apart and none that skips or
    repeats a midnight.  For those, [resolve_midnight] says that [time.Date] finds
    the instant of a midnight, and [midnight_order] that it separates the instants of
    the previous local day from those of the next.  The tables of real zones have
    older transitions that are not like that (local mean time, changes at midnight):
    [since] is the part of a table from an instant on, and [since_reading] and [since_resolve] say that
    readings and dates after that instant depend on that part only. *)

From Stdlib Require Import ZArith Lia Bool List.
From stdpp Require Import base list.
From S2P Require Import Prelude GoTime.

Local Open Scope Z_scope.

Record Location := MkLocation {
  l_first : Z;             (** offset before the first transition *)
  l_tx : list (Z * Z)      (** transition instants and the offsets after them *)
}.

Definition alpha : Z := - 2 ^ 63.
Definition omega : Z := 2 ^ 63 - 1.

Record Zone := MkZone { z_offset : Z; z_start : Z; z_end : Z }.

Fixpoint lookup_from (off start : Z) (tx : list (Z * Z)) (sec : Z) : Zone :=
  match tx with
  | [] => MkZone off start omega
  | (w, o) :: tx => if sec <? w then MkZone off start w else lookup_from o w tx sec
  end.

Definition lookup (l : Location) (sec : Z) : Zone := lookup_from (l_first l) alpha (l_tx l) sec.

Definition UTC : Location := MkLocation 0 [].

(** Whole Unix seconds of an instant. *)
Definition unixSec (t : Time) : Z := t / Second.

Definition offsetAt (l : Location) (sec : Z) : Z := z_offset (lookup l sec).

(** [t.In(loc)]: the civil time read at [t]. *)
Definition In_ (t : Time) (l : Location) : Time := t + offsetAt l (unixSec t) * Second.

(** The tail of [time.Date]: the instant of a civil time. *)
Definition resolve (l : Location) (civil : Time) : Time :=
  let z := lookup l (unixSec civil) in
  if z_offset z =? 0 then civil
  else
    let utc := unixSec civil - z_offset z in
    let off := if (utc <? z_start z) || (z_end z <=? utc) then offsetAt l utc else z_offset z in
    civil - off * Second.

Definition DateIn (y m d : Z) (l : Location) : Time := resolve l (Date y m d).
Definition AddDateIn (t : Time) (l : Location) (ys ms ds : Z) : Time := resolve l (AddDate (In_ t l) ys ms ds).

(** ** Zones whose midnights are regular *)

Definition DaySec : Z := 86400.

(** A transition from offset [o] to [o'] at [w]: the local times read just before
    and just after it lie in the same local day, neither at its midnight. *)
Definition safe_transition (w o o' : Z) : bool :=
  ((w + o) / DaySec =? (w + o') / DaySec) && (0 <? (w + o) mod DaySec) && (0 <? (w + o') mod DaySec).

Definition small_offset (o : Z) : bool := Z.abs o <? DaySec.

Fixpoint tx_ok (off start : Z) (tx : list (Z * Z)) : bool :=
  match tx with
  | [] => true
  | (w, o) :: tx => (start + 3 * DaySec <=? w) && (w <? omega - 3 * DaySec) && small_offset o && safe_transition w off o && tx_ok o w tx
  end.

Definition zone_ok (l : Location) : bool := small_offset (l_first l) && tx_ok (l_first l) alpha (l_tx l).

(** ** Facts *)

(** The zone found at [sec] covers [sec], is the same all over its interval, and
    meets its neighbours at safe transitions. *)
Record zone_spec (l : Location) (sec : Z) (z : Zone) : Prop := {
  zs_small : Z.abs (z_offset z) < DaySec;
  zs_in : z_start z <= sec < z_end z;
  zs_same : forall s, z_start z <= s < z_end z -> lookup l s = z;
  zs_next : z_end z < omega -> exists z', lookup l (z_end z) = z' /\ z_start z' = z_end z /\
    z_end z + 3 * DaySec <= z_end z' /\ Z.abs (z_offset z') < DaySec /\
    (forall s, z_start z' <= s < z_end z' -> lookup l s = z') /\
    safe_transition (z_end z) (z_offset z) (z_offset z') = true;
  zs_prev : alpha < z_start z -> exists z', lookup l (z_start z - 1) = z' /\ z_end z' = z_start z /\
    z_start z' + 3 * DaySec <= z_start z /\ Z.abs (z_offset z') < DaySec /\
    (forall s, z_start z' <= s < z_end z' -> lookup l s = z') /\
    safe_transition (z_start z) (z_offset z') (z_offset z) = true;
}.

Lemma zone_spec_from l off start tx sec :
  tx_ok off start tx = true -> Z.abs off < DaySec -> start <= sec < omega ->
  (forall s, start <= s -> lookup l s = lookup_from off start tx s) ->
  (alpha < start -> exists z', lookup l (start - 1) = z' /\ z_end z' = start /\
    z_start z' + 3 * DaySec <= start /\ Z.abs (z_offset z') < DaySec /\
    (forall s, z_start z' <= s < z_end z' -> lookup l s = z') /\
    safe_transition start (z_offset z') off = true) ->
  zone_spec l sec (lookup_from off start tx sec).
Proof.
  revert off start. induction tx as [|[w o] tx IH]; intros off start T So R Hl Hp; cbn in T |- *.
  - constructor; cbn; auto; [|lia]. intros s Hs. apply Hl. lia.
  - unfold small_offset in T. bool_simp. assert (Same : forall s, start <= s < w -> lookup l s = MkZone off start w).
    { intros s Hs. rewrite Hl by lia. cbn. destruct (Z.ltb_spec s w); [reflexivity|lia]. }
    assert (Hl' : forall s, w <= s -> lookup l s = lookup_from o w tx s).
    { intros s Hs. unfold DaySec in *. rewrite Hl by lia. cbn. destruct (Z.ltb_spec s w); [lia|reflexivity]. }
    destruct (Z.ltb_spec sec w).
    + constructor; cbn; auto; try lia. intros _. exists (lookup_from o w tx w). split; [apply Hl'; lia|].
      destruct tx as [|[w' o'] tx]; cbn in *.
      { repeat split; auto; [lia|]. intros s Hs. apply Hl'. lia. }
      bool_simp. destruct (Z.ltb_spec w w'); [|unfold DaySec in *; lia]. cbn. repeat split; auto.
      intros s Hs. rewrite Hl' by lia. destruct (Z.ltb_spec s w'); [reflexivity|lia].
    + apply IH; auto; [lia|]. intros _. exists (MkZone off start w). unfold DaySec in *. cbn.
      repeat split; auto. apply Same. lia.
Qed.

Lemma lookup_zone_spec l sec : zone_ok l = true -> alpha <= sec < omega -> zone_spec l sec (lookup l sec).
Proof.
  unfold zone_ok, small_offset. intros O R. bool_simp. apply zone_spec_from; auto. lia.
Qed.

(** Seconds far enough from the ends of the representable range. *)
Definition sec_ok (s : Z) : Prop := Z.abs s <= 2 ^ 62.

Lemma sec_ok_range s : sec_ok s -> alpha + 10 * DaySec <= s < omega - 10 * DaySec.
Proof. unfold sec_ok, alpha, omega, DaySec. lia. Qed.

Lemma safe_multiple w o o' k : safe_transition w o o' = true ->
  (k * DaySec <= w + o <-> k * DaySec <= w + o') /\ k * DaySec <> w + o /\ k * DaySec <> w + o'.
Proof. unfold safe_transition, DaySec. intros S. bool_simp. repeat split; intros; zdiv. Qed.

(** [time.Date] finds the instant of a local midnight. *)
Lemma resolve_sec l k : zone_ok l = true -> sec_ok (k * DaySec) ->
  let z := lookup l (k * DaySec) in
  let utc := k * DaySec - z_offset z in
  let off := if (utc <? z_start z) || (z_end z <=? utc) then offsetAt l utc else z_offset z in
  offsetAt l (k * DaySec - off) = off.
Proof.
  intros O R. pose proof (sec_ok_range _ R) as R'.
  destruct (lookup_zone_spec l (k * DaySec) O ltac:(unfold DaySec in *; lia)) as [Sm Hin Same Next Prev].
  set (N := k * DaySec) in *. intros z utc. fold z in Sm, Hin, Same, Next, Prev.
  destruct (Z.ltb_spec utc (z_start z)) as [L|L]; cbn [orb].
  - destruct (Prev ltac:(unfold alpha, DaySec in *; lia)) as (z' & El & Ee & G & Sm' & Same' & Sf).
    destruct (safe_multiple _ _ _ k Sf) as (Sk & S1 & S2). unfold offsetAt.
    rewrite (Same' utc) by (unfold DaySec in *; lia). rewrite (Same' (N - z_offset z')); [reflexivity|]. unfold N, DaySec in *. lia.
  - destruct (Z.leb_spec (z_end z) utc) as [L'|L']; [|unfold offsetAt; now rewrite Same by lia].
    destruct (Next ltac:(unfold omega, DaySec in *; lia)) as (z' & El & Ee & G & Sm' & Same' & Sf).
    destruct (safe_multiple _ _ _ k Sf) as (Sk & S1 & S2). unfold offsetAt.
    rewrite (Same' utc) by (unfold DaySec in *; lia). rewrite (Same' (N - z_offset z')); [reflexivity|]. unfold N, DaySec in *. lia.
Qed.

(** Local days do not run backwards. *)
Lemma local_day_step l s : zone_ok l = true -> alpha <= s < omega - 1 ->
  (s + offsetAt l s) / DaySec <= (s + 1 + offsetAt l (s + 1)) / DaySec /\
  ((s + 1 + offsetAt l (s + 1)) mod DaySec = 0 -> (s + offsetAt l s) / DaySec < (s + 1 + offsetAt l (s + 1)) / DaySec).
Proof.
  intros O R. destruct (lookup_zone_spec l s O ltac:(lia)) as [Sm Hin Same Next _].
  unfold offsetAt. set (z := lookup l s) in *. destruct (Z.eq_dec (z_end z) (s + 1)) as [E|E].
  - destruct (Next ltac:(lia)) as (z' & El & Ee & G & Sm' & Same' & Sf). rewrite <- E, El.
    unfold safe_transition, DaySec in *. bool_simp. split; intros; zdiv.
  - rewrite (Same (s + 1)) by lia. unfold DaySec. split; intros; zdiv.
Qed.

Lemma local_day_mono l s s' : zone_ok l = true -> alpha <= s -> s <= s' < omega ->
  (s + offsetAt l s) / DaySec <= (s' + offsetAt l s') / DaySec.
Proof.
  intros O R R'. replace s' with (s + Z.of_nat (Z.to_nat (s' - s))) by lia.
  assert (Hn : s + Z.of_nat (Z.to_nat (s' - s)) < omega) by lia. revert Hn.
  induction (Z.to_nat (s' - s)) as [|n IH]; intros Hn; [now rewrite Z.add_0_r|].
  etransitivity; [apply IH; lia|]. replace (s + Z.of_nat (S n)) with (s + Z.of_nat n + 1) by lia.
  apply local_day_step; [assumption|lia].
Qed.

(** An instant that reads as a local midnight separates the local days. *)
Lemma midnight_order_sec l m k s : zone_ok l = true -> alpha < m < omega -> alpha <= s < omega ->
  m + offsetAt l m = k * DaySec -> (m <= s <-> k * DaySec <= s + offsetAt l s).
Proof.
  intros O Rm Rs E. split; intros H.
  - pose proof (local_day_mono l m s O ltac:(lia) ltac:(lia)) as D. rewrite E, Z.div_mul in D by discriminate.
    unfold DaySec in *. zdiv.
  - destruct (Z.le_gt_cases m s) as [|L]; [assumption|exfalso].
    pose proof (local_day_mono l s (m - 1) O ltac:(lia) ltac:(lia)) as D.
    destruct (local_day_step l (m - 1) O ltac:(lia)) as [_ St]. rewrite Z.sub_add, E, Z.mod_mul, Z.div_mul in St by discriminate.
    specialize (St eq_refl). unfold DaySec in *. zdiv.
Qed.

(** Instants (and civil times) within the representable range. *)
Definition time_ok (t : Time) : Prop := Z.abs t <= 2 ^ 61 * Second.

Lemma unixSec_day k : unixSec (k * Day) = k * DaySec.
Proof.
  unfold unixSec. replace (k * Day) with (k * DaySec * Second) by (unfold Day, Hour, Minute, DaySec; lia).
  apply Z.div_mul. discriminate.
Qed.

Lemma resolve_midnight l k : zone_ok l = true -> time_ok (k * Day) ->
  In_ (resolve l (k * Day)) l = k * Day /\ Z.abs (resolve l (k * Day) - k * Day) < Day.
Proof.
  intros O R. assert (R' : sec_ok (k * DaySec)).
  { unfold time_ok, sec_ok, Day, Hour, Minute, Second, DaySec in *. lia. }
  pose proof (resolve_sec l k O R') as S. cbv zeta in S. pose proof (sec_ok_range _ R') as R2.
  unfold resolve. rewrite unixSec_day.
  set (off := if (_ <? _) || _ then _ else _) in *.
  assert (Ho : Z.abs off < DaySec).
  { rewrite <- S. pose proof (lookup_zone_spec l (k * DaySec) O ltac:(unfold DaySec in *; lia)) as Z1.
    pose proof (zs_small _ _ _ Z1) as Sm1.
    assert (Hr : alpha <= k * DaySec - z_offset (lookup l (k * DaySec)) < omega) by (unfold DaySec in *; lia).
    pose proof (zs_small _ _ _ (lookup_zone_spec l _ O Hr)) as Sm2.
    rewrite S. unfold off, offsetAt. destruct (_ || _); assumption. }
  assert (E : forall o, offsetAt l (k * DaySec - o) = o -> Z.abs o < DaySec ->
    In_ (k * Day - o * Second) l = k * Day /\ Z.abs (k * Day - o * Second - k * Day) < Day).
  { intros o Eo Sm. unfold In_. assert (unixSec (k * Day - o * Second) = k * DaySec - o) as ->.
    { unfold unixSec. replace (k * Day - o * Second) with ((k * DaySec - o) * Second)
        by (unfold Day, Hour, Minute, DaySec; lia). apply Z.div_mul. discriminate. }
    rewrite Eo. unfold Day, Hour, Minute, Second, DaySec in *. lia. }
  destruct (Z.eqb_spec (z_offset (lookup l (k * DaySec))) 0) as [Z0|]; [|now apply E].
  replace (k * Day) with (k * Day - 0 * Second) at 1 3 by lia. apply E; [|unfold DaySec; lia].
  unfold offsetAt. now rewrite Z.sub_0_r.
Qed.

Lemma midnight_order l m k t : zone_ok l = true -> In_ m l = k * Day ->
  Z.abs m <= 2 ^ 62 * Second -> time_ok t -> (m <= t <-> k * Day <= In_ t l).
Proof.
  intros O E Rm Rt. pose proof (Z.div_mod m Second ltac:(discriminate)) as Dm. pose proof (Z.div_mod t Second ltac:(discriminate)) as Dt.
  pose proof (Z.mod_pos_bound m Second eq_refl). pose proof (Z.mod_pos_bound t Second eq_refl).
  unfold In_ in *. fold (unixSec m) in Dm. fold (unixSec t) in Dt.
  set (sm := unixSec m) in *. set (st := unixSec t) in *.
  assert (Em : m mod Second = 0 /\ sm + offsetAt l sm = k * DaySec).
  { unfold Day, Hour, Minute, DaySec in *. set (x := m mod Second) in *. set (o := offsetAt l sm) in *. unfold Second in *. lia. }
  destruct Em as [E0 Em]. pose proof (midnight_order_sec l sm k st O) as Or.
  unfold time_ok, alpha, omega, Day, Hour, Minute, Second, DaySec in *. lia.
Qed.

(** ** The part of a table from an instant on *)

Fixpoint since_from (s0 off : Z) (tx : list (Z * Z)) : Location :=
  match tx with
  | [] => MkLocation off []
  | (w, o) :: rest => if s0 <? w then MkLocation off tx else since_from s0 o rest
  end.

Definition since (s0 : Z) (l : Location) : Location := since_from s0 (l_first l) (l_tx l).

(** From [s0] on, the zones found differ at most in a start that is not after [s0]. *)
Lemma since_from_lookup s0 off start tx sec : start <= s0 -> alpha <= s0 -> s0 <= sec ->
  let z := lookup_from off start tx sec in
  let z' := lookup (since_from s0 off tx) sec in
  z_offset z = z_offset z' /\ z_end z = z_end z' /\
  (z_start z = z_start z' \/ z_start z <= s0 /\ z_start z' <= s0).
Proof.
  revert off start. induction tx as [|[w o] tx IH]; intros off start Hs Ha Hsec; cbn.
  - unfold lookup. cbn. auto.
  - destruct (Z.ltb_spec s0 w) as [L|L].
    + unfold lookup. cbn. destruct (Z.ltb_spec sec w); cbn; auto.
    + destruct (Z.ltb_spec sec w); [lia|]. apply IH; lia.
Qed.

Lemma since_lookup s0 l sec : alpha <= s0 -> s0 <= sec ->
  offsetAt l sec = offsetAt (since s0 l) sec /\ z_end (lookup l sec) = z_end (lookup (since s0 l) sec) /\
  (z_start (lookup l sec) = z_start (lookup (since s0 l) sec) \/
   z_start (lookup l sec) <= s0 /\ z_start (lookup (since s0 l) sec) <= s0).
Proof. intros Ha Hs. exact (since_from_lookup s0 (l_first l) alpha (l_tx l) sec Ha Ha Hs). Qed.

Lemma unixSec_le s t : s * Second <= t <-> s <= unixSec t.
Proof. unfold unixSec. pose proof (Z.div_mod t Second ltac:(discriminate)). pose proof (Z.mod_pos_bound t Second eq_refl). unfold Second in *. lia. Qed.

(** Readings from [s0] on, and dates from a day after it on. *)
Lemma since_reading s0 l t : alpha <= s0 -> s0 * Second <= t -> In_ t l = In_ t (since s0 l).
Proof. intros Ha Ht%unixSec_le. unfold In_. now rewrite (proj1 (since_lookup s0 l _ Ha Ht)). Qed.

Lemma since_resolve s0 l civil : alpha <= s0 -> s0 * Second + Day <= civil ->
  Z.abs (offsetAt (since s0 l) (unixSec civil)) < DaySec -> resolve l civil = resolve (since s0 l) civil.
Proof.
  intros Ha Hc Hz. assert (Hs : s0 + DaySec <= unixSec civil).
  { apply unixSec_le. unfold Day, Hour, Minute, DaySec in *. lia. }
  assert (Hd : 0 < DaySec) by reflexivity. destruct (since_lookup s0 l (unixSec civil) Ha ltac:(lia)) as (Eo & Ee & Es).
  unfold resolve. unfold offsetAt in Eo, Hz. rewrite Eo, Ee. set (o := z_offset (lookup (since s0 l) (unixSec civil))) in *.
  destruct (since_lookup s0 l (unixSec civil - o) Ha ltac:(lia)) as (Eu & _ & _). rewrite Eu.
  replace (unixSec civil - o <? z_start (lookup l (unixSec civil)))
    with (unixSec civil - o <? z_start (lookup (since s0 l) (unixSec civil))); [reflexivity|].
  destruct Es as [->|[E1 E2]]; [reflexivity|].
  destruct (Z.ltb_spec (unixSec civil - o) (z_start (lookup (since s0 l) (unixSec civil)))),
    (Z.ltb_spec (unixSec civil - o) (z_start (lookup l (unixSec civil)))); lia || reflexivity.
Qed.
