(* ===== verification/Grouping.v ===== *)
(** * Grouping in order of first appearance

    The loop the read side uses again and again: a Go map from a key to a growing
    accumulator, with a slice of the keys in the order they were first met (a map has
    no order of its own).  [group_all] is that loop; [group_all_lookup] and
    [group_all_order] say that the accumulator of a key is the fold over the elements
    with that key and that the slice lists each key once. *)

From Stdlib Require Import ZArith Lia Bool.
From stdpp Require Import base list gmap.
From S2P Require Import Prelude.

Record Grouped (K V : Type) `{Countable K} := MkGrouped { g_by : gmap K V; g_order : list K }.
Arguments MkGrouped {K V _ _} g_by g_order.
Arguments g_by {K V _ _} g.
Arguments g_order {K V _ _} g.

Section Grouping.
Context {A K V : Type} `{Countable K} (key : A -> K) (init : A -> V) (step : V -> A -> V).

Definition group_add (g : Grouped K V) (a : A) : Grouped K V :=
  match g_by g !! key a with
  | Some v => MkGrouped (<[key a := step v a]> (g_by g)) (g_order g)
  | None => MkGrouped (<[key a := step (init a) a]> (g_by g)) (g_order g ++ [key a])
  end.

Definition group_all (l : list A) : Grouped K V := foldl group_add (MkGrouped ∅ []) l.

(** The elements with key [k]. *)
Definition with_key (k : K) (l : list A) : list A := List.filter (fun a => bool_decide (key a = k)) l.

Definition group_value (l : list A) : option V :=
  match l with [] => None | a :: _ => Some (foldl step (init a) l) end.

Lemma with_key_elem k l a : a ∈ with_key k l <-> a ∈ l /\ key a = k.
Proof. unfold with_key. now rewrite !list_elem_of_In, filter_In, bool_decide_eq_true. Qed.

Lemma with_key_snoc k l a : with_key k (l ++ [a]) = with_key k l ++ (if decide (key a = k) then [a] else []).
Proof.
  unfold with_key. rewrite List.filter_app. cbn. f_equal. destruct (decide (key a = k)).
  - now rewrite bool_decide_true.
  - now rewrite bool_decide_false.
Qed.

Lemma group_value_snoc l a : group_value (l ++ [a]) = Some (step (default (init a) (group_value l)) a).
Proof. destruct l as [|b l]; [reflexivity|]. cbn. now rewrite foldl_app. Qed.

Lemma group_all_snoc l a : group_all (l ++ [a]) = group_add (group_all l) a.
Proof. unfold group_all. now rewrite foldl_app. Qed.

(** The accumulator of a key folds the elements with that key, in order. *)
Lemma group_all_lookup l k : g_by (group_all l) !! k = group_value (with_key k l).
Proof.
  induction l as [|a l IH] using rev_ind; [reflexivity|]. rewrite group_all_snoc, with_key_snoc.
  destruct (decide (key a = k)) as [<-|N].
  - rewrite group_value_snoc, <- IH. unfold group_add.
    destruct (g_by (group_all l) !! key a) eqn:E; cbn; now rewrite lookup_insert_eq.
  - rewrite app_nil_r, <- IH. unfold group_add.
    destruct (g_by (group_all l) !! key a); cbn; now rewrite lookup_insert_ne.
Qed.

Lemma group_all_some l k : is_Some (g_by (group_all l) !! k) <-> k ∈ key <$> l.
Proof.
  rewrite group_all_lookup, list_elem_of_fmap. split.
  - intros [v E]. destruct (with_key k l) as [|a r] eqn:W; [discriminate|].
    assert (a ∈ with_key k l) as [? ?]%with_key_elem by (rewrite W; now left). eauto.
  - intros (a & -> & Ha). destruct (with_key (key a) l) as [|b r] eqn:W; [|cbn; eauto].
    assert (a ∈ with_key (key a) l) as C by now apply with_key_elem. rewrite W in C. now apply not_elem_of_nil in C.
Qed.

(** The slice lists the keys, each once. *)
Lemma group_all_order l : NoDup (g_order (group_all l)) /\ forall k, k ∈ g_order (group_all l) <-> k ∈ key <$> l.
Proof.
  induction l as [|a l [N M]] using rev_ind; [split; [constructor|intros k; reflexivity]|].
  rewrite group_all_snoc, fmap_app. cbn. unfold group_add.
  destruct (g_by (group_all l) !! key a) as [v|] eqn:E; cbn.
  - split; [assumption|]. intros k. rewrite M, elem_of_app, list_elem_of_singleton.
    assert (key a ∈ key <$> l) by (apply group_all_some; eauto). split; [auto|intros [?| ->]; auto].
  - assert (key a ∉ key <$> l) as F. { rewrite <- group_all_some, E. intros [? ?]; discriminate. }
    split; [|intros k; rewrite !elem_of_app, M, !list_elem_of_singleton; tauto].
    apply NoDup_app. split; [assumption|]. split; [|apply NoDup_singleton].
    intros k Hk ->%list_elem_of_singleton. now apply F, M.
Qed.

(** The groups in order: what the code returns. *)
Definition group_list (l : list A) : list (K * V) :=
  omap (fun k => (fun v => (k, v)) <$> g_by (group_all l) !! k) (g_order (group_all l)).

Lemma group_list_elem l k v : (k, v) ∈ group_list l <-> group_value (with_key k l) = Some v.
Proof.
  unfold group_list. rewrite list_elem_of_omap. rewrite <- group_all_lookup. split.
  - intros (k' & Hk & E). destruct (g_by _ !! k') eqn:L; [|discriminate]. cbn in E. injection E as -> ->. assumption.
  - intros E. exists k. rewrite E. split; [|reflexivity]. apply group_all_order, group_all_some. eauto.
Qed.

Lemma group_list_keys l : (group_list l).*1 = g_order (group_all l).
Proof.
  unfold group_list. assert (S : forall k, k ∈ g_order (group_all l) -> is_Some (g_by (group_all l) !! k)).
  { intros k Hk. now apply group_all_some, group_all_order. }
  induction (g_order (group_all l)) as [|k ks IH]; [reflexivity|]. cbn.
  destruct (S k) as [v E]; [now left|]. rewrite E. cbn. f_equal. apply IH. intros k' Hk'. apply S. now right.
Qed.
End Grouping.
