(* ===== verification/Uuid.v ===== *)
(** * UUIDs

    [github.com/google/uuid] values are 16 bytes; the code generates them
    ([ids.New]), compares them for equality, uses them as map keys, and orders
    them by their canonical 36-character text ([ID.String()]).  A [uuid] is the
    big-endian number of its bytes; [String] prints it.  The text order is the
    numeric order ([String_compare]), so it is total. *)

From Stdlib Require Import NArith Lia Bool Ascii String.
From stdpp Require Import base numbers strings.
From S2P Require Import Prelude.

Local Open Scope N_scope.

Abbreviation uuid := N (only parsing).

(** [uuid.Nil] *)
Definition uuid_Nil : uuid := 0.

Definition uuid_wf (u : uuid) : Prop := u < 2 ^ 128.

Module Uuid.

Definition hexDigit (d : N) : ascii :=
  ascii_of_N (if d <? 10 then 48 + d else 87 + d).

(** Digits [n-1 .. 0] of [u] in base 16, with the dashes of the 8-4-4-4-12
    layout. *)
Fixpoint hexDigits (n : nat) (u : N) : string :=
  match n with
  | O => EmptyString
  | S k =>
      let rest := hexDigits k u in
      let rest := if bool_decide (k ∈ [24; 20; 16; 12]%nat) then String "-" rest else rest in
      String (hexDigit ((u / 16 ^ N.of_nat k) mod 16)) rest
  end.

(** [u.String()] *)
Definition to_string (u : uuid) : string := hexDigits 32 u.

(** Go's [<] on strings: bytewise lexicographic. *)
Definition str_ltb (a b : string) : bool :=
  match String.compare a b with Lt => true | _ => false end.

Lemma hexDigit_compare a b :
  a < 16 -> b < 16 -> Ascii.compare (hexDigit a) (hexDigit b) = N.compare a b.
Proof.
  intros Ha Hb. unfold Ascii.compare, hexDigit.
  rewrite !N_ascii_embedding by (destruct (_ <? _); lia).
  destruct (N.ltb_spec a 10), (N.ltb_spec b 10).
  - destruct (N.compare_spec a b), (N.compare_spec (48 + a) (48 + b)); lia || reflexivity.
  - destruct (N.compare_spec a b), (N.compare_spec (48 + a) (87 + b)); lia || reflexivity.
  - destruct (N.compare_spec a b), (N.compare_spec (87 + a) (48 + b)); lia || reflexivity.
  - destruct (N.compare_spec a b), (N.compare_spec (87 + a) (87 + b)); lia || reflexivity.
Qed.

Lemma radix_lt (P x y a b : N) : x < P -> a < b -> x + P * a < y + P * b.
Proof. intros Hx Hab. pose proof (N.mul_le_mono_l (a + 1) b P ltac:(lia)). lia. Qed.

Lemma hexDigits_compare n u v :
  String.compare (hexDigits n u) (hexDigits n v) =
  N.compare (u mod 16 ^ N.of_nat n) (v mod 16 ^ N.of_nat n).
Proof.
  induction n as [|k IH]; [cbn; now rewrite !N.mod_1_r|].
  rewrite Nat2N.inj_succ, N.pow_succ_r', (N.mul_comm 16).
  assert (16 ^ N.of_nat k <> 0) by (apply N.pow_nonzero; lia).
  rewrite !N.Div0.mod_mul_r.
  cbn [hexDigits]. set (P := 16 ^ N.of_nat k) in *. set (a := (u / P) mod 16). set (b := (v / P) mod 16).
  assert (a < 16 /\ b < 16) as [Ha Hb] by (split; apply N.mod_lt; lia).
  pose proof (N.mod_lt u P H). pose proof (N.mod_lt v P H).
  cbn [String.compare]. rewrite (hexDigit_compare a b Ha Hb).
  destruct (N.compare_spec a b) as [->|Hlt|Hgt].
  - transitivity (String.compare (hexDigits k u) (hexDigits k v)).
    { case_bool_decide; reflexivity. }
    rewrite IH. generalize (u mod P) (v mod P) (P * b). intros x y z.
    destruct (N.compare_spec x y); symmetry;
      [apply N.compare_eq_iff|apply N.compare_lt_iff|apply N.compare_gt_iff]; lia.
  - symmetry; apply N.compare_lt_iff. now apply radix_lt.
  - symmetry; apply N.compare_gt_iff. now apply radix_lt.
Qed.

Lemma to_string_compare u v :
  uuid_wf u -> uuid_wf v -> String.compare (to_string u) (to_string v) = N.compare u v.
Proof.
  unfold uuid_wf, to_string. intros Hu Hv. rewrite hexDigits_compare.
  change (16 ^ N.of_nat 32) with (2 ^ 128). now rewrite !N.mod_small by lia.
Qed.

Lemma str_ltb_uuid u v :
  uuid_wf u -> uuid_wf v -> str_ltb (to_string u) (to_string v) = (u <? v).
Proof.
  intros Hu Hv. unfold str_ltb. rewrite to_string_compare by assumption.
  unfold N.ltb. destruct (N.compare u v); reflexivity.
Qed.

(** The canonical text, read back: hexadecimal digits, dashes skipped. *)
Definition hexValue (a : ascii) : option N :=
  let c := N_of_ascii a in
  if (48 <=? c) && (c <=? 57) then Some (c - 48)
  else if (97 <=? c) && (c <=? 102) then Some (c - 87) else None.

Fixpoint parse_from (acc : N) (s : string) : option N :=
  match s with
  | EmptyString => Some acc
  | String a s => if Ascii.eqb a "-" then parse_from acc s
                  else match hexValue a with Some d => parse_from (acc * 16 + d) s | None => None end
  end.

Lemma hexDigit_value d : d < 16 -> hexValue (hexDigit d) = Some d /\ Ascii.eqb (hexDigit d) "-" = false.
Proof.
  intros Hd. unfold hexValue, hexDigit.
  assert (N_of_ascii (ascii_of_N (if d <? 10 then 48 + d else 87 + d)) = if d <? 10 then 48 + d else 87 + d) as E
    by (apply N_ascii_embedding; destruct (d <? 10); lia).
  split.
  - rewrite E. destruct (N.ltb_spec d 10) as [L|L].
    + rewrite (proj2 (N.leb_le 48 _)), (proj2 (N.leb_le _ 57)) by lia. cbn. f_equal. lia.
    + rewrite (proj2 (N.leb_gt _ 57)), andb_false_r by lia.
      rewrite (proj2 (N.leb_le 97 _)), (proj2 (N.leb_le _ 102)) by lia. cbn. f_equal. lia.
  - apply not_true_iff_false. intros X%Ascii.eqb_eq. rewrite X in E. cbn in E. destruct (d <? 10); lia.
Qed.

Lemma parse_hexDigits n u acc : parse_from acc (hexDigits n u) = Some (acc * 16 ^ N.of_nat n + u mod 16 ^ N.of_nat n).
Proof.
  revert acc. induction n as [|k IH]; intros acc; [cbn; f_equal; rewrite N.mod_1_r; lia|].
  rewrite Nat2N.inj_succ, N.pow_succ_r', (N.mul_comm 16). assert (16 ^ N.of_nat k <> 0) by (apply N.pow_nonzero; lia).
  rewrite N.Div0.mod_mul_r. cbn [hexDigits]. set (P := 16 ^ N.of_nat k) in *. set (a := (u / P) mod 16).
  destruct (hexDigit_value a) as [E1 E2]; [apply N.mod_lt; lia|]. cbn [parse_from]. rewrite E1, E2.
  transitivity (parse_from (acc * 16 + a) (hexDigits k u)); [now case_bool_decide|]. rewrite IH. f_equal. lia.
Qed.

Lemma parse_to_string u : uuid_wf u -> parse_from 0 (to_string u) = Some u.
Proof.
  unfold uuid_wf, to_string. intros Hu. rewrite parse_hexDigits. change (16 ^ N.of_nat 32) with (2 ^ 128).
  now rewrite N.mod_small by lia.
Qed.

Example to_string_example :
  to_string 0x00112233445566778899aabbccddeeff = "00112233-4455-6677-8899-aabbccddeeff"%string.
Proof. vm_compute. reflexivity. Qed.

End Uuid.
