(* ===== verification/GoStrings.v ===== *)
(** * Go's [strings] package, as the code uses it

    A Go string is its bytes, a [String.string].  [TrimSpace] works on the UTF-8
    runes of Unicode's White_Space property; the code only asks whether the trimmed
    string is empty ([blank]).  [quoted_ascii] is the verb [%q] on ASCII text. *)

From Stdlib Require Import ZArith NArith Lia Bool Ascii String.
From stdpp Require Import base list strings.
From S2P Require Import Prelude.

Local Open Scope string_scope.
Local Open Scope N_scope.

(** The UTF-8 encoding of a code point below U+10000. *)
Definition rune (c : N) : string :=
  if c <? 128 then String (ascii_of_N c) ""
  else if c <? 2048 then String (ascii_of_N (192 + c / 64)) (String (ascii_of_N (128 + c mod 64)) "")
  else String (ascii_of_N (224 + c / 4096))
         (String (ascii_of_N (128 + (c / 64) mod 64)) (String (ascii_of_N (128 + c mod 64)) "")).

(** [unicode.IsSpace] *)
Definition spaces : list string :=
  rune <$> [9; 10; 11; 12; 13; 32; 133; 160; 5760; 8192; 8193; 8194; 8195; 8196; 8197; 8198; 8199; 8200; 8201; 8202;
            8232; 8233; 8239; 8287; 12288].

Fixpoint strip_prefix (p s : string) : option string :=
  match p, s with
  | "", _ => Some s
  | String a p, String b s => if Ascii.eqb a b then strip_prefix p s else None
  | String _ _, "" => None
  end.

(** [strings.HasPrefix] *)
Definition HasPrefix (s p : string) : bool := match strip_prefix p s with Some _ => true | None => false end.

Definition skip_space (s : string) : option string :=
  foldr (fun p k => match strip_prefix p s with Some r => Some r | None => k end) None spaces.

Fixpoint blank_fuel (fuel : nat) (s : string) : bool :=
  match s with
  | "" => true
  | _ => match fuel with
         | O => false
         | S n => match skip_space s with Some r => blank_fuel n r | None => false end
         end
  end.

(** [strings.TrimSpace(s) == ""]: each rune takes at least one byte. *)
Definition blank (s : string) : bool := blank_fuel (String.length s) s.

Definition is_upper (a : ascii) : bool := let n := N_of_ascii a in (65 <=? n) && (n <=? 90).

(** Every rune of [s] lies between [A] and [Z]: a longer rune has bytes above 127. *)
Fixpoint isAlpha (s : string) : bool :=
  match s with "" => true | String a s => is_upper a && isAlpha s end.

Example blank_examples :
  blank "" = true /\ blank " " = true /\ blank (rune 12288 ++ " " ++ rune 160) = true /\
  blank " x" = false /\ blank (rune 233) = false.
Proof. vm_compute. repeat split. Qed.

Lemma skip_space_shorter s r : skip_space s = Some r -> (String.length r < String.length s)%nat.
Proof.
  assert (G : forall p t r, strip_prefix p t = Some r -> String.length t = (String.length p + String.length r)%nat).
  { induction p as [|a p IH]; intros t r'; cbn; [now intros [= ->]|]. destruct t as [|b t]; [discriminate|].
    destruct (Ascii.eqb a b); [|discriminate]. intros E%IH. cbn. now rewrite E. }
  unfold skip_space. assert (L : Forall (fun p => (0 < String.length p)%nat) spaces)
    by (unfold spaces; vm_compute; repeat constructor).
  induction L as [|p ps Hp _ IH]; cbn; [discriminate|]. destruct (strip_prefix p s) as [t|] eqn:E; [|exact IH].
  intros [= ->]. apply G in E. lia.
Qed.

(** The fuel is enough: [blank] reads the whole string. *)
Lemma blank_unfold s : blank s = match s with "" => true | _ => match skip_space s with Some r => blank r | None => false end end.
Proof.
  assert (G : forall n m t, (String.length t <= n)%nat -> (String.length t <= m)%nat -> blank_fuel n t = blank_fuel m t).
  { induction n as [|n IH]; intros m t Hn Hm.
    - destruct t; [now destruct m|cbn in Hn; lia].
    - destruct t as [|a t]; [now destruct m|]. destruct m as [|m]; [cbn in Hm; lia|]. cbn [blank_fuel].
      destruct (skip_space (String a t)) as [r|] eqn:E; [|reflexivity]. apply skip_space_shorter in E. apply IH; lia. }
  unfold blank. destruct s as [|a s]; [reflexivity|]. change (String.length (String a s)) with (S (String.length s)).
  cbn [blank_fuel]. destruct (skip_space (String a s)) as [r|] eqn:E; [|reflexivity].
  apply skip_space_shorter in E. cbn in E. apply G; lia.
Qed.

(** ** [strconv] and [net/url] *)

Definition is_digit (a : ascii) : bool := let n := N_of_ascii a in (48 <=? n) && (n <=? 57).

(** The value of a non-empty run of decimal digits. *)
Fixpoint digits_value (acc : N) (s : string) : option N :=
  match s with
  | "" => Some acc
  | String a s => if is_digit a then digits_value (10 * acc + (N_of_ascii a - 48)) s else None
  end.

Definition unsigned (s : string) : option Z := match s with "" => None | _ => Z.of_N <$> digits_value 0 s end.

(** [strconv.Atoi] and [strconv.ParseInt(s, 10, 64)]: an optional sign, decimal
    digits, and an error outside the 64-bit range. *)
Definition Atoi (s : string) : option Z :=
  let v := match s with
           | String a r => if Ascii.eqb a "-" then Z.opp <$> unsigned r else if Ascii.eqb a "+" then unsigned r else unsigned s
           | "" => None
           end in
  match v with
  | Some n => if ((- 2 ^ 63 <=? n) && (n <=? 2 ^ 63 - 1))%Z then Some n else None
  | None => None
  end.

(** [%q] of a string of ASCII characters: quotation marks, with Go's escapes. *)
Definition quoted_char (a : ascii) : string :=
  let n := N_of_ascii a in
  let esc (c : ascii) := String "092" (String c "") in
  let hex d := if d <? 10 then ascii_of_N (48 + d) else ascii_of_N (87 + d) in
  if n =? 34 then esc "034"%char else if n =? 92 then esc "092"%char
  else if n =? 7 then esc "a"%char else if n =? 8 then esc "b"%char else if n =? 12 then esc "f"%char else if n =? 10 then esc "n"%char
  else if n =? 13 then esc "r"%char else if n =? 9 then esc "t"%char else if n =? 11 then esc "v"%char
  else if (n <? 32) || (n =? 127) then String "092" (String "x" (String (hex (n / 16)) (String (hex (n mod 16)) "")))
  else String a "".

Fixpoint quoted_chars (s : string) : string := match s with "" => "" | String a s => quoted_char a +:+ quoted_chars s end.
Definition quoted_ascii (s : string) : string := String "034" (quoted_chars s +:+ String "034" "").

Definition is_alnum (a : ascii) : bool :=
  let n := N_of_ascii a in is_digit a || is_upper a || ((97 <=? n) && (n <=? 122)).

Definition hex_digit (n : N) : ascii := if n <? 10 then ascii_of_N (48 + n) else ascii_of_N (55 + n).

(** [url.QueryEscape], byte by byte. *)
Fixpoint QueryEscape (s : string) : string :=
  match s with
  | "" => ""
  | String a s =>
      if is_alnum a || existsb (Ascii.eqb a) ["-"; "_"; "."; "~"]%char then String a (QueryEscape s)
      else if Ascii.eqb a " " then String "+" (QueryEscape s)
      else String "%" (String (hex_digit (N_of_ascii a / 16)) (String (hex_digit (N_of_ascii a mod 16)) (QueryEscape s)))
  end.

(** [Values.Encode] of single-valued parameters already in the order of their keys. *)
Definition Encode (q : list (string * string)) : string :=
  String.concat "&" ((fun kv => QueryEscape kv.1 +:+ "=" +:+ QueryEscape kv.2) <$> q).

Example strconv_examples :
  Atoi "120" = Some 120%Z /\ Atoi "-3" = Some (-3)%Z /\ Atoi "+7" = Some 7%Z /\ Atoi "" = None /\ Atoi "-" = None /\
  Atoi "1_0" = None /\ Atoi "9223372036854775808" = None /\ QueryEscape "a b,c/" = "a+b%2Cc%2F" /\
  Encode [("lat", "1.5"); ("x", "é")] = "lat=1.5&x=%C3%A9".
Proof. vm_compute. repeat split. Qed.

(** ** Trimming and splitting *)

(** [strings.TrimPrefix] *)
Definition TrimPrefix (s p : string) : string := default s (strip_prefix p s).

Fixpoint trim_left_fuel (fuel : nat) (s : string) : string :=
  match fuel with
  | O => s
  | S n => match skip_space s with Some r => trim_left_fuel n r | None => s end
  end.

(** Without the longest blank suffix. *)
Fixpoint trim_right (s : string) : string :=
  match s with
  | "" => ""
  | String a r => if blank s then "" else String a (trim_right r)
  end.

(** [strings.TrimSpace] *)
Definition TrimSpace (s : string) : string := trim_right (trim_left_fuel (String.length s) s).

(** [strings.Split(s, sep)] for a one-byte separator; never empty. *)
Fixpoint Split (sep : ascii) (s : string) : list string :=
  match s with
  | "" => [""]
  | String a r => if Ascii.eqb a sep then "" :: Split sep r
                  else match Split sep r with x :: xs => String a x :: xs | [] => [String a ""] end
  end.

Example split_examples :
  Split "," "a, b ,,c" = ["a"; " b "; ""; "c"] /\ TrimSpace ("  a b" ++ rune 160 ++ " ") = "a b" /\
  TrimPrefix "W/x" "W/" = "x" /\ TrimPrefix "x" "W/" = "x".
Proof. vm_compute. repeat split. Qed.
