(* ===== verification/Effects.v ===== *)
(** * Effects: the database transaction seam ([internal/platform/dbtx]) and ids

    A service of the program is a function of the database tables it owns, of
    faults (any statement, begin or commit may fail) and of the supply of fresh
    identifiers ([internal/platform/ids]).  [M D A] is that state-and-error monad
    over the tables [D]; [dbcall] is one statement of a repository, [tx_run] is
    [Runner.Run]: begin, the unit of work, commit, and rollback on error.
    [preserves] is the Hoare-style rule set the components use to carry a table
    invariant through a whole service, whatever faults occur. *)

From Stdlib Require Import ZArith Lia Bool String.
From stdpp Require Import base list strings.
From S2P Require Import Prelude Uuid.

(** A Go [(T, error)] result; the error is its text. *)
Inductive result (A : Type) : Type :=
| Ok (a : A)
| Error (e : string).
Arguments Ok {A} a.
Arguments Error {A} e.

(** What the services cannot control: which statements fail, and the ids
    [ids.New] hands out (third-party UUIDv7). *)
Class Env := {
  fault : nat -> bool;
  newID : nat -> uuid;
}.

(** The documented promise of a UUID generator. *)
Class FreshIds `{Env} := { newID_inj : forall i j, newID i = newID j -> i = j }.

(** An environment without faults. *)
Class Healthy `{Env} := { healthy : forall i, fault i = false }.

Record World (D : Type) := MkWorld { db : D; tick : nat; nids : nat }.
Arguments MkWorld {D} db tick nids.
Arguments db {D} w.
Arguments tick {D} w.
Arguments nids {D} w.

Definition M (D A : Type) : Type := World D -> World D * result A.

Section Monad.
Context `{Env} {D : Type}.

Definition ret {A} (a : A) : M D A := fun w => (w, Ok a).
Definition throw {A} (e : string) : M D A := fun w => (w, Error e).
Definition bind {A B} (m : M D A) (k : A -> M D B) : M D B := fun w =>
  match m w with
  | (w', Ok a) => k a w'
  | (w', Error e) => (w', Error e)
  end.

(** One statement: it fails without effect, or reads and writes the tables. *)
Definition dbcall {A} (op : string) (f : D -> D * A) : M D A := fun w =>
  if fault (tick w) then (MkWorld (db w) (S (tick w)) (nids w), Error op)
  else let '(d, a) := f (db w) in (MkWorld d (S (tick w)) (nids w), Ok a).

Definition query {A} (op : string) (f : D -> A) : M D A := dbcall op (fun d => (d, f d)).

(** A statement that a table constraint may reject. *)
Definition dbexec {A} (op : string) (f : D -> option (D * A)) : M D A := fun w =>
  if fault (tick w) then (MkWorld (db w) (S (tick w)) (nids w), Error op)
  else match f (db w) with
       | Some (d, a) => (MkWorld d (S (tick w)) (nids w), Ok a)
       | None => (MkWorld (db w) (S (tick w)) (nids w), Error op)
       end.

(** A statement whose rejection by a constraint is reported as an error of its own. *)
Definition dbtry {A} (op : string) (f : D -> result (D * A)) : M D A := fun w =>
  if fault (tick w) then (MkWorld (db w) (S (tick w)) (nids w), Error op)
  else match f (db w) with
       | Ok (d, a) => (MkWorld d (S (tick w)) (nids w), Ok a)
       | Error e => (MkWorld (db w) (S (tick w)) (nids w), Error e)
       end.

(** A step of the program that is not a database statement and cannot fail. *)
Definition local {A} (f : D -> D * A) : M D A := fun w =>
  let '(d, a) := f (db w) in (MkWorld d (tick w) (nids w), Ok a).

(** [ids.New]. *)
Definition fresh : M D uuid := fun w => (MkWorld (db w) (tick w) (S (nids w)), Ok (newID (nids w))).

(** Go code that inspects the error of a call instead of returning it. *)
Definition attempt {A} (m : M D A) : M D (result A) := fun w =>
  let '(w', r) := m w in (w', Ok r).

(** [Runner.Run]. *)
Definition tx_run {A} (fn : M D A) : M D A := fun w =>
  if fault (tick w) then (MkWorld (db w) (S (tick w)) (nids w), Error "begin tx")
  else match fn (MkWorld (db w) (S (tick w)) (nids w)) with
       | (w', Error e) => (MkWorld (db w) (S (tick w')) (nids w'), Error e)
       | (w', Ok a) =>
           if fault (tick w') then (MkWorld (db w) (S (tick w')) (nids w'), Error "commit tx")
           else (MkWorld (db w') (S (tick w')) (nids w'), Ok a)
       end.

(** A service that returns its domain errors as values: [inl] stops the rest, and
    inside a transaction it rolls back. *)
Definition bindE {E A B} (m : M D (E + A)) (k : A -> M D (E + B)) : M D (E + B) :=
  bind m (fun r => match r with inl e => ret (inl e) | inr a => k a end).

Definition tx_runE {E A} (fn : M D (E + A)) : M D (E + A) := fun w =>
  if fault (tick w) then (MkWorld (db w) (S (tick w)) (nids w), Error "begin tx")
  else match fn (MkWorld (db w) (S (tick w)) (nids w)) with
       | (w', Error e) => (MkWorld (db w) (S (tick w')) (nids w'), Error e)
       | (w', Ok (inl e)) => (MkWorld (db w) (S (tick w')) (nids w'), Ok (inl e))
       | (w', Ok (inr a)) =>
           if fault (tick w') then (MkWorld (db w) (S (tick w')) (nids w'), Error "commit tx")
           else (MkWorld (db w') (S (tick w')) (nids w'), Ok (inr a))
       end.

Fixpoint mapM {A B} (f : A -> M D B) (l : list A) : M D (list B) :=
  match l with
  | [] => ret []
  | x :: xs => bind (f x) (fun y => bind (mapM f xs) (fun ys => ret (y :: ys)))
  end.

Definition iterM {A} (f : A -> M D unit) (l : list A) : M D unit :=
  foldr (fun x k => bind (f x) (fun _ => k)) (ret tt) l.
End Monad.

(** ** Parts of the database

    A service that owns some tables works on any state that has them: [Part D T]
    gives the tables [T] inside [D], so that a service composes with the others
    that share its transaction. *)

Class Part (D T : Type) := { part : D -> T; put : T -> D -> D }.

Class PartLaws (D T : Type) `{Part D T} := {
  part_put : forall t d, part (put t d) = t;
  put_part : forall d, put (part d) d = d;
  put_put : forall t t' d, put t (put t' d) = put t d;
}.

#[export] Instance part_self {T} : Part T T | 10 := {| part := fun d => d; put := fun t _ => t |}.
#[export] Instance part_self_laws {T} : PartLaws T T.
Proof. constructor; reflexivity. Qed.

(** A service over the tables [T], run on a database that contains them. *)
Definition zoom `{Env} {D T A} `{Part D T} (m : M T A) : M D A := fun w =>
  let '(w', r) := m (MkWorld (part (db w)) (tick w) (nids w)) in (MkWorld (put (db w') (db w)) (tick w') (nids w'), r).

Declare Scope m_scope.
Delimit Scope m_scope with M.
Notation "x <-- m ;; k" := (bind m (fun x => k)) (at level 60, m at next level, right associativity) : m_scope.
Notation "m ;;; k" := (bind m (fun _ => k)) (at level 60, right associativity) : m_scope.
Notation "x <-! m ;; k" := (bindE m (fun x => k)) (at level 60, m at next level, right associativity) : m_scope.
Notation "m ;;! k" := (bindE m (fun _ => k)) (at level 60, right associativity) : m_scope.
Open Scope m_scope.

(** ** Invariants through a service *)

Section Preserves.
Context `{Env} {D : Type} (P : D -> Prop).

(** [m] keeps the table invariant [P], on success and on every error. *)
Definition preserves {A} (m : M D A) : Prop := forall w, P (db w) -> P (db (m w).1).

Lemma preserves_ret {A} (a : A) : preserves (ret a).
Proof. intros w Hw; exact Hw. Qed.

Lemma preserves_throw {A} e : preserves (@throw D A e).
Proof. intros w Hw; exact Hw. Qed.

Lemma preserves_bind {A B} (m : M D A) (k : A -> M D B) :
  preserves m -> (forall a, preserves (k a)) -> preserves (bind m k).
Proof.
  intros Hm Hk w Hw. unfold bind. specialize (Hm w Hw).
  destruct (m w) as [w' [a|e]]; cbn in *; [now apply Hk|assumption].
Qed.

Lemma preserves_query {A} op (f : D -> A) : preserves (query op f).
Proof. intros w Hw. unfold query, dbcall. destruct (fault _); exact Hw. Qed.

Lemma preserves_dbcall {A} op (f : D -> D * A) :
  (forall d, P d -> P (f d).1) -> preserves (dbcall op f).
Proof.
  intros Hf w Hw. unfold dbcall. destruct (fault _); [exact Hw|].
  specialize (Hf (db w) Hw). destruct (f (db w)); exact Hf.
Qed.

Lemma preserves_dbexec {A} op (f : D -> option (D * A)) :
  (forall d d' a, P d -> f d = Some (d', a) -> P d') -> preserves (dbexec op f).
Proof.
  intros Hf w Hw. unfold dbexec. destruct (fault _); [exact Hw|].
  destruct (f (db w)) as [[d a]|] eqn:E; [|exact Hw]. eapply Hf; eauto.
Qed.

Lemma preserves_dbtry {A} op (f : D -> result (D * A)) :
  (forall d d' a, P d -> f d = Ok (d', a) -> P d') -> preserves (dbtry op f).
Proof.
  intros Hf w Hw. unfold dbtry. destruct (fault _); [exact Hw|].
  destruct (f (db w)) as [[d a]|e] eqn:E; [|exact Hw]. eapply Hf; eauto.
Qed.

Lemma preserves_local {A} (f : D -> D * A) : (forall d, P d -> P (f d).1) -> preserves (local f).
Proof. intros Hf w Hw. unfold local. specialize (Hf (db w) Hw). now destruct (f (db w)). Qed.

Lemma preserves_fresh : preserves fresh.
Proof. intros w Hw; exact Hw. Qed.

Lemma preserves_attempt {A} (m : M D A) : preserves m -> preserves (attempt m).
Proof. intros Hm w Hw. unfold attempt. specialize (Hm w Hw). now destruct (m w). Qed.

(** A transaction keeps [P] if its body does: an error rolls back. *)
Lemma preserves_tx {A} (m : M D A) : preserves m -> preserves (tx_run m).
Proof.
  intros Hm w Hw. unfold tx_run. destruct (fault _); [exact Hw|].
  specialize (Hm (MkWorld (db w) (S (tick w)) (nids w)) Hw).
  destruct (m _) as [w' [a|e]]; [|exact Hw]. destruct (fault _); [exact Hw|exact Hm].
Qed.

Lemma preserves_mapM {A B} (f : A -> M D B) l : (forall x, preserves (f x)) -> preserves (mapM f l).
Proof.
  intros Hf. induction l; [apply preserves_ret|]. apply preserves_bind; [apply Hf|]. intros b.
  apply preserves_bind; [assumption|]. intros; apply preserves_ret.
Qed.

Lemma preserves_iterM {A} (f : A -> M D unit) l : (forall x, preserves (f x)) -> preserves (iterM f l).
Proof.
  intros Hf. induction l; [apply preserves_ret|]. apply preserves_bind; [apply Hf|]. auto.
Qed.

Lemma preserves_bindE {E A B} (m : M D (E + A)) (k : A -> M D (E + B)) :
  preserves m -> (forall a, preserves (k a)) -> preserves (bindE m k).
Proof. intros Hm Hk. apply preserves_bind; [exact Hm|]. intros [e|a]; [apply preserves_ret|apply Hk]. Qed.

Lemma preserves_if {A} (b : bool) (m m' : M D A) :
  preserves m -> preserves m' -> preserves (if b then m else m').
Proof. now destruct b. Qed.
End Preserves.

#[export] Hint Resolve preserves_ret preserves_throw preserves_bind preserves_query preserves_fresh
  preserves_attempt preserves_tx preserves_mapM preserves_iterM preserves_bindE preserves_if : fiq.

(** A failed unit of work leaves the tables as they were. *)
Lemma tx_run_error `{Env} {D A} (m : M D A) w w' e :
  tx_run m w = (w', Error e) -> db w' = db w.
Proof.
  unfold tx_run. destruct (fault (tick w)); [intros [= <- _]; reflexivity|].
  destruct (m _) as [w1 [a|e1]]; [destruct (fault _)|]; intros [= <- _]; reflexivity.
Qed.

Lemma tx_run_ok `{Env} {D A} (m : M D A) w w' a :
  tx_run m w = (w', Ok a) ->
  exists w1, m (MkWorld (db w) (S (tick w)) (nids w)) = (w1, Ok a) /\ db w' = db w1.
Proof.
  unfold tx_run. destruct (fault (tick w)); [discriminate|].
  destruct (m _) as [w1 [a1|e1]]; [|discriminate]. destruct (fault _); [discriminate|].
  intros [= <- <-]. eauto.
Qed.

(** A transaction ends with the tables of its body and a value, or with the tables
    it began with. *)
Lemma tx_runE_inv `{Env} {D E A} (m : M D (E + A)) w :
  (exists w1 a, m (MkWorld (db w) (S (tick w)) (nids w)) = (w1, Ok (inr a)) /\
     db (tx_runE m w).1 = db w1 /\ (tx_runE m w).2 = Ok (inr a)) \/
  (db (tx_runE m w).1 = db w /\ forall a, (tx_runE m w).2 <> Ok (inr a)).
Proof.
  unfold tx_runE. destruct (fault (tick w)); [now right|].
  destruct (m _) as [w1 [[e|a]|e]]; [now right| |now right]. destruct (fault (tick w1)); [now right|]. left. eauto.
Qed.

Lemma bindE_ok `{Env} {D E A B} (m : M D (E + A)) (k : A -> M D (E + B)) w w' b :
  bindE m k w = (w', Ok (inr b)) -> exists w1 a, m w = (w1, Ok (inr a)) /\ k a w1 = (w', Ok (inr b)).
Proof. unfold bindE, bind. destruct (m w) as [w1 [[e|a]|e]]; [discriminate|eauto|discriminate]. Qed.

(** A query does not write, and without faults it answers. *)
Lemma query_inv `{Env} {D A} op (f : D -> A) w w' r :
  query op f w = (w', r) ->
  db w' = db w /\ nids w' = nids w /\ (r = Ok (f (db w)) \/ r = Error op).
Proof. unfold query, dbcall. destruct (fault _); intros [= <- <-]; cbn; auto. Qed.

Lemma query_healthy `{Healthy} {D A} op (f : D -> A) w :
  query op f w = (MkWorld (db w) (S (tick w)) (nids w), Ok (f (db w))).
Proof. unfold query, dbcall. now rewrite healthy. Qed.

Lemma dbcall_healthy `{Healthy} {D A} op (f : D -> D * A) w :
  dbcall op f w = (MkWorld (f (db w)).1 (S (tick w)) (nids w), Ok (f (db w)).2).
Proof. unfold dbcall. rewrite healthy. now destruct (f (db w)). Qed.

Lemma bind_run `{Env} {D A B} (m : M D A) (k : A -> M D B) w :
  bind m k w = match m w with (w', Ok a) => k a w' | (w', Error e) => (w', Error e) end.
Proof. reflexivity. Qed.

Lemma bind_ok `{Env} {D A B} (m : M D A) (k : A -> M D B) w w' b :
  bind m k w = (w', Ok b) -> exists w1 a, m w = (w1, Ok a) /\ k a w1 = (w', Ok b).
Proof. unfold bind. destruct (m w) as [w1 [a|e]]; [eauto|discriminate]. Qed.

Lemma iterM_cons `{Env} {D A} (f : A -> M D unit) x l w :
  iterM f (x :: l) w = match f x w with (w', Ok _) => iterM f l w' | (w', Error e) => (w', Error e) end.
Proof. reflexivity. Qed.

(** ** Triples

    [hoare P m Q E]: from tables satisfying [P], [m] ends either with a result
    [a] and tables satisfying [Q a], or with an error and tables satisfying [E]. *)

Section Hoare.
Context `{Env} {D : Type}.

Definition hoare {A} (P : D -> Prop) (m : M D A) (Q : A -> D -> Prop) (E : D -> Prop) : Prop :=
  forall w, P (db w) ->
    match m w with (w', Ok a) => Q a (db w') | (w', Error _) => E (db w') end.

Lemma hoare_ret {A} P (a : A) (Q : A -> D -> Prop) E :
  (forall d, P d -> Q a d) -> hoare P (ret a) Q E.
Proof. intros HQ w Hw; now apply HQ. Qed.

Lemma hoare_throw {A} (P : D -> Prop) e (Q : A -> D -> Prop) (E : D -> Prop) :
  (forall d, P d -> E d) -> hoare P (throw e) Q E.
Proof. intros HQ w Hw; now apply HQ. Qed.

Lemma hoare_bind {A B} P (m : M D A) Q (k : A -> M D B) R E :
  hoare P m Q E -> (forall a, hoare (Q a) (k a) R E) -> hoare P (bind m k) R E.
Proof.
  intros Hm Hk w Hw. specialize (Hm w Hw). unfold bind.
  destruct (m w) as [w' [a|e]]; [now apply Hk|assumption].
Qed.

Lemma hoare_weaken {A} (P P' : D -> Prop) (m : M D A) (Q Q' : A -> D -> Prop) (E E' : D -> Prop) :
  (forall d, P' d -> P d) -> (forall a d, Q a d -> Q' a d) -> (forall d, E d -> E' d) ->
  hoare P m Q E -> hoare P' m Q' E'.
Proof.
  intros HP HQ HE Hm w Hw. specialize (Hm w (HP _ Hw)). destruct (m w) as [w' [a|e]]; auto.
Qed.

Lemma hoare_err {A} P (m : M D A) Q (E E' : D -> Prop) :
  (forall d, E d -> E' d) -> hoare P m Q E -> hoare P m Q E'.
Proof. intros HE. apply hoare_weaken; auto. Qed.

Lemma hoare_query {A} op (f : D -> A) (P : D -> Prop) :
  hoare P (query op f) (fun a d => P d /\ a = f d) P.
Proof. intros w Hw. unfold query, dbcall. destruct (fault _); auto. Qed.

Lemma hoare_dbcall {A} op (f : D -> D * A) (P : D -> Prop) (Q : A -> D -> Prop) :
  (forall d, P d -> Q (f d).2 (f d).1) -> hoare P (dbcall op f) Q P.
Proof.
  intros Hf w Hw. unfold dbcall. destruct (fault _); [exact Hw|].
  specialize (Hf _ Hw). now destruct (f (db w)).
Qed.

Lemma hoare_dbexec {A} op (f : D -> option (D * A)) (P : D -> Prop) (Q : A -> D -> Prop) :
  (forall d d' a, P d -> f d = Some (d', a) -> Q a d') -> hoare P (dbexec op f) Q P.
Proof.
  intros Hf w Hw. unfold dbexec. destruct (fault _); [exact Hw|].
  destruct (f (db w)) as [[d a]|] eqn:X; [|exact Hw]. eapply Hf; eauto.
Qed.

Lemma hoare_dbtry {A} op (f : D -> result (D * A)) (P : D -> Prop) (Q : A -> D -> Prop) :
  (forall d d' a, P d -> f d = Ok (d', a) -> Q a d') -> hoare P (dbtry op f) Q P.
Proof.
  intros Hf w Hw. unfold dbtry. destruct (fault _); [exact Hw|].
  destruct (f (db w)) as [[d a]|e] eqn:X; [|exact Hw]. eapply Hf; eauto.
Qed.

Lemma hoare_local {A} (f : D -> D * A) (P : D -> Prop) (Q : A -> D -> Prop) E :
  (forall d, P d -> Q (f d).2 (f d).1) -> hoare P (local f) Q E.
Proof. intros Hf w Hw. unfold local. specialize (Hf _ Hw). now destruct (f (db w)). Qed.

Lemma hoare_fresh (P : D -> Prop) : hoare P fresh (fun _ d => P d) P.
Proof. intros w Hw. exact Hw. Qed.

(** An error inside the transaction, or at its begin or commit, leaves [P]. *)
Lemma hoare_tx {A} (P : D -> Prop) (m : M D A) Q E0 :
  hoare P m Q E0 -> hoare P (tx_run m) Q P.
Proof.
  intros Hm w Hw. unfold tx_run. destruct (fault _); [exact Hw|].
  specialize (Hm (MkWorld (db w) (S (tick w)) (nids w)) Hw).
  destruct (m _) as [w' [a|e]]; [destruct (fault _); [exact Hw|exact Hm]|exact Hw].
Qed.

Lemma hoare_attempt {A} (P : D -> Prop) (m : M D A) Q E E' :
  hoare P m Q E ->
  hoare P (attempt m) (fun r d => match r with Ok a => Q a d | Error _ => E d end) E'.
Proof. intros Hm w Hw. specialize (Hm w Hw). unfold attempt. now destruct (m w) as [w' [a|e]]. Qed.

Lemma hoare_preserves {A} (P : D -> Prop) (m : M D A) : preserves P m -> hoare P m (fun _ d => P d) P.
Proof. intros Hm w Hw. specialize (Hm w Hw). now destruct (m w) as [w' [a|e]]. Qed.

(** A loop over a list: an invariant indexed by the results so far. *)
Lemma hoare_mapM {A B} (P : D -> Prop) (f : A -> M D B) (R : A -> B -> Prop) l :
  (forall x, x ∈ l -> hoare P (f x) (fun y d => P d /\ R x y) P) ->
  hoare P (mapM f l) (fun ys d => P d /\ Forall2 R l ys) P.
Proof.
  induction l as [|x l IH]; intros Hf; cbn [mapM].
  - apply hoare_ret. intros d Hd. split; [exact Hd|constructor].
  - eapply hoare_bind; [apply Hf; left|]. intros y. cbn beta.
    eapply (hoare_bind _ _ (fun ys d => (P d /\ Forall2 R l ys) /\ R x y)).
    + intros w [Hw HR]. specialize (IH ltac:(intros; apply Hf; now right) w Hw).
      destruct (mapM f l w) as [w' [a|e]]; [split; assumption|assumption].
    + intros ys. apply hoare_ret. intros d [[Hd Hs] HR]. split; [exact Hd|now constructor].
Qed.
End Hoare.

(** ** Without faults

    [yields Q m]: [m] ends with a result satisfying [Q], never with an error. *)
Section Yields.
Context `{Healthy} {D : Type}.

Definition yields {A} (Q : A -> Prop) (m : M D A) : Prop :=
  forall w, exists w' a, m w = (w', Ok a) /\ Q a.

Lemma yields_ret {A} (Q : A -> Prop) a : Q a -> yields Q (ret a).
Proof. intros HQ w. now exists w, a. Qed.

Lemma yields_bind {A B} (Q : A -> Prop) (R : B -> Prop) m (k : A -> M D B) :
  yields Q m -> (forall a, Q a -> yields R (k a)) -> yields R (bind m k).
Proof.
  intros Hm Hk w. destruct (Hm w) as (w1 & a & E & Ha). unfold bind. rewrite E. now apply Hk.
Qed.

Lemma yields_weaken {A} (Q Q' : A -> Prop) (m : M D A) :
  (forall a, Q a -> Q' a) -> yields Q m -> yields Q' m.
Proof. intros HQ Hm w. destruct (Hm w) as (w1 & a & E & Ha). eauto. Qed.

Lemma yields_query {A} op (f : D -> A) : yields (fun _ => True) (query op f).
Proof. intros w. rewrite query_healthy. eauto. Qed.

Lemma yields_dbcall {A} op (f : D -> D * A) : yields (fun _ => True) (dbcall op f).
Proof. intros w. rewrite dbcall_healthy. eauto. Qed.

Lemma yields_fresh : yields (fun _ => True) (fresh (D := D)).
Proof. intros w. unfold fresh. eauto. Qed.

Lemma yields_tx {A} (Q : A -> Prop) (m : M D A) : yields Q m -> yields Q (tx_run m).
Proof.
  intros Hm w. unfold tx_run. rewrite healthy.
  destruct (Hm (MkWorld (db w) (S (tick w)) (nids w))) as (w1 & a & -> & Ha). rewrite healthy. eauto.
Qed.

Lemma yields_attempt {A} (Q : A -> Prop) (m : M D A) :
  yields Q m -> yields (fun r => exists a, r = Ok a /\ Q a) (attempt m).
Proof. intros Hm w. destruct (Hm w) as (w1 & a & E & Ha). unfold attempt. rewrite E. eauto 6. Qed.

Lemma yields_mapM {A B} (f : A -> M D B) l :
  (forall x, yields (fun _ => True) (f x)) -> yields (fun _ => True) (mapM f l).
Proof.
  intros Hf. induction l; [now apply yields_ret|]. eapply yields_bind; [apply Hf|]. intros b _.
  eapply yields_bind; [exact IHl|]. intros. now apply yields_ret.
Qed.
End Yields.

(** ** Total correctness without faults

    [total n P m Q]: from tables satisfying [P], with ids from [n] on still to be
    handed out, [m] returns a result and tables related by [Q]. *)
Section Total.
Context `{Healthy} {D : Type} (n : nat).

Definition total {A} (P : D -> Prop) (m : M D A) (Q : A -> D -> Prop) : Prop :=
  forall w, P (db w) -> (n <= nids w)%nat ->
    exists w' a, m w = (w', Ok a) /\ Q a (db w') /\ (n <= nids w')%nat.

Lemma total_ret {A} (P : D -> Prop) (a : A) (Q : A -> D -> Prop) : (forall d, P d -> Q a d) -> total P (ret a) Q.
Proof. intros HQ w Hw Hn. exists w, a. auto. Qed.

Lemma total_bind {A B} P (m : M D A) Q (k : A -> M D B) R :
  total P m Q -> (forall a, total (Q a) (k a) R) -> total P (bind m k) R.
Proof.
  intros Hm Hk w Hw Hn. destruct (Hm w Hw Hn) as (w1 & a & E & HQ & Hn1). unfold bind. rewrite E. now apply Hk.
Qed.

Lemma total_weaken {A} (P P' : D -> Prop) (m : M D A) (Q Q' : A -> D -> Prop) :
  (forall d, P' d -> P d) -> (forall a d, Q a d -> Q' a d) -> total P m Q -> total P' m Q'.
Proof. intros HP HQ Hm w Hw Hn. destruct (Hm w (HP _ Hw) Hn) as (w1 & a & E & HR & Hn1). exists w1, a. auto. Qed.

(** Facts that do not depend on the tables. *)
Lemma total_pure {A} (φ : Prop) (P : D -> Prop) (m : M D A) Q : (φ -> total P m Q) -> total (fun d => φ /\ P d) m Q.
Proof. intros Hm w [Hφ Hw] Hn. now apply Hm. Qed.

Lemma total_pure_r {A} (φ : Prop) (P : D -> Prop) (m : M D A) Q : (φ -> total P m Q) -> total (fun d => P d /\ φ) m Q.
Proof. intros Hm w [Hw Hφ] Hn. now apply Hm. Qed.

Lemma total_exists {A B} (P : B -> D -> Prop) (m : M D A) Q :
  (forall b, total (P b) m Q) -> total (fun d => exists b, P b d) m Q.
Proof. intros Hm w [b Hw] Hn. now apply (Hm b). Qed.

Lemma total_query {A} op (f : D -> A) P : total P (query op f) (fun a d => P d /\ a = f d).
Proof. intros w Hw Hn. rewrite query_healthy. eexists _, _. split; [reflexivity|]. cbn. auto. Qed.

Lemma total_dbcall {A} op (f : D -> D * A) (P : D -> Prop) (Q : A -> D -> Prop) :
  (forall d, P d -> Q (f d).2 (f d).1) -> total P (dbcall op f) Q.
Proof. intros Hf w Hw Hn. rewrite dbcall_healthy. eexists _, _. split; [reflexivity|]. cbn. auto. Qed.

Lemma total_dbexec {A} op (f : D -> option (D * A)) (P : D -> Prop) (Q : A -> D -> Prop) :
  (forall d, P d -> exists d' a, f d = Some (d', a) /\ Q a d') -> total P (dbexec op f) Q.
Proof.
  intros Hf w Hw Hn. unfold dbexec. rewrite healthy. destruct (Hf _ Hw) as (d' & a & -> & HQ).
  eexists _, _. split; [reflexivity|]. cbn. auto.
Qed.

Lemma total_dbtry {A} op (f : D -> result (D * A)) (P : D -> Prop) (Q : A -> D -> Prop) :
  (forall d, P d -> exists d' a, f d = Ok (d', a) /\ Q a d') -> total P (dbtry op f) Q.
Proof.
  intros Hf w Hw Hn. unfold dbtry. rewrite healthy. destruct (Hf _ Hw) as (d' & a & -> & HQ).
  eexists _, _. split; [reflexivity|]. cbn. auto.
Qed.

Lemma total_local {A} (f : D -> D * A) (P : D -> Prop) (Q : A -> D -> Prop) :
  (forall d, P d -> Q (f d).2 (f d).1) -> total P (local f) Q.
Proof.
  intros Hf w Hw Hn. unfold local. specialize (Hf _ Hw). destruct (f (db w)) as [d a].
  eexists _, _. split; [reflexivity|]. auto.
Qed.

Lemma total_fresh (P : D -> Prop) : total P fresh (fun a d => P d /\ exists i, (n <= i)%nat /\ a = newID i).
Proof. intros w Hw Hn. eexists _, _. split; [reflexivity|]. cbn. split; [eauto|lia]. Qed.

Lemma total_tx {A} P (m : M D A) Q : total P m Q -> total P (tx_run m) Q.
Proof.
  intros Hm w Hw Hn. unfold tx_run. rewrite healthy.
  destruct (Hm (MkWorld (db w) (S (tick w)) (nids w)) Hw Hn) as (w1 & a & -> & HQ & Hn1). rewrite healthy.
  eexists _, _. split; [reflexivity|]. auto.
Qed.

Lemma total_attempt {A} P (m : M D A) Q :
  total P m Q -> total P (attempt m) (fun r d => exists a, r = Ok a /\ Q a d).
Proof.
  intros Hm w Hw Hn. destruct (Hm w Hw Hn) as (w1 & a & E & HQ & Hn1). unfold attempt. rewrite E.
  eexists _, _. split; [reflexivity|]. eauto.
Qed.

Lemma total_iterM {A} (P : list A -> D -> Prop) (f : A -> M D unit) l :
  (forall x l, total (P (x :: l)) (f x) (fun _ => P l)) -> total (P l) (iterM f l) (fun _ => P []).
Proof.
  intros Hf. induction l as [|x l IH]; cbn; [now apply total_ret|]. eapply total_bind; [apply Hf|]. intros u. exact IH.
Qed.
End Total.

(** A concrete environment, for evaluation: no faults, ids counted up from [2^64]. *)
#[export] Instance calm : Env := {| fault := fun _ => false; newID := fun n => (2 ^ 64 + N.of_nat n)%N |}.
#[export] Instance calm_fresh : FreshIds.
Proof. constructor. cbn. lia. Qed.
#[export] Instance calm_healthy : Healthy.
Proof. constructor. reflexivity. Qed.

(** One where every statement from the [n]-th on fails. *)
Definition outage_from (n : nat) : Env := {| fault := fun i => (n <=? i)%nat; newID := fun n => (2 ^ 64 + N.of_nat n)%N |}.
