(* ===== verification/Keyset.v ===== *)
(** * Keyset pages

    Lists that the services hand out page by page: rows in the order of their ids, a
    cursor that is the last id already seen, and one row more than the page holds to
    know whether another page follows.  [keyset_rows] is the query, [walk] follows the
    cursors, and [walk_complete] says that following them returns every row once. *)

From Stdlib Require Import ZArith Lia Bool String Sorting.Sorted.
From stdpp Require Import base list strings sorting.
From S2P Require Import Prelude Uuid Effects.

Local Open Scope string_scope.
Local Open Scope list_scope.
Local Open Scope Z_scope.

Section Order.
Context {A : Type} (key : A -> uuid).

Definition key_le (a b : A) : Prop := (key a <= key b)%N.
Definition key_lt (a b : A) : Prop := (key a < key b)%N.

#[export] Instance key_le_dec a b : Decision (key_le a b).
Proof. unfold key_le. apply _. Defined.

#[local] Instance key_le_trans : Transitive key_le.
Proof. intros a b c. unfold key_le. lia. Qed.
#[local] Instance key_le_total : Total key_le.
Proof. intros a b. unfold key_le. lia. Qed.

(** [SELECT ... WHERE p ORDER BY id]. *)
Definition keyset (p : A -> bool) (l : list A) : list A := merge_sort key_le (List.filter p l).

(** [SELECT ... WHERE id > cursor AND p ORDER BY id LIMIT limit + 1]. *)
Definition keyset_rows (p : A -> bool) (cursor : uuid) (limit : Z) (l : list A) : list A :=
  take (Z.to_nat (limit + 1)) (keyset (fun a => N.ltb cursor (key a) && p a) l).

Lemma filter_elem (p : A -> bool) l x : x ∈ List.filter p l <-> x ∈ l /\ p x = true.
Proof. now rewrite !list_elem_of_In, filter_In. Qed.

Lemma filter_all (p : A -> bool) l : Forall (fun x => p x = true) l -> List.filter p l = l.
Proof. induction 1 as [|x l Hx _ IH]; cbn; [reflexivity|]. now rewrite Hx, IH. Qed.

Lemma filter_twice (p q : A -> bool) l : List.filter (fun a => p a && q a) l = List.filter p (List.filter q l).
Proof. induction l as [|a l IH]; cbn; [reflexivity|]. destruct (q a); cbn; [|now rewrite andb_false_r]. rewrite andb_true_r. destruct (p a); congruence. Qed.

Lemma filter_permutation (p : A -> bool) (l l' : list A) : l ≡ₚ l' -> List.filter p l ≡ₚ List.filter p l'.
Proof.
  induction 1 as [|x l1 l2 P IH|x y l1|]; cbn; [reflexivity| | |etransitivity; eauto].
  - destruct (p x); [now constructor|assumption].
  - destruct (p x), (p y); try reflexivity. apply perm_swap.
Qed.

Lemma keyset_elem p l x : x ∈ keyset p l <-> x ∈ l /\ p x = true.
Proof. unfold keyset. now rewrite merge_sort_Permutation, filter_elem. Qed.

Lemma keyset_length p l : (length (keyset p l) <= length l)%nat.
Proof. unfold keyset. rewrite merge_sort_Permutation. apply List.filter_length_le. Qed.

(** With distinct ids the order of the rows is determined, so filtering and sorting
    commute. *)
Lemma keyset_filter p l : NoDup (key <$> l) -> keyset p l = List.filter p (merge_sort key_le l).
Proof.
  intros N. apply (StronglySorted_unique_strong key_le).
  - intros x y [Hx _]%keyset_elem Hy L1 L2. rewrite filter_elem, merge_sort_Permutation in Hy.
    apply (NoDup_key_unique key l); [assumption|tauto|tauto|]. unfold key_le in *. lia.
  - apply StronglySorted_merge_sort; apply _.
  - pose proof (StronglySorted_merge_sort key_le l) as S. induction S as [|x l' S IH F]; cbn; [constructor|].
    destruct (p x); [|assumption]. constructor; [assumption|]. rewrite Forall_forall in F |- *. intros y [Hy _]%filter_elem. auto.
  - unfold keyset. rewrite merge_sort_Permutation. apply filter_permutation. symmetry. apply merge_sort_Permutation.
Qed.

Lemma keyset_strict p l : NoDup (key <$> l) -> StronglySorted key_lt (keyset p l).
Proof.
  intros N. rewrite keyset_filter by assumption.
  assert (Nd : NoDup (key <$> merge_sort key_le l)) by now rewrite merge_sort_Permutation.
  pose proof (StronglySorted_merge_sort key_le l) as S. induction S as [|x l' S IH F]; cbn; [constructor|].
  rewrite fmap_cons, NoDup_cons in Nd. destruct Nd as [Nx Nd]. destruct (p x); [|auto]. constructor; [auto|].
  rewrite Forall_forall in F |- *. intros y [Hy _]%filter_elem. specialize (F y Hy). unfold key_le, key_lt in *.
  assert (key x <> key y) by (intros E; apply Nx; rewrite E; now apply list_elem_of_fmap_2). lia.
Qed.

Lemma keyset_rows_eq p cursor limit l : NoDup (key <$> l) ->
  keyset_rows p cursor limit l = take (Z.to_nat (limit + 1)) (List.filter (fun a => N.ltb cursor (key a)) (keyset p l)).
Proof. intros N. unfold keyset_rows. f_equal. rewrite !keyset_filter by assumption. apply filter_twice. Qed.

(** After a row of the list, the rows with a greater id are the rest. *)
Lemma filter_after L i x :
  StronglySorted key_lt L -> L !! i = Some x -> List.filter (fun a => N.ltb (key x) (key a)) L = drop (S i) L.
Proof.
  intros S. revert i. induction S as [|y L S IH F]; intros i; [discriminate|]. destruct i as [|i]; cbn.
  - intros [= ->]. rewrite N.ltb_irrefl, drop_0. apply filter_all. rewrite Forall_forall in F |- *. intros z Hz.
    apply N.ltb_lt, (F z Hz).
  - intros Hi. destruct (N.ltb_spec (key x) (key y)) as [B|B]; [|now apply IH].
    rewrite Forall_forall in F. apply list_elem_of_lookup_2 in Hi as Hx. specialize (F x Hx). unfold key_lt in F. lia.
Qed.

Lemma filter_from_nil p l : Forall (fun a => key a <> uuid_Nil) l -> List.filter (fun a => N.ltb uuid_Nil (key a)) (keyset p l) = keyset p l.
Proof.
  intros Hn. apply filter_all, Forall_forall. intros a [Ha _]%keyset_elem. apply (proj1 (Forall_forall _ _) Hn) in Ha.
  apply N.ltb_lt. unfold uuid_Nil in *. lia.
Qed.
End Order.

(** ** Walking the pages *)

(** The page size a request gets: 1 to 200 as asked, else 50. *)
Definition page_limit (limit : Z) : Z := if (limit <=? 0) || (200 <? limit) then 50 else limit.

Definition page_size (limit : Z) : nat := Z.to_nat (page_limit limit).

Lemma page_limit_pos limit : 0 < page_limit limit.
Proof. unfold page_limit. destruct (limit <=? 0) eqn:E; cbn; [lia|]. destruct (200 <? limit); [lia|]. bool_simp. lia. Qed.

Lemma page_size_pos limit : (0 < page_size limit)%nat.
Proof. pose proof (page_limit_pos limit). unfold page_size. lia. Qed.

Lemma to_string_nonempty u : String.eqb (Uuid.to_string u) "" = false.
Proof. reflexivity. Qed.

(** What the services make of the rows: the page, whether more follow, the cursor. *)
Definition cut_page {A} (key : A -> uuid) (limit : Z) (rows : list A) : list A * bool * string :=
  let more := limit <? Z.of_nat (length rows) in
  let rows := if more then take (Z.to_nat limit) rows else rows in
  (rows, more, match (if more then last rows else None) with Some a => Uuid.to_string (key a) | None => "" end).

Lemma cut_page_spec {A} (key : A -> uuid) limit (rest : list A) : 0 < limit ->
  exists cur, cut_page key limit (take (Z.to_nat (limit + 1)) rest) = (take (Z.to_nat limit) rest, (Z.to_nat limit <? length rest)%nat, cur) /\
    ((Z.to_nat limit < length rest)%nat -> exists x, rest !! (Z.to_nat limit - 1)%nat = Some x /\ cur = Uuid.to_string (key x)).
Proof.
  intros Pos. unfold cut_page. rewrite length_take. set (n := Z.to_nat limit). replace (Z.to_nat (limit + 1)) with (n + 1)%nat by lia.
  destruct (limit <? Z.of_nat ((n + 1) `min` length rest)) eqn:Em; bool_simp.
  - rewrite take_take, Nat.min_l by lia. destruct (lookup_lt_is_Some_2 rest (n - 1)) as [x Hx]; [lia|].
    exists (Uuid.to_string (key x)). split; [|eauto]. rewrite last_lookup, length_take, lookup_take_lt by lia.
    replace (Init.Nat.pred (n `min` length rest)) with (n - 1)%nat by lia. rewrite Hx. f_equal. f_equal. symmetry. apply Nat.ltb_lt. lia.
  - exists "". split; [|lia]. rewrite !take_ge by lia. do 2 f_equal. symmetry. apply Nat.ltb_ge. lia.
Qed.

Section Walk.
Context `{Env} {D E A P : Type} (key : A -> uuid) (parse : string -> option uuid).
Context (fetch : string -> M D (E + (list A * P))) (has_more : P -> bool) (next : P -> string).

(** Following the cursors until a page says it is the last. *)
Fixpoint walk (fuel : nat) (cursor : string) : M D (E + list A) :=
  match fuel with
  | O => ret (inr [])
  | S fuel =>
      (page <-! fetch cursor ;;
       if has_more page.2 then rest <-! walk fuel (next page.2) ;; ret (inr (page.1 ++ rest)) else ret (inr page.1))%M
  end.

Definition cursor_id (cursor : string) : option uuid := if String.eqb cursor "" then Some uuid_Nil else parse cursor.

(** [L] is the whole list; a page from a cursor holds the next [n] rows of it. *)
Context (d : D) (L : list A) (n : nat) (n_pos : (0 < n)%nat).
Hypothesis fetch_page : forall cursor c w, cursor_id cursor = Some c -> db w = d ->
  let rest := List.filter (fun a => N.ltb c (key a)) L in
  exists w' p, fetch cursor w = (w', Ok (inr (take n rest, p))) /\ db w' = d /\ has_more p = (n <? length rest)%nat /\
    ((n < length rest)%nat -> exists x, rest !! (n - 1)%nat = Some x /\ next p = Uuid.to_string (key x)).
Hypothesis sorted : StronglySorted (key_lt key) L.
Hypothesis readable : forall a, a ∈ L -> parse (Uuid.to_string (key a)) = Some (key a).

Lemma walk_rest fuel cursor c w k :
  cursor_id cursor = Some c -> db w = d -> List.filter (fun a => N.ltb c (key a)) L = drop k L -> (length (drop k L) < fuel)%nat ->
  exists w', walk fuel cursor w = (w', Ok (inr (drop k L))) /\ db w' = d.
Proof.
  revert cursor c w k. induction fuel as [|fuel IH]; intros cursor c w k Hc Hw Hf Hl; [lia|]. cbn [walk].
  destruct (fetch_page cursor c w Hc Hw) as (w1 & p & E1 & Ed & Hm & Hcur). rewrite Hf in E1, Hm, Hcur.
  unfold bindE at 1. rewrite bind_run, E1. cbn [fst snd]. rewrite Hm. destruct (n <? length (drop k L))%nat eqn:B.
  - apply Nat.ltb_lt in B. destruct (Hcur B) as (x & Hx & ->). rewrite lookup_drop in Hx. rewrite length_drop in B, Hl.
    destruct (IH (Uuid.to_string (key x)) (key x) w1 (k + n)%nat) as (w2 & E2 & Ed2).
    + unfold cursor_id. rewrite to_string_nonempty. apply readable. now apply list_elem_of_lookup_2 in Hx.
    + exact Ed.
    + rewrite (filter_after key L (k + (n - 1)) x); [f_equal; lia|exact sorted|exact Hx].
    + rewrite length_drop. lia.
    + exists w2. unfold bindE. rewrite bind_run, E2. split; [|exact Ed2]. unfold ret. do 3 f_equal. rewrite <- drop_drop. apply take_drop.
  - apply Nat.ltb_ge in B. exists w1. rewrite take_ge by exact B. auto.
Qed.

(** From the start, the pages together are the list. *)
Lemma walk_complete fuel w : db w = d -> Forall (fun a => key a <> uuid_Nil) L -> (length L < fuel)%nat ->
  exists w', walk fuel "" w = (w', Ok (inr L)) /\ db w' = d.
Proof.
  intros Hw Hn Hl. destruct (walk_rest fuel "" uuid_Nil w 0) as (w' & E1 & Ed); [reflexivity|exact Hw| |now rewrite drop_0|].
  - rewrite drop_0. apply filter_all, Forall_forall. intros a Ha. apply (proj1 (Forall_forall _ _) Hn) in Ha.
    apply N.ltb_lt. unfold uuid_Nil in *. lia.
  - rewrite drop_0 in E1. eauto.
Qed.
End Walk.
