(* ===== verification/Versioned.v ===== *)
(** * Versioned tables

    [accuracy_metrics] and [provider_rankings] are append-only tables whose rows
    carry [superseded_by]: a recompute inserts new rows and then points the previous
    live row of each logical key at its replacement, in one transaction.  This file
    holds that protocol once, over any row type with a key and an id, and its two
    facts: one live row per key, and rows that change only by being superseded once. *)

From Stdlib Require Import ZArith Lia Bool String.
From stdpp Require Import base list strings.
From S2P Require Import Prelude Uuid Effects.

Section Versioned.
Context {A K : Type} `{EqDecision K} (key : A -> K) (rid : A -> uuid).

(** A stored row: the record and its [superseded_by]. *)
Definition Stored : Type := A * option uuid.

(** [UPDATE ... SET superseded_by = $1 WHERE <key> AND superseded_by IS NULL AND id <> $1] *)
Definition supersede_row (m : A) (r : Stored) : Stored :=
  if bool_decide (key r.1 = key m) && bool_decide (r.2 = None) && negb (bool_decide (rid r.1 = rid m))
  then (r.1, Some (rid m)) else r.

Definition fresh_rows (rows : list A) : list Stored := (fun m => (m, None)) <$> rows.

(** The updates for each new row, on one stored row. *)
Definition superseded (rows : list A) (r : Stored) : Stored := foldl (fun r m => supersede_row m r) r rows.

Lemma supersede_row_fst m r : (supersede_row m r).1 = r.1.
Proof. unfold supersede_row. now destruct (_ && _ && _). Qed.

Lemma superseded_fst rows r : (superseded rows r).1 = r.1.
Proof.
  unfold superseded. revert r. induction rows as [|m rows IH]; intros r; cbn; [reflexivity|].
  rewrite IH. apply supersede_row_fst.
Qed.

Lemma superseded_live rows r :
  (superseded rows r).2 = None <->
  r.2 = None /\ forall m, m ∈ rows -> key m = key r.1 -> rid r.1 = rid m.
Proof.
  unfold superseded. revert r. induction rows as [|m rows IH]; intros r; cbn.
  - split; [intros E; split; [exact E|intros x Hx; now apply not_elem_of_nil in Hx]|tauto].
  - rewrite IH, supersede_row_fst. unfold supersede_row.
    destruct (bool_decide (key r.1 = key m)) eqn:E1; rewrite ?bool_decide_eq_true, ?bool_decide_eq_false in E1;
    destruct (bool_decide (r.2 = None)) eqn:E2; rewrite ?bool_decide_eq_true, ?bool_decide_eq_false in E2;
    destruct (bool_decide (rid r.1 = rid m)) eqn:E3; rewrite ?bool_decide_eq_true, ?bool_decide_eq_false in E3; cbn;
    setoid_rewrite elem_of_cons; split.
    all: try (intros [C B]; split; [assumption|]; intros x [->|Hx] Hk; [congruence|auto]).
    all: try (intros [C B]; split; [assumption|]; intros x Hx Hk; apply B; auto; now right).
    all: try (intros [C B]; discriminate).
    intros [C B]. exfalso. apply E3. apply B; [now left|congruence].
Qed.

Lemma superseded_set rows r u : r.2 = Some u -> superseded rows r = r.
Proof.
  intros E. unfold superseded. induction rows as [|m rows IH]; cbn; [reflexivity|].
  assert (supersede_row m r = r) as ->; [|exact IH]. unfold supersede_row.
  rewrite (bool_decide_false (r.2 = None)) by congruence. now rewrite andb_false_r.
Qed.

(** ** Live rows *)

Definition live (ms : list Stored) : list A :=
  omap (fun r : Stored => match r.2 with None => Some r.1 | Some _ => None end) ms.

Lemma live_elem ms m : m ∈ live ms <-> (m, None) ∈ ms.
Proof.
  unfold live. rewrite list_elem_of_omap. split.
  - intros ([a [b|]] & Hr & [= ->]). exact Hr.
  - intros Hr. exists (m, None). auto.
Qed.

(** One live row per logical key. *)
Definition one_live (ms : list Stored) : Prop := NoDup (key <$> live ms).

(** The live rows that keep their place: those of other keys. *)
Definition kept (rows : list A) (l : list A) : list A :=
  List.filter (fun m => negb (bool_decide (key m ∈ key <$> rows))) l.

(** After publication the live rows are the kept ones and the new ones. *)
Lemma live_published ms rows :
  NoDup (key <$> rows) -> (forall r m, r ∈ ms -> m ∈ rows -> rid r.1 <> rid m) ->
  live (superseded rows <$> (ms ++ fresh_rows rows)) = kept rows (live ms) ++ rows.
Proof.
  intros N Hid. rewrite fmap_app. unfold live at 1. rewrite omap_app. f_equal.
  - induction ms as [|r ms IH]; [reflexivity|]. rewrite fmap_cons. unfold live in *. cbn [omap list_omap].
    assert (IHx := IH ltac:(intros; apply Hid; [now right|assumption])). clear IH.
    rewrite superseded_fst. destruct (superseded rows r).2 eqn:E.
    + destruct r as [m0 [x|]]; cbn; [exact IHx|]. rewrite bool_decide_true; [exact IHx|].
      destruct (decide (key m0 ∈ key <$> rows)) as [|Hn]; [assumption|exfalso].
      assert (C : (superseded rows (m0, None)).2 = None); [|congruence].
      apply superseded_live. split; [reflexivity|]. intros m Hm Hk. exfalso. apply Hn. cbn in Hk. rewrite <- Hk.
      now apply list_elem_of_fmap_2.
    + apply superseded_live in E as [E1 E2]. destruct r as [m0 [x|]]; [discriminate|]. cbn.
      rewrite bool_decide_false; [cbn; now f_equal|]. intros C. apply list_elem_of_fmap in C as (m & Ek & Hm).
      apply (Hid (m0, None) m); [left|assumption|]. apply E2; auto.
  - assert (G : forall l, (forall m, m ∈ l -> m ∈ rows) -> live (superseded rows <$> fresh_rows l) = l); [|now apply G].
    induction l as [|m l IH]; intros Hl; [reflexivity|]. cbn.
    assert (E : (superseded rows (m, None)).2 = None).
    { apply superseded_live. split; [reflexivity|]. intros m' Hm' Hk. cbn in *.
      assert (m = m') as ->; [|reflexivity]. apply list_elem_of_lookup in Hm' as [i Hi].
      assert (Hm : m ∈ rows) by (apply Hl; left). apply list_elem_of_lookup in Hm as [j Hj].
      assert (i = j) as ->; [|congruence].
      apply (NoDup_lookup _ i j (key m') N); rewrite list_lookup_fmap; [now rewrite Hi|rewrite Hj; cbn; now f_equal]. }
    unfold live in *. cbn. rewrite E, superseded_fst. cbn. f_equal. apply IH. intros; apply Hl; now right.
Qed.

Lemma kept_nodup rows l : NoDup (key <$> l) -> NoDup (key <$> kept rows l).
Proof.
  induction l as [|m l IH]; intros ND; [constructor|]. cbn in *. apply NoDup_cons in ND as [N1 N2].
  destruct (negb _); [|now apply IH]. cbn. apply NoDup_cons. split; [|now apply IH].
  intros C. apply N1. apply list_elem_of_fmap in C as (x & -> & Hx).
  apply list_elem_of_In, filter_In in Hx as [Hx _]. apply list_elem_of_fmap_2. now apply list_elem_of_In.
Qed.

Lemma one_live_published ms rows :
  one_live ms -> NoDup (key <$> rows) -> (forall r m, r ∈ ms -> m ∈ rows -> rid r.1 <> rid m) ->
  one_live (superseded rows <$> (ms ++ fresh_rows rows)).
Proof.
  intros O N Hid. unfold one_live. rewrite live_published by assumption. rewrite fmap_app. apply NoDup_app.
  split; [now apply kept_nodup|]. split; [|assumption].
  intros k Hk Hr. apply list_elem_of_fmap in Hk as (m & -> & Hm). apply list_elem_of_In, filter_In in Hm as [_ Hm].
  rewrite bool_decide_true in Hm; [discriminate|assumption].
Qed.

(** ** History *)

(** Rows are immutable but for [superseded_by], which is set at most once. *)
Record history (ms ms' : list Stored) : Prop := {
  hi_rows : (fst <$> ms) `prefix_of` (fst <$> ms');
  hi_once : forall i m u, ms !! i = Some (m, Some u) -> ms' !! i = Some (m, Some u);
}.

#[export] Instance history_preorder : PreOrder history.
Proof.
  split; [intros d; constructor; [reflexivity|auto]|].
  intros a b c [A1 A2] [B1 B2]. constructor; [etransitivity; eauto|auto].
Qed.

Lemma history_published ms rows : history ms (superseded rows <$> (ms ++ fresh_rows rows)).
Proof.
  constructor; cbn.
  - rewrite !fmap_app, <- list_fmap_compose.
    erewrite (list_fmap_ext (fst ∘ superseded rows) fst); [eexists; reflexivity|].
    intros i r _. apply superseded_fst.
  - intros i m u Hi. rewrite fmap_app, lookup_app_l by (rewrite length_fmap; now apply lookup_lt_Some in Hi).
    apply list_lookup_fmap_Some. exists (m, Some u). split; [|exact Hi]. now rewrite (superseded_set rows (m, Some u) u).
Qed.

(** ** The protocol, on tables [D] that hold the rows *)

Context `{FreshIds} {D : Type} (rows_of : D -> list Stored) (set_rows : D -> list Stored -> D).
Context (rows_set : forall d ms, rows_of (set_rows d ms) = ms)
        (set_set : forall d ms ms', set_rows (set_rows d ms) ms' = set_rows d ms').

Record winv (w : World D) : Prop := {
  wi_one : one_live (rows_of (db w));
  wi_ids : forall r i, r ∈ rows_of (db w) -> (nids w <= i)%nat -> rid r.1 <> newID i;
}.

(** [m] keeps the invariant and the history, on success and on every error. *)
Definition wkeeps {B} (m : M D B) : Prop :=
  forall w, winv w -> winv (m w).1 /\ history (rows_of (db w)) (rows_of (db (m w).1)).

Lemma winv_same w w' : winv w -> rows_of (db w') = rows_of (db w) -> (nids w <= nids w')%nat -> winv w'.
Proof. intros [O I] E L. constructor; rewrite E; [assumption|]. intros; eapply I; eauto; lia. Qed.

Lemma wkeeps_ret {B} (a : B) : wkeeps (ret a).
Proof. intros w W. split; [exact W|reflexivity]. Qed.

Lemma wkeeps_bind {B C} (m : M D B) (k : B -> M D C) :
  wkeeps m -> (forall a, wkeeps (k a)) -> wkeeps (bind m k).
Proof.
  intros Hm Hk w W. unfold bind. destruct (Hm w W) as [W1 H1]. destruct (m w) as [w1 [a|e]]; [|auto].
  cbn in *. destruct (Hk a w1 W1) as [W2 H2]. split; [assumption|]. etransitivity; eauto.
Qed.

Lemma wkeeps_query {B} op (f : D -> B) : wkeeps (query op f).
Proof.
  intros w W. unfold query, dbcall. destruct (fault _); cbn; (split; [|reflexivity]); eapply winv_same; eauto.
Qed.

Lemma wkeeps_attempt {B} (m : M D B) : wkeeps m -> wkeeps (attempt m).
Proof. intros Hm w W. unfold attempt. specialize (Hm w W). now destruct (m w). Qed.

(** Insert the rows, then supersede for each. *)
Definition publish (insert : list A -> D -> option (D * unit)) (op1 op2 : string) (rows : list A) : M D unit :=
  tx_run (dbexec op1 (insert rows) ;;;
          iterM (fun m => dbcall op2 (fun d => (set_rows d (supersede_row m <$> rows_of d), tt))) rows).

Context (insert : list A -> D -> option (D * unit))
        (insert_spec : forall rows d d' u, insert rows d = Some (d', u) ->
           d' = set_rows d (rows_of d ++ fresh_rows rows)).

Lemma iterM_supersede op2 rows w :
  let '(w', r) := iterM (fun m => dbcall op2 (fun d => (set_rows d (supersede_row m <$> rows_of d), tt))) rows w in
  nids w' = nids w /\ (r = Ok tt -> rows_of (db w') = superseded rows <$> rows_of (db w)).
Proof.
  revert w. induction rows as [|m rows IH]; intros w.
  - cbn. split; [reflexivity|]. intros _. unfold superseded. cbn. now rewrite list_fmap_id.
  - rewrite iterM_cons. unfold dbcall at 1. destruct (fault (tick w)); [now split|]. cbn beta iota.
    specialize (IH (MkWorld (set_rows (db w) (supersede_row m <$> rows_of (db w))) (S (tick w)) (nids w))).
    destruct (iterM _ rows _) as [w' r]. destruct IH as [N Hdb]. split; [exact N|]. intros Hr. rewrite (Hdb Hr).
    cbn. rewrite rows_set. unfold superseded. cbn. now rewrite <- list_fmap_compose.
Qed.

(** Publishing rows of distinct keys whose ids come from the supply before the
    current position keeps the invariant. *)
Lemma publish_keeps op1 op2 rows w n :
  winv (MkWorld (db w) (tick w) n) -> (n <= nids w)%nat -> NoDup (key <$> rows) ->
  (forall m, m ∈ rows -> exists i, (n <= i < nids w)%nat /\ rid m = newID i) ->
  let w' := (publish insert op1 op2 rows w).1 in
  winv w' /\ history (rows_of (db w)) (rows_of (db w')).
Proof.
  intros W Hn N Hids. pose (G := fun w' => winv w' /\ history (rows_of (db w)) (rows_of (db w'))).
  cbv zeta. change (G (publish insert op1 op2 rows w).1).
  assert (Hs : forall w', db w' = db w -> nids w' = nids w -> G w').
  { intros w' Ed En. split; [|rewrite Ed; reflexivity]. eapply winv_same; [exact W|cbn; now rewrite Ed|cbn; lia]. }
  assert (Hnew : forall w', rows_of (db w') = superseded rows <$> (rows_of (db w) ++ fresh_rows rows) ->
    nids w' = nids w -> G w').
  { intros w' Ed En. split; [|rewrite Ed; apply history_published]. destruct W as [WO WI]. cbn in *. constructor.
    - rewrite Ed. apply one_live_published; auto. intros r m Hr Hm.
      destruct (Hids m Hm) as (i & Hi & ->). apply WI; auto. lia.
    - rewrite Ed. intros r i Hr Hi. apply list_elem_of_fmap in Hr as (r0 & -> & Hr). rewrite superseded_fst.
      apply elem_of_app in Hr as [Hr|Hr]; [apply WI; auto; lia|].
      apply list_elem_of_fmap in Hr as (m & -> & Hm). cbn.
      destruct (Hids m Hm) as (j & Hj & ->). intros E. apply newID_inj in E. lia. }
  unfold publish, tx_run. destruct (fault (tick w)); [now apply Hs|].
  unfold bind at 1. unfold dbexec. cbn [tick db nids]. destruct (fault (S (tick w))); [now apply Hs|].
  destruct (insert rows (db w)) as [[d' u]|] eqn:Ei; [|now apply Hs]. apply insert_spec in Ei. subst d'.
  pose proof (iterM_supersede op2 rows (MkWorld (set_rows (db w) (rows_of (db w) ++ fresh_rows rows)) (S (S (tick w))) (nids w))) as I.
  destruct (iterM _ rows _) as [w2 [[]|e]]; destruct I as [N2 I]; cbn [nids] in N2.
  - specialize (I eq_refl). cbn [db] in I. rewrite rows_set in I.
    destruct (fault (tick w2)); cbn; [now apply Hs|]. apply Hnew; [exact I|exact N2].
  - now apply Hs.
Qed.

(** Without faults, publication succeeds if the table accepts the rows. *)
Lemma publish_healthy `{!Healthy} op1 op2 rows w :
  (forall d, is_Some (insert rows d)) -> exists w', publish insert op1 op2 rows w = (w', Ok tt).
Proof.
  intros Hi. unfold publish, tx_run. rewrite healthy. unfold bind, dbexec. cbn [tick]. rewrite healthy.
  destruct (Hi (db (MkWorld (db w) (S (tick w)) (nids w)))) as [[d' []] ->].
  assert (It : forall l w0, exists w1,
    iterM (fun m => dbcall op2 (fun d => (set_rows d (supersede_row m <$> rows_of d), tt))) l w0 = (w1, Ok tt)).
  { induction l as [|m l IH]; intros w0; [now exists w0|]. rewrite iterM_cons, dbcall_healthy. apply IH. }
  destruct (It rows (MkWorld d' (S (S (tick w))) (nids w))) as [w1 E]. cbn [tick nids] in *. rewrite E, healthy. eauto.
Qed.

(** Publication writes through [set_rows] only. *)
Lemma preserves_publish (P : D -> Prop) op1 op2 rows :
  (forall d ms, P d -> P (set_rows d ms)) -> preserves P (publish insert op1 op2 rows).
Proof.
  intros HP. apply preserves_tx, preserves_bind.
  - apply preserves_dbexec. intros d d' u Hd E. apply insert_spec in E. subst. now apply HP.
  - intros _. apply preserves_iterM. intros m. apply preserves_dbcall. intros d Hd. now apply HP.
Qed.
End Versioned.

Arguments Stored : clear implicits.
Arguments live {A} ms.
Arguments fresh_rows {A} rows.
