(* ===== verification/Records.v ===== *)
(** * Collected records ([internal/collection/domain])

    [ForecastSnapshot] and [Observation], their physical-range validation and the
    correction test [DiffersFrom], and the [ForecastCollection] parent record with
    its status lifecycle.  The tables of the later components hold these rows. *)

From Stdlib Require Import ZArith Lia Bool String.
From Stdlib Require Import SpecFloat.
From stdpp Require Import base list strings pretty.
From S2P Require Import Prelude Float64 Float64Round GoTime Uuid.

Local Open Scope string_scope.
Local Open Scope Z_scope.

(** ** fmt.Sprintf("%.<d>f"): the exact value, correctly rounded to [d] decimals *)

Module GoFmt.

(** [num/den] rounded to the nearest integer, ties to even. *)
Definition round_half_even (num den : Z) : Z :=
  let q := num / den in
  let r := num mod den in
  if 2 * r <? den then q else if den <? 2 * r then q + 1 else if Z.even q then q else q + 1.

Definition pad2 (d : nat) (s : string) : string :=
  String.concat "" (repeat "0" (d - String.length s)) ++ s.

Definition fixed_of_ratio (neg : bool) (num den : Z) (d : nat) : string :=
  let n := round_half_even (num * 10 ^ Z.of_nat d) den in
  let ip := n / 10 ^ Z.of_nat d in
  let fp := n mod 10 ^ Z.of_nat d in
  (if neg then "-" else "") ++ pretty ip ++ match d with O => "" | _ => "." ++ pad2 d (pretty fp) end.

Definition fmt_fixed (d : nat) (x : float64) : string :=
  match x with
  | S754_nan => "NaN"
  | S754_infinity s => if s then "-Inf" else "+Inf"
  | S754_zero s => fixed_of_ratio s 0 1 d
  | S754_finite s m e =>
      if 0 <=? e then fixed_of_ratio s (Zpos m * 2 ^ e) 1 d
      else fixed_of_ratio s (Zpos m) (2 ^ (- e)) d
  end.

Example fmt_examples :
  fmt_fixed 2 (f64_lit 6125 100) = "61.25" /\ fmt_fixed 2 (f64_lit (-905) 10) = "-90.50" /\
  fmt_fixed 0 (f64_lit 5 2) = "2" /\ fmt_fixed 2 (f64_lit 1005 1000) = "1.00".
Proof. vm_compute. repeat split. Qed.

End GoFmt.

Module Records.

(** ** snapshot.go *)

Definition MinTemperatureC : float64 := f64_of_Z (-90).
Definition MaxTemperatureC : float64 := f64_of_Z 60.
Definition MinPressureHPa : float64 := f64_of_Z 870.
Definition MaxPressureHPa : float64 := f64_of_Z 1084.
Definition MaxWindSpeedMS : float64 := f64_of_Z 120.
Definition MaxPrecipMM : float64 := f64_of_Z 500.

Record ForecastSnapshot := MkSnapshot {
  s_ID : uuid;
  s_ForecastCollectionID : uuid;
  s_ProviderID : uuid;
  s_LocationID : uuid;
  s_IssuedAt : Time;
  s_TargetTime : Time;
  s_ForecastHorizonMinutes : Z;
  s_TemperatureC : option float64;
  s_FeelsLikeTemperatureC : option float64;
  s_PrecipitationProbability : option float64;
  s_PrecipitationAmountMM : option float64;
  s_HumidityPct : option float64;
  s_WindSpeedMS : option float64;
  s_WindDirectionDeg : option float64;
  s_PressureHPa : option float64;
  s_CloudCoverPct : option float64;
  s_ProviderConditionCode : string;
  s_CanonicalConditionCode : string;
  s_ConditionTaxonomyVersion : string;
  s_CreatedAt : Time
}.

(** A present value outside [lo, hi]. *)
Definition out_of (v : option float64) (lo hi : float64) : bool :=
  match v with Some x => fltb x lo || fltb hi x | None => false end.

Definition reason (b : bool) (r : string) : list string := if b then [r] else [].

Definition temperature_reason (v : option float64) : string :=
  match v with
  | Some x => "temperature_c " ++ GoFmt.fmt_fixed 2 x ++ " out of range ["
      ++ GoFmt.fmt_fixed 0 MinTemperatureC ++ "," ++ GoFmt.fmt_fixed 0 MaxTemperatureC ++ "]"
  | None => ""
  end.

Definition Validate (s : ForecastSnapshot) : list string :=
  (reason (negb (After (s_TargetTime s) (s_IssuedAt s))) "target_time must be after issued_at"
   ++ reason (s_ForecastHorizonMinutes s <=? 0) "forecast_horizon_minutes must be positive"
   ++ reason (out_of (s_TemperatureC s) MinTemperatureC MaxTemperatureC) (temperature_reason (s_TemperatureC s))
   ++ reason (out_of (s_FeelsLikeTemperatureC s) MinTemperatureC MaxTemperatureC) "feels_like_temperature_c out of range"
   ++ reason (out_of (s_PrecipitationProbability s) f0 f1) "precipitation_probability must be within [0,1]"
   ++ reason (out_of (s_PrecipitationAmountMM s) f0 MaxPrecipMM) "precipitation_amount_mm out of range"
   ++ reason (out_of (s_HumidityPct s) f0 (f64_of_Z 100)) "humidity_pct must be within [0,100]"
   ++ reason (out_of (s_WindSpeedMS s) f0 MaxWindSpeedMS) "wind_speed_ms out of range"
   ++ reason (out_of (s_WindDirectionDeg s) f0 (f64_of_Z 360)) "wind_direction_deg must be within [0,360]"
   ++ reason (out_of (s_PressureHPa s) MinPressureHPa MaxPressureHPa) "pressure_hpa out of range"
   ++ reason (out_of (s_CloudCoverPct s) f0 (f64_of_Z 100)) "cloud_cover_pct must be within [0,100]")%list.

(** ** observation.go *)

Definition ObservationStation : string := "station_observation".
Definition ObservationInterpolated : string := "interpolated".
Definition ObservationReanalysis : string := "reanalysis".
Definition ObservationProviderEstimated : string := "provider_estimated".

Definition observationTypes : list string :=
  [ObservationStation; ObservationInterpolated; ObservationReanalysis; ObservationProviderEstimated].

Definition ObservationType_Valid (t : string) : bool := existsb (String.eqb t) observationTypes.

Definition QualityValid : string := "valid".
Definition QualitySuspect : string := "suspect".
Definition QualityCorrected : string := "corrected".

Definition CorrectionEpsilonTemperatureC : float64 := f64_lit 1 10.
Definition CorrectionEpsilonPrecipMM : float64 := f64_lit 5 100.
Definition CorrectionEpsilonHumidityPct : float64 := f64_of_Z 1.
Definition CorrectionEpsilonWindSpeedMS : float64 := f64_lit 1 10.
Definition CorrectionEpsilonWindDirDeg : float64 := f64_of_Z 1.
Definition CorrectionEpsilonPressureHPa : float64 := f64_lit 5 10.

Record Observation := MkObservation {
  o_ID : uuid;
  o_LocationID : uuid;
  o_Source : string;
  o_ObservationType : string;
  o_ObservedAt : Time;
  o_TemperatureC : option float64;
  o_HumidityPct : option float64;
  o_WindSpeedMS : option float64;
  o_WindDirectionDeg : option float64;
  o_PressureHPa : option float64;
  o_PrecipitationMM : option float64;
  o_ProviderConditionCode : string;
  o_CanonicalConditionCode : string;
  o_QualityFlag : string;
  o_SupersededObservationID : option uuid;
  o_CreatedAt : Time
}.

Definition RangeReasons (o : Observation) : list string :=
  (reason (out_of (o_TemperatureC o) MinTemperatureC MaxTemperatureC) "temperature_c out of range"
   ++ reason (out_of (o_HumidityPct o) f0 (f64_of_Z 100)) "humidity_pct out of range"
   ++ reason (out_of (o_WindSpeedMS o) f0 MaxWindSpeedMS) "wind_speed_ms out of range"
   ++ reason (out_of (o_WindDirectionDeg o) f0 (f64_of_Z 360)) "wind_direction_deg out of range"
   ++ reason (out_of (o_PressureHPa o) MinPressureHPa MaxPressureHPa) "pressure_hpa out of range"
   ++ reason (out_of (o_PrecipitationMM o) f0 MaxPrecipMM) "precipitation_mm out of range")%list.

Definition floatDiffers (a b : option float64) (eps : float64) : bool :=
  match a, b with
  | None, None => false
  | None, Some _ | Some _, None => true
  | Some x, Some y =>
      let d := (x - y)%f64 in
      let d := if fltb d f0 then fopp d else d in
      fltb eps d
  end.

Definition DiffersFrom (o prev : Observation) : bool :=
  floatDiffers (o_TemperatureC o) (o_TemperatureC prev) CorrectionEpsilonTemperatureC
  || floatDiffers (o_PrecipitationMM o) (o_PrecipitationMM prev) CorrectionEpsilonPrecipMM
  || floatDiffers (o_HumidityPct o) (o_HumidityPct prev) CorrectionEpsilonHumidityPct
  || floatDiffers (o_WindSpeedMS o) (o_WindSpeedMS prev) CorrectionEpsilonWindSpeedMS
  || floatDiffers (o_WindDirectionDeg o) (o_WindDirectionDeg prev) CorrectionEpsilonWindDirDeg
  || floatDiffers (o_PressureHPa o) (o_PressureHPa prev) CorrectionEpsilonPressureHPa.

(** ** collection.go *)

Inductive CollectionStatus :=
| StatusPending | StatusSuccess | StatusPartial | StatusFailed
| StatusDeduplicated | StatusRateLimited | StatusTimeout.

#[export] Instance CollectionStatus_eq_dec : EqDecision CollectionStatus.
Proof. solve_decision. Defined.

Definition Terminal (s : CollectionStatus) : bool := bool_decide (s <> StatusPending).

Definition Successful (s : CollectionStatus) : bool :=
  bool_decide (s = StatusSuccess) || bool_decide (s = StatusPartial).

Record ForecastCollection := MkCollection {
  fc_ID : uuid;
  fc_ProviderID : uuid;
  fc_LocationID : uuid;
  fc_ProviderConfigurationID : uuid;
  fc_RequestedAt : Time;
  fc_CompletedAt : option Time;
  fc_Status : CollectionStatus;
  fc_ProviderRequestID : string;
  fc_ProviderModelRunTime : option Time;
  fc_RawPayloadObjectKey : string;
  fc_RawPayloadChecksum : string;
  fc_ResponseStatusCode : Z;
  fc_ResponseLatencyMS : Z;
  fc_RecordsReceived : Z;
  fc_SnapshotsStored : Z;
  fc_SnapshotsDeduplicated : Z;
  fc_SnapshotsInvalid : Z;
  fc_SchemaVersion : string;
  fc_AdapterVersion : string;
  fc_ErrorCode : string;
  fc_ErrorMessage : string;
  fc_CreatedAt : Time
}.

Definition AccountingHolds (c : ForecastCollection) : bool :=
  fc_RecordsReceived c =? fc_SnapshotsStored c + fc_SnapshotsDeduplicated c + fc_SnapshotsInvalid c.

(** ** What validation establishes *)

(** A present value that is not a NaN lies in its range. *)
Definition within (v : option float64) (lo hi : float64) : Prop :=
  match v with Some x => is_nan x = false -> fleb lo x = true /\ fleb x hi = true | None => True end.

Lemma out_of_within v lo hi :
  is_nan lo = false -> is_nan hi = false -> out_of v lo hi = false -> within v lo hi.
Proof.
  intros Hl Hh. destruct v as [x|]; cbn; [|easy]. intros [A B]%orb_false_iff Nx.
  split; now apply fltb_false_fleb.
Qed.

Lemma within_out_of v lo hi : within v lo hi -> out_of v lo hi = false.
Proof.
  destruct v as [x|]; cbn; [|reflexivity]. intros Hw. destruct (is_nan x) eqn:N.
  { destruct x; try discriminate. destruct lo as [[]|[]| |[]], hi as [[]|[]| |[]]; reflexivity. }
  destruct (Hw eq_refl) as [A B]. apply orb_false_iff. split; apply Bool.not_true_is_false; intros C.
  - pose proof (fltb_fleb_trans _ _ _ C A) as I. now rewrite fltb_irrefl in I.
  - pose proof (fltb_fleb_trans _ _ _ C B) as I. now rewrite fltb_irrefl in I.
Qed.

Lemma reason_nil b r l : (reason b r ++ l)%list = [] <-> b = false /\ l = [].
Proof. destruct b; cbn; split; intuition (try discriminate; congruence). Qed.

Lemma reason_nil1 b r : reason b r = [] <-> b = false.
Proof. destruct b; cbn; split; intuition (try discriminate; congruence). Qed.

(** The ranges of a snapshot, as the validation states them. *)
Record snapshot_in_range (s : ForecastSnapshot) : Prop := {
  sr_time : s_IssuedAt s < s_TargetTime s;
  sr_horizon : 0 < s_ForecastHorizonMinutes s;
  sr_temp : within (s_TemperatureC s) MinTemperatureC MaxTemperatureC;
  sr_feels : within (s_FeelsLikeTemperatureC s) MinTemperatureC MaxTemperatureC;
  sr_prob : within (s_PrecipitationProbability s) f0 f1;
  sr_precip : within (s_PrecipitationAmountMM s) f0 MaxPrecipMM;
  sr_hum : within (s_HumidityPct s) f0 (f64_of_Z 100);
  sr_wind : within (s_WindSpeedMS s) f0 MaxWindSpeedMS;
  sr_dir : within (s_WindDirectionDeg s) f0 (f64_of_Z 360);
  sr_press : within (s_PressureHPa s) MinPressureHPa MaxPressureHPa;
  sr_cloud : within (s_CloudCoverPct s) f0 (f64_of_Z 100);
}.

Lemma Validate_in_range s : Validate s = [] <-> snapshot_in_range s.
Proof.
  unfold Validate. rewrite !reason_nil, reason_nil1. unfold After. split.
  - intros (T & Hz & ? & ? & ? & ? & ? & ? & ? & ? & ?).
    apply negb_false_iff, Z.ltb_lt in T. apply Z.leb_gt in Hz.
    constructor; try lia; now apply out_of_within.
  - intros []. rewrite negb_false_iff, Z.ltb_lt, Z.leb_gt. repeat split; try lia; now apply within_out_of.
Qed.

End Records.
