(* ===== verification/Eval.v ===== *)
(** * The evaluation kernel ([internal/analysis/eval])

    Pure accumulators that turn matched forecast/observation pairs into metrics:
    [Continuous] (MAE, RMSE, bias), [Confusion] (rain occurrence), [Brier], and the
    confidence intervals [Wilson] and [ciFromMoments].  A Go [*float64] result is
    an [option float64].  The theorems: the metrics are null exactly on a zero
    denominator, never NaN, in range; every interval brackets its value, which is
    the [accuracy_metrics] table's CHECK. *)

From Stdlib Require Import ZArith Lia Bool String.
From Stdlib Require Import SpecFloat.
From stdpp Require Import base list strings.
From S2P Require Import Prelude Float64 Float64Round.

Local Open Scope Z_scope.

Module Eval.

(** ** eval.go *)

Definition WeightStation : float64 := f64_of_Z 1.
Definition WeightInterpolated : float64 := f64_lit 8 10.
Definition WeightReanalysis : float64 := f64_lit 8 10.
Definition WeightProviderEstimated : float64 := f64_lit 5 10.

Definition StationObservation : string := "station_observation".
Definition Interpolated : string := "interpolated".
Definition Reanalysis : string := "reanalysis".
Definition ProviderEstimated : string := "provider_estimated".

Definition QualitySuspect : string := "suspect".

Definition ObservedRainThresholdMM : float64 := f64_lit 1 10.
Definition ForecastRainProbability : float64 := f64_lit 5 10.

Definition ProvenanceWeight (observationType : string) : float64 :=
  if String.eqb observationType StationObservation then WeightStation
  else if String.eqb observationType Interpolated then WeightInterpolated
  else if String.eqb observationType Reanalysis then WeightReanalysis
  else if String.eqb observationType ProviderEstimated then WeightProviderEstimated
  else f0.

Definition Eligible (forecast observed : option float64) (qualityFlag : string) : bool :=
  bool_decide (is_Some forecast) && bool_decide (is_Some observed)
  && negb (String.eqb qualityFlag QualitySuspect).

Definition ForecastRain (precipProbability precipAmount : option float64) : bool :=
  match precipProbability with
  | Some p => if fleb ForecastRainProbability p then true else
      match precipAmount with Some a => fltb f0 a | None => false end
  | None => match precipAmount with Some a => fltb f0 a | None => false end
  end.

Definition ObservedRain (precipMM : option float64) : bool :=
  match precipMM with Some v => fleb ObservedRainThresholdMM v | None => false end.

(** ** continuous.go *)

Record Continuous := MkContinuous {
  sumWeight : float64;
  sumWeightSqrd : float64;
  sumWeightAbs : float64;
  sumWeightErr : float64;
  sumWeightSq : float64;
  n : Z
}.

(** The zero value of the Go struct. *)
Definition Continuous_zero : Continuous := MkContinuous f0 f0 f0 f0 f0 0.

Definition Continuous_Add (c : Continuous) (forecast observed weight : float64) : Continuous :=
  let e := (forecast - observed)%f64 in
  MkContinuous
    (sumWeight c + weight)%f64
    (sumWeightSqrd c + weight * weight)%f64
    (sumWeightAbs c + weight * fabs e)%f64
    (sumWeightErr c + weight * e)%f64
    (sumWeightSq c + weight * e * e)%f64
    (n c + 1).

Definition Continuous_N (c : Continuous) : Z := n c.

Definition MAE (c : Continuous) : option float64 :=
  if feqb (sumWeight c) f0 then None else Some (sumWeightAbs c / sumWeight c)%f64.

Definition RMSE (c : Continuous) : option float64 :=
  if feqb (sumWeight c) f0 then None else Some (fsqrt (sumWeightSq c / sumWeight c)%f64).

Definition Bias (c : Continuous) : option float64 :=
  if feqb (sumWeight c) f0 then None else Some (sumWeightErr c / sumWeight c)%f64.

(** ** categorical.go *)

Record Confusion := MkConfusion { TP : float64; FP : float64; FN : float64; TN : float64 }.

Definition Confusion_zero : Confusion := MkConfusion f0 f0 f0 f0.

Definition Confusion_Add (c : Confusion) (forecastRain observedRain : bool) (weight : float64) : Confusion :=
  match forecastRain, observedRain with
  | true, true => MkConfusion (TP c + weight)%f64 (FP c) (FN c) (TN c)
  | true, false => MkConfusion (TP c) (FP c + weight)%f64 (FN c) (TN c)
  | false, true => MkConfusion (TP c) (FP c) (FN c + weight)%f64 (TN c)
  | false, false => MkConfusion (TP c) (FP c) (FN c) (TN c + weight)%f64
  end.

Definition Confusion_N (c : Confusion) : float64 := (TP c + FP c + FN c + TN c)%f64.

Definition ratio (num d : float64) : option float64 :=
  if feqb d f0 then None else Some (num / d)%f64.

Definition f2 : float64 := f64_of_Z 2.

Definition Recall (c : Confusion) : option float64 := ratio (TP c) (TP c + FN c)%f64.
Definition Precision (c : Confusion) : option float64 := ratio (TP c) (TP c + FP c)%f64.
Definition F1 (c : Confusion) : option float64 :=
  ratio (f2 * TP c)%f64 (f2 * TP c + FP c + FN c)%f64.
Definition FalseAlarmRate (c : Confusion) : option float64 := ratio (FP c) (FP c + TN c)%f64.
Definition ThreatScore (c : Confusion) : option float64 := ratio (TP c) (TP c + FP c + FN c)%f64.
Definition OccurrenceAgreement (c : Confusion) : option float64 :=
  ratio (TP c + TN c)%f64 (Confusion_N c).

(** ** brier.go *)

Record Brier := MkBrier {
  b_sumWeight : float64;
  b_sumWeightSqrd : float64;
  b_sumWeightSq : float64;
  b_sumWeightQuad : float64;
  b_n : Z
}.

Definition Brier_zero : Brier := MkBrier f0 f0 f0 f0 0.

Definition Brier_Add (b : Brier) (probability : float64) (observedRain : bool) (weight : float64) : Brier :=
  let a := if observedRain then f1 else f0 in
  let d := (probability - a)%f64 in
  let d2 := (d * d)%f64 in
  MkBrier
    (b_sumWeight b + weight)%f64
    (b_sumWeightSqrd b + weight * weight)%f64
    (b_sumWeightSq b + weight * d2)%f64
    (b_sumWeightQuad b + weight * d2 * d2)%f64
    (b_n b + 1).

Definition Score (b : Brier) : option float64 := ratio (b_sumWeightSq b) (b_sumWeight b).

(** ** ci.go *)

Definition Z95 : float64 := f64_lit 196 100.

(** [Z95 * Z95] is a constant expression of the source: exact, rounded once. *)
Definition Z95sq : float64 := f64_lit 38416 10000.

Definition f4 : float64 := f64_of_Z 4.

Definition Wilson (pHat n : float64) : float64 * float64 :=
  if fleb n f0 then (f0, f0) else
  let z2 := Z95sq in
  let denom := (f1 + z2 / n)%f64 in
  let center := ((pHat + z2 / (f2 * n)) / denom)%f64 in
  let margin := ((Z95 * fsqrt (pHat * (f1 - pHat) / n + z2 / (f4 * n * n))) / denom)%f64 in
  let lower := (center - margin)%f64 in
  let upper := (center + margin)%f64 in
  let lower := if fltb lower f0 then f0 else lower in
  let upper := if fltb f1 upper then f1 else upper in
  let lower := if fltb pHat lower then pHat else lower in
  let upper := if fltb upper pHat then pHat else upper in
  (lower, upper).

Definition ciFromMoments (mean sumWx sumWx2 sumW sumWsqrd : float64) (n : Z)
  : option float64 * option float64 :=
  if (n <? 2) || fleb sumW f0 then (None, None) else
  let d := (sumW - sumWsqrd / sumW)%f64 in
  if fleb d f0 then (None, None) else
  let variance := ((sumWx2 - sumWx * sumWx / sumW) / d)%f64 in
  let variance := if fltb variance f0 then f0 else variance in
  let half := (Z95 * fsqrt variance / fsqrt (f64_of_Z n))%f64 in
  (Some (mean - half)%f64, Some (mean + half)%f64).

Definition MAECI (c : Continuous) : option float64 * option float64 :=
  match MAE c with
  | None => (None, None)
  | Some m => ciFromMoments m (sumWeightAbs c) (sumWeightSq c) (sumWeight c) (sumWeightSqrd c) (n c)
  end.

Definition RMSECI (c : Continuous) : option float64 * option float64 :=
  match RMSE c with
  | None => (None, None)
  | Some m => ciFromMoments m (sumWeightAbs c) (sumWeightSq c) (sumWeight c) (sumWeightSqrd c) (n c)
  end.

Definition BiasCI (c : Continuous) : option float64 * option float64 :=
  match Bias c with
  | None => (None, None)
  | Some m => ciFromMoments m (sumWeightErr c) (sumWeightSq c) (sumWeight c) (sumWeightSqrd c) (n c)
  end.

Definition ScoreCI (b : Brier) : option float64 * option float64 :=
  match Score b with
  | None => (None, None)
  | Some s => ciFromMoments s (b_sumWeightSq b) (b_sumWeightQuad b) (b_sumWeight b) (b_sumWeightSqrd b) (b_n b)
  end.

(** ** Wilson *)

Definition unit_interval (p : float64) : Prop :=
  valid p = true /\ nonneg p /\ fleb p f1 = true.

Lemma unit_interval_finite p : unit_interval p -> is_finite p = true.
Proof. intros (_ & Hp & H1). now apply (fleb_finite p f1). Qed.

Definition fhalf : float64 := f64_lit 1 2.

(** [z2/n] stays at most 8 for the effective sample sizes of the code, which
    are sums of provenance weights (at least one half). *)
Lemma z2_over_n_le z nn :
  z = Z95sq -> valid nn = true -> is_finite nn = true -> fleb fhalf nn = true ->
  fleb (fdiv z nn) (f64_of_Z 8) = true.
Proof.
  intros -> Vn Fn Hn.
  assert (Hp : fltb f0 nn = true) by (apply fltb_fleb_trans with fhalf; [reflexivity|assumption]).
  apply fltb_pos in Hp as [->|(m & e & ->)]; [discriminate|].
  apply valid_finite in Vn as [C B]. pose proof (canonical_bounds _ _ C) as (_ & Hlo & _).
  change Z95sq with (S754_finite false 8650514164253249 (-51)).
  change (f64_of_Z 8) with (S754_finite false 4503599627370496 (-49)).
  apply fdiv_pos_upper; try (split; reflexivity); try assumption; try (unfold emax, prec; lia).
  change fhalf with (S754_finite false 4503599627370496 (-53)) in Hn.
  pose proof (canonical_value _ _ _ _ (-1074)
    (conj eq_refl eq_refl : canonical 4503599627370496 (-53)) C ltac:(lia) Hlo Hn) as V.
  replace (-49 + e + 2200) with (1077 + (e - -1074)) by lia. rewrite (Z.pow_add_r 2 1077) by lia.
  rewrite <- Z.mul_assoc.
  replace (Zpos m * (2 ^ 1077 * 2 ^ (e - -1074))) with (2 ^ 1077 * (Zpos m * 2 ^ (e - -1074))) by ring.
  apply Z.le_trans with (4503599627370496 * (2 ^ 1077 * (4503599627370496 * 2 ^ (-53 - -1074)))).
  - vm_compute. discriminate.
  - apply Z.mul_le_mono_nonneg_l; [lia|]. apply Z.mul_le_mono_nonneg_l; [|exact V].
    apply Z.pow_nonneg; lia.
Qed.

(** [2n] is at least [1/2] too, or overflows; either way [z2/(2n)] is small. *)
Lemma z2_over_2n nn :
  valid nn = true -> is_finite nn = true -> fleb fhalf nn = true ->
  psign (fdiv Z95sq (f2 * nn)%f64) /\ fleb (fdiv Z95sq (f2 * nn)%f64) (f64_of_Z 8) = true.
Proof.
  intros Vn Fn Hn.
  assert (Hp : fltb f0 nn = true) by (apply fltb_fleb_trans with fhalf; [reflexivity|assumption]).
  apply fltb_pos in Hp as [->|(m & e & ->)]; [discriminate|].
  pose proof (proj1 (valid_finite _ _ _) Vn) as [C B]. pose proof (canonical_bounds _ _ C) as (_ & Hlo & _).
  assert (Hge : fleb fhalf (f2 * pos_f m e)%f64 = true).
  { change fhalf with (pos_f 4503599627370496 (-53)) in Hn |- *.
    change f2 with (pos_f 4503599627370496 (-51)).
    apply fmul_pos_lower; try (split; reflexivity); try assumption.
    pose proof (canonical_value _ _ _ _ (-1074)
      (conj eq_refl eq_refl : canonical 4503599627370496 (-53)) C ltac:(lia) Hlo Hn) as V.
    replace (-51 + e + 2200) with (1075 + (e - -1074)) by lia. rewrite (Z.pow_add_r 2 1075) by lia.
    rewrite <- Z.mul_assoc.
    replace (Zpos m * (2 ^ 1075 * 2 ^ (e - -1074))) with (2 ^ 1075 * (Zpos m * 2 ^ (e - -1074))) by ring.
    apply Z.le_trans with (4503599627370496 * (2 ^ 1075 * (4503599627370496 * 2 ^ (-53 - -1074)))).
    - vm_compute. discriminate.
    - apply Z.mul_le_mono_nonneg_l; [lia|]. apply Z.mul_le_mono_nonneg_l; [|exact V].
      apply Z.pow_nonneg; lia. }
  assert (V2 : valid (f2 * pos_f m e)%f64 = true) by (now apply fmul_valid).
  assert (P2 : psign (f2 * pos_f m e)%f64).
  { apply psign_mul_pos_r; auto. right; right; now eexists _, _. }
  split.
  - apply psign_div; auto. right; right; now eexists _, _.
  - destruct (is_finite (f2 * pos_f m e)%f64) eqn:Ef; [now apply z2_over_n_le|].
    destruct P2 as [E|[E|(? & ? & E)]]; rewrite E in *; try discriminate. reflexivity.
Qed.

Section WilsonInterval.
Context (pHat nn : float64).
Context (Hp : unit_interval pHat) (Vn : valid nn = true) (Fn : is_finite nn = true)
        (Hn : fleb fhalf nn = true).

Let denom := (f1 + Z95sq / nn)%f64.
Let center := ((pHat + Z95sq / (f2 * nn)) / denom)%f64.
Let margin := ((Z95 * fsqrt (pHat * (f1 - pHat) / nn + Z95sq / (f4 * nn * nn))) / denom)%f64.

Lemma nn_pos : exists m e, nn = S754_finite false m e.
Proof.
  assert (H : fltb f0 nn = true) by (apply fltb_fleb_trans with fhalf; [reflexivity|assumption]).
  apply fltb_pos in H as [E|H]; [|assumption]. rewrite E in Fn; discriminate.
Qed.

Lemma denom_pos :
  valid denom = true /\ fleb f1 denom = true /\ exists m e, denom = S754_finite false m e.
Proof.
  assert (P : psign (fdiv Z95sq nn)).
  { destruct nn_pos as (m & e & ->). apply psign_div_finite_den. right; right; now eexists _, _. }
  assert (V : valid denom = true) by (apply fadd_valid; [reflexivity|apply fdiv_valid]).
  assert (L : fleb f1 denom = true) by (apply fadd_upper; [reflexivity|reflexivity|now apply psign_nonneg]).
  repeat split; auto.
  assert (U : fleb denom (f64_of_Z 16) = true).
  { apply fadd_le_16; try reflexivity; try apply fdiv_valid; [now apply psign_nonneg|].
    now apply z2_over_n_le. }
  destruct denom as [s|[]| |[] m e]; try discriminate; eauto.
Qed.

Lemma center_finite : valid center = true /\ is_finite center = true /\ nonneg center.
Proof.
  destruct Hp as (Vp & Np & Lp). destruct (z2_over_2n nn Vn Fn Hn) as [P2 L2].
  destruct denom_pos as (Vd & Ld & md & ed & Ed).
  set (num := (pHat + Z95sq / (f2 * nn))%f64) in *.
  assert (Vnum : valid num = true) by (apply fadd_valid; [assumption|apply fdiv_valid]).
  assert (Pnum : psign num) by (apply psign_add_r; assumption).
  assert (Fnum : is_finite num = true).
  { apply (fleb_finite num (f64_of_Z 16)); [now apply psign_nonneg| |reflexivity].
    apply fadd_le_16; try assumption; [apply fdiv_valid|now apply psign_nonneg|].
    apply fleb_trans with f1; [assumption|reflexivity]. }
  assert (Nc : nonneg center).
  { apply psign_nonneg. unfold center. rewrite Ed. now apply psign_div_finite_den. }
  repeat split; [apply fdiv_valid| |assumption].
  apply (fleb_finite center num); [assumption| |assumption].
  apply fdiv_le_num; auto; [now apply psign_nonneg|]. now rewrite Ed.
Qed.

Lemma margin_psign : psign margin.
Proof.
  destruct Hp as (Vp & Np & Lp). pose proof (unit_interval_finite pHat Hp) as Fp.
  destruct denom_pos as (Vd & Ld & md & ed & Ed). destruct nn_pos as (mn & en & En).
  destruct (one_minus_unit pHat Vp Np Lp) as [P1 L1].
  assert (V1 : valid (f1 - pHat)%f64 = true) by (apply fsub_valid; [reflexivity|assumption]).
  assert (F1 : is_finite (f1 - pHat)%f64 = true)
    by (apply (fleb_finite _ f1); [now apply psign_nonneg|assumption|reflexivity]).
  set (a := (pHat * (f1 - pHat) / nn)%f64). set (b := (Z95sq / (f4 * nn * nn))%f64).
  assert (Na : nonneg a).
  { apply fdiv_nonneg; [|apply fmul_nonneg; auto; now apply psign_nonneg|].
    - apply (fleb_finite _ pHat); auto; [apply fmul_nonneg; auto; now apply psign_nonneg|].
      apply fmul_le_l; auto. now apply psign_nonneg.
    - apply fltb_fleb_trans with fhalf; [reflexivity|assumption]. }
  assert (Pb : psign b).
  { apply psign_div; [reflexivity|right; right; now eexists _, _| |left; reflexivity].
    rewrite En in *. apply psign_mul_pos_r; auto.
    - apply fmul_valid; [reflexivity|assumption].
    - apply psign_mul_pos_r; auto. right; right; now eexists _, _. }
  unfold margin. rewrite Ed. apply psign_div_finite_den.
  change Z95 with (S754_finite false 8827055269646172 (-52)).
  apply psign_mul_pos; [reflexivity| |apply psign_sqrt, psign_add_r; assumption].
  apply fsqrt_valid, fadd_valid; apply fdiv_valid.
Qed.

Lemma wilson_brackets_aux :
  let (lo, hi) := Wilson pHat nn in
  nonneg lo /\ fleb lo pHat = true /\ fleb pHat hi = true /\ fleb hi f1 = true.
Proof.
  destruct Hp as (Vp & Np & Lp). destruct center_finite as (Vc & Fc & Nc).
  pose proof (psign_nonneg _ margin_psign) as Nm.
  pose proof (fsub_lower center margin Fc Vc Nm) as Hlo.
  pose proof (fadd_upper center margin Fc Vc Nm) as Hhi.
  assert (N0 : fleb nn f0 = false).
  { destruct nn_pos as (m & e & ->). reflexivity. }
  unfold Wilson. rewrite N0. fold denom. fold center. fold margin.
  apply fleb_not_nan in Hlo as [Hlo _], Hhi as [_ Hhi]. pose proof (nonneg_not_nan _ Np) as Hpn.
  set (lo0 := (center - margin)%f64) in *. set (hi0 := (center + margin)%f64) in *.
  set (lo1 := if fltb lo0 f0 then f0 else lo0). set (hi1 := if fltb f1 hi0 then f1 else hi0).
  assert (nonneg lo1) as Nlo.
  { unfold lo1. destruct (fltb lo0 f0) eqn:E; [reflexivity|]. now apply fltb_false_fleb. }
  assert (fleb hi1 f1 = true) as Nhi.
  { unfold hi1. destruct (fltb f1 hi0) eqn:E; [reflexivity|]. now apply fltb_false_fleb. }
  pose proof (nonneg_not_nan _ Nlo). pose proof (proj1 (fleb_not_nan _ _ Nhi)).
  destruct (fltb pHat lo1) eqn:E1, (fltb hi1 pHat) eqn:E2; repeat split; auto;
    try (now apply fleb_refl); now apply fltb_false_fleb.
Qed.
End WilsonInterval.

(** ** Moment intervals *)

Lemma f64_of_Z_pos_f k : 1 <= k < 2 ^ 53 -> exists m e, f64_of_Z k = S754_finite false m e.
Proof.
  intros H. pose proof (f64_of_Z_pos k ltac:(lia)) as P. destruct (f64_of_Z_exact k ltac:(lia)) as [F _].
  apply fltb_pos in P as [E|P]; [rewrite E in F; discriminate|assumption].
Qed.

(** [sqrt(n)] of a sample count is a positive finite number. *)
Lemma sqrt_count k : 1 <= k < 2 ^ 53 -> exists m e, fsqrt (f64_of_Z k) = S754_finite false m e.
Proof.
  intros H. destruct (f64_of_Z_pos_f k H) as (m & e & E). pose proof (f64_of_Z_valid k) as V.
  assert (L : fleb f1 (f64_of_Z k) = true).
  { rewrite f1_eq. unfold f64_of_Z. apply (normalize_lower _ _ _ _ (-52)); try reflexivity; cbn; lia. }
  rewrite E in *. apply valid_finite in V as [C B]. now apply fsqrt_shape.
Qed.

Section Moments.
Context (mean sumWx sumWx2 sumW sumWsqrd : float64) (k : Z).
Context (Fx : is_finite (sumWx * sumWx)%f64 = true) (Fx2 : is_finite sumWx2 = true)
        (Fw : is_finite sumW = true) (Vw : valid sumW = true)
        (Fw2 : is_finite sumWsqrd = true) (Nw2 : nonneg sumWsqrd) (Hk : k < 2 ^ 53).

(** The half width of the interval is a non-negative number: the square root
    is never taken of a negative number nor of NaN. *)
Lemma half_width_nonneg :
  (k <? 2) || fleb sumW f0 = false ->
  let d := (sumW - sumWsqrd / sumW)%f64 in
  fleb d f0 = false ->
  let v := ((sumWx2 - sumWx * sumWx / sumW) / d)%f64 in
  nonneg (Z95 * fsqrt (if fltb v f0 then f0 else v) / fsqrt (f64_of_Z k))%f64.
Proof.
  intros [K W]%orb_false_iff d Hd v. apply Z.ltb_ge in K.
  assert (W' : fltb f0 sumW = true) by (apply fleb_false_fltb; [now destruct sumW|reflexivity|assumption]).
  assert (L : fleb d sumW = true).
  { apply fsub_lower; auto. now apply fdiv_nonneg. }
  apply fltb_pos in W' as [E|(mw & ew & E)]; [rewrite E in Fw; discriminate|].
  apply fleb_false_fltb in Hd; [|now apply fleb_not_nan in L|reflexivity].
  apply fltb_pos in Hd as [Ed|(md & ed & Ed)].
  { rewrite Ed, E in L. discriminate. }
  assert (Nv : is_nan v = false).
  { unfold v. rewrite Ed. apply fdiv_pos_not_nan, fsub_not_nan; [assumption|].
    rewrite E. apply fdiv_pos_not_nan. now destruct (sumWx * sumWx)%f64. }
  destruct (sqrt_count k ltac:(lia)) as (mk & ek & Ek). rewrite Ek.
  apply nonneg_div_pos. change Z95 with (S754_finite false 8827055269646172 (-52)).
  apply nonneg_mul_pos; [reflexivity| |].
  - apply fsqrt_valid. destruct (fltb v f0); [reflexivity|apply fdiv_valid].
  - apply fsqrt_nonneg. destruct (fltb v f0) eqn:Ev; [reflexivity|]. now apply fltb_false_fleb.
Qed.

Lemma ciFromMoments_brackets lo hi :
  valid mean = true -> is_finite mean = true ->
  ciFromMoments mean sumWx sumWx2 sumW sumWsqrd k = (Some lo, Some hi) ->
  fleb lo mean = true /\ fleb mean hi = true.
Proof.
  intros Vm Fm. unfold ciFromMoments.
  destruct ((k <? 2) || fleb sumW f0) eqn:E0; [discriminate|].
  destruct (fleb (sumW - sumWsqrd / sumW)%f64 f0) eqn:E1; [discriminate|].
  pose proof (half_width_nonneg E0 E1) as N. cbv zeta in N |- *. intros [= <- <-].
  split; [now apply fsub_lower|now apply fadd_upper].
Qed.

(** Both bounds are present or none is. *)
Lemma ciFromMoments_both :
  ciFromMoments mean sumWx sumWx2 sumW sumWsqrd k = (None, None) \/
  exists lo hi, ciFromMoments mean sumWx sumWx2 sumW sumWsqrd k = (Some lo, Some hi).
Proof.
  unfold ciFromMoments. destruct (_ || _); [auto|]. destruct (fleb _ f0); [auto|]. eauto.
Qed.
End Moments.

(** ** Accumulators over measured values

    [sane v]: a measured or forecast value within the physical validation ranges
    (all of which lie within 2048).  [cont_inv k c]: the accumulator after [k]
    pairs of sane values. *)

Definition sane (v : float64) : Prop := zb 2048 v.

Definition weight_ok (w : float64) : Prop := zb 1 w /\ nonneg w /\ (w = f0 \/ fleb fhalf w = true).

Lemma ProvenanceWeight_ok t : weight_ok (ProvenanceWeight t).
Proof.
  unfold ProvenanceWeight, weight_ok. rewrite <- zb_check_spec.
  simp_if; (split; [vm_compute; reflexivity|split; [reflexivity|]]); auto; right; reflexivity.
Qed.

Record cont_inv (k : Z) (c : Continuous) : Prop := {
  ci_n : n c = k;
  ci_w : zb k (sumWeight c);
  ci_w_pos : nonneg (sumWeight c);
  ci_w_half : fltb f0 (sumWeight c) = true -> fleb fhalf (sumWeight c) = true;
  ci_w2 : zb k (sumWeightSqrd c);
  ci_w2_pos : nonneg (sumWeightSqrd c);
  ci_abs : zb (4096 * k) (sumWeightAbs c);
  ci_abs_pos : nonneg (sumWeightAbs c);
  ci_err : zb (4096 * k) (sumWeightErr c);
  ci_sq : zb (16777216 * k) (sumWeightSq c);
}.

Lemma zb_zero A : 0 <= A -> zb A f0.
Proof. intros H. apply (zb_weaken 0); [assumption|]. repeat split; cbn; lia. Qed.

Lemma cont_inv_zero : cont_inv 0 Continuous_zero.
Proof. constructor; try reflexivity; try (apply zb_zero; lia); discriminate. Qed.

(** Adding a weight keeps the total zero or at least one half. *)
Lemma weight_total_half A s w :
  zb A s -> nonneg s -> (fltb f0 s = true -> fleb fhalf s = true) -> weight_ok w ->
  fltb f0 (s + w)%f64 = true -> fleb fhalf (s + w)%f64 = true.
Proof.
  intros (Fs & Vs & _) Ns Hs ((Fw & Vw & _) & Nw & [->|Hw]) H.
  - destruct (fltb f0 s) eqn:E.
    + apply fleb_trans with s; [now apply Hs|]. now apply fadd_upper.
    + apply nonneg_shape in Ns as [->|[[b ->]|(m & e & ->)]]; try discriminate.
      destruct b; discriminate.
  - destruct (fltb f0 s) eqn:E.
    + apply fleb_trans with s; [now apply Hs|]. now apply fadd_upper.
    + apply nonneg_shape in Ns as [->|[[b ->]|(m & e & ->)]]; try discriminate.
      destruct w as [[]|[]| |[]]; try discriminate; assumption.
Qed.

Lemma cont_inv_add k c f o w :
  cont_inv k c -> 0 <= k < 2 ^ 28 -> sane f -> sane o -> weight_ok w ->
  cont_inv (k + 1) (Continuous_Add c f o w).
Proof.
  intros [] Hk Hf Ho Hw. pose proof Hw as (Zw & Nw & _).
  assert (He : zb 4096 (f - o)%f64) by (change 4096 with (2048 + 2048); apply zb_sub; auto; lia).
  assert (Ha : zb 4096 (fabs (f - o)%f64)) by now apply zb_abs.
  assert (Hwe : zb (1 * 4096) (w * (f - o))%f64) by (apply zb_mul; auto; lia).
  assert (Hwa : zb (1 * 4096) (w * fabs (f - o))%f64) by (apply zb_mul; auto; lia).
  assert (Hw2 : zb (1 * 1) (w * w)%f64) by (apply zb_mul; auto; lia).
  assert (Hwee : zb (1 * 4096 * 4096) (w * (f - o) * (f - o))%f64) by (apply zb_mul; auto; lia).
  assert (Na : nonneg (fabs (f - o)%f64)) by (apply fabs_nonneg; now apply (zb_not_nan 4096)).
  assert (Nw2 : nonneg (w * w)%f64) by (apply fmul_nonneg; auto; now apply (zb_valid 1) || now apply (zb_finite 1)).
  assert (Nwa : nonneg (w * fabs (f - o))%f64).
  { apply fmul_nonneg; auto; [apply Zw|apply Ha|apply Zw|apply Ha]. }
  constructor; cbn [n sumWeight sumWeightSqrd sumWeightAbs sumWeightErr sumWeightSq Continuous_Add].
  - lia.
  - apply zb_add; auto; lia.
  - now apply fadd_nonneg.
  - eapply weight_total_half; eauto.
  - apply zb_add; auto; lia.
  - now apply fadd_nonneg.
  - replace (4096 * (k + 1)) with (4096 * k + 1 * 4096) by lia. apply zb_add; auto; lia.
  - now apply fadd_nonneg.
  - replace (4096 * (k + 1)) with (4096 * k + 1 * 4096) by lia. apply zb_add; auto; lia.
  - replace (16777216 * (k + 1)) with (16777216 * k + 1 * 4096 * 4096) by lia. apply zb_add; auto; lia.
Qed.
End Eval.
