(* ===== verification/EvalProps.v ===== *)
(** * Correctness of the evaluation kernel

    The invariants of the three accumulators of [Eval] under any sequence of
    matched pairs, and what they give: every metric is null exactly on a zero
    denominator and is otherwise a finite number of its range, and every
    interval brackets its value, so the rows built from them pass the CHECK
    constraints of [accuracy_metrics].  The continuous metrics are the weighted
    formulas of the methodology, evaluated in the order of the pairs. *)

From Stdlib Require Import ZArith Lia Bool String.
From Stdlib Require Import SpecFloat.
From stdpp Require Import base list strings.
From S2P Require Import Prelude Float64 Float64Round Eval.

Import Eval.
Local Open Scope Z_scope.

Module EvalProps.

(** ** Totals of provenance weights *)

(** [amount k x]: [x] is a sum of weights bounded by [k]: finite, non-negative,
    and zero or at least one half. *)
Record amount (k : Z) (x : float64) : Prop := {
  am_zb : zb k x;
  am_nonneg : nonneg x;
  am_half : fltb f0 x = true -> fleb fhalf x = true;
}.

Lemma amount_weight w : weight_ok w -> amount 1 w.
Proof. intros (Z & N & [->|H]); constructor; auto; discriminate. Qed.

Lemma amount_zero k : 0 <= k -> amount k f0.
Proof. intros H; constructor; [now apply zb_zero|reflexivity|discriminate]. Qed.

Lemma amount_weaken j k x : j <= k -> amount j x -> amount k x.
Proof. intros H []; constructor; auto. now apply (zb_weaken j). Qed.

Lemma amount_add a b x y :
  0 <= a -> 0 <= b -> a + b < 2 ^ 53 -> amount a x -> amount b y -> amount (a + b) (x + y)%f64.
Proof.
  intros Ha Hb Hab [Zx Nx Hx] [Zy Ny Hy]. constructor; [now apply zb_add|now apply fadd_nonneg|].
  intros P. pose proof Zx as (Fx & Vx & _). pose proof Zy as (Fy & Vy & _).
  destruct (fltb f0 x) eqn:E.
  - apply fleb_trans with x; [now apply Hx|now apply fadd_upper].
  - destruct (fltb f0 y) eqn:E'.
    + rewrite fadd_comm. apply fleb_trans with y; [now apply Hy|now apply fadd_upper].
    + apply nonneg_shape in Nx as [->|[[s ->]|(m & e & ->)]]; try discriminate.
      apply nonneg_shape in Ny as [->|[[s' ->]|(m & e & ->)]]; try discriminate.
      destruct s, s'; discriminate.
Qed.

Lemma amount_finite k x : amount k x -> is_finite x = true.
Proof. intros []; now apply (zb_finite k). Qed.

Lemma amount_valid k x : amount k x -> valid x = true.
Proof. intros []; now apply (zb_valid k). Qed.

Lemma amount_pos k x : amount k x -> feqb x f0 = false -> fltb f0 x = true.
Proof.
  intros [_ N _] H. apply nonneg_shape in N as [->|[[s ->]|(m & e & ->)]]; try reflexivity; destruct s; discriminate.
Qed.

Lemma amount_pos_f k x : amount k x -> fltb f0 x = true -> exists m e, x = S754_finite false m e.
Proof.
  intros A P. apply fltb_pos in P as [->|P]; [|assumption]. now apply amount_finite in A.
Qed.

Lemma amount_le_add k j x y : amount k x -> amount j y -> fleb x (x + y)%f64 = true.
Proof. intros A B. apply fadd_upper; [eapply amount_finite|eapply amount_valid|apply B]; eauto. Qed.

Lemma amount_mono_l a b c x x' y :
  amount a x -> amount b x' -> amount c y -> fleb x x' = true -> fleb (x + y)%f64 (x' + y)%f64 = true.
Proof.
  intros A B C. apply fadd_mono_l; eauto using amount_finite, amount_valid; [apply A|apply C].
Qed.

#[export] Hint Resolve amount_finite amount_valid : fiq.

(** The common shape of every proportion: [ratio] is null exactly on a zero
    denominator and lies in the unit interval otherwise. *)
Lemma ratio_unit k num d :
  amount k d -> valid num = true -> nonneg num -> fleb num d = true ->
  match ratio num d with
  | None => feqb d f0 = true
  | Some v => unit_interval v /\ fleb fhalf d = true
  end.
Proof.
  intros A V N L. unfold ratio. destruct (feqb d f0) eqn:E; [reflexivity|].
  pose proof (amount_pos _ _ A E) as P. split; [split; [apply fdiv_valid|split]|now apply A].
  - apply fdiv_nonneg; auto. apply (fleb_finite num d); eauto with fiq.
  - apply fdiv_le_1; eauto with fiq.
Qed.

(** ** Continuous metrics *)

(** The pairs a metric accumulates: forecast, observed, provenance. *)
Definition Pair : Type := float64 * float64 * string.

Definition pair_sane (p : Pair) : Prop := sane p.1.1 /\ sane p.1.2.

Definition accumulate (ps : list Pair) : Continuous :=
  fold_left (fun c p => Continuous_Add c p.1.1 p.1.2 (ProvenanceWeight p.2)) ps Continuous_zero.

(** [w*e*e] has the sign of a square. *)
Lemma weighted_square_nonneg w e :
  zb 1 w -> nonneg w -> zb 4096 e -> nonneg (w * e * e)%f64.
Proof.
  intros Zw Nw Ze.
  assert (Zwe : zb (1 * 4096) (w * e)%f64) by (apply zb_mul; auto; lia).
  destruct (fleb f0 e) eqn:E.
  - pose proof (zb_valid _ _ Zwe). pose proof (zb_finite _ _ Zwe). pose proof (zb_valid _ _ Zw).
    pose proof (zb_finite _ _ Zw). pose proof (zb_valid _ _ Ze). pose proof (zb_finite _ _ Ze).
    apply fmul_nonneg; auto. now apply fmul_nonneg.
  - assert (No : nonneg (fopp e)).
    { pose proof (zb_not_nan _ _ Ze). destruct e as [[]|[]| |[] m x]; try discriminate; reflexivity. }
    pose proof (zb_opp _ _ Ze) as Zo.
    assert (nonneg (w * fopp e * fopp e)%f64) as K.
    { apply fmul_nonneg; eauto using zb_valid, zb_finite.
      - apply (zb_valid (1 * 4096)), zb_mul; auto; lia.
      - apply (zb_finite (1 * 4096)), zb_mul; auto; lia.
      - apply fmul_nonneg; eauto using zb_valid, zb_finite. }
    rewrite (fmul_opp_r w e) in K by (eauto using zb_valid, zb_finite).
    rewrite fmul_opp_l, fmul_opp_r, fopp_involutive in K by (eauto using zb_valid, zb_finite). exact K.
Qed.

Record cont_full (k : Z) (c : Continuous) : Prop := {
  cf_inv : cont_inv k c;
  cf_sq_nonneg : nonneg (sumWeightSq c);
}.

Lemma cont_full_add k c f o w :
  cont_full k c -> 0 <= k < 2 ^ 28 -> sane f -> sane o -> weight_ok w ->
  cont_full (k + 1) (Continuous_Add c f o w).
Proof.
  intros [I S] Hk Hf Ho Hw. constructor; [now apply cont_inv_add|]. cbn [sumWeightSq Continuous_Add].
  apply fadd_nonneg; [assumption|]. destruct Hw as (Zw & Nw & _). apply weighted_square_nonneg; auto.
  change 4096 with (2048 + 2048). apply zb_sub; auto; lia.
Qed.

(** The invariant holds after every sequence of pairs. *)
Lemma accumulate_inv ps :
  Forall pair_sane ps -> Z.of_nat (length ps) <= 2 ^ 28 ->
  cont_full (Z.of_nat (length ps)) (accumulate ps).
Proof.
  induction ps as [|p ps IH] using rev_ind; intros F L.
  - constructor; [apply cont_inv_zero|reflexivity].
  - apply Forall_app in F as [F Fp]. apply Forall_inv in Fp as [Hf Ho].
    rewrite length_app in L |- *. cbn [length] in *. unfold accumulate. rewrite fold_left_app. cbn [fold_left].
    rewrite Nat2Z.inj_add. apply cont_full_add; auto; [apply IH; auto; lia|lia|apply ProvenanceWeight_ok].
Qed.

Lemma cont_amount k c : cont_inv k c -> amount k (sumWeight c).
Proof. intros []; constructor; auto. Qed.

(** What a non-null continuous metric looks like. *)
Lemma cont_values k c :
  cont_full k c -> k <= 2 ^ 28 -> feqb (sumWeight c) f0 = false ->
  exists m r b, MAE c = Some m /\ RMSE c = Some r /\ Bias c = Some b /\
    (valid m = true /\ is_finite m = true /\ nonneg m) /\
    (valid r = true /\ is_finite r = true /\ nonneg r) /\
    (valid b = true /\ is_finite b = true).
Proof.
  intros [I S] K E. unfold MAE, RMSE, Bias. rewrite E.
  pose proof (cont_amount _ _ I) as A. pose proof (amount_pos _ _ A E) as P.
  pose proof (am_half _ _ A P) as Hh. pose proof (amount_valid _ _ A) as Vw.
  destruct (amount_pos_f _ _ A P) as (mw & ew & Ew). destruct I. rewrite Ew in *.
  assert (0 <= k).
  { destruct ci_w0 as (_ & _ & B). assert (0 < 2 ^ 1074) by (vm_compute; reflexivity). nia. }
  eexists _, _, _. split; [reflexivity|]. split; [reflexivity|]. split; [reflexivity|].
  assert (Fs : is_finite (sumWeightSq c / S754_finite false mw ew)%f64 = true)
    by (apply (fdiv_finite (16777216 * k)); auto; lia).
  assert (Ns : nonneg (sumWeightSq c / S754_finite false mw ew)%f64) by now apply nonneg_div_pos.
  repeat split; try apply fdiv_valid.
  - apply (fdiv_finite (4096 * k)); auto; lia.
  - now apply nonneg_div_pos.
  - apply fsqrt_valid, fdiv_valid.
  - apply fsqrt_finite; auto. apply fdiv_valid.
  - now apply fsqrt_nonneg.
  - apply (fdiv_finite (4096 * k)); auto; lia.
Qed.

(** The null metrics, together. *)
Lemma cont_null c : feqb (sumWeight c) f0 = true -> MAE c = None /\ RMSE c = None /\ Bias c = None.
Proof. intros E. unfold MAE, RMSE, Bias. now rewrite E. Qed.

(** An optional interval brackets an optional value. *)
Definition brackets (v : option float64) (ci : option float64 * option float64) : Prop :=
  match v, ci with
  | _, (None, None) => True
  | Some m, (Some lo, Some hi) => fleb lo m = true /\ fleb m hi = true
  | _, _ => False
  end.

Lemma moments_bracket k m x x2 w w2 :
  0 <= k <= 2 ^ 28 -> zb (4096 * k) x -> zb (16777216 * k) x2 -> zb k w -> zb k w2 -> nonneg w2 ->
  valid m = true -> is_finite m = true -> brackets (Some m) (ciFromMoments m x x2 w w2 k).
Proof.
  intros Hk Zx Zx2 Zw Zw2 N2 V F.
  destruct (ciFromMoments_both m x x2 w w2 k) as [->|(lo & hi & E)]; [exact I|].
  assert (Fx : is_finite (x * x)%f64 = true) by (apply (fmul_finite (4096 * k) (4096 * k)); auto; lia).
  rewrite E. apply (ciFromMoments_brackets m x x2 w w2 k); eauto using zb_finite, zb_valid. lia.
Qed.

Lemma cont_intervals k c :
  cont_full k c -> k <= 2 ^ 28 ->
  brackets (MAE c) (MAECI c) /\ brackets (RMSE c) (RMSECI c) /\ brackets (Bias c) (BiasCI c).
Proof.
  intros Hc K. destruct (feqb (sumWeight c) f0) eqn:E.
  - apply cont_null in E as (A & B & C). unfold MAECI, RMSECI, BiasCI. rewrite A, B, C. cbn. auto.
  - destruct (cont_values k c Hc K E) as (m & r & b & Em & Er & Eb & (? & ? & ?) & (? & ? & ?) & (? & ?)).
    destruct Hc as [[] _]. unfold MAECI, RMSECI, BiasCI. rewrite Em, Er, Eb, ci_n0.
    assert (0 <= k).
    { destruct ci_w0 as (_ & _ & B). assert (0 < 2 ^ 1074) by (vm_compute; reflexivity). nia. }
    repeat split; apply moments_bracket; auto.
Qed.

(** ** Categorical metrics *)

Record conf_inv (k : Z) (c : Confusion) : Prop := {
  cf_tp : amount k (TP c); cf_fp : amount k (FP c); cf_fn : amount k (FN c); cf_tn : amount k (TN c);
}.

Lemma conf_inv_zero : conf_inv 0 Confusion_zero.
Proof. constructor; now apply amount_zero. Qed.

Lemma conf_inv_add k c f o w :
  conf_inv k c -> 0 <= k < 2 ^ 50 -> weight_ok w -> conf_inv (k + 1) (Confusion_Add c f o w).
Proof.
  intros [] K W. assert (2 ^ 50 + 1 < 2 ^ 53) by reflexivity.
  destruct f, o; constructor; cbn; try (apply (amount_weaken k); [lia|assumption]);
    apply amount_add; auto using amount_weight; lia.
Qed.

Section Proportions.
Context (k : Z) (c : Confusion) (I : conf_inv k c) (K : 0 <= k <= 2 ^ 50).

Lemma bounds_2_50 : 2 ^ 50 * 4 < 2 ^ 53.
Proof. reflexivity. Qed.

Lemma two_amount_le x : amount k x -> valid (f2 * x)%f64 = true /\ amount (2 * k) (f2 * x)%f64.
Proof.
  intros A. pose proof bounds_2_50. assert (Z2 : zb 2 f2) by (rewrite <- zb_check_spec; reflexivity).
  assert (Zm : zb (2 * k) (f2 * x)%f64) by (apply zb_mul; auto; [lia..|apply A]).
  split; [now apply (zb_valid (2 * k))|]. constructor; [assumption| |].
  - apply fmul_nonneg; eauto with fiq; try reflexivity. apply A.
  - intros P. destruct (feqb x f0) eqn:E.
    { destruct A as [_ N _]. apply nonneg_shape in N as [->|[[[] ->]|(m & e & ->)]]; discriminate. }
    pose proof (amount_pos _ _ A E) as Px. pose proof (am_half _ _ A Px) as Hh.
    pose proof (amount_valid _ _ A) as V. destruct (amount_pos_f _ _ A Px) as (m & e & ->).
    apply valid_finite in V as [C B]. pose proof (canonical_bounds _ _ C) as (_ & Hlo & _).
    change fhalf with (S754_finite false 4503599627370496 (-53)) in Hh |- *.
    change f2 with (S754_finite false 4503599627370496 (-51)).
    apply fmul_pos_lower; try (split; reflexivity); try assumption.
    pose proof (canonical_value _ _ _ _ (-1074)
      (conj eq_refl eq_refl : canonical 4503599627370496 (-53)) C ltac:(lia) Hlo Hh) as V.
    replace (-51 + e + 2200) with (1075 + (e - -1074)) by lia. rewrite (Z.pow_add_r 2 1075) by lia.
    rewrite <- Z.mul_assoc.
    replace (Zpos m * (2 ^ 1075 * 2 ^ (e - -1074))) with (2 ^ 1075 * (Zpos m * 2 ^ (e - -1074))) by ring.
    apply Z.le_trans with (4503599627370496 * (2 ^ 1075 * (4503599627370496 * 2 ^ (-53 - -1074)))).
    + vm_compute. discriminate.
    + apply Z.mul_le_mono_nonneg_l; [lia|]. apply Z.mul_le_mono_nonneg_l; [|exact V].
      apply Z.pow_nonneg; lia.
Qed.

Lemma sum2_amount x y : amount k x -> amount k y -> amount (2 * k) (x + y)%f64.
Proof. intros. pose proof bounds_2_50. replace (2 * k) with (k + k) by lia. apply amount_add; auto; lia. Qed.

Lemma sum3_amount x y z :
  amount k x -> amount k y -> amount k z -> amount (3 * k) (x + y + z)%f64.
Proof.
  intros. pose proof bounds_2_50. replace (3 * k) with (2 * k + k) by lia.
  apply amount_add; auto using sum2_amount; lia.
Qed.

Lemma proportion2 x y : amount k x -> amount k y ->
  match ratio x (x + y)%f64 with
  | None => feqb (x + y)%f64 f0 = true
  | Some v => unit_interval v /\ fleb fhalf (x + y)%f64 = true
  end.
Proof.
  intros X Y. eapply ratio_unit; eauto using sum2_amount with fiq; [apply X|].
  now apply (amount_le_add k k).
Qed.

Lemma threat_score_unit :
  match ThreatScore c with
  | None => feqb (TP c + FP c + FN c)%f64 f0 = true
  | Some v => unit_interval v /\ fleb fhalf (TP c + FP c + FN c)%f64 = true
  end.
Proof.
  destruct I. eapply ratio_unit; eauto using sum3_amount with fiq; [apply cf_tp0|].
  apply fleb_trans with (TP c + FP c)%f64; [now apply (amount_le_add k k)|].
  apply (amount_le_add (2 * k) k); auto using sum2_amount.
Qed.

Lemma f1_unit :
  match F1 c with
  | None => feqb (f2 * TP c + FP c + FN c)%f64 f0 = true
  | Some v => unit_interval v /\ fleb fhalf (f2 * TP c + FP c + FN c)%f64 = true
  end.
Proof.
  destruct I. pose proof bounds_2_50. destruct (two_amount_le (TP c) cf_tp0) as [V2 A2].
  assert (A3 : amount (2 * k + k) (f2 * TP c + FP c)%f64) by (apply amount_add; auto; lia).
  assert (A4 : amount (2 * k + k + k) (f2 * TP c + FP c + FN c)%f64) by (apply amount_add; auto; lia).
  apply (ratio_unit _ _ _ A4 V2); [apply A2|].
  eapply fleb_trans; [exact (amount_le_add _ _ _ _ A2 cf_fp0)|exact (amount_le_add _ _ _ _ A3 cf_fn0)].
Qed.

Lemma confusion_n_amount : amount (4 * k) (Confusion_N c).
Proof.
  destruct I. pose proof bounds_2_50. unfold Confusion_N. replace (4 * k) with (3 * k + k) by lia.
  apply amount_add; auto using sum3_amount; lia.
Qed.

Lemma agreement_unit :
  match OccurrenceAgreement c with
  | None => feqb (Confusion_N c) f0 = true
  | Some v => unit_interval v /\ fleb fhalf (Confusion_N c) = true
  end.
Proof.
  pose proof confusion_n_amount as An. destruct I. eapply ratio_unit; eauto.
  - eapply amount_valid, sum2_amount; auto.
  - apply sum2_amount; auto.
  - unfold Confusion_N. eapply (amount_mono_l k (3 * k) k); auto using sum3_amount.
    eapply fleb_trans; [eapply (amount_le_add k k)|eapply (amount_le_add (2 * k) k)]; auto using sum2_amount.
Qed.
End Proportions.

(** ** Brier score *)

Record brier_inv (k : Z) (b : Brier) : Prop := {
  bi_n : b_n b = k;
  bi_w : amount k (b_sumWeight b);
  bi_w2 : zb k (b_sumWeightSqrd b);
  bi_w2_nonneg : nonneg (b_sumWeightSqrd b);
  bi_sq : zb k (b_sumWeightSq b);
  bi_sq_nonneg : nonneg (b_sumWeightSq b);
  bi_sq_le : fleb (b_sumWeightSq b) (b_sumWeight b) = true;
  bi_quad : zb k (b_sumWeightQuad b);
}.

Lemma brier_inv_zero : brier_inv 0 Brier_zero.
Proof. constructor; try reflexivity; try (apply zb_zero; lia). now apply amount_zero. Qed.

(** A probability minus an outcome squares into the unit interval. *)
Lemma brier_term p (o : bool) :
  unit_interval p ->
  unit_interval (let d := (p - (if o then f1 else f0))%f64 in (d * d)%f64).
Proof.
  intros Hp. pose proof (unit_interval_finite p Hp) as Fp. destruct Hp as (V & N & L). destruct o.
  - destruct (one_minus_unit p V N L) as [P U].
    assert (V1 : valid (f1 - p)%f64 = true) by now apply fsub_valid.
    assert (F1' : is_finite (f1 - p)%f64 = true)
      by (apply (fleb_finite _ f1); [now apply psign_nonneg|assumption|reflexivity]).
    assert (E : ((p - f1) * (p - f1))%f64 = ((f1 - p) * (f1 - p))%f64).
    { destruct p as [[]|[]| |sp mp ep]; try discriminate; try reflexivity.
      rewrite f1_eq, !fsub_finite in *. rewrite (Z.min_comm ep).
      generalize dependent (Z.min (-52) ep). intros k.
      generalize (sval k (S754_finite sp mp ep)), (sval k (S754_finite false 4503599627370496 (-52))).
      intros a b _ _ Vq Fq. destruct (Z.eq_dec (b - a) 0) as [E0|E0].
      { replace (a - b) with 0 by lia. now rewrite E0. }
      replace (a - b) with (- (b - a)) by lia. rewrite binary_normalize_opp by lia.
      set (q := binary_normalize _ _ _ _ _) in *.
      rewrite fmul_opp_l, fmul_opp_r, fopp_involutive; auto; try now rewrite fopp_valid. now destruct q. }
    cbv zeta. rewrite E. pose proof (psign_nonneg _ P) as N1.
    split; [now apply fmul_valid|]. apply fmul_unit; auto.
  - assert ((p - f0)%f64 = p) as -> by (destruct p as [[]|[]| |[]]; try discriminate; reflexivity).
    split; [now apply fmul_valid|]. apply fmul_unit; auto.
Qed.

Lemma unit_zb u : unit_interval u -> zb 1 u.
Proof. intros (V & N & L). apply zb_nonneg_le; auto; lia. Qed.

Lemma weighted_unit w u :
  weight_ok w -> unit_interval u -> zb 1 (w * u)%f64 /\ nonneg (w * u)%f64 /\ fleb (w * u)%f64 w = true.
Proof.
  intros (Zw & Nw & _) Hu. pose proof (unit_zb u Hu) as Zu. destruct Hu as (V & N & L).
  repeat split; try (eapply (zb_mul 1 1); eauto; lia).
  - apply fmul_nonneg; eauto using zb_valid, zb_finite.
  - apply fmul_le_l; eauto using zb_valid, zb_finite.
Qed.

Lemma brier_inv_add k b p o w :
  brier_inv k b -> 0 <= k < 2 ^ 28 -> unit_interval p -> weight_ok w ->
  brier_inv (k + 1) (Brier_Add b p o w).
Proof.
  intros [] K Hp Hw. pose proof (brier_term p o Hp) as T. cbv zeta in T.
  set (d := (p - (if o then f1 else f0))%f64) in *. set (d2 := (d * d)%f64) in *.
  destruct (weighted_unit w d2 Hw T) as (Z1 & N1 & L1).
  pose proof (amount_weight w Hw) as Aw. pose proof (unit_zb _ T) as Zd. pose proof Hw as (Zw & Nw & _).
  assert (A' : amount (k + 1) (b_sumWeight b + w)%f64) by (apply amount_add; auto; lia).
  assert (Zww : zb (1 * 1) (w * w)%f64) by (apply zb_mul; auto; lia).
  constructor; cbn [Brier_Add b_n b_sumWeight b_sumWeightSqrd b_sumWeightSq b_sumWeightQuad];
    fold d; fold d2; auto.
  - lia.
  - apply zb_add; auto; lia.
  - apply fadd_nonneg; auto. apply fmul_nonneg; eauto using zb_valid, zb_finite.
  - apply zb_add; auto; lia.
  - now apply fadd_nonneg.
  - apply fleb_trans with (b_sumWeight b + w * d2)%f64.
    + apply fadd_mono_l; eauto using zb_valid, zb_finite with fiq.
    + apply fadd_mono_r; eauto using zb_valid, zb_finite with fiq. apply bi_w0.
  - apply zb_add; auto; [lia..|]. apply (zb_mul 1 1); auto; lia.
Qed.

Lemma brier_score_unit k b : brier_inv k b ->
  match Score b with None => feqb (b_sumWeight b) f0 = true | Some s => unit_interval s end.
Proof.
  intros []. pose proof (ratio_unit k (b_sumWeightSq b) (b_sumWeight b) bi_w0
    (zb_valid _ _ bi_sq0) bi_sq_nonneg0 bi_sq_le0) as R.
  unfold Score. destruct (ratio _ _); tauto.
Qed.

Lemma brier_interval k b : brier_inv k b -> 0 <= k <= 2 ^ 28 -> brackets (Score b) (ScoreCI b).
Proof.
  intros B K. pose proof (brier_score_unit k b B) as U. unfold ScoreCI.
  destruct (Score b) as [s|]; [|exact I]. pose proof (unit_interval_finite s U). destruct B, U as (V & _).
  rewrite bi_n0. apply moments_bracket; auto.
  - apply (zb_weaken k); [lia|assumption].
  - apply (zb_weaken k); [lia|assumption].
  - apply bi_w0.
Qed.

(** ** Runs over lists of pairs *)

(** A rain pair: forecast rain, observed rain, provenance. *)
Definition classify (ps : list (bool * bool * string)) : Confusion :=
  fold_left (fun c p => Confusion_Add c p.1.1 p.1.2 (ProvenanceWeight p.2)) ps Confusion_zero.

Lemma classify_inv ps :
  Z.of_nat (length ps) <= 2 ^ 50 -> conf_inv (Z.of_nat (length ps)) (classify ps).
Proof.
  induction ps as [|p ps IH] using rev_ind; intros L; [apply conf_inv_zero|].
  rewrite length_app in L |- *. cbn [length] in *. unfold classify. rewrite fold_left_app. cbn [fold_left].
  rewrite Nat2Z.inj_add. apply conf_inv_add; [apply IH; lia|lia|apply ProvenanceWeight_ok].
Qed.

Definition brier_run (ps : list (float64 * bool * string)) : Brier :=
  fold_left (fun b p => Brier_Add b p.1.1 p.1.2 (ProvenanceWeight p.2)) ps Brier_zero.

Lemma brier_run_inv ps :
  Forall (fun p => unit_interval p.1.1) ps -> Z.of_nat (length ps) <= 2 ^ 28 ->
  brier_inv (Z.of_nat (length ps)) (brier_run ps).
Proof.
  induction ps as [|p ps IH] using rev_ind; intros F L; [apply brier_inv_zero|].
  apply Forall_app in F as [F Fp]. apply Forall_inv in Fp.
  rewrite length_app in L |- *. cbn [length] in *. unfold brier_run. rewrite fold_left_app. cbn [fold_left].
  rewrite Nat2Z.inj_add. apply brier_inv_add; auto; [apply IH; auto; lia|lia|apply ProvenanceWeight_ok].
Qed.

(** ** Theorems *)

(** A metric value of the continuous kind: a finite float. *)
Definition finite_value (v : option float64) : Prop :=
  match v with Some x => valid x = true /\ is_finite x = true | None => True end.

(** *** The methodology's formulas *)

Definition published_weights : list (string * float64) :=
  [("station_observation", f64_of_Z 1); ("interpolated", f64_lit 8 10); ("reanalysis", f64_lit 8 10); ("provider_estimated", f64_lit 5 10)]%string.

Definition published_weight (t : string) : option float64 := snd <$> List.find (fun x => String.eqb x.1 t) published_weights.

(** The error of a pair and its weight. *)
Definition err (p : Pair) : float64 := (p.1.1 - p.1.2)%f64.
Definition weight (p : Pair) : float64 := default f0 (published_weight p.2).

(** Sums in the order of the pairs. *)
Definition total (g : Pair -> float64) (ps : list Pair) : float64 := foldl (fun s p => s + g p)%f64 f0 ps.

(** [Σ w|e| / Σ w], [√(Σ w e² / Σ w)] and [Σ w e / Σ w]. *)
Definition weighted_mae (ps : list Pair) : float64 := (total (fun p => weight p * fabs (err p)) ps / total weight ps)%f64.
Definition weighted_rmse (ps : list Pair) : float64 := fsqrt (total (fun p => weight p * err p * err p) ps / total weight ps)%f64.
Definition weighted_bias (ps : list Pair) : float64 := (total (fun p => weight p * err p) ps / total weight ps)%f64.

(** A pair of physically possible values with one of the published types. *)
Definition pair_known (p : Pair) : Prop := pair_sane p /\ is_Some (published_weight p.2).

Lemma published_ok t : is_Some (published_weight t) -> fleb fhalf (default f0 (published_weight t)) = true /\ ProvenanceWeight t = default f0 (published_weight t).
Proof.
  unfold published_weight, published_weights, ProvenanceWeight, StationObservation, Interpolated, Reanalysis, ProviderEstimated. cbn [List.find fst].
  rewrite (String.eqb_sym t), (String.eqb_sym t), (String.eqb_sym t), (String.eqb_sym t).
  repeat destruct (String.eqb _ t); try (split; reflexivity). intros [x E]. discriminate.
Qed.

Lemma total_snoc g ps p : total g (ps ++ [p]) = (total g ps + g p)%f64.
Proof. unfold total. now rewrite foldl_app. Qed.

Lemma accumulate_snoc ps p : accumulate (ps ++ [p]) = Continuous_Add (accumulate ps) p.1.1 p.1.2 (ProvenanceWeight p.2).
Proof. unfold accumulate. now rewrite fold_left_app. Qed.

(** One pass accumulates the sums of the formulas. *)
Lemma accumulate_totals ps : Forall pair_known ps ->
  let c := accumulate ps in
  sumWeight c = total weight ps /\ sumWeightAbs c = total (fun p => weight p * fabs (err p))%f64 ps /\
  sumWeightErr c = total (fun p => weight p * err p)%f64 ps /\ sumWeightSq c = total (fun p => weight p * err p * err p)%f64 ps.
Proof.
  induction ps as [|p ps IH] using rev_ind; intros F; [repeat split|]. apply Forall_app in F as [F [_ Kp]%Forall_inv].
  destruct (IH F) as (E1 & E2 & E3 & E4). destruct (published_ok _ Kp) as [_ W]. fold (weight p) in W.
  rewrite !total_snoc, <- E1, <- E2, <- E3, <- E4. rewrite accumulate_snoc, W. repeat split.
Qed.

(** The total weight vanishes only without pairs. *)
Lemma total_weight_pos ps : Forall pair_known ps -> Z.of_nat (length ps) <= 2 ^ 28 -> ps <> [] -> feqb (sumWeight (accumulate ps)) f0 = false.
Proof.
  intros F L N. destruct ps as [|p ps _] using rev_ind; [contradiction|]. apply Forall_app in F as [F [Sp Kp]%Forall_inv].
  rewrite length_app in L. cbn [length] in L. rewrite accumulate_snoc. cbn [sumWeight Continuous_Add].
  destruct (published_ok _ Kp) as [Hh W]. rewrite <- W in Hh. clear W.
  assert (I : cont_full (Z.of_nat (length ps)) (accumulate ps)).
  { apply accumulate_inv; [|lia]. eapply Forall_impl; [exact F|]. now intros q []. }
  destruct I as [I _]. pose proof (cont_amount _ _ I) as A. pose proof (amount_weight _ (ProvenanceWeight_ok p.2)) as B.
  pose proof (amount_le_add _ _ _ _ B A) as U. rewrite fadd_comm in U. pose proof (fleb_trans _ _ _ Hh U) as P.
  destruct (sumWeight (accumulate ps) + ProvenanceWeight p.2)%f64 as [[]|[]| |[]]; try discriminate P; reflexivity.
Qed.

(** *** Forecasts on one side *)

Lemma fsub_side x y : sane x -> sane y ->
  (fleb y x = true -> fleb f0 (x - y)%f64 = true) /\ (fleb x y = true -> fleb (x - y)%f64 f0 = true).
Proof.
  intros (Fx & Vx & _) (Fy & Vy & _). pose proof (fexpo_kmin x Vx) as Kx. pose proof (fexpo_kmin y Vy) as Ky.
  split; intros L; pose proof L as S; apply fleb_sval in S; auto;
    (destruct x as [sx| | |sx mx ex]; try discriminate); (destruct y as [sy| | |sy my ey]; try discriminate);
    try (destruct sx, sy; (reflexivity || discriminate L)); try (destruct sx; (reflexivity || discriminate L)); try (destruct sy; (reflexivity || discriminate L)).
  all: cbn [fexpo] in Kx, Ky; rewrite fsub_finite; set (k := Z.min ex ey);
    rewrite <- (sval_scale k (S754_finite sx mx ex)), <- (sval_scale k (S754_finite sy my ey)) in S by (cbn [fexpo]; lia);
    assert (P : 0 < 2 ^ (k - kmin)) by (apply Z.pow_pos_nonneg; lia);
    assert (Q : 0 < 2 ^ (k - Z.min k 0)) by (apply Z.pow_pos_nonneg; lia).
  - apply (normalize_lower _ _ _ f0 (Z.min k 0)); try reflexivity; [lia|change (fexpo f0) with 0; lia|]. change (sval _ f0) with 0.
    apply Zmult_le_reg_r in S; [|lia]. apply Z.mul_nonneg_nonneg; lia.
  - apply (normalize_upper _ _ _ f0 (Z.min k 0)); try reflexivity; [lia|change (fexpo f0) with 0; lia|]. change (sval _ f0) with 0.
    apply Zmult_le_reg_r in S; [|lia]. apply Z.mul_nonpos_nonneg; lia.
Qed.

(** The sum of the errors against that of their sizes. *)
Lemma add_same_sign a w e : psign a -> weight_ok w -> zb 4096 e -> fleb f0 e = true -> (a + w * e)%f64 = (a + w * fabs e)%f64.
Proof.
  intros Pa (Zw & Nw & Hw) Ze E. apply nonneg_shape in E as [->|[[s ->]|(m & x & ->)]]; [reflexivity| |reflexivity].
  apply nonneg_shape in Nw as [->|[[s' ->]|(m & x & ->)]]; destruct Zw as (Fw & _), Pa as [->|[->|(m' & e' & ->)]], s; try discriminate; try destruct s'; reflexivity.
Qed.

Lemma fadd_opp_psign x y : psign x -> psign y -> fadd (fopp x) (fopp y) = fopp (fadd x y).
Proof.
  intros [->|[->|(m & e & ->)]] [->|[->|(m' & e' & ->)]]; try reflexivity.
  change (fopp (pos_f m e)) with (S754_finite true m e). change (fopp (pos_f m' e')) with (S754_finite true m' e'). rewrite !fadd_finite.
  rewrite <- binary_normalize_opp.
  - f_equal. cbn. lia.
  - pose proof (sval_pos (Z.min e e') m e ltac:(lia)). pose proof (sval_pos (Z.min e e') m' e' ltac:(lia)). lia.
Qed.

(** [s] is the negation of the sign-clear [a], up to the sign of zero. *)
Definition mirrors (s a : float64) : Prop := s = fopp a \/ (s = f0 /\ a = f0).

Lemma weight_psign w : weight_ok w -> psign w.
Proof. intros (_ & N & [->|Hh]); [now left|]. destruct w as [[]|[]| |[] m e]; try discriminate; [right; now left|right; right; eauto]. Qed.

Lemma mul_mirrors w e : weight_ok w -> zb 4096 e -> fleb e f0 = true -> psign (w * fabs e)%f64 /\
  ((w * e)%f64 = fopp (w * fabs e)%f64 \/ ((w * fabs e)%f64 = f0 /\ exists s, (w * e)%f64 = S754_zero s)).
Proof.
  intros W Ze E. pose proof (weight_psign w W) as Pw. destruct W as ((Fw & Vw & _) & _), Ze as (Fe & Ve & _).
  assert (Pe : psign (fabs e)) by (destruct e as [[]|[]| |[] m x]; try discriminate; [now left..|right; right; eauto]).
  split; [apply psign_mul; auto; [now rewrite fabs_valid|now destruct e]|]. destruct e as [s|[]| |[] m x]; try discriminate.
  - right. destruct Pw as [->|[->|(m & x & ->)]]; [|discriminate|]; (split; [reflexivity|]); destruct s; eexists; reflexivity.
  - left. change (S754_finite true m x) with (fopp (pos_f m x)). now rewrite fmul_opp_r.
Qed.

Lemma add_mirrors s a t b : psign a -> mirrors s a -> psign b -> t = fopp b \/ (b = f0 /\ exists z, t = S754_zero z) -> mirrors (s + t)%f64 (a + b)%f64.
Proof.
  intros Pa M Pb T. destruct M as [->|[-> ->]], T as [->|[-> [z ->]]].
  - left. now apply fadd_opp_psign.
  - destruct Pa as [->|[->|(m & e & ->)]], z; ((left; reflexivity) || (right; split; reflexivity)).
  - destruct Pb as [->|[->|(m & e & ->)]]; ((right; split; reflexivity) || (left; reflexivity)).
  - right. destruct z; split; reflexivity.
Qed.

(** The sum of the errors when no forecast is too low, and when none is too high. *)
Lemma one_sided ps : Forall pair_known ps ->
  let c := accumulate ps in
  psign (sumWeightAbs c) /\
  (Forall (fun p => fleb p.1.2 p.1.1 = true) ps -> sumWeightErr c = sumWeightAbs c) /\
  (Forall (fun p => fleb p.1.1 p.1.2 = true) ps -> mirrors (sumWeightErr c) (sumWeightAbs c)).
Proof.
  induction ps as [|p ps IH] using rev_ind; intros F; [split; [now left|split; [reflexivity|right; split; reflexivity]]|].
  apply Forall_app in F as [F [[Sf So] _]%Forall_inv]. destruct (IH F) as (Pa & I1 & I2). cbv zeta. rewrite accumulate_snoc.
  cbn [sumWeightAbs sumWeightErr Continuous_Add]. set (w := ProvenanceWeight p.2). pose proof (ProvenanceWeight_ok p.2 : weight_ok w) as W.
  assert (Ze : zb 4096 (p.1.1 - p.1.2)%f64) by (change 4096 with (2048 + 2048); apply zb_sub; auto; lia).
  destruct (fsub_side _ _ Sf So) as [S1 S2].
  assert (Nb : nonneg (w * fabs (p.1.1 - p.1.2))%f64).
  { destruct W as ((Fw & Vw & _) & Nw & _), Ze as (Fe & Ve & _).
    apply fmul_nonneg; auto; [now rewrite fabs_valid|now destruct (p.1.1 - p.1.2)%f64|]. apply fabs_nonneg. now destruct (p.1.1 - p.1.2)%f64. }
  split; [now apply psign_add|]. split; intros [Fp Lp%Forall_inv]%Forall_app.
  - rewrite (I1 Fp). apply add_same_sign; auto.
  - destruct (mul_mirrors w _ W Ze (S2 Lp)) as [Pb M]. now apply add_mirrors; auto.
Qed.

Lemma feqb_same x : is_nan x = false -> feqb x x = true.
Proof. intros N. destruct x as [[]|[]| |[] m e]; try discriminate; try reflexivity; apply feqb_key; auto. Qed.

(** C32: the continuous metrics of any sequence of at most 2^28 pairs of physically
    possible values with a published observation type.  Without pairs MAE, RMSE and bias
    are null together.  Otherwise they are the formulas of the methodology, MAE
    [Σ w|e| / Σ w], RMSE [√(Σ w e² / Σ w)] and bias [Σ w e / Σ w], with [e] the forecast
    less the observation and the published weights (1 for a station, 0.8 interpolated or
    reanalysed, 0.5 estimated by the provider), evaluated in binary64 in the order of
    the pairs.  They are finite, MAE and RMSE are not negative, and each confidence
    interval, when there is one, brackets its value.  The bias is MAE when no forecast
    is too low, and minus MAE when none is too high. *)
Theorem continuous_metrics_sound ps :
  Forall pair_known ps -> Z.of_nat (length ps) <= 2 ^ 28 ->
  let c := accumulate ps in
  (ps = [] -> MAE c = None /\ RMSE c = None /\ Bias c = None) /\
  (ps <> [] -> MAE c = Some (weighted_mae ps) /\ RMSE c = Some (weighted_rmse ps) /\ Bias c = Some (weighted_bias ps)) /\
  finite_value (MAE c) /\ finite_value (RMSE c) /\ finite_value (Bias c) /\
  (forall m, MAE c = Some m -> fleb f0 m = true) /\ (forall r, RMSE c = Some r -> fleb f0 r = true) /\
  brackets (MAE c) (MAECI c) /\ brackets (RMSE c) (RMSECI c) /\ brackets (Bias c) (BiasCI c) /\
  (Forall (fun p => fleb p.1.2 p.1.1 = true) ps -> Bias c = MAE c) /\
  (Forall (fun p => fleb p.1.1 p.1.2 = true) ps -> forall m b, MAE c = Some m -> Bias c = Some b -> feqb b (fopp m) = true).
Proof.
  intros K L c. assert (F : Forall pair_sane ps) by (eapply Forall_impl; [exact K|]; now intros p []).
  pose proof (accumulate_inv ps F L) as I. fold c in I. pose proof (cont_intervals _ _ I L) as (B1 & B2 & B3).
  destruct (one_sided ps K) as (_ & Up & Lo). fold c in Up, Lo.
  destruct (decide (ps = [])) as [->|N].
  - destruct (cont_null c eq_refl) as (A & B & C). rewrite A, B, C in *. cbn [finite_value]. split_and!; easy.
  - pose proof (total_weight_pos ps K L N) as E. fold c in E.
    destruct (cont_values _ _ I L E) as (m & r & b & Em & Er & Eb & (? & ? & ?) & (? & ? & ?) & (? & ?)).
    destruct (accumulate_totals ps K) as (T1 & T2 & T3 & T4). fold c in T1, T2, T3, T4.
    split; [contradiction|]. split; [intros _; unfold MAE, RMSE, Bias, weighted_mae, weighted_rmse, weighted_bias; rewrite E, T1, T2, T3, T4; auto|].
    rewrite Em, Er, Eb in *. cbn [finite_value]. split_and!; auto; try (now intros ? [= <-]).
    + intros O. rewrite <- Em, <- Eb. unfold MAE, Bias. now rewrite E, (Up O).
    + intros O m' b' [= <-] [= <-]. unfold MAE, Bias in Em, Eb. rewrite E in Em, Eb. injection Em as <-. injection Eb as <-.
      destruct I as [I _]. pose proof (cont_amount _ _ I) as A. destruct (amount_pos_f _ _ A (amount_pos _ _ A E)) as (mw & ew & Ew). rewrite Ew in *.
      destruct (Lo O) as [->|[-> ->]]; [|reflexivity]. rewrite fdiv_opp_l. apply feqb_same.
      destruct (sumWeightAbs c / _)%f64; (reflexivity || discriminate).
Qed.

Definition witness_pairs : list Pair :=
  [(f64_lit 215 10, f64_lit 200 10, "reanalysis"%string); (f64_of_Z 21, f64_of_Z 20, "station_observation"%string);
   (f64_lit 25 10, f64_lit 5 10, "interpolated"%string)].

Lemma continuous_metrics_sound_witness :
  let c := accumulate witness_pairs in
  MAE c = Some (weighted_mae witness_pairs) /\ Bias c = MAE c /\ finite_value (MAE c) /\ brackets (MAE c) (MAECI c).
Proof.
  assert (F : Forall pair_known witness_pairs).
  { unfold witness_pairs, pair_known, pair_sane, sane. rewrite !Forall_cons, Forall_nil, <- !zb_check_spec.
    vm_compute. repeat split; eauto. }
  destruct (continuous_metrics_sound witness_pairs F ltac:(vm_compute; discriminate)) as (_ & T1 & T2 & _ & _ & _ & _ & T3 & _ & _ & T4 & _).
  destruct T1 as [T1 _]; [discriminate|]. split; [exact T1|]. split; [|split; [exact T2|exact T3]]. apply T4. repeat constructor.
Defined.

(** A proportion with its Wilson interval: null on a zero denominator, else in
    [0,1] and inside its interval, itself inside [0,1]. *)
Definition proportion_ok (v : option float64) (denom : float64) : Prop :=
  match v with
  | None => feqb denom f0 = true
  | Some p => fleb f0 p = true /\ fleb p f1 = true /\
      let '(lo, hi) := Wilson p denom in
      fleb f0 lo = true /\ fleb lo p = true /\ fleb p hi = true /\ fleb hi f1 = true
  end.

Lemma proportion_ok_intro k v denom :
  amount k denom ->
  match v with
  | None => feqb denom f0 = true
  | Some v => unit_interval v /\ fleb fhalf denom = true
  end -> proportion_ok v denom.
Proof.
  intros A. destruct v as [v|]; cbn; [|easy]. intros [U Hh]. pose proof U as (_ & N & L).
  split; [exact N|]. split; [exact L|].
  apply (wilson_brackets_aux v denom U (amount_valid _ _ A) (amount_finite _ _ A) Hh).
Qed.

(** Note: the six rain-occurrence proportions of any sequence of classified pairs
    lie in [0,1], are null exactly on a zero denominator, and their Wilson
    intervals lie in [0,1] and contain them, in binary64 arithmetic. *)
Theorem rain_proportions_sound ps :
  Z.of_nat (length ps) <= 2 ^ 50 ->
  let c := classify ps in
  proportion_ok (Recall c) (TP c + FN c)%f64 /\
  proportion_ok (Precision c) (TP c + FP c)%f64 /\
  proportion_ok (F1 c) (f2 * TP c + FP c + FN c)%f64 /\
  proportion_ok (FalseAlarmRate c) (FP c + TN c)%f64 /\
  proportion_ok (ThreatScore c) (TP c + FP c + FN c)%f64 /\
  proportion_ok (OccurrenceAgreement c) (Confusion_N c).
Proof.
  intros L c. pose proof (classify_inv ps L) as I. fold c in I. set (k := Z.of_nat (length ps)) in *.
  assert (K : 0 <= k <= 2 ^ 50) by lia. pose proof bounds_2_50 as B. pose proof I as [].
  destruct (two_amount_le k K (TP c) cf_tp0) as [_ A2].
  repeat split.
  - apply (proportion_ok_intro (2 * k)); [now apply sum2_amount|now apply (proportion2 k)].
  - apply (proportion_ok_intro (2 * k)); [now apply sum2_amount|now apply (proportion2 k)].
  - apply (proportion_ok_intro (2 * k + k + k)); [|now apply (f1_unit k)].
    apply amount_add; auto; try lia. apply amount_add; auto; lia.
  - apply (proportion_ok_intro (2 * k)); [now apply sum2_amount|now apply (proportion2 k)].
  - apply (proportion_ok_intro (3 * k)); [now apply sum3_amount|now apply (threat_score_unit k)].
  - apply (proportion_ok_intro (4 * k)); [now apply confusion_n_amount|now apply (agreement_unit k)].
Qed.

Lemma rain_proportions_sound_witness :
  let c := classify [(true, true, "reanalysis"); (true, false, "station_observation"); (false, true, "reanalysis")] in
  F1 c <> None /\ proportion_ok (F1 c) (f2 * TP c + FP c + FN c)%f64.
Proof.
  split; [vm_compute; discriminate|].
  apply (rain_proportions_sound [(true, true, "reanalysis"); (true, false, "station_observation"); (false, true, "reanalysis")]).
  vm_compute; discriminate.
Defined.

(** Note: the Brier score of probabilities in [0,1] lies in [0,1], is null exactly
    when the total weight is zero, and lies inside its interval. *)
Theorem brier_score_sound ps :
  Forall (fun p => unit_interval p.1.1) ps -> Z.of_nat (length ps) <= 2 ^ 28 ->
  let b := brier_run ps in
  match Score b with
  | None => feqb (b_sumWeight b) f0 = true
  | Some s => fleb f0 s = true /\ fleb s f1 = true
  end /\ brackets (Score b) (ScoreCI b).
Proof.
  intros F L b. pose proof (brier_run_inv ps F L) as I. fold b in I. split.
  - pose proof (brier_score_unit _ _ I) as U. destruct (Score b); [|exact U]. now destruct U as (_ & ? & ?).
  - apply (brier_interval (Z.of_nat (length ps))); [assumption|lia].
Qed.

Definition witness_brier : list (float64 * bool * string) :=
  [(f64_lit 7 10, true, "reanalysis"); (f64_lit 1 10, false, "reanalysis")].

Lemma brier_score_sound_witness :
  Forall (fun p => unit_interval p.1.1) witness_brier /\
  brackets (Score (brier_run witness_brier)) (ScoreCI (brier_run witness_brier)).
Proof.
  assert (F : Forall (fun p => unit_interval p.1.1) witness_brier).
  { unfold witness_brier, unit_interval, nonneg. rewrite !Forall_cons, Forall_nil. vm_compute. repeat split. }
  split; [exact F|].
  exact (proj2 (brier_score_sound witness_brier F ltac:(vm_compute; discriminate))).
Defined.

End EvalProps.
