(* ===== verification/Ranking.v ===== *)
(** * The ranking engine ([internal/analysis/domain/ranking.go])

    [RankCohort]: ratio-to-best normalisation, weight redistribution over the
    components every provider has, coverage penalty, status, and the composite's
    interval; [RankOrder]: tie groups.  A Go map from component keys to [*float64]
    is a [gmap] (a nil value and an absent key read the same). *)

From Stdlib Require Import ZArith Lia Bool String.
From Stdlib Require Import SpecFloat.
From stdpp Require Import base list strings gmap sorting.
From S2P Require Import Prelude Float64 Float64Round Uuid Eval EvalProps.

Import Eval EvalProps.
Local Open Scope string_scope.
Local Open Scope Z_scope.

Module Ranking.

Definition WeightsVersion : string := "w-2026.1".

Inductive Status := StatusRanked | StatusProvisionally | StatusUnranked.

#[export] Instance Status_eq_dec : EqDecision Status.
Proof. solve_decision. Defined.

Definition ProfileUniform : string := "uniform".

Definition epsilon : float64 := f64_lit 1 1000000000.

Definition rankedMinPairs : Z := 30.
Definition provisionalMinPairs : Z := 10.
Definition coverageRankedMin : float64 := f64_lit 8 10.
Definition coverageFloor : float64 := f64_lit 5 10.
Definition minCalendarDays : Z := 7.

Inductive direction := lowerBetter | higherBetter | directValue.

#[export] Instance direction_eq_dec : EqDecision direction.
Proof. solve_decision. Defined.

Record Component := MkComponent { Key : string; Weight : float64; Direction : direction }.

Definition Components : list Component := [
  MkComponent "temp_mae" (f64_lit 30 100) lowerBetter;
  MkComponent "precip_f1" (f64_lit 25 100) higherBetter;
  MkComponent "rain_mae_all" (f64_lit 15 100) lowerBetter;
  MkComponent "wind_mae" (f64_lit 15 100) lowerBetter;
  MkComponent "temp_bias_abs" (f64_lit 5 100) lowerBetter;
  MkComponent "coverage" (f64_lit 5 100) directValue;
  MkComponent "reliability" (f64_lit 5 100) directValue ].

Record ProviderInput := MkInput {
  pi_ProviderID : uuid;
  Values : gmap string float64;
  CIHalf : gmap string float64;
  TempSampleCount : Z;
  PrecipSampleCount : Z;
  CalendarDays : Z;
  pi_Coverage : option float64;
  pi_Reliability : option float64
}.

Record ComponentScore := MkScore {
  cs_Component : string;
  cs_Value : option float64;
  cs_Normalized : option float64;
  cs_Weight : float64;
  cs_Excluded : bool
}.

Record ProviderRanking := MkRanking {
  pr_ProviderID : uuid;
  CompositeScore : option float64;
  CILower : option float64;
  CIUpper : option float64;
  pr_Status : Status;
  SampleCount : Z;
  Coverage : option float64;
  Reliability : option float64;
  ComponentScores : list ComponentScore
}.

Definition minInt (a b : Z) : Z := if a <? b then a else b.

Definition clamp01 (x : float64) : float64 :=
  if fltb x f0 then f0 else if fltb f1 x then f1 else x.

(** [minOf]/[maxOf] of a non-empty slice ([v[0]], then the rest). *)
Definition minOf (v : float64) (vs : list float64) : float64 :=
  foldl (fun m x => if fltb x m then x else m) v vs.
Definition maxOf (v : float64) (vs : list float64) : float64 :=
  foldl (fun m x => if fltb m x then x else m) v vs.

Definition normalize (c : Component) (value best shift : float64) : float64 :=
  match Direction c with
  | lowerBetter => (best / (value + shift))%f64
  | higherBetter => if feqb best f0 then f0 else (value / best)%f64
  | directValue => value
  end.

Definition status (p : ProviderInput) : Status :=
  let cov := match pi_Coverage p with Some c => c | None => f0 end in
  if (TempSampleCount p <? provisionalMinPairs) || (PrecipSampleCount p <? provisionalMinPairs)
     || fltb cov coverageFloor then StatusUnranked
  else if (TempSampleCount p <? rankedMinPairs) || (PrecipSampleCount p <? rankedMinPairs)
     || fltb cov coverageRankedMin || (CalendarDays p <? minCalendarDays) then StatusProvisionally
  else StatusRanked.

(** *** RankCohort *)

(** A component is active if every provider of a non-empty cohort has a value. *)
Definition active (cohort : list ProviderInput) (c : Component) : bool :=
  negb (bool_decide (cohort = [] )) && forallb (fun p => bool_decide (is_Some (Values p !! Key c))) cohort.

Definition activeWeight (cohort : list ProviderInput) : float64 :=
  foldl (fun w c => if active cohort c then (w + Weight c)%f64 else w) f0 Components.

(** The values of a component over the cohort. *)
Definition vals (cohort : list ProviderInput) (c : Component) : list float64 :=
  omap (fun p => Values p !! Key c) cohort.

(** [best[c.Key]] and [shift[c.Key]]; absent map entries read 0. *)
Definition best_shift (cohort : list ProviderInput) (c : Component) : float64 * float64 :=
  if negb (active cohort c) then (f0, f0) else
  match vals cohort c, Direction c with
  | [], _ | _, directValue => (f0, f0)
  | v :: vs, lowerBetter =>
      let m := minOf v vs in
      if feqb m f0 then ((m + epsilon)%f64, epsilon) else (m, f0)
  | v :: vs, higherBetter => (maxOf v vs, f0)
  end.

(** The accumulation over the components of one provider. *)
Record Acc := MkAcc { composite : float64; ciHalf : float64; scores : list ComponentScore }.

Definition component_step (cohort : list ProviderInput) (p : ProviderInput) (a : Acc) (c : Component) : Acc :=
  let value := Values p !! Key c in
  if negb (active cohort c) then
    MkAcc (composite a) (ciHalf a) (scores a ++ [MkScore (Key c) value None (Weight c) true])
  else
    let w := (Weight c / activeWeight cohort)%f64 in
    let v := default f0 value in
    let '(b, sh) := best_shift cohort c in
    let norm := normalize c v b sh in
    let ci := match CIHalf p !! Key c with
              | Some h => if negb (bool_decide (Direction c = directValue)) && negb (feqb v f0)
                          then (ciHalf a + w * norm * (h / v))%f64 else ciHalf a
              | None => ciHalf a
              end in
    MkAcc (composite a + w * norm)%f64 ci (scores a ++ [MkScore (Key c) value (Some norm) w false]).

Definition component_scores (cohort : list ProviderInput) (p : ProviderInput) : Acc :=
  foldl (component_step cohort p) (MkAcc f0 f0 []) Components.

Definition rankProvider (cohort : list ProviderInput) (p : ProviderInput) : ProviderRanking :=
  let a := component_scores cohort p in
  let n := minInt (TempSampleCount p) (PrecipSampleCount p) in
  match status p with
  | StatusUnranked =>
      MkRanking (pi_ProviderID p) None None None StatusUnranked n (pi_Coverage p) (pi_Reliability p) (scores a)
  | st =>
      let '(comp, ci) :=
        match pi_Coverage p with
        | Some cov => if fltb cov coverageRankedMin
                      then let penalty := (cov / coverageRankedMin)%f64 in
                           ((composite a * penalty)%f64, (ciHalf a * penalty)%f64)
                      else (composite a, ciHalf a)
        | None => (composite a, ciHalf a)
        end in
      let comp := clamp01 comp in
      let '(lo, hi) := if fltb f0 ci then (Some (clamp01 (comp - ci)%f64), Some (clamp01 (comp + ci)%f64))
                       else (None, None) in
      MkRanking (pi_ProviderID p) (Some comp) lo hi st n (pi_Coverage p) (pi_Reliability p) (scores a)
  end.

Definition RankCohort (cohort : list ProviderInput) : list ProviderRanking := rankProvider cohort <$> cohort.

(** *** RankOrder *)

Definition ciOverlap (a b : ProviderRanking) : bool :=
  match CILower a, CIUpper a, CILower b, CIUpper b with
  | Some al, Some au, Some bl, Some bu => fleb al bu && fleb bl au
  | _, _, _, _ => false
  end.

Definition score_at (rankings : list ProviderRanking) (i : nat) : option float64 :=
  rankings !! i ≫= CompositeScore.

(** [*rankings[a].CompositeScore > *rankings[b].CompositeScore] *)
Definition score_greater (rankings : list ProviderRanking) (a b : nat) : bool :=
  match score_at rankings a, score_at rankings b with Some x, Some y => fltb y x | _, _ => false end.

Definition ties (rankings : list ProviderRanking) (a b : nat) : bool :=
  match rankings !! a, rankings !! b with Some x, Some y => ciOverlap x y | _, _ => false end.

Definition RankOrder (rankings : list ProviderRanking) : list (list nat) :=
  let idx := List.filter (fun i => bool_decide (is_Some (score_at rankings i))) (seq 0 (length rankings)) in
  group_by_leader (ties rankings) (stable_sort (score_greater rankings) idx).

(** ** The inputs the metrics produce *)

(** A component value as the metrics define it: an error is a finite number that
    is not negative, a score or a ratio lies in [0,1]. *)
Definition value_ok (c : Component) (v : float64) : Prop :=
  match Direction c with
  | lowerBetter => valid v = true /\ is_finite v = true /\ nonneg v
  | _ => unit_interval v
  end.

Record input_ok (p : ProviderInput) : Prop := {
  io_values : forall c v, c ∈ Components -> Values p !! Key c = Some v -> value_ok c v;
  io_coverage : match pi_Coverage p with Some v => unit_interval v | None => True end;
}.

(** *** Minimum and maximum *)

Lemma minOf_spec v vs :
  is_nan v = false -> Forall (fun x => is_nan x = false) vs ->
  minOf v vs ∈ v :: vs /\ forall x, x ∈ v :: vs -> fleb (minOf v vs) x = true.
Proof.
  unfold minOf. revert v. induction vs as [|y vs IH]; intros v Nv F; cbn [foldl].
  - split; [left|]. intros x [->|Hx]%elem_of_cons; [now apply fleb_refl|now apply not_elem_of_nil in Hx].
  - apply Forall_cons in F as [Ny F]. destruct (fltb y v) eqn:E.
    + destruct (IH y Ny F) as [I M]. split.
      * apply elem_of_cons in I as [->|I]; [right; left|right; now right].
      * intros x [->|Hx]%elem_of_cons; [|now apply M]. apply fleb_trans with y; [apply M; left|now apply fltb_fleb].
    + destruct (IH v Nv F) as [I M]. split.
      * apply elem_of_cons in I as [->|I]; [left|right; now right].
      * intros x [->|[->|Hx]%elem_of_cons]%elem_of_cons; [apply M; left| |apply M; now right].
        apply fleb_trans with v; [apply M; left|now apply fltb_false_fleb].
Qed.

Lemma maxOf_spec v vs :
  is_nan v = false -> Forall (fun x => is_nan x = false) vs ->
  maxOf v vs ∈ v :: vs /\ forall x, x ∈ v :: vs -> fleb x (maxOf v vs) = true.
Proof.
  unfold maxOf. revert v. induction vs as [|y vs IH]; intros v Nv F; cbn [foldl].
  - split; [left|]. intros x [->|Hx]%elem_of_cons; [now apply fleb_refl|now apply not_elem_of_nil in Hx].
  - apply Forall_cons in F as [Ny F]. destruct (fltb v y) eqn:E.
    + destruct (IH y Ny F) as [I M]. split.
      * apply elem_of_cons in I as [->|I]; [right; left|right; now right].
      * intros x [->|Hx]%elem_of_cons; [|now apply M]. apply fleb_trans with y; [now apply fltb_fleb|apply M; left].
    + destruct (IH v Nv F) as [I M]. split.
      * apply elem_of_cons in I as [->|I]; [left|right; now right].
      * intros x [->|[->|Hx]%elem_of_cons]%elem_of_cons; [apply M; left| |apply M; now right].
        apply fleb_trans with v; [now apply fltb_false_fleb|apply M; left].
Qed.

(** *** Weight redistribution, for every set of active components *)

Definition sum_weights (bs : list bool) : float64 :=
  foldl (fun w (bc : bool * Component) => if bc.1 then (w + Weight bc.2)%f64 else w) f0 (zip bs Components).

Definition unitb (x : float64) : bool := valid x && fleb f0 x && fleb x f1.

Lemma unitb_spec x : unitb x = true -> unit_interval x.
Proof. unfold unitb. rewrite !andb_true_iff. intros [[A B] C]. now repeat split. Qed.

Fixpoint all_bools (n : nat) : list (list bool) :=
  match n with
  | O => [[]]
  | S n => (cons true <$> all_bools n) ++ (cons false <$> all_bools n)
  end.

Lemma all_bools_complete bs : In bs (all_bools (length bs)).
Proof.
  apply list_elem_of_In. induction bs as [|[] bs IH]; cbn; [left|..]; apply elem_of_app;
    [left|right]; now apply list_elem_of_fmap_2.
Qed.

(** Each active weight over the active total, over all 2^7 cases. *)
Lemma weights_checked :
  forallb (fun bs => forallb (fun bc : bool * Component => implb bc.1 (unitb (Weight bc.2 / sum_weights bs)%f64)) (zip bs Components))
    (all_bools 7) = true.
Proof. vm_compute. reflexivity. Qed.

Lemma activeWeight_sum cohort : activeWeight cohort = sum_weights (active cohort <$> Components).
Proof. reflexivity. Qed.

Section Cohort.
Context (cohort : list ProviderInput) (OK : Forall input_ok cohort).

Lemma active_value c p :
  active cohort c = true -> p ∈ cohort -> exists v, Values p !! Key c = Some v.
Proof.
  unfold active. intros [_ F]%andb_true_iff Hp. rewrite forallb_forall in F.
  apply list_elem_of_In, F in Hp. now apply bool_decide_eq_true in Hp.
Qed.

Lemma vals_elem c v : v ∈ vals cohort c <-> exists p, p ∈ cohort /\ Values p !! Key c = Some v.
Proof. unfold vals. rewrite list_elem_of_omap. tauto. Qed.

Lemma vals_ok c v : c ∈ Components -> v ∈ vals cohort c -> value_ok c v.
Proof.
  intros Hc (p & Hp & Hv)%vals_elem. rewrite Forall_forall in OK. now apply (io_values p (OK p Hp)).
Qed.

Lemma value_not_nan c v : value_ok c v -> is_nan v = false.
Proof.
  unfold value_ok. destruct (Direction c); [intros (_ & _ & N)|intros (_ & N & _)..]; now apply nonneg_not_nan.
Qed.

(** The cohort's best is one of its values, and bounds them all. *)
Lemma vals_split c p v :
  active cohort c = true -> c ∈ Components -> p ∈ cohort -> Values p !! Key c = Some v ->
  exists x xs, vals cohort c = x :: xs /\ v ∈ x :: xs /\ is_nan x = false /\ Forall (fun y => is_nan y = false) xs.
Proof.
  intros Ha Hc Hp Hv. assert (Hin : v ∈ vals cohort c) by (apply vals_elem; eauto).
  assert (F : Forall (fun y => is_nan y = false) (vals cohort c)).
  { apply Forall_forall. intros y Hy. eapply value_not_nan, vals_ok; eauto. }
  destruct (vals cohort c) as [|x xs]; [now apply not_elem_of_nil in Hin|].
  apply Forall_cons in F as [Nx F]. eauto 7.
Qed.

Lemma ratio_in_unit x y :
  valid x = true -> valid y = true -> is_finite y = true -> is_finite x = true ->
  nonneg x -> fltb f0 y = true -> fleb x y = true -> unit_interval (x / y)%f64.
Proof.
  intros. split; [apply fdiv_valid|]. split; [now apply fdiv_nonneg|now apply fdiv_le_1].
Qed.

(** Every normalised component lies in the unit interval. *)
Lemma normalize_unit c p v :
  active cohort c = true -> c ∈ Components -> p ∈ cohort -> Values p !! Key c = Some v ->
  unit_interval (normalize c v (best_shift cohort c).1 (best_shift cohort c).2).
Proof.
  intros Ha Hc Hp Hv. destruct (vals_split c p v Ha Hc Hp Hv) as (x & xs & E & Hin & Nx & F).
  pose proof (vals_ok c v Hc ltac:(apply vals_elem; eauto)) as Vv.
  unfold best_shift, normalize. rewrite Ha, E. cbn [negb].
  destruct (minOf_spec x xs Nx F) as [Imin Mmin]. destruct (maxOf_spec x xs Nx F) as [Imax Mmax].
  rewrite <- E in Imin, Imax. apply vals_ok in Imin, Imax; [|assumption..].
  unfold value_ok in *. destruct (Direction c); [| |exact Vv].
  - destruct Vv as (Vv & Fv & Nv). destruct Imin as (Vm & Fm & Nm). specialize (Mmin v Hin).
    destruct (feqb (minOf x xs) f0) eqn:E0; cbn [fst snd].
    + assert ((minOf x xs + epsilon)%f64 = epsilon) as ->.
      { apply nonneg_shape in Nm as [Ei|[[[] Ei]|(m & e & Ei)]]; rewrite Ei in *; try discriminate; reflexivity. }
      assert (Fs : is_finite (v + epsilon)%f64 = true) by (apply fadd_small_finite; auto; reflexivity).
      assert (L : fleb epsilon (v + epsilon)%f64 = true) by (rewrite fadd_comm; now apply fadd_upper).
      apply ratio_in_unit; auto; try reflexivity; [now apply fadd_valid|].
      apply fltb_fleb_trans with epsilon; [reflexivity|assumption].
    + assert (Pm : fltb f0 (minOf x xs) = true).
      { apply nonneg_shape in Nm as [Ei|[[[] Ei]|(m & e & Ei)]]; rewrite Ei in *; try discriminate; reflexivity. }
      assert (Pv : fltb f0 v = true) by (eapply fltb_fleb_trans; eauto).
      assert ((v + f0)%f64 = v) as ->.
      { apply fltb_pos in Pv as [->|(m & e & ->)]; reflexivity. }
      now apply ratio_in_unit.
  - destruct (feqb (maxOf x xs) f0) eqn:E0; cbn [fst snd]; rewrite E0; [repeat split|].
    pose proof (unit_interval_finite _ Vv) as Fv. pose proof (unit_interval_finite _ Imax) as Fm.
    destruct Vv as (? & Nv & _), Imax as (? & Nm & _).
    apply ratio_in_unit; auto.
    apply nonneg_shape in Nm as [Ei|[[[] Ei]|(m & e & Ei)]]; rewrite Ei in *; try discriminate; reflexivity.
Qed.

(** The redistributed weights lie in the unit interval. *)
Lemma weight_unit c :
  c ∈ Components -> active cohort c = true -> unit_interval (Weight c / activeWeight cohort)%f64.
Proof.
  intros Hc Ha. rewrite activeWeight_sum.
  pose proof weights_checked as W. rewrite forallb_forall in W.
  specialize (W (active cohort <$> Components) (all_bools_complete _)).
  rewrite forallb_forall in W. apply list_elem_of_lookup in Hc as [i Hi].
  assert (I : In (true, c) (zip (active cohort <$> Components) Components)).
  { apply list_elem_of_In, (list_elem_of_lookup_2 _ i). rewrite lookup_zip_with, list_lookup_fmap, Hi.
    cbn [fmap option_fmap option_map mbind option_bind]. now rewrite Ha. }
  exact (unitb_spec _ (W _ I)).
Qed.
(** *** The weighted sum *)

(** After [k] components: at most [k], non-negative, every score so far either
    excluded or normalised into the unit interval. *)
Definition score_ok (s : ComponentScore) : Prop :=
  if cs_Excluded s then cs_Normalized s = None
  else exists n, cs_Normalized s = Some n /\ unit_interval n /\ unit_interval (cs_Weight s).

Record acc_inv (k : Z) (a : Acc) : Prop := {
  ai_zb : zb k (composite a);
  ai_nonneg : nonneg (composite a);
  ai_ci : valid (ciHalf a) = true;
  ai_scores : Forall score_ok (scores a);
}.

Lemma component_step_inv k p a c :
  p ∈ cohort -> c ∈ Components -> 0 <= k <= 7 -> acc_inv k a -> acc_inv (k + 1) (component_step cohort p a c).
Proof.
  intros Hp Hc Hk [Z N Vci F]. unfold component_step. destruct (active cohort c) eqn:Ha; cbn [negb].
  - destruct (active_value c p Ha Hp) as [v Hv]. rewrite Hv. cbn [default].
    pose proof (normalize_unit c p v Ha Hc Hp Hv) as U. pose proof (weight_unit c Hc Ha) as W.
    destruct (best_shift cohort c) as [b sh]. cbn [fst snd] in U.
    set (w := (Weight c / activeWeight cohort)%f64) in *. set (nn := normalize c v b sh) in *.
    pose proof (unit_zb _ U) as Zu. pose proof (unit_zb _ W) as Zw.
    assert (Zm : zb (1 * 1) (w * nn)%f64) by (apply zb_mul; auto; lia).
    constructor; cbn [composite scores ciHalf].
    + apply zb_add; auto; lia.
    + apply fadd_nonneg; [assumption|]. destruct U as (? & ? & _), W as (? & ? & _).
      apply fmul_nonneg; auto; now apply (zb_finite 1).
    + destruct (CIHalf p !! Key c) as [h|]; [|assumption]. destruct (_ && _); [|assumption].
      apply fadd_valid; [assumption|]. apply fmul_valid; [now apply (zb_valid (1 * 1))|apply fdiv_valid].
    + apply Forall_app. split; [assumption|]. apply Forall_singleton. cbn. exists nn. auto.
  - constructor; cbn [composite scores ciHalf]; [apply (zb_weaken k); [lia|assumption]|assumption|assumption|].
    apply Forall_app. split; [assumption|]. now apply Forall_singleton.
Qed.

Lemma component_scores_inv p : p ∈ cohort -> acc_inv 7 (component_scores cohort p).
Proof.
  intros Hp. unfold component_scores.
  assert (G : forall cs k a, (forall c, c ∈ cs -> c ∈ Components) -> 0 <= k -> k + Z.of_nat (length cs) <= 7 ->
    acc_inv k a -> acc_inv (k + Z.of_nat (length cs)) (foldl (component_step cohort p) a cs)).
  { induction cs as [|c cs IH]; intros k a Hcs H0 Hk Ha; cbn [foldl length]; [now rewrite Z.add_0_r|].
    cbn [length] in Hk. replace (k + Z.of_nat (S (length cs))) with ((k + 1) + Z.of_nat (length cs)) by lia.
    apply IH; [intros; apply Hcs; now right|lia|lia|]. apply component_step_inv; auto; [apply Hcs; left|lia]. }
  apply (G Components 0 (MkAcc f0 f0 [])); [auto|lia|reflexivity|].
  constructor; [now apply zb_zero|reflexivity|reflexivity|constructor].
Qed.
End Cohort.

(** *** Clamping *)

Lemma clamp01_unit x : valid x = true -> is_nan x = false -> unit_interval (clamp01 x).
Proof.
  intros V N. unfold clamp01. destruct (fltb x f0) eqn:E0; [repeat split|].
  destruct (fltb f1 x) eqn:E1; [repeat split|]. split; [assumption|].
  split; now apply fltb_false_fleb.
Qed.

Lemma clamp01_le x c : unit_interval c -> fleb x c = true -> fleb (clamp01 x) c = true.
Proof.
  intros (_ & N & L) H. unfold clamp01. destruct (fltb x f0) eqn:E0; [exact N|].
  destruct (fltb f1 x) eqn:E1; [|exact H].
  pose proof (fltb_fleb_trans _ _ _ E1 (fleb_trans _ _ _ H L)) as C. now rewrite fltb_irrefl in C.
Qed.

Lemma clamp01_ge x c : unit_interval c -> fleb c x = true -> fleb c (clamp01 x) = true.
Proof.
  intros (_ & N & L) H. unfold clamp01. destruct (fltb x f0) eqn:E0; [|destruct (fltb f1 x); assumption].
  pose proof (fltb_fleb_trans _ _ _ (fleb_fltb_trans _ _ _ H E0) N) as C. now rewrite fltb_irrefl in C.
Qed.

(** A published ranking row: what the [provider_rankings] CHECKs demand, and the
    interval around the score. *)
Record row_ok (r : ProviderRanking) : Prop := {
  ro_null : CompositeScore r = None <-> pr_Status r = StatusUnranked;
  ro_unit : forall c, CompositeScore r = Some c -> fleb f0 c = true /\ fleb c f1 = true;
  ro_ci : match CompositeScore r, CILower r, CIUpper r with
          | _, None, None => True
          | Some c, Some lo, Some hi => fleb f0 lo = true /\ fleb lo c = true /\ fleb c hi = true /\ fleb hi f1 = true
          | _, _, _ => False
          end;
  ro_scores : Forall score_ok (ComponentScores r);
}.

Lemma coverage_penalty_unit cov :
  unit_interval cov -> fltb cov coverageRankedMin = true -> unit_interval (cov / coverageRankedMin)%f64.
Proof.
  intros U E. pose proof (unit_interval_finite _ U). destruct U as (? & ? & ?).
  apply ratio_in_unit; auto; try reflexivity. now apply fltb_fleb.
Qed.

(** The interval of a clamped score. *)
Lemma interval_ok comp ci :
  unit_interval comp -> fltb f0 ci = true -> valid ci = true ->
  unit_interval (clamp01 (comp - ci)%f64) /\ unit_interval (clamp01 (comp + ci)%f64) /\
  fleb (clamp01 (comp - ci)%f64) comp = true /\ fleb comp (clamp01 (comp + ci)%f64) = true.
Proof.
  intros U P Vc. pose proof (unit_interval_finite _ U) as F. pose proof U as (V & _ & _).
  pose proof (fltb_fleb _ _ P) as N.
  pose proof (fsub_lower comp ci F V N) as L. pose proof (fadd_upper comp ci F V N) as H.
  repeat split.
  1,2,3: apply clamp01_unit; [now apply fsub_valid|now apply fleb_not_nan in L].
  1,2,3: apply clamp01_unit; [now apply fadd_valid|now apply fleb_not_nan in H].
  - now apply clamp01_le.
  - now apply clamp01_ge.
Qed.

(** The penalised sum and half-width are still numbers. *)
Lemma penalised_ok cohort p : Forall input_ok cohort -> p ∈ cohort ->
  let a := component_scores cohort p in
  let '(comp, ci) :=
    match pi_Coverage p with
    | Some cov => if fltb cov coverageRankedMin
                  then let penalty := (cov / coverageRankedMin)%f64 in
                       ((composite a * penalty)%f64, (ciHalf a * penalty)%f64)
                  else (composite a, ciHalf a)
    | None => (composite a, ciHalf a)
    end in
  valid comp = true /\ is_nan comp = false /\ valid ci = true.
Proof.
  intros OK Hp a. destruct (component_scores_inv cohort OK p Hp) as [Z N Vci _]. fold a in Z, N, Vci.
  pose proof (zb_valid _ _ Z) as Vc. pose proof (zb_not_nan _ _ Z) as Nc.
  pose proof (proj1 (Forall_forall _ _) OK p Hp) as [_ Hcov].
  destruct (pi_Coverage p) as [cov|]; [|auto]. destruct (fltb cov coverageRankedMin) eqn:E; [|auto].
  pose proof (coverage_penalty_unit cov Hcov E) as U. pose proof (unit_zb _ U) as Zp. destruct U as (Vp & _).
  repeat split; [now apply fmul_valid| |now apply fmul_valid].
  apply (zb_not_nan (7 * 1)). apply zb_mul; auto; lia.
Qed.

Lemma rankProvider_ok cohort p : Forall input_ok cohort -> p ∈ cohort -> row_ok (rankProvider cohort p).
Proof.
  intros OK Hp. pose proof (penalised_ok cohort p OK Hp) as K. pose proof (ai_scores _ _ (component_scores_inv cohort OK p Hp)) as F.
  unfold rankProvider. cbv zeta in K. set (a := component_scores cohort p) in *. clearbody a.
  match type of K with context [let '(_, _) := ?t in _] => destruct t as [comp ci] end.
  destruct K as (Vc & Nc & Vi). pose proof (clamp01_unit comp Vc Nc) as U.
  destruct (status p) eqn:St.
  3: { constructor; cbn; [tauto|discriminate|exact I|exact F]. }
  all: destruct (fltb f0 ci) eqn:E; [destruct (interval_ok _ ci U E Vi) as (U1 & U2 & L1 & L2)|];
    (constructor; cbn; [split; discriminate| | |exact F]).
  all: try (intros c [= <-]; destruct U as (_ & ? & ?); now split).
  all: try exact I; destruct U1 as (_ & ? & _), U2 as (_ & _ & ?); auto.
Qed.

(** *** Status and ranking order *)

Lemma status_unranked p :
  status p = StatusUnranked <->
  TempSampleCount p < 10 \/ PrecipSampleCount p < 10 \/
  match pi_Coverage p with Some c => fltb c coverageFloor = true | None => True end.
Proof.
  unfold status, provisionalMinPairs. destruct (_ || _ || _) eqn:E.
  - split; [intros _|easy]. apply orb_true_iff in E as [E|E]; [apply orb_true_iff in E as [E|E]|].
    + left. lia.
    + right; left. lia.
    + right; right. now destruct (pi_Coverage p).
  - apply orb_false_iff in E as [E E3]. apply orb_false_iff in E as [E1 E2].
    split; [now destruct (_ || _)|]. intros [?|[?|C]]; [lia|lia|].
    destruct (pi_Coverage p); [congruence|]. discriminate.
Qed.

(** The scores RankOrder sorts are numbers. *)
Definition scores_ok (rs : list ProviderRanking) : Prop :=
  forall r c, r ∈ rs -> CompositeScore r = Some c -> is_nan c = false.

Lemma score_greater_asym rs a b :
  score_greater rs a b = true -> score_greater rs b a = false.
Proof.
  unfold score_greater. destruct (score_at rs a) as [x|], (score_at rs b) as [y|]; try discriminate; auto.
  intros E. apply not_true_is_false. intros E'. pose proof (fltb_trans _ _ _ E E') as C. now rewrite fltb_irrefl in C.
Qed.

Lemma score_greater_trans rs a b c :
  scores_ok rs -> is_Some (score_at rs a) -> is_Some (score_at rs b) -> is_Some (score_at rs c) ->
  score_greater rs b a = false -> score_greater rs c b = false -> score_greater rs c a = false.
Proof.
  intros OK [x Ex] [y Ey] [z Ez]. unfold score_greater. rewrite Ex, Ey, Ez.
  assert (N : forall i u, score_at rs i = Some u -> is_nan u = false).
  { intros i u. unfold score_at. destruct (rs !! i) as [r|] eqn:E; [|discriminate]. intros Hu.
    eapply OK; [eapply list_elem_of_lookup_2|]; eauto. }
  intros A B. apply not_true_is_false. intros C.
  apply fltb_false_fleb in A; eauto. apply fltb_false_fleb in B; eauto.
  pose proof (fltb_fleb_trans _ _ _ C (fleb_trans _ _ _ B A)) as D. now rewrite fltb_irrefl in D.
Qed.

Lemma RankOrder_spec rs : scores_ok rs ->
  let groups := RankOrder rs in
  concat groups ≡ₚ List.filter (fun i => bool_decide (is_Some (score_at rs i))) (seq 0 (length rs)) /\
  StronglySorted (fun a b => score_greater rs b a = false) (concat groups) /\
  Forall (group_ok (ties rs)) groups /\
  (forall k lead g lead' g', groups !! k = Some (lead :: g) -> groups !! S k = Some (lead' :: g') ->
     ties rs lead lead' = false).
Proof.
  intros OK groups. unfold groups, RankOrder.
  set (idx := List.filter _ _). destruct (group_by_leader_inv (ties rs) (stable_sort (score_greater rs) idx)) as [C O L].
  rewrite C. split; [apply stable_sort_perm|]. split; [|auto].
  apply (stable_sort_ordered _ (fun i => is_Some (score_at rs i))).
  - intros a b _ _. apply score_greater_asym.
  - intros a b c. now apply score_greater_trans.
  - apply Forall_forall. intros i Hi. apply list_elem_of_In, filter_In in Hi as [_ Hi]. now apply bool_decide_eq_true in Hi.
Qed.

(** ** Theorems *)

(** C27: every row of a cohort passes the ranking table's constraints: the score
    is null exactly for an unranked provider and otherwise lies in [0,1]; its
    interval, when published, lies in [0,1] and contains it; every component that
    counts has a normalised value and a weight in [0,1] (no NaN, no infinity, so
    the breakdown can be serialised), every other one is marked excluded. *)
Theorem rank_cohort_rows cohort :
  Forall input_ok cohort ->
  Forall row_ok (RankCohort cohort) /\ pr_ProviderID <$> RankCohort cohort = pi_ProviderID <$> cohort.
Proof.
  intros OK. split.
  - apply Forall_forall. intros r (p & -> & Hp)%list_elem_of_fmap. now apply rankProvider_ok.
  - unfold RankCohort. rewrite <- list_fmap_compose. apply list_fmap_ext. intros i p _. cbn. unfold rankProvider.
    destruct (status p); [| |reflexivity];
      repeat match goal with |- context [let '(_, _) := ?t in _] => destruct t end; reflexivity.
Qed.

(** Note: the published order: every scored row is in exactly one rank group, along
    the groups the scores never increase, the members of a group have intervals
    overlapping their leader's, and two consecutive leaders do not tie.  A
    provider with fewer than 10 pairs of a required variable or with coverage
    below 0.5 has no score, hence no rank. *)
Theorem rank_order_groups cohort :
  Forall input_ok cohort ->
  let rs := RankCohort cohort in
  let groups := RankOrder rs in
  NoDup (concat groups) /\
  (forall i, i ∈ concat groups <-> exists p, cohort !! i = Some p /\ status p <> StatusUnranked) /\
  StronglySorted (fun a b => score_greater rs b a = false) (concat groups) /\
  Forall (group_ok (ties rs)) groups /\
  (forall k lead g lead' g', groups !! k = Some (lead :: g) -> groups !! S k = Some (lead' :: g') ->
     ties rs lead lead' = false).
Proof.
  intros OK rs groups.
  assert (SO : scores_ok rs).
  { intros r c (p & -> & Hp)%list_elem_of_fmap Hc. destruct (ro_unit _ (rankProvider_ok cohort p OK Hp) c Hc) as [N _].
    now apply nonneg_not_nan. }
  destruct (RankOrder_spec rs SO) as (Pm & S & G & L). fold groups in Pm, S, G, L.
  split; [|split; [|auto]].
  - rewrite Pm. apply NoDup_ListNoDup, List.NoDup_filter, List.seq_NoDup.
  - intros i. rewrite Pm, list_elem_of_In, filter_In, in_seq, bool_decide_eq_true. unfold score_at, rs, RankCohort.
    rewrite length_fmap, list_lookup_fmap. split.
    + intros [_ Hs]. destruct (cohort !! i) as [p|] eqn:E; [|now destruct Hs]. exists p. split; [reflexivity|].
      intros St. cbn in Hs. apply list_elem_of_lookup_2 in E.
      destruct (rankProvider_ok cohort p OK E) as [Hn _ _ _]. destruct Hs as [c Hc]. rewrite (proj2 Hn) in Hc; [discriminate|].
      unfold rankProvider. now rewrite St.
    + intros (p & E & St). rewrite E. pose proof (lookup_lt_Some _ _ _ E). split; [lia|]. cbn.
      destruct (CompositeScore (rankProvider cohort p)) as [c|] eqn:Hc; [eauto|]. exfalso.
      apply list_elem_of_lookup_2 in E. apply (ro_null _ (rankProvider_ok cohort p OK E)) in Hc. apply St.
      revert Hc. unfold rankProvider. destruct (status p); [| |reflexivity];
        repeat match goal with |- context [let '(_, _) := ?t in _] => destruct t end; discriminate.
Qed.

(** *** Order independence *)

Lemma feqb_eq x y : valid x = true -> valid y = true -> nonneg x -> nonneg y ->
  fleb x y = true -> fleb y x = true -> feqb x f0 = false -> x = y.
Proof.
  intros Vx Vy Nx Ny A B Z.
  apply nonneg_shape in Nx as [->|[[sx ->]|(m & e & ->)]]; [|destruct sx; discriminate|];
  apply nonneg_shape in Ny as [->|[[sy ->]|(m' & e' & ->)]]; try reflexivity; try discriminate; try (destruct sy; discriminate).
  apply fleb_kle in A as (_ & _ & A). apply fleb_kle in B as (_ & _ & B). unfold kle, klt in A, B. cbn in A, B.
  assert (e = e' /\ Zpos m = Zpos m') as [-> [= ->]]; [|reflexivity].
  destruct A as [A|A], B as [B|B]; try (injection A as ? ?; split; congruence);
    try (injection B as ? ?; split; congruence); lia.
Qed.

Section Permuted.
Context (cohort cohort' : list ProviderInput) (Pm : cohort ≡ₚ cohort') (OK : Forall input_ok cohort).

Lemma active_perm c : active cohort c = active cohort' c.
Proof.
  unfold active. f_equal.
  - f_equal. apply bool_decide_ext. split; intros E; rewrite E in Pm; [now apply Permutation_nil in Pm|].
    symmetry in Pm. now apply Permutation_nil in Pm.
  - apply Bool.eq_iff_eq_true. rewrite !forallb_forall. split; intros F p Hp; apply F, list_elem_of_In;
      apply list_elem_of_In in Hp; [now rewrite Pm|now rewrite <- Pm].
Qed.

Lemma vals_perm c : vals cohort c ≡ₚ vals cohort' c.
Proof. unfold vals. now rewrite Pm. Qed.

Lemma OK' : Forall input_ok cohort'.
Proof. now rewrite <- Pm. Qed.

(** The extreme of a list of numbers does not depend on its order, up to the
    sign of zero. *)
Lemma extreme_eq (x y : float64) :
  valid x = true -> valid y = true -> nonneg x -> nonneg y -> fleb x y = true -> fleb y x = true ->
  x = y \/ (exists s s', x = S754_zero s /\ y = S754_zero s').
Proof.
  intros Vx Vy Nx Ny A B. destruct (feqb x f0) eqn:E; [|left; now apply feqb_eq].
  destruct (feqb y f0) eqn:E'; [|left; symmetry; now apply feqb_eq].
  right. apply nonneg_shape in Nx as [->|[[s ->]|(m & e & ->)]]; try discriminate.
  apply nonneg_shape in Ny as [->|[[s' ->]|(m & e & ->)]]; try discriminate. eauto.
Qed.

Lemma value_shape c v : value_ok c v -> valid v = true /\ nonneg v.
Proof.
  unfold value_ok. destruct (Direction c); [intros (V & _ & N)|intros (V & N & _)..]; auto.
Qed.

Lemma best_shift_perm c v : c ∈ Components ->
  normalize c v (best_shift cohort c).1 (best_shift cohort c).2 =
  normalize c v (best_shift cohort' c).1 (best_shift cohort' c).2.
Proof.
  intros Hc. unfold best_shift. rewrite <- active_perm. destruct (active cohort c); [|reflexivity]. cbn [negb].
  pose proof (vals_perm c) as Pv.
  assert (VO : Forall (value_ok c) (vals cohort c)) by (apply Forall_forall; intros; now apply (vals_ok cohort OK)).
  destruct (vals cohort c) as [|x xs]; [apply Permutation_nil in Pv; now rewrite Pv|].
  destruct (vals cohort' c) as [|y ys]; [symmetry in Pv; now apply Permutation_nil in Pv|].
  assert (VO' : Forall (value_ok c) (y :: ys)) by now rewrite <- Pv.
  assert (NN : forall l, Forall (value_ok c) l -> Forall (fun z => is_nan z = false) l)
    by (intros l F; eapply Forall_impl; [exact F|]; apply (value_not_nan c)).
  pose proof (NN _ VO) as N1. pose proof (NN _ VO') as N2.
  apply Forall_cons in N1 as [Nx N1], N2 as [Ny N2].
  destruct (minOf_spec x xs Nx N1) as [I1 M1]. destruct (minOf_spec y ys Ny N2) as [I2 M2].
  destruct (maxOf_spec x xs Nx N1) as [J1 K1]. destruct (maxOf_spec y ys Ny N2) as [J2 K2].
  rewrite Forall_forall in VO, VO'. unfold normalize.
  destruct (Direction c) eqn:Ed; [| |reflexivity].
  - destruct (value_shape c _ (VO _ I1)), (value_shape c _ (VO' _ I2)).
    destruct (extreme_eq (minOf x xs) (minOf y ys)) as [E|(s & s' & E & E')]; auto.
    + apply M1. now rewrite Pv.
    + apply M2. now rewrite <- Pv.
    + now rewrite E.
    + rewrite E, E'. destruct s, s'; reflexivity.
  - destruct (value_shape c _ (VO _ J1)), (value_shape c _ (VO' _ J2)).
    destruct (extreme_eq (maxOf x xs) (maxOf y ys)) as [E|(s & s' & E & E')]; auto.
    + apply K2. now rewrite <- Pv.
    + apply K1. now rewrite Pv.
    + now rewrite E.
    + rewrite E, E'. destruct s, s'; reflexivity.
Qed.

Lemma rankProvider_perm p : rankProvider cohort p = rankProvider cohort' p.
Proof.
  assert (A : component_scores cohort p = component_scores cohort' p).
  { unfold component_scores. assert (W : activeWeight cohort = activeWeight cohort').
    { unfold activeWeight. generalize f0. induction Components as [|c cs IH]; intros w; cbn [foldl]; [reflexivity|].
      rewrite active_perm. apply IH. }
    assert (S : forall a c, c ∈ Components -> component_step cohort p a c = component_step cohort' p a c).
    { intros a c Hc. unfold component_step. rewrite <- active_perm. destruct (active cohort c); [|reflexivity]. cbn [negb].
      pose proof (best_shift_perm c (default f0 (Values p !! Key c)) Hc) as B.
      destruct (best_shift cohort c), (best_shift cohort' c). cbn [fst snd] in B. now rewrite W, B. }
    assert (G : forall cs a, (forall c, c ∈ cs -> c ∈ Components) ->
      foldl (component_step cohort p) a cs = foldl (component_step cohort' p) a cs); [|now apply G].
    induction cs as [|c cs IH]; intros a Hcs; [reflexivity|]. cbn [foldl]. rewrite S by (apply Hcs; left).
    apply IH. intros; apply Hcs; now right. }
  unfold rankProvider. now rewrite A.
Qed.
End Permuted.

(** C35: the ranking of a cohort does not depend on the order in which its
    providers are listed: permuted inputs give the same rows, permuted. *)
Theorem rank_cohort_permutation cohort cohort' :
  Forall input_ok cohort -> cohort ≡ₚ cohort' -> RankCohort cohort ≡ₚ RankCohort cohort'.
Proof.
  intros OK Pm. unfold RankCohort. transitivity (rankProvider cohort <$> cohort'); [now apply Permutation_map|].
  erewrite list_fmap_ext; [reflexivity|]. intros i p _. now apply rankProvider_perm.
Qed.

(** *** A concrete cohort *)

Definition demo_input (i : uuid) (mae f1v rain wind bias cov : float64) : ProviderInput :=
  let vs := list_to_map [("temp_mae", mae); ("precip_f1", f1v); ("rain_mae_all", rain); ("wind_mae", wind);
                         ("temp_bias_abs", bias); ("coverage", cov); ("reliability", f1)] in
  MkInput i vs (list_to_map [("temp_mae", f64_lit 1 10)]) 40 40 31 (Some cov) (Some f1).

Definition demo_cohort : list ProviderInput :=
  [demo_input 1 (f64_lit 15 10) (f64_lit 6 10) (f64_lit 3 10) f1 (f64_lit 2 10) (f64_lit 9 10);
   demo_input 2 (f64_lit 25 10) (f64_lit 5 10) (f64_lit 4 10) (f64_lit 2 1) f0 (f64_lit 6 10);
   demo_input 3 (f64_lit 5 10) (f64_lit 9 10) (f64_lit 1 10) f1 f0 (f64_lit 4 10)].

Lemma demo_cohort_ok : Forall input_ok demo_cohort.
Proof.
  assert (G : forall p, (forall c, c ∈ Components -> match Values p !! Key c with Some v => value_ok c v | None => True end) ->
    match pi_Coverage p with Some v => unit_interval v | None => True end -> input_ok p).
  { intros p Hv Hc. constructor; [|exact Hc]. intros c v Hin E. specialize (Hv c Hin). now rewrite E in Hv. }
  unfold demo_cohort. rewrite !Forall_cons, Forall_nil.
  repeat split; apply G; try (cbn; now apply unitb_spec).
  all: intros c Hc; unfold Components in Hc.
  all: repeat (apply elem_of_cons in Hc as [->|Hc];
    [vm_compute; repeat split; first [reflexivity|discriminate]|]); now apply not_elem_of_nil in Hc.
Qed.

Lemma rank_cohort_rows_witness :
  Forall row_ok (RankCohort demo_cohort) /\
  pr_Status <$> RankCohort demo_cohort = [StatusRanked; StatusProvisionally; StatusUnranked].
Proof. split; [apply rank_cohort_rows, demo_cohort_ok|vm_compute; reflexivity]. Defined.

Lemma rank_order_groups_witness :
  NoDup (concat (RankOrder (RankCohort demo_cohort))) /\ RankOrder (RankCohort demo_cohort) = [[0]; [1]]%nat.
Proof. split; [apply (rank_order_groups demo_cohort demo_cohort_ok)|vm_compute; reflexivity]. Defined.

Lemma rank_cohort_permutation_witness :
  RankCohort demo_cohort ≡ₚ RankCohort (rev demo_cohort).
Proof. apply rank_cohort_permutation; [apply demo_cohort_ok|apply Permutation_rev]. Defined.

(** Note: rank groups compare with the group's leader only: two providers whose
    published intervals overlap can be placed in different ranks. *)
Theorem overlapping_intervals_split :
  exists rs a b, ciOverlap a b = true /\ rs !! 1%nat = Some a /\ rs !! 2%nat = Some b /\
    RankOrder rs = [[0; 1]; [2]]%nat.
Proof.
  set (row := fun c lo hi => MkRanking 1 (Some (f64_lit c 100)) (Some (f64_lit lo 100)) (Some (f64_lit hi 100))
                               StatusRanked 40 None None []).
  exists [row 85 80 90; row 76 70 82; row 68 60 75], (row 76 70 82), (row 68 60 75).
  repeat split; vm_compute; reflexivity.
Qed.

End Ranking.
