(* ===== verification/Matching.v ===== *)
(** * The matching engine

    [internal/analysis/domain/match.go]: the candidate order and [SelectCandidate].
    [internal/analysis/match.go]: [MatchService] (the chunked batch, the rematch of
    corrected observations), written against the persistence port
    [ports.MatchRepository], here the class [MatchRepository] with its laws
    [MatchRepositoryLaws].  [adapters/persistence/analysispg/analysispg.go]: the
    PostgreSQL repository, here the instance on the tables [MatchTables]. *)

From Stdlib Require Import ZArith Lia Bool String.
From stdpp Require Import base list strings sorting.
From S2P Require Import Prelude Float64 GoTime Uuid Effects Records.

Import Records.
Local Open Scope string_scope.
Local Open Scope Z_scope.

Module Matching.

(** ** domain/match.go *)

Definition MatchExactHour : string := "exact_hour".
Definition MatchSubHourly15 : string := "sub_hourly_15min".

Definition provenanceRank (observationType : string) : Z :=
  if String.eqb observationType ObservationStation then 1
  else if String.eqb observationType ObservationInterpolated || String.eqb observationType ObservationReanalysis then 2
  else if String.eqb observationType ObservationProviderEstimated then 3
  else 99.

Record SnapshotToMatch := MkSnapshotToMatch {
  m_ID : uuid;
  m_ProviderID : uuid;
  m_LocationID : uuid;
  m_TargetTime : Time;
  m_ForecastHorizonMinutes : Z
}.

Record ObservationCandidate := MkCandidate {
  c_ID : uuid;
  c_ObservationType : string;
  c_QualityFlag : string;
  c_ObservedAt : Time
}.

Record MatchedEvaluation := MkMatched {
  me_ID : uuid;
  me_ForecastSnapshotID : uuid;
  me_ObservationID : uuid;
  me_ProviderID : uuid;
  me_LocationID : uuid;
  me_ForecastHorizonMinutes : Z;
  me_TargetTime : Time;
  me_MatchRule : string;
  me_TimeDeltaMinutes : Z
}.

#[export] Instance SnapshotToMatch_eq_dec : EqDecision SnapshotToMatch.
Proof. solve_decision. Defined.
#[export] Instance MatchedEvaluation_eq_dec : EqDecision MatchedEvaluation.
Proof. solve_decision. Defined.

(** [-d] wraps on the least 64-bit duration. *)
Definition absDuration (d : Duration) : Duration :=
  if d <? 0 then (if d =? minInt64 then minInt64 else - d) else d.

Definition candidateLess (a b : ObservationCandidate) (targetHour : Time) : bool :=
  let ac := String.eqb (c_QualityFlag a) QualityCorrected in
  let bc := String.eqb (c_QualityFlag b) QualityCorrected in
  if negb (Bool.eqb ac bc) then ac else
  let ra := provenanceRank (c_ObservationType a) in
  let rb := provenanceRank (c_ObservationType b) in
  if negb (ra =? rb) then ra <? rb else
  let da := absDuration (Sub (c_ObservedAt a) targetHour) in
  let db := absDuration (Sub (c_ObservedAt b) targetHour) in
  if negb (da =? db) then da <? db else
  Uuid.str_ltb (Uuid.to_string (c_ID a)) (Uuid.to_string (c_ID b)).

Definition SelectCandidate (targetHour : Time) (candidates : list (option ObservationCandidate))
  : option ObservationCandidate :=
  foldl (keep_best (fun c best => candidateLess c best targetHour)) None candidates.

(** *** The order is a strict total order on identified candidates *)

Definition candidate_wf (c : ObservationCandidate) : Prop := uuid_wf (c_ID c).

(** The sort key the order compares lexicographically. *)
Definition candidate_key (h : Time) (c : ObservationCandidate) : Z * Z * Z * N :=
  (Z.b2z (negb (String.eqb (c_QualityFlag c) QualityCorrected)),
   provenanceRank (c_ObservationType c),
   absDuration (Sub (c_ObservedAt c) h), c_ID c).

Definition key_lt (a b : Z * Z * Z * N) : Prop :=
  let '(a1, a2, a3, a4) := a in let '(b1, b2, b3, b4) := b in
  a1 < b1 \/ (a1 = b1 /\ (a2 < b2 \/ (a2 = b2 /\ (a3 < b3 \/ (a3 = b3 /\ (a4 < b4)%N))))).

Lemma candidateLess_key h a b :
  candidate_wf a -> candidate_wf b ->
  candidateLess a b h = true <-> key_lt (candidate_key h a) (candidate_key h b).
Proof.
  intros Wa Wb. unfold candidateLess, candidate_key, key_lt. rewrite Uuid.str_ltb_uuid by assumption.
  destruct (String.eqb (c_QualityFlag a) QualityCorrected), (String.eqb (c_QualityFlag b) QualityCorrected);
    cbn [Bool.eqb negb Z.b2z]; try (split; [lia|]; intuition (discriminate || lia)).
  all: destruct (Z.eqb_spec (provenanceRank (c_ObservationType a)) (provenanceRank (c_ObservationType b))) as [->|R];
    cbn [negb]; [|rewrite Z.ltb_lt; lia].
  all: destruct (Z.eqb_spec (absDuration (Sub (c_ObservedAt a) h)) (absDuration (Sub (c_ObservedAt b) h))) as [->|R];
    cbn [negb]; [|rewrite Z.ltb_lt; lia].
  all: rewrite N.ltb_lt; lia.
Qed.

Lemma key_lt_irrefl k : ~ key_lt k k.
Proof. destruct k as [[[]]]; cbn; lia. Qed.
Lemma key_lt_trans a b c : key_lt a b -> key_lt b c -> key_lt a c.
Proof. destruct a as [[[]]], b as [[[]]], c as [[[]]]; cbn; lia. Qed.
Lemma key_lt_total a b : ~ key_lt a b -> ~ key_lt b a -> a.2 = b.2.
Proof. destruct a as [[[]]], b as [[[]]]; cbn; lia. Qed.

Lemma candidateLess_irrefl h a : candidate_wf a -> candidateLess a a h = false.
Proof.
  intros W. apply not_true_is_false. rewrite candidateLess_key by assumption. apply key_lt_irrefl.
Qed.

Lemma candidateLess_trans h a b c :
  candidate_wf a -> candidate_wf b -> candidate_wf c ->
  candidateLess a b h = true -> candidateLess b c h = true -> candidateLess a c h = true.
Proof. intros Wa Wb Wc. rewrite !candidateLess_key by assumption. apply key_lt_trans. Qed.

Lemma candidateLess_total h a b :
  candidate_wf a -> candidate_wf b ->
  candidateLess a b h = false -> candidateLess b a h = false -> c_ID a = c_ID b.
Proof.
  intros Wa Wb A B. apply not_true_iff_false in A, B. rewrite candidateLess_key in A, B by assumption.
  exact (key_lt_total _ _ A B).
Qed.

(** The winner is a candidate that no candidate beats. *)
Lemma SelectCandidate_best h cs :
  all_P candidate_wf cs -> best_of (fun c b => candidateLess c b h) cs (SelectCandidate h cs).
Proof.
  intros W. unfold SelectCandidate. apply (foldl_best _ candidate_wf); auto.
  - intros a. apply candidateLess_irrefl.
  - intros a b c. apply candidateLess_trans.
Qed.

Lemma SelectCandidate_in h (cs : list ObservationCandidate) c :
  Forall candidate_wf cs -> SelectCandidate h (Some <$> cs) = Some c -> c ∈ cs.
Proof.
  intros W E. assert (all_P candidate_wf (Some <$> cs)) as W'.
  { intros a (x & [= <-] & Hx)%list_elem_of_fmap. now rewrite Forall_forall in W; apply W. }
  pose proof (SelectCandidate_best h _ W') as B. rewrite E in B.
  destruct B as [(x & [= ->] & Hx)%list_elem_of_fmap _]. exact Hx.
Qed.

Lemma SelectCandidate_none h (cs : list ObservationCandidate) :
  Forall candidate_wf cs -> SelectCandidate h (Some <$> cs) = None -> cs = [].
Proof.
  intros W E. assert (all_P candidate_wf (Some <$> cs)) as W'.
  { intros a (x & [= <-] & Hx)%list_elem_of_fmap. now rewrite Forall_forall in W; apply W. }
  pose proof (SelectCandidate_best h _ W') as B. rewrite E in B. cbn in B.
  destruct cs as [|c cs]; [reflexivity|]. destruct (B c). left.
Qed.

(** ** ports.MatchRepository *)

Record RematchTarget := MkRematch {
  r_Snapshot : SnapshotToMatch;
  r_NewObservationID : uuid;
  r_NewObservedAt : Time
}.

#[export] Instance RematchTarget_eq_dec : EqDecision RematchTarget.
Proof. solve_decision. Defined.

(** The statements of the port, as functions of the tables. *)
Class MatchRepository (D : Type) := {
  ListUnmatchedSnapshots : Time -> Time -> uuid -> nat -> D -> list SnapshotToMatch;
  FindCandidates : uuid -> Time -> D -> list ObservationCandidate;
  InsertMatches : list MatchedEvaluation -> D -> D * Z;
  ListRematchTargets : nat -> D -> list RematchTarget;
  CountUnmatched : Time -> Time -> D -> Z;
}.

(** [ON CONFLICT (forecast_snapshot_id, observation_id) DO NOTHING], row by row. *)
Definition pair_key (p : MatchedEvaluation) : uuid * uuid := (me_ForecastSnapshotID p, me_ObservationID p).

Definition insert_pair (ps : list MatchedEvaluation) (p : MatchedEvaluation) : list MatchedEvaluation :=
  if existsb (fun q => bool_decide (pair_key q = pair_key p)) ps then ps else ps ++ [p].

Definition insert_pairs (ps ms : list MatchedEvaluation) : list MatchedEvaluation := foldl insert_pair ps ms.

(** A pair whose observation was replaced by one the snapshot is not yet paired with. *)
Definition pending (successor : uuid -> option (uuid * Time)) (ps : list MatchedEvaluation) (p : MatchedEvaluation) : bool :=
  match successor (me_ObservationID p) with
  | Some (o, _) => bool_decide ((me_ForecastSnapshotID p, o) ∉ pair_key <$> ps)
  | None => false
  end.

(** What the port promises to the engine, over three views of the tables: the
    snapshots, the stored pairs, and which observation replaced which. *)
Class MatchRepositoryLaws (D : Type) `{MatchRepository D} := {
  snaps : D -> list SnapshotToMatch;
  pairs : D -> list MatchedEvaluation;
  successor : D -> uuid -> option (uuid * Time);
  tables_wf : D -> Prop;
  wf_snaps : forall d, tables_wf d -> NoDup (m_ID <$> snaps d);
  wf_cands : forall d l h, tables_wf d -> Forall candidate_wf (FindCandidates l h d);
  unmatched_sound : forall d from to after n s, s ∈ ListUnmatchedSnapshots from to after n d ->
    s ∈ snaps d /\ from <= m_TargetTime s < to /\ (after < m_ID s)%N /\
    m_ID s ∉ me_ForecastSnapshotID <$> pairs d;
  unmatched_order : forall d from to after n,
    StronglySorted (fun a b => (m_ID a <= m_ID b)%N) (ListUnmatchedSnapshots from to after n d);
  unmatched_complete : forall d from to after n s, s ∈ snaps d -> from <= m_TargetTime s < to ->
    (after < m_ID s)%N -> m_ID s ∉ me_ForecastSnapshotID <$> pairs d ->
    s ∉ ListUnmatchedSnapshots from to after n d ->
    length (ListUnmatchedSnapshots from to after n d) = n /\
    forall r, r ∈ ListUnmatchedSnapshots from to after n d -> (m_ID r <= m_ID s)%N;
  unmatched_length : forall d from to after n, (length (ListUnmatchedSnapshots from to after n d) <= n)%nat;
  cands_live : forall d l h c, tables_wf d -> c ∈ FindCandidates l h d -> successor d (c_ID c) = None;
  insert_spec : forall d ms, pairs (InsertMatches ms d).1 = insert_pairs (pairs d) ms;
  insert_count : forall d ms,
    (InsertMatches ms d).2 = Z.of_nat (length (insert_pairs (pairs d) ms)) - Z.of_nat (length (pairs d));
  insert_snaps : forall d ms, snaps (InsertMatches ms d).1 = snaps d;
  insert_cands : forall d ms l h, FindCandidates l h (InsertMatches ms d).1 = FindCandidates l h d;
  insert_successor : forall d ms, successor (InsertMatches ms d).1 = successor d;
  insert_wf : forall d ms, tables_wf d -> tables_wf (InsertMatches ms d).1;
  rematch_sound : forall d n t, tables_wf d -> t ∈ ListRematchTargets n d ->
    exists p, p ∈ pairs d /\ successor d (me_ObservationID p) = Some (r_NewObservationID t, r_NewObservedAt t) /\
      (me_ForecastSnapshotID p, r_NewObservationID t) ∉ pair_key <$> pairs d /\
      r_Snapshot t = MkSnapshotToMatch (me_ForecastSnapshotID p) (me_ProviderID p) (me_LocationID p)
                       (me_TargetTime p) (me_ForecastHorizonMinutes p);
  rematch_complete : forall d n p o at_, tables_wf d -> p ∈ pairs d -> successor d (me_ObservationID p) = Some (o, at_) ->
    (me_ForecastSnapshotID p, o) ∉ pair_key <$> pairs d ->
    (exists t, t ∈ ListRematchTargets n d /\ m_ID (r_Snapshot t) = me_ForecastSnapshotID p /\ r_NewObservationID t = o)
    \/ length (ListRematchTargets n d) = n;
  rematch_length : forall d n, tables_wf d ->
    (length (ListRematchTargets n d) <= length (List.filter (pending (successor d) (pairs d)) (pairs d)))%nat;
}.

(** ** match.go *)

Definition defaultChunkSize : nat := 5000.
Definition matchWindowBack : Duration := 30 * 24 * Hour.
Definition publicationMargin : Duration := 2 * Hour.
Definition rematchBatchLimit : nat := 5000.

(** [int(f)] of a finite value; the conversions here are of finite durations. *)
Definition int_of (x : float64) : Z := default minInt64 (f64_to_Z x).

Definition newPair (id : uuid) (snap : SnapshotToMatch) (obsID : uuid) (observedAt : Time) : MatchedEvaluation :=
  let delta := int_of (Minutes (Sub observedAt (m_TargetTime snap))) in
  let delta := if delta <? 0 then - delta else delta in
  MkMatched id (m_ID snap) obsID (m_ProviderID snap) (m_LocationID snap)
    (m_ForecastHorizonMinutes snap) (m_TargetTime snap) MatchExactHour delta.

Section Service.
Context `{Env} {D : Type} `{MatchRepository D} (chunkSize : nat).

(** The body of the loop over a chunk: the pair of one snapshot, if any. *)
Definition matchSnapshot (snap : SnapshotToMatch) : M D (option MatchedEvaluation) :=
  let hour := Truncate (m_TargetTime snap) Hour in
  candidates <-- query "find candidates" (FindCandidates (m_LocationID snap) hour) ;;
  match SelectCandidate hour (Some <$> candidates) with
  | None => ret None
  | Some chosen => id <-- fresh ;; ret (Some (newPair id snap (c_ID chosen) (c_ObservedAt chosen)))
  end.

Definition buildMatches (chunk : list SnapshotToMatch) : M D (list MatchedEvaluation) :=
  ms <-- mapM matchSnapshot chunk ;; ret (omap id ms).

Definition insertTx (matches : list MatchedEvaluation) : M D Z :=
  match matches with
  | [] => ret 0
  | _ => tx_run (dbcall "insert matches" (InsertMatches matches))
  end.

(** One chunk after the next; [None] is out of fuel, an error is returned with
    the pairs created so far. *)
Fixpoint matchLoop (fuel : nat) (from to : Time) (after : uuid) (created : Z)
  : M D (option (Z * option string)) :=
  match fuel with
  | O => ret None
  | S fuel =>
      r <-- attempt (query "list unmatched snapshots" (ListUnmatchedSnapshots from to after chunkSize)) ;;
      match r with
      | Error e => ret (Some (created, Some e))
      | Ok chunk =>
          match last chunk with
          | None => ret (Some (created, None))
          | Some lastSnap =>
              r <-- attempt (buildMatches chunk) ;;
              match r with
              | Error e => ret (Some (created, Some e))
              | Ok matches =>
                  r <-- attempt (insertTx matches) ;;
                  match r with
                  | Error e => ret (Some (created, Some e))
                  | Ok n =>
                      if (length chunk <? chunkSize)%nat then ret (Some (created + n, None))
                      else matchLoop fuel from to (m_ID lastSnap) (created + n)
                  end
              end
          end
      end
  end.

Definition rematch : M D Z :=
  targets <-- query "list rematch targets" (ListRematchTargets rematchBatchLimit) ;;
  match targets with
  | [] => ret 0
  | _ => matches <-- mapM (fun t => id <-- fresh ;;
                             ret (newPair id (r_Snapshot t) (r_NewObservationID t) (r_NewObservedAt t))) targets ;;
         tx_run (dbcall "insert matches" (InsertMatches matches))
  end.

(** Best effort: the count feeds a gauge, its error is only logged. *)
Definition updateBacklog (metrics : bool) (from to : Time) : M D unit :=
  if metrics then (_r <-- attempt (query "count unmatched" (CountUnmatched from to)) ;; ret tt) else ret tt.

Definition MatchBatch (metrics : bool) (fuel : nat) (now : Time) : M D (option (Z * option string)) :=
  let from := Add now (- matchWindowBack) in
  let to := Add now (- publicationMargin) in
  r <-- matchLoop fuel from to uuid_Nil 0 ;;
  match r with
  | None => ret None
  | Some (created, Some e) => ret (Some (created, Some e))
  | Some (created, None) =>
      r <-- attempt rematch ;;
      match r with
      | Error e => ret (Some (created, Some e))
      | Ok rematched =>
          updateBacklog metrics from to ;;; ret (Some (created + rematched, None))
      end
  end.
End Service.

(** ** analysispg.go *)

Module AnalysisPG.

Record MatchTables := MkTables {
  t_snapshots : list ForecastSnapshot;
  t_observations : list Observation;
  t_matched : list MatchedEvaluation
}.

Definition to_match (s : ForecastSnapshot) : SnapshotToMatch :=
  MkSnapshotToMatch (s_ID s) (s_ProviderID s) (s_LocationID s) (s_TargetTime s) (s_ForecastHorizonMinutes s).

Definition to_candidate (o : Observation) : ObservationCandidate :=
  MkCandidate (o_ID o) (o_ObservationType o) (o_QualityFlag o) (o_ObservedAt o).

(** [NOT EXISTS (SELECT 1 FROM matched_evaluations ...)] *)
Definition is_matched (d : MatchTables) (id : uuid) : bool :=
  existsb (fun p => bool_decide (me_ForecastSnapshotID p = id)) (t_matched d).

Definition id_le (a b : SnapshotToMatch) : Prop := (m_ID a <= m_ID b)%N.
#[export] Instance id_le_dec : RelDecision id_le.
Proof. intros a b. unfold id_le. apply _. Defined.

Definition in_window (from to : Time) (t : Time) : bool := (from <=? t) && (t <? to).

Definition pg_ListUnmatchedSnapshots (from to : Time) (after : uuid) (limit : nat) (d : MatchTables)
  : list SnapshotToMatch :=
  take limit (merge_sort id_le
    (List.filter (fun s => in_window from to (m_TargetTime s) && (after <? m_ID s)%N
                           && negb (is_matched d (m_ID s)))
       (to_match <$> t_snapshots d))).

Definition pg_FindCandidates (locationID : uuid) (hour : Time) (d : MatchTables) : list ObservationCandidate :=
  to_candidate <$>
    List.filter (fun o => bool_decide (o_LocationID o = locationID) && (o_ObservedAt o =? hour)
                     && negb (String.eqb (o_QualityFlag o) QualitySuspect)
                     && bool_decide (o_SupersededObservationID o = None)) (t_observations d).

Definition pg_InsertMatches (matches : list MatchedEvaluation) (d : MatchTables) : MatchTables * Z :=
  let ps := insert_pairs (t_matched d) matches in
  (MkTables (t_snapshots d) (t_observations d) ps,
   Z.of_nat (length ps) - Z.of_nat (length (t_matched d))).

(** The two joins of [ListRematchTargets]: the observation of a pair, and the
    observation that superseded it. *)
Definition rematch_row (d : MatchTables) (me : MatchedEvaluation) : list RematchTarget :=
  o ← List.filter (fun o => bool_decide (o_ID o = me_ObservationID me)) (t_observations d);
  match o_SupersededObservationID o with
  | None => []
  | Some sup =>
      n ← List.filter (fun n => bool_decide (o_ID n = sup)) (t_observations d);
      if existsb (fun me2 => bool_decide (pair_key me2 = (me_ForecastSnapshotID me, sup))) (t_matched d) then []
      else [MkRematch (MkSnapshotToMatch (me_ForecastSnapshotID me) (me_ProviderID me) (me_LocationID me)
                         (me_TargetTime me) (me_ForecastHorizonMinutes me)) sup (o_ObservedAt n)]
  end.

Definition rematch_rows (d : MatchTables) : list RematchTarget := t_matched d ≫= rematch_row d.

Definition target_le (a b : RematchTarget) : Prop := id_le (r_Snapshot a) (r_Snapshot b).
#[export] Instance target_le_dec : RelDecision target_le.
Proof. intros a b. unfold target_le. apply _. Defined.

Definition pg_ListRematchTargets (limit : nat) (d : MatchTables) : list RematchTarget :=
  take limit (merge_sort target_le (rematch_rows d)).

Definition pg_CountUnmatched (from to : Time) (d : MatchTables) : Z :=
  Z.of_nat (length (List.filter (fun s => in_window from to (s_TargetTime s) && negb (is_matched d (s_ID s)))
                      (t_snapshots d))).

#[export] Instance pg_match_repository : MatchRepository MatchTables := {
  ListUnmatchedSnapshots := pg_ListUnmatchedSnapshots;
  FindCandidates := pg_FindCandidates;
  InsertMatches := pg_InsertMatches;
  ListRematchTargets := pg_ListRematchTargets;
  CountUnmatched := pg_CountUnmatched;
}.

(** *** The tables keep the promises of the port *)

Definition find_obs (d : MatchTables) (id : uuid) : option Observation :=
  List.find (fun o => bool_decide (o_ID o = id)) (t_observations d).

Definition pg_successor (d : MatchTables) (id : uuid) : option (uuid * Time) :=
  o ← find_obs d id; sup ← o_SupersededObservationID o; n ← find_obs d sup; Some (sup, o_ObservedAt n).

Record pg_wf (d : MatchTables) : Prop := {
  pgw_snaps : NoDup (s_ID <$> t_snapshots d);
  pgw_obs : NoDup (o_ID <$> t_observations d);
  pgw_ids : Forall (fun o => uuid_wf (o_ID o)) (t_observations d);
}.

#[export] Instance id_le_total : Total id_le.
Proof. intros a b. unfold id_le. lia. Qed.
#[export] Instance id_le_trans : Transitive id_le.
Proof. intros a b c. unfold id_le. lia. Qed.
#[export] Instance target_le_total : Total target_le.
Proof. intros a b. apply id_le_total. Qed.
#[export] Instance target_le_trans : Transitive target_le.
Proof. intros a b c. apply id_le_trans. Qed.

Lemma is_matched_spec d id : is_matched d id = false <-> id ∉ me_ForecastSnapshotID <$> t_matched d.
Proof.
  unfold is_matched. rewrite <- not_true_iff_false, existsb_exists. split; intros N C; apply N.
  - apply list_elem_of_fmap in C as (p & -> & Hp). exists p. rewrite bool_decide_eq_true, <- list_elem_of_In. auto.
  - destruct C as (p & Hp & E). rewrite bool_decide_eq_true in E. subst. apply list_elem_of_fmap_2.
    now apply list_elem_of_In.
Qed.

Lemma in_window_spec from to t : in_window from to t = true <-> from <= t < to.
Proof. unfold in_window. rewrite andb_true_iff, Z.leb_le, Z.ltb_lt. tauto. Qed.

Lemma unmatched_filter d from to after s :
  s ∈ List.filter (fun s => in_window from to (m_TargetTime s) && (after <? m_ID s)%N
                       && negb (is_matched d (m_ID s))) (to_match <$> t_snapshots d) <->
  s ∈ to_match <$> t_snapshots d /\ from <= m_TargetTime s < to /\ (after < m_ID s)%N /\
    m_ID s ∉ me_ForecastSnapshotID <$> t_matched d.
Proof.
  rewrite list_elem_of_In, filter_In, <- list_elem_of_In, !andb_true_iff, in_window_spec, N.ltb_lt,
    negb_true_iff, is_matched_spec. tauto.
Qed.

(** With unique ids, "the" observation of an id is the row the joins find. *)
Lemma find_obs_in d o : pg_wf d -> o ∈ t_observations d -> find_obs d (o_ID o) = Some o.
Proof.
  intros [_ ND _]. unfold find_obs. induction (t_observations d) as [|x l IH]; intros Ho.
  - now apply not_elem_of_nil in Ho.
  - cbn in *. apply NoDup_cons in ND as [Nx ND]. apply elem_of_cons in Ho as [->|Ho].
    + now rewrite bool_decide_true.
    + rewrite bool_decide_false; [now apply IH|]. intros E. apply Nx. rewrite E. now apply list_elem_of_fmap_2.
Qed.

Lemma find_obs_some d id o : find_obs d id = Some o -> o ∈ t_observations d /\ o_ID o = id.
Proof.
  unfold find_obs. intros [Hi E]%find_some. rewrite bool_decide_eq_true in E.
  split; [now apply list_elem_of_In|assumption].
Qed.

Lemma filter_obs d id o :
  o ∈ List.filter (fun o => bool_decide (o_ID o = id)) (t_observations d) <-> o ∈ t_observations d /\ o_ID o = id.
Proof. now rewrite list_elem_of_In, filter_In, <- list_elem_of_In, bool_decide_eq_true. Qed.

Lemma paired_spec d k :
  existsb (fun me2 => bool_decide (pair_key me2 = k)) (t_matched d) = false <-> k ∉ pair_key <$> t_matched d.
Proof.
  rewrite <- not_true_iff_false, existsb_exists. split; intros N C; apply N.
  - apply list_elem_of_fmap in C as (p & -> & Hp). exists p. rewrite bool_decide_eq_true, <- list_elem_of_In. auto.
  - destruct C as (p & Hp & E). rewrite bool_decide_eq_true in E. subst. apply list_elem_of_fmap_2.
    now apply list_elem_of_In.
Qed.

Lemma rematch_rows_spec d t : pg_wf d ->
  t ∈ rematch_rows d <->
  exists p, p ∈ t_matched d /\
    pg_successor d (me_ObservationID p) = Some (r_NewObservationID t, r_NewObservedAt t) /\
    (me_ForecastSnapshotID p, r_NewObservationID t) ∉ pair_key <$> t_matched d /\
    r_Snapshot t = MkSnapshotToMatch (me_ForecastSnapshotID p) (me_ProviderID p) (me_LocationID p)
                     (me_TargetTime p) (me_ForecastHorizonMinutes p).
Proof.
  intros W. unfold rematch_rows, rematch_row. rewrite list_elem_of_bind. split.
  - intros (p & Ht & Hp). exists p. split; [assumption|].
    apply list_elem_of_bind in Ht as (o & Ht & Ho). apply filter_obs in Ho as [Ho Eo].
    destruct (o_SupersededObservationID o) as [sup|] eqn:Es; [|now apply not_elem_of_nil in Ht].
    apply list_elem_of_bind in Ht as (n & Ht & Hn). apply filter_obs in Hn as [Hn En].
    destruct (existsb _ _) eqn:Ex; [now apply not_elem_of_nil in Ht|].
    apply list_elem_of_singleton in Ht as ->. cbn. apply paired_spec in Ex. repeat split; auto.
    unfold pg_successor. rewrite <- Eo, (find_obs_in d o W Ho). cbn. rewrite Es. cbn.
    rewrite <- En, (find_obs_in d n W Hn). reflexivity.
  - intros (p & Hp & Hs & Nk & Er). exists p. split; [|assumption].
    unfold pg_successor in Hs. destruct (find_obs d (me_ObservationID p)) as [o|] eqn:Eo; [|discriminate].
    cbn in Hs. destruct (o_SupersededObservationID o) as [sup|] eqn:Es; [|discriminate]. cbn in Hs.
    destruct (find_obs d sup) as [n|] eqn:En; [|discriminate]. cbn in Hs.
    destruct t as [sn no na]. cbn in *. injection Hs as <- <-. subst sn.
    apply list_elem_of_bind. exists o. split; [|apply filter_obs; now apply find_obs_some].
    rewrite Es. apply list_elem_of_bind. exists n. split; [|apply filter_obs; now apply find_obs_some].
    rewrite (proj2 (paired_spec d _) Nk). now apply list_elem_of_singleton.
Qed.

Lemma filter_obs_nodup d id : pg_wf d ->
  List.filter (fun o => bool_decide (o_ID o = id)) (t_observations d) =
  match find_obs d id with Some o => [o] | None => [] end.
Proof.
  intros [_ ND _]. unfold find_obs. induction (t_observations d) as [|x l IH]; [reflexivity|].
  cbn in *. apply NoDup_cons in ND as [Nx ND]. case_bool_decide as E; [|now apply IH].
  f_equal. subst id. clear -Nx. induction l as [|y l IH]; [reflexivity|]. cbn in *.
  apply not_elem_of_cons in Nx as [N1 N2]. rewrite bool_decide_false by congruence. auto.
Qed.

Lemma rematch_rows_length d : pg_wf d ->
  (length (rematch_rows d) <= length (List.filter (pending (pg_successor d) (t_matched d)) (t_matched d)))%nat.
Proof.
  intros W. unfold rematch_rows.
  enough (K : forall ps, (length (ps ≫= rematch_row d)
                          <= length (List.filter (pending (pg_successor d) (t_matched d)) ps))%nat) by apply K.
  intros ps. induction ps as [|p ps IH]; [reflexivity|]. cbn [mbind list_bind List.filter]. rewrite length_app.
  assert (K : forall n m (b : bool) l, (n <= if b then 1 else 0)%nat -> (m <= length l)%nat ->
    (n + m <= length (if b then p :: l else l))%nat) by (intros; destruct b; cbn; lia).
  apply K; [|exact IH]. clear IH K. unfold rematch_row. rewrite filter_obs_nodup by assumption. unfold pending, pg_successor.
  destruct (find_obs d (me_ObservationID p)) as [o|]; cbn; [|lia].
  destruct (o_SupersededObservationID o) as [sup|]; cbn; [|lia].
  rewrite filter_obs_nodup by assumption. destruct (find_obs d sup) as [n|]; cbn; [|lia].
  destruct (existsb _ (t_matched d)) eqn:E; cbn; [lia|]. apply paired_spec in E. rewrite bool_decide_true by exact E. lia.
Qed.

#[export] Instance pg_match_laws : MatchRepositoryLaws MatchTables.
Proof.
  refine {| snaps d := to_match <$> t_snapshots d; pairs := t_matched;
            successor := pg_successor; tables_wf := pg_wf |}; cbn.
  - intros d []. rewrite <- list_fmap_compose. exact pgw_snaps0.
  - intros d l h []. unfold pg_FindCandidates.
    pose proof (proj1 (Forall_forall _ _) pgw_ids0) as Hids. apply Forall_forall.
    intros c (o & -> & Ho)%list_elem_of_fmap. apply list_elem_of_In, filter_In in Ho as [Ho _].
    apply Hids. now apply list_elem_of_In.
  - intros d from to after n s Hs. apply unmatched_filter. rewrite <- (merge_sort_Permutation id_le).
    eapply elem_of_take_in, Hs.
  - intros. apply StronglySorted_take, StronglySorted_merge_sort; apply _.
  - intros d from to after n s Hs Hw Ha Hu Nin. unfold pg_ListUnmatchedSnapshots in *.
    apply (take_sorted_complete id_le); auto; [apply StronglySorted_merge_sort; apply _|].
    rewrite merge_sort_Permutation. apply unmatched_filter. auto.
  - intros. apply firstn_le_length.
  - intros d l h c W Hc. unfold pg_FindCandidates in Hc. apply list_elem_of_fmap in Hc as (o & -> & Ho).
    apply list_elem_of_In, filter_In in Ho as [Ho F]. apply list_elem_of_In in Ho.
    apply andb_true_iff in F as [_ F]. rewrite bool_decide_eq_true in F.
    unfold pg_successor. cbn. rewrite (find_obs_in d o W Ho). cbn. now rewrite F.
  - reflexivity.
  - reflexivity.
  - reflexivity.
  - reflexivity.
  - reflexivity.
  - intros d ms []. now constructor.
  - intros d n t W Ht. apply rematch_rows_spec; [assumption|]. rewrite <- (merge_sort_Permutation target_le).
    eapply elem_of_take_in, Ht.
  - intros d n p o at_ W Hp Hs Nk.
    set (t := MkRematch (MkSnapshotToMatch (me_ForecastSnapshotID p) (me_ProviderID p) (me_LocationID p)
                (me_TargetTime p) (me_ForecastHorizonMinutes p)) o at_).
    assert (Ht : t ∈ merge_sort target_le (rematch_rows d)).
    { rewrite merge_sort_Permutation. apply rematch_rows_spec; [assumption|]. exists p. auto. }
    destruct (decide (t ∈ pg_ListRematchTargets n d)) as [I|N]; [left; exists t; auto|right].
    apply (take_sorted_complete target_le _ _ t); auto. apply StronglySorted_merge_sort; apply _.
  - intros d n W. unfold pg_ListRematchTargets. rewrite length_take, (Permutation_length (merge_sort_Permutation _ _)).
    pose proof (rematch_rows_length d W). lia.
Defined.

End AnalysisPG.

End Matching.
