(* ===== verification/MatchProps.v ===== *)
(** * Correctness of the matching engine

    Proved against the port's laws ([MatchRepositoryLaws]), so they hold of the
    PostgreSQL repository through its instance: wherever a batch stops, the pairs it
    added are unique, justified and counted, a batch that returns success has matched
    every snapshot that could be matched, and the loop over chunks terminates. *)

From Stdlib Require Import ZArith Lia Bool String.
From stdpp Require Import base list strings sorting.
From S2P Require Import Prelude Float64 GoTime Uuid Effects Records Matching.

Import Records Matching.
Local Open Scope Z_scope.

Module MatchProps.

(** ** Inserting pairs *)

Lemma insert_pair_cases ps p :
  (insert_pair ps p = ps /\ pair_key p ∈ pair_key <$> ps) \/
  (insert_pair ps p = ps ++ [p] /\ pair_key p ∉ pair_key <$> ps).
Proof.
  unfold insert_pair. destruct (existsb _ ps) eqn:E.
  - left. split; [reflexivity|]. apply existsb_exists in E as (q & Hq & Eq).
    rewrite bool_decide_eq_true in Eq. rewrite <- Eq. apply list_elem_of_fmap_2. now apply list_elem_of_In.
  - right. split; [reflexivity|]. intros C. apply list_elem_of_fmap in C as (q & Eq & Hq).
    apply not_true_iff_false in E. apply E. apply existsb_exists. exists q.
    rewrite bool_decide_eq_true. split; [now apply list_elem_of_In|now symmetry].
Qed.

Lemma insert_pairs_prefix ps ms : ps `prefix_of` insert_pairs ps ms.
Proof.
  unfold insert_pairs. revert ps. induction ms as [|m ms IH]; intros ps; [reflexivity|]. cbn.
  transitivity (insert_pair ps m); [|apply IH].
  destruct (insert_pair_cases ps m) as [[-> _]|[-> _]]; [reflexivity|now exists [m]].
Qed.

Lemma insert_pairs_nodup ps ms : NoDup (pair_key <$> ps) -> NoDup (pair_key <$> insert_pairs ps ms).
Proof.
  unfold insert_pairs. revert ps. induction ms as [|m ms IH]; intros ps N; [exact N|]. cbn. apply IH.
  destruct (insert_pair_cases ps m) as [[-> _]|[-> K]]; [assumption|].
  rewrite fmap_app. apply NoDup_app. split; [assumption|]. split; [|apply NoDup_singleton].
  intros x Hx Hm. cbn in Hm. apply list_elem_of_singleton in Hm as ->. contradiction.
Qed.

Lemma insert_pairs_has ps ms m : m ∈ ms -> pair_key m ∈ pair_key <$> insert_pairs ps ms.
Proof.
  revert ps. induction ms as [|x ms IH]; intros ps Hm; [now apply not_elem_of_nil in Hm|].
  apply elem_of_cons in Hm as [->|Hm]; [|now apply IH]. cbn.
  destruct (insert_pairs_prefix (insert_pair ps x) ms) as [tl E]. unfold insert_pairs in E. rewrite E.
  rewrite fmap_app, elem_of_app. left.
  destruct (insert_pair_cases ps x) as [[-> K]|[-> _]]; [exact K|].
  rewrite fmap_app, elem_of_app. right. left.
Qed.

(** What is appended comes from the inserted rows. *)
Lemma insert_pairs_ext ps ms :
  exists tl, insert_pairs ps ms = ps ++ tl /\ forall p, p ∈ tl -> p ∈ ms.
Proof.
  unfold insert_pairs. revert ps. induction ms as [|x ms IH]; intros ps.
  - exists []. rewrite app_nil_r. split; [reflexivity|intros p Hp; exact Hp].
  - cbn. destruct (IH (insert_pair ps x)) as (tl & -> & Ht).
    destruct (insert_pair_cases ps x) as [[-> _]|[-> _]].
    + exists tl. split; [reflexivity|]. intros p Hp. right; auto.
    + exists (x :: tl). rewrite <- app_assoc. split; [reflexivity|].
      intros p [->|Hp]%elem_of_cons; [left|right; auto].
Qed.

(** Pairs that are all new are all added. *)
Lemma insert_pairs_fresh ps ms :
  NoDup (pair_key <$> (ps ++ ms)) -> insert_pairs ps ms = ps ++ ms.
Proof.
  unfold insert_pairs. revert ps. induction ms as [|m ms IH]; intros ps N; [now rewrite app_nil_r|]. cbn.
  destruct (insert_pair_cases ps m) as [[_ K]|[-> _]].
  - exfalso. rewrite fmap_app, fmap_cons in N. apply NoDup_app in N as (_ & N & _). apply (N (pair_key m)); [assumption|left].
  - rewrite IH; rewrite <- app_assoc; [reflexivity|exact N].
Qed.

(** ** The batch *)

Section Batch.
Context `{Env} {D : Type} `{MatchRepositoryLaws D}.

(** *** Uniqueness and lineage, whatever faults occur *)

Lemma preserves_nodup_insert ms :
  preserves (fun d => NoDup (pair_key <$> pairs d)) (dbcall "insert matches" (InsertMatches ms)).
Proof. apply preserves_dbcall. intros d N. rewrite insert_spec. now apply insert_pairs_nodup. Qed.

Lemma preserves_prefix_insert ps ms :
  preserves (fun d => ps `prefix_of` pairs d) (dbcall "insert matches" (InsertMatches ms)).
Proof.
  apply preserves_dbcall. intros d Px. rewrite insert_spec.
  etransitivity; [exact Px|apply insert_pairs_prefix].
Qed.

Section Any.
Context (P : D -> Prop) (HP : forall ms, preserves P (dbcall "insert matches" (InsertMatches ms))).

Lemma preserves_matchSnapshot s : preserves P (matchSnapshot s).
Proof. apply preserves_bind; [apply preserves_query|]. intros cs. destruct (SelectCandidate _ _); eauto with fiq. Qed.

Lemma preserves_insertTx ms : preserves P (insertTx ms).
Proof. destruct ms; [apply preserves_ret|]. apply preserves_tx, HP. Qed.

Lemma preserves_matchLoop chunkSize fuel from to after created :
  preserves P (matchLoop chunkSize fuel from to after created).
Proof.
  revert after created. induction fuel as [|fuel IH]; intros after created; [apply preserves_ret|].
  cbn [matchLoop]. apply preserves_bind; [eauto with fiq|]. intros [chunk|e]; [|apply preserves_ret].
  destruct (last chunk) as [ls|]; [|apply preserves_ret].
  apply preserves_bind.
  { apply preserves_attempt, preserves_bind; [|eauto with fiq]. apply preserves_mapM, preserves_matchSnapshot. }
  intros [ms|e]; [|apply preserves_ret].
  apply preserves_bind; [apply preserves_attempt, preserves_insertTx|].
  intros [n|e]; [|apply preserves_ret]. destruct (_ <? _)%nat; [apply preserves_ret|apply IH].
Qed.

Lemma preserves_rematch : preserves P rematch.
Proof.
  apply preserves_bind; [apply preserves_query|]. intros [|t ts]; [apply preserves_ret|].
  apply preserves_bind; [eauto with fiq|]. intros ms. apply preserves_tx, HP.
Qed.

Lemma preserves_MatchBatch chunkSize metrics fuel now :
  preserves P (MatchBatch chunkSize metrics fuel now).
Proof.
  apply preserves_bind; [apply preserves_matchLoop|]. intros [[created [e|]]|]; try apply preserves_ret.
  apply preserves_bind; [apply preserves_attempt, preserves_rematch|]. intros [r|e]; [|apply preserves_ret].
  apply preserves_bind; [|intros; apply preserves_ret]. unfold updateBacklog. destruct metrics; eauto with fiq.
Qed.
End Any.

(** *** What a batch achieves *)

(** Everything of the tables but the pairs is as at the start. *)
Record frame (d0 d : D) : Prop := {
  fr_wf : tables_wf d;
  fr_snaps : snaps d = snaps d0;
  fr_cands : forall l h, FindCandidates l h d = FindCandidates l h d0;
  fr_succ : successor d = successor d0;
}.

Definition winner (d : D) (s : SnapshotToMatch) : option ObservationCandidate :=
  let hour := Truncate (m_TargetTime s) Hour in
  SelectCandidate hour (Some <$> FindCandidates (m_LocationID s) hour d).

Definition matched (d : D) (s : SnapshotToMatch) : Prop := m_ID s ∈ me_ForecastSnapshotID <$> pairs d.

#[local] Instance matched_dec d s : Decision (matched d s).
Proof. unfold matched. apply _. Defined.

(** A pair of the batch: a snapshot with its winning observation. *)
Definition won (d : D) (p : MatchedEvaluation) : Prop :=
  exists s c, s ∈ snaps d /\ winner d s = Some c /\ p = newPair (me_ID p) s (c_ID c) (c_ObservedAt c).

Lemma frame_insert d0 d ms : frame d0 d -> frame d0 (InsertMatches ms d).1.
Proof.
  intros []. constructor; [now apply insert_wf|now rewrite insert_snaps| |now rewrite insert_successor].
  intros. now rewrite insert_cands.
Qed.

Lemma frame_winner d0 d s : frame d0 d -> winner d s = winner d0 s.
Proof. intros []. unfold winner. now rewrite fr_cands0. Qed.

(** The result of the chunk's body for one snapshot. *)
Definition pair_result (d : D) (s : SnapshotToMatch) (r : option MatchedEvaluation) : Prop :=
  match winner d s with
  | None => r = None
  | Some c => exists id, r = Some (newPair id s (c_ID c) (c_ObservedAt c))
  end.

Lemma hoare_matchSnapshot d0 (P : D -> Prop) s :
  (forall d, P d -> frame d0 d) ->
  hoare P (matchSnapshot s) (fun r d => P d /\ pair_result d0 s r) P.
Proof.
  intros HP. unfold matchSnapshot. eapply hoare_bind; [apply hoare_query|]. intros cs. cbn beta.
  intros w [Hw ->]. pose proof (frame_winner d0 _ s (HP _ Hw)) as W. unfold pair_result. rewrite <- W.
  unfold winner. destruct (SelectCandidate _ _); cbn; eauto.
Qed.

Lemma hoare_buildMatches d0 (P : D -> Prop) chunk :
  (forall d, P d -> frame d0 d) ->
  hoare P (buildMatches chunk)
    (fun ms d => P d /\ exists rs, Forall2 (pair_result d0) chunk rs /\ ms = omap id rs) P.
Proof.
  intros HP. eapply hoare_bind; [apply (hoare_mapM _ _ (pair_result d0))|].
  - intros s _. now apply hoare_matchSnapshot.
  - intros rs. apply hoare_ret. intros d [Hd F]. eauto.
Qed.

Lemma results_won d0 chunk rs :
  (forall s, s ∈ chunk -> s ∈ snaps d0) -> Forall2 (pair_result d0) chunk rs -> Forall (won d0) (omap id rs).
Proof.
  intros Hs F. induction F as [|s r chunk rs R F IH]; cbn; [constructor|].
  assert (Forall (won d0) (omap id rs)) by (apply IH; intros; apply Hs; now right).
  unfold pair_result in R. destruct (winner d0 s) as [c|] eqn:W.
  - destruct R as [i ->]. cbn. constructor; [|assumption]. exists s, c. repeat split; auto. apply Hs; left.
  - now rewrite R.
Qed.

Lemma results_has d0 chunk rs s c :
  Forall2 (pair_result d0) chunk rs -> s ∈ chunk -> winner d0 s = Some c ->
  exists i, newPair i s (c_ID c) (c_ObservedAt c) ∈ omap id rs.
Proof.
  intros F. induction F as [|x r chunk rs R F IH]; intros Hs W; [now apply not_elem_of_nil in Hs|].
  apply elem_of_cons in Hs as [->|Hs].
  - unfold pair_result in R. rewrite W in R. destruct R as [i ->]. exists i. cbn. left.
  - destruct (IH Hs W) as [i Hi]. exists i. cbn. destruct r; cbn; [now right|assumption].
Qed.

(** The state of the loop before the chunk after [after]. *)
Record loop_inv (d0 : D) (from to : Time) (upto : uuid -> Prop) (created : Z) (d : D) : Prop := {
  li_frame : frame d0 d;
  li_new : exists new, pairs d = pairs d0 ++ new /\ created = Z.of_nat (length new) /\ Forall (won d0) new;
  li_done : forall s, s ∈ snaps d0 -> from <= m_TargetTime s < to -> (uuid_Nil < m_ID s)%N ->
    upto (m_ID s) -> winner d0 s <> None -> matched d s;
}.

Lemma loop_inv_insert d0 from to (upto upto' : uuid -> Prop) created d chunk rs d' n :
  loop_inv d0 from to upto created d ->
  frame d0 d' -> pairs d' = insert_pairs (pairs d) (omap id rs) ->
  n = Z.of_nat (length (insert_pairs (pairs d) (omap id rs))) - Z.of_nat (length (pairs d)) ->
  (forall s, s ∈ chunk -> s ∈ snaps d0) -> Forall2 (pair_result d0) chunk rs ->
  (forall s, s ∈ snaps d0 -> from <= m_TargetTime s < to -> (uuid_Nil < m_ID s)%N ->
     upto' (m_ID s) -> upto (m_ID s) \/ s ∈ chunk \/ matched d s) ->
  loop_inv d0 from to upto' (created + n) d'.
Proof.
  intros [F (new & En & Ec & Fn) Hd] F' Ep -> Hc HF Hup. constructor; [assumption| |]; rewrite ?Ep.
  - destruct (insert_pairs_ext (pairs d) (omap id rs)) as (tl & E & Ht). exists (new ++ tl). rewrite E, En.
    repeat split; [now rewrite app_assoc|rewrite !length_app; lia|].
    apply Forall_app. split; [assumption|]. pose proof (results_won d0 chunk rs Hc HF) as Fw.
    apply Forall_forall. intros p Hp. rewrite Forall_forall in Fw. auto.
  - intros s Hs Hw Hnil Hu Hwin.
    assert (Mono : matched d s -> matched d' s).
    { unfold matched. rewrite Ep. destruct (insert_pairs_prefix (pairs d) (omap id rs)) as [tl ->].
      rewrite fmap_app, elem_of_app. auto. }
    destruct (Hup s Hs Hw Hnil Hu) as [U|[I|Md]]; auto.
    destruct (winner d0 s) as [c|] eqn:W; [|contradiction].
    destruct (results_has d0 chunk rs s c HF I W) as [i Hi].
    pose proof (insert_pairs_has (pairs d) _ _ Hi) as K. unfold matched. rewrite Ep.
    apply list_elem_of_fmap in K as (q & Eq & Hq). apply list_elem_of_fmap. exists q. split; [|assumption].
    unfold pair_key in Eq. injection Eq as Eq _. exact Eq.
Qed.

(** What the loop's result says of the tables it leaves. *)
Definition loop_post (d0 : D) (from to : Time) (r : option (Z * option string)) (d : D) : Prop :=
  match r with
  | Some (created, None) => loop_inv d0 from to (fun _ => True) created d
  | _ => True
  end.

Lemma last_max (R : SnapshotToMatch -> SnapshotToMatch -> Prop) l x y :
  (forall a, R a a) -> StronglySorted R l -> last l = Some y -> x ∈ l -> R x y.
Proof.
  intros Rf S. revert x. induction S as [|a l S IH F]; intros x E Hx; [discriminate|].
  destruct l as [|b l].
  - cbn in E. injection E as ->. apply elem_of_cons in Hx as [->|Hx]; [apply Rf|now apply not_elem_of_nil in Hx].
  - assert (E' : last (b :: l) = Some y) by exact E. apply elem_of_cons in Hx as [->|Hx]; [|now apply IH].
    rewrite Forall_forall in F. apply F. apply last_Some in E' as [l' ->]. apply elem_of_app. right; left.
Qed.

Section Chunk.
Context (d0 d : D) (from to : Time) (after : uuid) (n : nat).
Context (W0 : tables_wf d0) (F : frame d0 d).
Let chunk := ListUnmatchedSnapshots from to after n d.

Lemma chunk_snaps s : s ∈ chunk -> s ∈ snaps d0.
Proof. intros Hs. apply unmatched_sound in Hs as [Hs _]. now rewrite (fr_snaps _ _ F) in Hs. Qed.

Lemma same_id_same s s' : s ∈ snaps d0 -> s' ∈ snaps d0 -> m_ID s = m_ID s' -> s = s'.
Proof.
  intros Hs Hs' E. apply wf_snaps in W0. apply list_elem_of_lookup in Hs as [i Hi], Hs' as [j Hj].
  assert (i = j) as ->; [|congruence]. apply (NoDup_lookup _ i j (m_ID s) W0).
  - rewrite list_lookup_fmap, Hi. reflexivity.
  - rewrite list_lookup_fmap, Hj, E. reflexivity.
Qed.

(** Up to the last id of a full chunk, nothing is left out. *)
Lemma chunk_covers ls s :
  last chunk = Some ls -> s ∈ snaps d0 -> from <= m_TargetTime s < to ->
  (m_ID s <= m_ID ls)%N -> (m_ID s <= after)%N \/ s ∈ chunk \/ matched d s.
Proof.
  intros Hl Hs Hw Hle. destruct (decide (m_ID s <= after)%N) as [?|Ha]; [now left|right].
  destruct (decide (matched d s)) as [?|Hm]; [now right|left].
  destruct (decide (s ∈ chunk)) as [?|Nc]; [assumption|exfalso].
  rewrite <- (fr_snaps _ _ F) in Hs.
  destruct (unmatched_complete d from to after n s Hs Hw ltac:(lia) Hm Nc) as [_ Hmax].
  assert (Hlc : ls ∈ chunk) by (apply last_Some in Hl as [l' El]; fold chunk; rewrite El; apply elem_of_app; right; left).
  assert (E : m_ID s = m_ID ls) by (specialize (Hmax ls Hlc); lia).
  rewrite (fr_snaps _ _ F) in Hs. apply Nc. now rewrite (same_id_same s ls Hs (chunk_snaps ls Hlc) E).
Qed.

(** A chunk that is not full leaves nothing after it. *)
Lemma chunk_final s :
  (length chunk < n)%nat -> s ∈ snaps d0 -> from <= m_TargetTime s < to ->
  (m_ID s <= after)%N \/ s ∈ chunk \/ matched d s.
Proof.
  intros Hn Hs Hw. destruct (decide (m_ID s <= after)%N) as [?|Ha]; [now left|right].
  destruct (decide (matched d s)) as [?|Hm]; [now right|left].
  destruct (decide (s ∈ chunk)) as [?|Nc]; [assumption|exfalso].
  rewrite <- (fr_snaps _ _ F) in Hs.
  destruct (unmatched_complete d from to after n s Hs Hw ltac:(lia) Hm Nc) as [Hlen _].
  unfold chunk in Hn. lia.
Qed.
End Chunk.

Lemma hoare_insertTx (P : D -> Prop) (Q : Z -> D -> Prop) ms :
  (forall d, P d -> Q (InsertMatches ms d).2 (InsertMatches ms d).1) ->
  (ms = [] -> forall d, P d -> Q 0 d) -> hoare P (insertTx ms) Q P.
Proof.
  intros HQ HE. destruct ms as [|m ms]; [apply hoare_ret; auto|].
  eapply hoare_tx, hoare_dbcall. exact HQ.
Qed.

(** The loop, from any state of its invariant. *)
Lemma hoare_matchLoop d0 chunkSize fuel from to after created :
  tables_wf d0 -> (0 < chunkSize)%nat ->
  hoare (loop_inv d0 from to (fun i => (i <= after)%N) created)
    (matchLoop chunkSize fuel from to after created) (loop_post d0 from to) (fun _ => True).
Proof.
  intros W0 Hcs. revert after created. induction fuel as [|fuel IH]; intros after created.
  { now apply hoare_ret. }
  cbn [matchLoop]. set (P := loop_inv d0 from to (fun i => (i <= after)%N) created).
  eapply hoare_bind; [apply hoare_attempt, hoare_query|].
  intros [chunk|e]; cbn beta; [|now apply hoare_ret].
  assert (FP : forall d, P d /\ chunk = ListUnmatchedSnapshots from to after chunkSize d -> frame d0 d)
    by (intros d [[] _]; assumption).
  destruct (last chunk) as [ls|] eqn:El.
  - eapply hoare_bind; [apply hoare_attempt, (hoare_buildMatches d0 _ chunk FP)|].
    intros [ms|e]; cbn beta; [|now apply hoare_ret].
    set (Q := fun (n : Z) d => loop_inv d0 from to (fun i => (i <= m_ID ls)%N) (created + n) d /\
                ((length chunk < chunkSize)%nat -> loop_inv d0 from to (fun _ => True) (created + n) d)).
    assert (Step : forall d rs d' n, P d /\ chunk = ListUnmatchedSnapshots from to after chunkSize d ->
      Forall2 (pair_result d0) chunk rs -> frame d0 d' -> pairs d' = insert_pairs (pairs d) (omap id rs) ->
      n = Z.of_nat (length (insert_pairs (pairs d) (omap id rs))) - Z.of_nat (length (pairs d)) -> Q n d').
    { intros d rs d' n [Hd Ec] HF F' Ep En. subst chunk. pose proof (li_frame _ _ _ _ _ _ Hd) as Fd.
      split; [|intros Hlt]; 
        eapply (loop_inv_insert d0 from to _ _ created d (ListUnmatchedSnapshots from to after chunkSize d) rs);
        eauto using chunk_snaps.
      - intros s Hs Hw _ Hu. eapply chunk_covers; eauto.
      - intros s Hs Hw _ _. eapply chunk_final; eauto. }
    eapply (hoare_bind _ _ (fun r d => match r with Ok n => Q n d | Error _ => True end)).
    + eapply hoare_weaken; [intros d HH; exact HH| |intros d HH; exact HH|apply hoare_attempt, (hoare_insertTx _ Q)].
      * intros [n|e] d HH; [exact HH|exact I].
      * intros d [Hd (rs & HF & ->)]. apply (Step d rs); auto.
        -- apply frame_insert. apply FP, Hd.
        -- apply insert_spec.
        -- apply insert_count.
      * intros E0 d [Hd (rs & HF & Ers)]. apply (Step d rs); auto; rewrite <- Ers, E0; [reflexivity|]. cbn. lia.
    + intros [n|e]; [|now apply hoare_ret].
      destruct (length chunk <? chunkSize)%nat eqn:Elt.
      * apply hoare_ret. intros d [_ Hq]. apply Hq. now apply Nat.ltb_lt.
      * eapply hoare_weaken; [|intros a d HH; exact HH|intros d HH; exact HH|apply IH].
        intros d [Hq _]. exact Hq.
  - apply hoare_ret. intros d [Hd Ec]. cbn. apply last_None in El. subst chunk.
    pose proof (li_frame _ _ _ _ _ _ Hd) as Fd. destruct Hd as [_ Hn Hdn]. constructor; [assumption|assumption|].
    intros s Hs Hw Hnil _ Hwin.
    destruct (chunk_final d0 d from to after chunkSize Fd s ltac:(rewrite <- Ec; exact Hcs) Hs Hw) as [U|[I|Md]]; auto.
    rewrite <- Ec in I. now apply not_elem_of_nil in I.
Qed.
(** *** The loop over chunks terminates *)

(** Snapshots the loop can still reach. *)
Definition ahead (S : list SnapshotToMatch) (after : uuid) : nat :=
  length (List.filter (fun s => (after <? m_ID s)%N) S).

Lemma ahead_decreases S after s :
  s ∈ S -> (after < m_ID s)%N -> (ahead S (m_ID s) < ahead S after)%nat.
Proof.
  intros Hs Ha. unfold ahead. assert (Mono : forall l, (length (List.filter (fun x => (m_ID s <? m_ID x)%N) l)
    <= length (List.filter (fun x => (after <? m_ID x)%N) l))%nat).
  { induction l as [|x l IH]; cbn; [lia|].
    destruct (N.ltb_spec (m_ID s) (m_ID x)), (N.ltb_spec after (m_ID x)); cbn; lia. }
  apply list_elem_of_split in Hs as (l1 & l2 & ->). rewrite !List.filter_app, !length_app. cbn.
  rewrite N.ltb_irrefl, (proj2 (N.ltb_lt after (m_ID s)) Ha). cbn.
  pose proof (Mono l1). pose proof (Mono l2). lia.
Qed.

Lemma preserves_snaps_insert S ms :
  preserves (fun d => snaps d = S) (dbcall "insert matches" (InsertMatches ms)).
Proof. apply preserves_dbcall. intros d E. now rewrite insert_snaps. Qed.

Lemma matchLoop_returns S chunkSize fuel from to after created :
  (ahead S after < fuel)%nat ->
  hoare (fun d => snaps d = S) (matchLoop chunkSize fuel from to after created)
    (fun r d => snaps d = S /\ r <> None) (fun _ => False).
Proof.
  revert after created. induction fuel as [|fuel IH]; intros after created Hf; [lia|]. cbn [matchLoop].
  eapply hoare_bind; [apply hoare_attempt, hoare_query|].
  intros [chunk|e]; cbn beta; [|now apply hoare_ret].
  destruct (last chunk) as [ls|] eqn:El; [|apply hoare_ret; intros d [E _]; auto].
  set (P := fun d => snaps d = S).
  intros w [E Ec]. assert (Hls : (ahead S (m_ID ls) < ahead S after)%nat).
  { assert (Hc : ls ∈ chunk) by (apply last_Some in El as [l' ->]; apply elem_of_app; right; left).
    rewrite Ec in Hc. apply unmatched_sound in Hc as (Hc & _ & Ha & _). rewrite E in Hc. now apply ahead_decreases. }
  revert w E Ec. enough (Hh : hoare P
    (r <-- attempt (buildMatches chunk);; match r with
     | Ok matches => r0 <-- attempt (insertTx matches);; match r0 with
         | Ok n => if (length chunk <? chunkSize)%nat then ret (Some (created + n, None))
                   else matchLoop chunkSize fuel from to (m_ID ls) (created + n)
         | Error e => ret (Some (created, Some e)) end
     | Error e => ret (Some (created, Some e)) end) (fun r d => P d /\ r <> None) (fun _ => False)).
  { intros w E _. exact (Hh w E). }
  eapply hoare_bind; [apply hoare_attempt, hoare_preserves|].
  { apply preserves_bind; [|eauto with fiq]. apply preserves_mapM, preserves_matchSnapshot. }
  intros [ms|e]; cbn beta; [|now apply hoare_ret].
  eapply hoare_bind; [apply hoare_attempt, hoare_preserves, preserves_insertTx, preserves_snaps_insert|].
  intros [n|e]; cbn beta; [|now apply hoare_ret].
  destruct (_ <? _)%nat; [now apply hoare_ret|]. apply IH. lia.
Qed.

(** *** Without faults no step of the batch fails *)

Definition no_error (r : option (Z * option string)) : Prop :=
  match r with Some (_, Some _) => False | _ => True end.

Lemma matchSnapshot_healthy `{!Healthy} s : yields (fun _ => True) (matchSnapshot s).
Proof.
  eapply yields_bind; [apply yields_query|]. intros cs _. destruct (SelectCandidate _ _); [|now apply yields_ret].
  eapply yields_bind; [apply yields_fresh|]. intros. now apply yields_ret.
Qed.

Lemma matchLoop_healthy `{!Healthy} chunkSize fuel from to after created :
  yields no_error (matchLoop chunkSize fuel from to after created).
Proof.
  revert after created. induction fuel as [|fuel IH]; intros; [now apply yields_ret|]. cbn [matchLoop].
  eapply yields_bind; [apply yields_attempt, yields_query|]. intros r (chunk & -> & _).
  destruct (last chunk) as [ls|]; [|now apply yields_ret].
  eapply yields_bind; [apply yields_attempt|].
  { eapply yields_bind; [apply yields_mapM, matchSnapshot_healthy|]. intros; now apply (yields_ret (fun _ => True)). }
  intros r (ms & -> & _). eapply yields_bind; [apply (yields_attempt (fun _ => True))|].
  { destruct ms; [now apply yields_ret|]. apply yields_tx, yields_dbcall. }
  intros r (n & -> & _). destruct (_ <? _)%nat; [now apply yields_ret|apply IH].
Qed.

Lemma MatchBatch_healthy `{!Healthy} chunkSize metrics fuel now :
  yields (fun r => match r with Some (_, oe) => oe = None | None => True end) (MatchBatch chunkSize metrics fuel now).
Proof.
  eapply yields_bind; [apply matchLoop_healthy|]. intros [[c [e|]]|] Hr; [destruct Hr| |now apply yields_ret].
  eapply yields_bind; [apply (yields_attempt (fun _ => True))|].
  { eapply yields_bind; [apply yields_query|]. intros ts _. destruct ts; [now apply yields_ret|].
    eapply yields_bind; [|intros; apply yields_tx, yields_dbcall].
    apply yields_mapM. intros t. eapply yields_bind; [apply yields_fresh|]. intros; now apply yields_ret. }
  intros r (n & -> & _). eapply (yields_bind (fun _ => True)); [|intros; now apply yields_ret].
  unfold updateBacklog. destruct metrics; [|now apply yields_ret].
  eapply yields_bind; [apply yields_attempt, yields_query|]. intros; now apply yields_ret.
Qed.

(** *** Settled tables: a batch that finds nothing to do *)

Record settled (from to : Time) (d : D) : Prop := {
  st_snaps : forall s, s ∈ snaps d -> from <= m_TargetTime s < to -> (uuid_Nil < m_ID s)%N ->
    ~ matched d s -> winner d s = None;
  st_targets : ListRematchTargets rematchBatchLimit d = [];
}.

Definition creates_nothing (r : option (Z * option string)) : Prop :=
  match r with Some (c, _) => c = 0 | None => True end.

Lemma all_none chunk rs d :
  (forall s, s ∈ chunk -> winner d s = None) -> Forall2 (pair_result d) chunk rs -> omap id rs = [].
Proof.
  intros Hn F. induction F as [|s r chunk rs R F IH]; [reflexivity|].
  unfold pair_result in R. rewrite (Hn s) in R by left. rewrite R. cbn. apply IH. intros; apply Hn; now right.
Qed.

Lemma matchLoop_settled d0 chunkSize fuel from to after :
  tables_wf d0 -> settled from to d0 ->
  hoare (fun d => d = d0) (matchLoop chunkSize fuel from to after 0)
    (fun r d => d = d0 /\ creates_nothing r) (fun _ => False).
Proof.
  intros W St. revert after. induction fuel as [|fuel IH]; intros after; [now apply hoare_ret|]. cbn [matchLoop].
  assert (Fr : forall d, d = d0 -> frame d0 d) by (intros d ->; constructor; auto).
  eapply hoare_bind; [apply hoare_attempt, hoare_query|].
  intros [chunk|e]; cbn beta; [|now apply hoare_ret].
  destruct (last chunk) as [ls|] eqn:El; [|apply hoare_ret; intros d [E _]; split; [assumption|reflexivity]].
  eapply hoare_bind; [apply hoare_attempt, (hoare_buildMatches d0)|].
  { intros d [-> _]. now apply Fr. }
  intros [ms|e]; cbn beta; [|apply hoare_ret; intros d [E _]; split; [assumption|reflexivity]].
  eapply (hoare_bind _ _ (fun r d => d = d0 /\ match r with Ok n => n = 0 | Error _ => True end)).
  - intros w [[Ed Ec] (rs & F & Er)]. assert (ms = []) as ->.
    { rewrite Er. apply (all_none chunk _ d0); [|assumption]. intros s Hs. rewrite Ec, Ed in Hs.
      apply unmatched_sound in Hs as (Hs & Hw & Ha & Hm). apply (st_snaps from to d0); auto. unfold uuid_Nil. lia. }
    cbn. auto.
  - intros [n|e]; [|now apply hoare_ret; intros d [-> _]].
    intros w [Ed ->]. destruct (_ <? _)%nat; [now split|]. exact (IH (m_ID ls) w Ed).
Qed.

Lemma updateBacklog_same d0 metrics from to :
  hoare (fun d => d = d0) (updateBacklog metrics from to) (fun _ d => d = d0) (fun _ => False).
Proof.
  unfold updateBacklog. destruct metrics; [|now apply hoare_ret].
  eapply hoare_bind; [apply hoare_attempt, hoare_query|]. intros [n|e]; apply hoare_ret; [|auto]. now intros d [-> _].
Qed.

(** On settled tables a batch creates nothing and writes nothing. *)
Lemma MatchBatch_settled d0 chunkSize metrics fuel now :
  tables_wf d0 -> settled (Add now (- matchWindowBack)) (Add now (- publicationMargin)) d0 ->
  hoare (fun d => d = d0) (MatchBatch chunkSize metrics fuel now)
    (fun r d => d = d0 /\ creates_nothing r) (fun _ => False).
Proof.
  intros W St. eapply hoare_bind; [apply matchLoop_settled; eauto|].
  intros [[c [e|]]|]; cbn beta; try (apply hoare_ret; intros d [-> E]; now split).
  intros w [Ed E]. cbn in E. subst c. unfold bind, attempt, rematch, bind, query, dbcall.
  destruct (fault (tick w)); [now split|]. cbn. rewrite Ed, (st_targets _ _ _ St). cbn.
  pose proof (updateBacklog_same d0 metrics (Add now (- matchWindowBack)) (Add now (- publicationMargin))
    (MkWorld d0 (S (tick w)) (nids w)) eq_refl) as U.
  destruct (updateBacklog _ _ _ _) as [w' [u|e]]; cbn in *; [now split|destruct U].
Qed.

(** *** Rematching *)

(** The snapshot data a stored pair carries. *)
Definition snapshot_of (p : MatchedEvaluation) : SnapshotToMatch :=
  MkSnapshotToMatch (me_ForecastSnapshotID p) (me_ProviderID p) (me_LocationID p)
    (me_TargetTime p) (me_ForecastHorizonMinutes p).

Definition rematched (d : D) (p : MatchedEvaluation) : Prop :=
  exists q o at_, q ∈ pairs d /\ successor d (me_ObservationID q) = Some (o, at_) /\
    p = newPair (me_ID p) (snapshot_of q) o at_.

(** After a successful rematch, the pairs are those before it and new ones;
    every target of the batch is paired. *)
Record rematch_post (d1 : D) (n : Z) (d : D) : Prop := {
  rp_frame : frame d1 d;
  rp_new : exists new, pairs d = pairs d1 ++ new /\ n = Z.of_nat (length new) /\ Forall (rematched d1) new;
  rp_done : forall t, t ∈ ListRematchTargets rematchBatchLimit d1 ->
    (m_ID (r_Snapshot t), r_NewObservationID t) ∈ pair_key <$> pairs d;
}.

Lemma hoare_rematch d1 :
  tables_wf d1 -> hoare (fun d => d = d1) rematch (rematch_post d1) (fun d => d = d1).
Proof.
  intros W. eapply hoare_bind; [apply hoare_query|]. intros ts.
  destruct ts as [|t0 ts].
  - apply hoare_ret. intros d [-> E]. constructor; [constructor; auto| |].
    + exists []. rewrite app_nil_r. repeat split; auto.
    + rewrite <- E. intros t Ht. now apply not_elem_of_nil in Ht.
  - set (R := fun (t : RematchTarget) m => exists i, m = newPair i (r_Snapshot t) (r_NewObservationID t) (r_NewObservedAt t)).
    set (P := fun d => d = d1 /\ t0 :: ts = ListRematchTargets rematchBatchLimit d).
    eapply hoare_bind; [eapply (hoare_err _ _ _ P); [now intros d []|apply (hoare_mapM P _ R)]|].
    { intros t _. eapply hoare_bind; [apply hoare_fresh|]. intros i. apply hoare_ret. unfold R. eauto. }
    intros ms. cbn beta. eapply hoare_err; [|eapply hoare_tx, hoare_dbcall].
    { now intros d [[-> _] _]. }
    intros d [[-> Et] F]. constructor.
    + apply frame_insert. now constructor.
    + rewrite insert_spec, insert_count. destruct (insert_pairs_ext (pairs d1) ms) as (tl & E & Ht). exists tl.
      rewrite E. repeat split; [rewrite length_app; lia|]. apply Forall_forall. intros p Hp.
      apply Ht in Hp. apply list_elem_of_lookup in Hp as [k Hk].
      destruct (Forall2_lookup_r _ _ _ _ _ F Hk) as (t & Hkt & i & ->).
      assert (Hin : t ∈ ListRematchTargets rematchBatchLimit d1) by (rewrite <- Et; eapply list_elem_of_lookup_2, Hkt).
      apply rematch_sound in Hin as (q & Hq & Hs & _ & Er); [|assumption].
      exists q, (r_NewObservationID t), (r_NewObservedAt t). rewrite Er. auto.
    + intros t Ht. rewrite <- Et in Ht. apply list_elem_of_lookup in Ht as [k Hk].
      destruct (Forall2_lookup_l _ _ _ _ _ F Hk) as (m & Hm & i & ->).
      rewrite insert_spec. apply list_elem_of_lookup_2 in Hm.
      exact (insert_pairs_has (pairs d1) ms _ Hm).
Qed.

(** *** The whole batch *)

(** What a batch that returns [n] and no error has done to the tables [d0]:
    [d1] are the tables between the matching loop and the rematch. *)
Record batch_post (d0 : D) (now : Time) (n : Z) (d : D) : Prop := {
  bp_mid : exists d1 m r, loop_inv d0 (Add now (- matchWindowBack)) (Add now (- publicationMargin)) (fun _ => True) m d1 /\
    rematch_post d1 r d /\ n = m + r;
}.

Lemma hoare_MatchBatch d0 chunkSize metrics fuel now :
  tables_wf d0 -> (0 < chunkSize)%nat ->
  hoare (fun d => d = d0) (MatchBatch chunkSize metrics fuel now)
    (fun r d => match r with Some (n, None) => batch_post d0 now n d | _ => True end) (fun _ => True).
Proof.
  intros W Hc. eapply (hoare_bind _ _ (loop_post d0 (Add now (- matchWindowBack)) (Add now (- publicationMargin)))).
  - eapply hoare_weaken; [|intros a d HH; exact HH|intros d HH; exact HH|now apply hoare_matchLoop].
    intros d ->. constructor; [now constructor| |].
    + exists []. rewrite app_nil_r. auto.
    + intros s _ _ Hn Hle. unfold uuid_Nil in *. lia.
  - intros [[c [e|]]|]; try now apply hoare_ret.
    intros w L. cbn in L. pose proof (fr_wf _ _ (li_frame _ _ _ _ _ _ L)) as W1.
    unfold bind, attempt. pose proof (hoare_rematch (db w) W1 w eq_refl) as R.
    destruct (rematch w) as [w1 [r|e]]; [|exact I].
    pose proof (updateBacklog_same (db w1) metrics (Add now (- matchWindowBack)) (Add now (- publicationMargin)) w1 eq_refl) as U.
    destruct (updateBacklog _ _ _ w1) as [w2 [u|e]]; [|destruct U]. cbn. rewrite U. constructor. eauto 8.
Qed.

(** *** What a batch leaves behind wherever it stops *)

(** A pair of a snapshot of the window that had none, with its winner. *)
Definition newly_won (d : D) (from to : Time) (p : MatchedEvaluation) : Prop :=
  exists s c, s ∈ snaps d /\ from <= m_TargetTime s < to /\ ~ matched d s /\
    winner d s = Some c /\ p = newPair (me_ID p) s (c_ID c) (c_ObservedAt c).

Record any_inv (d0 : D) (from to : Time) (created : Z) (d : D) : Prop := {
  ai_frame : frame d0 d;
  ai_new : exists new, pairs d = pairs d0 ++ new /\ created = Z.of_nat (length new) /\
    Forall (newly_won d0 from to) new;
}.

Lemma results_from d0 chunk rs p :
  Forall2 (pair_result d0) chunk rs -> p ∈ omap id rs ->
  exists s c, s ∈ chunk /\ winner d0 s = Some c /\ p = newPair (me_ID p) s (c_ID c) (c_ObservedAt c).
Proof.
  intros F. induction F as [|s r chunk rs R F IH]; cbn; intros Hp; [now apply not_elem_of_nil in Hp|].
  unfold pair_result in R. destruct (winner d0 s) as [c|] eqn:W.
  - destruct R as [i ->]. cbn in Hp. apply elem_of_cons in Hp as [->|Hp].
    + exists s, c. repeat split; auto. left.
    + destruct (IH Hp) as (s' & c' & ? & ?). exists s', c'. split; [now right|assumption].
  - rewrite R in Hp. destruct (IH Hp) as (s' & c' & ? & ?). exists s', c'. split; [now right|assumption].
Qed.

(** Storing the winners of a chunk that was unpaired keeps the invariant. *)
Lemma any_inv_insert d0 from to after n created d rs d' :
  any_inv d0 from to created d -> frame d0 d' -> pairs d' = insert_pairs (pairs d) (omap id rs) ->
  Forall2 (pair_result d0) (ListUnmatchedSnapshots from to after n d) rs ->
  any_inv d0 from to
    (created + (Z.of_nat (length (insert_pairs (pairs d) (omap id rs))) - Z.of_nat (length (pairs d)))) d'.
Proof.
  intros [F (new & En & Ec & Fn)] F' Ep HF. constructor; [assumption|]. rewrite Ep.
  destruct (insert_pairs_ext (pairs d) (omap id rs)) as (tl & E & Ht). exists (new ++ tl). rewrite E, En.
  split; [now rewrite app_assoc|]. split; [rewrite !length_app; lia|]. apply Forall_app. split; [assumption|].
  apply Forall_forall. intros p Hp. destruct (results_from d0 _ rs p HF (Ht p Hp)) as (s & c & Hs & Hw & Eq).
  apply unmatched_sound in Hs as (Hs & Hwin & _ & Hm). exists s, c.
  rewrite <- (fr_snaps _ _ F). repeat split; try apply Hwin; auto.
  unfold matched. intros Hc. apply Hm. rewrite En, fmap_app. apply elem_of_app. now left.
Qed.

Lemma hoare_matchLoop_any d0 chunkSize fuel from to after created :
  hoare (any_inv d0 from to created) (matchLoop chunkSize fuel from to after created)
    (fun r d => match r with
                | Some (n, _) => any_inv d0 from to n d
                | None => exists n, any_inv d0 from to n d
                end) (fun _ => False).
Proof.
  revert after created. induction fuel as [|fuel IH]; intros after created; [apply hoare_ret; eauto|].
  cbn [matchLoop]. eapply hoare_bind; [apply hoare_attempt, hoare_query|].
  intros [chunk|e]; cbn beta; [|now apply hoare_ret].
  destruct (last chunk) as [ls|]; [|now apply hoare_ret; intros d []].
  eapply hoare_bind; [apply hoare_attempt, (hoare_buildMatches d0)|].
  { intros d [[F _] _]. exact F. }
  intros [ms|e]; cbn beta; [|now apply hoare_ret; intros d []].
  eapply (hoare_bind _ _ (fun r d => match r with Ok n => any_inv d0 from to (created + n) d
                                     | Error _ => any_inv d0 from to created d end)).
  - eapply hoare_weaken; [intros d HH; exact HH| |intros d HH; exact HH|
      apply hoare_attempt, (hoare_insertTx _ (fun n d => any_inv d0 from to (created + n) d))].
    + intros [n|e] d HH; [exact HH|apply HH].
    + intros d [[Hd ->] (rs & HF & ->)]. rewrite insert_count.
      eapply any_inv_insert; [exact Hd|apply frame_insert, Hd|apply insert_spec|exact HF].
    + intros _ d [[Hd _] _]. now rewrite Z.add_0_r.
  - intros [n|e]; [|now apply hoare_ret]. destruct (_ <? _)%nat; [now apply hoare_ret|apply IH].
Qed.

(** The result of the whole batch, over the tables [d0] it started from. *)
Definition any_post (d0 : D) (now : Time) (r : result (option (Z * option string))) (d : D) : Prop :=
  exists ps qs, pairs d = pairs d0 ++ ps ++ qs /\
    Forall (newly_won d0 (Add now (- matchWindowBack)) (Add now (- publicationMargin))) ps /\
    (forall q, q ∈ qs -> exists p o t, p ∈ pairs d0 ++ ps /\
       successor d0 (me_ObservationID p) = Some (o, t) /\ q = newPair (me_ID q) (snapshot_of p) o t) /\
    match r with
    | Ok (Some (n, oe)) => n = Z.of_nat (length (ps ++ qs)) /\ (is_Some oe -> qs = [])
    | Ok None => qs = []
    | Error _ => False
    end.

Lemma any_inv_post d0 now r n d :
  any_inv d0 (Add now (- matchWindowBack)) (Add now (- publicationMargin)) n d ->
  match r with Ok (Some (m, _)) => m = n | Ok None => True | Error _ => False end -> any_post d0 now r d.
Proof.
  intros [F (new & En & -> & Fn)] Hr. exists new, []. rewrite app_nil_r. repeat split; auto.
  - now intros q Hq%not_elem_of_nil.
  - destruct r as [[[m oe]|]|e]; [now split|reflexivity|destruct Hr].
Qed.

Lemma hoare_MatchBatch_any d0 chunkSize metrics fuel now :
  tables_wf d0 ->
  hoare (fun d => d = d0) (MatchBatch chunkSize metrics fuel now) (fun r => any_post d0 now (Ok r)) (fun _ => False).
Proof.
  intros W. set (from := Add now (- matchWindowBack)). set (to := Add now (- publicationMargin)).
  eapply hoare_bind.
  - eapply hoare_weaken; [|intros r d HH; exact HH|intros d HH; exact HH|apply (hoare_matchLoop_any d0)].
    intros d ->. constructor; [now constructor|]. exists []. rewrite app_nil_r. auto.
  - intros [[c [e|]]|]; cbn beta; try (apply hoare_ret; intros d Hd).
    + now eapply any_inv_post; [exact Hd|].
    + intros w L. unfold bind, attempt. pose proof (hoare_rematch (db w) (fr_wf _ _ (ai_frame _ _ _ _ _ L)) w eq_refl) as R.
      destruct (rematch w) as [w1 [r|e]].
      * pose proof (updateBacklog_same (db w1) metrics from to w1 eq_refl) as U. fold from to.
        destruct (updateBacklog _ _ _ w1) as [w2 [u|e]]; [|destruct U]. cbn. rewrite U.
        destruct L as [F (ps & Ep & -> & Fp)], R as [_ (qs & Eq & -> & Fq) _]. exists ps, qs.
        rewrite Eq, Ep, app_assoc. split; [reflexivity|]. split; [assumption|]. split; [|rewrite length_app; split; [lia|intros [? [=]]]].
        intros q Hq. rewrite Forall_forall in Fq. destruct (Fq q Hq) as (p & o & t & Hp & Hs & E).
        exists p, o, t. rewrite <- Ep. rewrite (fr_succ _ _ F) in Hs. auto.
      * rewrite <- R in L. cbn. now eapply any_inv_post; [exact L|].
    + destruct Hd as [n Hd]. now eapply any_inv_post; [exact Hd|].
Qed.

(** Winners that are distinct pairs are of distinct snapshots. *)
Lemma won_once d0 from to ps :
  tables_wf d0 -> Forall (newly_won d0 from to) ps ->
  NoDup (pair_key <$> ps) -> NoDup (me_ForecastSnapshotID <$> ps).
Proof.
  intros W F. induction F as [|p ps Hp F IH]; cbn; intros N; [constructor|].
  apply NoDup_cons in N as [Np N]. constructor; [|auto]. intros (q & E & Hq)%list_elem_of_fmap.
  apply Np, list_elem_of_fmap. exists q. split; [|assumption]. rewrite Forall_forall in F.
  destruct Hp as (s & c & Hs & _ & _ & Ws & Ep), (F q Hq) as (s' & c' & Hs' & _ & _ & Ws' & Eq).
  unfold pair_key. rewrite Ep, Eq in E |- *. cbn in E |- *.
  rewrite (same_id_same d0 W s s' Hs Hs' E) in *. congruence.
Qed.

Lemma pending_le S ps new :
  (forall p, p ∈ new -> S (me_ObservationID p) = None) ->
  (length (List.filter (pending S (ps ++ new)) (ps ++ new)) <= length (List.filter (pending S ps) ps))%nat.
Proof.
  intros Hn. rewrite List.filter_app, length_app.
  assert (E : List.filter (pending S (ps ++ new)) new = []).
  { assert (K : forall l, (forall p, p ∈ l -> S (me_ObservationID p) = None) -> List.filter (pending S (ps ++ new)) l = []);
      [|now apply K].
    induction l as [|x l IH]; intros Hl; [reflexivity|]. cbn. unfold pending at 1. rewrite (Hl x) by left.
    apply IH. intros; apply Hl; now right. }
  rewrite E. cbn. assert (K : forall l, (length (List.filter (pending S (ps ++ new)) l) <= length (List.filter (pending S ps) l))%nat).
  { induction l as [|x l IH]; [reflexivity|]. cbn.
    assert (J : pending S (ps ++ new) x = true -> pending S ps x = true).
    { unfold pending. destruct (S (me_ObservationID x)) as [[o t]|]; [|easy].
      rewrite !bool_decide_eq_true. intros A C. apply A. rewrite fmap_app. apply elem_of_app. auto. }
    destruct (pending S (ps ++ new) x); [rewrite J by reflexivity; cbn; lia|]. destruct (pending S ps x); cbn; lia. }
  specialize (K ps). lia.
Qed.

(** Every correction replaces an observation that is itself live. *)
Definition single_corrections (d : D) : Prop :=
  forall o n t, successor d o = Some (n, t) -> successor d n = None.

(** A successful batch leaves nothing to do, when corrections do not chain and
    fewer pairs await rematching than one batch takes. *)
Lemma batch_settles d0 now n d :
  tables_wf d0 -> single_corrections d0 ->
  (length (List.filter (pending (successor d0) (pairs d0)) (pairs d0)) < rematchBatchLimit)%nat ->
  batch_post d0 now n d ->
  tables_wf d /\ settled (Add now (- matchWindowBack)) (Add now (- publicationMargin)) d.
Proof.
  intros W0 Hs Hp [(d1 & m & r & [F1 (new1 & E1 & _ & Fw) Hdone] & [F2 (new2 & E2 & _ & Fr) Hre] & _)].
  pose proof (fr_succ _ _ F1) as S1. pose proof (fr_succ _ _ F2) as S2.
  split; [apply F2|]. constructor.
  - intros s Hin Hw Hnil Nm.
    assert (Ew : winner d s = winner d0 s) by (rewrite (frame_winner d1 d), (frame_winner d0 d1); auto).
    rewrite Ew. destruct (winner d0 s) as [c|] eqn:Wd; [|reflexivity]. exfalso. apply Nm.
    rewrite (fr_snaps _ _ F2), (fr_snaps _ _ F1) in Hin.
    assert (M1 : matched d1 s) by (apply Hdone; auto; congruence).
    unfold matched in *. rewrite E2, fmap_app. apply elem_of_app. auto.
  - destruct (ListRematchTargets rematchBatchLimit d) as [|t ts] eqn:Et; [reflexivity|exfalso].
    destruct (rematch_sound d rematchBatchLimit t) as (p & Hin & Su & Nk & _); [apply F2|rewrite Et; left|].
    rewrite S2, S1 in Su. rewrite E2 in Hin. apply elem_of_app in Hin as [Hin|Hin].
    + destruct (rematch_complete d1 rematchBatchLimit p (r_NewObservationID t) (r_NewObservedAt t)) as [(t' & Ht' & Es & Eo)|L].
      * apply F1.
      * assumption.
      * now rewrite S1.
      * intros C. apply Nk. rewrite E2, fmap_app. apply elem_of_app. auto.
      * apply Nk. rewrite <- Es, <- Eo. now apply Hre.
      * pose proof (rematch_length d1 rematchBatchLimit (fr_wf _ _ F1)) as B. rewrite L, S1, E1 in B.
        enough (Q : forall q, q ∈ new1 -> successor d0 (me_ObservationID q) = None)
          by (pose proof (pending_le (successor d0) (pairs d0) new1 Q); lia).
        intros q Hq. rewrite Forall_forall in Fw. destruct (Fw q Hq) as (s & c & Hsn & Hwin & ->).
        cbn. apply SelectCandidate_in in Hwin; [|now apply wf_cands]. eapply cands_live; eauto.
    + rewrite Forall_forall in Fr. destruct (Fr p Hin) as (q & o & at_ & _ & Sq & Eo).
      rewrite S1 in Sq. apply Hs in Sq. rewrite Eo in Su. cbn in Su. rewrite Sq in Su. discriminate.
Qed.
End Batch.

(** ** Theorems *)

(** Note: the observation chosen for a target hour does not depend on the order in
    which the candidates are listed, and no candidate beats it in the normative
    order (corrected, provenance, distance to the hour, id). *)
Theorem select_candidate_deterministic h cs cs' :
  all_P candidate_wf cs ->
  (forall a b, Some a ∈ cs -> Some b ∈ cs -> c_ID a = c_ID b -> a = b) ->
  cs ≡ₚ cs' ->
  SelectCandidate h cs = SelectCandidate h cs' /\
  match SelectCandidate h cs with
  | None => forall a, Some a ∉ cs
  | Some best => Some best ∈ cs /\ forall a, Some a ∈ cs -> a <> best -> candidateLess best a h = true
  end.
Proof.
  intros W U Pm.
  assert (Tot : forall a b, Some a ∈ cs -> Some b ∈ cs ->
    candidateLess a b h = false -> candidateLess b a h = false -> a = b).
  { intros a b Ha Hb A B. apply U; auto. eapply candidateLess_total; eauto. }
  split.
  - apply (foldl_best_perm _ candidate_wf); auto.
    + intros a. apply candidateLess_irrefl.
    + intros a b c. apply candidateLess_trans.
  - pose proof (SelectCandidate_best h cs W) as B. destruct (SelectCandidate h cs) as [best|]; [|exact B].
    destruct B as [I M]. split; [exact I|]. intros a Ha N. destruct (candidateLess best a h) eqn:E; [reflexivity|].
    exfalso. apply N. apply Tot; auto.
Qed.

Definition cand (i : uuid) (t q : string) (at_ : Time) : option ObservationCandidate := Some (MkCandidate i t q at_).
Definition witness_cands : list (option ObservationCandidate) :=
  [cand 3 "reanalysis" "valid" 0; None; cand 1 "station_observation" "valid" 0; cand 2 "provider_estimated" "corrected" 0].

Lemma select_candidate_deterministic_witness :
  SelectCandidate 0 witness_cands = SelectCandidate 0 (rev witness_cands) /\
  SelectCandidate 0 witness_cands = cand 2 "provider_estimated" "corrected" 0.
Proof.
  split; [|reflexivity]. apply select_candidate_deterministic.
  - intros a Ha. unfold witness_cands, cand in Ha.
    rewrite !elem_of_cons, elem_of_nil in Ha.
    destruct_or?; simplify_eq; reflexivity.
  - intros a b Ha Hb E. unfold witness_cands, cand in Ha, Hb. 
    rewrite !elem_of_cons, elem_of_nil in Ha, Hb.
    destruct_or?; simplify_eq; try reflexivity; discriminate E.
  - symmetry. apply Permutation_sym, Permutation_rev.
Defined.

(** C3: whatever statements fail and wherever the batch stops, the rows it leaves
    behind are sound and counted: it only appends, first at most one pair for each
    snapshot of the window that had none, with the observation [SelectCandidate]
    picks, then pairs of an already paired snapshot with the observation that
    replaced the paired one, carrying the data of the old pair.  No (snapshot,
    observation) is stored twice, the count returned (also next to an error) is the
    number of rows added, and an error means that no correction pair was stored. *)
Theorem match_batch_interrupted `{Env} {D} `{MatchRepositoryLaws D} chunkSize metrics fuel now w :
  tables_wf (db w) -> NoDup (pair_key <$> pairs (db w)) ->
  let '(w', r) := MatchBatch chunkSize metrics fuel now w in
  exists ps qs, pairs (db w') = pairs (db w) ++ ps ++ qs /\ NoDup (pair_key <$> pairs (db w')) /\
    NoDup (me_ForecastSnapshotID <$> ps) /\
    Forall (newly_won (db w) (Add now (- matchWindowBack)) (Add now (- publicationMargin))) ps /\
    (forall q, q ∈ qs -> exists p o t, p ∈ pairs (db w) ++ ps /\
       successor (db w) (me_ObservationID p) = Some (o, t) /\ q = newPair (me_ID q) (snapshot_of p) o t) /\
    match r with
    | Ok (Some (n, oe)) => n = Z.of_nat (length (ps ++ qs)) /\ (is_Some oe -> qs = [])
    | Ok None => qs = []
    | Error _ => False
    end.
Proof.
  intros W N. pose proof (hoare_MatchBatch_any (db w) chunkSize metrics fuel now W w eq_refl) as Hb.
  pose proof (preserves_MatchBatch _ preserves_nodup_insert chunkSize metrics fuel now w N) as N'.
  destruct (MatchBatch chunkSize metrics fuel now w) as [w' r]. cbn [fst] in N'.
  assert (K : any_post (db w) now r (db w')) by (destruct r; [exact Hb|destruct Hb]).
  destruct K as (ps & qs & E & Fp & Fq & Hr). exists ps, qs. split; [exact E|]. split; [exact N'|].
  split; [|auto]. apply (won_once (db w) (Add now (- matchWindowBack)) (Add now (- publicationMargin)) ps W Fp).
  rewrite E, !fmap_app in N'. apply NoDup_app in N' as (_ & _ & N'). now apply NoDup_app in N' as [N' _].
Qed.

(** C8: a batch that returns without error has paired every snapshot of its
    window that has a live, non-suspect observation for its target hour; the rows
    it added are exactly the count it returns: winners of [SelectCandidate], and
    pairs to the observation that replaced an already paired one. *)
Theorem match_batch_complete `{Env} {D} `{MatchRepositoryLaws D} chunkSize metrics fuel now w w' n :
  tables_wf (db w) -> (0 < chunkSize)%nat ->
  MatchBatch chunkSize metrics fuel now w = (w', Ok (Some (n, None))) ->
  exists ps qs, pairs (db w') = pairs (db w) ++ ps ++ qs /\ n = Z.of_nat (length (ps ++ qs)) /\
    Forall (won (db w)) ps /\
    (forall q, q ∈ qs -> exists p t, p ∈ pairs (db w) ++ ps /\ me_ForecastSnapshotID q = me_ForecastSnapshotID p /\
       successor (db w) (me_ObservationID p) = Some (me_ObservationID q, t)) /\
    (forall s, s ∈ snaps (db w) -> now - matchWindowBack <= m_TargetTime s < now - publicationMargin ->
       (uuid_Nil < m_ID s)%N -> winner (db w) s <> None -> matched (db w') s).
Proof.
  intros W Hc E. pose proof (hoare_MatchBatch (db w) chunkSize metrics fuel now W Hc w eq_refl) as Hb.
  rewrite E in Hb. destruct Hb as [(d1 & m & r & [F1 (ps & E1 & -> & Fw) Hd] & [F2 (qs & E2 & -> & Fr) _] & ->)].
  exists ps, qs. rewrite E2, E1, app_assoc. split; [reflexivity|]. rewrite length_app. split; [lia|].
  split; [assumption|]. split.
  - intros q Hq. rewrite Forall_forall in Fr. destruct (Fr q Hq) as (p & o & t & Hp & Su & ->). cbn.
    exists p, t. rewrite <- E1. rewrite (fr_succ _ _ F1) in Su. auto.
  - intros s Hs Hw Hn Hwin. specialize (Hd s Hs Hw Hn I Hwin). unfold matched in *.
    rewrite E2, fmap_app. apply elem_of_app. auto.
Qed.

(** C34: the batch loop terminates: with one unit of fuel more than there are
    snapshots it returns, whatever faults occur; without faults it returns
    without an error. *)
Theorem match_batch_returns `{Env} {D} `{MatchRepositoryLaws D} chunkSize metrics fuel now w :
  (length (snaps (db w)) < fuel)%nat ->
  exists n oe, (MatchBatch chunkSize metrics fuel now w).2 = Ok (Some (n, oe)) /\
    ((forall i, fault i = false) -> oe = None).
Proof.
  intros Hf. enough (exists n oe, (MatchBatch chunkSize metrics fuel now w).2 = Ok (Some (n, oe))) as (n & oe & E).
  { exists n, oe. split; [exact E|]. intros Hh. pose proof (Build_Healthy _ Hh) as HH.
    destruct (MatchBatch_healthy chunkSize metrics fuel now w) as (w' & r & Er & Hr). rewrite Er in E. cbn in E. injection E as ->. exact Hr. }
  unfold MatchBatch. set (from := Add now _). set (to := Add now _).
  assert (Ha : (ahead (snaps (db w)) uuid_Nil < fuel)%nat).
  { unfold ahead. pose proof (List.filter_length_le (fun s => (uuid_Nil <? m_ID s)%N) (snaps (db w))). lia. }
  pose proof (matchLoop_returns _ chunkSize fuel from to uuid_Nil 0 Ha w eq_refl) as L.
  unfold bind at 1. destruct (matchLoop _ _ _ _ _ _ w) as [w1 [[[c [e|]]|]|e]]; [eauto| |now destruct L|destruct L].
  unfold bind, attempt. destruct (rematch w1) as [w2 [r|e]]; [|eauto].
  pose proof (updateBacklog_same (db w2) metrics from to w2 eq_refl) as U.
  destruct (updateBacklog _ _ _ w2) as [w3 [u|e]]; [eauto|destruct U].
Qed.

(** Note: running the batch again right after a successful run creates no pair and
    leaves the tables as they are, under any faults of the second run, when no
    correction replaces another correction and fewer pairs than one batch takes
    await rematching. *)
Theorem match_batch_idempotent `{Env} {D} `{MatchRepositoryLaws D} chunkSize metrics fuel fuel' now w w' n tk ids :
  tables_wf (db w) -> (0 < chunkSize)%nat -> single_corrections (db w) ->
  (length (List.filter (pending (successor (db w)) (pairs (db w))) (pairs (db w))) < rematchBatchLimit)%nat ->
  MatchBatch chunkSize metrics fuel now w = (w', Ok (Some (n, None))) ->
  let '(w'', r) := MatchBatch chunkSize metrics fuel' now (MkWorld (db w') tk ids) in
  db w'' = db w' /\ match r with Ok (Some (created, _)) => created = 0 | _ => True end.
Proof.
  intros W Hc Hs Hp E. pose proof (hoare_MatchBatch (db w) chunkSize metrics fuel now W Hc w eq_refl) as Hb.
  rewrite E in Hb. destruct (batch_settles _ _ _ _ W Hs Hp Hb) as [W' St].
  pose proof (MatchBatch_settled (db w') chunkSize metrics fuel' now W' St (MkWorld (db w') tk ids) eq_refl) as R.
  destruct (MatchBatch chunkSize metrics fuel' now (MkWorld (db w') tk ids)) as [w'' [[[c oe]|]|e]]; cbn in R; [exact R|exact R|destruct R].
Qed.

(** *** Concrete runs on the PostgreSQL tables *)

Import AnalysisPG.

Definition snapshot_row (i loc : uuid) (t : Time) : ForecastSnapshot :=
  MkSnapshot i 1 2 loc (t - 24 * Hour) t 1440 None None None None None None None None None "" "" "" 0.

Definition observation_row (i loc : uuid) (t : Time) (flag : string) (sup : option uuid) : Observation :=
  MkObservation i loc "openmeteo_historical" ObservationReanalysis t None None None None None None "" "" flag sup 0.

(** Snapshots 5 and 6 of location 9; an observation exists for the hour of 5. *)
Definition witness_tables : MatchTables :=
  MkTables [snapshot_row 5 9 (100 * Hour); snapshot_row 6 9 (101 * Hour)]
           [observation_row 7 9 (100 * Hour) QualityValid None] [].

Lemma witness_tables_wf : tables_wf witness_tables.
Proof.
  change (pg_wf witness_tables). constructor; cbn.
  - repeat constructor; rewrite ?elem_of_cons, elem_of_nil; lia.
  - repeat constructor; apply not_elem_of_nil.
  - repeat constructor.
Qed.

Definition witness_run : World MatchTables * result (option (Z * option string)) :=
  MatchBatch 1 true 3 (200 * Hour) (MkWorld witness_tables 0 0).

Lemma witness_run_ok : witness_run = (fst witness_run, Ok (Some (1, None))).
Proof. vm_compute. reflexivity. Qed.

Lemma match_batch_interrupted_witness :
  exists ps qs, pairs (db (MatchBatch (H := outage_from 5) 1 true 3 (200 * Hour) (MkWorld witness_tables 0 0)).1)
                  = pairs witness_tables ++ ps ++ qs /\ length (ps ++ qs) = 1%nat.
Proof.
  pose proof (match_batch_interrupted (H := outage_from 5) 1 true 3 (200 * Hour) (MkWorld witness_tables 0 0)
    witness_tables_wf ltac:(constructor)) as K.
  destruct (MatchBatch (H := outage_from 5) 1 true 3 (200 * Hour) (MkWorld witness_tables 0 0)) as [w' r] eqn:E.
  vm_compute in E. injection E as <- <-. destruct K as (ps & qs & Ep & _ & _ & _ & _ & En & _).
  exists ps, qs. split; [exact Ep|]. lia.
Defined.

Lemma match_batch_complete_witness :
  matched (db (fst witness_run)) (MkSnapshotToMatch 5 2 9 (100 * Hour) 1440).
Proof.
  destruct (match_batch_complete 1 true 3 (200 * Hour) (MkWorld witness_tables 0 0) _ 1
              witness_tables_wf ltac:(lia) witness_run_ok) as (ps & qs & _ & _ & _ & _ & K).
  apply K; [left|vm_compute; split; [discriminate|reflexivity]|reflexivity|vm_compute; discriminate].
Defined.

Lemma match_batch_returns_witness :
  exists n oe, (MatchBatch 1 true 3 (200 * Hour) (MkWorld witness_tables 0 0)).2 = Ok (Some (n, oe)).
Proof.
  destruct (match_batch_returns 1 true 3 (200 * Hour) (MkWorld witness_tables 0 0)) as (n & oe & E & _);
    [vm_compute; lia|]. now exists n, oe.
Defined.

Lemma match_batch_idempotent_witness :
  let '(w'', r) := MatchBatch 1 true 3 (200 * Hour) (MkWorld (db (fst witness_run)) 0 9) in
  db w'' = db (fst witness_run) /\ match r with Ok (Some (created, _)) => created = 0 | _ => True end.
Proof.
  apply (match_batch_idempotent 1 true 3 3 (200 * Hour) (MkWorld witness_tables 0 0) _ 1 0 9
           witness_tables_wf ltac:(lia)); [| |exact witness_run_ok].
  - intros o n t. cbn. unfold pg_successor, find_obs. cbn. case_bool_decide; discriminate.
  - vm_compute. lia.
Defined.

(** Observation 7 was corrected by 8 and that correction by 10 before the batch
    runs; snapshot 5 is paired with 7. *)
Definition chained_tables : MatchTables :=
  MkTables [snapshot_row 5 9 (100 * Hour)]
           [observation_row 7 9 (100 * Hour) QualityValid (Some 8%N);
            observation_row 8 9 (100 * Hour) QualityCorrected (Some 10%N);
            observation_row 10 9 (100 * Hour) QualityCorrected None]
           [newPair 20 (MkSnapshotToMatch 5 2 9 (100 * Hour) 1440) 7 (100 * Hour)].

(** Note: a chain of two corrections takes two batches: the second, identical run
    still creates a pair, and between the two the only pairs of the snapshot are
    to superseded observations, which every metric ignores. *)
Theorem chained_correction_needs_second_batch :
  let '(w1, r1) := MatchBatch 5000 true 9 (200 * Hour) (MkWorld chained_tables 0 0) in
  let '(w2, r2) := MatchBatch 5000 true 9 (200 * Hour) w1 in
  r1 = Ok (Some (1, None)) /\ r2 = Ok (Some (1, None)) /\
  Forall (fun p => is_Some (pg_successor (db w1) (me_ObservationID p))) (t_matched (db w1)) /\
  me_ObservationID <$> t_matched (db w2) = [7; 8; 10]%N.
Proof. vm_compute. repeat split; repeat constructor; eexists; reflexivity. Qed.

End MatchProps.
