(* ===== verification/Aggregate.v ===== *)
(** * Aggregation ([internal/analysis/aggregate.go], [domain/metric.go])

    [AggregateService] turns the matched pairs of a cell and a period into the
    rows of [accuracy_metrics], and supersedes the previous live rows, in one
    transaction.  [analysispg/metricspg.go] is modelled by the functions [pg_...]
    on the tables [MetricTables]; an insert is rejected when a row breaks a CHECK of
    the table. *)

From Stdlib Require Import ZArith Lia Bool String.
From Stdlib Require Import SpecFloat.
From stdpp Require Import base list strings gmap.
From S2P Require Import Prelude Float64 Float64Round GoTime Uuid Effects Versioned Records Eval EvalProps Matching.

Import Records Eval EvalProps Matching.
Local Open Scope string_scope.
Local Open Scope Z_scope.

Module Aggregate.

(** ** domain/metric.go *)

Definition MethodologyVersion : string := "2026.1".

Definition VarTemperature : string := "temperature".
Definition VarWindSpeed : string := "wind_speed".
Definition VarHumidity : string := "humidity".
Definition VarPressure : string := "pressure".
Definition VarPrecipitation : string := "precipitation".
Definition VarAll : string := "all".

Definition MetricMAE : string := "mae".
Definition MetricRMSE : string := "rmse".
Definition MetricBias : string := "bias".
Definition MetricRainMAEAll : string := "rain_mae_all".
Definition MetricRainMAEWet : string := "rain_mae_wet".
Definition MetricRecall : string := "recall".
Definition MetricPrecision : string := "precision".
Definition MetricF1 : string := "f1".
Definition MetricFAR : string := "far".
Definition MetricThreatScore : string := "threat_score".
Definition MetricOccurrenceAgreement : string := "occurrence_agreement".
Definition MetricBrier : string := "brier".
Definition MetricCoverage : string := "coverage".
Definition MetricReliability : string := "reliability".

Inductive PeriodKind := PeriodDaily | PeriodWeekly | PeriodMonthly.

Record Cell := MkCell { ce_ProviderID : uuid; ce_LocationID : uuid; ce_HorizonMinutes : Z }.
#[export] Instance Cell_eq_dec : EqDecision Cell.
Proof. solve_decision. Defined.

Record Period := MkPeriod { Kind : PeriodKind; Start : Time; End_ : Time }.

Record PairRecord := MkPair {
  p_ObservationType : string;
  p_QualityFlag : string;
  FTemperature : option float64;
  FWindSpeed : option float64;
  FHumidity : option float64;
  FPressure : option float64;
  FPrecipMM : option float64;
  FPrecipProb : option float64;
  OTemperature : option float64;
  OWindSpeed : option float64;
  OHumidity : option float64;
  OPressure : option float64;
  OPrecipMM : option float64
}.

Record AccuracyMetric := MkMetric {
  am_ID : uuid;
  am_ProviderID : uuid;
  am_LocationID : uuid;
  am_HorizonMinutes : Z;
  am_Variable : string;
  am_MetricType : string;
  am_Value : option float64;
  am_CILower : option float64;
  am_CIUpper : option float64;
  am_SampleCount : Z;
  am_MethodologyVersion : string;
  am_PeriodStart : Time;
  am_PeriodEnd : Time
}.

(** ports.VariableCounts *)
Record VariableCounts := MkCounts {
  n_Temperature : Z; n_WindSpeed : Z; n_Humidity : Z; n_Pressure : Z; n_Precipitation : Z
}.

(** ** aggregate.go *)

Definition metric (id : uuid) (cell : Cell) (period : Period) (variable metricType : string)
  (value ciLo ciHi : option float64) (n : Z) : AccuracyMetric :=
  let row v lo hi k := MkMetric id (ce_ProviderID cell) (ce_LocationID cell) (ce_HorizonMinutes cell)
    variable metricType v lo hi k MethodologyVersion (Start period) (End_ period) in
  match value with
  | None => row None None None 0
  | Some _ => row value ciLo ciHi n
  end.

Definition ratelessRow (id : uuid) (cell : Cell) (period : Period) (variable metricType : string)
  (numerator denom : Z) : AccuracyMetric :=
  if denom <=? 0 then metric id cell period variable metricType None None None 0
  else
    let v := (f64_of_Z numerator / f64_of_Z denom)%f64 in
    let v := if fltb f1 v then f1 else v in
    metric id cell period variable metricType (Some v) None None denom.

Definition ratioRow (id : uuid) (cell : Cell) (period : Period) (metricType : string)
  (value : option float64) (denom : float64) (n : Z) : AccuracyMetric :=
  match value with
  | None => metric id cell period VarPrecipitation metricType None None None 0
  | Some v => let '(lo, hi) := Wilson v denom in
              metric id cell period VarPrecipitation metricType value (Some lo) (Some hi) n
  end.

(** A row waiting for its id ([metric] calls [ids.New] once per row). *)
Definition Row : Type := uuid -> AccuracyMetric.

Definition continuousRows (cell : Cell) (period : Period) (variable : string) (c : Continuous) : list Row :=
  let n := Continuous_N c in
  let '(maeLo, maeHi) := MAECI c in
  let '(rmseLo, rmseHi) := RMSECI c in
  let '(biasLo, biasHi) := BiasCI c in
  [ fun id => metric id cell period variable MetricMAE (MAE c) maeLo maeHi n;
    fun id => metric id cell period variable MetricRMSE (RMSE c) rmseLo rmseHi n;
    fun id => metric id cell period variable MetricBias (Bias c) biasLo biasHi n ].

(** The accumulators of [computeRows]. *)
Record Accs := MkAccs {
  a_temp : Continuous; a_wind : Continuous; a_humidity : Continuous; a_pressure : Continuous;
  a_rainAll : Continuous; a_rainWet : Continuous; a_occ : Confusion; a_brier : Brier; a_occN : Z
}.

Definition Accs_zero : Accs :=
  MkAccs Continuous_zero Continuous_zero Continuous_zero Continuous_zero Continuous_zero Continuous_zero
    Confusion_zero Brier_zero 0.

(** [if eval.Eligible(f, o, q) { c.Add(f, o, w) }] *)
Definition add_eligible (c : Continuous) (f o : option float64) (q : string) (w : float64) : Continuous :=
  match f, o with
  | Some x, Some y => if Eligible f o q then Continuous_Add c x y w else c
  | _, _ => c
  end.

Definition pair_step (a : Accs) (p : PairRecord) : Accs :=
  let w := ProvenanceWeight (p_ObservationType p) in
  let q := p_QualityFlag p in
  let wet := match OPrecipMM p with Some v => fleb ObservedRainThresholdMM v | None => false end in
  let known := bool_decide (is_Some (OPrecipMM p)) && negb (String.eqb q Eval.QualitySuspect) in
  let observedRain := ObservedRain (OPrecipMM p) in
  MkAccs
    (add_eligible (a_temp a) (FTemperature p) (OTemperature p) q w)
    (add_eligible (a_wind a) (FWindSpeed p) (OWindSpeed p) q w)
    (add_eligible (a_humidity a) (FHumidity p) (OHumidity p) q w)
    (add_eligible (a_pressure a) (FPressure p) (OPressure p) q w)
    (add_eligible (a_rainAll a) (FPrecipMM p) (OPrecipMM p) q w)
    (if wet then add_eligible (a_rainWet a) (FPrecipMM p) (OPrecipMM p) q w else a_rainWet a)
    (if known then Confusion_Add (a_occ a) (ForecastRain (FPrecipProb p) (FPrecipMM p)) observedRain w else a_occ a)
    (if known then match FPrecipProb p with Some pr => Brier_Add (a_brier a) pr observedRain w | None => a_brier a end
     else a_brier a)
    (if known then a_occN a + 1 else a_occN a).

Definition accumulators (pairs : list PairRecord) : Accs := fold_left pair_step pairs Accs_zero.

Definition computeRows (cell : Cell) (period : Period) (pairs : list PairRecord)
  (counts : VariableCounts) (scheduled success : Z) : list Row :=
  let a := accumulators pairs in
  let occ := a_occ a in
  let occN := a_occN a in
  let '(rMaeLo, rMaeHi) := MAECI (a_rainAll a) in
  let '(rwLo, rwHi) := MAECI (a_rainWet a) in
  let '(bLo, bHi) := ScoreCI (a_brier a) in
  (continuousRows cell period VarTemperature (a_temp a)
   ++ continuousRows cell period VarWindSpeed (a_wind a)
   ++ continuousRows cell period VarHumidity (a_humidity a)
   ++ continuousRows cell period VarPressure (a_pressure a)
   ++ [ (fun id => metric id cell period VarPrecipitation MetricRainMAEAll (MAE (a_rainAll a)) rMaeLo rMaeHi (Continuous_N (a_rainAll a)));
        (fun id => metric id cell period VarPrecipitation MetricRainMAEWet (MAE (a_rainWet a)) rwLo rwHi (Continuous_N (a_rainWet a)));
        (fun id => ratioRow id cell period MetricRecall (Recall occ) (TP occ + FN occ)%f64 occN);
        (fun id => ratioRow id cell period MetricPrecision (Precision occ) (TP occ + FP occ)%f64 occN);
        (fun id => ratioRow id cell period MetricF1 (F1 occ) (f2 * TP occ + FP occ + FN occ)%f64 occN);
        (fun id => ratioRow id cell period MetricFAR (FalseAlarmRate occ) (FP occ + TN occ)%f64 occN);
        (fun id => ratioRow id cell period MetricThreatScore (ThreatScore occ) (TP occ + FP occ + FN occ)%f64 occN);
        (fun id => ratioRow id cell period MetricOccurrenceAgreement (OccurrenceAgreement occ) (Confusion_N occ) occN);
        (fun id => metric id cell period VarPrecipitation MetricBrier (Score (a_brier a)) bLo bHi occN);
        (fun id => ratelessRow id cell period VarTemperature MetricCoverage (n_Temperature counts) scheduled);
        (fun id => ratelessRow id cell period VarWindSpeed MetricCoverage (n_WindSpeed counts) scheduled);
        (fun id => ratelessRow id cell period VarHumidity MetricCoverage (n_Humidity counts) scheduled);
        (fun id => ratelessRow id cell period VarPressure MetricCoverage (n_Pressure counts) scheduled);
        (fun id => ratelessRow id cell period VarPrecipitation MetricCoverage (n_Precipitation counts) scheduled);
        (fun id => ratelessRow id cell period VarAll MetricReliability success scheduled) ])%list.

Definition standardPeriods (now : Time) : list Period :=
  let dayStart := Date (Year now) (Month now) (DayOfMonth now) in
  let weekday := Weekday dayStart in
  let back := (weekday + 6) mod 7 in
  let weekStart := AddDate dayStart 0 0 (- back) in
  let monthStart := Date (Year now) (Month now) 1 in
  [ MkPeriod PeriodDaily dayStart (AddDate dayStart 0 0 1);
    MkPeriod PeriodWeekly weekStart (AddDate weekStart 0 0 7);
    MkPeriod PeriodMonthly monthStart (AddDate monthStart 0 1 0) ].

(** ** analysispg/metricspg.go *)

(** A stored row: the metric and its [superseded_by]. *)
Definition StoredMetric : Type := Stored AccuracyMetric.

(** A slot of [collection_schedules] with the provider of its configuration. *)
Record SlotRow := MkSlot {
  sl_JobType : string; sl_ConfigurationID : uuid; sl_LocationID : uuid; sl_SlotTime : Time
}.

Record MetricTables := MkMetricTables {
  mt_match : AnalysisPG.MatchTables;
  mt_slots : list SlotRow;
  mt_configurations : list (uuid * uuid);          (* id, provider_id *)
  mt_collections : list ForecastCollection;
  mt_metrics : list StoredMetric
}.

Import AnalysisPG.

Definition with_metrics (d : MetricTables) (ms : list StoredMetric) : MetricTables :=
  MkMetricTables (mt_match d) (mt_slots d) (mt_configurations d) (mt_collections d) ms.

Definition cell_of (me : MatchedEvaluation) : Cell :=
  MkCell (me_ProviderID me) (me_LocationID me) (me_ForecastHorizonMinutes me).

(** The observations joined to a pair. *)
Definition pair_obs (d : MetricTables) (me : MatchedEvaluation) : list Observation :=
  List.filter (fun o => bool_decide (o_ID o = me_ObservationID me)) (t_observations (mt_match d)).

Definition pg_ListCells (from to : Time) (d : MetricTables) : list Cell :=
  remove_dups (cell_of <$>
    List.filter (fun me => in_window from to (me_TargetTime me)
                  && existsb (fun o => bool_decide (o_SupersededObservationID o = None)) (pair_obs d me))
      (t_matched (mt_match d))).

Definition pair_record (s : ForecastSnapshot) (o : Observation) : PairRecord :=
  MkPair (o_ObservationType o) (o_QualityFlag o)
    (s_TemperatureC s) (s_WindSpeedMS s) (s_HumidityPct s) (s_PressureHPa s)
    (s_PrecipitationAmountMM s) (s_PrecipitationProbability s)
    (o_TemperatureC o) (o_WindSpeedMS o) (o_HumidityPct o) (o_PressureHPa o) (o_PrecipitationMM o).

Definition pg_ReadPairs (cell : Cell) (from to : Time) (d : MetricTables) : list PairRecord :=
  me ← List.filter (fun me => bool_decide (cell_of me = cell) && in_window from to (me_TargetTime me))
         (t_matched (mt_match d));
  s ← List.filter (fun s => bool_decide (s_ID s = me_ForecastSnapshotID me)) (t_snapshots (mt_match d));
  o ← List.filter (fun o => bool_decide (o_SupersededObservationID o = None)
                       && negb (String.eqb (o_QualityFlag o) Records.QualitySuspect)) (pair_obs d me);
  [pair_record s o].

(** [count(column)]: the non-null values. *)
Definition count_present (f : ForecastSnapshot -> option float64) (l : list ForecastSnapshot) : Z :=
  Z.of_nat (length (omap f l)).

Definition pg_SnapshotVariableCounts (cell : Cell) (from to : Time) (d : MetricTables) : VariableCounts :=
  let l := List.filter (fun s => bool_decide (MkCell (s_ProviderID s) (s_LocationID s) (s_ForecastHorizonMinutes s) = cell)
                            && in_window from to (s_TargetTime s)) (t_snapshots (mt_match d)) in
  MkCounts (count_present s_TemperatureC l) (count_present s_WindSpeedMS l) (count_present s_HumidityPct l)
    (count_present s_PressureHPa l) (count_present s_PrecipitationAmountMM l).

Definition pg_ScheduledForecastSlots (providerID locationID : uuid) (from to : Time) (d : MetricTables) : Z :=
  Z.of_nat (length (
    cs ← List.filter (fun cs => String.eqb (sl_JobType cs) "forecast_collection"
                           && bool_decide (sl_LocationID cs = locationID)
                           && in_window from to (sl_SlotTime cs)) (mt_slots d);
    List.filter (fun pc : uuid * uuid => bool_decide (pc.1 = sl_ConfigurationID cs) && bool_decide (pc.2 = providerID))
      (mt_configurations d))).

Definition pg_SuccessfulCollections (providerID locationID : uuid) (from to : Time) (d : MetricTables) : Z :=
  Z.of_nat (length (List.filter (fun c => bool_decide (fc_ProviderID c = providerID) && bool_decide (fc_LocationID c = locationID)
    && bool_decide (fc_Status c = StatusSuccess) && in_window from to (fc_RequestedAt c)) (mt_collections d))).

(** The CHECK constraints of [accuracy_metrics]. *)
Definition metric_check (m : AccuracyMetric) : bool :=
  (0 <=? am_SampleCount m) && (am_PeriodStart m <? am_PeriodEnd m)
  && Bool.eqb (bool_decide (am_Value m = None)) (am_SampleCount m =? 0)
  && match am_CILower m, am_Value m, am_CIUpper m with
     | Some lo, Some v, Some hi => fleb lo v && fleb v hi
     | _, _, _ => true
     end.

Definition pg_InsertMetrics (rows : list AccuracyMetric) (d : MetricTables) : option (MetricTables * unit) :=
  if forallb metric_check rows then Some (with_metrics d (mt_metrics d ++ fresh_rows rows), tt)
  else None.

(** The logical key of a metric row. *)
Definition metric_key (m : AccuracyMetric) : uuid * uuid * Z * string * string * Time * Time :=
  (am_ProviderID m, am_LocationID m, am_HorizonMinutes m, am_Variable m, am_MetricType m, am_PeriodStart m, am_PeriodEnd m).

Definition pg_SupersedePrevious (m : AccuracyMetric) (d : MetricTables) : MetricTables * unit :=
  (with_metrics d (supersede_row metric_key am_ID m <$> mt_metrics d), tt).

(** ** AggregateService *)

Section Service.
Context `{Env}.

Definition aggregateCellPeriod (cell : Cell) (period : Period) : M MetricTables Z :=
  pairs <-- query "read pairs" (pg_ReadPairs cell (Start period) (End_ period)) ;;
  counts <-- query "snapshot variable counts" (pg_SnapshotVariableCounts cell (Start period) (End_ period)) ;;
  scheduled <-- query "scheduled forecast slots"
    (pg_ScheduledForecastSlots (ce_ProviderID cell) (ce_LocationID cell) (Start period) (End_ period)) ;;
  success <-- query "successful collections"
    (pg_SuccessfulCollections (ce_ProviderID cell) (ce_LocationID cell) (Start period) (End_ period)) ;;
  rows <-- mapM (fun r : Row => id <-- fresh ;; ret (r id)) (computeRows cell period pairs counts scheduled success) ;;
  match rows with
  | [] => ret 0
  | _ => tx_run (dbexec "insert metrics" (pg_InsertMetrics rows) ;;;
                 iterM (fun m => dbcall "supersede previous metric" (pg_SupersedePrevious m)) rows) ;;;
         ret (Z.of_nat (length rows))
  end.

(** Both loops return the count so far with the error. *)
Fixpoint aggregateCells (cells : list Cell) (period : Period) (total : Z) : M MetricTables (Z * option string) :=
  match cells with
  | [] => ret (total, None)
  | cell :: cells =>
      r <-- attempt (aggregateCellPeriod cell period) ;;
      match r with
      | Error e => ret (total, Some e)
      | Ok n => aggregateCells cells period (total + n)
      end
  end.

Definition AggregatePeriod (period : Period) : M MetricTables (Z * option string) :=
  r <-- attempt (query "list cells" (pg_ListCells (Start period) (End_ period))) ;;
  match r with
  | Error e => ret (0, Some e)
  | Ok cells => aggregateCells cells period 0
  end.

Fixpoint aggregatePeriods (ps : list Period) (total : Z) : M MetricTables (Z * option string) :=
  match ps with
  | [] => ret (total, None)
  | p :: ps =>
      r <-- AggregatePeriod p ;;
      match r with
      | (_, Some e) => ret (total, Some e)
      | (n, None) => aggregatePeriods ps (total + n)
      end
  end.

Definition AggregateBatch (now : Time) : M MetricTables (Z * option string) :=
  aggregatePeriods (standardPeriods now) 0.
End Service.

End Aggregate.
