(* ===== verification/AggregateProps.v ===== *)
(** * Correctness of aggregation

    The rows computed from plausible pairs pass the table's CHECKs, the standard
    periods contain the current instant, and a batch keeps one live row per
    logical key, whatever faults occur. *)

From Stdlib Require Import ZArith Lia Bool String.
From Stdlib Require Import SpecFloat.
From stdpp Require Import base list strings gmap.
From S2P Require Import Prelude Float64 Float64Round GoTime Uuid Effects Versioned Records Eval EvalProps Matching Aggregate.

Import Records Eval EvalProps Matching Aggregate.
Local Open Scope Z_scope.

Module AggregateProps.

(** ** The accumulators *)

Definition sane_opt (v : option float64) : Prop := match v with Some x => sane x | None => True end.

(** A pair whose values lie in the physical ranges. *)
Record pair_plausible (p : PairRecord) : Prop := {
  pp_ft : sane_opt (FTemperature p); pp_fw : sane_opt (FWindSpeed p); pp_fh : sane_opt (FHumidity p);
  pp_fp : sane_opt (FPressure p); pp_fr : sane_opt (FPrecipMM p);
  pp_prob : match FPrecipProb p with Some x => unit_interval x | None => True end;
  pp_ot : sane_opt (OTemperature p); pp_ow : sane_opt (OWindSpeed p); pp_oh : sane_opt (OHumidity p);
  pp_op : sane_opt (OPressure p); pp_or : sane_opt (OPrecipMM p);
}.

(** A continuous accumulator of at most [k] pairs. *)
Definition cont_upto (k : Z) (c : Continuous) : Prop := exists j, 0 <= j <= k /\ cont_full j c.

Record accs_inv (k : Z) (a : Accs) : Prop := {
  av_temp : cont_upto k (a_temp a); av_wind : cont_upto k (a_wind a); av_hum : cont_upto k (a_humidity a);
  av_press : cont_upto k (a_pressure a); av_rain : cont_upto k (a_rainAll a); av_wet : cont_upto k (a_rainWet a);
  av_occN : 0 <= a_occN a <= k;
  av_occ : conf_inv (a_occN a) (a_occ a);
  av_brier : exists j, 0 <= j <= a_occN a /\ brier_inv j (a_brier a);
}.

Lemma cont_upto_same k c : cont_upto k c -> cont_upto (k + 1) c.
Proof. intros (j & Hj & C). exists j. split; [lia|assumption]. Qed.

Lemma cont_upto_add k c f o q w :
  0 <= k < 2 ^ 28 -> sane_opt f -> sane_opt o -> weight_ok w -> cont_upto k c ->
  cont_upto (k + 1) (add_eligible c f o q w).
Proof.
  intros Hk Hf Ho Hw Hc. unfold add_eligible. destruct f as [x|], o as [y|]; try now apply cont_upto_same.
  destruct (Eligible _ _ _); [|now apply cont_upto_same]. destruct Hc as (j & Hj & C).
  exists (j + 1). split; [lia|]. apply cont_full_add; auto. lia.
Qed.

Lemma pair_step_inv k a p :
  0 <= k < 2 ^ 28 -> pair_plausible p -> accs_inv k a -> accs_inv (k + 1) (pair_step a p).
Proof.
  intros Hk [] []. pose proof (ProvenanceWeight_ok (p_ObservationType p)) as Hw.
  set (w := ProvenanceWeight (p_ObservationType p)) in *.
  constructor; cbn [pair_step a_temp a_wind a_humidity a_pressure a_rainAll a_rainWet a_occ a_brier a_occN];
    fold w; try now apply cont_upto_add.
  - destruct (match OPrecipMM p with Some _ => _ | None => _ end); [now apply cont_upto_add|now apply cont_upto_same].
  - destruct (_ && _); lia.
  - destruct (_ && _); [|assumption]. apply conf_inv_add; auto. lia.
  - destruct (_ && _); [|assumption]. destruct av_brier0 as (j & Hj & B). destruct (FPrecipProb p) as [pr|].
    + exists (j + 1). split; [lia|]. apply brier_inv_add; auto. lia.
    + exists j. split; [lia|assumption].
Qed.

Lemma accumulators_inv pairs :
  Forall pair_plausible pairs -> Z.of_nat (length pairs) <= 2 ^ 28 ->
  accs_inv (Z.of_nat (length pairs)) (accumulators pairs).
Proof.
  unfold accumulators. induction pairs as [|p pairs IH] using rev_ind; intros F L.
  - constructor; try (exists 0; split; [cbn; lia|]; constructor; [apply cont_inv_zero|reflexivity]); cbn; try lia.
    + apply conf_inv_zero.
    + exists 0. split; [lia|apply brier_inv_zero].
  - apply Forall_app in F as [F Fp]. apply Forall_inv in Fp. rewrite length_app in L |- *. cbn [length] in *.
    rewrite fold_left_app. cbn [fold_left]. rewrite Nat2Z.inj_add. apply pair_step_inv; auto; [lia|apply IH; auto; lia].
Qed.

(** ** Rows *)

(** A row before its id satisfies the CHECKs, whatever the id. *)
Definition row_checked (r : Row) : Prop := forall i, metric_check (r i) = true.

Lemma metric_checked i cell period var ty v lo hi n :
  Start period < End_ period -> (v <> None -> 1 <= n) -> brackets v (lo, hi) ->
  metric_check (metric i cell period var ty v lo hi n) = true.
Proof.
  intros P N B. unfold metric, metric_check. destruct v as [v|]; cbn.
  - assert (1 <= n) by (apply N; discriminate). rewrite (proj2 (Z.leb_le 0 n)) by lia.
    rewrite (proj2 (Z.ltb_lt _ _) P). rewrite (proj2 (Z.eqb_neq n 0)) by lia. cbn.
    destruct lo as [lo|], hi as [hi|]; cbn in B; try reflexivity.
    destruct B as [-> ->]. reflexivity.
  - now rewrite (proj2 (Z.ltb_lt _ _) P).
Qed.

Lemma zb_0 x : zb 0 x -> feqb x f0 = true.
Proof.
  intros (F & V & B). destruct x as [s|s| |s m e]; try discriminate; [now destruct s|exfalso].
  pose proof (fexpo_kmin _ V) as K. cbn in K, B.
  assert (0 < Zpos m * 2 ^ (e - kmin)) by (apply Z.mul_pos_pos; [lia|apply Z.pow_pos_nonneg; lia]).
  destruct s; cbn in B; lia.
Qed.

(** A non-null continuous metric has at least one pair. *)
Lemma cont_count k c : cont_upto k c -> feqb (sumWeight c) f0 = false -> 1 <= Continuous_N c.
Proof.
  intros (j & Hj & [[] _]) E. unfold Continuous_N. rewrite ci_n0.
  destruct (Z.eq_dec j 0) as [->|]; [|lia]. now rewrite (zb_0 _ ci_w0) in E.
Qed.

Lemma cont_some c :
  (MAE c <> None -> feqb (sumWeight c) f0 = false) /\ (RMSE c <> None -> feqb (sumWeight c) f0 = false) /\
  (Bias c <> None -> feqb (sumWeight c) f0 = false).
Proof. unfold MAE, RMSE, Bias. now destruct (feqb (sumWeight c) f0). Qed.

Section Rows.
Context (cell : Cell) (period : Period) (P : Start period < End_ period).

Lemma continuous_checked k var c :
  cont_upto k c -> k <= 2 ^ 28 -> Forall row_checked (continuousRows cell period var c).
Proof.
  intros C K. pose proof C as (j & Hj & Cf). destruct (cont_intervals j c Cf ltac:(lia)) as (B1 & B2 & B3).
  destruct (cont_some c) as (N1 & N2 & N3). pose proof (cont_count k c C) as N.
  unfold continuousRows. destruct (MAECI c) as [m1 m2], (RMSECI c) as [r1 r2], (BiasCI c) as [b1 b2].
  repeat constructor; intros i; apply metric_checked; auto.
Qed.

Lemma mae_checked k var ty c :
  cont_upto k c -> k <= 2 ^ 28 ->
  row_checked (fun i => metric i cell period var ty (MAE c) (MAECI c).1 (MAECI c).2 (Continuous_N c)).
Proof.
  intros C K i. pose proof C as (j & Hj & Cf). destruct (cont_intervals j c Cf ltac:(lia)) as (B1 & _ & _).
  destruct (cont_some c) as (N1 & _ & _). apply metric_checked; [assumption| |now rewrite <- surjective_pairing].
  intros Hn. eapply cont_count; eauto.
Qed.

(** A proportion is non-null only if something was counted. *)
Lemma ratio_checked ty v denom k n :
  amount k denom -> (feqb denom f0 = false -> 1 <= n) -> proportion_ok v denom ->
  (v <> None -> feqb denom f0 = false) -> row_checked (fun i => ratioRow i cell period ty v denom n).
Proof.
  intros A Hn Hp Hv i. unfold ratioRow. destruct v as [v|].
  - cbn in Hp. destruct (Wilson v denom) as [lo hi]. destruct Hp as (_ & _ & _ & L & H & _).
    apply metric_checked; [assumption|intros _; apply Hn, Hv; discriminate|now split].
  - now apply metric_checked.
Qed.

Lemma ratio_some num d : ratio num d <> None -> feqb d f0 = false.
Proof. unfold ratio. now destruct (feqb d f0). Qed.

Lemma rateless_checked var ty num denom :
  row_checked (fun i => ratelessRow i cell period var ty num denom).
Proof.
  intros i. unfold ratelessRow. destruct (Z.leb_spec denom 0); (apply metric_checked; [assumption| |exact I]); [easy|lia].
Qed.

Lemma conf_count k c x :
  0 <= k -> conf_inv k c -> (k = 0 -> feqb x f0 = true) -> feqb x f0 = false -> 1 <= k.
Proof. intros Hk _ Hx E. destruct (Z.eq_dec k 0) as [->|]; [|lia]. rewrite Hx in E; [discriminate|reflexivity]. Qed.
End Rows.

Lemma amount_0 x : amount 0 x -> feqb x f0 = true.
Proof. intros [Z _ _]. now apply zb_0. Qed.

(** The six rain rows. *)
Lemma rain_checked cell period occ n :
  Start period < End_ period -> 0 <= n <= 2 ^ 50 -> conf_inv n occ ->
  Forall row_checked [
    (fun id => ratioRow id cell period MetricRecall (Recall occ) (TP occ + FN occ)%f64 n);
    (fun id => ratioRow id cell period MetricPrecision (Precision occ) (TP occ + FP occ)%f64 n);
    (fun id => ratioRow id cell period MetricF1 (F1 occ) (f2 * TP occ + FP occ + FN occ)%f64 n);
    (fun id => ratioRow id cell period MetricFAR (FalseAlarmRate occ) (FP occ + TN occ)%f64 n);
    (fun id => ratioRow id cell period MetricThreatScore (ThreatScore occ) (TP occ + FP occ + FN occ)%f64 n);
    (fun id => ratioRow id cell period MetricOccurrenceAgreement (OccurrenceAgreement occ) (Confusion_N occ) n) ].
Proof.
  intros P K I. pose proof I as [].
  pose proof bounds_2_50 as B. destruct (two_amount_le n K (TP occ) cf_tp0) as [_ A2].
  assert (A3 : amount (2 * n + n + n) (f2 * TP occ + FP occ + FN occ)%f64)
    by (apply amount_add; auto; try lia; apply amount_add; auto; lia).
  assert (Z0 : forall k x, amount (k * n) x -> feqb x f0 = false -> 1 <= n).
  { intros k x A E. destruct (Z.eq_dec n 0) as [En|]; [|lia]. rewrite En, Z.mul_0_r in A.
    now rewrite (amount_0 x A) in E. }
  assert (S2 : forall x y, amount n x -> amount n y -> amount (2 * n) (x + y)%f64) by (intros; now apply sum2_amount).
  replace (2 * n + n + n) with (4 * n) in A3 by lia.
  assert (A4 : amount (3 * n) (TP occ + FP occ + FN occ)%f64) by now apply sum3_amount.
  pose proof (confusion_n_amount n occ I K) as A5.
  repeat constructor; eapply ratio_checked; eauto using proportion_ok_intro, ratio_some.
  - eapply proportion_ok_intro; eauto. now apply (proportion2 n).
  - eapply proportion_ok_intro; eauto. now apply (proportion2 n).
  - eapply proportion_ok_intro; eauto. now apply (f1_unit n).
  - eapply proportion_ok_intro; eauto. now apply (proportion2 n).
  - eapply proportion_ok_intro; eauto. now apply (threat_score_unit n).
  - eapply proportion_ok_intro; eauto. now apply (agreement_unit n).
Qed.

(** All the rows of a cell and period. *)
Lemma computeRows_checked cell period pairs counts scheduled success :
  Start period < End_ period -> Forall pair_plausible pairs -> Z.of_nat (length pairs) <= 2 ^ 28 ->
  Forall row_checked (computeRows cell period pairs counts scheduled success).
Proof.
  intros P F L. destruct (accumulators_inv pairs F L). unfold computeRows.
  set (a := accumulators pairs) in *. set (k := Z.of_nat (length pairs)) in *.
  pose proof (mae_checked cell period P k VarPrecipitation MetricRainMAEAll (a_rainAll a) av_rain0 L) as R1.
  pose proof (mae_checked cell period P k VarPrecipitation MetricRainMAEWet (a_rainWet a) av_wet0 L) as R2.
  destruct (MAECI (a_rainAll a)) as [rl rh], (MAECI (a_rainWet a)) as [wl wh].
  destruct av_brier0 as (j & Hj & B).
  assert (Rb : row_checked (fun id => metric id cell period VarPrecipitation MetricBrier (Score (a_brier a))
                              (ScoreCI (a_brier a)).1 (ScoreCI (a_brier a)).2 (a_occN a))).
  { intros i. apply metric_checked; auto.
    - intros Hn. destruct (Z.eq_dec j 0) as [->|]; [|lia]. exfalso. apply Hn. unfold Score, ratio.
      now rewrite (amount_0 _ (bi_w _ _ B)).
    - rewrite <- surjective_pairing. apply (brier_interval j); [assumption|lia]. }
  destruct (ScoreCI (a_brier a)) as [bl bh]. cbn [fst snd] in *.
  pose proof (rain_checked cell period (a_occ a) (a_occN a) P ltac:(lia) av_occ0) as Rr.
  rewrite !Forall_app. repeat (split; [now apply (continuous_checked cell period P k)|]).
  rewrite !Forall_cons in Rr. rewrite !Forall_cons. destruct Rr as (? & ? & ? & ? & ? & ? & _).
  repeat (split; [assumption|]). repeat (split; [now apply rateless_checked|]). constructor.
Qed.

(** ** Keys *)

(** The (variable, metric) of each row, in order. *)
Definition continuous_names (v : string) : list (string * string) :=
  [(v, MetricMAE); (v, MetricRMSE); (v, MetricBias)].

Definition row_names : list (string * string) :=
  continuous_names VarTemperature ++ continuous_names VarWindSpeed ++ continuous_names VarHumidity
  ++ continuous_names VarPressure
  ++ [(VarPrecipitation, MetricRainMAEAll); (VarPrecipitation, MetricRainMAEWet); (VarPrecipitation, MetricRecall);
      (VarPrecipitation, MetricPrecision); (VarPrecipitation, MetricF1); (VarPrecipitation, MetricFAR);
      (VarPrecipitation, MetricThreatScore); (VarPrecipitation, MetricOccurrenceAgreement);
      (VarPrecipitation, MetricBrier); (VarTemperature, MetricCoverage); (VarWindSpeed, MetricCoverage);
      (VarHumidity, MetricCoverage); (VarPressure, MetricCoverage); (VarPrecipitation, MetricCoverage);
      (VarAll, MetricReliability)].

Lemma row_names_nodup : NoDup row_names.
Proof. apply (bool_decide_unpack _). vm_compute. exact I. Qed.

Definition key_of (cell : Cell) (period : Period) (n : string * string) :=
  (ce_ProviderID cell, ce_LocationID cell, ce_HorizonMinutes cell, n.1, n.2, Start period, End_ period).

Definition row_named (cell : Cell) (period : Period) (r : Row) (n : string * string) : Prop :=
  forall i, am_ID (r i) = i /\ metric_key (r i) = key_of cell period n.

Lemma metric_named cell period var ty v lo hi n :
  row_named cell period (fun i => metric i cell period var ty v lo hi n) (var, ty).
Proof. intros i. unfold metric. now destruct v. Qed.

Lemma ratio_named cell period ty v denom n :
  row_named cell period (fun i => ratioRow i cell period ty v denom n) (VarPrecipitation, ty).
Proof. intros i. unfold ratioRow. destruct v as [v|]; [destruct (Wilson v denom)|]; apply metric_named. Qed.

Lemma rateless_named cell period var ty num denom :
  row_named cell period (fun i => ratelessRow i cell period var ty num denom) (var, ty).
Proof. intros i. unfold ratelessRow. destruct (_ <=? _); apply metric_named. Qed.

Lemma continuous_named cell period var c :
  Forall2 (row_named cell period) (continuousRows cell period var c) (continuous_names var).
Proof.
  unfold continuousRows. destruct (MAECI c), (RMSECI c), (BiasCI c).
  repeat constructor; apply metric_named.
Qed.

Lemma computeRows_named cell period pairs counts scheduled success :
  Forall2 (row_named cell period) (computeRows cell period pairs counts scheduled success) row_names.
Proof.
  unfold computeRows. set (a := accumulators pairs). clearbody a.
  destruct (MAECI (a_rainAll a)), (MAECI (a_rainWet a)), (ScoreCI (a_brier a)).
  repeat (apply Forall2_app; [apply continuous_named|]).
  repeat constructor; first [apply metric_named|apply ratio_named|apply rateless_named].
Qed.

(** Rows with their ids, as [aggregateCellPeriod] assigns them. *)
Definition with_ids `{Env} (rs : list Row) (n : nat) : list AccuracyMetric :=
  imap (fun i r => r (newID (n + i)%nat)) rs.

Lemma mapM_fresh `{Env} {D} (rs : list Row) (w : World D) :
  mapM (fun r : Row => id <-- fresh ;; ret (r id)) rs w =
  (MkWorld (db w) (tick w) (nids w + length rs)%nat, Ok (with_ids rs (nids w))).
Proof.
  revert w. induction rs as [|r rs IH]; intros w.
  - cbn. rewrite Nat.add_0_r. now destruct w.
  - assert (E : mapM (fun r : Row => id <-- fresh ;; ret (r id)) (r :: rs) w =
      match mapM (fun r : Row => id <-- fresh ;; ret (r id)) rs (MkWorld (db w) (tick w) (S (nids w))) with
      | (w', Ok ys) => (w', Ok (r (newID (nids w)) :: ys))
      | (w', Error e) => (w', Error e)
      end) by reflexivity.
    rewrite E, IH. cbn. f_equal; [f_equal; lia|]. unfold with_ids. cbn. rewrite Nat.add_0_r. do 2 f_equal.
    apply imap_ext. intros i x _. cbn. do 2 f_equal. lia.
Qed.

Section Named.
Context `{FreshIds} (cell : Cell) (period : Period) (rs : list Row) (F : Forall2 (row_named cell period) rs row_names) (n : nat).

Lemma with_ids_keys : metric_key <$> with_ids rs n = key_of cell period <$> row_names.
Proof.
  unfold with_ids. revert n. induction F as [|r m rs ns R Fs IH]; intros k; [reflexivity|]. cbn. f_equal; [apply R|].
  rewrite <- (IH Fs (S k)). f_equal. apply imap_ext. intros i x _. cbn. do 2 f_equal. lia.
Qed.

Lemma with_ids_ids m : m ∈ with_ids rs n -> exists i, (n <= i < n + length rs)%nat /\ am_ID m = newID i.
Proof.
  unfold with_ids. intros Hm. apply elem_of_lookup_imap in Hm as (i & r & -> & Hr).
  destruct (Forall2_lookup_l _ _ _ _ _ F Hr) as (nm & _ & R). exists (n + i)%nat. split; [|apply R].
  assert (i < length rs)%nat by (eapply lookup_lt_Some, Hr). lia.
Qed.

Lemma with_ids_keys_nodup : NoDup (metric_key <$> with_ids rs n).
Proof.
  rewrite with_ids_keys. apply NoDup_fmap_2; [|apply row_names_nodup].
  intros [a b] [c d]. unfold key_of. cbn. congruence.
Qed.
End Named.

(** ** The batch *)

Section Batch.
Context `{FreshIds}.

Abbreviation winv := (Versioned.winv metric_key am_ID mt_metrics).
Abbreviation wkeeps := (Versioned.wkeeps metric_key am_ID mt_metrics).

Lemma pg_metric_insert_spec rows d d' u :
  pg_InsertMetrics rows d = Some (d', u) -> d' = with_metrics d (mt_metrics d ++ fresh_rows rows).
Proof. unfold pg_InsertMetrics. destruct (forallb _ _); [|discriminate]. now intros [= <-]. Qed.

(** Publishing named rows with fresh ids. *)
Lemma wkeeps_publish cell period rs :
  Forall2 (row_named cell period) rs row_names ->
  wkeeps (rows <-- mapM (fun r : Row => id <-- fresh ;; ret (r id)) rs ;;
          match rows with
          | [] => ret 0
          | _ => tx_run (dbexec "insert metrics" (pg_InsertMetrics rows) ;;;
                         iterM (fun m => dbcall "supersede previous metric" (pg_SupersedePrevious m)) rows) ;;;
                 ret (Z.of_nat (length rows))
          end).
Proof.
  intros F w W. pose (G := fun w' => winv w' /\ history (mt_metrics (db w)) (mt_metrics (db w'))).
  match goal with |- winv ?r /\ _ => change (G r) end. unfold bind at 1. rewrite mapM_fresh.
  set (rows := with_ids rs (nids w)). set (w1 := MkWorld _ _ _).
  assert (K : let w' := (publish metric_key am_ID mt_metrics with_metrics pg_InsertMetrics
                 "insert metrics" "supersede previous metric" rows w1).1 in
              winv w' /\ history (mt_metrics (db w1)) (mt_metrics (db w'))).
  { apply (publish_keeps metric_key am_ID mt_metrics with_metrics (fun d ms => eq_refl) pg_InsertMetrics
             pg_metric_insert_spec) with (n := nids w).
    - destruct w; exact W.
    - cbn. lia.
    - now apply (with_ids_keys_nodup cell period).
    - intros m Hm. destruct (with_ids_ids cell period rs F (nids w) m Hm) as (i & Hi & E). exists i. cbn. auto. }
  clearbody rows. destruct rows as [|m0 rows0]; [split; [|reflexivity]; eapply winv_same; eauto; cbn; lia|].
  unfold publish in K. cbv zeta in K. unfold bind at 1. unfold pg_SupersedePrevious.
  destruct (tx_run _ w1) as [w2 [u|e]]; exact K.
Qed.

Lemma wkeeps_cell cell period : wkeeps (aggregateCellPeriod cell period).
Proof.
  do 4 (apply wkeeps_bind; [apply wkeeps_query|]; intros ?). eapply wkeeps_publish, computeRows_named.
Qed.

Lemma wkeeps_cells cells period total : wkeeps (aggregateCells cells period total).
Proof.
  revert total. induction cells as [|c cells IH]; intros total; [apply wkeeps_ret|].
  apply wkeeps_bind; [apply wkeeps_attempt, wkeeps_cell|]. intros [n|e]; [apply IH|apply wkeeps_ret].
Qed.

Lemma wkeeps_period period : wkeeps (AggregatePeriod period).
Proof.
  apply wkeeps_bind; [apply wkeeps_attempt, wkeeps_query|]. intros [cs|e]; [apply wkeeps_cells|apply wkeeps_ret].
Qed.

Lemma wkeeps_periods ps total : wkeeps (aggregatePeriods ps total).
Proof.
  revert total. induction ps as [|p ps IH]; intros total; [apply wkeeps_ret|].
  apply wkeeps_bind; [apply wkeeps_period|]. intros [n [e|]]; [apply wkeeps_ret|apply IH].
Qed.
End Batch.

(** ** Theorems *)

(** Note: every metric row computed from pairs of physically possible values
    passes the CHECK constraints of [accuracy_metrics] (value null exactly when the
    sample count is zero, the value inside its interval), so the insert of a cell
    is never rejected by the table; the rows carry pairwise different keys. *)
Theorem compute_rows_pass_checks cell period pairs counts scheduled success n `{Env} :
  Start period < End_ period -> Forall pair_plausible pairs -> Z.of_nat (length pairs) <= 2 ^ 28 ->
  let rows := with_ids (computeRows cell period pairs counts scheduled success) n in
  (forall d, is_Some (pg_InsertMetrics rows d)) /\ NoDup (metric_key <$> rows).
Proof.
  intros P F L rows. split.
  - intros d. unfold pg_InsertMetrics. assert (forallb metric_check rows = true) as ->; [|eauto].
    apply forallb_forall. intros m Hm. apply list_elem_of_In, elem_of_lookup_imap in Hm as (i & r & -> & Hr).
    apply list_elem_of_lookup_2 in Hr.
    exact (proj1 (Forall_forall _ _) (computeRows_checked cell period pairs counts scheduled success P F L) r Hr _).
  - apply (with_ids_keys_nodup cell period), computeRows_named.
Qed.

Definition demo_cell : Cell := MkCell 1 2 1440.
Definition demo_period : Period := MkPeriod PeriodDaily 0 Day.
Definition demo_pair : PairRecord :=
  MkPair "reanalysis" "valid" (Some (f64_lit 215 10)) (Some f1) None None (Some f0) (Some (f64_lit 2 10))
    (Some (f64_of_Z 20)) (Some f0) None (Some (f64_of_Z 1013)) (Some f0).

Lemma compute_rows_pass_checks_witness :
  is_Some (pg_InsertMetrics (with_ids (computeRows demo_cell demo_period [demo_pair; demo_pair]
                       (MkCounts 20 20 0 0 20) 24 22) 0)
             (MkMetricTables (AnalysisPG.MkTables [] [] []) [] [] [] [])).
Proof.
  assert (F : Forall pair_plausible [demo_pair; demo_pair]).
  { assert (pair_plausible demo_pair).
    { constructor; cbn; auto; unfold sane; try (rewrite <- zb_check_spec; vm_compute; reflexivity).
      split; [reflexivity|split; reflexivity]. }
    now repeat constructor. }
  apply (compute_rows_pass_checks demo_cell demo_period [demo_pair; demo_pair] (MkCounts 20 20 0 0 20) 24 22 0);
    [reflexivity|exact F|vm_compute; discriminate].
Defined.

(** C6: an aggregation batch keeps one live row per (provider, location, horizon,
    variable, metric, period), whatever statements fail and wherever it stops;
    stored rows never change but for [superseded_by], set once. *)
Theorem aggregate_batch_one_live `{FreshIds} now w :
  one_live metric_key (mt_metrics (db w)) ->
  (forall r i, r ∈ mt_metrics (db w) -> (nids w <= i)%nat -> am_ID r.1 <> newID i) ->
  let w' := (AggregateBatch now w).1 in
  one_live metric_key (mt_metrics (db w')) /\ history (mt_metrics (db w)) (mt_metrics (db w')).
Proof.
  intros O I. destruct (wkeeps_periods (standardPeriods now) 0 w ltac:(now constructor)) as [[O' _] Hh]. now split.
Qed.

(** A pair of snapshot 5 with observation 7, already aggregated once. *)
Definition demo_tables : MetricTables :=
  MkMetricTables
    (AnalysisPG.MkTables
       [MkSnapshot 5 1 2 9 0 (100 * Hour) 1440 (Some f1) None None (Some f0) None None None None None "" "" "" 0]
       [MkObservation 7 9 "openmeteo_historical" ObservationReanalysis (100 * Hour) (Some f1) None None None None (Some f0) ""
          "" Records.QualityValid None 0]
       [newPair 20 (MkSnapshotToMatch 5 2 9 (100 * Hour) 1440) 7 (100 * Hour)])
    [] [] [] [].

Lemma aggregate_batch_one_live_witness :
  let w1 := (AggregateBatch (101 * Hour) (MkWorld demo_tables 0 0)).1 in
  length (live (mt_metrics (db w1))) = 81%nat /\ one_live metric_key (mt_metrics (db w1)).
Proof.
  split; [vm_compute; reflexivity|].
  apply (aggregate_batch_one_live (101 * Hour) (MkWorld demo_tables 0 0)); [constructor|].
  intros r i Hr. now apply not_elem_of_nil in Hr.
Defined.

(** Note: the standard periods are windows that contain the current instant: the
    day of 24 hours, the week of 7 days from a Monday, and the calendar month of
    28 to 31 days. *)
Theorem standard_periods_contain_now now :
  Forall (fun p => Start p <= now < End_ p) (standardPeriods now) /\
  match standardPeriods now with
  | [d; w; m] =>
      (End_ d - Start d = Day /\ Start d mod Day = 0) /\
      (End_ w - Start w = 7 * Day /\ Weekday (Start w) = 1) /\
      (28 * Day <= End_ m - Start m <= 31 * Day /\ DayOfMonth (Start m) = 1)
  | _ => False
  end.
Proof.
  unfold standardPeriods. rewrite Date_fields, !AddDate_days. rewrite AddDate_next_month by apply Month_bounds.
  destruct (Date_first (Year now) (Month now) (Month_bounds now)) as (_ & _ & Ed & _).
  pose proof (month_contains now) as Mc. pose proof (month_length (Year now) (Month now) (Month_bounds now)) as Ml.
  set (ds := now - now mod Day). set (back := (Weekday ds + 6) mod 7).
  assert (Hds : ds <= now < ds + Day) by (unfold ds, Day, Hour, Minute, Second; zdiv).
  assert (Hm : ds mod Day = 0) by (unfold ds, Day, Hour, Minute, Second; zdiv).
  assert (Hb : 0 <= back < 7) by (apply Z.mod_pos_bound; lia).
  assert (Hw : Weekday (ds + - back * Day) = 1).
  { unfold back, Weekday, dayNumber. rewrite Z.div_add by discriminate. zdiv. }
  cbn [Start End_]. repeat split; cbn [Start End_]; try assumption; try lia.
  repeat constructor; cbn [Start End_]; unfold Day, Hour, Minute, Second in *; lia.
Qed.

End AggregateProps.
