(* ===== verification/RankService.v ===== *)
(** * The ranking service ([internal/analysis/rank.go])

    [RankService]: the cohort of a cell is built from its live metrics
    ([buildCohort]), ranked by [Ranking.RankCohort], and published in one
    transaction that supersedes the previous rows; [analysispg/rankingpg.go] is the
    repository, its inserts rejected by the CHECKs of [provider_rankings]. *)

From Stdlib Require Import ZArith Lia Bool String.
From Stdlib Require Import SpecFloat.
From stdpp Require Import base list strings gmap.
From S2P Require Import Prelude Float64 Float64Round GoTime Uuid Effects Versioned Records Eval EvalProps.
From S2P Require Import Matching Ranking Aggregate AggregateProps.

Import Eval EvalProps Matching Ranking Aggregate AggregateProps.
Local Open Scope string_scope.
Local Open Scope Z_scope.

Module RankService.

(** ** ports *)

Record LocationHorizon := MkLH { lh_LocationID : uuid; lh_HorizonMinutes : Z }.
#[export] Instance LocationHorizon_eq_dec : EqDecision LocationHorizon.
Proof. solve_decision. Defined.

Record MetricValue := MkMetricValue {
  mv_ProviderID : uuid;
  mv_Variable : string;
  mv_MetricType : string;
  mv_Value : option float64;
  mv_CILower : option float64;
  mv_CIUpper : option float64;
  mv_SampleCount : Z
}.

(** The JSON of the component breakdown is kept as the breakdown itself. *)
Record RankingRow := MkRankingRow {
  rr_ID : uuid;
  rr_ProviderID : uuid;
  rr_LocationID : uuid;
  rr_HorizonMinutes : Z;
  rr_CompositeScore : option float64;
  rr_CILower : option float64;
  rr_CIUpper : option float64;
  rr_Status : Status;
  rr_SampleCount : Z;
  rr_Coverage : option float64;
  rr_Reliability : option float64;
  rr_ComponentScores : list ComponentScore;
  rr_MethodologyVersion : string;
  rr_WeightsVersion : string;
  rr_HorizonProfile : string;
  rr_PeriodStart : Time;
  rr_PeriodEnd : Time
}.

(** ** rank.go: buildCohort *)

(** [m[k] = v] for a [*float64] value: storing nil reads back as nil. *)
Definition set_opt (k : string) (v : option float64) (m : gmap string float64) : gmap string float64 :=
  match v with Some x => <[k := x]> m | None => delete k m end.

Record acc := MkAccR {
  values : gmap string float64;
  ciHalf : gmap string float64;
  tempSample : Z;
  precipSample : Z;
  coverages : list float64
}.

Definition acc_zero : acc := MkAccR ∅ ∅ 0 0 [].

Definition halfOf (m : MetricValue) : option float64 :=
  match mv_CILower m, mv_CIUpper m with
  | Some lo, Some hi => Some ((hi - lo) / f2)%f64
  | _, _ => None
  end.

Definition is_metric (m : MetricValue) (variable metricType : string) : bool :=
  String.eqb (mv_Variable m) variable && String.eqb (mv_MetricType m) metricType.

(** The switch of the loop over the metrics. *)
Definition acc_step (a : acc) (m : MetricValue) : acc :=
  if is_metric m VarTemperature MetricMAE then
    MkAccR (set_opt "temp_mae" (mv_Value m) (values a)) (set_opt "temp_mae" (halfOf m) (ciHalf a))
      (mv_SampleCount m) (precipSample a) (coverages a)
  else if is_metric m VarTemperature MetricBias then
    MkAccR (match mv_Value m with Some v => <["temp_bias_abs" := fabs v]> (values a) | None => values a end)
      (set_opt "temp_bias_abs" (halfOf m) (ciHalf a)) (tempSample a) (precipSample a) (coverages a)
  else if is_metric m VarPrecipitation MetricF1 then
    MkAccR (set_opt "precip_f1" (mv_Value m) (values a)) (set_opt "precip_f1" (halfOf m) (ciHalf a))
      (tempSample a) (mv_SampleCount m) (coverages a)
  else if is_metric m VarPrecipitation MetricRainMAEAll then
    MkAccR (set_opt "rain_mae_all" (mv_Value m) (values a)) (set_opt "rain_mae_all" (halfOf m) (ciHalf a))
      (tempSample a) (precipSample a) (coverages a)
  else if is_metric m VarWindSpeed MetricMAE then
    MkAccR (set_opt "wind_mae" (mv_Value m) (values a)) (set_opt "wind_mae" (halfOf m) (ciHalf a))
      (tempSample a) (precipSample a) (coverages a)
  else if String.eqb (mv_MetricType m) MetricCoverage then
    MkAccR (values a) (ciHalf a) (tempSample a) (precipSample a)
      (match mv_Value m with Some v => coverages a ++ [v] | None => coverages a end)
  else if is_metric m VarAll MetricReliability then
    MkAccR (set_opt "reliability" (mv_Value m) (values a)) (ciHalf a) (tempSample a) (precipSample a) (coverages a)
  else a.

(** [provs] and [order]: a map, and its keys in order of first appearance. *)
Record Provs := MkProvs { provs : gmap uuid acc; order : list uuid }.

Definition provs_step (p : Provs) (m : MetricValue) : Provs :=
  let id := mv_ProviderID m in
  match provs p !! id with
  | Some a => MkProvs (<[id := acc_step a m]> (provs p)) (order p)
  | None => MkProvs (<[id := acc_step acc_zero m]> (provs p)) (order p ++ [id])
  end.

Definition provider_input (calendarDays : Z) (id : uuid) (a : acc) : ProviderInput :=
  let coverage := match coverages a with [] => None | c :: cs => Some (minOf c cs) end in
  let vs := set_opt "coverage" coverage (values a) in
  MkInput id vs (ciHalf a) (tempSample a) (precipSample a) calendarDays coverage (vs !! "reliability").

Definition buildCohort (vals : list MetricValue) (calendarDays : Z) : list ProviderInput :=
  let p := foldl provs_step (MkProvs ∅ []) vals in
  omap (fun id => provider_input calendarDays id <$> provs p !! id) (order p).

(** ** rankingpg.go *)

Record RankTables := MkRankTables {
  rt_metrics : list StoredMetric;
  rt_rankings : list (Stored RankingRow)
}.

Definition with_rankings (d : RankTables) (rs : list (Stored RankingRow)) : RankTables :=
  MkRankTables (rt_metrics d) rs.

Definition in_period (from to : Time) (m : AccuracyMetric) : bool :=
  (am_PeriodStart m =? from) && (am_PeriodEnd m =? to).

Definition pg_ListRankingCells (from to : Time) (d : RankTables) : list LocationHorizon :=
  remove_dups ((fun m => MkLH (am_LocationID m) (am_HorizonMinutes m)) <$>
    List.filter (in_period from to) (live (rt_metrics d))).

Definition metric_value (m : AccuracyMetric) : MetricValue :=
  MkMetricValue (am_ProviderID m) (am_Variable m) (am_MetricType m) (am_Value m) (am_CILower m) (am_CIUpper m) (am_SampleCount m).

Definition pg_ReadCohortMetrics (locationID : uuid) (horizon : Z) (from to : Time) (d : RankTables) : list MetricValue :=
  metric_value <$> List.filter (fun m => bool_decide (am_LocationID m = locationID) && (am_HorizonMinutes m =? horizon)
                                         && in_period from to m) (live (rt_metrics d)).

Definition between01 (v : option float64) : bool :=
  match v with Some x => fleb f0 x && fleb x f1 | None => true end.

(** The CHECK constraints of [provider_rankings]. *)
Definition ranking_check (r : RankingRow) : bool :=
  (0 <=? rr_SampleCount r) && (rr_PeriodStart r <? rr_PeriodEnd r)
  && Bool.eqb (bool_decide (rr_CompositeScore r = None)) (bool_decide (rr_Status r = StatusUnranked))
  && between01 (rr_CompositeScore r) && between01 (rr_Coverage r) && between01 (rr_Reliability r).

Definition pg_InsertRankings (rows : list RankingRow) (d : RankTables) : option (RankTables * unit) :=
  if forallb ranking_check rows then Some (with_rankings d (rt_rankings d ++ fresh_rows rows), tt) else None.

Definition ranking_key (r : RankingRow) : uuid * uuid * Z * string * Time * Time :=
  (rr_ProviderID r, rr_LocationID r, rr_HorizonMinutes r, rr_HorizonProfile r, rr_PeriodStart r, rr_PeriodEnd r).

Definition pg_SupersedePreviousRankings (r : RankingRow) (d : RankTables) : RankTables * unit :=
  (with_rankings d (supersede_row ranking_key rr_ID r <$> rt_rankings d), tt).

(** ** rank.go: RankService *)

(** [json.Marshal] rejects NaN and infinities. *)
Definition marshals (s : ComponentScore) : bool :=
  let fin v := match v with Some x => is_finite x | None => true end in
  fin (cs_Value s) && fin (cs_Normalized s) && is_finite (cs_Weight s).

Section Service.
Context `{Env}.

Definition toRow (r : ProviderRanking) (cell : LocationHorizon) (period : Period) : M RankTables RankingRow :=
  if forallb marshals (ComponentScores r) then
    id <-- fresh ;;
    ret (MkRankingRow id (pr_ProviderID r) (lh_LocationID cell) (lh_HorizonMinutes cell)
           (CompositeScore r) (CILower r) (CIUpper r) (pr_Status r) (SampleCount r) (Coverage r) (Reliability r)
           (ComponentScores r) MethodologyVersion WeightsVersion ProfileUniform (Start period) (End_ period))
  else throw "json: unsupported value".

(** One cell: read, rank, publish. *)
Definition rankCell (cell : LocationHorizon) (period : Period) (days : Z) : M RankTables Z :=
  vals <-- query "read cohort metrics"
    (pg_ReadCohortMetrics (lh_LocationID cell) (lh_HorizonMinutes cell) (Start period) (End_ period)) ;;
  rows <-- mapM (fun r => toRow r cell period) (RankCohort (buildCohort vals days)) ;;
  publish ranking_key rr_ID rt_rankings with_rankings pg_InsertRankings
    "insert rankings" "supersede previous ranking" rows ;;;
  ret (Z.of_nat (length rows)).

Fixpoint rankCells (cells : list LocationHorizon) (period : Period) (days total : Z) : M RankTables (Z * option string) :=
  match cells with
  | [] => ret (total, None)
  | cell :: cells =>
      r <-- attempt (rankCell cell period days) ;;
      match r with
      | Error e => ret (total, Some e)
      | Ok n => rankCells cells period days (total + n)
      end
  end.

Definition period_days (period : Period) : Z :=
  int_of (Hours (Sub (End_ period) (Start period)) / f64_of_Z 24)%f64.

Definition RankPeriod (period : Period) : M RankTables (Z * option string) :=
  r <-- attempt (query "list ranking cells" (pg_ListRankingCells (Start period) (End_ period))) ;;
  match r with
  | Error e => ret (0, Some e)
  | Ok cells => rankCells cells period (period_days period) 0
  end.

Definition monthPeriod (now : Time) : Period :=
  let start := Date (Year now) (Month now) 1 in MkPeriod PeriodMonthly start (AddDate start 0 1 0).

Definition RankBatch (now : Time) : M RankTables (Z * option string) := RankPeriod (monthPeriod now).
End Service.

End RankService.
