(* ===== verification/RankProps.v ===== *)
(** * Correctness of the ranking service

    The cohort built from well-formed metrics is a well-formed input of the ranking
    engine, its rows can be serialised and pass the table's CHECKs, and publication
    keeps one live ranking per provider, cell and period. *)

From Stdlib Require Import ZArith Lia Bool String.
From Stdlib Require Import SpecFloat.
From stdpp Require Import base list strings gmap.
From S2P Require Import Prelude Float64 Float64Round GoTime Uuid Effects Versioned Records Eval EvalProps.
From S2P Require Import Matching Ranking Aggregate AggregateProps RankService.

Import Eval EvalProps Matching Ranking Aggregate AggregateProps RankService.
Local Open Scope string_scope.
Local Open Scope Z_scope.

Module RankProps.

(** ** Well-formed metrics *)

Definition error_value (v : float64) : Prop := valid v = true /\ is_finite v = true /\ nonneg v.

(** What each metric type stores, as aggregation computes it. *)
Definition metric_kind_ok (variable metricType : string) (v : float64) : Prop :=
  if String.eqb metricType MetricMAE || String.eqb metricType MetricRMSE
     || String.eqb metricType MetricRainMAEAll || String.eqb metricType MetricRainMAEWet then error_value v
  else if String.eqb metricType MetricBias then valid v = true /\ is_finite v = true
  else unit_interval v.

Definition mv_ok (m : MetricValue) : Prop :=
  0 <= mv_SampleCount m /\ forall v, mv_Value m = Some v -> metric_kind_ok (mv_Variable m) (mv_MetricType m) v.

(** ** The cohort *)

Definition vals_ok (vs : gmap string float64) : Prop :=
  forall c v, c ∈ Components -> vs !! Key c = Some v -> value_ok c v.

Lemma vals_ok_empty : vals_ok ∅.
Proof. intros c v _. now rewrite lookup_empty. Qed.

Lemma vals_ok_insert vs k x :
  vals_ok vs -> (forall c, c ∈ Components -> Key c = k -> value_ok c x) -> vals_ok (<[k := x]> vs).
Proof.
  intros Hv Hx c v Hc. destruct (decide (k = Key c)) as [->|N].
  - rewrite lookup_insert_eq. intros [= <-]. now apply Hx.
  - rewrite lookup_insert_ne by assumption. now apply Hv.
Qed.

Lemma vals_ok_set vs k o :
  vals_ok vs -> (forall x, o = Some x -> forall c, c ∈ Components -> Key c = k -> value_ok c x) -> vals_ok (set_opt k o vs).
Proof.
  intros Hv Hx. destruct o as [x|]; cbn; [apply vals_ok_insert; auto|].
  intros c v Hc. rewrite lookup_delete_Some. intros [_ E]. now apply Hv.
Qed.

(** The component of a key. *)
Ltac by_component :=
  let Hc := fresh "Hc" in let Hk := fresh "Hk" in
  intros ? Hc Hk; unfold Components in Hc;
  repeat (apply elem_of_cons in Hc as [->|Hc]; [cbn in Hk; try discriminate Hk|]);
  try (now apply not_elem_of_nil in Hc).

Record acc_ok (a : acc) : Prop := {
  ao_values : vals_ok (values a);
  ao_cov : Forall unit_interval (coverages a);
  ao_temp : 0 <= tempSample a;
  ao_precip : 0 <= precipSample a;
}.

Lemma acc_zero_ok : acc_ok acc_zero.
Proof. constructor; cbn; [apply vals_ok_empty|constructor|lia|lia]. Qed.

Lemma is_metric_true m v t : is_metric m v t = true -> mv_Variable m = v /\ mv_MetricType m = t.
Proof. unfold is_metric. rewrite andb_true_iff, !String.eqb_eq. tauto. Qed.

Lemma acc_step_ok a m : mv_ok m -> acc_ok a -> acc_ok (acc_step a m).
Proof.
  intros [Hs Hv] []. unfold acc_step.
  destruct (is_metric m VarTemperature MetricMAE) eqn:E1.
  { apply is_metric_true in E1 as [_ Et]. rewrite Et in Hv. constructor; cbn; auto.
    apply vals_ok_set; auto. intros x Ex. specialize (Hv x Ex). by_component; exact Hv. }
  destruct (is_metric m VarTemperature MetricBias) eqn:E2.
  { apply is_metric_true in E2 as [_ Et]. rewrite Et in Hv. constructor; cbn; auto.
    destruct (mv_Value m) as [x|]; [|assumption]. specialize (Hv x eq_refl) as [V F]. apply vals_ok_insert; auto.
    by_component. cbn. repeat split; [now rewrite fabs_valid|now destruct x|apply fabs_nonneg; now destruct x]. }
  destruct (is_metric m VarPrecipitation MetricF1) eqn:E3.
  { apply is_metric_true in E3 as [_ Et]. rewrite Et in Hv. constructor; cbn; auto.
    apply vals_ok_set; auto. intros x Ex. specialize (Hv x Ex). by_component; exact Hv. }
  destruct (is_metric m VarPrecipitation MetricRainMAEAll) eqn:E4.
  { apply is_metric_true in E4 as [_ Et]. rewrite Et in Hv. constructor; cbn; auto.
    apply vals_ok_set; auto. intros x Ex. specialize (Hv x Ex). by_component; exact Hv. }
  destruct (is_metric m VarWindSpeed MetricMAE) eqn:E5.
  { apply is_metric_true in E5 as [_ Et]. rewrite Et in Hv. constructor; cbn; auto.
    apply vals_ok_set; auto. intros x Ex. specialize (Hv x Ex). by_component; exact Hv. }
  destruct (String.eqb (mv_MetricType m) MetricCoverage) eqn:E6.
  { apply String.eqb_eq in E6. rewrite E6 in Hv. constructor; cbn; auto.
    destruct (mv_Value m) as [x|]; [|assumption]. apply Forall_app. split; [assumption|]. apply Forall_singleton. now apply Hv. }
  destruct (is_metric m VarAll MetricReliability) eqn:E7; [|now constructor].
  apply is_metric_true in E7 as [_ Et]. rewrite Et in Hv. constructor; cbn; auto.
  apply vals_ok_set; auto. intros x Ex. specialize (Hv x Ex). by_component; exact Hv.
Qed.

Record provs_inv (p : Provs) : Prop := {
  pv_acc : map_Forall (fun _ a => acc_ok a) (provs p);
  pv_order : NoDup (order p);
  pv_dom : forall id, id ∈ order p <-> is_Some (provs p !! id);
}.

Lemma provs_step_inv p m : mv_ok m -> provs_inv p -> provs_inv (provs_step p m).
Proof.
  intros Hm [A N D]. unfold provs_step. destruct (provs p !! mv_ProviderID m) as [a|] eqn:E; constructor; cbn.
  - apply map_Forall_insert_2; [|assumption]. apply acc_step_ok; [assumption|]. exact (A _ _ E).
  - assumption.
  - intros id. rewrite D. destruct (decide (mv_ProviderID m = id)) as [<-|Ne].
    + rewrite lookup_insert_eq, E. split; eauto.
    + now rewrite lookup_insert_ne.
  - apply map_Forall_insert_2; [|assumption]. apply acc_step_ok; [assumption|apply acc_zero_ok].
  - apply NoDup_app. split; [assumption|]. split; [|apply NoDup_singleton].
    intros x Hx Hs. apply list_elem_of_singleton in Hs as ->. apply D in Hx. rewrite E in Hx. now destruct Hx.
  - intros id. rewrite elem_of_app, list_elem_of_singleton, D. destruct (decide (mv_ProviderID m = id)) as [<-|Ne].
    + rewrite lookup_insert_eq. split; [eauto|auto].
    + rewrite lookup_insert_ne by assumption. split; [intros [?|?]; congruence || assumption|auto].
Qed.

Lemma provs_fold_inv vals : Forall mv_ok vals -> provs_inv (foldl provs_step (MkProvs ∅ []) vals).
Proof.
  induction vals as [|m vals IH] using rev_ind; intros F.
  - constructor; cbn; [apply map_Forall_empty|constructor|]. intros id. rewrite lookup_empty.
    split; [intros Hn; now apply not_elem_of_nil in Hn|now intros []].
  - apply Forall_app in F as [F Fm]. apply Forall_inv in Fm. rewrite foldl_app. cbn. apply provs_step_inv; auto.
Qed.

(** What the service needs beyond the engine's inputs. *)
Record cohort_ok (p : ProviderInput) : Prop := {
  co_input : input_ok p;
  co_temp : 0 <= TempSampleCount p;
  co_precip : 0 <= PrecipSampleCount p;
  co_rel : match pi_Reliability p with Some v => unit_interval v | None => True end;
}.

Lemma provider_input_ok days id a : acc_ok a -> cohort_ok (provider_input days id a).
Proof.
  intros []. unfold provider_input.
  set (cov := match coverages a with [] => None | c :: cs => Some (minOf c cs) end).
  assert (Hcov : match cov with Some v => unit_interval v | None => True end).
  { unfold cov. destruct (coverages a) as [|c cs]; [exact I|].
    assert (NN : Forall (fun x => is_nan x = false) (c :: cs)).
    { eapply Forall_impl; [exact ao_cov0|]. intros x (_ & N & _). now apply nonneg_not_nan. }
    apply Forall_cons in NN as [N1 N2]. destruct (minOf_spec c cs N1 N2) as [Hin _].
    rewrite Forall_forall in ao_cov0. now apply ao_cov0. }
  assert (Hvs : vals_ok (set_opt "coverage" cov (values a))).
  { apply vals_ok_set; auto. intros x Ex. rewrite Ex in Hcov. by_component; exact Hcov. }
  constructor; cbn; auto; [constructor; cbn; auto|].
  destruct (set_opt "coverage" cov (values a) !! "reliability") as [v|] eqn:E; [|exact I].
  apply (Hvs (MkComponent "reliability" (f64_lit 5 100) directValue)); [|exact E].
  unfold Components. rewrite !elem_of_cons. tauto.
Qed.

Lemma buildCohort_ok vals days :
  Forall mv_ok vals -> Forall cohort_ok (buildCohort vals days) /\ NoDup (pi_ProviderID <$> buildCohort vals days).
Proof.
  intros F. destruct (provs_fold_inv vals F) as [A N D]. unfold buildCohort.
  set (p := foldl provs_step (MkProvs ∅ []) vals) in *. split.
  - apply Forall_forall. intros i Hi. apply list_elem_of_omap in Hi as (id & _ & E).
    destruct (provs p !! id) as [a|] eqn:Ea; [|discriminate]. injection E as <-. apply provider_input_ok. exact (A _ _ Ea).
  - assert (G : forall l : list uuid, (forall id, id ∈ l -> is_Some (provs p !! id)) ->
      pi_ProviderID <$> (omap (fun id => provider_input days id <$> provs p !! id) l : list ProviderInput) = l).
    { induction l as [|id l IH]; intros Hl; [reflexivity|]. cbn. destruct (Hl id ltac:(left)) as [a ->]. cbn. f_equal.
      apply IH. intros; apply Hl; now right. }
    rewrite G; [assumption|]. intros id Hid. now apply D.
Qed.

(** ** Rows *)

Lemma value_ok_finite c v : value_ok c v -> is_finite v = true.
Proof. unfold value_ok. destruct (Direction c); [tauto|apply unit_interval_finite..]. Qed.

Lemma marshals_intro s :
  (forall v, cs_Value s = Some v -> is_finite v = true) -> (forall n, cs_Normalized s = Some n -> is_finite n = true) ->
  is_finite (cs_Weight s) = true -> marshals s = true.
Proof.
  intros A B C. unfold marshals. rewrite C. destruct (cs_Value s) as [v|], (cs_Normalized s) as [n|];
    rewrite ?(A _ eq_refl), ?(B _ eq_refl); reflexivity.
Qed.

(** Every breakdown can be serialised. *)
Lemma scores_marshal cohort p :
  Forall input_ok cohort -> p ∈ cohort -> forallb marshals (scores (component_scores cohort p)) = true.
Proof.
  intros OK Hp. unfold component_scores.
  assert (Hin : input_ok p) by (rewrite Forall_forall in OK; now apply OK).
  assert (G : forall cs a, (forall c, c ∈ cs -> c ∈ Components) -> forallb marshals (scores a) = true ->
    forallb marshals (scores (foldl (component_step cohort p) a cs)) = true).
  { induction cs as [|c cs IH]; intros a Hcs Ha; [exact Ha|]. cbn [foldl]. apply IH; [intros; apply Hcs; now right|].
    assert (Hc : c ∈ Components) by (apply Hcs; left).
    assert (Fv : forall v, Values p !! Key c = Some v -> is_finite v = true)
      by (intros v Ev; eapply value_ok_finite, (io_values p Hin); eauto).
    assert (Fw : is_finite (Weight c) = true)
      by (unfold Components in Hc; repeat (apply elem_of_cons in Hc as [->|Hc]; [reflexivity|]); now apply not_elem_of_nil in Hc).
    unfold component_step. destruct (active cohort c) eqn:Ea; cbn [negb].
    - pose proof (weight_unit cohort c Hc Ea) as W. destruct (active_value cohort c p Ea Hp) as [v Ev].
      pose proof (normalize_unit cohort OK c p v Ea Hc Hp Ev) as U. rewrite Ev. cbn [default].
      destruct (best_shift cohort c) as [b sh]. cbn [scores]. rewrite forallb_app, Ha. cbn [forallb andb].
      rewrite marshals_intro; [reflexivity|cbn; intros ? [= <-]; now apply Fv| |now apply unit_interval_finite].
      cbn [cs_Normalized]. intros ? [= <-]. now apply unit_interval_finite.
    - cbn [scores]. rewrite forallb_app, Ha. cbn [forallb andb]. rewrite marshals_intro; auto. discriminate. }
  apply G; auto.
Qed.

Lemma rankProvider_fields cohort p :
  ComponentScores (rankProvider cohort p) = scores (component_scores cohort p) /\
  SampleCount (rankProvider cohort p) = minInt (TempSampleCount p) (PrecipSampleCount p) /\
  Coverage (rankProvider cohort p) = pi_Coverage p /\ Reliability (rankProvider cohort p) = pi_Reliability p /\
  pr_ProviderID (rankProvider cohort p) = pi_ProviderID p.
Proof.
  unfold rankProvider. destruct (status p); [| |auto];
    repeat match goal with |- context [let '(_, _) := ?t in _] => destruct t end; auto.
Qed.

Definition row_of (id : uuid) (r : ProviderRanking) (cell : LocationHorizon) (period : Period) : RankingRow :=
  MkRankingRow id (pr_ProviderID r) (lh_LocationID cell) (lh_HorizonMinutes cell)
    (CompositeScore r) (CILower r) (CIUpper r) (pr_Status r) (SampleCount r) (Coverage r) (Reliability r)
    (ComponentScores r) MethodologyVersion WeightsVersion ProfileUniform (Start period) (End_ period).

Lemma unit_between v : match v with Some x => unit_interval x | None => True end -> between01 v = true.
Proof. destruct v as [x|]; [|reflexivity]. intros (_ & A & B). unfold nonneg in A. unfold between01. now rewrite A, B. Qed.

Lemma row_checks cohort p id cell period :
  Start period < End_ period -> Forall cohort_ok cohort -> p ∈ cohort ->
  ranking_check (row_of id (rankProvider cohort p) cell period) = true.
Proof.
  intros P OK Hp. assert (OKi : Forall input_ok cohort) by (eapply Forall_impl; [exact OK|]; now intros ? []).
  pose proof (rankProvider_ok cohort p OKi Hp) as [Hn Hu _ _].
  destruct (rankProvider_fields cohort p) as (_ & Es & Ec & Er & _).
  pose proof (proj1 (Forall_forall _ _) OK p Hp) as [[_ Hcov] Ht Hpr Hrel].
  unfold ranking_check, row_of. cbn [rr_SampleCount rr_PeriodStart rr_PeriodEnd rr_CompositeScore rr_Status rr_Coverage rr_Reliability].
  rewrite Es, Ec, Er, (unit_between _ Hcov), (unit_between _ Hrel), !andb_true_r, !andb_true_iff, Z.leb_le, Z.ltb_lt.
  repeat split; auto.
  - unfold minInt. destruct (_ <? _); assumption.
  - apply Bool.eqb_true_iff. now apply bool_decide_ext.
  - destruct (CompositeScore _) as [c|]; [|reflexivity]. destruct (Hu c eq_refl) as [A B]. unfold between01. now rewrite A, B.
Qed.

(** ** The service *)

Section Service.
Context `{FreshIds}.

Abbreviation winv := (Versioned.winv ranking_key rr_ID rt_rankings).

Definition metrics_ok (d : RankTables) : Prop := Forall (fun m => mv_ok (metric_value m)) (live (rt_metrics d)).

Lemma read_ok d loc hor from to : metrics_ok d -> Forall mv_ok (pg_ReadCohortMetrics loc hor from to d).
Proof.
  unfold metrics_ok, pg_ReadCohortMetrics. rewrite !Forall_forall. intros Hm v (m & -> & Hv)%list_elem_of_fmap.
  apply list_elem_of_In, filter_In in Hv as [Hv _]. apply Hm. now apply list_elem_of_In.
Qed.

Lemma pg_ranking_insert_spec rows d d' u :
  pg_InsertRankings rows d = Some (d', u) -> d' = with_rankings d (rt_rankings d ++ fresh_rows rows).
Proof. unfold pg_InsertRankings. destruct (forallb _ _); [|discriminate]. now intros [= <-]. Qed.

(** The rows of a cohort that serialises, with ids from the supply. *)
Lemma mapM_toRow cell period (rs : list ProviderRanking) w :
  let '(w', r) := mapM (fun r => toRow r cell period) rs w in
  db w' = db w /\ (nids w <= nids w')%nat /\
  (Forall (fun r => forallb marshals (ComponentScores r) = true) rs -> exists rows, r = Ok rows) /\
  (forall rows, r = Ok rows ->
     Forall2 (fun r row => exists i, (nids w <= i < nids w')%nat /\ row = row_of (newID i) r cell period) rs rows).
Proof.
  revert w. induction rs as [|r rs IH]; intros w.
  { cbn. repeat split; auto; [eauto|]. intros rows [= <-]. constructor. }
  assert (E : mapM (fun r => toRow r cell period) (r :: rs) w =
    match toRow r cell period w with
    | (w1, Ok row) => match mapM (fun r => toRow r cell period) rs w1 with
                      | (w', Ok rows) => (w', Ok (row :: rows)) | (w', Error e) => (w', Error e) end
    | (w1, Error e) => (w1, Error e)
    end) by reflexivity.
  rewrite E. unfold toRow at 1. destruct (forallb marshals (ComponentScores r)) eqn:Em.
  - unfold bind, fresh, ret. specialize (IH (MkWorld (db w) (tick w) (S (nids w)))).
    destruct (mapM _ rs _) as [w' [rows|e]]; destruct IH as (Ed & En & Ho & Hr); cbn [db nids] in *.
    + repeat split; [assumption|lia|eauto|]. intros ? [= <-]. constructor; [exists (nids w); split; [lia|reflexivity]|].
      eapply Forall2_impl; [now apply Hr|]. cbn. intros a b (i & Hi & Eb). exists i. split; [lia|assumption].
    + repeat split; [assumption|lia| |discriminate]. intros F. apply Forall_cons in F as [_ F].
      destruct (Ho F) as [rows C]. discriminate.
  - cbn. repeat split; [lia| |discriminate]. intros F. apply Forall_cons in F as [F _]. congruence.
Qed.

Lemma rows_keys cell period (cohort : list ProviderInput) rows :
  NoDup (pi_ProviderID <$> cohort) ->
  Forall2 (fun r row => exists i, row = row_of i r cell period) (RankCohort cohort) rows ->
  NoDup (ranking_key <$> rows).
Proof.
  intros N F. unfold RankCohort in F. apply Forall2_fmap_l in F.
  assert (E : ranking_key <$> rows = (fun id => (id, lh_LocationID cell, lh_HorizonMinutes cell, ProfileUniform,
    Start period, End_ period)) <$> (pi_ProviderID <$> cohort)).
  { clear N. assert (F' : Forall2 (fun p row => rr_ProviderID row = pi_ProviderID p /\ ranking_key row =
      (rr_ProviderID row, lh_LocationID cell, lh_HorizonMinutes cell, ProfileUniform, Start period, End_ period)) cohort rows).
    { eapply Forall2_impl; [exact F|]. cbn. intros p row (i & ->).
      destruct (rankProvider_fields cohort p) as (_ & _ & _ & _ & Ep). split; [exact Ep|reflexivity]. }
    clear F. induction F' as [|p row ps rows' [E1 E2] F' IH]; [reflexivity|]. cbn. now rewrite E2, E1, IH. }
  rewrite E. apply NoDup_fmap_2; [|assumption]. intros a b. congruence.
Qed.

Lemma rankCell_keeps cell period days w :
  winv w -> metrics_ok (db w) ->
  let w' := (rankCell cell period days w).1 in
  winv w' /\ metrics_ok (db w') /\ history (rt_rankings (db w)) (rt_rankings (db w')).
Proof.
  intros W Mo. pose (G := fun w' => winv w' /\ metrics_ok (db w') /\ history (rt_rankings (db w)) (rt_rankings (db w'))).
  cbv zeta. match goal with |- winv ?r /\ _ => change (G r) end.
  assert (Hs : forall w', db w' = db w -> (nids w <= nids w')%nat -> G w').
  { intros w' Ed En. split; [eapply winv_same; eauto; now rewrite Ed|]. rewrite Ed. split; [assumption|reflexivity]. }
  unfold rankCell. unfold bind at 1. unfold query, dbcall. destruct (fault (tick w)); [now apply Hs|]. cbn beta iota.
  set (vals := pg_ReadCohortMetrics _ _ _ _ _). set (w1 := MkWorld (db w) (S (tick w)) (nids w)).
  destruct (buildCohort_ok vals days (read_ok _ _ _ _ _ Mo)) as [CO ND]. unfold bind at 1.
  pose proof (mapM_toRow cell period (RankCohort (buildCohort vals days)) w1) as Mt.
  destruct (mapM _ _ w1) as [w2 [rows|e]]; destruct Mt as (Ed & En & _ & Hr); [|now apply Hs].
  specialize (Hr rows eq_refl).
  assert (K : let w' := (publish ranking_key rr_ID rt_rankings with_rankings pg_InsertRankings
                 "insert rankings" "supersede previous ranking" rows w2).1 in
              winv w' /\ history (rt_rankings (db w2)) (rt_rankings (db w'))).
  { apply (publish_keeps ranking_key rr_ID rt_rankings with_rankings (fun d ms => eq_refl) pg_InsertRankings
             pg_ranking_insert_spec) with (n := nids w).
    - eapply winv_same; eauto. cbn. now rewrite Ed.
    - exact En.
    - eapply rows_keys; [exact ND|]. eapply Forall2_impl; [exact Hr|]. cbn. intros a b (i & _ & Eb). eauto.
    - intros m Hm. apply list_elem_of_lookup in Hm as [j Hj]. destruct (Forall2_lookup_r _ _ _ _ _ Hr Hj) as (r & _ & i & Hi & ->).
      exists i. cbn in *. auto. }
  assert (Km : metrics_ok (db (publish ranking_key rr_ID rt_rankings with_rankings pg_InsertRankings
                 "insert rankings" "supersede previous ranking" rows w2).1)).
  { apply (preserves_publish ranking_key rr_ID rt_rankings with_rankings pg_InsertRankings pg_ranking_insert_spec metrics_ok);
      [auto|]. now rewrite Ed. }
  unfold bind. destruct (publish _ _ _ _ _ _ _ rows w2) as [w3 [u|e]]; cbn [fst] in *; rewrite Ed in K; cbn [db w1] in K;
    unfold G; tauto.
Qed.

Lemma rankCells_keeps cells period days total w :
  winv w -> metrics_ok (db w) ->
  let w' := (rankCells cells period days total w).1 in
  winv w' /\ history (rt_rankings (db w)) (rt_rankings (db w')).
Proof.
  revert total w. induction cells as [|c cells IH]; intros total w W Mo; [split; [assumption|reflexivity]|].
  cbn [rankCells]. unfold bind, attempt. destruct (rankCell_keeps c period days w W Mo) as (W1 & M1 & H1).
  destruct (rankCell c period days w) as [w1 [n|e]]; cbn [fst] in *; [|split; assumption].
  destruct (IH (total + n) w1 W1 M1) as [W2 H2]. split; [assumption|]. etransitivity; eauto.
Qed.

(** *** Without faults nothing of a ranking fails *)

Lemma rankCell_succeeds `{!Healthy} cell period days w :
  Start period < End_ period -> metrics_ok (db w) ->
  exists w' n, rankCell cell period days w = (w', Ok n) /\ rt_metrics (db w') = rt_metrics (db w).
Proof.
  intros P Mo. unfold rankCell. unfold bind at 1. rewrite query_healthy. set (w1 := MkWorld _ _ _).
  set (vals := pg_ReadCohortMetrics _ _ _ _ _).
  destruct (buildCohort_ok vals days (read_ok _ _ _ _ _ Mo)) as [CO ND].
  set (cohort := buildCohort vals days) in *.
  assert (OKi : Forall input_ok cohort) by (eapply Forall_impl; [exact CO|]; now intros ? []).
  pose proof (mapM_toRow cell period (RankCohort cohort) w1) as Mt. unfold bind at 1.
  destruct (mapM _ _ w1) as [w2 r]; destruct Mt as (Ed & En & Ho & Hr).
  destruct Ho as [rows ->].
  { apply Forall_forall. intros x (p & -> & Hp)%list_elem_of_fmap.
    rewrite (proj1 (rankProvider_fields cohort p)). now apply scores_marshal. }
  specialize (Hr rows eq_refl). unfold bind.
  destruct (publish_healthy ranking_key rr_ID rt_rankings with_rankings pg_InsertRankings
    "insert rankings" "supersede previous ranking" rows w2) as [w3 E3].
  { intros d. unfold pg_InsertRankings. assert (forallb ranking_check rows = true) as ->; [|eauto].
    apply forallb_forall. intros x Hx. apply list_elem_of_In, list_elem_of_lookup in Hx as [j Hj].
    destruct (Forall2_lookup_r _ _ _ _ _ Hr Hj) as (y & Hy & i & _ & ->).
    apply list_elem_of_lookup_2, list_elem_of_fmap in Hy as (p & -> & Hp). now apply row_checks. }
  pose proof (preserves_publish ranking_key rr_ID rt_rankings with_rankings pg_InsertRankings pg_ranking_insert_spec
    (fun d => rt_metrics d = rt_metrics (db w))
    "insert rankings" "supersede previous ranking" rows (fun d ms Hd => Hd) w2 ltac:(now rewrite Ed)) as Km.
  rewrite E3 in Km |- *. eauto.
Qed.

Lemma rankCells_succeed `{!Healthy} cells period days total w :
  Start period < End_ period -> metrics_ok (db w) ->
  exists n, (rankCells cells period days total w).2 = Ok (n, None).
Proof.
  intros P. revert total w. induction cells as [|c cells IH]; intros total w Mo; [now exists total|].
  destruct (rankCell_succeeds c period days w P Mo) as (w1 & n & E & Em).
  cbn [rankCells]. unfold bind, attempt. rewrite E. apply IH. unfold metrics_ok. now rewrite Em.
Qed.
End Service.

(** ** From aggregation to ranking *)

Definition row_rankable (r : Row) : Prop := forall i, mv_ok (metric_value (r i)).

Lemma metric_rankable cell period var ty v lo hi n :
  (v <> None -> 0 <= n) -> (forall x, v = Some x -> metric_kind_ok var ty x) ->
  row_rankable (fun i => metric i cell period var ty v lo hi n).
Proof. intros Hn Hk i. unfold metric. destruct v as [x|]; split; cbn; auto; try lia; try (apply Hn; discriminate); discriminate. Qed.

Lemma continuous_rankable cell period var k c :
  cont_upto k c -> k <= 2 ^ 28 -> Forall row_rankable (continuousRows cell period var c).
Proof.
  intros (j & Hj & C) K. unfold continuousRows. destruct (MAECI c), (RMSECI c), (BiasCI c).
  assert (Nn : 0 <= Continuous_N c) by (unfold Continuous_N; rewrite (ci_n _ _ (cf_inv _ _ C)); lia).
  destruct (feqb (sumWeight c) f0) eqn:E.
  - destruct (cont_null c E) as (-> & -> & ->). rewrite !Forall_cons, Forall_nil; split_and!; trivial; apply metric_rankable; auto; discriminate.
  - destruct (cont_values j c C ltac:(lia) E) as (m & r & b & -> & -> & -> & ? & ? & ?).
    rewrite !Forall_cons, Forall_nil; split_and!; trivial; apply metric_rankable; auto; intros x [= <-]; assumption.
Qed.

Lemma mae_rankable cell period ty k c lo hi :
  ty = MetricRainMAEAll \/ ty = MetricRainMAEWet -> cont_upto k c -> k <= 2 ^ 28 ->
  row_rankable (fun i => metric i cell period VarPrecipitation ty (MAE c) lo hi (Continuous_N c)).
Proof.
  intros Ht (j & Hj & C) K. assert (Nn : 0 <= Continuous_N c) by (unfold Continuous_N; rewrite (ci_n _ _ (cf_inv _ _ C)); lia).
  apply metric_rankable; [auto|]. destruct (feqb (sumWeight c) f0) eqn:E.
  - destruct (cont_null c E) as (-> & _ & _). discriminate.
  - destruct (cont_values j c C ltac:(lia) E) as (m & r & b & -> & _ & _ & ? & _ & _). intros x [= <-].
    destruct Ht as [->| ->]; assumption.
Qed.

(** The metrics whose values are proportions. *)
Definition unit_metric (ty : string) : Prop := forall var x, metric_kind_ok var ty x <-> unit_interval x.

Lemma ratio_rankable cell period ty v denom n k :
  unit_metric ty -> 0 <= n -> amount k denom ->
  match v with None => feqb denom f0 = true | Some v => unit_interval v /\ fleb fhalf denom = true end ->
  row_rankable (fun i => ratioRow i cell period ty v denom n).
Proof.
  intros U Hn A Hv i. unfold ratioRow. destruct v as [v|]; [destruct (Wilson v denom)|]; apply metric_rankable; auto; try discriminate.
  intros x [= <-]. apply U. tauto.
Qed.

Lemma rateless_rankable cell period var ty num denom :
  unit_metric ty -> 0 <= num < 2 ^ 53 -> denom < 2 ^ 53 ->
  row_rankable (fun i => ratelessRow i cell period var ty num denom).
Proof.
  intros U Hn Hd i. unfold ratelessRow. destruct (Z.leb_spec denom 0); apply metric_rankable; auto; try discriminate; [lia|].
  intros x [= <-]. apply U. destruct (f64_of_Z_exact num ltac:(lia)) as [Fn _].
  assert (Nv : nonneg (f64_of_Z num / f64_of_Z denom)%f64)
    by (apply fdiv_nonneg; [assumption|apply f64_of_Z_nonneg; lia|now apply f64_of_Z_pos]).
  destruct (fltb f1 _) eqn:E; [repeat split|]. split; [apply fdiv_valid|]. split; [assumption|].
  apply fltb_false_fleb; [reflexivity|now apply nonneg_not_nan|assumption].
Qed.

Lemma computeRows_rankable cell period pairs counts scheduled success :
  Forall pair_plausible pairs -> Z.of_nat (length pairs) <= 2 ^ 28 ->
  (forall c, c ∈ [n_Temperature counts; n_WindSpeed counts; n_Humidity counts; n_Pressure counts; n_Precipitation counts; success] ->
     0 <= c < 2 ^ 53) -> scheduled < 2 ^ 53 ->
  Forall row_rankable (computeRows cell period pairs counts scheduled success).
Proof.
  intros F L Hc Hs. destruct (accumulators_inv pairs F L). unfold computeRows.
  set (a := accumulators pairs) in *. clearbody a. set (k := Z.of_nat (length pairs)) in *. clearbody k.
  destruct (MAECI (a_rainAll a)) as [rl rh], (MAECI (a_rainWet a)) as [wl wh], (ScoreCI (a_brier a)) as [bl bh].
  set (occ := a_occ a) in *. set (n := a_occN a) in *. assert (K : 0 <= n <= 2 ^ 50) by lia.
  pose proof av_occ0 as []. pose proof bounds_2_50 as B50.
  assert (S2 : forall x y, amount n x -> amount n y -> amount (2 * n) (x + y)%f64) by (intros; now apply sum2_amount).
  destruct (two_amount_le n K (TP occ) cf_tp0) as [_ A2].
  assert (A3 : amount (2 * n + n + n) (f2 * TP occ + FP occ + FN occ)%f64)
    by (apply amount_add; auto; try lia; apply amount_add; auto; lia).
  assert (U : forall ty, In ty [MetricRecall; MetricPrecision; MetricF1; MetricFAR; MetricThreatScore;
    MetricOccurrenceAgreement; MetricBrier; MetricCoverage; MetricReliability] -> unit_metric ty).
  { intros ty Hty var x. cbn in Hty. decompose [or] Hty; subst; try reflexivity. contradiction. }
  rewrite !Forall_app. repeat (split; [now apply (continuous_rankable cell period _ k)|]).
  rewrite !Forall_cons.
  split; [now apply (mae_rankable cell period _ k); auto|]. split; [now apply (mae_rankable cell period _ k); auto|].
  split; [eapply ratio_rankable; eauto; [apply U; cbn; tauto|lia|now apply (proportion2 n)]|].
  split; [eapply ratio_rankable; eauto; [apply U; cbn; tauto|lia|now apply (proportion2 n)]|].
  split; [eapply ratio_rankable; eauto; [apply U; cbn; tauto|lia|now apply (f1_unit n)]|].
  split; [eapply ratio_rankable; eauto; [apply U; cbn; tauto|lia|now apply (proportion2 n)]|].
  split; [eapply (ratio_rankable _ _ _ _ _ _ (3 * n)); [apply U; cbn; tauto|lia|now apply sum3_amount|now apply (threat_score_unit n)]|].
  split; [eapply (ratio_rankable _ _ _ _ _ _ (4 * n)); [apply U; cbn; tauto|lia|now apply confusion_n_amount|now apply (agreement_unit n)]|].
  split.
  { destruct av_brier0 as (j & Hj & B). pose proof (brier_score_unit j _ B) as Us. apply metric_rankable; [lia|].
    intros x Ex. rewrite Ex in Us. apply U; [cbn; tauto|exact Us]. }
  repeat (split; [apply rateless_rankable; auto; [apply U; cbn; tauto|apply Hc; rewrite !elem_of_cons; tauto]|]).
  constructor.
Qed.

(** ** Theorems *)

(** Note: the metrics aggregation writes are the metrics ranking expects: errors
    are finite and not negative, biases finite, every proportion, score and rate
    lies in [0,1]. *)
Theorem aggregation_feeds_ranking cell period pairs counts scheduled success i :
  Forall pair_plausible pairs -> Z.of_nat (length pairs) <= 2 ^ 28 ->
  (forall c, c ∈ [n_Temperature counts; n_WindSpeed counts; n_Humidity counts; n_Pressure counts; n_Precipitation counts; success] ->
     0 <= c < 2 ^ 53) -> scheduled < 2 ^ 53 ->
  Forall (fun r : Row => mv_ok (metric_value (r i))) (computeRows cell period pairs counts scheduled success).
Proof.
  intros F L Hc Hs. eapply Forall_impl; [now apply computeRows_rankable|]. intros r Hr. apply Hr.
Qed.

Lemma aggregation_feeds_ranking_witness :
  Forall (fun r : Row => mv_ok (metric_value (r 0%N)))
    (computeRows demo_cell demo_period [] (MkCounts 3 3 3 3 3) 4 4).
Proof.
  apply aggregation_feeds_ranking; [constructor|cbn; lia| |lia].
  cbn. intros c. rewrite !elem_of_cons, elem_of_nil. lia.
Defined.

(** C7: a ranking batch keeps one live row per provider, cell, profile and period
    and never rewrites history, whatever faults occur. *)
Theorem rank_batch_one_live `{FreshIds} now w :
  metrics_ok (db w) -> one_live ranking_key (rt_rankings (db w)) ->
  (forall r i, r ∈ rt_rankings (db w) -> (nids w <= i)%nat -> rr_ID r.1 <> newID i) ->
  let w' := (RankBatch now w).1 in
  one_live ranking_key (rt_rankings (db w')) /\ history (rt_rankings (db w)) (rt_rankings (db w')).
Proof.
  intros Mo O I w'. unfold w', RankBatch, RankPeriod, bind, attempt, query, dbcall.
  destruct (fault (tick w)); [split; [assumption|reflexivity]|]. cbn beta iota.
  match goal with |- context [rankCells ?c ?p ?d ?t ?v] => destruct (rankCells_keeps c p d t v) as [[O' _] Hh] end;
    [constructor; assumption|assumption|]. split; assumption.
Qed.

(** Note: without database faults, ranking the current month from well-formed
    metrics succeeds: no score is NaN or infinite (the breakdown serialises) and no
    row breaks a constraint of the table. *)
Theorem rank_batch_succeeds `{FreshIds} `{!Healthy} now w :
  metrics_ok (db w) -> exists n, (RankBatch now w).2 = Ok (n, None).
Proof.
  intros Mo. unfold RankBatch, RankPeriod. unfold bind at 1. unfold attempt at 1. rewrite query_healthy.
  apply rankCells_succeed; [|exact Mo]. unfold monthPeriod. cbn [Start End_].
  rewrite AddDate_next_month by apply Month_bounds.
  pose proof (month_length (Year now) (Month now) (Month_bounds now)). unfold Day, Hour, Minute, Second in *. lia.
Qed.

(** Note: the calendar-day rule of the status thresholds cannot bind in the batch:
    the day count it receives is the length of the calendar month, 28 to 31. *)
Theorem batch_calendar_days now : 28 <= period_days (monthPeriod now) <= 31.
Proof.
  unfold period_days, monthPeriod. cbn [Start End_]. rewrite AddDate_next_month by apply Month_bounds.
  pose proof (Month_bounds now) as Hm. pose proof (month_length (Year now) (Month now) Hm) as L.
  assert (E : exists k, Date (Year now) (Month now + 1) 1 - Date (Year now) (Month now) 1 = k * Day)
    by (eexists; unfold Date; rewrite <- Z.mul_sub_distr_r; reflexivity).
  destruct E as [k E]. rewrite E in L. assert (k = 28 \/ k = 29 \/ k = 30 \/ k = 31) as K
    by (unfold Day, Hour, Minute, Second in L; lia).
  rewrite Sub_exact by (rewrite E; unfold minInt64, maxInt64, Day, Hour, Minute, Second; lia). rewrite E.
  decompose [or] K; subst k; vm_compute; split; discriminate.
Qed.

(** *** A concrete publication *)

Definition demo_metric (i p : uuid) (v t : string) (x : float64) (n : Z) : StoredMetric :=
  (MkMetric i p 9 1440 v t (Some x) None None n MethodologyVersion 0 (31 * Day), None).

Definition demo_rank_tables : RankTables :=
  MkRankTables
    [demo_metric 1 7 VarTemperature MetricMAE (f64_lit 15 10) 40; demo_metric 2 7 VarPrecipitation MetricF1 (f64_lit 1 2) 40;
     demo_metric 3 7 VarTemperature MetricCoverage (f64_lit 9 10) 100; demo_metric 4 8 VarTemperature MetricMAE f1 12;
     demo_metric 5 8 VarPrecipitation MetricF1 f0 12; demo_metric 6 8 VarTemperature MetricCoverage (f64_lit 6 10) 100] [].

Lemma demo_metrics_ok : metrics_ok demo_rank_tables.
Proof.
  unfold metrics_ok, demo_rank_tables. cbn [rt_metrics live omap list_omap demo_metric snd fst].
  repeat (apply Forall_cons; split; [split; [cbn; lia|intros v [= <-]; vm_compute; repeat split]|]). constructor.
Qed.

Lemma rank_batch_one_live_witness :
  let w' := (RankBatch (5 * Day) (MkWorld demo_rank_tables 0 0)).1 in
  one_live ranking_key (rt_rankings (db w')) /\
  (fun r : RankingRow => rr_Status r) <$> live (rt_rankings (db w')) = [StatusRanked; StatusProvisionally].
Proof.
  split; [|vm_compute; reflexivity].
  apply (rank_batch_one_live (5 * Day) (MkWorld demo_rank_tables 0 0)); [exact demo_metrics_ok|constructor|].
  intros r i Hr. now apply not_elem_of_nil in Hr.
Defined.

Lemma rank_batch_succeeds_witness : exists n, (RankBatch (5 * Day) (MkWorld demo_rank_tables 0 0)).2 = Ok (n, None).
Proof. apply rank_batch_succeeds. exact demo_metrics_ok. Defined.

End RankProps.
