(* ===== verification/Circuit.v ===== *)
(** * The circuit breaker ([internal/catalog/domain/circuit.go])

    One breaker per provider, persistent in [provider_circuits].  The domain
    operations are [Evaluate], [ApplySuccess] and [ApplyFailure]; [CircuitService]
    ([internal/catalog/circuit_service.go]) reads, applies and writes them in the
    caller's transaction or in one of its own ([catalogpg/circuit.go] is the
    repository).  The abstract breaker is a function of the history of calls: the
    failures since the last success and the instant until which calls are refused;
    the stored record refines it, and through the service calls made one after the
    other get exactly the decisions of the rule FC-09 ([fc09]). *)

From Stdlib Require Import ZArith Lia Bool String.
From stdpp Require Import base list strings gmap.
From S2P Require Import Prelude GoTime Uuid Effects.

Local Open Scope string_scope.
Local Open Scope Z_scope.

Module Circuit.

(** ** circuit.go *)

Definition CircuitFailureThreshold : Z := 5.
Definition CircuitProbeDelay : Duration := 60 * Second.

Inductive CircuitState := CircuitClosed | CircuitHalfOpen | CircuitOpen.

#[export] Instance CircuitState_eq_dec : EqDecision CircuitState.
Proof. solve_decision. Defined.

Definition GaugeValue (s : CircuitState) : Z :=
  match s with CircuitHalfOpen => 1 | CircuitOpen => 2 | CircuitClosed => 0 end.

Record ProviderCircuit := MkCircuit {
  c_ProviderID : uuid;
  State : CircuitState;
  ConsecutiveFailures : Z;
  LastFailureAt : option Time;
  OpenedAt : option Time;
  NextProbeAt : option Time;
  UpdatedAt : Time
}.

Definition NewProviderCircuit (providerID : uuid) : ProviderCircuit :=
  MkCircuit providerID CircuitClosed 0 None None None zeroTime.

Record Decision := MkDecision {
  Allowed : bool;
  Probe : bool;
  d_State : CircuitState;
  RetryAt : option Time
}.

Definition with_state (c : ProviderCircuit) (s : CircuitState) : ProviderCircuit :=
  MkCircuit (c_ProviderID c) s (ConsecutiveFailures c) (LastFailureAt c) (OpenedAt c) (NextProbeAt c) (UpdatedAt c).

(** The mutated circuit and the decision. *)
Definition Evaluate (c : ProviderCircuit) (now : Time) : ProviderCircuit * Decision :=
  match State c with
  | CircuitOpen =>
      let held := (c, MkDecision false false CircuitOpen (NextProbeAt c)) in
      match NextProbeAt c with
      | Some p => if negb (Before now p)
                  then (with_state c CircuitHalfOpen, MkDecision true true CircuitHalfOpen None)
                  else held
      | None => held
      end
  | CircuitHalfOpen => (c, MkDecision true true CircuitHalfOpen None)
  | CircuitClosed => (c, MkDecision true false CircuitClosed None)
  end.

(** The mutated circuit and the previous state. *)
Definition ApplySuccess (c : ProviderCircuit) (now : Time) : ProviderCircuit * CircuitState :=
  (MkCircuit (c_ProviderID c) CircuitClosed 0 (LastFailureAt c) None None now, State c).

Definition ApplyFailure (c : ProviderCircuit) (now : Time) : ProviderCircuit * CircuitState :=
  let n := ConsecutiveFailures c + 1 in
  (if CircuitFailureThreshold <=? n
   then MkCircuit (c_ProviderID c) CircuitOpen n (Some now) (Some now) (Some (Add now CircuitProbeDelay)) now
   else MkCircuit (c_ProviderID c) (State c) n (Some now) (OpenedAt c) (NextProbeAt c) now,
   State c).

(** ** circuit_service.go and catalogpg/circuit.go *)

(** [provider_circuits], keyed by provider. *)
Abbreviation CircuitTable := (gmap uuid ProviderCircuit).

(** A missing row reads as a fresh closed circuit. *)
Definition pg_GetCircuit (providerID : uuid) (t : CircuitTable) : ProviderCircuit :=
  match t !! providerID with Some c => c | None => NewProviderCircuit providerID end.

(** The column [consecutive_failures] is a non-negative 32-bit integer. *)
Definition circuit_check (c : ProviderCircuit) : bool :=
  (0 <=? ConsecutiveFailures c) && (ConsecutiveFailures c <? 2 ^ 31).

Definition pg_UpsertCircuit (c : ProviderCircuit) (t : CircuitTable) : option (CircuitTable * unit) :=
  if circuit_check c then Some (<[c_ProviderID c := c]> t, tt) else None.

(** catalog.go *)
Record Transition := MkTransition {
  tr_ProviderID : uuid;
  Changed : bool;
  Old : CircuitState;
  New : CircuitState;
  tr_ConsecutiveFailures : Z
}.

Section Service.
Context `{Env} {D : Type} `{Part D CircuitTable}.

Definition GetCircuit (providerID : uuid) : M D ProviderCircuit :=
  query "scan circuit" (fun d => pg_GetCircuit providerID (part d)).

Definition UpsertCircuit (c : ProviderCircuit) : M D unit :=
  dbexec "upsert circuit" (fun d =>
    match pg_UpsertCircuit c (part d) with
    | Some (t, a) => Some (put t d, a)
    | None => None
    end).

(** [CircuitService.Evaluate]: its own transaction; the probe transition is
    written, nothing else. *)
Definition CircuitEvaluate (providerID : uuid) (now : Time) : M D Decision :=
  tx_run (
    circuit <-- GetCircuit providerID ;;
    let '(circuit', decision) := Evaluate circuit now in
    if bool_decide (State circuit' <> State circuit)
    then UpsertCircuit circuit' ;;; ret decision
    else ret decision).

(** [RecordSuccess] and [RecordFailure] differ in the domain operation. *)
Definition record_outcome (apply : ProviderCircuit -> Time -> ProviderCircuit * CircuitState)
    (providerID : uuid) (now : Time) : M D Transition :=
  circuit <-- GetCircuit providerID ;;
  let '(circuit', prev) := apply circuit now in
  UpsertCircuit circuit' ;;;
  ret (MkTransition providerID (bool_decide (prev <> State circuit')) prev (State circuit')
         (ConsecutiveFailures circuit')).

Definition RecordSuccess : uuid -> Time -> M D Transition := record_outcome ApplySuccess.
Definition RecordFailure : uuid -> Time -> M D Transition := record_outcome ApplyFailure.
End Service.

(** ** The abstract breaker *)

(** What happens to a provider, newest first. *)
Inductive Event := EvEvaluate (t : Time) | EvSuccess (t : Time) | EvFailure (t : Time).

(** Failures since the last success. *)
Fixpoint failures (h : list Event) : Z :=
  match h with
  | [] => 0
  | EvSuccess _ :: _ => 0
  | EvFailure _ :: h => failures h + 1
  | EvEvaluate _ :: h => failures h
  end.

(** The instant until which calls are refused, if they are: a failure that
    completes the threshold refuses for the probe delay; the first evaluation
    after it, or a success, ends the refusal. *)
Fixpoint refused_until (h : list Event) : option Time :=
  match h with
  | [] | EvSuccess _ :: _ => None
  | EvFailure t :: h =>
      if failures h + 1 <? CircuitFailureThreshold then None else Some (t + CircuitProbeDelay)
  | EvEvaluate t :: h =>
      match refused_until h with Some p => if p <=? t then None else Some p | None => None end
  end.

Definition event_step (c : ProviderCircuit) (e : Event) : ProviderCircuit :=
  match e with
  | EvEvaluate t => (Evaluate c t).1
  | EvSuccess t => (ApplySuccess c t).1
  | EvFailure t => (ApplyFailure c t).1
  end.

Definition circuit_after (p : uuid) (h : list Event) : ProviderCircuit :=
  foldr (fun e c => event_step c e) (NewProviderCircuit p) h.

(** The record of a breaker determines the abstract breaker. *)
Record circuit_rel (p : uuid) (h : list Event) (c : ProviderCircuit) : Prop := {
  cr_provider : c_ProviderID c = p;
  cr_failures : ConsecutiveFailures c = failures h;
  cr_state : State c = if failures h <? CircuitFailureThreshold then CircuitClosed
                       else match refused_until h with Some _ => CircuitOpen | None => CircuitHalfOpen end;
  cr_probe : failures h <? CircuitFailureThreshold = true -> NextProbeAt c = None /\ OpenedAt c = None;
  cr_open : forall t, refused_until h = Some t -> NextProbeAt c = Some t /\ failures h <? CircuitFailureThreshold = false;
}.

Lemma failures_nonneg h : 0 <= failures h.
Proof. induction h as [|[t|t|t] h IH]; cbn; lia. Qed.

Lemma circuit_rel_evaluate p h c t :
  circuit_rel p h c -> circuit_rel p (EvEvaluate t :: h) (Evaluate c t).1.
Proof.
  intros []. unfold Evaluate. rewrite cr_state0. cbn [failures refused_until].
  destruct (failures h <? CircuitFailureThreshold) eqn:E.
  - destruct (refused_until h) as [q|] eqn:R; [destruct (cr_open0 q eq_refl); congruence|].
    constructor; cbn; rewrite ?E, ?R; auto; try discriminate.
  - destruct (refused_until h) as [q|] eqn:R.
    + destruct (cr_open0 q eq_refl) as [-> _]. unfold Before. rewrite <- Z.leb_antisym.
      destruct (q <=? t) eqn:L; constructor; cbn; rewrite ?E, ?R, ?L; auto; discriminate.
    + constructor; cbn; rewrite ?E, ?R; auto; discriminate.
Qed.

Lemma circuit_rel_failure p h c t :
  circuit_rel p h c -> circuit_rel p (EvFailure t :: h) (ApplyFailure c t).1.
Proof.
  intros []. unfold ApplyFailure. rewrite cr_failures0. cbn [fst].
  destruct (CircuitFailureThreshold <=? failures h + 1) eqn:E.
  - assert (L : failures h + 1 <? CircuitFailureThreshold = false) by (bool_simp; lia).
    constructor; cbn; rewrite ?L; auto; try discriminate. all: try (intros q [= <-]; auto).
  - assert (L : failures h + 1 <? CircuitFailureThreshold = true) by (bool_simp; lia).
    assert (L' : failures h <? CircuitFailureThreshold = true) by (bool_simp; lia). rewrite L' in cr_state0.
    constructor; cbn; rewrite ?L; auto; try discriminate.
Qed.

Lemma circuit_after_rel p h : circuit_rel p h (circuit_after p h).
Proof.
  induction h as [|[t|t|t] h IH]; cbn.
  - constructor; cbn; auto; try discriminate.
  - now apply circuit_rel_evaluate.
  - destruct IH. constructor; cbn; auto; try discriminate.
  - now apply circuit_rel_failure.
Qed.

(** ** The service refines the histories of all providers *)

(** The table holds, for every provider, the breaker of its history. *)
Definition table_rel (hs : uuid -> list Event) (t : CircuitTable) : Prop :=
  forall p, circuit_rel p (hs p) (pg_GetCircuit p t).

Definition happened (e : Event) (p : uuid) (hs : uuid -> list Event) : uuid -> list Event :=
  fun q => if decide (q = p) then e :: hs q else hs q.

Lemma table_rel_empty : table_rel (fun _ => []) ∅.
Proof. intros p. exact (circuit_after_rel p []). Qed.

Lemma table_rel_upsert hs t p e c :
  table_rel hs t -> circuit_rel p (e :: hs p) c -> table_rel (happened e p hs) (<[p := c]> t).
Proof.
  intros Ht Hc q. unfold happened, pg_GetCircuit. destruct (decide (q = p)) as [->|Hq].
  - now rewrite lookup_insert_eq.
  - rewrite lookup_insert_ne by congruence. apply Ht.
Qed.

Lemma table_rel_same hs t p e :
  table_rel hs t -> circuit_rel p (e :: hs p) (pg_GetCircuit p t) -> table_rel (happened e p hs) t.
Proof. intros Ht Hc q. unfold happened. destruct (decide (q = p)) as [->|]; [assumption|apply Ht]. Qed.

Lemma circuit_rel_success p h c t :
  circuit_rel p h c -> circuit_rel p (EvSuccess t :: h) (ApplySuccess c t).1.
Proof. intros []. constructor; cbn; auto. discriminate. Qed.

(** The three calls of the port, as one step of the service. *)
Inductive Call := CallEvaluate | CallSuccess | CallFailure.

Definition call_event (k : Call) (now : Time) : Event :=
  match k with CallEvaluate => EvEvaluate now | CallSuccess => EvSuccess now | CallFailure => EvFailure now end.

Section Refinement.
Context `{Env} {D : Type} `{PL : PartLaws D CircuitTable}.

Definition run_call (k : Call) (p : uuid) (now : Time) : M D unit :=
  match k with
  | CallEvaluate => CircuitEvaluate p now ;;; ret tt
  | CallSuccess => RecordSuccess p now ;;; ret tt
  | CallFailure => RecordFailure p now ;;; ret tt
  end.

Lemma UpsertCircuit_inv c w w' r :
  UpsertCircuit c w = (w', r) ->
  match r with
  | Ok _ => db w' = put (<[c_ProviderID c := c]> (part (db w))) (db w)
  | Error _ => db w' = db w
  end.
Proof.
  unfold UpsertCircuit, dbexec, pg_UpsertCircuit. destruct (fault _); [now intros [= <- <-]|].
  destruct (circuit_check c); now intros [= <- <-].
Qed.

Lemma record_outcome_inv apply p now w w' r :
  record_outcome apply p now w = (w', r) ->
  let c := (apply (pg_GetCircuit p (part (db w))) now).1 in
  match r with
  | Ok _ => db w' = put (<[c_ProviderID c := c]> (part (db w))) (db w)
  | Error _ => db w' = db w
  end.
Proof.
  unfold record_outcome, bind, GetCircuit. destruct (query _ _ w) as [w1 r1] eqn:Eq.
  destruct (query_inv _ _ _ _ _ Eq) as (Ed & _ & [->| ->]); [|now intros [= <- <-]].
  destruct (apply _ _) as [c' prev] eqn:Ea. cbn [fst]. destruct (UpsertCircuit c' w1) as [w2 [u|e]] eqn:Eu;
    apply UpsertCircuit_inv in Eu; rewrite Ed in Eu; now intros [= <- <-].
Qed.

Lemma CircuitEvaluate_inv p now w w' r :
  CircuitEvaluate p now w = (w', r) ->
  let c := pg_GetCircuit p (part (db w)) in
  match r with
  | Ok d => d = (Evaluate c now).2 /\
            (db w' = put (<[c_ProviderID c := (Evaluate c now).1]> (part (db w))) (db w)
             \/ db w' = db w /\ (Evaluate c now).1 = c)
  | Error _ => db w' = db w
  end.
Proof.
  intros Er c. destruct r as [d|e]; [|now apply tx_run_error in Er].
  apply tx_run_ok in Er as (w1 & E1 & ->). unfold bind at 1, GetCircuit in E1.
  destruct (query _ _ _) as [w2 r2] eqn:Eq. destruct (query_inv _ _ _ _ _ Eq) as (Ed & _ & [->| ->]); [|discriminate].
  cbn [db] in *. fold c in E1. destruct (Evaluate c now) as [c' d'] eqn:Ev.
  assert (Ep : c_ProviderID c' = c_ProviderID c /\ (State c' = State c -> c' = c)).
  { revert Ev. unfold Evaluate, with_state. destruct (State c) eqn:S; [now intros [= <- <-]..|].
    destruct (NextProbeAt c) as [q|]; [|now intros [= <- <-]].
    destruct (negb _); intros [= <- <-]; cbn; (split; [reflexivity|congruence]). }
  destruct (bool_decide_reflect (State c' <> State c)) as [Hs|Hs].
  - unfold bind in E1. destruct (UpsertCircuit c' w2) as [w3 [u|e]] eqn:Eu; [|discriminate].
    apply UpsertCircuit_inv in Eu. injection E1 as <- <-. rewrite Ed, (proj1 Ep) in Eu. auto.
  - injection E1 as <- <-. split; [reflexivity|]. right. split; [assumption|]. apply Ep.
    destruct (decide (State c' = State c)); [assumption|contradiction].
Qed.
End Refinement.

(** ** Calls one at a time

    FC-09 in its own words, for the scheduler's use of the breaker: a call is
    evaluated, made if it is admitted, and its outcome recorded before the next
    call of the provider is evaluated. *)

Record ProviderCall := MkCall {
  pc_Provider : uuid;
  pc_Start : Time;
  pc_End : Time;
  pc_Succeeds : bool
}.

(** The outcomes of the admitted calls of a provider, newest first. *)
Abbreviation CallLog := (list (Time * bool)).

(** Failures since the last success. *)
Fixpoint failed_run (log : CallLog) : Z :=
  match log with (_, false) :: log => failed_run log + 1 | _ => 0 end.

(** The instant until which FC-09 holds calls back. *)
Definition held_until (log : CallLog) : option Time :=
  match log with
  | (t, false) :: _ => if 5 <=? failed_run log then Some (t + 60 * Second) else None
  | _ => None
  end.

Definition fc09 (log : CallLog) (now : Time) : Decision :=
  match held_until log with
  | None => MkDecision true false CircuitClosed None
  | Some t => if now <? t then MkDecision false false CircuitOpen (Some t)
              else MkDecision true true CircuitHalfOpen None
  end.

(** The specification of a sequence of calls, over the logs of all providers. *)
Definition log_call (c : ProviderCall) (logs : uuid -> CallLog) : uuid -> CallLog :=
  if Allowed (fc09 (logs (pc_Provider c)) (pc_Start c))
  then fun q => if decide (q = pc_Provider c) then (pc_End c, pc_Succeeds c) :: logs q else logs q
  else logs.

Fixpoint fc09_run (logs : uuid -> CallLog) (cs : list ProviderCall) : list Decision :=
  match cs with
  | [] => []
  | c :: cs => fc09 (logs (pc_Provider c)) (pc_Start c) :: fc09_run (log_call c logs) cs
  end.

Section Calls.
Context `{Env} {D : Type} `{PL : PartLaws D CircuitTable}.

(** One call through the service: evaluate, call, record. *)
Definition provider_call (c : ProviderCall) : M D Decision :=
  d <-- CircuitEvaluate (pc_Provider c) (pc_Start c) ;;
  if Allowed d
  then tx_run ((if pc_Succeeds c then RecordSuccess else RecordFailure) (pc_Provider c) (pc_End c)) ;;; ret d
  else ret d.

(** The stored breaker between two calls. *)
Record log_rel (p : uuid) (log : CallLog) (c : ProviderCircuit) : Prop := {
  lr_provider : c_ProviderID c = p;
  lr_failures : ConsecutiveFailures c = failed_run log;
  lr_state : match held_until log with
             | Some t => State c = CircuitOpen /\ NextProbeAt c = Some t
             | None => State c = CircuitClosed
             end;
}.

Definition logs_rel (n : Z) (logs : uuid -> CallLog) (d : D) : Prop :=
  forall p, log_rel p (logs p) (pg_GetCircuit p (part d)) /\ failed_run (logs p) <= n.

Lemma failed_run_nonneg log : 0 <= failed_run log.
Proof. induction log as [|[t [|]] log IH]; cbn; lia. Qed.

Lemma log_rel_decision p log c now : log_rel p log c -> (Evaluate c now).2 = fc09 log now.
Proof.
  intros []. unfold Evaluate, fc09. destruct (held_until log) as [t|].
  - destruct lr_state0 as [-> ->]. unfold Before. now destruct (now <? t).
  - now rewrite lr_state0.
Qed.

(** An admitted call and its outcome lead to the breaker of the longer log. *)
Lemma log_rel_outcome p log c now t b :
  log_rel p log c -> log_rel p ((t, b) :: log) ((if b then ApplySuccess else ApplyFailure) (Evaluate c now).1 t).1.
Proof.
  intros [Hp Hf Hs].
  assert (E : c_ProviderID (Evaluate c now).1 = c_ProviderID c /\
              ConsecutiveFailures (Evaluate c now).1 = ConsecutiveFailures c /\
              (held_until log = None -> State (Evaluate c now).1 = CircuitClosed)).
  { unfold Evaluate. destruct (held_until log) as [q|]; [destruct Hs as [-> ->]|rewrite Hs]; [|auto].
    destruct (negb _); repeat split; discriminate. }
  destruct E as (Ep & Ef & Es). destruct b.
  - constructor; cbn; [now rewrite Ep|reflexivity|reflexivity].
  - unfold ApplyFailure. rewrite Ef, Hf. unfold CircuitFailureThreshold.
    destruct (Z.leb_spec 5 (failed_run log + 1)) as [L|L]; constructor; cbn; try (now rewrite Ep); try reflexivity.
    + destruct (Z.leb_spec 5 (failed_run log + 1)); [now split|lia].
    + destruct (Z.leb_spec 5 (failed_run log + 1)); [lia|]. apply Es.
      destruct log as [|[u [|]] log]; cbn in *; [reflexivity..|]. destruct (Z.leb_spec 5 (failed_run log + 1)); [lia|reflexivity].
Qed.

(** A write the column accepts succeeds. *)
Lemma total_Upsert `{!Healthy} k (d0 : D) c :
  circuit_check c = true ->
  total k (fun d => d = d0) (UpsertCircuit c) (fun _ d => d = put (<[c_ProviderID c := c]> (part d0)) d0).
Proof. intros Hc. apply total_dbexec. intros d ->. unfold pg_UpsertCircuit. rewrite Hc. eauto. Qed.

Lemma evaluate_keeps c now :
  c_ProviderID (Evaluate c now).1 = c_ProviderID c /\
  ConsecutiveFailures (Evaluate c now).1 = ConsecutiveFailures c /\
  (State (Evaluate c now).1 = State c -> (Evaluate c now).1 = c).
Proof.
  unfold Evaluate. destruct (State c) eqn:S; auto. destruct (NextProbeAt c) as [q|]; auto.
  destruct (negb _); cbn; auto. repeat split. intros [=].
Qed.

Lemma circuit_check_ok c : 0 <= ConsecutiveFailures c < 2 ^ 31 -> circuit_check c = true.
Proof. intros. unfold circuit_check. bool_simp; lia. Qed.

(** Evaluating stores the evaluated breaker, if it is another one. *)
Lemma total_CircuitEvaluate `{!Healthy} k (d0 : D) p now :
  let c := pg_GetCircuit p (part d0) in
  0 <= ConsecutiveFailures c < 2 ^ 31 -> c_ProviderID c = p ->
  total k (fun d => d = d0) (CircuitEvaluate p now)
    (fun a d => a = (Evaluate c now).2 /\
       (d = put (<[p := (Evaluate c now).1]> (part d0)) d0 \/ d = d0 /\ (Evaluate c now).1 = c)).
Proof.
  intros c Hc Hp. destruct (evaluate_keeps c now) as (Ep & Ef & Es). apply total_tx.
  eapply total_bind; [apply total_query|]. intros c1. cbn beta.
  apply (total_weaken k (fun d => c1 = c /\ d = d0) _ _ (fun a d => a = (Evaluate c now).2 /\
       (d = put (<[p := (Evaluate c now).1]> (part d0)) d0 \/ d = d0 /\ (Evaluate c now).1 = c)));
    [intros d [-> ->]; auto|auto|].
  apply total_pure. intros ->. destruct (Evaluate c now) as [c' d'] eqn:Ev. cbn [fst snd] in *.
  destruct (bool_decide_reflect (State c' <> State c)) as [Hs|Hs].
  - eapply total_bind; [apply total_Upsert, circuit_check_ok; lia|]. intros u. apply total_ret. intros d ->.
    rewrite Ep, Hp. auto.
  - apply total_ret. intros d ->. split; [reflexivity|]. right. split; [reflexivity|]. apply Es.
    destruct (decide (State c' = State c)); [assumption|contradiction].
Qed.

Lemma record_total `{!Healthy} k (d0 : D) apply p now :
  let c := (apply (pg_GetCircuit p (part d0)) now).1 in
  0 <= ConsecutiveFailures c < 2 ^ 31 -> c_ProviderID c = p ->
  total k (fun d => d = d0) (record_outcome apply p now) (fun _ d => d = put (<[p := c]> (part d0)) d0).
Proof.
  intros c Hc Hp. eapply total_bind; [apply total_query|]. intros c1. cbn beta.
  apply (total_weaken k (fun d => c1 = pg_GetCircuit p (part d0) /\ d = d0) _ _
           (fun _ d => d = put (<[p := c]> (part d0)) d0)); [intros d [-> ->]; auto|auto|].
  apply total_pure. intros ->. unfold c in *. destruct (apply _ _) as [c' prev]. cbn [fst] in *.
  eapply total_bind; [apply total_Upsert, circuit_check_ok; lia|]. intros u. apply total_ret. intros d ->. now rewrite Hp.
Qed.

Lemma total_provider_call `{!Healthy} k logs n c :
  n + 1 < 2 ^ 31 ->
  total k (logs_rel n logs) (provider_call c)
    (fun d t => d = fc09 (logs (pc_Provider c)) (pc_Start c) /\ logs_rel (n + 1) (log_call c logs) t).
Proof.
  intros Hn w R Hk. destruct c as [p start stop ok]. unfold provider_call, log_call.
  cbn [pc_Provider pc_Start pc_End pc_Succeeds].
  pose proof (R p) as [Rp Bp]. pose proof (failed_run_nonneg (logs p)) as Pos.
  set (d0 := db w) in *. set (c0 := pg_GetCircuit p (part d0)) in *.
  assert (Rn : logs_rel (n + 1) logs d0) by (intros q; destruct (R q); split; [assumption|lia]).
  destruct (evaluate_keeps c0 start) as (Kp & Kf & _).
  destruct (total_CircuitEvaluate k d0 p start ltac:(fold c0; rewrite (lr_failures _ _ _ Rp); lia)
              (lr_provider _ _ _ Rp) w eq_refl Hk) as (w1 & a & E1 & (-> & Hd) & Hk1).
  fold c0 in Hd. unfold bind at 1. rewrite E1. fold c0. rewrite (log_rel_decision p (logs p) c0 start Rp).
  assert (Hd1 : db w1 = put (<[p := (Evaluate c0 start).1]> (part d0)) d0 \/ db w1 = d0 /\ (Evaluate c0 start).1 = c0) by exact Hd.
  destruct (Allowed (fc09 (logs p) start)) eqn:Ea.
  - assert (G : pg_GetCircuit p (part (db w1)) = (Evaluate c0 start).1).
    { destruct Hd1 as [->|[-> Eq]]; [|now rewrite Eq]. rewrite part_put. unfold pg_GetCircuit. now rewrite lookup_insert_eq. }
    pose proof (log_rel_outcome p (logs p) c0 start stop ok Rp) as Ro. rewrite <- G in Ro.
    pose proof (failed_run_nonneg ((stop, ok) :: logs p)) as Pos'.
    assert (Bo : failed_run ((stop, ok) :: logs p) <= n + 1) by (destruct ok; cbn; lia).
    assert (T : total k (fun d => d = db w1) (tx_run ((if ok then RecordSuccess else RecordFailure) p stop))
                  (fun _ d => d = put (<[p := ((if ok then ApplySuccess else ApplyFailure) (pg_GetCircuit p (part (db w1))) stop).1]>
                                    (part (db w1))) (db w1))).
    { apply total_tx. pose proof (lr_failures _ _ _ Ro) as Lf. pose proof (lr_provider _ _ _ Ro) as Lp.
      destruct ok; apply record_total; try assumption; rewrite Lf; lia. }
    destruct (T w1 eq_refl Hk1) as (w2 & u & E2 & Ed & Hk2). unfold bind. rewrite E2.
    exists w2, (fc09 (logs p) start). split; [reflexivity|]. split; [|assumption]. split; [reflexivity|].
    rewrite Ed. intros q. pose proof (Rn q) as Rq. destruct (decide (q = p)) as [->|Hq].
    + rewrite part_put. unfold pg_GetCircuit at 1. rewrite lookup_insert_eq. auto.
    + rewrite part_put. unfold pg_GetCircuit at 1. rewrite lookup_insert_ne by congruence.
      destruct Hd1 as [->|[-> _]]; [|exact Rq]. rewrite part_put, lookup_insert_ne by congruence. exact Rq.
  - exists w1, (fc09 (logs p) start). split; [reflexivity|]. split; [|assumption]. split; [reflexivity|].
    destruct Hd1 as [->|[-> _]]; [|exact Rn].
    enough (Eq : (Evaluate c0 start).1 = c0).
    { intros q. rewrite part_put, Eq. unfold pg_GetCircuit. destruct (decide (q = p)) as [->|Hq].
      - rewrite lookup_insert_eq. exact (Rn p).
      - rewrite lookup_insert_ne by congruence. apply Rn. }
    revert Ea. rewrite <- (log_rel_decision p (logs p) c0 start Rp). unfold Evaluate. destruct (State c0); try discriminate.
    destruct (NextProbeAt c0) as [q|]; [|reflexivity]. now destruct (negb _).
Qed.

Lemma total_provider_calls `{!Healthy} k cs n logs :
  n + Z.of_nat (length cs) < 2 ^ 31 ->
  total k (logs_rel n logs) (mapM provider_call cs)
    (fun ds t => ds = fc09_run logs cs /\ logs_rel (n + Z.of_nat (length cs)) (foldl (fun l c => log_call c l) logs cs) t).
Proof.
  revert n logs. induction cs as [|c cs IH]; intros n logs Hn; cbn [length mapM fc09_run foldl] in *.
  { apply total_ret. rewrite Z.add_0_r. auto. }
  eapply total_bind; [apply total_provider_call; lia|]. intros d. cbn beta. apply total_pure. intros ->.
  eapply total_bind; [apply IH; lia|]. intros ds. cbn beta. apply total_pure. intros ->. apply total_ret.
  intros t Ht. split; [reflexivity|]. now replace (n + Z.of_nat (S (length cs))) with (n + 1 + Z.of_nat (length cs)) by lia.
Qed.
End Calls.

(** ** Theorems *)

(** The decision of a breaker, by its history. *)
Lemma circuit_rel_allows p h c now :
  circuit_rel p h c ->
  Allowed (Evaluate c now).2 = match refused_until h with Some t => t <=? now | None => true end.
Proof.
  intros []. unfold Evaluate. rewrite cr_state0. destruct (failures h <? CircuitFailureThreshold) eqn:E.
  - destruct (refused_until h) as [q|] eqn:R; [destruct (cr_open0 q eq_refl); congruence|]. now cbn.
  - destruct (refused_until h) as [q|] eqn:R; [|now cbn]. destruct (cr_open0 q eq_refl) as [-> _].
    unfold Before. rewrite <- Z.leb_antisym. now destruct (q <=? now).
Qed.

(** Note: the stored breaker is a function of its history: after any sequence of
    evaluations and outcomes it counts the failures since the last success, a call
    is refused exactly until the instant the history gives, a refused caller is
    told that instant, and an admitted call is a probe exactly when the threshold
    has been reached.  Evaluations in the half-open state are all admitted, see
    [half_open_admits_every_probe]. *)
Theorem circuit_refines_history p h now :
  let c := circuit_after p h in
  let d := (Evaluate c now).2 in
  ConsecutiveFailures c = failures h /\
  Allowed d = match refused_until h with Some t => t <=? now | None => true end /\
  (Allowed d = false -> RetryAt d = refused_until h) /\
  (Allowed d = true -> Probe d = negb (failures h <? CircuitFailureThreshold)).
Proof.
  intros c d. destruct (circuit_after_rel p h). fold c in cr_failures0, cr_state0, cr_probe0, cr_open0.
  split; [assumption|]. unfold d, Evaluate. rewrite cr_state0.
  destruct (failures h <? CircuitFailureThreshold) eqn:E.
  - destruct (refused_until h) as [q|] eqn:R; [destruct (cr_open0 q eq_refl); congruence|]. now cbn.
  - destruct (refused_until h) as [q|] eqn:R; [|now cbn]. destruct (cr_open0 q eq_refl) as [-> _].
    unfold Before. rewrite <- Z.leb_antisym. destruct (q <=? now); now cbn.
Qed.

(** C5: FC-09 for calls made one after the other, as the workers of the scheduler
    make them: from an empty table, any sequence of fewer than 2^31 calls of any
    providers gets from the service exactly the decisions of the rule.  A call is
    refused, with the time of the next probe, while the last five or more admitted
    calls of its provider all failed and the last failure is less than 60 seconds
    ago; it is a probe if they failed and the 60 seconds have passed; a successful
    call closes the breaker. *)
Theorem circuit_refines_calls `{Healthy} {D} `{PL : PartLaws D CircuitTable} (cs : list ProviderCall) (w : World D) :
  part (db w) = ∅ -> Z.of_nat (length cs) < 2 ^ 31 ->
  (mapM provider_call cs w).2 = Ok (fc09_run (fun _ => []) cs).
Proof.
  intros E Hl. assert (R : logs_rel 0 (fun _ => []) (db w)).
  { intros p. rewrite E. unfold pg_GetCircuit. rewrite lookup_empty. cbn. split; [now constructor|lia]. }
  destruct (total_provider_calls 0 cs 0 (fun _ => []) Hl w R ltac:(lia)) as (w' & ds & -> & [-> _] & _). reflexivity.
Qed.

(** Five failures of provider 7, a call that is refused, one of another provider,
    and the probe a minute after the last failure. *)
Definition witness_calls : list ProviderCall :=
  ((fun i => MkCall 7 (i * Second) (i * Second + 1) false) <$> [1; 2; 3; 4; 5]) ++
  [MkCall 7 (60 * Second) (61 * Second) true; MkCall 8 (60 * Second) (61 * Second) true;
   MkCall 7 (66 * Second) (67 * Second) true].

Lemma circuit_refines_calls_witness :
  (mapM (D := CircuitTable) provider_call witness_calls (MkWorld ∅ 0 0)).2
    = Ok (fc09_run (fun _ => []) witness_calls) /\
  Allowed <$> fc09_run (fun _ => []) witness_calls = [true; true; true; true; true; false; true; true].
Proof. split; [|vm_compute; reflexivity]. apply circuit_refines_calls; [reflexivity|vm_compute; reflexivity]. Defined.

(** Note: a half-open breaker holds nobody back: however many evaluations follow the
    probe transition, every one is admitted as a probe until an outcome is
    recorded. *)
Theorem half_open_admits_every_probe c now later :
  State c = CircuitOpen -> (Evaluate c now).2 = MkDecision true true CircuitHalfOpen None ->
  forall t, (Evaluate (foldl (fun c t => (Evaluate c t).1) (Evaluate c now).1 later) t).2
            = MkDecision true true CircuitHalfOpen None.
Proof.
  intros Ho Hd t.
  assert (Hs : State (Evaluate c now).1 = CircuitHalfOpen).
  { revert Hd. unfold Evaluate. rewrite Ho. destruct (NextProbeAt c) as [q|]; [|discriminate].
    destruct (negb _); [reflexivity|discriminate]. }
  revert Hs. generalize (Evaluate c now).1. clear. induction later as [|u later IH]; intros c Hs; cbn.
  - unfold Evaluate. now rewrite Hs.
  - apply IH. unfold Evaluate. now rewrite Hs.
Qed.

Lemma half_open_admits_every_probe_witness :
  let c := circuit_after 7 (EvFailure <$> [4; 3; 2; 1; 0]) in
  (Evaluate c (CircuitProbeDelay + 4)).2 = MkDecision true true CircuitHalfOpen None /\
  (Evaluate (foldl (fun c t => (Evaluate c t).1) (Evaluate c (CircuitProbeDelay + 4)).1 [0; 1]) 2).2
    = MkDecision true true CircuitHalfOpen None.
Proof. split; [reflexivity|]. apply half_open_admits_every_probe; reflexivity. Defined.

(** Note: every call of the circuit port, whatever fails in it, either appends its
    event to the history of its provider and changes nothing else, or fails and
    changes nothing; an answered evaluation carries the decision of the abstract
    breaker. *)
Theorem circuit_service_refines `{Env} {D} `{PartLaws D CircuitTable} k p now hs w :
  table_rel hs (part (db w)) ->
  match run_call k p now w with
  | (w', Ok _) => table_rel (happened (call_event k now) p hs) (part (db w')) /\ put (part (db w')) (db w) = db w'
  | (w', Error _) => db w' = db w
  end /\
  (forall d, (CircuitEvaluate p now w).2 = Ok d ->
     Allowed d = match refused_until (hs p) with Some t => t <=? now | None => true end).
Proof.
  intros T. pose proof (T p) as R. split.
  - destruct (run_call k p now w) as [w' r] eqn:E. destruct k; cbn [run_call call_event] in *; unfold bind in E.
    + destruct (CircuitEvaluate p now w) as [w1 [d|e]] eqn:Ee; apply CircuitEvaluate_inv in Ee; injection E as <- <-; [|assumption].
      destruct Ee as [_ [->|[-> Ec]]].
      * rewrite part_put, (cr_provider _ _ _ R). split; [|reflexivity].
        apply table_rel_upsert; [assumption|]. now apply circuit_rel_evaluate.
      * rewrite put_part. split; [|reflexivity]. apply table_rel_same; [assumption|]. rewrite <- Ec. now apply circuit_rel_evaluate.
    + destruct (RecordSuccess p now w) as [w1 [d|e]] eqn:Ee; apply record_outcome_inv in Ee; injection E as <- <-; [|assumption].
      rewrite Ee, part_put. split; [|reflexivity].
      pose proof (circuit_rel_success p (hs p) _ now R) as Rs. rewrite (cr_provider _ _ _ Rs). now apply table_rel_upsert.
    + destruct (RecordFailure p now w) as [w1 [d|e]] eqn:Ee; apply record_outcome_inv in Ee; injection E as <- <-; [|assumption].
      rewrite Ee, part_put. split; [|reflexivity].
      pose proof (circuit_rel_failure p (hs p) _ now R) as Rf. rewrite (cr_provider _ _ _ Rf). now apply table_rel_upsert.
  - intros d. destruct (CircuitEvaluate p now w) as [w1 r] eqn:Ee. cbn. intros ->.
    apply CircuitEvaluate_inv in Ee as [-> _]. exact (circuit_rel_allows _ _ _ _ R).
Qed.

(** A first failure of provider 7. *)
Lemma circuit_service_refines_witness :
  let run := run_call (D := CircuitTable) CallFailure 7 90 (MkWorld ∅ 0 0) in
  run.2 = Ok tt /\
  match run with
  | (w', Ok _) => table_rel (happened (EvFailure 90) 7 (fun _ => [])) (part (db w')) /\ put (part (db w')) ∅ = db w'
  | (w', Error _) => db w' = ∅
  end.
Proof.
  split; [vm_compute; reflexivity|].
  exact (proj1 (circuit_service_refines (D := CircuitTable) CallFailure 7 90 (fun _ => []) (MkWorld ∅ 0 0) table_rel_empty)).
Defined.

End Circuit.
