(* ===== verification/Catalog.v ===== *)
(** * The catalog's entities and schedules ([internal/catalog/domain])

    The aggregates the other modules consume (provider, location, provider
    configuration with their lifecycle status) and the collection cadence:
    [Schedule.SlotTimes] enumerates the instants the scheduler turns into slots. *)

From Stdlib Require Import ZArith Lia Bool String Sorting.Sorted.
From stdpp Require Import base list strings.
From S2P Require Import Prelude Float64 GoTime Uuid.

Local Open Scope string_scope.
Local Open Scope Z_scope.

Module Catalog.

(** ** status.go *)

(** A Go string with three known values; requests can carry any other. *)
Inductive Status := StatusActive | StatusDisabled | StatusArchived | StatusOther (s : string).

#[export] Instance Status_eq_dec : EqDecision Status.
Proof. solve_decision. Defined.

Definition Status_Valid (s : Status) : bool :=
  match s with StatusActive | StatusDisabled | StatusArchived => true | StatusOther _ => false end.

Definition Settable (s : Status) : bool :=
  match s with StatusActive | StatusDisabled => true | StatusArchived | StatusOther _ => false end.

Definition Active (s : Status) : bool := bool_decide (s = StatusActive).

(** ** provider.go, location.go, configuration.go *)

Record Provider := MkProvider {
  p_ID : uuid;
  p_Name : string;
  p_Slug : string;
  p_APIBaseURL : string;
  p_Status : Status;
  p_AttributionText : string;
  p_AttributionURL : string;
  p_CreatedAt : Time;
  p_UpdatedAt : Time
}.

Record Location := MkLocation {
  l_ID : uuid;
  l_WorkspaceID : uuid;
  l_Name : string;
  l_Latitude : float64;
  l_Longitude : float64;
  l_CountryCode : string;
  l_Timezone : string;
  l_Status : Status;
  l_CreatedAt : Time;
  l_UpdatedAt : Time
}.

Record Schedule := MkSchedule { Interval : string; MinuteOffset : Z }.

Record ProviderConfiguration := MkConfiguration {
  cfg_ID : uuid;
  cfg_WorkspaceID : uuid;
  cfg_ProviderID : uuid;
  cfg_Status : Status;
  cfg_CredentialRef : string;
  cfg_CollectionSchedule : Schedule;
  cfg_AdapterVersion : string;
  cfg_ValidationState : string;
  cfg_CreatedAt : Time;
  cfg_UpdatedAt : Time
}.

(** catalog.go *)
Record Actor := MkActor { UserID : option uuid; Name : string; IPAddress : string }.

Definition DefaultSchedule : Schedule := MkSchedule "hourly" 0.

Definition Schedule_Valid (s : Schedule) : bool :=
  String.eqb (Interval s) "hourly" && (0 <=? MinuteOffset s) && (MinuteOffset s <=? 59).

(** The loop of [SlotTimes]. *)
Fixpoint slotLoop (fuel : nat) (cursor to : Time) : list Time :=
  match fuel with
  | O => []
  | S fuel => if Before cursor to then cursor :: slotLoop fuel (Add cursor Hour) to else []
  end.

(** The first cursor: the hour of [from] shifted by the offset, or the next. *)
Definition firstSlot (s : Schedule) (from : Time) : Time :=
  let cursor := Add (Truncate from Hour) (MinuteOffset s * Minute) in
  if Before cursor from then Add cursor Hour else cursor.

(** One step per hour of the window is enough fuel ([slot_times_exact] needs every
    slot to be there). *)
Definition SlotTimes (s : Schedule) (from to : Time) : list Time :=
  if negb (Schedule_Valid s) || negb (After to from) then []
  else slotLoop (Z.to_nat ((to - from) / Hour + 1)) (firstSlot s from) to.

(** ** What the slots are *)

Lemma Hour_pos : 0 < Hour.
Proof. reflexivity. Qed.

(** [t] is an instant of the cadence: [offset] minutes past an hour. *)
Definition on_schedule (s : Schedule) (t : Time) : Prop := t mod Hour = MinuteOffset s * Minute.

Lemma slotLoop_elem fuel c to t :
  to <= c + Z.of_nat fuel * Hour ->
  t ∈ slotLoop fuel c to <-> exists k, 0 <= k /\ t = c + k * Hour /\ t < to.
Proof.
  revert c. induction fuel as [|fuel IH]; intros c Hf.
  - cbn. rewrite elem_of_nil. split; [easy|]. intros (k & Hk & -> & Ht). pose proof Hour_pos. nia.
  - cbn [slotLoop]. unfold Before, Add. destruct (c <? to) eqn:E; bool_simp.
    + rewrite elem_of_cons, IH by lia. split.
      * intros [->|(k & Hk & -> & Ht)]; [exists 0|exists (k + 1)]; (split; [lia|]; split; [ring|lia]).
      * intros (k & Hk & -> & Ht). destruct (Z.eq_dec k 0) as [->|]; [left; ring|].
        right. exists (k - 1). split; [lia|]. split; [ring|lia].
    + rewrite elem_of_nil. split; [easy|]. intros (k & Hk & -> & Ht). pose proof Hour_pos. nia.
Qed.

Lemma slotLoop_sorted fuel c to : StronglySorted Z.lt (slotLoop fuel c to).
Proof.
  revert c. induction fuel as [|fuel IH]; intros c; cbn [slotLoop]; [constructor|].
  unfold Before, Add. destruct (c <? to); [|constructor]. constructor; [apply IH|].
  assert (G : forall n c', c < c' -> Forall (Z.lt c) (slotLoop n c' to)).
  { clear. induction n as [|n IHn]; intros c' Hc; cbn [slotLoop]; [constructor|].
    unfold Before, Add. destruct (c' <? to); constructor; [lia|]. apply IHn. pose proof Hour_pos. lia. }
  apply G. pose proof Hour_pos. lia.
Qed.

Lemma firstSlot_spec s from :
  Schedule_Valid s = true ->
  on_schedule s (firstSlot s from) /\ from <= firstSlot s from < from + Hour.
Proof.
  unfold Schedule_Valid. intros V. bool_simp. unfold firstSlot, Before, Add, on_schedule.
  pose proof (Truncate_hour_bounds from) as B. set (h := Truncate from Hour) in *.
  assert (O : 0 <= MinuteOffset s * Minute < Hour) by (unfold Hour, Minute, Second; lia).
  assert (Md : forall k, (h + MinuteOffset s * Minute + k * Hour) mod Hour = MinuteOffset s * Minute).
  { intros k. unfold h. rewrite Truncate_hour. pose proof (Z.div_mod from Hour ltac:(discriminate)) as E.
    replace (_ + _ + _) with (MinuteOffset s * Minute + (from / Hour + k) * Hour) by lia.
    rewrite Z.mod_add by discriminate. now apply Z.mod_small. }
  destruct (h + MinuteOffset s * Minute <? from) eqn:E; bool_simp; (split; [|lia]).
  - specialize (Md 1). now rewrite Z.mul_1_l in Md.
  - specialize (Md 0). now rewrite Z.mul_0_l, Z.add_0_r in Md.
Qed.

Lemma slot_times_spec s from to :
  StronglySorted Z.lt (SlotTimes s from to) /\
  (forall t, t ∈ SlotTimes s from to <->
     Schedule_Valid s = true /\ from <= t < to /\ on_schedule s t).
Proof.
  unfold SlotTimes, After. destruct (Schedule_Valid s) eqn:V; cbn [negb orb].
  2:{ split; [constructor|]. intros t. rewrite elem_of_nil. split; [easy|]. now intros [? _]. }
  destruct (from <? to) eqn:L; cbn [negb]; bool_simp.
  2:{ split; [constructor|]. intros t. rewrite elem_of_nil. split; [easy|]. intros (_ & ? & _). lia. }
  split; [apply slotLoop_sorted|]. intros t. destruct (firstSlot_spec s from V) as [O B].
  rewrite slotLoop_elem.
  - split.
    + intros (k & Hk & -> & Ht). split; [reflexivity|]. split; [pose proof Hour_pos; nia|].
      unfold on_schedule in *. now rewrite Z.mod_add.
    + intros (_ & Ht & Hm). exists ((t - firstSlot s from) / Hour).
      assert (E : (t - firstSlot s from) mod Hour = 0).
      { rewrite Zminus_mod. unfold on_schedule in *. rewrite Hm, O, Z.sub_diag. reflexivity. }
      apply Z.div_exact in E; [|discriminate]. set (q := (t - firstSlot s from) / Hour) in *. clearbody q.
      split; [|split; lia]. pose proof Hour_pos. nia.
  - pose proof (Z.div_mod (to - from) Hour ltac:(discriminate)) as E.
    pose proof (Z.mod_pos_bound (to - from) Hour Hour_pos). pose proof (Z.div_pos (to - from) Hour). lia.
Qed.

Lemma slot_times_elem s from to t :
  Schedule_Valid s = true -> from <= t < to -> on_schedule s t -> t ∈ SlotTimes s from to.
Proof. intros V B O. apply (proj2 (slot_times_spec s from to)). auto. Qed.

(** ** Theorems *)


(** Note: the slots of a supported cadence in [[from, to)] are exactly the instants of
    the window at the cadence's minute of an hour, each once, in increasing order;
    an unsupported cadence has none. *)
Theorem slot_times_exact s from to :
  StronglySorted Z.lt (SlotTimes s from to) /\
  (forall t, t ∈ SlotTimes s from to <->
     Schedule_Valid s = true /\ from <= t < to /\ on_schedule s t).
Proof. apply slot_times_spec. Qed.

End Catalog.
