(* ===== verification/CatalogService.v ===== *)
(** * The catalog services ([internal/catalog])

    Location, provider and configuration management on the tables of
    [catalogpg]: every mutation runs in one transaction with its audit record.
    Domain errors are values ([CatalogError]); a statement that a constraint
    rejects without a domain error of its own is an [Error].  Trigonometry, the IANA
    database behind [time.LoadLocation] and [uuid.Parse] are parameters; audit
    timestamps, the [updated_at] triggers and the rounding of [numeric(9,6)] are
    left out. *)

From Stdlib Require Import ZArith Lia Bool String.
From stdpp Require Import base list strings sorting.
From S2P Require Import Prelude Float64 GoTime Uuid GoStrings Effects Keyset Catalog.

Import Catalog.
Local Open Scope string_scope.
Local Open Scope list_scope.
Local Open Scope Z_scope.

Module CatalogService.

(** ** What the code takes from outside *)

(** [math.Sin], [math.Cos], [math.Atan2]. *)
Class Trig := {
  Sin : float64 -> float64;
  Cos : float64 -> float64;
  Atan2 : float64 -> float64 -> float64;
}.

(** [time.LoadLocation] knows the zone; [ids.Parse] reads a UUID's text. *)
Class Lookups := {
  LoadLocation : string -> bool;
  ids_Parse : string -> option uuid;
}.

(** ** domain/errors.go *)

Record FieldError := MkFieldError { Field : string; Message : string }.

Inductive CatalogError :=
| ErrNotFound
| ValidationError (Fields : list FieldError)
| DuplicateLocationError (ExistingID : uuid) (ExistingName : string) (DistanceDegrees : float64)
| NameConflictError (Name : string)
| StatusTransitionError (From To : Status).

(** [ve.Add] under a condition; [ErrorOrNil] is the test on the collected list. *)
Definition add (b : bool) (field message : string) : list FieldError := if b then [MkFieldError field message] else [].

(** ** domain/location.go *)

Definition DedupThresholdDegrees : float64 := f64_lit 5 100.
Definition dedupTolerance : float64 := f64_lit 1 1000000000.
(** [math.Pi], the nearest binary64. *)
Definition Pi : float64 := SpecFloat.S754_finite false 7074237752028440 (-51).
(** The constants [math.Pi/180] and [DedupThresholdDegrees-dedupTolerance] are
    exact rationals rounded once. *)
Definition deg2rad : float64 := SpecFloat.S754_finite false 5030569068109113 (-58).
Definition dedupBound : float64 := f64_lit 49999999 1000000000.

Definition ValidateCreation `{Lookups} (l : Location) : list FieldError :=
  (if blank (l_Name l) then add true "name" "must not be empty"
   else add (120 <? Z.of_nat (String.length (l_Name l))) "name" "must be at most 120 characters")
  ++ add (fltb (l_Latitude l) (f64_of_Z (-90)) || fltb (f64_of_Z 90) (l_Latitude l)) "latitude" "must be between -90 and 90"
  ++ add (fltb (l_Longitude l) (f64_of_Z (-180)) || fltb (f64_of_Z 180) (l_Longitude l)) "longitude" "must be between -180 and 180"
  ++ add (negb (Nat.eqb (String.length (l_CountryCode l)) 2) || negb (isAlpha (l_CountryCode l))) "country_code"
       "must be a two-letter uppercase ISO 3166-1 alpha-2 code"
  ++ (if blank (l_Timezone l) then add true "timezone" "must not be empty"
      else add (negb (LoadLocation (l_Timezone l))) "timezone" "must be a valid IANA timezone identifier")
  ++ add (negb (Status_Valid (l_Status l))) "status" "must be one of active|disabled|archived".

Definition IsNearDuplicate (distanceDegrees : float64) : bool := fltb distanceDegrees dedupBound.

Definition HaversineDegrees `{Trig} (lat1 lon1 lat2 lon2 : float64) : float64 :=
  (let two := f64_of_Z 2 in
   let phi1 := lat1 * deg2rad in
   let phi2 := lat2 * deg2rad in
   let dPhi := (lat2 - lat1) * deg2rad in
   let dLambda := (lon2 - lon1) * deg2rad in
   let a := Sin (dPhi / two) * Sin (dPhi / two) + Cos phi1 * Cos phi2 * Sin (dLambda / two) * Sin (dLambda / two) in
   let a := if fltb f1 a then f1 else a in
   let c := two * Atan2 (fsqrt a) (fsqrt (f1 - a)) in
   c * f64_of_Z 180 / Pi)%f64.

(** ** domain/provider.go *)

Definition Provider_Validate (p : Provider) : list FieldError :=
  add (blank (p_Name p)) "name" "must not be empty"
  ++ add (blank (p_Slug p)) "slug" "must not be empty"
  ++ add (blank (p_APIBaseURL p)) "api_base_url" "must not be empty"
  ++ add (blank (p_AttributionText p)) "attribution_text" "must not be empty (BR-ATTR-01)"
  ++ add (blank (p_AttributionURL p)) "attribution_url" "must not be empty (BR-ATTR-01)"
  ++ add (negb (Status_Valid (p_Status p))) "status" "must be one of active|disabled|archived".

(** ** catalog.go *)

Record PageInfo := MkPage { HasMore : bool; NextCursor : string }.

Record CreateLocationInput := MkCreateLocation {
  ci_WorkspaceID : uuid;
  ci_Name : string;
  ci_Latitude : float64;
  ci_Longitude : float64;
  ci_CountryCode : string;
  ci_Timezone : string;
  ci_AllowNearDuplicate : bool;
  ci_OverrideReason : string;
  ci_Actor : Actor
}.

Record UpdateLocationInput := MkUpdateLocation { ui_Name : option string; ui_Actor : Actor }.

Record ListLocationsInput := MkListLocations { li_Active : option bool; li_Cursor : string; li_Limit : Z }.

(** seed.go *)
Definition SystemWorkspaceID : uuid := 1%N.

(** ** The tables, and catalogpg *)

Record AuditEvent := MkAuditEvent {
  ae_UserID : option uuid;
  ae_Action : string;
  ae_ResourceType : string;
  ae_ResourceID : uuid;
  ae_IPAddress : string;
  ae_Details : list (string * string)
}.

Record CatalogTables := MkCatalog {
  t_workspaces : list uuid;
  t_locations : list Location;
  t_providers : list Provider;
  t_configurations : list ProviderConfiguration;
  t_audit : list AuditEvent
}.

Definition with_locations (d : CatalogTables) (ls : list Location) : CatalogTables :=
  MkCatalog (t_workspaces d) ls (t_providers d) (t_configurations d) (t_audit d).
Definition with_providers (d : CatalogTables) (ps : list Provider) : CatalogTables :=
  MkCatalog (t_workspaces d) (t_locations d) ps (t_configurations d) (t_audit d).
Definition with_configurations (d : CatalogTables) (cs : list ProviderConfiguration) : CatalogTables :=
  MkCatalog (t_workspaces d) (t_locations d) (t_providers d) cs (t_audit d).

Definition active_location (l : Location) : bool := Active (l_Status l).

Definition set_name (l : Location) (n : string) : Location :=
  MkLocation (l_ID l) (l_WorkspaceID l) n (l_Latitude l) (l_Longitude l) (l_CountryCode l) (l_Timezone l) (l_Status l)
    (l_CreatedAt l) (l_UpdatedAt l).
Definition set_status (l : Location) (s : Status) : Location :=
  MkLocation (l_ID l) (l_WorkspaceID l) (l_Name l) (l_Latitude l) (l_Longitude l) (l_CountryCode l) (l_Timezone l) s
    (l_CreatedAt l) (l_UpdatedAt l).

(** [locations_active_name_uidx]: another active row has the workspace and name. *)
Definition name_taken (ls : list Location) (l : Location) : bool :=
  active_location l &&
  existsb (fun x => active_location x && negb (N.eqb (l_ID x) (l_ID l)) && N.eqb (l_WorkspaceID x) (l_WorkspaceID l)
                    && String.eqb (l_Name x) (l_Name l)) ls.

(** The CHECKs, the enum and the width of [locations]. *)
Definition location_check (l : Location) : bool :=
  fleb (f64_of_Z (-90)) (l_Latitude l) && fleb (l_Latitude l) (f64_of_Z 90)
  && fleb (f64_of_Z (-180)) (l_Longitude l) && fleb (l_Longitude l) (f64_of_Z 180)
  && (String.length (l_CountryCode l) <=? 2)%nat && Status_Valid (l_Status l).

Definition pg_InsertLocation (l : Location) (d : CatalogTables) : option (CatalogTables * (CatalogError + unit)) :=
  if name_taken (t_locations d) l then Some (d, inl (NameConflictError (l_Name l)))
  else if existsb (fun x => N.eqb (l_ID x) (l_ID l)) (t_locations d) || negb (location_check l)
          || negb (bool_decide (l_WorkspaceID l ∈ t_workspaces d)) then None
  else Some (with_locations d (t_locations d ++ [l]), inr tt).

Definition pg_GetLocation (id : uuid) (d : CatalogTables) : option Location :=
  List.find (fun l => N.eqb (l_ID l) id) (t_locations d).

Definition pg_ListLocations (active : option bool) (cursor : uuid) (limit : Z) (d : CatalogTables) : list Location :=
  keyset_rows l_ID (fun l => match active with Some b => Bool.eqb (active_location l) b | None => true end) cursor limit (t_locations d).

Definition pg_ListActive (d : CatalogTables) : list Location := keyset l_ID active_location (t_locations d).

(** [UPDATE locations SET name = $2, timezone = $3 WHERE id = $1] *)
Definition update_row (l x : Location) : Location :=
  if N.eqb (l_ID x) (l_ID l)
  then MkLocation (l_ID x) (l_WorkspaceID x) (l_Name l) (l_Latitude x) (l_Longitude x) (l_CountryCode x) (l_Timezone l)
         (l_Status x) (l_CreatedAt x) (l_UpdatedAt x)
  else x.

Definition pg_UpdateLocation (l : Location) (d : CatalogTables) : option (CatalogTables * (CatalogError + unit)) :=
  let ls := update_row l <$> t_locations d in
  if existsb (name_taken ls) ls then Some (d, inl (NameConflictError (l_Name l)))
  else Some (with_locations d ls, inr tt).

(** [UPDATE locations SET status = $2 WHERE id = $1]; a conflict has no domain error
    here. *)
Definition pg_UpdateStatus (id : uuid) (s : Status) (d : CatalogTables) : option (CatalogTables * unit) :=
  let ls := (fun x => if N.eqb (l_ID x) id then set_status x s else x) <$> t_locations d in
  if existsb (name_taken ls) ls || negb (Status_Valid s) then None else Some (with_locations d ls, tt).

Definition pg_GetProvider (id : uuid) (d : CatalogTables) : option Provider :=
  List.find (fun p => N.eqb (p_ID p) id) (t_providers d).

Definition pg_GetProviderBySlug (slug : string) (d : CatalogTables) : option Provider :=
  List.find (fun p => String.eqb (p_Slug p) slug) (t_providers d).

Definition set_provider_status (p : Provider) (s : Status) (now : Time) : Provider :=
  MkProvider (p_ID p) (p_Name p) (p_Slug p) (p_APIBaseURL p) s (p_AttributionText p) (p_AttributionURL p) (p_CreatedAt p) now.

Definition pg_SetProviderStatus (id : uuid) (s : Status) (now : Time) (d : CatalogTables)
    : option (CatalogTables * (CatalogError + unit)) :=
  if negb (Status_Valid s) then None
  else if existsb (fun p => N.eqb (p_ID p) id) (t_providers d)
  then Some (with_providers d ((fun p => if N.eqb (p_ID p) id then set_provider_status p s now else p) <$> t_providers d), inr tt)
  else Some (d, inl ErrNotFound).

Definition created_le (a b : ProviderConfiguration) : Prop := cfg_CreatedAt a <= cfg_CreatedAt b.
#[export] Instance created_le_dec a b : Decision (created_le a b).
Proof. unfold created_le. apply _. Defined.

Definition pg_GetConfiguration (id : uuid) (d : CatalogTables) : option ProviderConfiguration :=
  List.find (fun c => N.eqb (cfg_ID c) id) (t_configurations d).

Definition pg_GetConfigurationByProvider (providerID : uuid) (d : CatalogTables) : option ProviderConfiguration :=
  head (merge_sort created_le (List.filter (fun c => N.eqb (cfg_ProviderID c) providerID) (t_configurations d))).

Definition pg_ListConfigurations (d : CatalogTables) : list ProviderConfiguration :=
  merge_sort created_le (t_configurations d).

Definition pg_ListActiveConfigurations (d : CatalogTables) : list ProviderConfiguration :=
  merge_sort created_le (List.filter (fun c => Active (cfg_Status c)) (t_configurations d)).

(** The row an update writes; the credential reference is never touched. *)
Definition update_config (c x : ProviderConfiguration) : ProviderConfiguration :=
  if N.eqb (cfg_ID x) (cfg_ID c)
  then MkConfiguration (cfg_ID x) (cfg_WorkspaceID x) (cfg_ProviderID x) (cfg_Status c) (cfg_CredentialRef x)
         (cfg_CollectionSchedule c) (cfg_AdapterVersion c) (cfg_ValidationState c) (cfg_CreatedAt x) (cfg_UpdatedAt c)
  else x.

Definition validation_states : list string := ["unvalidated"; "validated"; "failed"].

Definition pg_UpdateConfiguration (c : ProviderConfiguration) (d : CatalogTables)
    : option (CatalogTables * (CatalogError + unit)) :=
  if existsb (fun x => N.eqb (cfg_ID x) (cfg_ID c)) (t_configurations d)
  then if existsb (String.eqb (cfg_ValidationState c)) validation_states && Status_Valid (cfg_Status c)
       then Some (with_configurations d (update_config c <$> t_configurations d), inr tt)
       else None
  else Some (d, inl ErrNotFound).

(** The constraints of a configuration row: enum, CHECK, references, and one row per
    workspace and provider. *)
Definition config_check (d : CatalogTables) (c : ProviderConfiguration) : bool :=
  existsb (String.eqb (cfg_ValidationState c)) validation_states && Status_Valid (cfg_Status c)
  && bool_decide (cfg_WorkspaceID c ∈ t_workspaces d) && existsb (fun p => N.eqb (p_ID p) (cfg_ProviderID c)) (t_providers d)
  && negb (existsb (fun x => negb (N.eqb (cfg_ID x) (cfg_ID c)) && N.eqb (cfg_WorkspaceID x) (cfg_WorkspaceID c)
                             && N.eqb (cfg_ProviderID x) (cfg_ProviderID c)) (t_configurations d)).

(** Boot-time seeding: [ON CONFLICT (id) DO NOTHING]. *)
Definition pg_SeedConfiguration (c : ProviderConfiguration) (d : CatalogTables) : option (CatalogTables * unit) :=
  if existsb (fun x => N.eqb (cfg_ID x) (cfg_ID c)) (t_configurations d) then Some (d, tt)
  else if config_check d c then Some (with_configurations d (t_configurations d ++ [c]), tt) else None.

(** [ON CONFLICT (id) DO UPDATE]: unlike an update, it also writes the credential
    reference, and it keeps workspace, provider and creation time. *)
Definition pg_UpsertConfiguration (c : ProviderConfiguration) (d : CatalogTables) : option (CatalogTables * unit) :=
  if existsb (fun x => N.eqb (cfg_ID x) (cfg_ID c)) (t_configurations d)
  then if existsb (String.eqb (cfg_ValidationState c)) validation_states && Status_Valid (cfg_Status c)
       then Some (with_configurations d ((fun x =>
              if N.eqb (cfg_ID x) (cfg_ID c)
              then MkConfiguration (cfg_ID x) (cfg_WorkspaceID x) (cfg_ProviderID x) (cfg_Status c) (cfg_CredentialRef c)
                     (cfg_CollectionSchedule c) (cfg_AdapterVersion c) (cfg_ValidationState c) (cfg_CreatedAt x) (cfg_UpdatedAt c)
              else x) <$> t_configurations d), tt)
       else None
  else if config_check d c then Some (with_configurations d (t_configurations d ++ [c]), tt) else None.

(** The slug of an existing row is kept; a new row needs a free slug. *)
Definition pg_UpsertProvider (p : Provider) (d : CatalogTables) : option (CatalogTables * unit) :=
  if negb (Status_Valid (p_Status p)) then None
  else if existsb (fun x => N.eqb (p_ID x) (p_ID p)) (t_providers d)
  then Some (with_providers d ((fun x =>
         if N.eqb (p_ID x) (p_ID p)
         then MkProvider (p_ID x) (p_Name p) (p_Slug x) (p_APIBaseURL p) (p_Status p) (p_AttributionText p) (p_AttributionURL p)
                (p_CreatedAt x) (p_UpdatedAt p)
         else x) <$> t_providers d), tt)
  else if existsb (fun x => String.eqb (p_Slug x) (p_Slug p)) (t_providers d) then None
  else Some (with_providers d (t_providers d ++ [p]), tt).

(** ** The services *)

Definition status_string (s : Status) : string :=
  match s with StatusActive => "active" | StatusDisabled => "disabled" | StatusArchived => "archived" | StatusOther x => x end.

Definition actorName (a : Actor) : string :=
  if negb (String.eqb (Name a) "") then Name a
  else match UserID a with Some u => Uuid.to_string u | None => "system" end.

Definition bool_string (b : bool) : string := if b then "true" else "false".

Record UpdateConfigInput := MkUpdateConfig {
  uc_Status : option Status;
  uc_MinuteOffset : option Z;
  uc_AdapterVersion : option string;
  uc_ValidationState : option string
}.

Section Services.
Context `{Env} `{Trig} `{Lookups}.

Abbreviation S A := (M CatalogTables (CatalogError + A)).

Definition found {A} (o : option A) : CatalogError + A := match o with Some a => inr a | None => inl ErrNotFound end.

(** [recorder.Record] in the caller's transaction. *)
Definition Record_ (e : AuditEvent) : S unit :=
  dbcall "insert audit event" (fun d =>
    (MkCatalog (t_workspaces d) (t_locations d) (t_providers d) (t_configurations d) (t_audit d ++ [e]), inr tt)).

Definition AcquireDedupLock : S unit := query "acquire dedup lock" (fun _ => inr tt).

Definition GetLocation (id : uuid) : S Location := query "scan location" (fun d => found (pg_GetLocation id d)).

Definition ListActiveLocations : S (list Location) := query "list active locations" (fun d => inr (pg_ListActive d)).

(** The loop over the active locations: the first one too close. *)
Definition find_duplicate (loc : Location) (active : list Location) : option CatalogError :=
  foldr (fun e k =>
    let dist := HaversineDegrees (l_Latitude loc) (l_Longitude loc) (l_Latitude e) (l_Longitude e) in
    if IsNearDuplicate dist then Some (DuplicateLocationError (l_ID e) (l_Name e) dist) else k) None active.

Definition createTx (inp : CreateLocationInput) (loc : Location) : S unit :=
  AcquireDedupLock ;;!
  active <-! ListActiveLocations ;;
  match (if ci_AllowNearDuplicate inp then None else find_duplicate loc active) with
  | Some e => ret (inl e)
  | None =>
      dbexec "location write" (pg_InsertLocation loc) ;;!
      Record_ (MkAuditEvent (UserID (ci_Actor inp)) "location.create" "location" (l_ID loc) (IPAddress (ci_Actor inp))
        [("actor", actorName (ci_Actor inp)); ("name", l_Name loc);
         ("allow_near_duplicate", bool_string (ci_AllowNearDuplicate inp)); ("override_reason", ci_OverrideReason inp)])
  end.

Definition CreateLocation (inp : CreateLocationInput) (now : Time) : S Location :=
  id <-- fresh ;;
  let workspaceID := if N.eqb (ci_WorkspaceID inp) uuid_Nil then SystemWorkspaceID else ci_WorkspaceID inp in
  let loc := MkLocation id workspaceID (ci_Name inp) (ci_Latitude inp) (ci_Longitude inp) (ci_CountryCode inp)
    (ci_Timezone inp) StatusActive now now in
  match ValidateCreation loc with
  | _ :: _ as fs => ret (inl (ValidationError fs))
  | [] =>
  if ci_AllowNearDuplicate inp && blank (ci_OverrideReason inp)
  then ret (inl (ValidationError [MkFieldError "override_reason" "required when allow_near_duplicate is true"])) else
  tx_runE (createTx inp loc) ;;!
  ret (inr loc)
  end.

Definition ListLocations (inp : ListLocationsInput) : S (list Location * PageInfo) :=
  let limit := page_limit (li_Limit inp) in
  match (if String.eqb (li_Cursor inp) "" then Some uuid_Nil else ids_Parse (li_Cursor inp)) with
  | None => ret (inl (ValidationError [MkFieldError "cursor" "must be a valid UUID"]))
  | Some cursor =>
  rows <-- query "list locations" (pg_ListLocations (li_Active inp) cursor limit) ;;
  let '(rows, more, next) := cut_page l_ID limit rows in
  ret (inr (rows, MkPage more next))
  end.

Definition UpdateLocation (id : uuid) (inp : UpdateLocationInput) : S Location :=
  tx_runE (
    loc <-! GetLocation id ;;
    let '(loc, changes) := match ui_Name inp with Some n => (set_name loc n, n) | None => (loc, "") end in
    match ValidateCreation loc with
    | _ :: _ as fs => ret (inl (ValidationError fs))
    | [] =>
    dbexec "location write" (pg_UpdateLocation loc) ;;!
    Record_ (MkAuditEvent (UserID (ui_Actor inp)) "location.update" "location" (l_ID loc) (IPAddress (ui_Actor inp))
      [("actor", actorName (ui_Actor inp)); ("changes.name", changes)]) ;;!
    ret (inr loc)
    end).

Definition SetLocationStatus (id : uuid) (status : Status) (actor : Actor) : S Location :=
  if negb (Settable status) then ret (inl (ValidationError [MkFieldError "status" "must be one of active|disabled"])) else
  tx_runE (
    loc <-! GetLocation id ;;
    if bool_decide (l_Status loc = status) then ret (inl (StatusTransitionError (l_Status loc) status)) else
    dbexec "update location status" (pg_UpdateStatus id status) ;;;
    Record_ (MkAuditEvent (UserID actor) "location.set_status" "location" id (IPAddress actor)
      [("actor", actorName actor); ("status", status_string status)]) ;;!
    ret (inr (set_status loc status))).

Definition GetProvider (id : uuid) : S Provider := query "scan provider" (fun d => found (pg_GetProvider id d)).
Definition GetProviderBySlug (slug : string) : S Provider := query "scan provider" (fun d => found (pg_GetProviderBySlug slug d)).

Definition SetProviderStatus (id : uuid) (status : Status) (actor : Actor) (now : Time) : S Provider :=
  if negb (Settable status) then ret (inl (ValidationError [MkFieldError "status" "must be one of active|disabled"])) else
  tx_runE (
    GetProvider id ;;!
    dbexec "set provider status" (pg_SetProviderStatus id status now) ;;!
    p <-! GetProvider id ;;
    Record_ (MkAuditEvent (UserID actor) "provider.set_status" "provider" id (IPAddress actor)
      [("status", status_string status); ("actor", Name actor)]) ;;!
    ret (inr p)).

Definition GetConfiguration (id : uuid) : S ProviderConfiguration :=
  query "scan configuration" (fun d => found (pg_GetConfiguration id d)).
Definition GetConfigurationByProviderID (id : uuid) : S ProviderConfiguration :=
  query "scan configuration" (fun d => found (pg_GetConfigurationByProvider id d)).
Definition ListActiveConfigurations : S (list ProviderConfiguration) :=
  query "list active configurations" (fun d => inr (pg_ListActiveConfigurations d)).
Definition ListConfigurations : S (list ProviderConfiguration) :=
  query "list configurations" (fun d => inr (pg_ListConfigurations d)).

Definition or_else {A} (o : option A) (a : A) : A := match o with Some x => x | None => a end.
Definition named {A} (o : option A) (n : string) : list string := match o with Some _ => [n] | None => [] end.

Definition UpdateConfiguration (id : uuid) (inp : UpdateConfigInput) (actor : Actor) (now : Time) : S ProviderConfiguration :=
  match add (match uc_Status inp with Some s => negb (Settable s) | None => false end) "status" "must be one of active|disabled"
        ++ add (match uc_MinuteOffset inp with Some m => (m <? 0) || (59 <? m) | None => false end) "minute_offset"
             "must be between 0 and 59" with
  | _ :: _ as fs => ret (inl (ValidationError fs))
  | [] =>
  tx_runE (
    c <-! GetConfiguration id ;;
    let c := MkConfiguration (cfg_ID c) (cfg_WorkspaceID c) (cfg_ProviderID c) (or_else (uc_Status inp) (cfg_Status c))
      (cfg_CredentialRef c)
      (MkSchedule (Interval (cfg_CollectionSchedule c)) (or_else (uc_MinuteOffset inp) (MinuteOffset (cfg_CollectionSchedule c))))
      (or_else (uc_AdapterVersion inp) (cfg_AdapterVersion c)) (or_else (uc_ValidationState inp) (cfg_ValidationState c))
      (cfg_CreatedAt c) now in
    dbexec "update configuration" (pg_UpdateConfiguration c) ;;!
    Record_ (MkAuditEvent (UserID actor) "provider_configuration.update" "provider_configuration" id (IPAddress actor)
      [("fields", String.concat "," (named (uc_Status inp) "status" ++ named (uc_MinuteOffset inp) "minute_offset"
          ++ named (uc_AdapterVersion inp) "adapter_version" ++ named (uc_ValidationState inp) "validation_state"));
       ("actor", Name actor)]) ;;!
    ret (inr c))
  end.
End Services.

End CatalogService.
