(* ===== verification/CatalogProps.v ===== *)
(** * Properties of the catalog services

    Every mutation is all or nothing together with its audit record; what the
    tables hold stays valid, unique and immutable where it must; the keyset pages of
    the location list cover the table. *)

From Stdlib Require Import ZArith Lia Bool String Sorting.Sorted.
From stdpp Require Import base list strings sorting.
From S2P Require Import Prelude Float64 GoTime Uuid GoStrings Effects Keyset Catalog CatalogService.

Import Catalog CatalogService.
Local Open Scope string_scope.
Local Open Scope list_scope.
Local Open Scope Z_scope.

Module CatalogProps.

(** ** Mutations *)

Inductive Command :=
| CmdCreate (inp : CreateLocationInput)
| CmdUpdate (id : uuid) (inp : UpdateLocationInput)
| CmdStatus (id : uuid) (s : Status) (actor : Actor)
| CmdProvider (id : uuid) (s : Status) (actor : Actor)
| CmdConfig (id : uuid) (inp : UpdateConfigInput) (actor : Actor).

(** The resource a command returns. *)
Inductive Resource := ResLocation (l : Location) | ResProvider (p : Provider) | ResConfig (c : ProviderConfiguration).

Definition res_id (r : Resource) : uuid :=
  match r with ResLocation l => l_ID l | ResProvider p => p_ID p | ResConfig c => cfg_ID c end.

Section Run.
Context `{Env} `{Trig} `{Lookups}.

Definition run (c : Command) (now : Time) : M CatalogTables (CatalogError + Resource) :=
  match c with
  | CmdCreate inp => l <-! CreateLocation inp now ;; ret (inr (ResLocation l))
  | CmdUpdate id inp => l <-! UpdateLocation id inp ;; ret (inr (ResLocation l))
  | CmdStatus id s a => l <-! SetLocationStatus id s a ;; ret (inr (ResLocation l))
  | CmdProvider id s a => p <-! SetProviderStatus id s a now ;; ret (inr (ResProvider p))
  | CmdConfig id inp a => x <-! UpdateConfiguration id inp a now ;; ret (inr (ResConfig x))
  end.

Definition action (c : Command) : string :=
  match c with
  | CmdCreate _ => "location.create" | CmdUpdate _ _ => "location.update" | CmdStatus _ _ _ => "location.set_status"
  | CmdProvider _ _ _ => "provider.set_status" | CmdConfig _ _ _ => "provider_configuration.update"
  end.

(** What a command's transaction does to the tables when it commits. *)
Inductive effect : CatalogTables -> CatalogTables -> Resource -> Prop :=
| eff_create d l d1 :
    ValidateCreation l = [] -> l_Status l = StatusActive ->
    pg_InsertLocation l d = Some (d1, inr tt) -> effect d d1 (ResLocation l)
| eff_update d l l0 d1 :
    pg_GetLocation (l_ID l) d = Some l0 -> (exists n, l = set_name l0 n) -> ValidateCreation l = [] ->
    pg_UpdateLocation l d = Some (d1, inr tt) -> effect d d1 (ResLocation l)
| eff_status d l0 s d1 :
    pg_GetLocation (l_ID l0) d = Some l0 -> Settable s = true -> l_Status l0 <> s ->
    pg_UpdateStatus (l_ID l0) s d = Some (d1, tt) -> effect d d1 (ResLocation (set_status l0 s))
| eff_provider d p s now d1 :
    Settable s = true -> pg_SetProviderStatus (p_ID p) s now d = Some (d1, inr tt) ->
    pg_GetProvider (p_ID p) d1 = Some p -> effect d d1 (ResProvider p)
| eff_config d c c0 d1 :
    pg_GetConfiguration (cfg_ID c) d = Some c0 -> cfg_CredentialRef c = cfg_CredentialRef c0 ->
    (Schedule_Valid (cfg_CollectionSchedule c0) = true -> Schedule_Valid (cfg_CollectionSchedule c) = true) ->
    pg_UpdateConfiguration c d = Some (d1, inr tt) -> effect d d1 (ResConfig c).

(** Who gives a command. *)
Definition cmd_actor (c : Command) : Actor :=
  match c with
  | CmdCreate inp => ci_Actor inp | CmdUpdate _ inp => ui_Actor inp
  | CmdStatus _ _ a | CmdProvider _ _ a | CmdConfig _ _ a => a
  end.

(** The committed tables: the effect, and one audit record for it. *)
Definition audited (c : Command) (d d' : CatalogTables) (r : Resource) : Prop :=
  exists d1 e, effect d d1 r /\
    d' = MkCatalog (t_workspaces d1) (t_locations d1) (t_providers d1) (t_configurations d1) (t_audit d ++ [e]) /\
    ae_Action e = action c /\ ae_ResourceID e = res_id r /\
    ae_UserID e = UserID (cmd_actor c) /\ ae_IPAddress e = IPAddress (cmd_actor c).

(** *** Reading off a successful run *)

Lemma dbcall_ok {D A} op (f : D -> D * A) w w' a :
  dbcall op f w = (w', Ok a) -> f (db w) = (db w', a).
Proof. unfold dbcall. destruct (fault _); [discriminate|]. destruct (f (db w)). now intros [= <- <-]. Qed.

Lemma query_ok {D A} op (f : D -> A) w w' a : query op f w = (w', Ok a) -> db w' = db w /\ a = f (db w).
Proof. intros E. apply dbcall_ok in E. injection E as -> ->. auto. Qed.

Lemma dbexec_ok {D A} op (f : D -> option (D * A)) w w' a :
  dbexec op f w = (w', Ok a) -> f (db w) = Some (db w', a).
Proof. unfold dbexec. destruct (fault _); [discriminate|]. destruct (f (db w)) as [[d x]|]; [|discriminate]. now intros [= <- <-]. Qed.

Lemma ret_ok {D A} (a b : A) (w w' : World D) : ret a w = (w', Ok b) -> w' = w /\ b = a.
Proof. now intros [= -> ->]. Qed.

Lemma record_ok e w w' u : Record_ e w = (w', Ok (inr u)) ->
  db w' = MkCatalog (t_workspaces (db w)) (t_locations (db w)) (t_providers (db w)) (t_configurations (db w)) (t_audit (db w) ++ [e]).
Proof. intros E%dbcall_ok. now injection E. Qed.

Lemma found_ok {A} (o : option A) a : found o = inr a -> o = Some a.
Proof. destruct o; [now intros [= ->]|discriminate]. Qed.

Lemma find_id {A} (f : A -> uuid) id l x : List.find (fun y => N.eqb (f y) id) l = Some x -> x ∈ l /\ f x = id.
Proof. intros [Hx E%N.eqb_eq]%List.find_some. split; [now apply list_elem_of_In|assumption]. Qed.

Lemma insert_audit l d d1 : pg_InsertLocation l d = Some (d1, inr tt) -> t_audit d1 = t_audit d.
Proof. unfold pg_InsertLocation. destruct (name_taken _ _); [discriminate|]. destruct (_ || _); [discriminate|]. now intros [= <-]. Qed.

Lemma update_audit l d d1 : pg_UpdateLocation l d = Some (d1, inr tt) -> t_audit d1 = t_audit d.
Proof. unfold pg_UpdateLocation. destruct (existsb _ _); [discriminate|]. now intros [= <-]. Qed.

Lemma status_audit i s d d1 : pg_UpdateStatus i s d = Some (d1, tt) -> t_audit d1 = t_audit d.
Proof. unfold pg_UpdateStatus. destruct (_ || _); [discriminate|]. now intros [= <-]. Qed.

Lemma provider_audit i s t d d1 : pg_SetProviderStatus i s t d = Some (d1, inr tt) -> t_audit d1 = t_audit d.
Proof. unfold pg_SetProviderStatus. destruct (negb _); [discriminate|]. destruct (existsb _ _); [|discriminate]. now intros [= <-]. Qed.

Lemma config_audit c d d1 : pg_UpdateConfiguration c d = Some (d1, inr tt) -> t_audit d1 = t_audit d.
Proof. unfold pg_UpdateConfiguration. destruct (existsb _ _); [|discriminate]. destruct (_ && _); [|discriminate]. now intros [= <-]. Qed.

(** *** All or nothing *)

Definition committed {A} (P : CatalogTables -> A -> Prop) (d : CatalogTables) (m : World CatalogTables * result (CatalogError + A)) : Prop :=
  (exists r, m.2 = Ok (inr r) /\ P (db m.1) r) \/ (db m.1 = d /\ forall r, m.2 <> Ok (inr r)).

Lemma committed_tx {A} (P : CatalogTables -> A -> Prop) (body : M CatalogTables (CatalogError + A)) w :
  (forall w0 w1 a, db w0 = db w -> body w0 = (w1, Ok (inr a)) -> P (db w1) a) ->
  committed P (db w) (tx_runE body w).
Proof.
  intros Hb. destruct (tx_runE_inv body w) as [(w1 & a & E & Ed & Er)|[Ed Er]]; [left|right; auto].
  exists a. split; [exact Er|]. rewrite Ed. eapply Hb; [|exact E]. reflexivity.
Qed.

Lemma committed_ret {A} (P : CatalogTables -> A -> Prop) e w : committed P (db w) (ret (inl e) w).
Proof. right. split; [reflexivity|]. discriminate. Qed.

Lemma committed_map {A B} (P : CatalogTables -> B -> Prop) (f : A -> B) (m : M CatalogTables (CatalogError + A)) d w :
  committed (fun d' a => P d' (f a)) d (m w) -> committed P d ((x <-! m ;; ret (inr (f x))) w).
Proof.
  unfold committed, bindE, bind. destruct (m w) as [w' [[e|a]|e]]; cbn; intros [(r & [=] & Hr)|[Ed Er]].
  - right. split; [exact Ed|discriminate].
  - subst. left. eauto.
  - now destruct (Er a).
  - right. split; [exact Ed|discriminate].
Qed.

Ltac peel E :=
  match type of E with
  | bindE _ _ _ = _ => let a := fresh "a" in let w := fresh "w" in let E1 := fresh "E" in
      apply bindE_ok in E as (w & a & E1 & E)
  | bind _ _ _ = _ => let a := fresh "a" in let w := fresh "w" in let E1 := fresh "E" in
      apply bind_ok in E as (w & a & E1 & E)
  end.

Lemma create_audited inp now w :
  committed (fun d' l => audited (CmdCreate inp) (db w) d' (ResLocation l)) (db w) (CreateLocation inp now w).
Proof.
  unfold CreateLocation. unfold bind at 1, fresh. set (w1 := MkWorld _ _ _). change (db w) with (db w1).
  match goal with |- context [ValidateCreation ?l] => set (loc := l) end.
  destruct (ValidateCreation loc) as [|x fs] eqn:V; [|apply committed_ret]. destruct (_ && _); [apply committed_ret|].
  assert (C : committed (fun d' (_ : unit) => audited (CmdCreate inp) (db w1) d' (ResLocation loc)) (db w1) (tx_runE (createTx inp loc) w1)).
  { apply committed_tx. intros w0 w2 u Ed E. unfold createTx in E. peel E. apply query_ok in E0 as [Ea _].
    peel E. apply query_ok in E0 as [Eb _]. destruct (if ci_AllowNearDuplicate inp then _ else _); [discriminate|]. peel E.
    destruct a1. apply dbexec_ok in E0. apply record_ok in E. rewrite Eb, Ea, Ed in E0.
    eexists _, _. split; [now apply (eff_create _ loc _ V eq_refl E0)|]. rewrite <- (insert_audit _ _ _ E0), E. auto. }
  revert C. unfold committed, bindE, bind. destruct (tx_runE _ w1) as [w' [[e|a]|e]]; cbn.
  - intros [(r & [=] & _)|[Ed _]]; right; split; [exact Ed|discriminate].
  - intros [(r & _ & P)|[_ Er]]; [|now destruct (Er a)]. left. eauto.
  - intros [(r & [=] & _)|[Ed _]]; right; split; [exact Ed|discriminate].
Qed.

Lemma update_audited id inp w :
  committed (fun d' l => audited (CmdUpdate id inp) (db w) d' (ResLocation l)) (db w) (UpdateLocation id inp w).
Proof.
  unfold UpdateLocation. apply committed_tx. intros w0 w2 l Ed E. peel E. apply query_ok in E0 as [Ea Eg].
  symmetry in Eg. apply found_ok in Eg. rewrite Ed in Eg. pose proof (find_id l_ID id _ _ Eg) as [_ Ei].
  destruct (match ui_Name inp with Some n => _ | None => _ end) as [loc changes] eqn:El.
  assert (exists n, loc = set_name a n) as [n ->].
  { destruct (ui_Name inp); injection El as <- _; [eauto|]. exists (l_Name a). now destruct a. }
  destruct (ValidateCreation (set_name a n)) eqn:V; [|discriminate]. peel E. destruct a0. apply dbexec_ok in E0. rewrite Ea, Ed in E0.
  peel E. apply record_ok in E1. apply ret_ok in E as [-> [= ->]].
  eexists _, _. split; [|rewrite <- (update_audit _ _ _ E0), E1; auto].
  eapply eff_update; [cbn; rewrite Ei; exact Eg|eauto|exact V|exact E0].
Qed.

Lemma status_audited id s a w :
  committed (fun d' l => audited (CmdStatus id s a) (db w) d' (ResLocation l)) (db w) (SetLocationStatus id s a w).
Proof.
  unfold SetLocationStatus. destruct (Settable s) eqn:Hs; cbn [negb]; [|apply committed_ret].
  apply committed_tx. intros w0 w2 l Ed E. peel E. apply query_ok in E0 as [Ea Eg]. symmetry in Eg. apply found_ok in Eg.
  rewrite Ed in Eg. pose proof (find_id l_ID id _ _ Eg) as [_ Ei]. case_bool_decide as N; [discriminate|].
  peel E. destruct a1. apply dbexec_ok in E0. rewrite Ea, Ed in E0. peel E. apply record_ok in E1. apply ret_ok in E as [-> [= ->]].
  subst id. eexists _, _. split; [now apply (eff_status _ a0 s _ Eg Hs N E0)|]. rewrite <- (status_audit _ _ _ _ E0), E1. auto.
Qed.

Lemma provider_audited id s a now w :
  committed (fun d' p => audited (CmdProvider id s a) (db w) d' (ResProvider p)) (db w) (SetProviderStatus id s a now w).
Proof.
  unfold SetProviderStatus. destruct (Settable s) eqn:Hs; cbn [negb]; [|apply committed_ret].
  apply committed_tx. intros w0 w2 p Ed E. peel E. apply query_ok in E0 as [Ea _]. peel E. destruct a1. apply dbexec_ok in E0.
  rewrite Ea, Ed in E0. peel E. apply query_ok in E1 as [Eb Eg]. symmetry in Eg. apply found_ok in Eg.
  peel E. apply record_ok in E1. apply ret_ok in E as [-> [= ->]]. pose proof (find_id p_ID id _ _ Eg) as [_ Ei]. subst id.
  eexists _, _. split; [now apply (eff_provider _ a1 s now _ Hs E0 Eg)|]. rewrite <- (provider_audit _ _ _ _ _ E0), E1, Eb. auto.
Qed.

Lemma config_audited id inp a now w :
  committed (fun d' c => audited (CmdConfig id inp a) (db w) d' (ResConfig c)) (db w) (UpdateConfiguration id inp a now w).
Proof.
  unfold UpdateConfiguration. destruct (add _ _ _ ++ add _ _ _) as [|x fs] eqn:V; [|apply committed_ret].
  apply committed_tx. intros w0 w2 c Ed E. peel E. apply query_ok in E0 as [Ea Eg]. symmetry in Eg. apply found_ok in Eg.
  rewrite Ed in Eg. pose proof (find_id cfg_ID id _ _ Eg) as [_ Ei].
  peel E. destruct a1. apply dbexec_ok in E0. rewrite Ea, Ed in E0. peel E. apply record_ok in E1. apply ret_ok in E as [-> [= ->]].
  eexists _, _. split; [|rewrite <- (config_audit _ _ _ E0), E1; cbn; rewrite Ei; auto].
  eapply eff_config; [cbn; rewrite Ei; exact Eg|reflexivity| |exact E0]. cbn. unfold Schedule_Valid. cbn.
  destruct (uc_MinuteOffset inp) as [m|]; cbn; [|auto]. intros B. apply app_eq_nil in V as [_ V]. cbn in V.
  destruct ((m <? 0) || (59 <? m)) eqn:Em; [discriminate|]. bool_simp. rewrite !andb_true_iff, !Z.leb_le. repeat split; try tauto; lia.
Qed.

Lemma run_audited c now w : committed (fun d' r => audited c (db w) d' r) (db w) (run c now w).
Proof.
  destruct c; cbn [run]; apply committed_map;
    [apply create_audited|apply update_audited|apply status_audited|apply provider_audited|apply config_audited].
Qed.

(** ** What the tables hold *)

Definition name_key (l : Location) : uuid * string := (l_WorkspaceID l, l_Name l).

Record catalog_inv (d : CatalogTables) : Prop := {
  cat_ids : NoDup (l_ID <$> t_locations d);
  cat_names : NoDup (name_key <$> List.filter active_location (t_locations d));
  cat_valid : Forall (fun l => ValidateCreation l = []) (t_locations d);
  cat_configs : Forall (fun c => cfg_ValidationState c ∈ validation_states) (t_configurations d);
}.

(** What never changes of a row. *)
Definition location_identity (l : Location) : uuid * uuid * (float64 * float64) * (string * string) * Time :=
  (l_ID l, l_WorkspaceID l, (l_Latitude l, l_Longitude l), (l_CountryCode l, l_Timezone l), l_CreatedAt l).
Definition provider_identity (p : Provider) : uuid * (string * string * string) * (string * string) * Time :=
  (p_ID p, (p_Name p, p_Slug p, p_APIBaseURL p), (p_AttributionText p, p_AttributionURL p), p_CreatedAt p).
Definition config_identity (c : ProviderConfiguration) : uuid * uuid * uuid * string * Time :=
  (cfg_ID c, cfg_WorkspaceID c, cfg_ProviderID c, cfg_CredentialRef c, cfg_CreatedAt c).

Record catalog_history (d d' : CatalogTables) : Prop := {
  ch_locations : (location_identity <$> t_locations d) `prefix_of` (location_identity <$> t_locations d');
  ch_providers : provider_identity <$> t_providers d' = provider_identity <$> t_providers d;
  ch_configs : config_identity <$> t_configurations d' = config_identity <$> t_configurations d;
}.

Lemma names_unique ls :
  NoDup (l_ID <$> ls) -> existsb (name_taken ls) ls = false -> NoDup (name_key <$> List.filter active_location ls).
Proof.
  intros Ni Hn. apply NoDup_fmap_2_strong.
  - intros x y Hx Hy Ek. apply list_elem_of_In, filter_In in Hx as [Hx Ax]. apply list_elem_of_In, filter_In in Hy as [Hy Ay].
    destruct (decide (l_ID x = l_ID y)) as [Ei|Ni'].
    { now apply (NoDup_key_unique l_ID ls); [| now apply list_elem_of_In..|]. }
    exfalso. apply not_true_iff_false in Hn. apply Hn, existsb_exists. exists x. split; [assumption|].
    unfold name_taken. rewrite Ax. apply existsb_exists. exists y. split; [assumption|]. injection Ek as E1 E2.
    rewrite Ay, E1, E2, N.eqb_refl, String.eqb_refl. cbn. rewrite !andb_true_r. apply negb_true_iff, N.eqb_neq. congruence.
  - apply NoDup_fmap_1 in Ni. apply NoDup_ListNoDup, List.NoDup_filter, NoDup_ListNoDup, Ni.
Qed.

Lemma insert_effect l d d1 :
  catalog_inv d -> ValidateCreation l = [] -> pg_InsertLocation l d = Some (d1, inr tt) -> catalog_inv d1 /\ catalog_history d d1.
Proof.
  intros [Ni Nn Hv Hc] V. unfold pg_InsertLocation. destruct (name_taken (t_locations d) l) eqn:T; [discriminate|].
  destruct (existsb _ _ || _ || _) eqn:B; [discriminate|]. intros [= <-].
  apply orb_false_iff in B as [[B _]%orb_false_iff _]. split; [|split; cbn; [rewrite fmap_app; now apply prefix_app_r|reflexivity..]].
  constructor; cbn; [| | |assumption].
  - rewrite fmap_app. apply NoDup_snoc; [assumption|]. intros (x & Ex & Hx)%list_elem_of_fmap.
    apply not_true_iff_false in B. apply B, existsb_exists. exists x. split; [now apply list_elem_of_In|]. now apply N.eqb_eq.
  - rewrite List.filter_app. cbn. destruct (active_location l) eqn:A; [|now rewrite app_nil_r]. rewrite fmap_app. apply NoDup_snoc; [assumption|].
    intros (x & Ex & [Hx Ax]%list_elem_of_In%filter_In)%list_elem_of_fmap. injection Ex as E1 E2.
    apply not_true_iff_false in T. apply T. unfold name_taken. rewrite A. apply existsb_exists. exists x. split; [assumption|].
    rewrite Ax, E1, E2, N.eqb_refl, String.eqb_refl. cbn. rewrite !andb_true_r. apply negb_true_iff.
    apply not_true_iff_false. intros E. apply not_true_iff_false in B. apply B, existsb_exists. eauto.
  - apply Forall_app. split; [assumption|]. now constructor.
Qed.

(** An update of the row of [l0], by [f]. *)
Lemma row_effect d l0 (f : Location -> Location) ls :
  catalog_inv d -> l0 ∈ t_locations d -> (forall x, x ∈ t_locations d -> f x = if N.eqb (l_ID x) (l_ID l0) then f l0 else x) ->
  location_identity (f l0) = location_identity l0 -> ValidateCreation (f l0) = [] ->
  ls = f <$> t_locations d -> existsb (name_taken ls) ls = false ->
  catalog_inv (with_locations d ls) /\ catalog_history d (with_locations d ls).
Proof.
  intros [Ni Nn Hv Hc] Hl0 Hf Hi V -> Hn.
  assert (Ident : location_identity <$> (f <$> t_locations d) = location_identity <$> t_locations d).
  { rewrite <- list_fmap_compose. apply list_fmap_ext. intros i x Hx%list_elem_of_lookup_2. cbn. rewrite (Hf x Hx).
    destruct (N.eqb_spec (l_ID x) (l_ID l0)) as [E|]; [|reflexivity].
    now rewrite Hi, (NoDup_key_unique l_ID _ x l0 Ni Hx Hl0 E). }
  assert (Ids : l_ID <$> (f <$> t_locations d) = l_ID <$> t_locations d).
  { apply (f_equal (fmap (fun k : uuid * uuid * (float64 * float64) * (string * string) * Time => k.1.1.1.1))) in Ident.
    rewrite <- !list_fmap_compose in Ident. rewrite <- !list_fmap_compose. exact Ident. }
  split; [|split; cbn; [now rewrite Ident|reflexivity..]].
  constructor; cbn; [now rewrite Ids|apply names_unique; [now rewrite Ids|assumption]| |assumption].
  apply Forall_fmap, Forall_forall. intros x Hx. cbn. rewrite (Hf x Hx). destruct (N.eqb _ _); [assumption|].
  now apply (proj1 (Forall_forall _ _) Hv).
Qed.

Lemma valid_status_irrelevant l s : ValidateCreation l = [] -> Status_Valid s = true -> ValidateCreation (set_status l s) = [].
Proof.
  unfold ValidateCreation. cbn [set_status l_Name l_Latitude l_Longitude l_CountryCode l_Timezone l_Status]. intros V ->.
  rewrite !app_assoc in *. apply app_eq_nil in V as [-> _]. reflexivity.
Qed.

Lemma effect_inv d d1 r : effect d d1 r -> catalog_inv d -> catalog_inv d1 /\ catalog_history d d1.
Proof.
  intros E I. destruct E as [d l d1 V _ Ei|d l l0 d1 Eg [n ->] V Eu|d l0 s d1 Eg Hs N Eu|d p s now d1 Hs Eu Eg|d c c0 d1 Eg Ec Hs Eu].
  - now apply (insert_effect l).
  - apply find_id in Eg as [Hl0 _]. unfold pg_UpdateLocation in Eu. cbn zeta in Eu. destruct (existsb _ _) eqn:T; [discriminate|].
    injection Eu as <-. assert (E0 : update_row (set_name l0 n) l0 = set_name l0 n)
      by (unfold update_row; cbn; now rewrite N.eqb_refl).
    eapply (row_effect d l0 (update_row (set_name l0 n))); [assumption|assumption| | | |reflexivity|assumption].
    + intros x Hx. rewrite E0. unfold update_row. cbn. destruct (N.eqb_spec (l_ID x) (l_ID l0)) as [Ex|]; [|reflexivity].
      now rewrite (NoDup_key_unique l_ID _ x l0 (cat_ids _ I) Hx Hl0 Ex).
    + now rewrite E0.
    + now rewrite E0.
  - apply find_id in Eg as [Hl0 _]. unfold pg_UpdateStatus in Eu. cbn zeta in Eu. destruct (existsb _ _ || _) eqn:T; [discriminate|].
    injection Eu as <-. apply orb_false_iff in T as [T Ts%negb_false_iff].
    eapply (row_effect d l0 (fun x => if N.eqb (l_ID x) (l_ID l0) then set_status x s else x)); [assumption|assumption| | | |reflexivity|assumption].
    + intros x Hx. rewrite N.eqb_refl. destruct (N.eqb_spec (l_ID x) (l_ID l0)) as [Ex|]; [|reflexivity].
      now rewrite (NoDup_key_unique l_ID _ x l0 (cat_ids _ I) Hx Hl0 Ex).
    + now rewrite N.eqb_refl.
    + rewrite N.eqb_refl. apply valid_status_irrelevant; [|assumption]. now apply (proj1 (Forall_forall _ _) (cat_valid _ I)).
  - unfold pg_SetProviderStatus in Eu. destruct (negb _); [discriminate|]. destruct (existsb _ _); [|discriminate]. injection Eu as <-.
    destruct I as [Ni Nn Hv Hc]. split; [now constructor|]. split; cbn; [reflexivity| |reflexivity].
    rewrite <- list_fmap_compose. apply list_fmap_ext. intros i x _. cbn. now destruct (N.eqb _ _).
  - unfold pg_UpdateConfiguration in Eu. destruct (existsb _ _); [|discriminate]. destruct (_ && _) eqn:B; [|discriminate]. injection Eu as <-.
    destruct I as [Ni Nn Hv Hc]. apply andb_true_iff in B as [B _]. apply existsb_exists in B as (v & Hin & Ev%String.eqb_eq).
    split; [constructor; cbn; [assumption..|]|split; cbn; [reflexivity|reflexivity|]].
    + apply Forall_fmap, Forall_forall. intros x Hx. cbn. unfold update_config. destruct (N.eqb _ _); cbn; [rewrite Ev; now apply list_elem_of_In|].
      now apply (proj1 (Forall_forall _ _) Hc).
    + rewrite <- list_fmap_compose. apply list_fmap_ext. intros i x _. cbn. unfold update_config. now destruct (N.eqb _ _).
Qed.
End Run.

(** ** Keyset pages *)

Definition matches (active : option bool) (l : Location) : bool :=
  match active with Some b => Bool.eqb (active_location l) b | None => true end.

(** The matching locations in the order of the list. *)
Definition listing (active : option bool) (d : CatalogTables) : list Location := keyset l_ID (matches active) (t_locations d).

Section Pages.
Context `{Healthy} `{Lookups}.

Definition location_page (active : option bool) (limit : Z) (cursor : string) : M CatalogTables (CatalogError + (list Location * PageInfo)) :=
  ListLocations (MkListLocations active cursor limit).

(** Following [next_cursor] until a page says it is the last. *)
Definition all_pages (fuel : nat) (active : option bool) (cursor : string) (limit : Z) : M CatalogTables (CatalogError + list Location) :=
  walk (location_page active limit) HasMore NextCursor fuel cursor.

(** One page from a cursor. *)
Lemma list_page active limit cursor c w :
  cursor_id ids_Parse cursor = Some c -> NoDup (l_ID <$> t_locations (db w)) ->
  let rest := List.filter (fun l => N.ltb c (l_ID l)) (listing active (db w)) in
  exists w' p, location_page active limit cursor w = (w', Ok (inr (take (page_size limit) rest, p))) /\ db w' = db w /\
    HasMore p = (page_size limit <? length rest)%nat /\
    ((page_size limit < length rest)%nat -> exists x, rest !! (page_size limit - 1)%nat = Some x /\ NextCursor p = Uuid.to_string (l_ID x)).
Proof.
  intros Hc Nd rest. unfold location_page, ListLocations. cbn [li_Cursor li_Limit li_Active]. unfold cursor_id in Hc. rewrite Hc, bind_run, query_healthy.
  unfold pg_ListLocations. rewrite keyset_rows_eq by assumption. fold (matches active) (listing active (db w)) rest.
  destruct (cut_page_spec l_ID (page_limit limit) rest (page_limit_pos limit)) as (cur & -> & Hcur).
  eexists _, (MkPage _ cur). split_and!; [reflexivity|reflexivity|reflexivity|exact Hcur].
Qed.
End Pages.

(** ** Theorems *)

(** Note: no unaudited change.  Whatever statements fail, a catalog command either
    returns the resource, with its effect and exactly one audit record naming the
    action, the resource, the acting user and the client address committed together,
    or leaves every table as it was. *)
Theorem mutations_audited `{Env} `{Trig} `{Lookups} c now w :
  (exists r, (run c now w).2 = Ok (inr r) /\ audited c (db w) (db (run c now w).1) r) \/
  (db (run c now w).1 = db w /\ forall r, (run c now w).2 <> Ok (inr r)).
Proof. exact (run_audited c now w). Qed.


(** Note: following the cursors of the location list from the start, with any page
    size, returns every matching location exactly once, in id order, provided the
    UUID parser reads back what the service printed and no id is the nil UUID. *)
Theorem list_pages_complete `{Healthy} `{Lookups} active limit w :
  (forall u, uuid_wf u -> ids_Parse (Uuid.to_string u) = Some u) ->
  NoDup (l_ID <$> t_locations (db w)) -> Forall (fun l => l_ID l <> uuid_Nil /\ uuid_wf (l_ID l)) (t_locations (db w)) ->
  exists w', all_pages (S (length (t_locations (db w)))) active "" limit w = (w', Ok (inr (listing active (db w)))) /\
    (forall l, l ∈ listing active (db w) <-> l ∈ t_locations (db w) /\ matches active l = true) /\
    StronglySorted (key_lt l_ID) (listing active (db w)).
Proof.
  intros Hp Nd Hn. assert (In : forall l, l ∈ listing active (db w) -> l_ID l <> uuid_Nil /\ uuid_wf (l_ID l)).
  { intros l [Hl _]%keyset_elem. exact (proj1 (Forall_forall _ _) Hn l Hl). }
  destruct (walk_complete l_ID ids_Parse (location_page active limit) HasMore NextCursor (db w) (listing active (db w)) (page_size limit)
    (page_size_pos limit)) with (fuel := S (length (t_locations (db w)))) (w := w) as (w' & E & _).
  - intros cursor c w0 Hc Hd. rewrite <- Hd in Nd |- *. now apply list_page.
  - now apply keyset_strict.
  - intros l Hl. apply Hp. now apply In.
  - reflexivity.
  - apply Forall_forall. intros l Hl. now apply In.
  - pose proof (keyset_length l_ID (matches active) (t_locations (db w))). unfold listing. lia.
  - exists w'. split; [exact E|]. split; [apply keyset_elem|now apply keyset_strict].
Qed.

(** *** A concrete catalog *)

#[local] Instance demo_trig : Trig := {| Sin := fun x => x; Cos := fun _ => f1; Atan2 := fun y _ => y |}.
#[local] Instance demo_lookups : Lookups :=
  {| LoadLocation := fun z => String.eqb z "Asia/Kuala_Lumpur"; ids_Parse := fun s => if Nat.eqb (String.length s) 36 then Uuid.parse_from 0 s else None |}.

Definition demo_site (i : uuid) (n : string) (lat : Z) : Location :=
  MkLocation i 1 n (f64_of_Z lat) f1 "MY" "Asia/Kuala_Lumpur" StatusActive 0 0.

Definition demo_catalog : CatalogTables := MkCatalog [1%N] [demo_site 5 "Johor" 1; demo_site 3 "Ipoh" 4; demo_site 9 "Kota" 6] [] [] [].

Lemma demo_catalog_inv : catalog_inv demo_catalog.
Proof.
  constructor.
  - apply (bool_decide_unpack _). vm_compute. exact I.
  - apply (bool_decide_unpack _). vm_compute. exact I.
  - repeat constructor; vm_compute; reflexivity.
  - constructor.
Qed.

Definition demo_create : Command :=
  CmdCreate (MkCreateLocation 0 "Muar" (f64_of_Z 2) (f64_of_Z 102) "MY" "Asia/Kuala_Lumpur" false "" (MkActor None "op" "")).


Lemma list_pages_complete_witness :
  exists w', all_pages 4 None "" 2 (MkWorld demo_catalog 0 0)
      = (w', Ok (inr [demo_site 3 "Ipoh" 4; demo_site 5 "Johor" 1; demo_site 9 "Kota" 6])).
Proof.
  destruct (list_pages_complete None 2 (MkWorld demo_catalog 0 0)) as (w' & E & _).
  - intros u Hu. transitivity (Uuid.parse_from 0 (Uuid.to_string u)); [reflexivity|]. exact (Uuid.parse_to_string u Hu).
  - apply (bool_decide_unpack _). vm_compute. exact I.
  - repeat constructor; vm_compute; discriminate || reflexivity.
  - exists w'. exact E.
Defined.

End CatalogProps.
