(* ===== verification/ReadModel.v ===== *)
(** * Analysis read models ([internal/analysis/read.go], [analysispg/readpg.go])

    The dashboard's reads over the computed tables.  [ReadTables] are the tables the
    queries touch, in any row order; a query is a function of them, the service a
    monadic program over the queries ([Effects]).  [ORDER BY] is a stable sort of the
    matching rows, so rows that the order does not separate come in table order.  The
    order of [text] columns (the database's collation) and the column
    [calculated_at], which the database fills with [now()], are parameters.
    Interval arithmetic is that of a session in UTC.  A parameter of type [integer]
    that does not fit 32 bits is refused by the driver ([query4]). *)

From Stdlib Require Import ZArith NArith Lia Bool String.
From stdpp Require Import base list strings gmap.
From S2P Require Import Prelude Float64 GoTime GoZone Grouping Uuid Effects Versioned Records Eval Matching Ranking Aggregate RankService Catalog.

Import Eval Records Ranking Aggregate RankService.
Local Open Scope string_scope.
Local Open Scope list_scope.
Local Open Scope Z_scope.

Module ReadModel.

(** What the database adds: its collation's order and the [calculated_at] of a row. *)
Class Database := {
  text_ltb : string -> string -> bool;
  calculated_at : uuid -> Time;
}.

(** ** ports/read.go *)

Record RankingReadRow := MkReadRow {
  rr_row : RankingRow;             (** the columns of [provider_rankings] *)
  rr_ProviderName : string;
  rr_ProviderSlug : string;
  rr_AttributionText : string;
  rr_AttributionURL : string;
  rr_LocationName : string;
  rr_CalculatedAt : Time
}.

Record ObservationContextRow := MkObsContext {
  oc_TemperatureC : option float64;
  oc_PrecipitationMM : option float64;
  oc_ObservedAt : Time;
  oc_Source : string;
  oc_ObservationType : string;
  oc_QualityFlag : string
}.

Record CollectionWindow := MkWindow {
  cw_FirstSnapshotAt : option Time;
  cw_LastSnapshotAt : option Time;
  cw_Coverage : option float64;
  cw_Reliability : option float64
}.
Definition zeroWindow : CollectionWindow := MkWindow None None None None.

(** The zero value's status is the empty string, here [None]. *)
Record ProviderStatus := MkProviderStatus {
  ps_RankingStatus : option Status;
  ps_Coverage : option float64;
  ps_Reliability : option float64
}.
Definition zeroStatus : ProviderStatus := MkProviderStatus None None None.

Record ProviderSummaryCell := MkSummaryCell {
  sc_LocationID : uuid;
  sc_LocationName : string;
  sc_HorizonMinutes : Z;
  sc_CompositeScore : option float64;
  sc_RankingStatus : Status;
  sc_SampleCount : Z;
  sc_Coverage : option float64;
  sc_Reliability : option float64
}.

Record TrendFilter := MkTrendFilter {
  tf_ProviderID : option uuid;
  tf_LocationID : uuid;
  tf_HorizonMinutes : Z;
  tf_Variable : string;
  tf_MetricType : string;
  tf_From : Time;
  tf_To : Time;
  tf_Aggregation : string;
  tf_Limit : Z
}.

Record TrendBucket := MkTrendBucket {
  tb_ProviderID : uuid;
  tb_PeriodStart : Time;
  tb_PeriodEnd : Time;
  tb_Value : option float64;
  tb_CILower : option float64;
  tb_CIUpper : option float64;
  tb_SampleCount : Z
}.

Record ForecastPoint := MkForecastPoint {
  fp_ProviderID : uuid;
  fp_TargetTime : Time;
  fp_IssuedAt : Time;
  fp_HorizonMinutes : Z;
  fp_Value : float64
}.

Record ComparisonObservation := MkComparisonObs {
  cmo_ObservedAt : Time;
  cmo_Value : float64;
  cmo_Source : string;
  cmo_ObservationType : string;
  cmo_QualityFlag : string;
  cmo_ConditionCode : string
}.

(** ** readpg.go *)

Record ReadTables := MkReadTables {
  rd_rankings : list (Stored RankingRow);
  rd_metrics : list StoredMetric;
  rd_snapshots : list ForecastSnapshot;
  rd_observations : list Observation;
  rd_providers : list Catalog.Provider;
  rd_locations : list Catalog.Location
}.

(** [SELECT max(...)]: null on no rows. *)
Definition max_of (l : list Time) : option Time :=
  foldl (fun m t => match m with Some x => Some (Z.max x t) | None => Some t end) None l.
Definition min_of (l : list Time) : option Time :=
  foldl (fun m t => match m with Some x => Some (Z.min x t) | None => Some t end) None l.

(** The rows at the latest [start] among them. *)
Definition latest {A} (start : A -> Time) (rows : list A) : list A :=
  List.filter (fun r => bool_decide (Some (start r) = max_of (start <$> rows))) rows.

Section Queries.
Context `{Database}.

(** [JOIN ... ON id = ...] *)
Definition joined {A} (id_of : A -> uuid) (id : uuid) (rows : list A) : list A :=
  List.filter (fun r => bool_decide (id_of r = id)) rows.

Definition in_cohort (locationID : uuid) (horizon : Z) (profile : string) (r : RankingRow) : bool :=
  bool_decide (rr_LocationID r = locationID) && (rr_HorizonMinutes r =? horizon) && String.eqb (rr_HorizonProfile r) profile.

Definition read_row (r : RankingRow) (p : Catalog.Provider) (l : Catalog.Location) : RankingReadRow :=
  MkReadRow r (Catalog.p_Name p) (Catalog.p_Slug p) (Catalog.p_AttributionText p) (Catalog.p_AttributionURL p)
    (Catalog.l_Name l) (calculated_at (rr_ID r)).

Definition pg_ListRankings (locationID : uuid) (horizon : Z) (profile : string) (d : ReadTables) : list RankingReadRow :=
  let cohort := List.filter (in_cohort locationID horizon profile) (live (rd_rankings d)) in
  flat_map (fun r => flat_map (fun p => read_row r p <$> joined Catalog.l_ID (rr_LocationID r) (rd_locations d))
                       (joined Catalog.p_ID (rr_ProviderID r) (rd_providers d)))
    (latest rr_PeriodStart cohort).

Definition usable_observation (o : Observation) : bool :=
  bool_decide (o_SupersededObservationID o = None) && negb (String.eqb (o_QualityFlag o) QualitySuspect).

Definition pg_LatestObservation (locationID : uuid) (d : ReadTables) : option ObservationContextRow :=
  let rows := List.filter (fun o => bool_decide (o_LocationID o = locationID) && usable_observation o) (rd_observations d) in
  (fun o => MkObsContext (o_TemperatureC o) (o_PrecipitationMM o) (o_ObservedAt o) (o_Source o) (o_ObservationType o) (o_QualityFlag o))
  <$> head (stable_sort (fun a b => o_ObservedAt b <? o_ObservedAt a) rows).

(** [t + interval '1 month']: the day of the month is capped at the length of the
    next month. *)
Definition addMonthSQL (t : Time) : Time :=
  let y := Year t in
  let m := Month t in
  let len := dateDays y (m + 2) 1 - dateDays y (m + 1) 1 in
  Date y (m + 1) (Z.min (DayOfMonth t) len) + t mod Day.

Definition aggregationSpanSQL (aggregation : string) (m : AccuracyMetric) : bool :=
  if String.eqb aggregation "weekly" then am_PeriodEnd m =? am_PeriodStart m + 7 * Day
  else if String.eqb aggregation "monthly" then am_PeriodEnd m =? addMonthSQL (am_PeriodStart m)
  else am_PeriodEnd m =? am_PeriodStart m + Day.

(** [ORDER BY provider_id, variable, metric_type] *)
Definition metric_before (a b : MetricValue) : bool :=
  (mv_ProviderID a <? mv_ProviderID b)%N
  || ((mv_ProviderID a =? mv_ProviderID b)%N
      && (text_ltb (mv_Variable a) (mv_Variable b)
          || (String.eqb (mv_Variable a) (mv_Variable b) && text_ltb (mv_MetricType a) (mv_MetricType b)))).

Definition pg_LocationMetrics (locationID : uuid) (horizon : Z) (d : ReadTables) : list MetricValue :=
  let rows := List.filter (fun m => bool_decide (am_LocationID m = locationID) && (am_HorizonMinutes m =? horizon)
                                    && (am_PeriodEnd m =? addMonthSQL (am_PeriodStart m))) (live (rd_metrics d)) in
  stable_sort metric_before (metric_value <$> latest am_PeriodStart rows).

Definition pg_LocationProviderStatuses (locationID : uuid) (horizon : Z) (d : ReadTables) : gmap uuid ProviderStatus :=
  let cohort := List.filter (in_cohort locationID horizon ProfileUniform) (live (rd_rankings d)) in
  foldl (fun m r => <[rr_ProviderID r := MkProviderStatus (Some (rr_Status r)) (rr_Coverage r) (rr_Reliability r)]> m)
    ∅ (latest rr_PeriodStart cohort).

(** [SELECT k, min(target_time), max(target_time) ... GROUP BY k] *)
Definition windows_by (k : ForecastSnapshot -> uuid) (rows : list ForecastSnapshot) : gmap uuid CollectionWindow :=
  g_by (group_all k (fun _ => zeroWindow)
    (fun w s => MkWindow (min_of (option_list (cw_FirstSnapshotAt w) ++ [s_TargetTime s]))
                         (max_of (option_list (cw_LastSnapshotAt w) ++ [s_TargetTime s])) None None) rows).

Definition pg_LocationWindows (locationID : uuid) (d : ReadTables) : gmap uuid CollectionWindow :=
  windows_by s_ProviderID (List.filter (fun s => bool_decide (s_LocationID s = locationID)) (rd_snapshots d)).

Definition pg_ProviderWindows (providerID : uuid) (d : ReadTables) : gmap uuid CollectionWindow :=
  windows_by s_LocationID (List.filter (fun s => bool_decide (s_ProviderID s = providerID)) (rd_snapshots d)).

Definition summary_cell (r : RankingRow) (l : Catalog.Location) : ProviderSummaryCell :=
  MkSummaryCell (rr_LocationID r) (Catalog.l_Name l) (rr_HorizonMinutes r) (rr_CompositeScore r) (rr_Status r)
    (rr_SampleCount r) (rr_Coverage r) (rr_Reliability r).

Definition cell_before (a b : ProviderSummaryCell) : bool :=
  text_ltb (sc_LocationName a) (sc_LocationName b)
  || (String.eqb (sc_LocationName a) (sc_LocationName b) && (sc_HorizonMinutes a <? sc_HorizonMinutes b)).

Definition pg_ProviderRankingCells (providerID : uuid) (d : ReadTables) : list ProviderSummaryCell :=
  let rows := List.filter (fun r => bool_decide (rr_ProviderID r = providerID) && String.eqb (rr_HorizonProfile r) ProfileUniform)
                (live (rd_rankings d)) in
  let same_cell r r2 := bool_decide (rr_LocationID r2 = rr_LocationID r) && (rr_HorizonMinutes r2 =? rr_HorizonMinutes r) in
  let rows := List.filter (fun r => bool_decide (Some (rr_PeriodStart r) =
                max_of (rr_PeriodStart <$> List.filter (same_cell r) rows))) rows in
  stable_sort cell_before
    (flat_map (fun r => summary_cell r <$> joined Catalog.l_ID (rr_LocationID r) (rd_locations d)) rows).

Definition in_trend (f : TrendFilter) (m : AccuracyMetric) : bool :=
  bool_decide (am_LocationID m = tf_LocationID f) && (am_HorizonMinutes m =? tf_HorizonMinutes f)
  && String.eqb (am_Variable m) (tf_Variable f) && String.eqb (am_MetricType m) (tf_MetricType f)
  && (tf_From f <=? am_PeriodStart m) && (am_PeriodEnd m <=? tf_To f)
  && aggregationSpanSQL (tf_Aggregation f) m
  && match tf_ProviderID f with Some p => bool_decide (am_ProviderID m = p) | None => true end.

Definition trend_bucket (m : AccuracyMetric) : TrendBucket :=
  MkTrendBucket (am_ProviderID m) (am_PeriodStart m) (am_PeriodEnd m) (am_Value m) (am_CILower m) (am_CIUpper m) (am_SampleCount m).

(** [ORDER BY provider_id, period_start] *)
Definition trend_before (a b : TrendBucket) : bool :=
  (tb_ProviderID a <? tb_ProviderID b)%N
  || ((tb_ProviderID a =? tb_ProviderID b)%N && (tb_PeriodStart a <? tb_PeriodStart b)).

Definition pg_AccuracyTrends (f : TrendFilter) (d : ReadTables) : list TrendBucket :=
  let rows := stable_sort trend_before (trend_bucket <$> List.filter (in_trend f) (live (rd_metrics d))) in
  if 0 <? tf_Limit f then take (Z.to_nat (tf_Limit f)) rows else rows.

Definition forecastColumn (variable : string) : option string :=
  if String.eqb variable "temperature" then Some "temperature_c"
  else if String.eqb variable "wind_speed" then Some "wind_speed_ms"
  else if String.eqb variable "humidity" then Some "humidity_pct"
  else if String.eqb variable "pressure" then Some "pressure_hpa"
  else if String.eqb variable "precipitation" then Some "precipitation_amount_mm"
  else None.

Definition observationColumn (variable : string) : option string :=
  if String.eqb variable "temperature" then Some "temperature_c"
  else if String.eqb variable "wind_speed" then Some "wind_speed_ms"
  else if String.eqb variable "humidity" then Some "humidity_pct"
  else if String.eqb variable "pressure" then Some "pressure_hpa"
  else if String.eqb variable "precipitation" then Some "precipitation_mm"
  else None.

(** The columns of [forecast_snapshots] and [observations] by name. *)
Definition snapshot_column (col : string) (s : ForecastSnapshot) : option float64 :=
  if String.eqb col "temperature_c" then s_TemperatureC s
  else if String.eqb col "wind_speed_ms" then s_WindSpeedMS s
  else if String.eqb col "humidity_pct" then s_HumidityPct s
  else if String.eqb col "pressure_hpa" then s_PressureHPa s
  else if String.eqb col "precipitation_amount_mm" then s_PrecipitationAmountMM s
  else None.

Definition observation_column (col : string) (o : Observation) : option float64 :=
  if String.eqb col "temperature_c" then o_TemperatureC o
  else if String.eqb col "wind_speed_ms" then o_WindSpeedMS o
  else if String.eqb col "humidity_pct" then o_HumidityPct o
  else if String.eqb col "pressure_hpa" then o_PressureHPa o
  else if String.eqb col "precipitation_mm" then o_PrecipitationMM o
  else None.

Definition forecast_point (col : string) (s : ForecastSnapshot) : option ForecastPoint :=
  MkForecastPoint (s_ProviderID s) (s_TargetTime s) (s_IssuedAt s) (s_ForecastHorizonMinutes s) <$> snapshot_column col s.

Definition in_comparison (locationID : uuid) (providerIDs : list uuid) (horizon : Z) (from to : Time) (s : ForecastSnapshot) : bool :=
  bool_decide (s_LocationID s = locationID) && bool_decide (s_ProviderID s ∈ providerIDs)
  && (from <=? s_TargetTime s) && (s_TargetTime s <? to) && (s_ForecastHorizonMinutes s <=? horizon).

Definition point_key (p : ForecastPoint) : uuid * Time := (fp_ProviderID p, fp_TargetTime p).

(** [ORDER BY provider_id, target_time, forecast_horizon_minutes DESC] *)
Definition point_before (a b : ForecastPoint) : bool :=
  (fp_ProviderID a <? fp_ProviderID b)%N
  || ((fp_ProviderID a =? fp_ProviderID b)%N
      && ((fp_TargetTime a <? fp_TargetTime b)
          || ((fp_TargetTime a =? fp_TargetTime b) && (fp_HorizonMinutes b <? fp_HorizonMinutes a)))).

(** [DISTINCT ON (key)]: the first row of each run of equal keys. *)
Fixpoint distinct_on {A K} `{EqDecision K} (key : A -> K) (prev : option K) (l : list A) : list A :=
  match l with
  | [] => []
  | a :: l => if bool_decide (prev = Some (key a)) then distinct_on key prev l else a :: distinct_on key (Some (key a)) l
  end.

Definition pg_ForecastComparisonPoints (locationID : uuid) (providerIDs : list uuid) (col : string) (horizon : Z) (from to : Time)
  (d : ReadTables) : list ForecastPoint :=
  distinct_on point_key None
    (stable_sort point_before
      (omap (forecast_point col) (List.filter (in_comparison locationID providerIDs horizon from to) (rd_snapshots d)))).

Definition comparison_obs (col : string) (o : Observation) : option ComparisonObservation :=
  (fun v => MkComparisonObs (o_ObservedAt o) v (o_Source o) (o_ObservationType o) (o_QualityFlag o) (o_CanonicalConditionCode o))
  <$> observation_column col o.

Definition pg_ComparisonObservations (locationID : uuid) (col : string) (from to : Time) (d : ReadTables) : list ComparisonObservation :=
  stable_sort (fun a b => cmo_ObservedAt a <? cmo_ObservedAt b)
    (omap (comparison_obs col)
      (List.filter (fun o => bool_decide (o_LocationID o = locationID) && (from <=? o_ObservedAt o) && (o_ObservedAt o <? to)
                             && usable_observation o) (rd_observations d))).
End Queries.

(** ** read.go *)

Definition DefaultRankingHorizon : Z := 1440.
Definition DefaultMinSampleCount : Z := 30.

Record RankingsQuery := MkRankingsQuery {
  rq_LocationID : uuid; rq_HorizonMinutes : Z; rq_Profile : string; rq_MinSampleCount : Z
}.

Record RankedRow := MkRankedRow { rk_Row : RankingReadRow; Rank : Z; Tied : bool }.

Record RankingsResult := MkRankingsResult {
  rs_Rows : list RankedRow;
  rs_Observation : option ObservationContextRow;
  rs_MethodologyVersion : string;
  rs_WeightsVersion : string;
  rs_HorizonMinutes : Z;
  rs_HorizonProfile : string;
  rs_MinSampleCount : Z;
  rs_PeriodStart : Time;
  rs_PeriodEnd : Time;
  rs_LastCalculatedAt : option Time;
  rs_HasRows : bool
}.

Definition row_status (r : RankingReadRow) : Status := rr_Status (rr_row r).

(** [prs[i] = domain.ProviderRanking{...}]: the other fields are zero; [Status] is
    not read by [RankOrder]. *)
Definition to_ranking (r : RankingReadRow) : ProviderRanking :=
  MkRanking (rr_ProviderID (rr_row r)) (rr_CompositeScore (rr_row r)) (rr_CILower (rr_row r)) (rr_CIUpper (rr_row r))
    StatusUnranked 0 None None [].

(** One group [g] of indexes at [rank]. *)
Definition rank_group (subset : list RankingReadRow) (rank : Z) (g : list nat) : list RankedRow :=
  omap (fun idx => (fun r => MkRankedRow r rank (1 <? length g)%nat) <$> subset !! idx) g.

Fixpoint rank_from (subset : list RankingReadRow) (rank : Z) (groups : list (list nat)) : list RankedRow :=
  match groups with
  | [] => []
  | g :: groups => rank_group subset rank g ++ rank_from subset (rank + 1) groups
  end.

(** The rows appended and the next free rank. *)
Definition rankGroups (subset : list RankingReadRow) (base : Z) : list RankedRow * Z :=
  match subset with
  | [] => ([], base)
  | _ =>
      let groups := RankOrder (to_ranking <$> subset) in
      (rank_from subset base groups, base + Z.of_nat (length groups))
  end.

Definition has_status (s : Status) (r : RankingReadRow) : bool := bool_decide (row_status r = s).

Definition orderRankings (rows : list RankingReadRow) : list RankedRow :=
  let '(ranked, next) := rankGroups (List.filter (has_status StatusRanked) rows) 1 in
  let '(provisional, _) := rankGroups (List.filter (has_status StatusProvisionally) rows) next in
  ranked ++ provisional ++ ((fun r => MkRankedRow r 0 false) <$> List.filter (has_status StatusUnranked) rows).

Record LocationSummaryProvider := MkSummaryProvider {
  lsp_ProviderID : uuid;
  lsp_RankingStatus : option Status;
  lsp_Metrics : list MetricValue;
  lsp_Window : CollectionWindow
}.

Record LocationSummaryT := MkLocationSummary {
  ls_HorizonMinutes : Z;
  ls_Providers : list LocationSummaryProvider;
  ls_LastSnapshotAt : option Time;
  ls_HasData : bool
}.

Record ProviderSummaryT := MkProviderSummary {
  psm_Cells : list ProviderSummaryCell;
  psm_Windows : gmap uuid CollectionWindow;
  psm_HasData : bool
}.

(** A provider met for the first time in the loop over the metrics. *)
Definition summary_init (statuses : gmap uuid ProviderStatus) (windows : gmap uuid CollectionWindow) (m : MetricValue) :
  LocationSummaryProvider :=
  let st := default zeroStatus (statuses !! mv_ProviderID m) in
  let w := default zeroWindow (windows !! mv_ProviderID m) in
  MkSummaryProvider (mv_ProviderID m) (ps_RankingStatus st) []
    (MkWindow (cw_FirstSnapshotAt w) (cw_LastSnapshotAt w) (ps_Coverage st) (ps_Reliability st)).

Definition summary_step (p : LocationSummaryProvider) (m : MetricValue) : LocationSummaryProvider :=
  MkSummaryProvider (lsp_ProviderID p) (lsp_RankingStatus p) (lsp_Metrics p ++ [m]) (lsp_Window p).

(** [if t != nil && (last == nil || t.After(last)) { last = t }] *)
Definition later (last t : option Time) : option Time :=
  match t with
  | None => last
  | Some x => match last with Some y => if After x y then Some x else last | None => Some x end
  end.

Definition assembleLocation (horizon : Z) (metrics : list MetricValue) (statuses : gmap uuid ProviderStatus)
  (windows : gmap uuid CollectionWindow) : LocationSummaryT :=
  let providers := (group_list mv_ProviderID (summary_init statuses windows) summary_step metrics).*2 in
  MkLocationSummary horizon providers (foldl later None ((fun p => cw_LastSnapshotAt (lsp_Window p)) <$> providers))
    (0 <? Z.of_nat (length providers)).

(** *** Trends *)

Record TrendSeries := MkTrendSeries { ts_ProviderID : uuid; ts_Buckets : list TrendBucket }.

Record TrendsResult := MkTrendsResult { tr_Series : list TrendSeries; tr_HasData : bool; tr_LastPeriodEnd : option Time }.

(** The bucket of [t] in the zone [loc]. *)
Definition truncToBucket (t : Time) (loc : Location) (aggregation : string) : Time * Time :=
  let lt := In_ t loc in
  if String.eqb aggregation "weekly" then
    let back := (Weekday lt + 6) mod 7 in
    let start := AddDateIn (DateIn (Year lt) (Month lt) (DayOfMonth lt) loc) loc 0 0 (- back) in
    (start, AddDateIn start loc 0 0 7)
  else if String.eqb aggregation "monthly" then
    let start := DateIn (Year lt) (Month lt) 1 loc in
    (start, AddDateIn start loc 0 1 0)
  else
    let start := DateIn (Year lt) (Month lt) (DayOfMonth lt) loc in
    (start, AddDateIn start loc 0 0 1).

Record trendBucketAcc := MkTrendAcc {
  ta_start : Time;
  ta_end : Time;
  sumVW : float64;
  sumW : float64;
  ta_sample : Z;
  ta_n : Z;
  single : TrendBucket
}.

Section Trend.
Context (loc : Location) (aggregation : string).

(** [start.UnixNano()]: 64 bits. *)
Definition bucket_key (b : TrendBucket) : Z := wrap64 (truncToBucket (tb_PeriodStart b) loc aggregation).1.

Definition trend_init (b : TrendBucket) : trendBucketAcc :=
  let '(start, e) := truncToBucket (tb_PeriodStart b) loc aggregation in MkTrendAcc start e f0 f0 0 0 b.

Definition trend_weight (b : TrendBucket) : float64 :=
  let w := f64_of_Z (tb_SampleCount b) in if feqb w f0 then f1 else w.

Definition trend_step (a : trendBucketAcc) (b : TrendBucket) : trendBucketAcc :=
  let '(vw, w) := match tb_Value b with
                  | Some v => ((sumVW a + v * trend_weight b)%f64, (sumW a + trend_weight b)%f64)
                  | None => (sumVW a, sumW a)
                  end in
  MkTrendAcc (ta_start a) (ta_end a) vw w (ta_sample a + tb_SampleCount b) (ta_n a + 1) b.

Definition trend_output (a : trendBucketAcc) : TrendBucket :=
  let '(v, lo, hi) :=
    if ta_n a =? 1 then (tb_Value (single a), tb_CILower (single a), tb_CIUpper (single a))
    else if fltb f0 (sumW a) then (Some (sumVW a / sumW a)%f64, None, None) else (None, None, None) in
  MkTrendBucket (tb_ProviderID (single a)) (ta_start a) (ta_end a) v lo hi (ta_sample a).

(** [trendGrouping]: [add] over the rows, then [buckets]. *)
Definition trend_groups (rows : list TrendBucket) : Grouped Z trendBucketAcc := group_all bucket_key trend_init trend_step rows.

Definition buckets (g : Grouped Z trendBucketAcc) : list TrendBucket :=
  omap (fun k => trend_output <$> g_by g !! k) (stable_sort Z.ltb (g_order g)).

(** The loop of [Trends]: one grouping per provider. *)
Definition provider_groups (rows : list TrendBucket) : Grouped uuid (Grouped Z trendBucketAcc) :=
  group_all tb_ProviderID (fun _ => MkGrouped ∅ []) (group_add bucket_key trend_init trend_step) rows.

Definition assembleTrends (rows : list TrendBucket) : TrendsResult :=
  let g := provider_groups rows in
  let series := omap (fun id => (fun tg => MkTrendSeries id (buckets tg)) <$> g_by g !! id) (g_order g) in
  MkTrendsResult series (0 <? Z.of_nat (length rows))
    (foldl later None ((fun s => tb_PeriodEnd <$> last (ts_Buckets s)) <$> series)).
End Trend.

(** *** Forecast comparison *)

Record ComparisonQuery := MkComparisonQuery {
  cq_LocationID : uuid; cq_ProviderIDs : list uuid; cq_Variable : string; cq_HorizonMinutes : Z; cq_From : Time; cq_To : Time
}.

Record ComparisonSeries := MkComparisonSeries { cs_ProviderID : uuid; cs_IssuedAt : Time; cs_Points : list ForecastPoint }.

Record ComparisonDayMetric := MkDayMetric {
  dm_ProviderID : uuid; dm_MAE : option float64; dm_RMSE : option float64; dm_Bias : option float64; dm_SampleCount : Z
}.

Record ComparisonResult := MkComparisonResult {
  cr_Series : list ComparisonSeries;
  cr_Observations : list ComparisonObservation;
  cr_DayMetrics : list ComparisonDayMetric;
  cr_ErrorBandMAE : option float64;
  cr_ObservationsAvailable : bool;
  cr_ProvenanceMix : option (gmap string float64);
  cr_LatestObservedAt : option Time
}.

Definition obsByHour (obs : list ComparisonObservation) : gmap Z ComparisonObservation :=
  foldl (fun m o => <[cmo_ObservedAt o := o]> m) ∅ obs.

(** [cont.Add(p.Value, o.Value, ProvenanceWeight(o))] when the hour is observed. *)
Definition add_matched (byHour : gmap Z ComparisonObservation) (c : Continuous) (p : ForecastPoint) : Continuous :=
  match byHour !! fp_TargetTime p with
  | Some o => Continuous_Add c (fp_Value p) (cmo_Value o) (ProvenanceWeight (cmo_ObservationType o))
  | None => c
  end.

Record seriesAcc := MkSeriesAcc { sa_series : ComparisonSeries; sa_cont : Continuous }.

Definition series_init (p : ForecastPoint) : seriesAcc :=
  MkSeriesAcc (MkComparisonSeries (fp_ProviderID p) (fp_IssuedAt p) []) Continuous_zero.

Definition series_step (byHour : gmap Z ComparisonObservation) (a : seriesAcc) (p : ForecastPoint) : seriesAcc :=
  let s := sa_series a in
  MkSeriesAcc (MkComparisonSeries (cs_ProviderID s) (if Before (fp_IssuedAt p) (cs_IssuedAt s) then fp_IssuedAt p else cs_IssuedAt s)
                 (cs_Points s ++ [p]))
    (add_matched byHour (sa_cont a) p).

Definition day_metric (id : uuid) (a : seriesAcc) : ComparisonDayMetric :=
  MkDayMetric id (MAE (sa_cont a)) (RMSE (sa_cont a)) (Bias (sa_cont a)) (Continuous_N (sa_cont a)).

Definition provenanceMix (obs : list ComparisonObservation) : option (gmap string float64) :=
  match obs with
  | [] => None
  | _ =>
      let counts := g_by (group_all cmo_ObservationType (fun _ => 0) (fun n _ => n + 1) obs) in
      Some ((fun v => (f64_of_Z v / f64_of_Z (Z.of_nat (length obs)))%f64) <$> counts)
  end.

Definition assembleComparison (providerIDs : list uuid) (points : list ForecastPoint) (obs : list ComparisonObservation) : ComparisonResult :=
  let byHour := obsByHour obs in
  let accs := g_by (group_all fp_ProviderID series_init (series_step byHour) points) in
  let pooled := foldl (add_matched byHour) Continuous_zero points in
  MkComparisonResult
    (omap (fun id => sa_series <$> accs !! id) providerIDs)
    obs
    (omap (fun id => day_metric id <$> accs !! id) providerIDs)
    (MAE pooled) (0 <? Z.of_nat (length obs)) (provenanceMix obs) (cmo_ObservedAt <$> last obs).

Section Service.
Context `{Env} `{Database}.

(** A statement with an [integer] parameter: the driver refuses a value of more than
    32 bits before anything is sent. *)
Definition int4 (n : Z) : bool := (- 2 ^ 31 <=? n) && (n <? 2 ^ 31).
Definition query4 {A} (n : Z) (op : string) (f : ReadTables -> A) : M ReadTables A :=
  if int4 n then query op f else throw op.

Definition Rankings (q : RankingsQuery) : M ReadTables RankingsResult :=
  let profile := if String.eqb (rq_Profile q) "" then ProfileUniform else rq_Profile q in
  let minSample := if rq_MinSampleCount q <=? 0 then DefaultMinSampleCount else rq_MinSampleCount q in
  rows <-- query4 (rq_HorizonMinutes q) "list rankings" (pg_ListRankings (rq_LocationID q) (rq_HorizonMinutes q) profile) ;;
  obs <-- query "latest observation" (pg_LatestObservation (rq_LocationID q)) ;;
  let res := MkRankingsResult [] obs MethodologyVersion WeightsVersion (rq_HorizonMinutes q) profile minSample zeroTime zeroTime None in
  match rows with
  | [] => ret (res false)
  | r :: rest =>
      let last := foldl (fun last x => if After (rr_CalculatedAt x) last then rr_CalculatedAt x else last) (rr_CalculatedAt r) rest in
      ret (MkRankingsResult (orderRankings rows) obs MethodologyVersion WeightsVersion (rq_HorizonMinutes q) profile minSample
             (rr_PeriodStart (rr_row r)) (rr_PeriodEnd (rr_row r)) (Some last) true)
  end.

Definition LocationSummary (locationID : uuid) (horizon : Z) : M ReadTables LocationSummaryT :=
  metrics <-- query4 horizon "location metrics" (pg_LocationMetrics locationID horizon) ;;
  statuses <-- query4 horizon "location provider statuses" (pg_LocationProviderStatuses locationID horizon) ;;
  windows <-- query "location windows" (pg_LocationWindows locationID) ;;
  ret (assembleLocation horizon metrics statuses windows).

Definition ProviderSummary (providerID : uuid) : M ReadTables ProviderSummaryT :=
  cells <-- query "provider ranking cells" (pg_ProviderRankingCells providerID) ;;
  windows <-- query "provider windows" (pg_ProviderWindows providerID) ;;
  ret (MkProviderSummary cells windows (0 <? Z.of_nat (length cells))).

Definition Trends (f : TrendFilter) (loc : option Location) : M ReadTables TrendsResult :=
  let loc := default UTC loc in
  rows <-- query4 (tf_HorizonMinutes f) "accuracy trends" (pg_AccuracyTrends f) ;;
  ret (assembleTrends loc (tf_Aggregation f) rows).

Definition ForecastComparison (q : ComparisonQuery) : M ReadTables ComparisonResult :=
  match forecastColumn (cq_Variable q), observationColumn (cq_Variable q) with
  | None, _ => throw "forecast comparison: unsupported variable"
  | Some col, ocol =>
      points <-- query4 (cq_HorizonMinutes q) "forecast comparison points"
        (pg_ForecastComparisonPoints (cq_LocationID q) (cq_ProviderIDs q) col (cq_HorizonMinutes q) (cq_From q) (cq_To q)) ;;
      match ocol with
      | None => throw "comparison observations: unsupported variable"
      | Some ocol =>
          obs <-- query "comparison observations" (pg_ComparisonObservations (cq_LocationID q) ocol (cq_From q) (cq_To q)) ;;
          ret (assembleComparison (cq_ProviderIDs q) points obs)
      end
  end.
End Service.

End ReadModel.
