(* ===== verification/ReadProps.v ===== *)
(** * The read models: theorems

    Local-time buckets ([trunc_bucket_spec]): for a zone whose midnights are regular
    (from some instant on, [trunc_bucket_since]) the bucket of an instant is the set of instants of the same local day, week or
    month.  Trends ([trends_rebucket]), the served ranking order ([rankings_served])
    and the forecast comparison ([comparison_exact]) are compared with specifications
    that do not mention the loops. *)

From Stdlib Require Import ZArith NArith Lia ZifyBool Bool String Sorting.Sorted.
From stdpp Require Import base list strings gmap sorting.
From S2P Require Import Prelude Float64 Float64Round GoTime GoZone Grouping Uuid Effects Versioned Records Eval EvalProps Matching Ranking Aggregate RankService Catalog ReadModel.

Import Eval EvalProps Records Ranking Aggregate RankService ReadModel.
Local Open Scope string_scope.
Local Open Scope list_scope.
Local Open Scope Z_scope.

Module ReadProps.

(** ** Buckets *)

(** The number of the local day, week (from Monday) or month of a civil time. *)
Definition period_id (aggregation : string) (c : Time) : Z :=
  if String.eqb aggregation "weekly" then (dayNumber c + 3) / 7
  else if String.eqb aggregation "monthly" then 12 * Year c + Month c
  else dayNumber c.

Lemma Date_days y m d : dateDays y m d * Day = Date y m d.
Proof. unfold Date. reflexivity. Qed.

(** First instant of the month with number [i]. *)
Definition month_first (i : Z) : Time := Date ((i - 1) / 12) ((i - 1) mod 12 + 1) 1.

Lemma month_first_of y m : 1 <= m <= 12 -> month_first (12 * y + m) = Date y m 1.
Proof. intros Hm. unfold month_first. f_equal; zdiv. Qed.

Lemma month_first_next y m : 1 <= m <= 12 -> month_first (12 * y + m + 1) = Date y (m + 1) 1.
Proof.
  intros Hm. unfold month_first, Date, dateDays. f_equal.
  replace (12 * y + m + 1 - 1) with (12 * y + m) by lia.
  assert ((12 * y + m) / 12 = y + (m + 1 - 1) / 12 /\ (12 * y + m) mod 12 = (m + 1 - 1) mod 12) as [-> ->] by zdiv.
  assert ((((m + 1 - 1) mod 12 + 1) - 1) / 12 = 0 /\ (((m + 1 - 1) mod 12 + 1) - 1) mod 12 = (m + 1 - 1) mod 12) as [-> ->] by zdiv.
  now rewrite !Z.add_0_r.
Qed.

Lemma month_first_step i : month_first i + 28 * Day <= month_first (i + 1) <= month_first i + 31 * Day.
Proof.
  set (y := (i - 1) / 12). set (m := (i - 1) mod 12 + 1). assert (Hm : 1 <= m <= 12) by (unfold m; zdiv).
  assert (E : i = 12 * y + m) by (unfold y, m; zdiv). clearbody y m. subst i. rewrite month_first_next, month_first_of by assumption.
  pose proof (month_length y m Hm). lia.
Qed.

Lemma month_first_mono i j : i <= j -> month_first i <= month_first j.
Proof.
  intros L. replace j with (i + Z.of_nat (Z.to_nat (j - i))) by lia.
  induction (Z.to_nat (j - i)) as [|n IH]; [rewrite Z.add_0_r; lia|].
  pose proof (month_first_step (i + Z.of_nat n)). replace (i + Z.of_nat (S n)) with (i + Z.of_nat n + 1) by lia.
  unfold Day, Hour, Minute, Second in *. lia.
Qed.

Lemma month_number c i : month_first i <= c < month_first (i + 1) <-> 12 * Year c + Month c = i.
Proof.
  assert (H : month_first (12 * Year c + Month c) <= c < month_first (12 * Year c + Month c + 1)).
  { rewrite month_first_next, month_first_of by apply Month_bounds. apply month_contains. }
  split; [|intros <-; assumption]. intros R. set (j := 12 * Year c + Month c) in *.
  destruct (Z.lt_trichotomy j i) as [L|[E|L]]; [|assumption|].
  - pose proof (month_first_mono (j + 1) i ltac:(lia)). lia.
  - pose proof (month_first_mono (i + 1) j ltac:(lia)). lia.
Qed.

(** The civil bounds of the bucket, in days. *)
Definition civil_bounds (aggregation : string) (c : Time) : Z * Z :=
  if String.eqb aggregation "weekly" then let s := dayNumber c - (Weekday c + 6) mod 7 in (s, s + 7)
  else if String.eqb aggregation "monthly" then (dateDays (Year c) (Month c) 1, dateDays (Year c) (Month c + 1) 1)
  else (dayNumber c, dayNumber c + 1).

Lemma civil_bounds_spec a c : let '(s, e) := civil_bounds a c in
  dayNumber c - 31 <= s <= dayNumber c /\ dayNumber c < e <= dayNumber c + 31 /\
  forall x, s * Day <= x < e * Day <-> period_id a x = period_id a c.
Proof.
  unfold civil_bounds, period_id, Weekday. destruct (String.eqb a "weekly"); [|destruct (String.eqb a "monthly")].
  - set (n := dayNumber c). assert (Hd : forall x k, k * Day <= x < (k + 7) * Day <-> k <= dayNumber x < k + 7).
    { intros x k. unfold dayNumber. pose proof (Z.div_mod x Day ltac:(discriminate)). pose proof (Z.mod_pos_bound x Day eq_refl).
      unfold Day, Hour, Minute, Second in *. lia. }
    split; [zdiv|]. split; [zdiv|]. intros x. rewrite Hd. zdiv.
  - pose proof (Month_bounds c) as Mb. pose proof (month_contains c) as C. pose proof (month_length (Year c) (Month c) Mb) as L.
    rewrite <- !Date_days in C, L. rewrite !Date_days.
    pose proof (Z.div_mod c Day ltac:(discriminate)). pose proof (Z.mod_pos_bound c Day eq_refl). fold (dayNumber c) in *.
    set (u := dateDays (Year c) (Month c) 1) in *. set (v := dateDays (Year c) (Month c + 1) 1) in *.
    split; [unfold Day, Hour, Minute, Second in *; lia|]. split; [unfold Day, Hour, Minute, Second in *; lia|].
    intros x. rewrite <- month_first_of, <- month_first_next by assumption. apply month_number.
  - split; [lia|]. split; [lia|]. intros x. unfold dayNumber. pose proof (Z.div_mod x Day ltac:(discriminate)).
    pose proof (Z.mod_pos_bound x Day eq_refl). unfold Day, Hour, Minute, Second in *. lia.
Qed.

(** Instants of the next [2^60] seconds. *)
Definition instant_ok (t : Time) : Prop := Z.abs t <= 2 ^ 60 * Second.

Lemma In_near l t : zone_ok l = true -> instant_ok t -> Z.abs (In_ t l - t) < Day.
Proof.
  intros O R. assert (Rs : alpha <= unixSec t < omega).
  { unfold instant_ok, unixSec, alpha, omega, Second in *. zdiv. }
  pose proof (zs_small _ _ _ (lookup_zone_spec l _ O Rs)) as S. unfold In_, offsetAt.
  set (o := z_offset _) in *. unfold Day, Hour, Minute, DaySec, Second in *. lia.
Qed.

(** A number of days whose midnight is far from the ends of the range. *)
Definition day_ok (k : Z) : Prop := time_ok (k * Day).

Lemma AddDateIn_days l k n : zone_ok l = true -> day_ok k ->
  AddDateIn (resolve l (k * Day)) l 0 0 n = resolve l ((k + n) * Day).
Proof.
  intros O R. unfold AddDateIn. destruct (resolve_midnight l k O R) as [-> _]. rewrite AddDate_days. f_equal. lia.
Qed.

Lemma Date_day c : Date (Year c) (Month c) (DayOfMonth c) = dayNumber c * Day.
Proof. rewrite Date_fields. unfold dayNumber. pose proof (Z.div_mod c Day ltac:(discriminate)). lia. Qed.

Lemma dayNumber_near c : Z.abs (dayNumber c * Day - c) < Day.
Proof.
  unfold dayNumber. pose proof (Z.div_mod c Day ltac:(discriminate)). pose proof (Z.mod_pos_bound c Day eq_refl). lia.
Qed.

(** The code computes the civil bounds and resolves them. *)
Lemma trunc_resolve l t a : zone_ok l = true -> instant_ok t ->
  let '(s, e) := civil_bounds a (In_ t l) in
  day_ok s /\ day_ok e /\ truncToBucket t l a = (resolve l (s * Day), resolve l (e * Day)).
Proof.
  intros O R. pose proof (In_near l t O R) as Nr. set (c := In_ t l) in *.
  pose proof (civil_bounds_spec a c) as B. pose proof (dayNumber_near c) as Dn.
  assert (Hk : forall k, Z.abs (k - dayNumber c) <= 32 -> day_ok k).
  { intros k Hk. unfold day_ok, time_ok, instant_ok, Day, Hour, Minute, Second in *. lia. }
  destruct (civil_bounds a c) as [s e] eqn:E. destruct B as (Bs & Be & _).
  split; [apply Hk; lia|]. split; [apply Hk; lia|].
  unfold truncToBucket, civil_bounds in *. fold c. unfold DateIn. rewrite Date_day.
  destruct (String.eqb a "weekly"); [|destruct (String.eqb a "monthly")]; injection E as <- <-.
  - rewrite AddDateIn_days by (auto; apply Hk; lia). f_equal. rewrite Z.add_opp_r. apply AddDateIn_days; [assumption|]. apply Hk. lia.
  - unfold AddDateIn. rewrite <- (Date_days (Year c) (Month c) 1).
    destruct (resolve_midnight l (dateDays (Year c) (Month c) 1) O) as [-> _]; [apply Hk; lia|].
    now rewrite !Date_days, AddDate_next_month by apply Month_bounds.
  - f_equal. apply AddDateIn_days; [assumption|]. apply Hk. lia.
Qed.

(** The bucket of an instant: its bounds are local midnights, and it holds exactly
    the instants of the same local period. *)
Lemma trunc_bucket_exact l t a : zone_ok l = true -> instant_ok t ->
  let '(s, e) := truncToBucket t l a in
  s <= t < e /\ Z.abs (s - t) <= 34 * Day /\ Z.abs (e - t) <= 34 * Day /\
  In_ s l mod Day = 0 /\ In_ e l mod Day = 0 /\
  forall u, time_ok u -> (s <= u < e <-> period_id a (In_ u l) = period_id a (In_ t l)).
Proof.
  intros O R. pose proof (trunc_resolve l t a O R) as T. pose proof (civil_bounds_spec a (In_ t l)) as B.
  pose proof (In_near l t O R) as Nr. pose proof (dayNumber_near (In_ t l)) as Dn.
  destruct (civil_bounds a (In_ t l)) as [s e]. destruct T as (Ks & Ke & ->). destruct B as (Bs & Be & Per).
  destruct (resolve_midnight l s O Ks) as [Is As]. destruct (resolve_midnight l e O Ke) as [Ie Ae].
  assert (Rt : time_ok t) by (unfold instant_ok, time_ok, Second in *; lia).
  assert (Ord : forall u, time_ok u -> (resolve l (s * Day) <= u < resolve l (e * Day) <-> s * Day <= In_ u l < e * Day)).
  { intros u Hu. unfold day_ok, time_ok in Ks, Ke.
    assert (Rs : Z.abs (resolve l (s * Day)) <= 2 ^ 62 * Second) by (unfold Day, Hour, Minute, Second in *; lia).
    assert (Re : Z.abs (resolve l (e * Day)) <= 2 ^ 62 * Second) by (unfold Day, Hour, Minute, Second in *; lia).
    pose proof (midnight_order l _ s u O Is Rs Hu). pose proof (midnight_order l _ e u O Ie Re Hu). lia. }
  rewrite Is, Ie, !Z.mod_mul by discriminate.
  split; [apply Ord, Per; auto|]. split; [unfold Day, Hour, Minute, Second in *; lia|].
  split; [unfold Day, Hour, Minute, Second in *; lia|]. split; [reflexivity|]. split; [reflexivity|].
  intros u Hu. rewrite Ord by assumption. apply Per.
Qed.

(** The same for a zone that is regular from the second [s0] on, and instants at
    least forty days after it. *)
Definition regular_since (s0 : Z) (l : Location) : bool := (alpha <=? s0) && zone_ok (since s0 l).

Section Since.
Context (s0 : Z) (l : Location) (Hr : regular_since s0 l = true).

Lemma regular_parts : alpha <= s0 /\ zone_ok (since s0 l) = true.
Proof. unfold regular_since in Hr. bool_simp. auto. Qed.

Lemma resolve_since k : day_ok k -> s0 * Second + Day <= k * Day -> resolve l (k * Day) = resolve (since s0 l) (k * Day).
Proof.
  intros Hk Hs. destruct regular_parts as [Ha O]. apply since_resolve; [assumption..|].
  assert (Rs : alpha <= unixSec (k * Day) < omega).
  { rewrite unixSec_day. unfold day_ok, time_ok, Day, Hour, Minute, Second, DaySec, alpha, omega in *. lia. }
  exact (zs_small _ _ _ (lookup_zone_spec _ _ O Rs)).
Qed.

(** Moving from one midnight to another. *)
Lemma move_since k ys ms ds k' : day_ok k -> day_ok k' -> s0 * Second + 2 * Day <= k * Day -> s0 * Second + Day <= k' * Day ->
  AddDate (k * Day) ys ms ds = k' * Day ->
  AddDateIn (resolve l (k * Day)) l ys ms ds = AddDateIn (resolve (since s0 l) (k * Day)) (since s0 l) ys ms ds.
Proof.
  intros Hk Hk' Ls Ls' E. destruct regular_parts as [Ha O]. destruct (resolve_midnight (since s0 l) k O Hk) as [Ei Nr].
  unfold AddDateIn. rewrite resolve_since by (auto; unfold Day, Hour, Minute, Second in *; lia).
  rewrite since_reading with (s0 := s0) by (auto; unfold Day, Hour, Minute, Second in *; lia).
  rewrite Ei, E. now apply resolve_since.
Qed.

Lemma trunc_since t a : instant_ok t -> s0 * Second + 40 * Day <= t ->
  truncToBucket t l a = truncToBucket t (since s0 l) a.
Proof.
  intros R L. destruct regular_parts as [Ha O]. pose proof (In_near (since s0 l) t O R) as Nr.
  pose proof (civil_bounds_spec a (In_ t (since s0 l))) as B. pose proof (dayNumber_near (In_ t (since s0 l))) as Dn.
  unfold truncToBucket. rewrite (since_reading s0 l t) by (auto; unfold Day, Hour, Minute, Second in *; lia).
  set (c := In_ t (since s0 l)) in *. unfold DateIn. rewrite Date_day.
  assert (Hk : forall k, Z.abs (k - dayNumber c) <= 32 -> day_ok k /\ s0 * Second + 2 * Day <= k * Day).
  { intros k Hk. unfold day_ok, time_ok, instant_ok, Day, Hour, Minute, Second in *. lia. }
  assert (H1 : forall k, Z.abs (k - dayNumber c) <= 32 -> s0 * Second + Day <= k * Day).
  { intros k [_ X]%Hk. unfold Day, Hour, Minute, Second in *. lia. }
  assert (M : forall k n, Z.abs (k - dayNumber c) <= 32 -> Z.abs (k + n - dayNumber c) <= 32 ->
    AddDateIn (resolve l (k * Day)) l 0 0 n = AddDateIn (resolve (since s0 l) (k * Day)) (since s0 l) 0 0 n).
  { intros k n K1 K2. apply (move_since k 0 0 n (k + n)); try apply Hk; auto. rewrite AddDate_days. lia. }
  unfold civil_bounds in B. destruct (String.eqb a "weekly"); [|destruct (String.eqb a "monthly")].
  - destruct B as (Bs & Be & _). rewrite M by lia. f_equal.
    rewrite AddDateIn_days by (auto; apply Hk; lia). rewrite <- resolve_since by (try apply Hk; try apply H1; lia).
    rewrite M by lia. now rewrite resolve_since by (try apply Hk; try apply H1; lia).
  - destruct B as (Bs & Be & _). rewrite <- (Date_days (Year c) (Month c) 1) in *.
    rewrite (move_since _ 0 1 0 (dateDays (Year c) (Month c + 1) 1)), resolve_since; [reflexivity|..]; try apply Hk; try apply H1; try lia.
    now rewrite Date_days, AddDate_next_month by apply Month_bounds.
  - rewrite M by lia. now rewrite resolve_since by (try apply Hk; try apply H1; lia).
Qed.

Lemma trunc_bucket_since t a : instant_ok t -> s0 * Second + 40 * Day <= t ->
  let '(s, e) := truncToBucket t l a in
  s <= t < e /\ In_ s l mod Day = 0 /\ In_ e l mod Day = 0 /\
  forall u, time_ok u -> s0 * Second <= u -> (s <= u < e <-> period_id a (In_ u l) = period_id a (In_ t l)).
Proof.
  intros R L. destruct regular_parts as [Ha O]. rewrite trunc_since by assumption.
  pose proof (trunc_bucket_exact (since s0 l) t a O R) as T. destruct (truncToBucket t (since s0 l) a) as [s e].
  destruct T as (T1 & T2 & T3 & T4 & T5 & T6). unfold Day, Hour, Minute, Second in T2, T3, L.
  rewrite !(since_reading s0 l) by (auto; unfold Second; lia). split; [exact T1|]. split; [exact T4|]. split; [exact T5|].
  intros u Hu Lu. rewrite (since_reading s0 l u) by auto. now apply T6.
Qed.
End Since.

(** ** Trends *)

(** Row times within the range of [UnixNano]. *)
Definition row_time_ok (r : TrendBucket) : Prop := Z.abs (tb_PeriodStart r) <= 2 ^ 62.

Definition in_bucket (s e : Time) (r : TrendBucket) : bool := (s <=? tb_PeriodStart r) && (tb_PeriodStart r <? e).

(** Σ sample_count of the rows, and the values with their weights. *)
Definition samples (rs : list TrendBucket) : Z := foldr Z.add 0 (tb_SampleCount <$> rs).
Definition valued (rs : list TrendBucket) : list (float64 * float64) :=
  omap (fun r => (fun v => (v, trend_weight r)) <$> tb_Value r) rs.
Definition weighted_sum (vs : list (float64 * float64)) : float64 := foldl (fun a p => (a + p.1 * p.2)%f64) f0 vs.
Definition weight_sum (vs : list (float64 * float64)) : float64 := foldl (fun a p => (a + p.2)%f64) f0 vs.

(** What the code publishes for the rows of one bucket. *)
Definition combined (rs : list TrendBucket) (b : TrendBucket) : Prop :=
  match rs with
  | [] => False
  | [r] => tb_Value b = tb_Value r /\ tb_CILower b = tb_CILower r /\ tb_CIUpper b = tb_CIUpper r
  | _ =>
      tb_Value b = (if fltb f0 (weight_sum (valued rs)) then Some (weighted_sum (valued rs) / weight_sum (valued rs))%f64 else None) /\
      tb_CILower b = None /\ tb_CIUpper b = None
  end.

Lemma wrap64_small n : Z.abs n < 2 ^ 63 -> wrap64 n = n.
Proof. intros H. unfold wrap64. rewrite Z.mod_small; lia. Qed.

Lemma row_instant r : row_time_ok r -> instant_ok (tb_PeriodStart r).
Proof. unfold row_time_ok, instant_ok, Second. lia. Qed.

Section Buckets.
Context (l : Location) (a : string) (O : zone_ok l = true).

Lemma trunc_same t u : instant_ok t -> instant_ok u ->
  (truncToBucket t l a).1 <= u < (truncToBucket t l a).2 -> truncToBucket u l a = truncToBucket t l a.
Proof.
  intros Rt Ru. pose proof (trunc_bucket_exact l t a O Rt) as T. pose proof (trunc_bucket_exact l u a O Ru) as U.
  destruct (truncToBucket t l a) as [s e], (truncToBucket u l a) as [s' e']; cbn.
  destruct T as (T1 & T2 & T3 & _ & _ & T), U as (U1 & U2 & U3 & _ & _ & U). intros Hu.
  assert (K : forall x, Z.abs (x - t) <= 34 * Day \/ Z.abs (x - u) <= 34 * Day -> time_ok x).
  { intros x. unfold time_ok, instant_ok, Day, Hour, Minute, Second in *. lia. }
  apply T in Hu; [|apply K; right; rewrite Z.sub_diag; unfold Day, Hour, Minute, Second; lia].
  assert (Same : forall x, time_ok x -> (s <= x < e <-> s' <= x < e')) by (intros x Hx; rewrite T, U by assumption; now rewrite Hu).
  assert (Ke : time_ok (e - 1)) by (apply K; left; lia). assert (Ke' : time_ok (e' - 1)) by (apply K; right; lia).
  pose proof (Same s ltac:(apply K; lia)). pose proof (Same s' ltac:(apply K; lia)).
  pose proof (Same _ Ke). pose proof (Same _ Ke'). f_equal; lia.
Qed.

Lemma bucket_key_start r : row_time_ok r -> bucket_key l a r = (truncToBucket (tb_PeriodStart r) l a).1.
Proof.
  intros R. unfold bucket_key. apply wrap64_small. pose proof (trunc_bucket_exact l _ a O (row_instant r R)) as T.
  destruct (truncToBucket _ l a) as [s e]. destruct T as (T1 & T2 & _). cbn.
  unfold row_time_ok, Day, Hour, Minute, Second in *. lia.
Qed.

Lemma bucket_key_in r b : row_time_ok r -> row_time_ok b ->
  bucket_key l a r = bucket_key l a b <->
  in_bucket (truncToBucket (tb_PeriodStart b) l a).1 (truncToBucket (tb_PeriodStart b) l a).2 r = true.
Proof.
  intros Rr Rb. rewrite !bucket_key_start by assumption. unfold in_bucket. rewrite andb_true_iff, Z.leb_le, Z.ltb_lt. split.
  - intros E. pose proof (trunc_bucket_exact l _ a O (row_instant r Rr)) as T. pose proof (trunc_bucket_exact l _ a O (row_instant b Rb)) as U.
    destruct (truncToBucket _ l a) as [s e], (truncToBucket (tb_PeriodStart b) l a) as [s' e']. cbn in *. subst s'.
    destruct T as (T1 & T2 & T3 & _ & _ & T), U as (U1 & U2 & _ & _ & _ & U).
    assert (Ks : time_ok s) by (unfold row_time_ok, time_ok, Day, Hour, Minute, Second in *; lia).
    apply U; [unfold row_time_ok, time_ok, Second in *; lia|].
    rewrite <- (proj1 (T s Ks)) by lia. apply U; [assumption|lia].
  - intros H. now rewrite (trunc_same (tb_PeriodStart b) (tb_PeriodStart r) (row_instant b Rb) (row_instant r Rr) H).
Qed.

(** The accumulator of one bucket. *)
Lemma trend_acc_fold rs acc :
  let r := foldl trend_step acc rs in
  ta_start r = ta_start acc /\ ta_end r = ta_end acc /\ ta_sample r = ta_sample acc + samples rs /\
  ta_n r = ta_n acc + Z.of_nat (length rs) /\ single r = default (single acc) (last rs) /\
  sumVW r = foldl (fun a p => (a + p.1 * p.2)%f64) (sumVW acc) (valued rs) /\
  sumW r = foldl (fun a p => (a + p.2)%f64) (sumW acc) (valued rs).
Proof.
  clear O. unfold samples, valued. revert acc. induction rs as [|x rs IH]; intros acc; [cbn; repeat split; lia|].
  assert (L : default (single acc) (last (x :: rs)) = default x (last rs)) by (rewrite last_cons; now destruct (last rs)).
  rewrite L. cbn -[last]. destruct (IH (trend_step acc x)) as (-> & -> & -> & -> & -> & -> & ->). unfold trend_step.
  destruct (tb_Value x); cbn -[last]; repeat split; lia.
Qed.

Lemma trend_output_spec x rs acc : group_value (trend_init l a) trend_step (x :: rs) = Some acc ->
  let b := trend_output acc in
  (tb_PeriodStart b, tb_PeriodEnd b) = truncToBucket (tb_PeriodStart x) l a /\
  tb_SampleCount b = samples (x :: rs) /\ combined (x :: rs) b.
Proof.
  clear O. unfold group_value. intros [= E]. destruct (trend_acc_fold (x :: rs) (trend_init l a x)) as (E1 & E2 & E3 & E4 & E5 & E6 & E7).
  change (foldl trend_step (trend_init l a x) (x :: rs) = acc) in E. rewrite E in E1, E2, E3, E4, E5, E6, E7. clear E.
  unfold trend_init in *. destruct (truncToBucket (tb_PeriodStart x) l a) as [s e]. cbn [ta_start ta_end ta_sample ta_n] in E1, E2, E3, E4.
  unfold trend_output. rewrite E3, E4. destruct rs as [|y rs]; cbn [length].
  - cbn in E5. change (0 + Z.of_nat 1 =? 1) with true. cbn. rewrite E1, E2, E5. repeat split.
  - assert ((0 + Z.of_nat (S (S (length rs))) =? 1) = false) as -> by (apply Z.eqb_neq; lia).
    unfold combined, weighted_sum, weight_sum. rewrite E6, E7. cbn [sumVW sumW]. destruct (fltb _ _); cbn; rewrite E1, E2; repeat split.
Qed.
End Buckets.

Lemma StronglySorted_omap {A B} (R : relation A) (R' : relation B) (h : A -> option B) l :
  (forall x x' y y', x ∈ l -> x' ∈ l -> R x x' -> h x = Some y -> h x' = Some y' -> R' y y') ->
  StronglySorted R l -> StronglySorted R' (omap h l).
Proof.
  intros Hh S. induction S as [|x l S IH F]; cbn; [constructor|].
  assert (I : StronglySorted R' (omap h l)).
  { apply IH. intros u v y y' Hu Hv. apply Hh; now right. }
  destruct (h x) as [y|] eqn:E; [|assumption]. constructor; [assumption|]. apply Forall_forall. intros y' (x' & Hx' & E')%list_elem_of_omap.
  rewrite Forall_forall in F. eapply Hh; [left|right; exact Hx'|now apply F|exact E|exact E'].
Qed.

Lemma StronglySorted_mono_in {A} (R R' : relation A) (l : list A) :
  (forall x y, x ∈ l -> y ∈ l -> R x y -> R' x y) -> StronglySorted R l -> StronglySorted R' l.
Proof.
  intros H S. induction S as [|x l S IH F]; constructor.
  - apply IH. intros y z Hy Hz. apply H; now right.
  - rewrite Forall_forall in F |- *. intros y Hy. apply H; [left|now right|auto].
Qed.

(** Sorting distinct integers. *)
Lemma sort_ints_strict l : NoDup l -> StronglySorted Z.lt (stable_sort Z.ltb l).
Proof.
  intros N. assert (S : StronglySorted (fun a b => (b <? a) = false) (stable_sort Z.ltb l)).
  { apply (stable_sort_ordered Z.ltb (fun _ => True)); [intros; lia|intros; lia|]. apply Forall_forall. auto. }
  assert (N' : NoDup (stable_sort Z.ltb l)) by now rewrite stable_sort_perm.
  induction S as [|x k S IH F]; [constructor|]. apply NoDup_cons in N' as [Nx N']. constructor; [auto|].
  rewrite Forall_forall in F |- *. intros y Hy. specialize (F y Hy). cbn in F. bool_simp.
  assert (x <> y) by (intros ->; contradiction). lia.
Qed.

Definition bucket_rows (b : TrendBucket) (rows : list TrendBucket) : list TrendBucket :=
  List.filter (in_bucket (tb_PeriodStart b) (tb_PeriodEnd b)) rows.

Section Groups.
Context (l : Location) (a : string) (O : zone_ok l = true) (rows : list TrendBucket) (R : Forall row_time_ok rows).

Lemma trend_key_output k : k ∈ bucket_key l a <$> rows ->
  exists b, trend_output <$> g_by (trend_groups l a rows) !! k = Some b /\ tb_PeriodStart b = k /\
    tb_SampleCount b = samples (bucket_rows b rows) /\ combined (bucket_rows b rows) b /\
    exists r, r ∈ rows /\ (tb_PeriodStart b, tb_PeriodEnd b) = truncToBucket (tb_PeriodStart r) l a.
Proof.
  intros Hk. unfold trend_groups. rewrite group_all_lookup.
  destruct (with_key (bucket_key l a) k rows) as [|x rs] eqn:W.
  { apply list_elem_of_fmap in Hk as (r & -> & Hr).
    assert (C : r ∈ with_key (bucket_key l a) (bucket_key l a r) rows) by now apply with_key_elem.
    rewrite W in C. now apply not_elem_of_nil in C. }
  assert (x ∈ with_key (bucket_key l a) k rows) as [Hx Ek]%with_key_elem by (rewrite W; left).
  rewrite Forall_forall in R. destruct (group_value (trend_init l a) trend_step (x :: rs)) as [acc|] eqn:G; [|discriminate].
  destruct (trend_output_spec l a x rs acc G) as (Es & Ec & Cm). cbn. exists (trend_output acc). split; [reflexivity|].
  assert (Eb : bucket_rows (trend_output acc) rows = x :: rs).
  { rewrite <- W. unfold bucket_rows, with_key. apply List.filter_ext_in. intros r Hr%list_elem_of_In.
    apply Bool.eq_iff_eq_true. rewrite bool_decide_eq_true, <- Ek, bucket_key_in by auto. now rewrite <- Es. }
  rewrite Eb. split; [|split; [assumption|split; [assumption|eauto]]].
  rewrite bucket_key_start in Ek by auto. now rewrite <- Es in Ek.
Qed.

Lemma buckets_spec : let bs := buckets (trend_groups l a rows) in
  StronglySorted (fun b b' => tb_PeriodStart b < tb_PeriodStart b') bs /\
  (forall b, b ∈ bs -> tb_SampleCount b = samples (bucket_rows b rows) /\ combined (bucket_rows b rows) b /\
     exists r, r ∈ rows /\ (tb_PeriodStart b, tb_PeriodEnd b) = truncToBucket (tb_PeriodStart r) l a) /\
  (forall r, r ∈ rows -> exists b, b ∈ bs /\ in_bucket (tb_PeriodStart b) (tb_PeriodEnd b) r = true).
Proof.
  unfold buckets. destruct (group_all_order (bucket_key l a) (trend_init l a) trend_step rows) as [N M].
  fold (trend_groups l a rows) in N, M. set (g := trend_groups l a rows) in *.
  assert (K : forall k, k ∈ stable_sort Z.ltb (g_order g) <-> k ∈ bucket_key l a <$> rows) by (intros k; rewrite stable_sort_perm; apply M).
  split; [|split].
  - apply (StronglySorted_omap Z.lt); [|now apply sort_ints_strict]. intros k k' b b' Hk Hk' L E E'.
    destruct (trend_key_output k ltac:(now apply K)) as (c & Ec & <- & _). destruct (trend_key_output k' ltac:(now apply K)) as (c' & Ec' & <- & _).
    fold g in Ec, Ec'. congruence.
  - intros b (k & Hk & E)%list_elem_of_omap. destruct (trend_key_output k ltac:(now apply K)) as (c & Ec & _ & H).
    fold g in Ec. assert (b = c) as -> by congruence. exact H.
  - intros r Hr. assert (Hk : bucket_key l a r ∈ bucket_key l a <$> rows) by now apply list_elem_of_fmap_2.
    destruct (trend_key_output _ Hk) as (b & E & Es & _ & _ & r' & Hr' & E'). exists b. split.
    + apply list_elem_of_omap. exists (bucket_key l a r). split; [now apply K|exact E].
    + rewrite Forall_forall in R. apply (f_equal fst) in E' as E1. cbn in E1. rewrite <- bucket_key_start in E1 by auto.
      rewrite Es in E1. apply bucket_key_in in E1; auto. now rewrite <- E' in E1.
Qed.
End Groups.

(** For each provider with a row, its buckets in order of time, each the combination
    of the provider's rows that start in it, with the bounds [T] gives one of them. *)
Record bucketed (T : Time -> Time * Time) (rows : list TrendBucket) (res : list TrendSeries) : Prop := {
  bk_providers : NoDup (ts_ProviderID <$> res) /\ forall id, id ∈ ts_ProviderID <$> res <-> id ∈ tb_ProviderID <$> rows;
  bk_sorted : forall s, s ∈ res -> StronglySorted (fun b b' => tb_PeriodStart b < tb_PeriodStart b') (ts_Buckets s);
  bk_buckets : forall s b, s ∈ res -> b ∈ ts_Buckets s ->
    let mine := bucket_rows b (with_key tb_ProviderID (ts_ProviderID s) rows) in
    tb_SampleCount b = samples mine /\ combined mine b /\
    exists r, r ∈ mine /\ r ∈ rows /\ (tb_PeriodStart b, tb_PeriodEnd b) = T (tb_PeriodStart r);
  bk_covers : forall r, r ∈ rows -> exists s b, s ∈ res /\ b ∈ ts_Buckets s /\ ts_ProviderID s = tb_ProviderID r /\
    in_bucket (tb_PeriodStart b) (tb_PeriodEnd b) r = true;
}.

(** The abstract chart: the same, where each bucket is bounded by local midnights and
    holds exactly the instants (from [from] on) of one local period. *)
Record chart (l : Location) (from : Time) (a : string) (rows : list TrendBucket) (res : list TrendSeries) : Prop := {
  chart_providers : NoDup (ts_ProviderID <$> res) /\ forall id, id ∈ ts_ProviderID <$> res <-> id ∈ tb_ProviderID <$> rows;
  chart_sorted : forall s, s ∈ res -> StronglySorted (fun b b' => tb_PeriodStart b < tb_PeriodStart b') (ts_Buckets s);
  chart_buckets : forall s b, s ∈ res -> b ∈ ts_Buckets s ->
    let mine := bucket_rows b (with_key tb_ProviderID (ts_ProviderID s) rows) in
    tb_SampleCount b = samples mine /\ combined mine b /\
    exists r, r ∈ mine /\ tb_PeriodStart b <= tb_PeriodStart r < tb_PeriodEnd b /\
      In_ (tb_PeriodStart b) l mod Day = 0 /\ In_ (tb_PeriodEnd b) l mod Day = 0 /\
      forall u, time_ok u -> from <= u ->
        (tb_PeriodStart b <= u < tb_PeriodEnd b <-> period_id a (In_ u l) = period_id a (In_ (tb_PeriodStart r) l));
  chart_covers : forall r, r ∈ rows -> exists s b, s ∈ res /\ b ∈ ts_Buckets s /\ ts_ProviderID s = tb_ProviderID r /\
    in_bucket (tb_PeriodStart b) (tb_PeriodEnd b) r = true;
}.

Lemma provider_group_lookup l a rows id : g_by (provider_groups l a rows) !! id =
  match with_key tb_ProviderID id rows with [] => None | _ => Some (trend_groups l a (with_key tb_ProviderID id rows)) end.
Proof. unfold provider_groups. rewrite group_all_lookup. now destruct (with_key tb_ProviderID id rows). Qed.

Lemma assembleTrends_bucketed l a rows : zone_ok l = true -> Forall row_time_ok rows ->
  bucketed (fun t => truncToBucket t l a) rows (tr_Series (assembleTrends l a rows)).
Proof.
  intros O R. unfold assembleTrends. cbn [tr_Series]. set (g := provider_groups l a rows).
  destruct (group_all_order tb_ProviderID (fun _ => MkGrouped ∅ []) (group_add (bucket_key l a) (trend_init l a) trend_step) rows) as [N M].
  fold (provider_groups l a rows) in N, M. fold g in N, M.
  set (h := fun id => (fun tg => MkTrendSeries id (buckets tg)) <$> g_by g !! id).
  assert (H : forall id, id ∈ g_order g -> h id = Some (MkTrendSeries id (buckets (trend_groups l a (with_key tb_ProviderID id rows))))).
  { intros id Hid. unfold h, g. rewrite provider_group_lookup. apply M, list_elem_of_fmap in Hid as (r & -> & Hr).
    destruct (with_key tb_ProviderID (tb_ProviderID r) rows) eqn:W; [|reflexivity].
    assert (C : r ∈ with_key tb_ProviderID (tb_ProviderID r) rows) by now apply with_key_elem. rewrite W in C. now apply not_elem_of_nil in C. }
  assert (E : ts_ProviderID <$> omap h (g_order g) = g_order g).
  { clear N M. induction (g_order g) as [|id ids IH]; [reflexivity|]. cbn. rewrite H by left. cbn. f_equal. apply IH. intros id' Hi. apply H. now right. }
  assert (S : forall s, s ∈ omap h (g_order g) -> s = MkTrendSeries (ts_ProviderID s) (buckets (trend_groups l a (with_key tb_ProviderID (ts_ProviderID s) rows)))).
  { intros s (id & Hid & Hs)%list_elem_of_omap. rewrite H in Hs by assumption. injection Hs as <-. reflexivity. }
  assert (Rk : forall id, Forall row_time_ok (with_key tb_ProviderID id rows)).
  { intros id. apply Forall_forall. intros r [Hr _]%with_key_elem. rewrite Forall_forall in R. auto. }
  constructor.
  - rewrite E. auto.
  - intros s Hs. rewrite (S s Hs). cbn. apply buckets_spec; auto.
  - intros s b Hs Hb mine. rewrite (S s Hs) in Hb. cbn in Hb.
    destruct (buckets_spec l a O _ (Rk (ts_ProviderID s))) as (_ & B & _). destruct (B b Hb) as (E1 & E2 & r & Hr & Et). fold mine in E1, E2.
    split; [assumption|]. split; [assumption|]. exists r.
    assert (Hr' : row_time_ok r). { specialize (Rk (ts_ProviderID s)). rewrite Forall_forall in Rk. auto. }
    pose proof (trunc_bucket_exact l _ a O (row_instant r Hr')) as T. rewrite <- Et in T. destruct T as (T1 & _).
    split; [|split; [now apply with_key_elem in Hr as [Hr _]|exact Et]].
    unfold mine, bucket_rows. apply list_elem_of_In, filter_In. split; [now apply list_elem_of_In|].
    unfold in_bucket. rewrite andb_true_iff, Z.leb_le, Z.ltb_lt. lia.
  - intros r Hr. destruct (buckets_spec l a O _ (Rk (tb_ProviderID r))) as (_ & _ & B).
    destruct (B r) as (b & Hb & Hi); [now apply with_key_elem|]. eexists (MkTrendSeries (tb_ProviderID r) _), b.
    split; [|split; [exact Hb|split; [reflexivity|exact Hi]]].
    apply list_elem_of_omap. exists (tb_ProviderID r). split; [apply M; now apply list_elem_of_fmap_2|]. apply H. apply M. now apply list_elem_of_fmap_2.
Qed.

(** The assembly depends on the zone through the buckets of its rows only. *)
Lemma foldl_ext_in {A B} (f g : B -> A -> B) l b : (forall b x, x ∈ l -> f b x = g b x) -> foldl f b l = foldl g b l.
Proof.
  revert b. induction l as [|x l IH]; intros b E; [reflexivity|]. cbn. rewrite E by left. apply IH. intros b' y Hy. apply E. now right.
Qed.

Lemma group_add_ext {A K V} `{Countable K} (key : A -> K) (init : A -> V) (step step' : V -> A -> V) g x :
  (forall v, step v x = step' v x) -> group_add key init step g x = group_add key init step' g x.
Proof. intros E. unfold group_add. destruct (g_by g !! key x); now rewrite E. Qed.

Lemma assembleTrends_ext l l' a rows :
  (forall r, r ∈ rows -> truncToBucket (tb_PeriodStart r) l a = truncToBucket (tb_PeriodStart r) l' a) ->
  assembleTrends l a rows = assembleTrends l' a rows.
Proof.
  intros E. assert (G : provider_groups l a rows = provider_groups l' a rows).
  { unfold provider_groups, group_all. apply foldl_ext_in. intros g r Hr.
    assert (S : forall v, group_add (bucket_key l a) (trend_init l a) trend_step v r
                = group_add (bucket_key l' a) (trend_init l' a) trend_step v r).
    { intros v. unfold group_add, bucket_key, trend_init. now rewrite (E r Hr). }
    now apply group_add_ext. }
  unfold assembleTrends. now rewrite G.
Qed.

(** Rows of the years [UnixNano] can represent, from forty days after [s0] on. *)
Definition row_since (s0 : Z) (r : TrendBucket) : Prop :=
  s0 * Second + 40 * Day <= tb_PeriodStart r <= 2 ^ 62 /\ - 2 ^ 62 <= tb_PeriodStart r.

Lemma assembleTrends_chart s0 l a rows : regular_since s0 l = true -> Forall (row_since s0) rows ->
  chart l (s0 * Second) a rows (tr_Series (assembleTrends l a rows)).
Proof.
  intros Hr F. pose proof (proj1 (Forall_forall _ _) F) as Hrow. destruct (regular_parts s0 l Hr) as [_ O].
  assert (Rt : Forall row_time_ok rows).
  { apply Forall_forall. intros r [H1 H2]%Hrow. unfold row_time_ok. lia. }
  assert (T : forall r, r ∈ rows -> truncToBucket (tb_PeriodStart r) l a = truncToBucket (tb_PeriodStart r) (since s0 l) a).
  { intros r Hi. apply trunc_since; [assumption|apply row_instant; now apply (proj1 (Forall_forall _ _) Rt)|now apply Hrow]. }
  rewrite (assembleTrends_ext l (since s0 l)) by exact T.
  destruct (assembleTrends_bucketed (since s0 l) a rows O Rt) as [B1 B2 B3 B4]. constructor; [assumption..| |assumption].
  intros s b Hs Hb. destruct (B3 s b Hs Hb) as (C1 & C2 & r & Hm & Hi & Et). split; [assumption|]. split; [assumption|].
  exists r. split; [assumption|]. rewrite <- T in Et by assumption.
  pose proof (trunc_bucket_since s0 l Hr (tb_PeriodStart r) a) as X. rewrite <- Et in X.
  apply X; [apply row_instant; now apply (proj1 (Forall_forall _ _) Rt)|now apply Hrow].
Qed.

(** A statement whose [integer] parameter fits is sent. *)
Lemma query4_fits `{Env} `{!Healthy} {A} n op (f : ReadTables -> A) w : int4 n = true ->
  query4 n op f w = (MkWorld (db w) (S (tick w)) (nids w), Ok (f (db w))).
Proof. intros E. unfold query4. rewrite E. apply query_healthy. Qed.

(** C24: the chart of an accuracy trend.  Let the zone of the location be regular from
    an instant on (its changes of offset since then are at least three days apart and
    skip or repeat no local midnight; whatever it did before), and the selected rows
    start at least forty days later; the horizon fits 32 bits.  [Trends] answers with one series per provider
    that has a row.  Its buckets are in strictly increasing order, their bounds are
    local midnights and each covers exactly one local day, week (from Monday) or month;
    a bucket's sample count is the sum over the provider's rows that start in it, a
    single row keeps its value and interval, several rows give the sample-weighted
    mean without interval, and every row falls in a bucket.  The tables are not
    written. *)
Theorem trends_rebucket `{Env} `{!Healthy} `{Database} (f : TrendFilter) (loc : Location) (s0 : Z) (w : World ReadTables) :
  int4 (tf_HorizonMinutes f) = true -> regular_since s0 loc = true -> Forall (row_since s0) (pg_AccuracyTrends f (db w)) ->
  exists w' res, Trends f (Some loc) w = (w', Ok res) /\ db w' = db w /\
    chart loc (s0 * Second) (tf_Aggregation f) (pg_AccuracyTrends f (db w)) (tr_Series res).
Proof.
  intros I O R. unfold Trends. rewrite bind_run, query4_fits by exact I. cbn [default db].
  eexists _, _. split; [reflexivity|]. split; [reflexivity|]. now apply assembleTrends_chart.
Qed.

(** A zone of fixed offset. *)
Definition FixedZone (off : Z) : Location := MkLocation off [].

Lemma fixed_resolve off c : resolve (FixedZone off) c = c - off * Second.
Proof. unfold resolve, offsetAt, lookup; cbn. destruct (Z.eqb_spec off 0) as [->|]; [lia|]. now destruct (_ || _). Qed.

Lemma civil_bounds_monthly c : civil_bounds "monthly" c = (dateDays (Year c) (Month c) 1, dateDays (Year c) (Month c + 1) 1).
Proof. reflexivity. Qed.

(** Note: west of Greenwich a stored month is shown as the month before it.  The row
    of a UTC month starts at UTC midnight of the first, which is still the last day of
    the previous month there: its bucket is that previous month, and meets the month
    the row measures only for the hours of the offset. *)
Theorem months_shift_west o i : 0 < o < DaySec -> instant_ok (month_first i) ->
  truncToBucket (month_first i) (FixedZone (- o)) "monthly" = (month_first (i - 1) + o * Second, month_first i + o * Second).
Proof.
  intros Ho R. assert (O : zone_ok (FixedZone (- o)) = true).
  { unfold zone_ok, small_offset; cbn. rewrite andb_true_r. apply Z.ltb_lt. lia. }
  pose proof (trunc_resolve (FixedZone (- o)) (month_first i) "monthly" O R) as T. rewrite civil_bounds_monthly in T.
  set (c := In_ (month_first i) (FixedZone (- o))) in *. destruct T as (_ & _ & ->). rewrite !fixed_resolve.
  assert (Ec : c = month_first i - o * Second) by (unfold c, In_, offsetAt, lookup; cbn; lia).
  assert (Em : 12 * Year c + Month c = i - 1).
  { apply month_number. replace (i - 1 + 1) with i by lia. pose proof (month_first_step (i - 1)) as L. replace (i - 1 + 1) with i in L by lia.
    rewrite Ec. unfold Day, Hour, Minute, Second, DaySec in *. lia. }
  rewrite !Date_days, <- month_first_of, <- month_first_next by apply Month_bounds. rewrite Em. replace (i - 1 + 1) with i by lia. f_equal; lia.
Qed.

(** ** The forecast comparison *)

Definition key_le (a b : ForecastPoint) : Prop :=
  (fp_ProviderID a < fp_ProviderID b)%N \/ (fp_ProviderID a = fp_ProviderID b /\ fp_TargetTime a <= fp_TargetTime b).

Lemma point_order a b : point_before b a = false ->
  key_le a b /\ (point_key a = point_key b -> fp_HorizonMinutes b <= fp_HorizonMinutes a).
Proof.
  unfold point_before, key_le, point_key. intros E. apply orb_false_iff in E as [E1 E2]. apply N.ltb_ge in E1.
  destruct (N.eqb_spec (fp_ProviderID b) (fp_ProviderID a)) as [Ep|Np]; cbn in E2.
  - apply orb_false_iff in E2 as [E2 E3]. apply Z.ltb_ge in E2. split; [right; split; [congruence|assumption]|].
    intros [= _ Et]. rewrite Et, Z.eqb_refl in E3. cbn in E3. apply Z.ltb_ge in E3. assumption.
  - split; [left; lia|]. intros [= Ep _]. congruence.
Qed.

Lemma key_le_antisym a b : key_le a b -> key_le b a -> point_key a = point_key b.
Proof. unfold key_le, point_key. intros. f_equal; lia. Qed.

Definition points_sorted := StronglySorted (fun a b => point_before b a = false).

(** [DISTINCT ON] over rows in order: one row per key, with the largest horizon. *)
Lemma distinct_on_spec prev l :
  points_sorted l -> (forall k, prev = Some k -> exists p, point_key p = k /\ Forall (fun b => key_le p b) l) ->
  let r := distinct_on point_key prev l in
  NoDup (point_key <$> r) /\
  (forall a, a ∈ r -> a ∈ l /\ prev <> Some (point_key a) /\ forall b, b ∈ l -> point_key b = point_key a -> fp_HorizonMinutes b <= fp_HorizonMinutes a) /\
  (forall b, b ∈ l -> prev = Some (point_key b) \/ exists a, a ∈ r /\ point_key a = point_key b).
Proof.
  intros S. revert prev. induction S as [|x l S IH F]; intros prev Hp; cbn.
  { split; [apply NoDup_nil_2|]. split; intros ? C; now apply not_elem_of_nil in C. }
  assert (Fx : Forall (fun b => key_le x b) l).
  { rewrite Forall_forall in F |- *. intros b Hb. apply point_order, F, Hb. }
  case_bool_decide as D.
  - destruct (IH prev) as (N & A & B).
    { intros k Ek. exists x. split; [congruence|assumption]. }
    split; [assumption|]. split.
    + intros a Ha. destruct (A a Ha) as (H1 & H2 & H3). split; [now right|]. split; [assumption|].
      intros b [->|Hb]%elem_of_cons Eb; [congruence|auto].
    + intros b [->|Hb]%elem_of_cons; [now left|auto].
  - destruct (IH (Some (point_key x))) as (N & A & B).
    { intros k [= <-]. now exists x. }
    assert (Nx : point_key x ∉ point_key <$> distinct_on point_key (Some (point_key x)) l).
    { intros (a & Ea & Ha)%list_elem_of_fmap. destruct (A a Ha) as (_ & H2 & _). congruence. }
    split; [constructor; assumption|]. split.
    + intros a [->|Ha]%elem_of_cons.
      * split; [left|]. split; [congruence|]. intros b [->|Hb]%elem_of_cons Eb; [lia|].
        rewrite Forall_forall in F. now apply (point_order x b (F b Hb)).
      * destruct (A a Ha) as (H1 & H2 & H3). split; [now right|]. split.
        -- intros Ep. destruct (Hp _ Ep) as (p & Epk & Fp). rewrite Forall_forall in Fp, Fx.
           assert (K1 : key_le p x) by (apply Fp; left). assert (K2 : key_le x a) by now apply Fx.
           assert (K3 : point_key x = point_key a).
           { unfold key_le, point_key in *. injection Epk as E1 E2. rewrite E1, E2 in *. f_equal; lia. }
           congruence.
        -- intros b [->|Hb]%elem_of_cons Eb; [congruence|auto].
    + intros b [->|Hb]%elem_of_cons; [right; exists x; split; [left|reflexivity]|].
      destruct (B b Hb) as [E|(a & Ha & E)]; right; [exists x; split; [left|congruence]|exists a; split; [now right|assumption]].
Qed.

(** The observation an hour is compared with: the last one read for it. *)
Definition observed_at (obs : list ComparisonObservation) (t : Time) : option ComparisonObservation :=
  last (List.filter (fun o => cmo_ObservedAt o =? t) obs).

(** The pairs of forecast and observation of a series. *)
Definition pairs_of (obs : list ComparisonObservation) (points : list ForecastPoint) : list Pair :=
  omap (fun p => (fun o => (fp_Value p, cmo_Value o, cmo_ObservationType o)) <$> observed_at obs (fp_TargetTime p)) points.

Lemma obsByHour_lookup obs t : obsByHour obs !! t = observed_at obs t.
Proof.
  unfold obsByHour, observed_at. induction obs as [|o obs IH] using rev_ind; [reflexivity|].
  rewrite foldl_app, List.filter_app. cbn. destruct (Z.eqb_spec (cmo_ObservedAt o) t) as [<-|N].
  - now rewrite lookup_insert_eq, last_snoc.
  - now rewrite lookup_insert_ne, app_nil_r.
Qed.

Lemma add_matched_fold obs points c :
  foldl (add_matched (obsByHour obs)) c points =
  fold_left (fun c p => Continuous_Add c p.1.1 p.1.2 (ProvenanceWeight p.2)) (pairs_of obs points) c.
Proof.
  revert c. induction points as [|p points IH]; intros c; [reflexivity|]. unfold pairs_of in *. cbn.
  rewrite IH. unfold add_matched. rewrite obsByHour_lookup. now destruct (observed_at obs (fp_TargetTime p)).
Qed.

Lemma accumulate_n ps : n (accumulate ps) = Z.of_nat (length ps).
Proof.
  unfold accumulate. induction ps as [|p ps IH] using rev_ind; [reflexivity|].
  rewrite fold_left_app, length_app. cbn [fold_left length]. unfold Continuous_Add at 1. cbn [n].
  etransitivity; [apply (f_equal (fun k => k + 1) IH)|]. lia.
Qed.

Lemma series_fold obs points a : let r := foldl (series_step (obsByHour obs)) a points in
  cs_ProviderID (sa_series r) = cs_ProviderID (sa_series a) /\ cs_Points (sa_series r) = cs_Points (sa_series a) ++ points /\
  sa_cont r = foldl (add_matched (obsByHour obs)) (sa_cont a) points /\
  cs_IssuedAt (sa_series r) <= cs_IssuedAt (sa_series a) /\ Forall (fun p => cs_IssuedAt (sa_series r) <= fp_IssuedAt p) points /\
  (cs_IssuedAt (sa_series r) = cs_IssuedAt (sa_series a) \/ cs_IssuedAt (sa_series r) ∈ fp_IssuedAt <$> points).
Proof.
  revert a. induction points as [|p points IH]; intros a; cbn.
  { rewrite app_nil_r. repeat split; [lia|constructor|auto]. }
  destruct (IH (series_step (obsByHour obs) a p)) as (-> & -> & -> & L & F & I). cbn in L, I |- *. rewrite <- app_assoc.
  unfold Before in *. destruct (Z.ltb_spec (fp_IssuedAt p) (cs_IssuedAt (sa_series a))); (split; [reflexivity|]); (split; [reflexivity|]);
    (split; [reflexivity|]); (split; [lia|]); (split; [constructor; [lia|assumption]|]); rewrite elem_of_cons; intuition congruence.
Qed.

Lemma point_sort_sorted l : points_sorted (stable_sort point_before l).
Proof.
  apply (stable_sort_ordered point_before (fun _ => True)).
  - unfold point_before. intros a b _ _ E. lia.
  - unfold point_before. intros a b c _ _ _ E1 E2. lia.
  - apply Forall_forall. auto.
Qed.

(** The rows a comparison may use. *)
Definition candidate (q : ComparisonQuery) (col : string) (d : ReadTables) (p : ForecastPoint) : Prop :=
  exists s, s ∈ rd_snapshots d /\ s_LocationID s = cq_LocationID q /\ s_ProviderID s ∈ cq_ProviderIDs q /\
    cq_From q <= s_TargetTime s < cq_To q /\ s_ForecastHorizonMinutes s <= cq_HorizonMinutes q /\ forecast_point col s = Some p.

Lemma candidate_rows q col d p :
  p ∈ omap (forecast_point col) (List.filter (in_comparison (cq_LocationID q) (cq_ProviderIDs q) (cq_HorizonMinutes q) (cq_From q) (cq_To q)) (rd_snapshots d))
  <-> candidate q col d p.
Proof.
  rewrite list_elem_of_omap. unfold candidate, in_comparison. split.
  - intros (s & Hs & E). apply list_elem_of_In, filter_In in Hs as [Hs F]. apply list_elem_of_In in Hs. exists s.
    rewrite !andb_true_iff, !bool_decide_eq_true, !Z.leb_le, Z.ltb_lt in F. intuition.
  - intros (s & Hs & H1 & H2 & H3 & H4 & E). exists s. split; [|assumption]. apply list_elem_of_In, filter_In.
    split; [now apply list_elem_of_In|]. rewrite !andb_true_iff, !bool_decide_eq_true, !Z.leb_le, Z.ltb_lt. intuition.
Qed.

(** The points the query returns. *)
Lemma comparison_points q col d :
  let points := pg_ForecastComparisonPoints (cq_LocationID q) (cq_ProviderIDs q) col (cq_HorizonMinutes q) (cq_From q) (cq_To q) d in
  NoDup (point_key <$> points) /\
  (forall p, p ∈ points -> candidate q col d p /\
     forall p', candidate q col d p' -> point_key p' = point_key p -> fp_HorizonMinutes p' <= fp_HorizonMinutes p) /\
  (forall p, candidate q col d p -> exists p', p' ∈ points /\ point_key p' = point_key p).
Proof.
  unfold pg_ForecastComparisonPoints. set (rows := omap _ _).
  destruct (distinct_on_spec None (stable_sort point_before rows) (point_sort_sorted rows)) as (N & A & B); [discriminate|].
  assert (C : forall p, p ∈ stable_sort point_before rows <-> candidate q col d p).
  { intros p. rewrite stable_sort_perm. apply candidate_rows. }
  cbv zeta. split; [assumption|]. split.
  - intros p Hp. destruct (A p Hp) as (H1 & _ & H3). split; [now apply C|]. intros p' Hp'. apply H3. now apply C.
  - intros p Hp. destruct (B p) as [[=]|H]; [now apply C|exact H].
Qed.

(** What the comparison promises. *)
Record comparison_ok (q : ComparisonQuery) (col ocol : string) (d : ReadTables) (res : ComparisonResult) : Prop := {
  co_obs : forall o, o ∈ cr_Observations res <-> exists row, row ∈ rd_observations d /\ o_LocationID row = cq_LocationID q /\
    cq_From q <= o_ObservedAt row < cq_To q /\ usable_observation row = true /\ comparison_obs ocol row = Some o;
  co_series : forall id, id ∈ cs_ProviderID <$> cr_Series res <-> exists p, candidate q col d p /\ fp_ProviderID p = id;
  co_points : forall s p, s ∈ cr_Series res -> p ∈ cs_Points s -> candidate q col d p /\ fp_ProviderID p = cs_ProviderID s /\
    forall p', candidate q col d p' -> point_key p' = point_key p -> fp_HorizonMinutes p' <= fp_HorizonMinutes p;
  co_hours : forall s, s ∈ cr_Series res -> NoDup (fp_TargetTime <$> cs_Points s) /\
    forall p, candidate q col d p -> fp_ProviderID p = cs_ProviderID s -> fp_TargetTime p ∈ fp_TargetTime <$> cs_Points s;
  co_issued : forall s, s ∈ cr_Series res -> cs_IssuedAt s ∈ fp_IssuedAt <$> cs_Points s /\
    forall p, p ∈ cs_Points s -> cs_IssuedAt s <= fp_IssuedAt p;
  co_metrics : Forall2 (fun s m => let c := accumulate (pairs_of (cr_Observations res) (cs_Points s)) in
      m = MkDayMetric (cs_ProviderID s) (MAE c) (RMSE c) (Bias c) (Z.of_nat (length (pairs_of (cr_Observations res) (cs_Points s)))))
    (cr_Series res) (cr_DayMetrics res);
}.

Section Comparison.
Context (obs : list ComparisonObservation) (points : list ForecastPoint).

Definition mine (id : uuid) : list ForecastPoint := with_key fp_ProviderID id points.
Definition accs : gmap uuid seriesAcc := g_by (group_all fp_ProviderID series_init (series_step (obsByHour obs)) points).

(** The series of a provider: its points, its earliest issuance and its day metrics. *)
Lemma series_of id : match accs !! id with
  | None => mine id = []
  | Some a => mine id <> [] /\ cs_ProviderID (sa_series a) = id /\ cs_Points (sa_series a) = mine id /\
      cs_IssuedAt (sa_series a) ∈ fp_IssuedAt <$> mine id /\ Forall (fun p => cs_IssuedAt (sa_series a) <= fp_IssuedAt p) (mine id) /\
      sa_cont a = accumulate (pairs_of obs (mine id))
  end.
Proof.
  unfold accs. rewrite group_all_lookup. fold (mine id). destruct (mine id) as [|x rs] eqn:W; [reflexivity|].
  destruct (series_fold obs (x :: rs) (series_init x)) as (E1 & E2 & E3 & _ & E5 & E6). unfold group_value.
  assert (x ∈ mine id) as [_ Ex]%with_key_elem by (rewrite W; left).
  rewrite E1, E2, E3, add_matched_fold. split; [discriminate|]. split; [exact Ex|]. split; [reflexivity|]. split; [|split; [exact E5|reflexivity]].
  destruct E6 as [->|E6]; [left|exact E6].
Qed.

Lemma omap_series ids : let series := omap (fun id => sa_series <$> accs !! id) ids in
  (forall s, s ∈ series <-> exists id a, id ∈ ids /\ accs !! id = Some a /\ s = sa_series a) /\
  Forall2 (fun s m => let c := accumulate (pairs_of obs (cs_Points s)) in
      m = MkDayMetric (cs_ProviderID s) (MAE c) (RMSE c) (Bias c) (Z.of_nat (length (pairs_of obs (cs_Points s)))))
    series (omap (fun id => day_metric id <$> accs !! id) ids).
Proof.
  split.
  - intros s. rewrite list_elem_of_omap. split.
    + intros (id & Hid & E). destruct (accs !! id) eqn:L; [|discriminate]. injection E as <-. eauto.
    + intros (id & a & Hid & L & ->). exists id. now rewrite L.
  - induction ids as [|id ids IH]; [constructor|]. cbn. pose proof (series_of id) as S. destruct (accs !! id) as [a|]; [|assumption].
    cbn. constructor; [|assumption]. destruct S as (_ & E1 & E2 & _ & _ & E5). unfold day_metric, Continuous_N.
    rewrite E1, E2, E5, accumulate_n. reflexivity.
Qed.
End Comparison.

Lemma comparison_observations q ocol d o :
  o ∈ pg_ComparisonObservations (cq_LocationID q) ocol (cq_From q) (cq_To q) d <->
  exists row, row ∈ rd_observations d /\ o_LocationID row = cq_LocationID q /\
    cq_From q <= o_ObservedAt row < cq_To q /\ usable_observation row = true /\ comparison_obs ocol row = Some o.
Proof.
  unfold pg_ComparisonObservations. rewrite stable_sort_perm, list_elem_of_omap. split.
  - intros (r & Hr & E). apply list_elem_of_In, filter_In in Hr as [Hr F]. apply list_elem_of_In in Hr. exists r.
    rewrite !andb_true_iff, bool_decide_eq_true, Z.leb_le, Z.ltb_lt in F. intuition.
  - intros (r & Hr & H1 & H2 & H3 & E). exists r. split; [|assumption]. apply list_elem_of_In, filter_In.
    split; [now apply list_elem_of_In|]. rewrite !andb_true_iff, bool_decide_eq_true, Z.leb_le, Z.ltb_lt. intuition.
Qed.

Lemma assembled_comparison q col ocol d : comparison_ok q col ocol d
  (assembleComparison (cq_ProviderIDs q)
    (pg_ForecastComparisonPoints (cq_LocationID q) (cq_ProviderIDs q) col (cq_HorizonMinutes q) (cq_From q) (cq_To q) d)
    (pg_ComparisonObservations (cq_LocationID q) ocol (cq_From q) (cq_To q) d)).
Proof.
  pose proof (comparison_points q col d) as (N & A & B).
  set (points := pg_ForecastComparisonPoints _ _ _ _ _ _ _) in *. set (obs := pg_ComparisonObservations _ _ _ _ _) in *.
  destruct (omap_series obs points (cq_ProviderIDs q)) as [Hs Hm].
  assert (K : forall s, s ∈ omap (fun id => sa_series <$> accs obs points !! id) (cq_ProviderIDs q) -> exists a, s = sa_series a /\
    cs_Points s = mine points (cs_ProviderID s) /\ cs_ProviderID s ∈ cq_ProviderIDs q /\ mine points (cs_ProviderID s) <> [] /\
    cs_IssuedAt s ∈ fp_IssuedAt <$> cs_Points s /\ Forall (fun p => cs_IssuedAt s <= fp_IssuedAt p) (cs_Points s)).
  { intros s (id & a & Hid & L & ->)%Hs. pose proof (series_of obs points id) as S. rewrite L in S.
    destruct S as (S0 & S1 & S2 & S3 & S4 & _). exists a. rewrite S1, S2. auto 10. }
  constructor; cbn [assembleComparison cr_Observations cr_Series cr_DayMetrics].
  - intros o. apply comparison_observations.
  - intros id. rewrite list_elem_of_fmap. split.
    + intros (s & -> & Hi). destruct (K s Hi) as (a & _ & _ & _ & Ne & _). destruct (mine points (cs_ProviderID s)) as [|p r] eqn:W; [contradiction|].
      assert (p ∈ mine points (cs_ProviderID s)) as [Hp Ep]%with_key_elem by (rewrite W; left). exists p. split; [now apply A|assumption].
    + intros (p & Hc & <-). destruct (B p Hc) as (p' & Hp' & Ek). injection Ek as Ei _. pose proof (series_of obs points (fp_ProviderID p)) as S.
      destruct (accs obs points !! fp_ProviderID p) as [a|] eqn:L.
      * exists (sa_series a). destruct S as (_ & S1 & _). split; [now symmetry|]. apply Hs. exists (fp_ProviderID p), a.
        destruct Hc as (s & _ & _ & Hin & _ & _ & E). unfold forecast_point in E. destruct (snapshot_column col s); [|discriminate].
        injection E as <-. auto.
      * assert (C : p' ∈ mine points (fp_ProviderID p)) by now apply with_key_elem. rewrite S in C. now apply not_elem_of_nil in C.
  - intros s p Hi Hp. destruct (K s Hi) as (a & _ & Ep & _). rewrite Ep in Hp. apply with_key_elem in Hp as [Hp Eid].
    destruct (A p Hp) as [H1 H2]. auto.
  - intros s Hi. destruct (K s Hi) as (a & _ & Ep & _). rewrite Ep. split.
    + apply NoDup_fmap_2_strong; [|eapply NoDup_ListNoDup, List.NoDup_filter, NoDup_ListNoDup, NoDup_fmap_1, N].
      intros x y [Hx Ex]%with_key_elem [Hy Ey]%with_key_elem Et. apply (NoDup_key_unique point_key points); auto. unfold point_key. congruence.
    + intros p Hc Eid. destruct (B p Hc) as (p' & Hp' & Ek). injection Ek as Ei Et. rewrite <- Et. apply list_elem_of_fmap_2, with_key_elem. split; [assumption|congruence].
  - intros s Hi. destruct (K s Hi) as (a & _ & _ & _ & _ & H1 & H2). split; [assumption|]. now apply Forall_forall.
  - exact Hm.
Qed.

(** Note: the forecast comparison.  For a supported variable [ForecastComparison] answers
    with one series per requested provider that has a usable forecast row (right place,
    an hour of the window, a horizon of at most the requested one, a value).  A series
    has one point for each such hour, and the point is the row with the largest horizon
    (DR-02: the requested horizon, else the nearest shorter one); its issue time is the
    earliest of its points.  The observations are exactly the live, unsuspected ones of
    the window, and each day metric is the evaluation kernel's MAE, RMSE, bias and count
    over the pairs of a point and the observation of its hour. *)
Theorem comparison_exact `{Env} `{!Healthy} (q : ComparisonQuery) (col ocol : string) (w : World ReadTables) :
  int4 (cq_HorizonMinutes q) = true -> forecastColumn (cq_Variable q) = Some col -> observationColumn (cq_Variable q) = Some ocol ->
  exists w' res, ForecastComparison q w = (w', Ok res) /\ db w' = db w /\ comparison_ok q col ocol (db w) res.
Proof.
  intros I E1 E2. unfold ForecastComparison. rewrite E1, E2, bind_run, query4_fits, bind_run, query_healthy by exact I. cbn [db tick nids].
  eexists _, _. split; [reflexivity|]. split; [reflexivity|]. apply assembled_comparison.
Qed.

(** ** The ranking order *)

Definition row_score (r : RankingReadRow) : option float64 := rr_CompositeScore (rr_row r).

(** [a] has a strictly better composite score than [b]. *)
Definition better (a b : RankingReadRow) : bool :=
  match row_score a, row_score b with Some x, Some y => fltb y x | _, _ => false end.

(** What the table guarantees of a row: a score exactly when it is not unranked
    (CHECK), and the score is a number. *)
Definition scored (r : RankingReadRow) : Prop :=
  (row_score r = None <-> row_status r = StatusUnranked) /\ forall x, row_score r = Some x -> is_nan x = false.

(** [x] may be displayed before [y]. *)
Definition displayed_before (x y : RankedRow) : Prop :=
  Rank y = 0 \/
  (0 < Rank x <= Rank y /\
   (row_status (rk_Row x) = row_status (rk_Row y) -> better (rk_Row y) (rk_Row x) = false) /\
   (row_status (rk_Row x) <> row_status (rk_Row y) ->
      row_status (rk_Row x) = StatusRanked /\ row_status (rk_Row y) = StatusProvisionally /\ Rank x < Rank y)).

(** The rows of rank [k], in the order of display. *)
Definition at_rank (k : Z) (out : list RankedRow) : list RankedRow := List.filter (fun y => Rank y =? k) out.

Definition sharing (k : Z) (out : list RankedRow) : nat := length (at_rank k out).

(** The two rows have intervals, and these have a point in common. *)
Definition meets (x y : RankedRow) : bool :=
  match rr_CILower (rr_row (rk_Row x)), rr_CIUpper (rr_row (rk_Row x)), rr_CILower (rr_row (rk_Row y)), rr_CIUpper (rr_row (rk_Row y)) with
  | Some xl, Some xu, Some yl, Some yu => fleb xl yu && fleb yl xu
  | _, _, _, _ => false
  end.

(** The rows of a rank meet the first of them; the first rows of two consecutive ranks
    of one class do not meet. *)
Record ties_meet (out : list RankedRow) : Prop := {
  tm_shared : forall k a rest, 1 <= k -> at_rank k out = a :: rest -> Forall (fun y => meets a y = true) rest;
  tm_split : forall k a b rest rest', 1 <= k -> at_rank k out = a :: rest -> at_rank (k + 1) out = b :: rest' ->
    row_status (rk_Row a) = row_status (rk_Row b) -> meets a b = false;
}.

Record standings (rows : list RankingReadRow) (out : list RankedRow) : Prop := {
  st_rows : rk_Row <$> out ≡ₚ rows;
  st_unranked : forall x, x ∈ out -> 0 <= Rank x /\ (Rank x = 0 <-> row_status (rk_Row x) = StatusUnranked);
  st_order : StronglySorted displayed_before out;
  st_dense : forall x k, x ∈ out -> 1 <= k <= Rank x -> exists y, y ∈ out /\ Rank y = k;
  st_tied : forall x, x ∈ out -> Tied x = bool_decide (0 < Rank x) && (1 <? sharing (Rank x) out)%nat;
  st_ties : ties_meet out;
}.

Section Groups2.
Context (subset : list RankingReadRow).

Definition valid_groups (groups : list (list nat)) : Prop :=
  Forall (fun g => g <> [] /\ Forall (fun i => (i < length subset)%nat) g) groups.

Lemma rank_group_spec r g : Forall (fun i => (i < length subset)%nat) g ->
  rk_Row <$> rank_group subset r g = omap (fun i => subset !! i) g /\
  Forall (fun x => Rank x = r /\ Tied x = (1 <? length g)%nat) (rank_group subset r g) /\ length (rank_group subset r g) = length g.
Proof.
  unfold rank_group. generalize (1 <? length g)%nat as t. intros t F. induction F as [|i g Hi F IH]; cbn; [auto|].
  destruct (lookup_lt_is_Some_2 subset i Hi) as [x ->]. cbn. destruct IH as (-> & IH & ->). auto.
Qed.

Lemma sharing_app k l1 l2 : sharing k (l1 ++ l2) = (sharing k l1 + sharing k l2)%nat.
Proof. unfold sharing, at_rank. now rewrite List.filter_app, length_app. Qed.

Lemma sharing_none k l : (forall x, x ∈ l -> Rank x <> k) -> sharing k l = 0%nat.
Proof.
  unfold sharing, at_rank. induction l as [|x l IH]; intros H; [reflexivity|]. cbn.
  destruct (Z.eqb_spec (Rank x) k); [exfalso; apply (H x); [left|assumption]|]. apply IH. intros y Hy. apply H. now right.
Qed.

Lemma sharing_all k l : Forall (fun x => Rank x = k) l -> sharing k l = length l.
Proof. unfold sharing, at_rank. induction 1 as [|x l E F IH]; [reflexivity|]. cbn. rewrite E, Z.eqb_refl. cbn. now rewrite IH. Qed.

Lemma StronglySorted_all {A} (R : relation A) (l : list A) :
  (forall x y, x ∈ l -> y ∈ l -> R x y) -> StronglySorted R l.
Proof.
  induction l as [|x l IH]; intros H; constructor.
  - apply IH. intros y z Hy Hz. apply H; now right.
  - apply Forall_forall. intros y Hy. apply H; [left|now right].
Qed.

(** The rows of the groups, numbered from [base]. *)
Lemma rank_from_spec base groups : valid_groups groups ->
  let out := rank_from subset base groups in
  rk_Row <$> out = omap (fun i => subset !! i) (concat groups) /\
  Forall (fun x => base <= Rank x < base + Z.of_nat (length groups)) out /\
  StronglySorted (fun x y => Rank x <= Rank y) out /\
  (forall k, base <= k < base + Z.of_nat (length groups) -> exists y, y ∈ out /\ Rank y = k) /\
  (forall x, x ∈ out -> Tied x = (1 <? sharing (Rank x) out)%nat).
Proof.
  revert base. induction groups as [|g groups IH]; intros base V.
  { cbn. repeat split; [constructor|constructor|intros; lia|intros x Hx; now apply not_elem_of_nil in Hx]. }
  apply Forall_cons in V as [[Ne Fg] V]. destruct (rank_group_spec base g Fg) as (R1 & R2 & R3).
  destruct (IH (base + 1) V) as (I1 & I2 & I3 & I4 & I5). cbn [rank_from concat length].
  set (o1 := rank_group subset base g) in *. set (o2 := rank_from subset (base + 1) groups) in *. rewrite Forall_forall in R2, I2.
  assert (S1 : sharing base o1 = length g).
  { rewrite sharing_all, R3; [reflexivity|]. apply Forall_forall. intros x Hx. now apply R2. }
  split; [now rewrite fmap_app, R1, I1, omap_app|]. split; [|split; [|split]].
  - apply Forall_app. split; apply Forall_forall; intros x Hx; [destruct (R2 x Hx) as [-> _]; lia|specialize (I2 x Hx); lia].
  - apply StronglySorted_app_2; [| |assumption].
    + intros x y Hx Hy. destruct (R2 x Hx) as [-> _]. specialize (I2 y Hy). lia.
    + apply StronglySorted_all. intros x y Hx Hy. destruct (R2 x Hx) as [-> _], (R2 y Hy) as [-> _]. lia.
  - intros k Hk. destruct (Z.eq_dec k base) as [->|N].
    + destruct o1 as [|x o1']; [destruct g; [contradiction|discriminate]|]. exists x. split; [left|]. apply R2. left.
    + destruct (I4 k ltac:(lia)) as (y & Hy & E). exists y. split; [apply elem_of_app; auto|assumption].
  - intros x [Hx|Hx]%elem_of_app; rewrite sharing_app.
    + destruct (R2 x Hx) as [-> ->]. rewrite S1, (sharing_none base o2), Nat.add_0_r; [reflexivity|].
      intros y Hy. specialize (I2 y Hy). lia.
    + rewrite (sharing_none (Rank x) o1); [now apply I5|]. intros y Hy. destruct (R2 y Hy) as [-> _]. specialize (I2 x Hx). lia.
Qed.

Lemma at_rank_app k l1 l2 : at_rank k (l1 ++ l2) = at_rank k l1 ++ at_rank k l2.
Proof. apply List.filter_app. Qed.

Lemma at_rank_none k l : (forall x, x ∈ l -> Rank x <> k) -> at_rank k l = [].
Proof. intros N%sharing_none. now apply nil_length_inv. Qed.

(** The rows of a rank are those of its group. *)
Lemma at_rank_group base groups k : valid_groups groups ->
  at_rank k (rank_from subset base groups) =
  if k <? base then [] else default [] (rank_group subset k <$> groups !! Z.to_nat (k - base)).
Proof.
  revert base. induction groups as [|g groups IH]; intros base V; [now destruct (k <? base)|]. apply Forall_cons in V as [[Ne Fg] V].
  cbn [rank_from]. rewrite at_rank_app, (IH (base + 1) V). destruct (rank_group_spec base g Fg) as (_ & R2 & _).
  destruct (Z.eq_dec k base) as [->|N].
  - destruct (Z.ltb_spec base (base + 1)); [|lia]. rewrite Z.ltb_irrefl, Z.sub_diag, app_nil_r. cbn.
    apply forallb_filter_id, forallb_forall. intros x Hx. rewrite Forall_forall in R2. apply Z.eqb_eq, R2, list_elem_of_In, Hx.
  - rewrite at_rank_none by (intros x Hx E; rewrite Forall_forall in R2; destruct (R2 x Hx); congruence). cbn [app].
    destruct (Z.ltb_spec k (base + 1)), (Z.ltb_spec k base); try lia; [reflexivity|].
    replace (Z.to_nat (k - base)) with (S (Z.to_nat (k - (base + 1)))) by lia. reflexivity.
Qed.

Lemma ties_meets i j x y r t r' t' : subset !! i = Some x -> subset !! j = Some y ->
  ties (to_ranking <$> subset) i j = meets (MkRankedRow x r t) (MkRankedRow y r' t').
Proof. intros Ei Ej. unfold ties. now rewrite !list_lookup_fmap, Ei, Ej. Qed.

Lemma group_meets k i g a rest : Forall (fun i => (i < length subset)%nat) (i :: g) ->
  Forall (fun j => ties (to_ranking <$> subset) i j = true) g -> rank_group subset k (i :: g) = a :: rest ->
  Forall (fun y => meets a y = true) rest.
Proof.
  unfold rank_group. generalize (1 <? length (i :: g))%nat as t. intros t [Hi F]%Forall_cons T. cbn.
  destruct (lookup_lt_is_Some_2 subset i Hi) as [x Ex]. rewrite Ex. cbn. intros [= <- <-]. apply Forall_forall.
  intros y (j & Hj & E)%list_elem_of_omap. destruct (subset !! j) as [z|] eqn:Ej; [|discriminate]. injection E as <-.
  rewrite <- (ties_meets i j x z k t k t Ex Ej). rewrite Forall_forall in T. auto.
Qed.

(** Ranked in the groups of [RankOrder], the rows tie by their intervals. *)
Lemma rank_from_ties base groups : valid_groups groups -> Forall (group_ok (ties (to_ranking <$> subset))) groups ->
  (forall k i g j g', groups !! k = Some (i :: g) -> groups !! S k = Some (j :: g') -> ties (to_ranking <$> subset) i j = false) ->
  ties_meet (rank_from subset base groups).
Proof.
  intros V G L. assert (A : forall k a rest, at_rank k (rank_from subset base groups) = a :: rest ->
    base <= k /\ exists i g, groups !! Z.to_nat (k - base) = Some (i :: g) /\ rank_group subset k (i :: g) = a :: rest /\
      Forall (fun i => (i < length subset)%nat) (i :: g) /\ Forall (fun j => ties (to_ranking <$> subset) i j = true) g).
  { intros k a rest. rewrite at_rank_group by assumption. destruct (Z.ltb_spec k base); [discriminate|]. intros E. split; [assumption|].
    destruct (groups !! Z.to_nat (k - base)) as [g|] eqn:Eg; [|discriminate]. pose proof (list_elem_of_lookup_2 _ _ _ Eg) as Hg.
    unfold valid_groups in V. rewrite Forall_forall in V, G. destruct (V g Hg) as [_ F]. specialize (G g Hg). destruct g as [|i g]; [destruct G|].
    exists i, g. auto. }
  constructor.
  - intros k a rest _ (_ & i & g & _ & E & F & T)%A. now apply (group_meets k i g).
  - intros k a b rest rest' _ (Lk & i & g & Eg & E & F & _)%A (_ & j & g' & Eg' & E' & F' & _)%A _.
    replace (Z.to_nat (k + 1 - base)) with (S (Z.to_nat (k - base))) in Eg' by lia. specialize (L _ _ _ _ _ Eg Eg').
    apply Forall_cons in F as [Hi _], F' as [Hj _].
    destruct (lookup_lt_is_Some_2 subset i Hi) as [x Ex], (lookup_lt_is_Some_2 subset j Hj) as [y Ey].
    unfold rank_group in E, E'. cbn [omap list_omap] in E, E'. rewrite Ex in E. rewrite Ey in E'. cbn in E, E'.
    injection E as <- _. injection E' as <- _. now rewrite <- (ties_meets i j x y) by assumption.
Qed.
End Groups2.

Lemma StronglySorted_both {A B} (R1 : relation A) (R2 : relation B) (f : A -> B) l :
  StronglySorted R1 l -> StronglySorted R2 (f <$> l) -> StronglySorted (fun x y => R1 x y /\ R2 (f x) (f y)) l.
Proof.
  intros S. induction S as [|x l S IH F]; intros S2; [constructor|]. rewrite fmap_cons in S2. apply StronglySorted_cons in S2 as [F2 S2].
  constructor; [auto|]. rewrite Forall_forall in F2. rewrite Forall_forall in F |- *. intros y Hy. split; [auto|]. apply F2. now apply list_elem_of_fmap_2.
Qed.

Lemma omap_ext_in {A B} (f g : A -> option B) (l : list A) : (forall i, i ∈ l -> f i = g i) -> omap f l = omap g l.
Proof.
  induction l as [|i l IH]; intros H; [reflexivity|]. cbn. rewrite H by left.
  rewrite IH; [reflexivity|]. intros j Hj. apply H. now right.
Qed.

Lemma omap_seq_all {A} (l : list A) : omap (fun i => l !! i) (seq 0 (length l)) = l.
Proof.
  induction l as [|x l IH] using rev_ind; [reflexivity|]. rewrite length_app. cbn [length]. rewrite Nat.add_1_r, seq_S, omap_app. cbn.
  rewrite lookup_app_r, Nat.sub_diag by lia. cbn. f_equal. rewrite <- IH at 2. apply omap_ext_in.
  intros i Hi. apply elem_of_seq in Hi. apply lookup_app_l. lia.
Qed.

(** One class of rows, ranked from [base]. *)
Lemma rankGroups_spec subset base :
  Forall (fun r => scored r /\ row_status r <> StatusUnranked) subset ->
  let '(out, next) := rankGroups subset base in
  rk_Row <$> out ≡ₚ subset /\ base <= next /\ Forall (fun x => base <= Rank x < next) out /\
  StronglySorted (fun x y => Rank x <= Rank y /\ better (rk_Row y) (rk_Row x) = false) out /\
  (forall k, base <= k < next -> exists y, y ∈ out /\ Rank y = k) /\
  (forall x, x ∈ out -> Tied x = (1 <? sharing (Rank x) out)%nat) /\ ties_meet out.
Proof.
  intros F. unfold rankGroups. destruct subset as [|r0 rest] eqn:Es.
  { cbn. split; [reflexivity|]. repeat split; [lia|constructor|constructor|intros; lia|intros x Hx; now apply not_elem_of_nil in Hx|discriminate..]. }
  rewrite <- Es in *. clear Es r0 rest. set (rs := to_ranking <$> subset).
  assert (Sc : forall i, score_at rs i = subset !! i ≫= row_score).
  { intros i. unfold score_at, rs. rewrite list_lookup_fmap. now destruct (subset !! i). }
  rewrite Forall_forall in F.
  assert (Ok : scores_ok rs).
  { intros r c (x & -> & Hx)%list_elem_of_fmap Hc. now apply (F x Hx). }
  destruct (RankOrder_spec rs Ok) as (Pm & So & Gr & Ld).
  assert (Fl : List.filter (fun i => bool_decide (is_Some (score_at rs i))) (seq 0 (length rs)) = seq 0 (length subset)).
  { unfold rs. rewrite length_fmap. apply forallb_filter_id, forallb_forall. intros i Hi. apply bool_decide_eq_true.
    apply in_seq in Hi. fold rs. rewrite Sc. destruct (lookup_lt_is_Some_2 subset i) as [x E]; [lia|]. rewrite E. cbn.
    apply list_elem_of_lookup_2 in E. destruct (F x E) as [[Hs _] Hu]. destruct (row_score x); [eauto|]. now destruct Hu; apply Hs. }
  rewrite Fl in Pm. set (groups := RankOrder rs) in *.
  assert (V : valid_groups subset groups).
  { apply Forall_forall. intros g Hg. rewrite Forall_forall in Gr. specialize (Gr g Hg). split; [now intros ->|].
    apply Forall_forall. intros i Hi. assert (Hc : i ∈ concat groups) by (apply list_elem_of_In, in_concat; exists g; split; now apply list_elem_of_In).
    rewrite Pm in Hc. apply elem_of_seq in Hc. lia. }
  destruct (rank_from_spec subset base groups V) as (R1 & R2 & R3 & R4 & R5). cbv zeta in *.
  split; [|split; [lia|split; [assumption|split; [|split; [assumption|split; [assumption|now apply rank_from_ties]]]]]].
  - rewrite R1, Pm. now rewrite omap_seq_all.
  - apply (StronglySorted_both (fun x y => Rank x <= Rank y) (fun a b => better b a = false)); [assumption|]. rewrite R1.
    eapply StronglySorted_omap; [|exact So]. intros i j x y _ _ Hij Ei Ej. cbn in Hij. unfold score_greater in Hij. rewrite !Sc, Ei, Ej in Hij. exact Hij.
Qed.

Lemma statuses_partition rows :
  rows ≡ₚ List.filter (has_status StatusRanked) rows ++ List.filter (has_status StatusProvisionally) rows ++ List.filter (has_status StatusUnranked) rows.
Proof.
  induction rows as [|r rows IH]; [reflexivity|]. cbn [List.filter].
  assert (Hs : forall s, has_status s r = bool_decide (row_status r = s)) by reflexivity. rewrite !Hs. clear Hs.
  set (A := List.filter (has_status StatusRanked) rows) in *. set (B := List.filter (has_status StatusProvisionally) rows) in *.
  set (C := List.filter (has_status StatusUnranked) rows) in *. clearbody A B C. rewrite IH. destruct (row_status r); cbn.
  - reflexivity.
  - apply Permutation_middle.
  - rewrite !app_assoc. apply Permutation_middle.
Qed.

Lemma has_status_elem s rows r : r ∈ List.filter (has_status s) rows <-> r ∈ rows /\ row_status r = s.
Proof. unfold has_status. now rewrite !list_elem_of_In, filter_In, bool_decide_eq_true. Qed.

(** The rows of one status among those displayed. *)
Lemma class_rows s rows base : Forall scored rows -> s <> StatusUnranked ->
  let '(out, next) := rankGroups (List.filter (has_status s) rows) base in
  rk_Row <$> out ≡ₚ List.filter (has_status s) rows /\ base <= next /\ Forall (fun x => base <= Rank x < next /\ row_status (rk_Row x) = s) out /\
  StronglySorted (fun x y => Rank x <= Rank y /\ better (rk_Row y) (rk_Row x) = false) out /\
  (forall k, base <= k < next -> exists y, y ∈ out /\ Rank y = k) /\
  (forall x, x ∈ out -> Tied x = (1 <? sharing (Rank x) out)%nat) /\ ties_meet out.
Proof.
  intros F Ns. pose proof (rankGroups_spec (List.filter (has_status s) rows) base) as G.
  destruct (rankGroups _ base) as [out next]. destruct G as (P & L & Fr & So & De & Ti & Tm).
  { apply Forall_forall. intros r [Hr <-]%has_status_elem. rewrite Forall_forall in F. auto. }
  split_and!; auto. rewrite Forall_forall in Fr |- *. intros x Hx. split; [auto|].
  assert (Hr : rk_Row x ∈ rk_Row <$> out) by now apply list_elem_of_fmap_2. rewrite P in Hr. now apply has_status_elem in Hr.
Qed.

(** Classes of rows at separate ranks tie on their own. *)
Lemma ties_meet_app o1 o2 o3 next :
  (forall x, x ∈ o1 -> Rank x < next /\ row_status (rk_Row x) = StatusRanked) ->
  (forall x, x ∈ o2 -> next <= Rank x /\ row_status (rk_Row x) = StatusProvisionally) -> (forall x, x ∈ o3 -> Rank x < 1) ->
  1 <= next -> ties_meet o1 -> ties_meet o2 -> ties_meet (o1 ++ o2 ++ o3).
Proof.
  intros F1 F2 F3 Ln M1 M2.
  assert (A1 : forall k, next <= k -> at_rank k o1 = []) by (intros k Hk; apply at_rank_none; intros x Hx; destruct (F1 x Hx); lia).
  assert (A2 : forall k, k < next -> at_rank k o2 = []) by (intros k Hk; apply at_rank_none; intros x Hx; destruct (F2 x Hx); lia).
  assert (A : forall k, 1 <= k -> at_rank k (o1 ++ o2 ++ o3) = if k <? next then at_rank k o1 else at_rank k o2).
  { intros k Hk. rewrite !at_rank_app, (at_rank_none k o3), app_nil_r by (intros x Hx; specialize (F3 x Hx); lia).
    destruct (Z.ltb_spec k next); [now rewrite A2, app_nil_r|now rewrite A1]. }
  constructor.
  - intros k a rest Hk. rewrite A by assumption. destruct (k <? next); now apply tm_shared.
  - intros k a b rest rest' Hk. rewrite !A by lia. destruct (Z.ltb_spec k next), (Z.ltb_spec (k + 1) next); try lia; intros Ea Eb Es.
    + now apply (tm_split o1 M1 k a b rest rest').
    + exfalso. assert (Ha : a ∈ at_rank k o1) by (rewrite Ea; left). assert (Hb : b ∈ at_rank (k + 1) o2) by (rewrite Eb; left).
      apply list_elem_of_In, filter_In in Ha as [Ha _], Hb as [Hb _]. apply list_elem_of_In in Ha, Hb.
      destruct (F1 a Ha) as [_ Xa], (F2 b Hb) as [_ Xb]. congruence.
    + now apply (tm_split o2 M2 k a b rest rest').
Qed.

Lemma orderRankings_standings rows : Forall scored rows -> standings rows (orderRankings rows).
Proof.
  intros F. unfold orderRankings. pose proof (class_rows StatusRanked rows 1 F ltac:(discriminate)) as C1.
  destruct (rankGroups _ 1) as [o1 next]. pose proof (class_rows StatusProvisionally rows next F ltac:(discriminate)) as C2.
  destruct (rankGroups _ next) as [o2 next2]. destruct C1 as (P1 & L1 & F1 & S1 & D1 & T1 & M1), C2 as (P2 & L2 & F2 & S2 & D2 & T2 & M2).
  rewrite Forall_forall in F1, F2. set (o3 := _ <$> List.filter (has_status StatusUnranked) rows).
  assert (F3 : forall x, x ∈ o3 -> Rank x = 0 /\ Tied x = false /\ row_status (rk_Row x) = StatusUnranked).
  { intros x (r & -> & [_ Hr]%has_status_elem)%list_elem_of_fmap. auto. }
  assert (E3 : rk_Row <$> o3 = List.filter (has_status StatusUnranked) rows) by (unfold o3; rewrite <- list_fmap_compose; apply list_fmap_id).
  assert (El : forall x, x ∈ o1 ++ o2 ++ o3 <-> x ∈ o1 \/ x ∈ o2 \/ x ∈ o3) by (intros x; now rewrite !elem_of_app).
  assert (N1 : forall k, k < 1 \/ next <= k -> sharing k o1 = 0%nat) by (intros k Hk; apply sharing_none; intros y Hy; destruct (F1 y Hy); lia).
  assert (N2 : forall k, k < next \/ next2 <= k -> sharing k o2 = 0%nat) by (intros k Hk; apply sharing_none; intros y Hy; destruct (F2 y Hy); lia).
  assert (N3 : forall k, 1 <= k -> sharing k o3 = 0%nat) by (intros k Hk; apply sharing_none; intros y Hy; destruct (F3 y Hy); lia).
  constructor.
  - rewrite !fmap_app, P1, P2, E3. symmetry. apply statuses_partition.
  - intros x [Hx|[Hx|Hx]]%El; [destruct (F1 x Hx) as [? E]|destruct (F2 x Hx) as [? E]|destruct (F3 x Hx) as (? & _ & E)];
      rewrite E; (split; [lia|]); split; intros; (lia || discriminate || assumption || reflexivity).
  - apply StronglySorted_app_2; [| |apply StronglySorted_app_2].
    + intros x y Hx [Hy|Hy]%elem_of_app; [|left; now apply F3]. right. destruct (F1 x Hx) as [? Ex], (F2 y Hy) as [? Ey].
      rewrite Ex, Ey. split; [lia|]. split; [discriminate|]. intros _. repeat split. lia.
    + eapply StronglySorted_mono_in; [|exact S1]. intros x y Hx Hy [H1 H2]. right. destruct (F1 x Hx) as [? Ex], (F1 y Hy) as [? Ey].
      rewrite Ex, Ey. split; [lia|]. split; [auto|]. intros Hn; now destruct Hn.
    + intros x y Hx Hy. left. now apply F3.
    + eapply StronglySorted_mono_in; [|exact S2]. intros x y Hx Hy [H1 H2]. right. destruct (F2 x Hx) as [? Ex], (F2 y Hy) as [? Ey].
      rewrite Ex, Ey. split; [lia|]. split; [auto|]. intros Hn; now destruct Hn.
    + apply StronglySorted_all. intros x y Hx Hy. left. now apply F3.
  - intros x k Hx Hk. assert (R : Rank x < next2).
    { apply El in Hx as [Hx|[Hx|Hx]]; [destruct (F1 x Hx)|destruct (F2 x Hx)|destruct (F3 x Hx)]; lia. }
    destruct (Z.lt_ge_cases k next) as [L|L]; [destruct (D1 k ltac:(lia)) as (y & Hy & E)|destruct (D2 k ltac:(lia)) as (y & Hy & E)];
      exists y; (split; [apply El; auto|assumption]).
  - intros x [Hx|[Hx|Hx]]%El; rewrite !sharing_app.
    + destruct (F1 x Hx) as [R _]. rewrite bool_decide_true, N2, N3, (T1 x Hx), !Nat.add_0_r by lia. reflexivity.
    + destruct (F2 x Hx) as [R _]. rewrite bool_decide_true, N1, N3, (T2 x Hx), !Nat.add_0_r by lia. reflexivity.
    + destruct (F3 x Hx) as (R & -> & _). now rewrite bool_decide_false by lia.
  - apply (ties_meet_app o1 o2 o3 next); auto; intros x Hx; [destruct (F1 x Hx)|destruct (F2 x Hx)|destruct (F3 x Hx); lia]; split; (lia || assumption).
Qed.

(** The tables the rankings are read from: the CHECKs of [provider_rankings], one live
    row per key (kept by [RankBatch]), monthly periods, and the foreign keys. *)
Record ranking_tables_ok (d : ReadTables) : Prop := {
  rto_check : forall r, r ∈ live (rd_rankings d) -> ranking_check r = true;
  rto_live : one_live ranking_key (rd_rankings d);
  rto_periods : forall r r', r ∈ live (rd_rankings d) -> r' ∈ live (rd_rankings d) -> rr_PeriodStart r = rr_PeriodStart r' -> rr_PeriodEnd r = rr_PeriodEnd r';
  rto_providers : NoDup (Catalog.p_ID <$> rd_providers d);
  rto_locations : NoDup (Catalog.l_ID <$> rd_locations d);
  rto_provider_fk : forall r, r ∈ live (rd_rankings d) -> rr_ProviderID r ∈ Catalog.p_ID <$> rd_providers d;
  rto_location_fk : forall r, r ∈ live (rd_rankings d) -> rr_LocationID r ∈ Catalog.l_ID <$> rd_locations d;
}.

(** The rows of a cell at its latest period. *)
Definition latest_cohort (q : RankingsQuery) (profile : string) (d : ReadTables) : list RankingRow :=
  latest rr_PeriodStart (List.filter (in_cohort (rq_LocationID q) (rq_HorizonMinutes q) profile) (live (rd_rankings d))).

Lemma latest_elem {A} (start : A -> Time) rows r :
  r ∈ latest start rows <-> r ∈ rows /\ forall r', r' ∈ rows -> start r' <= start r.
Proof.
  assert (M : forall l : list Time, match max_of l with None => l = [] | Some m => m ∈ l /\ forall t, t ∈ l -> t <= m end).
  { induction l as [|t l IH] using rev_ind; [reflexivity|]. unfold max_of in *. rewrite foldl_app. cbn.
    destruct (foldl _ None l) as [m|].
    - destruct IH as [I1 I2]. split.
      + apply elem_of_app. destruct (Z.max_spec m t) as [[_ ->]|[_ ->]]; [right; left|now left].
      + intros u [Hu| ->%list_elem_of_singleton]%elem_of_app; [specialize (I2 u Hu)|]; lia.
    - subst l. split; [left|]. now intros u ->%list_elem_of_singleton. }
  unfold latest. rewrite list_elem_of_In, filter_In, bool_decide_eq_true, <- list_elem_of_In. specialize (M (start <$> rows)).
  split.
  - intros [Hr E]. split; [assumption|]. intros r' Hr'. rewrite <- E in M. apply M. now apply list_elem_of_fmap_2.
  - intros [Hr Hm]. split; [assumption|]. destruct (max_of (start <$> rows)) as [m|].
    + destruct M as [(x & -> & Hx)%list_elem_of_fmap M2]. f_equal. specialize (Hm x Hx). specialize (M2 (start r) ltac:(now apply list_elem_of_fmap_2)). lia.
    + apply fmap_nil_inv in M. subst rows. now apply not_elem_of_nil in Hr.
Qed.

(** A key that occurs in a keyed table joins to exactly its row. *)
Lemma joined_one {A} (id_of : A -> uuid) id (rows : list A) :
  NoDup (id_of <$> rows) -> id ∈ id_of <$> rows -> exists x, joined id_of id rows = [x] /\ x ∈ rows /\ id_of x = id.
Proof.
  intros N (x & -> & Hx)%list_elem_of_fmap. exists x. split; [|auto]. unfold joined.
  induction rows as [|y rows IH]; [now apply not_elem_of_nil in Hx|]. rewrite fmap_cons in N. apply NoDup_cons in N as [Ny N]. cbn.
  apply elem_of_cons in Hx as [->|Hx].
  - rewrite bool_decide_true by reflexivity. f_equal. destruct (List.filter _ rows) as [|z zs] eqn:E; [reflexivity|exfalso].
    assert (Hz : In z (List.filter (fun r => bool_decide (id_of r = id_of y)) rows)) by (rewrite E; now left).
    apply filter_In in Hz as [Hz Ez]. apply bool_decide_eq_true in Ez. apply Ny. rewrite <- Ez. apply list_elem_of_fmap_2, list_elem_of_In, Hz.
  - rewrite bool_decide_false; [auto|]. intros E. apply Ny. rewrite E. now apply list_elem_of_fmap_2.
Qed.

Lemma ListRankings_rows `{Database} q profile d : ranking_tables_ok d ->
  let rows := pg_ListRankings (rq_LocationID q) (rq_HorizonMinutes q) profile d in
  rr_row <$> rows = latest_cohort q profile d /\ Forall scored rows /\
  Forall (fun x => exists p l, p ∈ rd_providers d /\ Catalog.p_ID p = rr_ProviderID (rr_row x) /\ l ∈ rd_locations d /\
            Catalog.l_ID l = rr_LocationID (rr_row x) /\ x = read_row (rr_row x) p l) rows.
Proof.
  intros [Ck _ _ Np Nl Fp Fl]. unfold pg_ListRankings. fold (latest_cohort q profile d).
  assert (C : forall r, r ∈ latest_cohort q profile d -> r ∈ live (rd_rankings d)).
  { intros r [Hr _]%latest_elem. apply list_elem_of_In, filter_In in Hr as [Hr _]. now apply list_elem_of_In. }
  induction (latest_cohort q profile d) as [|r rs IH]; [cbn; auto|]. cbn [flat_map].
  assert (Hr : r ∈ live (rd_rankings d)) by (apply C; left).
  destruct (joined_one Catalog.p_ID (rr_ProviderID r) (rd_providers d) Np (Fp r Hr)) as (p & -> & Hp & Ep).
  destruct (joined_one Catalog.l_ID (rr_LocationID r) (rd_locations d) Nl (Fl r Hr)) as (l & El & Hl & Ell).
  cbn [flat_map]. rewrite El. cbn [fmap list_fmap app]. destruct IH as (-> & I2 & I3); [intros x Hx; apply C; now right|].
  split; [reflexivity|]. split; constructor; auto; [|exists p, l; auto].
  specialize (Ck r Hr). unfold ranking_check in Ck. rewrite !andb_true_iff in Ck. destruct Ck as (((((_ & _) & Eq) & B) & _) & _).
  apply Bool.eqb_prop in Eq. unfold scored, row_score, row_status. cbn [read_row rr_row]. split.
  - destruct (rr_CompositeScore r); case_bool_decide; case_bool_decide; split; intros; congruence.
  - intros x E. rewrite E in B. apply andb_true_iff in B as [B _]. destruct x; (reflexivity || discriminate).
Qed.

Lemma cohort_elem q profile d r : r ∈ latest_cohort q profile d ->
  r ∈ live (rd_rankings d) /\ rr_LocationID r = rq_LocationID q /\ rr_HorizonMinutes r = rq_HorizonMinutes q /\ rr_HorizonProfile r = profile.
Proof.
  intros [Hr _]%latest_elem. apply list_elem_of_In, filter_In in Hr as [Hr F]. unfold in_cohort in F.
  rewrite !andb_true_iff, bool_decide_eq_true, Z.eqb_eq, String.eqb_eq in F. rewrite list_elem_of_In. intuition.
Qed.

Lemma cohort_providers q profile d : ranking_tables_ok d -> NoDup (rr_ProviderID <$> latest_cohort q profile d).
Proof.
  intros [_ Li Pe _ _ _ _]. apply NoDup_fmap_2_strong.
  - intros x y Hx Hy E. destruct (cohort_elem _ _ _ _ Hx) as (Lx & X1 & X2 & X3), (cohort_elem _ _ _ _ Hy) as (Ly & Y1 & Y2 & Y3).
    apply latest_elem in Hx as [Ix Mx], Hy as [Iy My]. assert (Es : rr_PeriodStart x = rr_PeriodStart y) by (specialize (Mx y Iy); specialize (My x Ix); lia).
    apply (NoDup_key_unique ranking_key (live (rd_rankings d))); auto. unfold ranking_key.
    rewrite E, X1, X2, X3, Y1, Y2, Y3, Es, (Pe x y Lx Ly Es). reflexivity.
  - unfold latest_cohort, latest. apply NoDup_ListNoDup. do 2 apply List.NoDup_filter. apply NoDup_ListNoDup. eapply NoDup_fmap_1, Li.
Qed.

Definition effective_profile (q : RankingsQuery) : string := if String.eqb (rq_Profile q) "" then ProfileUniform else rq_Profile q.

(** The rankings the service answers with, when no statement fails. *)
Lemma Rankings_run `{Env} `{!Healthy} `{Database} (q : RankingsQuery) (w : World ReadTables) : int4 (rq_HorizonMinutes q) = true ->
  let rows := pg_ListRankings (rq_LocationID q) (rq_HorizonMinutes q) (effective_profile q) (db w) in
  exists res, Rankings q w = (MkWorld (db w) (S (S (tick w))) (nids w), Ok res) /\ rs_Rows res = orderRankings rows /\
    (rows = [] <-> rs_LastCalculatedAt res = None).
Proof.
  intros I. unfold Rankings. fold (effective_profile q). rewrite bind_run, query4_fits, bind_run, query_healthy by exact I. cbn [db tick nids].
  destruct (pg_ListRankings _ _ _ (db w)); eexists; (split; [reflexivity|]); (split; [reflexivity|]); now split.
Qed.


(** ** Concrete tables *)

#[local] Instance demo_database : Database := {| text_ltb := Uuid.str_ltb; calculated_at := fun u => Z.of_N u |}.

(** Europe/Berlin: local mean time until 1893 (which ends at a local midnight), and of
    the later changes those of 2025 and 2026, at 01:00 UTC. *)
Definition berlin : Location :=
  MkLocation 3208 [(-2422054408, 3600); (1743296400, 7200); (1761440400, 3600); (1774746000, 7200); (1792890000, 3600)].

Definition demo_rank (id provider : uuid) (start : Time) (st : Status) (score : option Z) : Stored RankingRow :=
  (MkRankingRow id provider 9 1440 ((fun z => f64_lit z 100) <$> score) ((fun z => f64_lit (z - 2) 100) <$> score) ((fun z => f64_lit (z + 2) 100) <$> score)
     st 40 None None [] MethodologyVersion WeightsVersion ProfileUniform start (addMonthSQL start), None).

Definition demo_metric_row (id provider : uuid) (day : Z) (v : Z) : StoredMetric :=
  (MkMetric id provider 9 1440 VarTemperature MetricMAE (Some (f64_lit v 10)) None None 24 MethodologyVersion
     (Date 2026 3 day) (Date 2026 3 (day + 1)), None).

Definition demo_provider (id : uuid) (name : string) : Catalog.Provider :=
  Catalog.MkProvider id name name "https://example.org" Catalog.StatusActive "Data" "https://example.org" 0 0.

Definition demo_snapshot (id provider : uuid) (target horizon : Z) (v : Z) : ForecastSnapshot :=
  MkSnapshot id 1 provider 9 (target - horizon * Minute) target horizon (Some (f64_of_Z v)) None None None None None None None None "" "" "" 0.

Definition demo_observation (id : uuid) (t : Time) (v : Z) : Observation :=
  MkObservation id 9 "open-meteo" "reanalysis" t (Some (f64_of_Z v)) None None None None None "" "" QualityValid None 0.

Definition march : Time := Date 2026 3 1.

Definition demo_tables : ReadTables := MkReadTables
  [demo_rank 1 21 (Date 2026 2 1) StatusRanked (Some 90); demo_rank 2 21 march StatusRanked (Some 80); demo_rank 3 22 march StatusRanked (Some 81);
   demo_rank 4 23 march StatusRanked (Some 60); demo_rank 5 24 march StatusProvisionally (Some 95); demo_rank 6 25 march StatusUnranked None]
  [demo_metric_row 11 21 28 15; demo_metric_row 12 21 29 20; demo_metric_row 13 22 29 12]
  [demo_snapshot 31 21 (march + Hour) 60 4; demo_snapshot 32 21 (march + Hour) 180 6; demo_snapshot 33 21 (march + Hour) 2000 9;
   demo_snapshot 34 21 (march + 2 * Hour) 120 5]
  [demo_observation 41 (march + Hour) 5]
  [demo_provider 21 "a"; demo_provider 22 "b"; demo_provider 23 "c"; demo_provider 24 "d"; demo_provider 25 "e"]
  [Catalog.MkLocation 9 1 "Berlin" f0 f0 "DE" "Europe/Berlin" Catalog.StatusActive 0 0].


(** Regular since 1900, though not before. *)
Lemma trends_rebucket_witness :
  zone_ok berlin = false /\
  exists w' res, Trends (MkTrendFilter None 9 1440 VarTemperature MetricMAE march (Date 2026 4 1) "daily" 365) (Some berlin)
      (MkWorld demo_tables 0 0) = (w', Ok res) /\ db w' = demo_tables /\
    chart berlin (-2208988800 * Second) "daily"
      (pg_AccuracyTrends (MkTrendFilter None 9 1440 VarTemperature MetricMAE march (Date 2026 4 1) "daily" 365) demo_tables) (tr_Series res).
Proof.
  split; [vm_compute; reflexivity|].
  apply (trends_rebucket (MkTrendFilter None 9 1440 VarTemperature MetricMAE march (Date 2026 4 1) "daily" 365) berlin (-2208988800)
    (MkWorld demo_tables 0 0)); [reflexivity|vm_compute; reflexivity|]. cbn [db]. unfold row_since.
  assert (E : forallb (fun r => (-2208988800 * Second + 40 * Day <=? tb_PeriodStart r) && (tb_PeriodStart r <=? 2 ^ 62) && (- 2 ^ 62 <=? tb_PeriodStart r))
    (pg_AccuracyTrends (MkTrendFilter None 9 1440 VarTemperature MetricMAE march (Date 2026 4 1) "daily" 365) demo_tables) = true) by (vm_compute; reflexivity).
  apply Forall_forall. intros r Hr. rewrite forallb_forall in E. specialize (E r (proj1 (list_elem_of_In _ _) Hr)). bool_simp. auto.
Defined.

Example trends_demo : (fun s => (ts_ProviderID s, (fun b => (tb_PeriodEnd b - tb_PeriodStart b) / Hour) <$> ts_Buckets s)) <$>
  tr_Series (assembleTrends berlin "daily" (trend_bucket <$> live (rd_metrics demo_tables))) = [(21%N, [24; 23]); (22%N, [23])].
Proof. vm_compute. reflexivity. Qed.

Definition demo_comparison : ComparisonQuery := MkComparisonQuery 9 [21%N; 22%N] "temperature" 1440 march (march + Day).

Lemma comparison_exact_witness :
  exists w' res, ForecastComparison demo_comparison (MkWorld demo_tables 0 0) = (w', Ok res) /\ db w' = demo_tables /\
    comparison_ok demo_comparison "temperature_c" "temperature_c" demo_tables res.
Proof. apply (comparison_exact demo_comparison "temperature_c" "temperature_c" (MkWorld demo_tables 0 0)); reflexivity. Defined.

Example comparison_demo :
  let res := assembleComparison [21%N; 22%N]
    (pg_ForecastComparisonPoints 9 [21%N; 22%N] "temperature_c" 1440 march (march + Day) demo_tables)
    (pg_ComparisonObservations 9 "temperature_c" march (march + Day) demo_tables) in
  (fun s => fp_HorizonMinutes <$> cs_Points s) <$> cr_Series res = [[180; 120]] /\ dm_SampleCount <$> cr_DayMetrics res = [1].
Proof. vm_compute. split; reflexivity. Qed.

Lemma demo_tables_ok : ranking_tables_ok demo_tables.
Proof.
  constructor.
  - intros r Hr. assert (E : forallb ranking_check (live (rd_rankings demo_tables)) = true) by (vm_compute; reflexivity).
    rewrite forallb_forall in E. apply E, list_elem_of_In, Hr.
  - apply (bool_decide_unpack _). vm_compute. reflexivity.
  - intros r r' Hr Hr' E. assert (M : forallb (fun r => rr_PeriodEnd r =? addMonthSQL (rr_PeriodStart r)) (live (rd_rankings demo_tables)) = true)
      by (vm_compute; reflexivity). rewrite forallb_forall in M.
    apply list_elem_of_In, M, Z.eqb_eq in Hr. apply list_elem_of_In, M, Z.eqb_eq in Hr'. now rewrite Hr, Hr', E.
  - apply (bool_decide_unpack _). vm_compute. reflexivity.
  - apply (bool_decide_unpack _). vm_compute. reflexivity.
  - intros r Hr. assert (M : forallb (fun r => bool_decide (rr_ProviderID r ∈ Catalog.p_ID <$> rd_providers demo_tables)) (live (rd_rankings demo_tables)) = true)
      by (vm_compute; reflexivity). rewrite forallb_forall in M. apply list_elem_of_In, M, bool_decide_eq_true in Hr. exact Hr.
  - intros r Hr. assert (M : forallb (fun r => bool_decide (rr_LocationID r ∈ Catalog.l_ID <$> rd_locations demo_tables)) (live (rd_rankings demo_tables)) = true)
      by (vm_compute; reflexivity). rewrite forallb_forall in M. apply list_elem_of_In, M, bool_decide_eq_true in Hr. exact Hr.
Qed.


Example rankings_demo :
  (fun x => (rr_ProviderName (rk_Row x), Rank x, Tied x)) <$> orderRankings (pg_ListRankings 9 1440 ProfileUniform demo_tables) =
  [("b", 1, true); ("a", 1, true); ("c", 2, false); ("d", 3, false); ("e", 0, false)].
Proof. vm_compute. reflexivity. Qed.

End ReadProps.
