(* ===== verification/Collection.v ===== *)
(** * Forecast collection ([internal/collection])

    [Collect] is the whole workflow: activity checks, circuit pre-check, provider
    call through the adapter port, collection-level deduplication, raw payload,
    classification, partitions, the one transaction that writes the collection, its
    snapshots and the breaker, and the events and audit record after commit.
    [Replay] reprocesses a stored payload.  [collectionpg] is the repository, with
    the CHECKs, the unique indexes and the immutability trigger of its tables.

    Metrics and log lines are left out.  The provider adapters, the credential
    lookup, the payload store and the payload digest are parameters: they are
    reached through ports, and the network or the file system is behind them. *)

From Stdlib Require Import ZArith Lia Bool String.
From stdpp Require Import base list strings gmap pretty.
From S2P Require Import Prelude Float64 GoTime Uuid Effects Records Circuit Catalog.

Import Records Circuit Catalog.
Local Open Scope string_scope.
Local Open Scope Z_scope.

Module Collection.

(** ** ports *)

Inductive Outcome :=
| OutcomeSuccess | OutcomePartial | OutcomeFailed | OutcomeRateLimited | OutcomeTimeout | OutcomeAuthFailed.

#[export] Instance Outcome_eq_dec : EqDecision Outcome.
Proof. solve_decision. Defined.

Record ForecastRequest := MkRequest {
  fr_ProviderID : uuid;
  fr_LocationID : uuid;
  fr_ProviderSlug : string;
  fr_BaseURL : string;
  fr_Credential : string;
  fr_Latitude : float64;
  fr_Longitude : float64;
  fr_Timezone : string;
  fr_IssuedAt : Time
}.

(** Without the fields only metrics read ([UnmappedConditions], [RateLimit]). *)
Record ForecastResult := MkResult {
  RawPayload : string;
  Checksum : string;
  HTTPStatusCode : Z;
  LatencyMS : Z;
  ProviderRequestID : string;
  ModelRunTime : option Time;
  SchemaVersion : string;
  AdapterVersion : string;
  r_IssuedAt : Time;
  Snapshots : list ForecastSnapshot;
  RecordsReceived : Z;
  InvalidCount : Z;
  InvalidReasons : list string;
  r_Outcome : Outcome;
  r_ErrorCode : string;
  r_Err : option string
}.

(** [ForecastProviderAdapter], with the optional [ReplayDecoder]. *)
Record Adapter := MkAdapter {
  FetchForecast : ForecastRequest -> result ForecastResult;
  DecodeStored : option (ForecastRequest -> string -> result ForecastResult)
}.

(** [PayloadStore], as the workflows see it: whether a write succeeds, and what a
    read returns. *)
Record PayloadStore := MkPayloadStore {
  Write_ok : string -> string -> bool;
  Read : string -> result string
}.

Definition PayloadSchemeFile : string := "file://".

(** [fmt.Sprintf("%0wd", n)]. *)
Definition pad_int (w : nat) (n : Z) : string :=
  if n <? 0 then "-" ++ GoFmt.pad2 (w - 1) (pretty (- n)) else GoFmt.pad2 w (pretty n).

Definition BuildPayloadKey (providerSlug : string) (at_ : Time) (collectionID : uuid) : string :=
  PayloadSchemeFile ++ providerSlug ++ "/" ++ pad_int 4 (Year at_) ++ "/" ++ pad_int 2 (Month at_) ++ "/"
  ++ pad_int 2 (DayOfMonth at_) ++ "/" ++ Uuid.to_string collectionID ++ ".json.gz".

(** ** collection.go *)

Definition SourceManual : string := "manual".
Definition SourceScheduled : string := "scheduled".
Definition SourceReplay : string := "replay".

Record CollectInput := MkCollectInput {
  in_Provider : Provider;
  in_Location : Location;
  in_Config : ProviderConfiguration;
  in_Actor : Actor;
  in_Source : string
}.

(** Errors the callers tell apart; database errors are those of the monad. *)
Inductive CollectError :=
| ErrInactive
| CircuitOpenError (providerID : uuid) (retryAt : option Time)
| ErrNotFound
| ErrPayloadUnavailable
| ErrReplayUnsupported.

Definition ErrDuplicateCollection : string := "duplicate collection (concurrent commit of same dedup key)".

(** The events handed to the bus. *)
Inductive BusEvent :=
| ForecastCollected (collectionID providerID locationID : uuid) (count : Z) (status : CollectionStatus) (at_ : Time)
| ProviderHealthChanged (providerID : uuid) (old new : CircuitState) (failures : Z).

Record AuditEvent := MkAudit {
  au_UserID : option uuid;
  au_Action : string;
  au_ResourceType : string;
  au_ResourceID : option uuid;
  au_IPAddress : string
}.

(** The calls that change the payload store. *)
Inductive StoreCall :=
| StoreWrite (key content : string)
| StoreQuarantine (key : string).

(** ** collectionpg *)

Record CollectionTables := MkCT {
  ct_providers : list Provider;
  ct_collections : list ForecastCollection;
  ct_snapshots : list ForecastSnapshot;
  ct_partitions : list Time;
  ct_circuits : CircuitTable;
  ct_audit : list AuditEvent;
  ct_events : list BusEvent;
  ct_store : list StoreCall  (* the changes asked of the payload store, oldest first *)
}.

Definition with_collections (d : CollectionTables) (cs : list ForecastCollection) : CollectionTables :=
  MkCT (ct_providers d) cs (ct_snapshots d) (ct_partitions d) (ct_circuits d) (ct_audit d) (ct_events d) (ct_store d).
Definition with_snapshots (d : CollectionTables) (ss : list ForecastSnapshot) : CollectionTables :=
  MkCT (ct_providers d) (ct_collections d) ss (ct_partitions d) (ct_circuits d) (ct_audit d) (ct_events d) (ct_store d).
Definition with_partitions (d : CollectionTables) (ps : list Time) : CollectionTables :=
  MkCT (ct_providers d) (ct_collections d) (ct_snapshots d) ps (ct_circuits d) (ct_audit d) (ct_events d) (ct_store d).
Definition with_audit (d : CollectionTables) (l : list AuditEvent) : CollectionTables :=
  MkCT (ct_providers d) (ct_collections d) (ct_snapshots d) (ct_partitions d) (ct_circuits d) l (ct_events d) (ct_store d).
Definition with_events (d : CollectionTables) (l : list BusEvent) : CollectionTables :=
  MkCT (ct_providers d) (ct_collections d) (ct_snapshots d) (ct_partitions d) (ct_circuits d) (ct_audit d) l (ct_store d).

Definition with_store (d : CollectionTables) (l : list StoreCall) : CollectionTables :=
  MkCT (ct_providers d) (ct_collections d) (ct_snapshots d) (ct_partitions d) (ct_circuits d) (ct_audit d) (ct_events d) l.

#[export] Instance circuits_part : Part CollectionTables CircuitTable := {|
  part := ct_circuits;
  put := fun t d => MkCT (ct_providers d) (ct_collections d) (ct_snapshots d) (ct_partitions d) t (ct_audit d) (ct_events d) (ct_store d)
|}.
#[export] Instance circuits_part_laws : PartLaws CollectionTables CircuitTable.
Proof. constructor; [reflexivity|now intros []|reflexivity]. Qed.

(** The three CHECKs of [forecast_collections]. *)
Definition collection_check (c : ForecastCollection) : bool :=
  (bool_decide (fc_Status c <> StatusPending) || bool_decide (fc_CompletedAt c = None))
  && match fc_CompletedAt c with Some t => fc_RequestedAt c <=? t | None => true end
  && (AccountingHolds c || negb (Successful (fc_Status c))).

(** The columns of the unique index [forecast_collections_dedup]. *)
Definition dedup_key (c : ForecastCollection) : uuid * uuid * Time :=
  (fc_ProviderID c, fc_LocationID c, default (fc_RequestedAt c) (fc_ProviderModelRunTime c)).

(** Another usable collection holds the key of [c]. *)
Definition dedup_conflict (cs : list ForecastCollection) (c : ForecastCollection) : bool :=
  Successful (fc_Status c) &&
  existsb (fun x => Successful (fc_Status x) && negb (N.eqb (fc_ID x) (fc_ID c))
                    && bool_decide (dedup_key x = dedup_key c)) cs.

Definition id_taken (cs : list ForecastCollection) (id : uuid) : bool :=
  existsb (fun x => N.eqb (fc_ID x) id) cs.

Definition pg_InsertCollection (c : ForecastCollection) (d : CollectionTables) : option (CollectionTables * unit) :=
  if collection_check c && negb (id_taken (ct_collections d) (fc_ID c)) && negb (dedup_conflict (ct_collections d) c)
  then Some (with_collections d (ct_collections d ++ [c]), tt)
  else None.

(** The columns [Complete] sets; the others keep the stored value. *)
Definition completed (c x : ForecastCollection) : ForecastCollection :=
  MkCollection (fc_ID x) (fc_ProviderID x) (fc_LocationID x) (fc_ProviderConfigurationID x) (fc_RequestedAt x)
    (fc_CompletedAt c) (fc_Status c) (fc_ProviderRequestID x) (fc_ProviderModelRunTime x) (fc_RawPayloadObjectKey x)
    (fc_RawPayloadChecksum x) (fc_ResponseStatusCode x) (fc_ResponseLatencyMS x)
    (fc_RecordsReceived c) (fc_SnapshotsStored c) (fc_SnapshotsDeduplicated c) (fc_SnapshotsInvalid c)
    (fc_SchemaVersion x) (fc_AdapterVersion x) (fc_ErrorCode c) (fc_ErrorMessage c) (fc_CreatedAt x).

(** [Complete]: the trigger rejects a terminal row, the CHECKs a bad one, the unique
    index a second usable collection of the same key. *)
Definition pg_Complete (c : ForecastCollection) (d : CollectionTables) : result (CollectionTables * unit) :=
  match list_find (fun x => fc_ID x = fc_ID c) (ct_collections d) with
  | None => Ok (d, tt)
  | Some (i, x) =>
      let x' := completed c x in
      if Terminal (fc_Status x) || negb (collection_check x') then Error "complete collection"
      else if dedup_conflict (ct_collections d) x' then Error ErrDuplicateCollection
      else Ok (with_collections d (<[i := x']> (ct_collections d)), tt)
  end.

Definition pg_GetCollection (id : uuid) (d : CollectionTables) : option ForecastCollection :=
  snd <$> list_find (fun x => fc_ID x = id) (ct_collections d).

Definition pg_FindDedup (providerID locationID : uuid) (key : Time) (d : CollectionTables) : option ForecastCollection :=
  snd <$> list_find (fun x => Is_true (Successful (fc_Status x)) /\ dedup_key x = (providerID, locationID, key)) (ct_collections d).

Definition between (v : option float64) (lo hi : float64) : bool :=
  match v with Some x => fleb lo x && fleb x hi | None => true end.
Definition not_negative (v : option float64) : bool :=
  match v with Some x => fleb f0 x | None => true end.

(** The CHECKs of [forecast_snapshots]. *)
Definition snapshot_check (s : ForecastSnapshot) : bool :=
  After (s_TargetTime s) (s_IssuedAt s)
  && between (s_PrecipitationProbability s) f0 f1 && not_negative (s_PrecipitationAmountMM s)
  && between (s_HumidityPct s) f0 (f64_of_Z 100) && not_negative (s_WindSpeedMS s)
  && between (s_WindDirectionDeg s) f0 (f64_of_Z 360) && between (s_CloudCoverPct s) f0 (f64_of_Z 100).

Definition snapshot_key (s : ForecastSnapshot) : uuid * uuid * Time * Time :=
  (s_ProviderID s, s_LocationID s, s_IssuedAt s, s_TargetTime s).

Definition month_of (t : Time) : Time := Date (Year t) (Month t) 1.

(** One row of the batch: [ON CONFLICT DO NOTHING] on the dedup key. *)
Definition insert_snapshot (ss : list ForecastSnapshot) (s : ForecastSnapshot) : list ForecastSnapshot :=
  if existsb (fun x => bool_decide (snapshot_key x = snapshot_key s)) ss then ss else (ss ++ [s])%list.

(** The columns of the primary key. *)
Definition snapshot_pk (s : ForecastSnapshot) : uuid * Time := (s_ID s, s_TargetTime s).

(** A row that is not skipped and repeats a primary key fails the statement. *)
Definition pg_InsertBatch (snaps : list ForecastSnapshot) (d : CollectionTables) : option (CollectionTables * Z) :=
  match snaps with
  | [] => Some (d, 0)
  | _ =>
      if forallb (fun s => snapshot_check s && bool_decide (month_of (s_TargetTime s) ∈ ct_partitions d)
                           && id_taken (ct_collections d) (s_ForecastCollectionID s)) snaps
      then let ss := foldl insert_snapshot (ct_snapshots d) snaps in
           if bool_decide (NoDup (snapshot_pk <$> ss))
           then Some (with_snapshots d ss, Z.of_nat (length ss) - Z.of_nat (length (ct_snapshots d)))
           else None
      else None
  end.

Definition pg_CreatePartition (m : Time) (d : CollectionTables) : CollectionTables * unit :=
  (if bool_decide (m ∈ ct_partitions d) then d else with_partitions d (ct_partitions d ++ [m]), tt).

(** ** collect.go *)

Definition orDefault (v def : string) : string := if negb (String.eqb v "") then v else def.

Definition truncate (l : list string) (n : nat) : list string := if (length l <=? n)%nat then l else take n l.

Definition classify (r : ForecastResult) (payloadOK : bool) : CollectionStatus * string * string :=
  let errorMsg := match InvalidReasons r with [] => "" | _ => String.concat "; " (truncate (InvalidReasons r) 5) end in
  let errorMsg := match r_Err r with Some e => if String.eqb errorMsg "" then e else errorMsg | None => errorMsg end in
  let errorCode := if negb payloadOK then "payload_write_failed" else "" in
  match r_Outcome r with
  | OutcomeSuccess => (StatusSuccess, errorCode, errorMsg)
  | OutcomePartial => (StatusPartial, if String.eqb errorCode "" then "partial_validation" else errorCode, errorMsg)
  | OutcomeRateLimited => (StatusRateLimited, orDefault errorCode "rate_limited", errorMsg)
  | OutcomeTimeout => (StatusTimeout, orDefault errorCode "timeout", errorMsg)
  | OutcomeAuthFailed => (StatusFailed, orDefault errorCode "invalid_credentials", errorMsg)
  | OutcomeFailed => (StatusFailed, orDefault errorCode (r_ErrorCode r), errorMsg)
  end.

Definition monthStarts (snapshots : list ForecastSnapshot) : list Time :=
  foldl (fun out s => let ms := month_of (s_TargetTime s) in
                      if bool_decide (ms ∈ out) then out else (out ++ [ms])%list) [] snapshots.

(** The loop that stamps the snapshots with their parent. *)
Definition stamp (collID providerID locationID : uuid) (s : ForecastSnapshot) : ForecastSnapshot :=
  MkSnapshot (s_ID s) collID providerID locationID (s_IssuedAt s) (s_TargetTime s) (s_ForecastHorizonMinutes s)
    (s_TemperatureC s) (s_FeelsLikeTemperatureC s) (s_PrecipitationProbability s) (s_PrecipitationAmountMM s)
    (s_HumidityPct s) (s_WindSpeedMS s) (s_WindDirectionDeg s) (s_PressureHPa s) (s_CloudCoverPct s)
    (s_ProviderConditionCode s) (s_CanonicalConditionCode s) (s_ConditionTaxonomyVersion s) (s_CreatedAt s).

(** The final values of the collection row. *)
Definition finish (coll : ForecastCollection) (r : ForecastResult) (stored : Z) (status : CollectionStatus)
    (completedAt : Time) (errorCode errorMsg : string) : ForecastCollection :=
  MkCollection (fc_ID coll) (fc_ProviderID coll) (fc_LocationID coll) (fc_ProviderConfigurationID coll) (fc_RequestedAt coll)
    (Some completedAt) status (fc_ProviderRequestID coll) (fc_ProviderModelRunTime coll) (fc_RawPayloadObjectKey coll)
    (fc_RawPayloadChecksum coll) (fc_ResponseStatusCode coll) (fc_ResponseLatencyMS coll)
    (RecordsReceived r) stored (Z.of_nat (length (Snapshots r)) - stored) (InvalidCount r)
    (fc_SchemaVersion coll) (fc_AdapterVersion coll) errorCode errorMsg (fc_CreatedAt coll).

Definition usable (o : Outcome) : bool := bool_decide (o = OutcomeSuccess) || bool_decide (o = OutcomePartial).

(** What a [CollectService] is wired with, and the readings of its clock: [now] at
    the start, [completedAt] before the transaction, [later] afterwards. *)
Class CollectDeps := {
  adapters : gmap string Adapter;
  resolveCred : string -> string;
  payloads : PayloadStore;
  digest : string -> string;
}.

Record Clock := MkClock { now : Time; completedAt : Time; later : Time }.

Section Service.
Context `{Env} `{CollectDeps}.

Definition Insert (c : ForecastCollection) : M CollectionTables unit :=
  dbexec "insert collection" (pg_InsertCollection c).
Definition Complete (c : ForecastCollection) : M CollectionTables unit :=
  dbtry "complete collection" (pg_Complete c).
Definition FindDedup (p l : uuid) (key : Time) : M CollectionTables (option ForecastCollection) :=
  query "scan collection" (pg_FindDedup p l key).
Definition InsertBatch (snaps : list ForecastSnapshot) : M CollectionTables Z :=
  match snaps with [] => ret 0 | _ => dbexec "insert snapshots" (pg_InsertBatch snaps) end.
Definition EnsurePartitions (ms : list Time) : M CollectionTables unit :=
  iterM (fun m => dbcall "ensure partition" (pg_CreatePartition m)) ms.
Definition Publish (e : BusEvent) : M CollectionTables unit :=
  local (fun d => (with_events d (ct_events d ++ [e]), tt)).
Definition RecordAudit (e : AuditEvent) : M CollectionTables unit :=
  dbcall "insert audit" (fun d => (with_audit d (ct_audit d ++ [e]), tt)).

Definition WritePayload (key content : string) : M CollectionTables bool :=
  local (fun d => (with_store d (ct_store d ++ [StoreWrite key content]), Write_ok payloads key content)).
(** The outcome of the move is only logged. *)
Definition Quarantine (key : string) : M CollectionTables unit :=
  local (fun d => (with_store d (ct_store d ++ [StoreQuarantine key]), tt)).

Definition storeDeduplicated (inp : CollectInput) (collectionID : uuid) (issuedAt : Time) (r : ForecastResult)
    (clk : Clock) : M CollectionTables (CollectError + ForecastCollection) :=
  let coll := MkCollection collectionID (p_ID (in_Provider inp)) (l_ID (in_Location inp)) (cfg_ID (in_Config inp)) issuedAt
    (Some (later clk)) StatusDeduplicated "" (ModelRunTime r) "" "" 0 0 (RecordsReceived r) 0 (RecordsReceived r) 0
    (SchemaVersion r) (AdapterVersion r) "" "" (later clk) in
  Insert coll ;;;
  Publish (ForecastCollected collectionID (p_ID (in_Provider inp)) (l_ID (in_Location inp)) 0 StatusDeduplicated (later clk)) ;;;
  ret (inr coll).

(** The body of the transaction: the row, the snapshots, the final update, and the
    breaker, whose own error is dropped. *)
Definition collectTx (coll : ForecastCollection) (r : ForecastResult) (status : CollectionStatus) (errorCode errorMsg : string)
    (clk : Clock) : M CollectionTables (ForecastCollection * Z * option Transition) :=
  Insert coll ;;;
  stored <-- (if Successful status && negb (bool_decide (Snapshots r = []))
              then InsertBatch (stamp (fc_ID coll) (fc_ProviderID coll) (fc_LocationID coll) <$> Snapshots r)
              else ret 0) ;;
  let coll' := finish coll r stored status (completedAt clk) errorCode errorMsg in
  Complete coll' ;;;
  transition <--
    (if Successful status then attempt (RecordSuccess (fc_ProviderID coll) (completedAt clk))
     else if bool_decide (r_Outcome r = OutcomeFailed) || bool_decide (r_Outcome r = OutcomeTimeout)
     then attempt (RecordFailure (fc_ProviderID coll) (completedAt clk))
     else ret (Error "")) ;;
  ret (coll', stored, match transition with Ok t => Some t | Error _ => None end).

(** [postCommit], without the metrics. *)
Definition postCommit (coll : ForecastCollection) (stored : Z) (transition : option Transition) (clk : Clock)
    : M CollectionTables unit :=
  match transition with
  | Some t => if Changed t
              then Publish (ProviderHealthChanged (tr_ProviderID t) (Old t) (New t) (tr_ConsecutiveFailures t))
              else ret tt
  | None => ret tt
  end ;;;
  Publish (ForecastCollected (fc_ID coll) (fc_ProviderID coll) (fc_LocationID coll) stored (fc_Status coll) (later clk)).

Definition Collect (inp : CollectInput) (clk : Clock) : M CollectionTables (CollectError + ForecastCollection) :=
  let provider := in_Provider inp in
  let location := in_Location inp in
  let config := in_Config inp in
  if negb (Active (p_Status provider)) || negb (Active (l_Status location)) || negb (Active (cfg_Status config))
  then ret (inl ErrInactive) else
  match adapters !! p_Slug provider with
  | None => ret (inl ErrInactive)
  | Some adapter =>
  decision <-- CircuitEvaluate (p_ID provider) (now clk) ;;
  if negb (Allowed decision) then ret (inl (CircuitOpenError (p_ID provider) (RetryAt decision))) else
  let issuedAt := Add (Truncate (now clk) Hour) (- Hour) in
  match FetchForecast adapter
          (MkRequest (p_ID provider) (l_ID location) (p_Slug provider) (p_APIBaseURL provider)
             (resolveCred (cfg_CredentialRef config)) (l_Latitude location) (l_Longitude location)
             (l_Timezone location) issuedAt) with
  | Error e => throw ("provider fetch: " ++ e)
  | Ok r =>
  collectionID <-- fresh ;;
  let dedupKey := default issuedAt (ModelRunTime r) in
  existing <-- (if usable (r_Outcome r) then FindDedup (p_ID provider) (l_ID location) dedupKey else ret None) ;;
  match existing with
  | Some _ => storeDeduplicated inp collectionID issuedAt r clk
  | None =>
  let objectKey := BuildPayloadKey (p_Slug provider) (now clk) collectionID in
  payloadOK <-- (if String.eqb (RawPayload r) "" then ret true else WritePayload objectKey (RawPayload r)) ;;
  let '(status, errorCode, errorMsg) := classify r payloadOK in
  (if Successful status && negb (bool_decide (Snapshots r = []))
   then EnsurePartitions (monthStarts (Snapshots r)) else ret tt) ;;;
  let coll := MkCollection collectionID (p_ID provider) (l_ID location) (cfg_ID config) issuedAt None StatusPending
    (ProviderRequestID r) (ModelRunTime r)
    (if payloadOK && negb (String.eqb (RawPayload r) "") then objectKey else "") (Checksum r)
    (HTTPStatusCode r) (LatencyMS r) 0 0 0 0 (SchemaVersion r) (AdapterVersion r) "" "" (now clk) in
  res <-- attempt (tx_run (collectTx coll r status errorCode errorMsg clk)) ;;
  match res with
  | Error e =>
      if String.eqb e ErrDuplicateCollection then
        _ <-- attempt (FindDedup (p_ID provider) (l_ID location) dedupKey) ;;
        storeDeduplicated inp collectionID issuedAt r clk
      else throw ("persist collection: " ++ e)
  | Ok (coll', stored, transition) =>
      postCommit coll' stored transition clk ;;;
      (if String.eqb (in_Source inp) SourceManual || String.eqb (in_Source inp) SourceReplay
       then attempt (RecordAudit (MkAudit (UserID (in_Actor inp)) ("collection." ++ in_Source inp) "forecast_collection"
              (Some (fc_ID coll')) (IPAddress (in_Actor inp)))) ;;; ret tt
       else ret tt) ;;;
      ret (inr coll')
  end end end end.

(** ** replay.go *)

Definition GetProvider (id : uuid) : M CollectionTables (option Provider) :=
  query "scan provider" (fun d => snd <$> list_find (fun p => p_ID p = id) (ct_providers d)).

(** The body of the replay's transaction. *)
Definition replayTx (coll : ForecastCollection) (r : ForecastResult) (storeSnapshots : bool) (status : CollectionStatus)
    (errorCode errorMsg : string) (clk : Clock) : M CollectionTables (ForecastCollection * Z) :=
  Insert coll ;;;
  stored <-- (if storeSnapshots
              then InsertBatch (stamp (fc_ID coll) (fc_ProviderID coll) (fc_LocationID coll) <$> Snapshots r)
              else ret 0) ;;
  let coll' := finish coll r stored status (completedAt clk) errorCode errorMsg in
  Complete coll' ;;;
  ret (coll', stored).

Definition Replay (collectionID : uuid) (actor : Actor) (clk : Clock) : M CollectionTables (CollectError + ForecastCollection) :=
  orig <-- query "scan collection" (pg_GetCollection collectionID) ;;
  match orig with
  | None => ret (inl ErrNotFound)
  | Some orig =>
  if String.eqb (fc_RawPayloadObjectKey orig) "" || String.eqb (fc_RawPayloadChecksum orig) ""
  then ret (inl ErrPayloadUnavailable) else
  provider <-- GetProvider (fc_ProviderID orig) ;;
  match provider with
  | None => throw "load provider: resource not found"
  | Some provider =>
  match adapters !! p_Slug provider with
  | None => ret (inl ErrInactive)
  | Some adapter =>
  match DecodeStored adapter with
  | None => ret (inl ErrReplayUnsupported)
  | Some decode =>
  match Read payloads (fc_RawPayloadObjectKey orig) with
  | Error _ => ret (inl ErrPayloadUnavailable)
  | Ok raw =>
  if negb (String.eqb (digest raw) (fc_RawPayloadChecksum orig))
  then Quarantine (fc_RawPayloadObjectKey orig) ;;; ret (inl ErrPayloadUnavailable) else
  match decode (MkRequest (fc_ProviderID orig) (fc_LocationID orig) (p_Slug provider) "" "" f0 f0 "" (fc_RequestedAt orig)) raw with
  | Error e => throw ("decode stored payload: " ++ e)
  | Ok r =>
  let '(decodeStatus, errorCode, errorMsg) := classify r true in
  let storeSnapshots := Successful decodeStatus && negb (bool_decide (Snapshots r = [])) in
  newID <-- fresh ;;
  let collStatus := if negb (Successful decodeStatus) then decodeStatus else StatusDeduplicated in
  let coll := MkCollection newID (fc_ProviderID orig) (fc_LocationID orig) (fc_ProviderConfigurationID orig)
    (fc_RequestedAt orig) None StatusPending (fc_ProviderRequestID orig) (fc_ProviderModelRunTime orig)
    (fc_RawPayloadObjectKey orig) (fc_RawPayloadChecksum orig) 0 0 0 0 0 0 (SchemaVersion r) (AdapterVersion r)
    "" "" (now clk) in
  (if storeSnapshots then EnsurePartitions (monthStarts (Snapshots r)) else ret tt) ;;;
  res <-- tx_run (replayTx coll r storeSnapshots collStatus errorCode errorMsg clk) ;;
  let '(coll', stored) := res in
  Publish (ForecastCollected (fc_ID coll') (fc_ProviderID orig) (fc_LocationID orig) stored (fc_Status coll') (now clk)) ;;;
  attempt (RecordAudit (MkAudit (UserID actor) ("collection." ++ SourceReplay) "forecast_collection"
    (Some (fc_ID coll')) (IPAddress actor))) ;;;
  ret (inr coll')
  end end end end end end.
End Service.

End Collection.
