(* ===== verification/CollectionProps.v ===== *)
(** * Properties of forecast collection

    The invariant of the collection tables (every committed row terminal and
    accounted for, one usable collection per deduplication key, every snapshot
    under a parent that counts it, one breaker per history), its preservation by
    [Collect] and [Replay] under arbitrary faults, and what a collection does when
    nothing fails. *)

From Stdlib Require Import ZArith Lia Bool String.
From stdpp Require Import base list strings gmap.
From S2P Require Import Prelude Float64 GoTime Uuid Effects Records Circuit Catalog Collection.

Import Records Circuit Catalog Collection.
Local Open Scope string_scope.
Local Open Scope list_scope.
Local Open Scope Z_scope.

Module CollectionProps.

(** ** The invariant *)

Definition usable_rows (cs : list ForecastCollection) : list ForecastCollection :=
  filter (fun c => Is_true (Successful (fc_Status c))) cs.

Definition children (ss : list ForecastSnapshot) (id : uuid) : list ForecastSnapshot :=
  filter (fun s => s_ForecastCollectionID s = id) ss.

Definition is_parent (s : ForecastSnapshot) (c : ForecastCollection) : Prop :=
  fc_ID c = s_ForecastCollectionID s /\ fc_ProviderID c = s_ProviderID s /\ fc_LocationID c = s_LocationID s.

Record coll_inv (d : CollectionTables) : Prop := {
  ci_ids : NoDup (fc_ID <$> ct_collections d);
  ci_checks : Forall (fun c => collection_check c = true) (ct_collections d);
  ci_terminal : Forall (fun c => Terminal (fc_Status c) = true) (ct_collections d);
  ci_dedup : NoDup (dedup_key <$> usable_rows (ct_collections d));
  ci_keys : NoDup (snapshot_key <$> ct_snapshots d);
  ci_parent : forall s, s ∈ ct_snapshots d -> exists c, c ∈ ct_collections d /\ is_parent s c;
  ci_count : forall c, c ∈ ct_collections d ->
    fc_SnapshotsStored c = Z.of_nat (length (children (ct_snapshots d) (fc_ID c)));
  ci_circuits : exists hs, table_rel hs (ct_circuits d);
}.

(** Committed rows stay: the tables only grow. *)
Record extends (d d' : CollectionTables) : Prop := {
  ex_collections : ct_collections d `prefix_of` ct_collections d';
  ex_snapshots : ct_snapshots d `prefix_of` ct_snapshots d';
}.

#[export] Instance extends_preorder : PreOrder extends.
Proof.
  split; [intros d; split; reflexivity|]. intros d1 d2 d3 [] []. split; etransitivity; eauto.
Qed.

(** ** Adding a collection with its snapshots *)

Lemma id_taken_false cs id : id_taken cs id = false <-> id ∉ fc_ID <$> cs.
Proof.
  unfold id_taken. rewrite <- not_true_iff_false, existsb_exists, list_elem_of_fmap. split; intros N.
  - intros (x & -> & Hx). apply N. exists x. split; [now apply list_elem_of_In|apply N.eqb_refl].
  - intros (x & Hx & E). apply N. exists x. split; [now apply N.eqb_eq in E|now apply list_elem_of_In].
Qed.

Lemma dedup_free cs c :
  fc_ID c ∉ fc_ID <$> cs -> Successful (fc_Status c) = true -> dedup_conflict cs c = false ->
  dedup_key c ∉ dedup_key <$> usable_rows cs.
Proof.
  intros Hi S D. unfold dedup_conflict in D. rewrite S in D. cbn [andb] in D.
  rewrite list_elem_of_fmap. intros (x & E & Hx). apply list_elem_of_filter in Hx as [Ux Hx].
  enough (existsb (fun x => Successful (fc_Status x) && negb (N.eqb (fc_ID x) (fc_ID c))
                    && bool_decide (dedup_key x = dedup_key c)) cs = true) by congruence.
  apply existsb_exists. exists x. split; [now apply list_elem_of_In|].
  rewrite !andb_true_iff, negb_true_iff, bool_decide_eq_true. split; [split|congruence]; [now apply Is_true_eq_true|].
  apply N.eqb_neq. intros Ei. apply Hi. rewrite <- Ei. now apply list_elem_of_fmap_2.
Qed.

Lemma children_app ss new id : children (ss ++ new) id = (children ss id ++ children new id).
Proof. apply filter_app. Qed.

Lemma children_none ss id : (forall s, s ∈ ss -> s_ForecastCollectionID s <> id) -> children ss id = [].
Proof. intros F. unfold children. induction ss as [|s ss IH]; [reflexivity|].
  rewrite filter_cons_False by (apply F; left). apply IH. intros; apply F; now right. Qed.

Lemma children_all ss id : Forall (fun s => s_ForecastCollectionID s = id) ss -> children ss id = ss.
Proof. unfold children. induction 1; [reflexivity|]. rewrite filter_cons_True by assumption. now f_equal. Qed.

(** A new row with its own snapshots keeps the invariant. *)
Lemma coll_inv_add d c new :
  coll_inv d -> fc_ID c ∉ fc_ID <$> ct_collections d -> collection_check c = true -> Terminal (fc_Status c) = true ->
  dedup_conflict (ct_collections d) c = false -> Forall (fun s => is_parent s c) new ->
  NoDup (snapshot_key <$> (ct_snapshots d ++ new)) -> fc_SnapshotsStored c = Z.of_nat (length new) ->
  coll_inv (with_snapshots (with_collections d (ct_collections d ++ [c])) (ct_snapshots d ++ new)).
Proof.
  intros [] Hi Hc Ht Hd Hp Hk Hn.
  constructor; cbn [with_snapshots with_collections ct_collections ct_snapshots ct_circuits]; auto.
  - rewrite fmap_app. apply NoDup_app. split; [assumption|]. split; [|apply NoDup_singleton].
    intros x Hx Hx'. apply list_elem_of_singleton in Hx'. now subst.
  - apply Forall_app. split; [assumption|now apply Forall_singleton].
  - apply Forall_app. split; [assumption|now apply Forall_singleton].
  - unfold usable_rows. rewrite filter_app, fmap_app. destruct (Successful (fc_Status c)) eqn:S.
    + rewrite filter_cons_True by now rewrite S. rewrite filter_nil. apply NoDup_app. split; [assumption|].
      split; [|apply NoDup_singleton]. intros x Hx Hx'. apply list_elem_of_singleton in Hx'. subst.
      now apply dedup_free in Hx.
    + rewrite filter_cons_False by (rewrite S; auto). now rewrite filter_nil, app_nil_r.
  - intros s. rewrite elem_of_app. intros [Hs|Hs].
    + destruct (ci_parent0 s Hs) as (x & Hx & P). exists x. split; [apply elem_of_app; now left|assumption].
    + exists c. split; [apply elem_of_app; right; now left|]. now apply (proj1 (Forall_forall _ _) Hp).
  - intros x. rewrite elem_of_app, list_elem_of_singleton, children_app, length_app. intros [Hx| ->].
    + rewrite (children_none new), (ci_count0 x Hx); [cbn; lia|]. intros s Hs E.
      apply (proj1 (Forall_forall _ _) Hp) in Hs as (E' & _). apply Hi. rewrite E', E. now apply list_elem_of_fmap_2.
    + rewrite (children_none (ct_snapshots d)), children_all; [cbn; lia| |].
      * eapply Forall_impl; [exact Hp|]. now intros s (-> & _).
      * intros s Hs E. destruct (ci_parent0 s Hs) as (x & Hx & P & _). apply Hi. rewrite <- E, <- P.
        now apply list_elem_of_fmap_2.
Qed.

Lemma with_snapshots_id d : with_snapshots d (ct_snapshots d) = d.
Proof. now destruct d. Qed.

(** ** The statements *)

Lemma insert_snapshots_spec ss snaps :
  NoDup (snapshot_key <$> ss) ->
  exists new, foldl insert_snapshot ss snaps = (ss ++ new) /\ new ⊆ snaps /\
    NoDup (snapshot_key <$> (ss ++ new)) /\ (forall s, s ∈ snaps -> snapshot_key s ∈ snapshot_key <$> (ss ++ new)).
Proof.
  revert ss. induction snaps as [|s snaps IH]; intros ss Hk; cbn [foldl].
  { exists []. rewrite app_nil_r. split; [reflexivity|]. split; [set_solver|]. split; [assumption|].
    intros s Hs. now apply not_elem_of_nil in Hs. }
  unfold insert_snapshot at 2. destruct (existsb _ ss) eqn:E.
  - destruct (IH ss Hk) as (new & -> & Hs & Hn & Ha). exists new. split; [reflexivity|]. split; [set_solver|].
    split; [assumption|]. intros x [->|Hx]%elem_of_cons; [|auto]. apply existsb_exists in E as (y & Hy & Ey).
    apply bool_decide_eq_true in Ey. rewrite <- Ey, fmap_app, elem_of_app. left.
    now apply list_elem_of_fmap_2, list_elem_of_In.
  - assert (F : snapshot_key s ∉ snapshot_key <$> ss).
    { intros (y & Ey & Hy)%list_elem_of_fmap. apply not_true_iff_false in E. apply E, existsb_exists.
      exists y. split; [now apply list_elem_of_In|]. now apply bool_decide_eq_true. }
    destruct (IH (ss ++ [s])) as (new & -> & Hs & Hn & Ha).
    { rewrite fmap_app. apply NoDup_app. split; [assumption|]. split; [|apply NoDup_singleton].
      intros x Hx Hx'. apply list_elem_of_singleton in Hx'. now subst. }
    rewrite <- app_assoc in *. exists (s :: new). split; [reflexivity|]. split; [set_solver|]. split; [assumption|].
    intros x [->|Hx]%elem_of_cons; [|auto]. rewrite fmap_app, elem_of_app. right. now left.
Qed.

Lemma stamp_parent coll snaps new :
  new ⊆ stamp (fc_ID coll) (fc_ProviderID coll) (fc_LocationID coll) <$> snaps -> Forall (fun s => is_parent s coll) new.
Proof.
  intros Hs. apply Forall_forall. intros s Hn%Hs. apply list_elem_of_fmap in Hn as (x & -> & _). now split.
Qed.

Lemma complete_last cs c c' :
  fc_ID c ∉ fc_ID <$> cs -> fc_ID c' = fc_ID c ->
  list_find (fun x => fc_ID x = fc_ID c') (cs ++ [c]) = Some (length cs, c) /\
  <[length cs := c']> (cs ++ [c]) = (cs ++ [c']).
Proof.
  intros Hi E. split.
  - rewrite E. clear E c'. induction cs as [|x cs IH]; cbn; [now rewrite decide_True|].
    rewrite fmap_cons, not_elem_of_cons in Hi. rewrite decide_False by (intros X; now apply (proj1 Hi)).
    now rewrite (IH (proj2 Hi)).
  - rewrite insert_app_r_alt by lia. now rewrite Nat.sub_diag.
Qed.

(** ** The transactions *)

Section Writes.
Context `{Env} (d0 : CollectionTables).

(** The invariant of a run that started from [d0]. *)
Definition good (d : CollectionTables) : Prop := coll_inv d /\ extends d0 d.

Context (coll : ForecastCollection) (r : ForecastResult) (status : CollectionStatus) (at_ : Time) (errorCode errorMsg : string).
Context (Hpend : fc_Status coll = StatusPending) (Hterm : Terminal status = true).

(** The pending row is in. *)
Definition inserted (d : CollectionTables) : Prop :=
  exists d1, good d1 /\ fc_ID coll ∉ fc_ID <$> ct_collections d1 /\
    d = with_collections d1 (ct_collections d1 ++ [coll]).

(** Its snapshots are in, [stored] of them. *)
Definition filled (stored : Z) (d : CollectionTables) : Prop :=
  exists d1 new, good d1 /\ fc_ID coll ∉ fc_ID <$> ct_collections d1 /\
    d = with_snapshots (with_collections d1 (ct_collections d1 ++ [coll])) (ct_snapshots d1 ++ new) /\
    Forall (fun s => is_parent s coll) new /\ NoDup (snapshot_key <$> (ct_snapshots d1 ++ new)) /\
    stored = Z.of_nat (length new).

Lemma hoare_Insert : hoare good (Insert coll) (fun _ => inserted) (fun _ => True).
Proof.
  eapply hoare_err; [|apply (hoare_dbexec _ _ good (fun _ => inserted))]; [easy|].
  intros d d' a G. unfold pg_InsertCollection. destruct (_ && _) eqn:E; [|discriminate]. intros [= <- <-].
  bool_simp. exists d. split; [assumption|]. split; [now apply id_taken_false|reflexivity].
Qed.

Lemma hoare_snapshots (store : bool) :
  hoare inserted
    (if store then InsertBatch (stamp (fc_ID coll) (fc_ProviderID coll) (fc_LocationID coll) <$> Snapshots r) else ret 0)
    filled (fun _ => True).
Proof.
  assert (Z0 : forall d, inserted d -> filled 0 d).
  { intros d (d1 & G & F & ->). exists d1, []. rewrite app_nil_r. split; [assumption|]. split; [assumption|].
    split; [now destruct d1|]. split; [constructor|]. split; [apply G|reflexivity]. }
  destruct store; [|now apply hoare_ret]. unfold InsertBatch. destruct (stamp _ _ _ <$> Snapshots r) as [|x l] eqn:E;
    [now apply hoare_ret|]. rewrite <- E. clear x l E.
  eapply hoare_err; [|apply hoare_dbexec]; [easy|]. intros d d' a (d1 & G & F & ->) Hi.
  unfold pg_InsertBatch in Hi. destruct (stamp _ _ _ <$> Snapshots r) as [|x l] eqn:E.
  { injection Hi as <- <-. apply Z0. exists d1. auto. }
  destruct (forallb _ _); [|discriminate]. destruct (bool_decide _); [|discriminate].
  injection Hi as <- <-. cbn [ct_snapshots with_collections].
  destruct (insert_snapshots_spec (ct_snapshots d1) (x :: l) (ci_keys _ (proj1 G))) as (new & En & Hs & Hn & _).
  exists d1, new. cbn [foldl] in *. rewrite En. rewrite <- E in Hs. repeat split; try assumption; try apply G.
  - eapply stamp_parent; eauto.
  - rewrite length_app. lia.
Qed.

Lemma hoare_Complete stored :
  hoare (filled stored) (Complete (finish coll r stored status at_ errorCode errorMsg))
    (fun _ d => good d /\ finish coll r stored status at_ errorCode errorMsg ∈ ct_collections d) (fun _ => True).
Proof.
  eapply hoare_err; [|apply hoare_dbtry]; [easy|]. set (coll' := finish _ _ _ _ _ _ _).
  intros d d' a (d1 & new & [I X] & F & -> & Hp & Hk & Hs) Hc. unfold pg_Complete in Hc.
  cbn [ct_collections with_snapshots with_collections] in Hc.
  destruct (complete_last (ct_collections d1) coll coll' F eq_refl) as [Ef Ei]. rewrite Ef, Hpend in Hc.
  cbn [Terminal bool_decide] in Hc. change (completed coll' coll) with coll' in Hc. rewrite Ei in Hc.
  destruct (collection_check coll') eqn:Ck; [|discriminate]. cbn in Hc.
  destruct (dedup_conflict _ coll') eqn:Dc; [discriminate|]. injection Hc as <- <-.
  split; [|cbn; apply elem_of_app; right; now left].
  assert (A : coll_inv (with_snapshots (with_collections d1 (ct_collections d1 ++ [coll'])) (ct_snapshots d1 ++ new))).
  { apply coll_inv_add; auto. revert Dc. unfold dedup_conflict. rewrite existsb_app. cbn.
    rewrite Hpend. cbn. now rewrite orb_false_r. }
  split; [exact A|]. destruct X as [Xc Xs]. split; cbn; etransitivity; eauto; now apply prefix_app_r.
Qed.

End Writes.

(** The documented status of each outcome of the provider call. *)
Definition outcome_status (o : Outcome) : CollectionStatus :=
  match o with
  | OutcomeSuccess => StatusSuccess
  | OutcomePartial => StatusPartial
  | OutcomeRateLimited => StatusRateLimited
  | OutcomeTimeout => StatusTimeout
  | OutcomeAuthFailed | OutcomeFailed => StatusFailed
  end.

Lemma classify_status r ok : (classify r ok).1.1 = outcome_status (r_Outcome r).
Proof. unfold classify. now destruct (r_Outcome r). Qed.

Lemma classify_terminal r ok : Terminal (classify r ok).1.1 = true.
Proof. unfold classify. now destruct (r_Outcome r). Qed.

(** ** The other steps *)

Section Steps.
Context `{Env} `{CollectDeps} (d0 : CollectionTables).

Abbreviation good := (good d0).

(** Steps that leave the rows and snapshots alone. *)
Lemma good_same d d' :
  good d -> ct_collections d' = ct_collections d -> ct_snapshots d' = ct_snapshots d ->
  (exists hs, table_rel hs (ct_circuits d')) -> good d'.
Proof.
  intros [[] []] Ec Es Hc. split; [constructor|constructor]; rewrite ?Ec, ?Es; assumption.
Qed.

Lemma preserves_outcome apply k p t :
  (forall c, (apply c t).1 = event_step c (k t)) ->
  (forall p h c, circuit_rel p h c -> circuit_rel p (k t :: h) (event_step c (k t))) ->
  preserves good (record_outcome (D := CollectionTables) apply p t).
Proof.
  intros Ha Hk w G. destruct (record_outcome apply p t w) as [w' r] eqn:E. cbn. apply record_outcome_inv in E.
  destruct r as [a|e]; [|now rewrite E]. rewrite E. pose proof G as [[] _]. destruct ci_circuits0 as [hs T].
  eapply good_same; [exact G|reflexivity..|]. exists (happened (k t) p hs). cbn [part put circuits_part ct_circuits].
  rewrite Ha. pose proof (Hk p (hs p) _ (T p)) as R. rewrite (cr_provider _ _ _ R). now apply table_rel_upsert.
Qed.

Lemma preserves_RecordSuccess p t : preserves good (RecordSuccess p t).
Proof. apply (preserves_outcome _ EvSuccess); [reflexivity|]. intros. now apply circuit_rel_success. Qed.

Lemma preserves_RecordFailure p t : preserves good (RecordFailure p t).
Proof. apply (preserves_outcome _ EvFailure); [reflexivity|]. intros. now apply circuit_rel_failure. Qed.

Lemma preserves_Evaluate p t : preserves good (CircuitEvaluate p t).
Proof.
  intros w G. destruct (CircuitEvaluate p t w) as [w' r] eqn:E. cbn. apply CircuitEvaluate_inv in E.
  destruct r as [a|e]; [|now rewrite E]. destruct E as [_ [->|[-> _]]]; [|assumption].
  pose proof G as [[] _]. destruct ci_circuits0 as [hs T]. eapply good_same; [exact G|reflexivity..|].
  exists (happened (EvEvaluate t) p hs). cbn [part put circuits_part ct_circuits].
  rewrite (cr_provider _ _ _ (T p)). apply table_rel_upsert; [assumption|]. apply circuit_rel_evaluate, T.
Qed.

Lemma preserves_Publish e : preserves good (Publish e).
Proof. apply preserves_local. intros d G. eapply good_same; [exact G|reflexivity..|]. apply G. Qed.

Lemma preserves_WritePayload k c : preserves good (WritePayload k c).
Proof. apply preserves_local. intros d G. eapply good_same; [exact G|reflexivity..|]. apply G. Qed.

Lemma preserves_Quarantine k : preserves good (Quarantine k).
Proof. apply preserves_local. intros d G. eapply good_same; [exact G|reflexivity..|]. apply G. Qed.

Lemma preserves_RecordAudit e : preserves good (RecordAudit e).
Proof. apply preserves_dbcall. intros d G. eapply good_same; [exact G|reflexivity..|]. apply G. Qed.

Lemma preserves_EnsurePartitions ms : preserves good (EnsurePartitions ms).
Proof.
  apply preserves_iterM. intros m. apply preserves_dbcall. intros d G. unfold pg_CreatePartition. cbn.
  destruct (bool_decide _); [assumption|]. eapply good_same; [exact G|reflexivity..|]. apply G.
Qed.

#[local] Hint Resolve preserves_RecordSuccess preserves_RecordFailure preserves_Evaluate preserves_Publish
  preserves_RecordAudit preserves_EnsurePartitions preserves_WritePayload preserves_Quarantine : fiq.

(** A terminal row without snapshots. *)
Lemma preserves_Insert_terminal c :
  Terminal (fc_Status c) = true -> fc_SnapshotsStored c = 0 -> preserves good (Insert c).
Proof.
  intros Ht Hs. apply preserves_dbexec. intros d d' a [I X]. unfold pg_InsertCollection.
  destruct (_ && _) eqn:E; [|discriminate]. intros [= <- <-]. bool_simp. split.
  - rewrite <- (with_snapshots_id (with_collections _ _)). cbn [ct_snapshots with_collections].
    rewrite <- (app_nil_r (ct_snapshots d)). apply coll_inv_add; auto; [now apply id_taken_false|].
    rewrite app_nil_r. apply I.
  - destruct X. split; cbn; [|assumption]. etransitivity; eauto. now apply prefix_app_r.
Qed.

Lemma preserves_storeDeduplicated inp id t r clk : preserves good (storeDeduplicated inp id t r clk).
Proof.
  unfold storeDeduplicated. apply preserves_bind; [now apply preserves_Insert_terminal|]. auto with fiq.
Qed.

Lemma hoare_collectTx coll r status ec em clk :
  fc_Status coll = StatusPending -> Terminal status = true ->
  hoare good (collectTx coll r status ec em clk) (fun _ => good) (fun _ => True).
Proof.
  intros Hp Ht. unfold collectTx. eapply hoare_bind; [now apply (hoare_Insert d0 coll)|]. intros u0.
  eapply hoare_bind; [apply (hoare_snapshots d0 coll r)|]. intros stored.
  eapply hoare_bind; [now apply (hoare_Complete d0 coll r status)|]. intros u. cbn beta.
  eapply (hoare_weaken good _ _ (fun _ => good) _ good); [now intros d []|auto|auto|]. apply hoare_preserves.
  apply preserves_bind; [|intros; apply preserves_ret]. auto with fiq.
Qed.

Lemma hoare_replayTx coll r store status ec em clk :
  fc_Status coll = StatusPending -> Terminal status = true ->
  hoare good (replayTx coll r store status ec em clk) (fun _ => good) (fun _ => True).
Proof.
  intros Hp Ht. unfold replayTx. eapply hoare_bind; [now apply (hoare_Insert d0 coll)|]. intros u0.
  eapply hoare_bind; [apply (hoare_snapshots d0 coll r)|]. intros stored.
  eapply hoare_bind; [now apply (hoare_Complete d0 coll r status)|]. intros u. cbn beta.
  apply hoare_ret. now intros d [G _].
Qed.

Lemma hoare_tx_preserves {A} (m : M CollectionTables A) :
  hoare good m (fun _ => good) (fun _ => True) -> preserves good (tx_run m).
Proof.
  intros Hm w G. apply hoare_tx in Hm. specialize (Hm w G). now destruct (tx_run m w) as [w' [a|e]].
Qed.

Lemma preserves_postCommit coll stored tr clk : preserves good (postCommit coll stored tr clk).
Proof. unfold postCommit. apply preserves_bind; [|auto with fiq]. destruct tr as [t|]; auto with fiq. Qed.

#[local] Hint Resolve preserves_storeDeduplicated preserves_postCommit : fiq.

Lemma preserves_Collect inp clk : preserves good (Collect inp clk).
Proof.
  unfold Collect. apply preserves_if; [auto with fiq|]. destruct (adapters !! _) as [a|]; [|auto with fiq].
  apply preserves_bind; [auto with fiq|]. intros dec. apply preserves_if; [auto with fiq|].
  destruct (FetchForecast _ _) as [r|e]; [|auto with fiq].
  apply preserves_bind; [auto with fiq|]. intros id. apply preserves_bind; [unfold FindDedup; auto with fiq|].
  intros [x|]; [auto with fiq|]. apply preserves_bind; [auto with fiq|]. intros ok.
  pose proof (classify_terminal r ok) as Ht. destruct (classify r ok) as [[status ec] em].
  apply preserves_bind; [auto with fiq|]. intros _. apply preserves_bind.
  { apply preserves_attempt, hoare_tx_preserves, hoare_collectTx; [reflexivity|exact Ht]. }
  intros [[[c st] tr]|e].
  - apply preserves_bind; [auto with fiq|]. intros _. apply preserves_bind; [|auto with fiq].
    apply preserves_if; auto 6 with fiq.
  - apply preserves_if; [|auto with fiq]. apply preserves_bind; [unfold FindDedup; auto with fiq|]. auto with fiq.
Qed.

Lemma preserves_Replay id actor clk : preserves good (Replay id actor clk).
Proof.
  unfold Replay. apply preserves_bind; [auto with fiq|]. intros [orig|]; [|auto with fiq].
  apply preserves_if; [auto with fiq|]. apply preserves_bind; [unfold GetProvider; auto with fiq|].
  intros [p|]; [|auto with fiq]. destruct (adapters !! _) as [a|]; [|auto with fiq].
  destruct (DecodeStored a) as [dec|]; [|auto with fiq]. destruct (Read _ _) as [raw|]; [|auto with fiq].
  apply preserves_if; [auto with fiq|]. destruct (dec _ _) as [r|e]; [|auto with fiq].
  pose proof (classify_terminal r true) as Ht. destruct (classify r true) as [[status ec] em].
  apply preserves_bind; [auto with fiq|]. intros nid. apply preserves_bind; [auto with fiq|]. intros _.
  apply preserves_bind.
  { apply hoare_tx_preserves, hoare_replayTx; [reflexivity|]. destruct (Successful status) eqn:S; [reflexivity|exact Ht]. }
  intros [c st]. auto 8 with fiq.
Qed.
End Steps.

(** ** A collection when nothing fails *)

Definition not_nan (v : option float64) : Prop := match v with Some x => is_nan x = false | None => True end.

(** JSON has no NaN, so a decoded snapshot has none. *)
Definition snapshot_numbers (s : ForecastSnapshot) : Prop :=
  Forall not_nan [s_PrecipitationProbability s; s_PrecipitationAmountMM s; s_HumidityPct s; s_WindSpeedMS s;
                  s_WindDirectionDeg s; s_CloudCoverPct s].

(** What the port promises of a result: its snapshots are valid rows, and every
    record received is either a snapshot or counted invalid. *)
Record result_ok (r : ForecastResult) : Prop := {
  ro_valid : Forall (fun s => Validate s = [] /\ snapshot_numbers s) (Snapshots r);
  ro_count : RecordsReceived r = Z.of_nat (length (Snapshots r)) + InvalidCount r;
}.

Lemma within_between v lo hi : within v lo hi -> not_nan v -> between v lo hi = true.
Proof. destruct v as [x|]; [|reflexivity]. cbn. intros W N. destruct (W N) as [-> ->]. reflexivity. Qed.

Lemma within_not_negative v hi : within v f0 hi -> not_nan v -> not_negative v = true.
Proof. destruct v as [x|]; [|reflexivity]. cbn. intros W N. apply W, N. Qed.

Lemma valid_snapshot_check s : Validate s = [] -> snapshot_numbers s -> snapshot_check s = true.
Proof.
  intros V%Validate_in_range N. destruct V. unfold snapshot_numbers in N. rewrite !Forall_cons in N.
  destruct N as (? & ? & ? & ? & ? & ? & _). unfold snapshot_check, After. rewrite !andb_true_iff, Z.ltb_lt.
  repeat split; eauto using within_between, within_not_negative.
Qed.

(** The breaker a collection leaves behind. *)
Definition breaker_after (o : Outcome) (c : ProviderCircuit) (t : Time) : ProviderCircuit :=
  match o with
  | OutcomeSuccess | OutcomePartial => (ApplySuccess c t).1
  | OutcomeFailed | OutcomeTimeout => (ApplyFailure c t).1
  | OutcomeRateLimited | OutcomeAuthFailed => c
  end.

Lemma classify_successful r ok : Successful (classify r ok).1.1 = usable (r_Outcome r).
Proof. unfold classify. now destruct (r_Outcome r). Qed.

Lemma monthStarts_covers snaps s : s ∈ snaps -> month_of (s_TargetTime s) ∈ monthStarts snaps.
Proof.
  unfold monthStarts. set (F := fun out s => _).
  assert (K : forall snaps acc m, m ∈ acc -> m ∈ foldl F acc snaps).
  { clear. induction snaps as [|x snaps IH]; intros acc m Hm; [assumption|]. cbn [foldl]. apply IH. unfold F. cbn zeta.
    case_bool_decide; [assumption|]. apply elem_of_app. now left. }
  enough (G : forall acc, s ∈ snaps -> month_of (s_TargetTime s) ∈ foldl F acc snaps) by apply G.
  induction snaps as [|x snaps IH]; intros acc Hs; [now apply not_elem_of_nil in Hs|].
  cbn [foldl]. apply elem_of_cons in Hs as [<-|Hs]; [|now apply IH]. apply K. unfold F. cbn zeta.
  case_bool_decide; [assumption|]. apply elem_of_app. right. now left.
Qed.

Lemma stamp_pk c p l (ss : list ForecastSnapshot) : snapshot_pk <$> (stamp c p l <$> ss) = snapshot_pk <$> ss.
Proof. now rewrite <- list_fmap_compose. Qed.

(** The statement adds a sublist of its rows. *)
Lemma insert_snapshots_sublist ss l : foldl insert_snapshot ss l `sublist_of` ss ++ l.
Proof.
  revert ss. induction l as [|x l IH]; intros ss; cbn; [now rewrite app_nil_r|]. rewrite IH. unfold insert_snapshot.
  destruct (existsb _ _); [apply sublist_app; [reflexivity|now constructor]|]. now rewrite <- app_assoc.
Qed.

Lemma stamp_key p l c s : snapshot_key (stamp c p l s) = (p, l, s_IssuedAt s, s_TargetTime s).
Proof. reflexivity. Qed.

Section Outcome.
Context `{Healthy} `{CollectDeps} (n : nat) (inp : CollectInput) (clk : Clock) (d0 : CollectionTables).

Definition request : ForecastRequest :=
  MkRequest (p_ID (in_Provider inp)) (l_ID (in_Location inp)) (p_Slug (in_Provider inp)) (p_APIBaseURL (in_Provider inp))
    (resolveCred (cfg_CredentialRef (in_Config inp))) (l_Latitude (in_Location inp)) (l_Longitude (in_Location inp))
    (l_Timezone (in_Location inp)) (Add (Truncate (now clk) Hour) (- Hour)).

Context (adapter : Adapter) (r : ForecastResult) (existing : option ForecastCollection).

Abbreviation provider := (p_ID (in_Provider inp)).
Abbreviation circuit := (pg_GetCircuit provider (ct_circuits d0)).
Abbreviation dedupKey := (default (Add (Truncate (now clk) Hour) (- Hour)) (ModelRunTime r)).

(** The circumstances: active entities, a known adapter that answers, an admitting
    breaker, the earlier collection of the same run if there is one, a clock that does not run
    backwards, a counter in its column's range and ids not used before. *)
Record circumstances : Prop := {
  cs_active : Active (p_Status (in_Provider inp)) && Active (l_Status (in_Location inp)) && Active (cfg_Status (in_Config inp)) = true;
  cs_adapter : adapters !! p_Slug (in_Provider inp) = Some adapter;
  cs_fetch : FetchForecast adapter request = Ok r;
  cs_result : result_ok r;
  cs_allowed : Allowed (Evaluate circuit (now clk)).2 = true;
  cs_dedup : usable (r_Outcome r) = true -> pg_FindDedup provider (l_ID (in_Location inp)) dedupKey d0 = existing;
  cs_clock : now clk <= completedAt clk;
  cs_counter : 0 <= ConsecutiveFailures circuit < 2 ^ 31 - 1;
  cs_owner : c_ProviderID circuit = provider;
  cs_ids : forall i, (n <= i)%nat -> newID i ∉ fc_ID <$> ct_collections d0;
  cs_keys : NoDup (snapshot_key <$> ct_snapshots d0);
  cs_pks : existing = None -> NoDup (snapshot_pk <$> ct_snapshots d0 ++ Snapshots r);
}.

Abbreviation circuit1 := (Evaluate circuit (now clk)).1.

(** The rows are as they were, and the breaker evaluated. *)
Definition evaluated (d : CollectionTables) : Prop :=
  ct_collections d = ct_collections d0 /\ ct_snapshots d = ct_snapshots d0 /\
  pg_GetCircuit provider (ct_circuits d) = circuit1.

Lemma evaluate_fields c t :
  c_ProviderID (Evaluate c t).1 = c_ProviderID c /\ ConsecutiveFailures (Evaluate c t).1 = ConsecutiveFailures c /\
  (State (Evaluate c t).1 = State c -> (Evaluate c t).1 = c).
Proof.
  unfold Evaluate, with_state. destruct (State c) eqn:S; [now repeat split..|].
  destruct (NextProbeAt c) as [q|]; [|now repeat split]. destruct (negb _); cbn; repeat split; congruence.
Qed.

Lemma total_UpsertCircuit (P : CollectionTables -> Prop) c :
  circuit_check c = true ->
  total n P (UpsertCircuit c) (fun _ d' => exists d, P d /\ d' = put (<[c_ProviderID c := c]> (part d)) d).
Proof.
  intros Ck. apply total_dbexec. intros d Hd. unfold pg_UpsertCircuit. rewrite Ck.
  eexists _, tt. split; [reflexivity|eauto].
Qed.

Lemma circuit_check_intro c : 0 <= ConsecutiveFailures c < 2 ^ 31 -> circuit_check c = true.
Proof. intros B. unfold circuit_check. rewrite andb_true_iff, Z.leb_le, Z.ltb_lt. lia. Qed.

Lemma total_evaluate :
  circumstances ->
  total n (fun d => d = d0) (CircuitEvaluate provider (now clk))
    (fun dec d => dec = (Evaluate circuit (now clk)).2 /\ evaluated d).
Proof.
  intros C. apply total_tx. unfold GetCircuit. eapply total_bind; [apply total_query|]. intros c. cbn beta.
  eapply (total_weaken n (fun d => c = circuit /\ d = d0)); [now intros d [-> ->]|intros a d X; exact X|].
  apply total_pure. intros ->.
  destruct (evaluate_fields circuit (now clk)) as (Ep & Ef & Es).
  destruct (Evaluate circuit (now clk)) as [c1 dec] eqn:Ev. cbn [fst snd] in *.
  destruct (bool_decide_reflect (State c1 <> State circuit)) as [N|N].
  - eapply total_bind; [apply total_UpsertCircuit, circuit_check_intro; rewrite Ef; destruct C; lia|].
    intros u. apply total_ret. intros d (d1 & -> & ->). split; [reflexivity|].
    unfold evaluated. rewrite Ev. repeat split. cbn. rewrite Ep, (cs_owner C). unfold pg_GetCircuit. now rewrite lookup_insert_eq.
  - apply total_ret. intros d ->. split; [reflexivity|]. unfold evaluated. rewrite Ev. repeat split. cbn.
    rewrite Es; [reflexivity|]. destruct (decide (State c1 = State circuit)); [assumption|contradiction].
Qed.

(** ** Inside the transaction *)

Context (i : nat) (Hi : (n <= i)%nat) (coll : ForecastCollection).
Context (C : circumstances) (Hex : usable (r_Outcome r) = true -> existing = None).
Context (Eid : fc_ID coll = newID i) (Ep : fc_ProviderID coll = provider) (El : fc_LocationID coll = l_ID (in_Location inp)).
Context (Er : fc_RequestedAt coll = Add (Truncate (now clk) Hour) (- Hour)) (Em : fc_ProviderModelRunTime coll = ModelRunTime r).
Context (Hpend : fc_Status coll = StatusPending) (Hcomp : fc_CompletedAt coll = None).

Abbreviation stamped := (stamp (fc_ID coll) (fc_ProviderID coll) (fc_LocationID coll) <$> Snapshots r).

(** The partitions of the snapshots exist. *)
Definition prepared (d : CollectionTables) : Prop :=
  evaluated d /\ (usable (r_Outcome r) = true -> forall s, s ∈ Snapshots r -> month_of (s_TargetTime s) ∈ ct_partitions d).

Lemma id_fresh d : evaluated d -> fc_ID coll ∉ fc_ID <$> ct_collections d.
Proof. intros (-> & _). rewrite Eid. now apply (cs_ids C). Qed.

Definition with_row (d d1 : CollectionTables) : Prop :=
  prepared d1 /\ d = with_collections d1 (ct_collections d1 ++ [coll]).

Lemma total_Insert : total n prepared (Insert coll) (fun _ d => exists d1, with_row d d1).
Proof.
  apply total_dbexec. intros d Hd. eexists _, tt. split; [|exists d; split; [assumption|reflexivity]].
  unfold pg_InsertCollection, collection_check, dedup_conflict. rewrite Hpend, Hcomp.
  rewrite (proj2 (id_taken_false _ _) (id_fresh d (proj1 Hd))). change (Successful StatusPending) with false. cbn.
  now rewrite !orb_true_r.
Qed.

Definition filled_row (store : bool) (stored : Z) (d : CollectionTables) : Prop :=
  exists d1 new, prepared d1 /\
    d = with_snapshots (with_collections d1 (ct_collections d1 ++ [coll])) (ct_snapshots d1 ++ new) /\
    stored = Z.of_nat (length new) /\
    (store = true -> forall s, s ∈ stamped -> snapshot_key s ∈ snapshot_key <$> (ct_snapshots d1 ++ new)).

Lemma total_snapshots (store : bool) :
  (store = true -> usable (r_Outcome r) = true) ->
  total n (fun d => exists d1, with_row d d1) (if store then InsertBatch stamped else ret 0) (filled_row store).
Proof.
  intros Hu. destruct store.
  2:{ apply total_ret. intros d (d1 & Hp & ->). exists d1, []. rewrite app_nil_r. split; [assumption|].
      split; [now destruct d1|]. split; [reflexivity|easy]. }
  unfold InsertBatch. destruct stamped as [|x l] eqn:E.
  { apply total_ret. intros d (d1 & Hp & ->). exists d1, []. rewrite app_nil_r. split; [assumption|].
    split; [now destruct d1|]. split; [reflexivity|]. intros _ s Hs. rewrite E in Hs. now apply not_elem_of_nil in Hs. }
  apply total_dbexec. intros d (d1 & Hp & ->). unfold pg_InsertBatch. rewrite <- E.
  destruct (insert_snapshots_spec (ct_snapshots d1) stamped) as (new & En & _ & _ & Ha).
  { destruct Hp as [(_ & -> & _) _]. apply C. }
  assert (F : forallb (fun s => snapshot_check s && bool_decide (month_of (s_TargetTime s) ∈ ct_partitions d1)
                           && id_taken (ct_collections d1 ++ [coll]) (s_ForecastCollectionID s)) stamped = true).
  { apply forallb_forall. intros s Hs. apply list_elem_of_In, list_elem_of_fmap in Hs as (s0 & -> & Hs0).
    destruct (proj1 (Forall_forall _ _) (ro_valid _ (cs_result C)) s0 Hs0) as [V N].
    change (snapshot_check (stamp _ _ _ s0)) with (snapshot_check s0). rewrite (valid_snapshot_check s0 V N).
    rewrite (bool_decide_eq_true_2 _ (proj2 Hp (Hu eq_refl) s0 Hs0)). cbn [andb stamp s_ForecastCollectionID].
    unfold id_taken. rewrite existsb_app. cbn. now rewrite N.eqb_refl, orb_true_r. }
  cbn [ct_snapshots ct_collections ct_partitions with_collections]. rewrite F, bool_decide_eq_true_2, En.
  2:{ eapply sublist_NoDup; [apply (cs_pks C), Hex, Hu, eq_refl|]. destruct Hp as [(_ & <- & _) _].
      rewrite fmap_app, <- (stamp_pk (fc_ID coll) (fc_ProviderID coll) (fc_LocationID coll) (Snapshots r)), <- fmap_app.
      apply fmap_sublist, insert_snapshots_sublist. }
  eexists _, _. split; [reflexivity|]. exists d1, new. split; [assumption|]. split; [reflexivity|].
  split; [rewrite length_app; lia|]. intros _ s Hs. apply Ha. exact Hs.
Qed.

Context (status : CollectionStatus) (Hs : Successful status = usable (r_Outcome r)) (Ht : Terminal status = true).

(** The row is final, the usable snapshots are stored. *)
Definition stored_row (coll' : ForecastCollection) (d : CollectionTables) : Prop :=
  coll' ∈ ct_collections d /\
  (usable (r_Outcome r) = true -> forall s, s ∈ Snapshots r ->
     (provider, l_ID (in_Location inp), s_IssuedAt s, s_TargetTime s) ∈ snapshot_key <$> ct_snapshots d).

Lemma no_dedup_conflict coll' :
  fc_ID coll' = fc_ID coll -> fc_Status coll' = status -> dedup_key coll' = dedup_key coll ->
  dedup_conflict (ct_collections d0 ++ [coll]) coll' = false.
Proof.
  intros E1 E2 E3. unfold dedup_conflict. rewrite E2, Hs. destruct (usable (r_Outcome r)) eqn:U; [|reflexivity].
  cbn [andb]. apply not_true_is_false. rewrite existsb_exists. intros (x & Hx & B).
  rewrite !andb_true_iff, negb_true_iff, N.eqb_neq, bool_decide_eq_true in B. destruct B as [[Sx Nx] Kx].
  apply list_elem_of_In, elem_of_app in Hx as [Hx|Hx%list_elem_of_singleton].
  - pose proof (cs_dedup C U) as Fd. rewrite (Hex eq_refl) in Fd. unfold pg_FindDedup in Fd. apply fmap_None, list_find_None in Fd.
    apply (proj1 (Forall_forall _ _) Fd) in Hx. apply Hx. split; [now apply Is_true_eq_left|].
    rewrite Kx, E3. unfold dedup_key. now rewrite Ep, El, Er, Em.
  - subst x. congruence.
Qed.

Lemma total_Complete ec em store stored :
  (store = true \/ usable (r_Outcome r) = false \/ Snapshots r = []) ->
  total n (filled_row store stored) (Complete (finish coll r stored status (completedAt clk) ec em))
    (fun _ d => stored_row (finish coll r stored status (completedAt clk) ec em) d /\
                pg_GetCircuit provider (ct_circuits d) = circuit1).
Proof.
  intros Hst. apply total_dbtry. set (coll' := finish _ _ _ _ _ _ _). intros d (d1 & new & Hp & -> & Es & Ha).
  destruct Hp as [Ev Hparts]. pose proof (id_fresh d1 Ev) as F. pose proof Ev as (Ec & Esn & Eci).
  eexists _, tt. split.
  - unfold pg_Complete. cbn [ct_collections with_snapshots with_collections].
    destruct (complete_last (ct_collections d1) coll coll' F eq_refl) as [-> Ei]. rewrite Hpend.
    change (completed coll' coll) with coll'. rewrite Ei, Ec, no_dedup_conflict by reflexivity.
    assert (collection_check coll' = true) as ->; [|reflexivity].
    unfold collection_check, AccountingHolds. cbn [coll' finish fc_Status fc_CompletedAt fc_RequestedAt fc_RecordsReceived
      fc_SnapshotsStored fc_SnapshotsDeduplicated fc_SnapshotsInvalid]. unfold Terminal in Ht. rewrite Ht, Er.
    rewrite (proj2 (Z.leb_le _ _)), (proj2 (Z.eqb_eq _ _)); [reflexivity|rewrite (ro_count _ (cs_result C)); lia|].
    unfold Add. pose proof (Truncate_hour_bounds (now clk)). pose proof (cs_clock C). pose proof Hour_pos. lia.
  - split; [|exact Eci]. split; [cbn; apply elem_of_app; right; now left|]. intros U s Hsn. cbn [ct_snapshots with_snapshots].
    destruct Hst as [->|[X|X]]; [|congruence|rewrite X in Hsn; now apply not_elem_of_nil in Hsn].
    rewrite <- Ep, <- El, <- (stamp_key _ _ (fc_ID coll)). apply (Ha eq_refl). now apply list_elem_of_fmap_2.
Qed.

Lemma total_record apply (P : CollectionTables -> Prop) :
  circuit_check (apply circuit1 (completedAt clk)).1 = true -> c_ProviderID (apply circuit1 (completedAt clk)).1 = provider ->
  (forall d t, P d -> P (put t d)) ->
  total n (fun d => P d /\ pg_GetCircuit provider (ct_circuits d) = circuit1)
    (record_outcome (D := CollectionTables) apply provider (completedAt clk))
    (fun _ d => P d /\ pg_GetCircuit provider (ct_circuits d) = (apply circuit1 (completedAt clk)).1).
Proof.
  intros Ck Eo HP. unfold record_outcome, GetCircuit. eapply total_bind; [apply total_query|]. intros c. cbn beta.
  eapply (total_weaken n (fun d => c = circuit1 /\ P d)); [intros d [[? <-] ->]; auto|intros a d X; exact X|].
  apply total_pure. intros ->. destruct (apply circuit1 (completedAt clk)) as [c2 prev] eqn:Ea. cbn [fst] in *.
  eapply total_bind; [now apply total_UpsertCircuit|]. intros u. apply total_ret. intros d (d1 & Hd & ->).
  split; [now apply HP|]. cbn. rewrite Eo. unfold pg_GetCircuit. now rewrite lookup_insert_eq.
Qed.

(** What the collection leaves behind. *)
Definition outcome_ok (c : ForecastCollection) (d : CollectionTables) : Prop :=
  stored_row c d /\ fc_Status c = status /\ AccountingHolds c = true /\
  pg_GetCircuit provider (ct_circuits d) = breaker_after (r_Outcome r) circuit1 (completedAt clk).

Lemma breaker_checks :
  circuit_check (ApplySuccess circuit1 (completedAt clk)).1 = true /\
  circuit_check (ApplyFailure circuit1 (completedAt clk)).1 = true /\
  c_ProviderID (ApplyFailure circuit1 (completedAt clk)).1 = provider /\ c_ProviderID circuit1 = provider.
Proof.
  destruct (evaluate_fields circuit (now clk)) as (Eo & Ef & _). pose proof (cs_counter C) as Cn.
  rewrite (cs_owner C) in Eo. split; [reflexivity|].
  split; [apply circuit_check_intro|split; [|exact Eo]]; unfold ApplyFailure; cbn [fst]; rewrite Ef; destruct (_ <=? _); cbn; try lia; exact Eo.
Qed.

Lemma accounting stored t ec em : AccountingHolds (finish coll r stored status t ec em) = true.
Proof. unfold AccountingHolds. cbn. rewrite (ro_count _ (cs_result C)). apply Z.eqb_eq. lia. Qed.

Lemma total_transition (P : CollectionTables -> Prop) :
  (forall d t, P d -> P (put t d)) ->
  total n (fun d => P d /\ pg_GetCircuit provider (ct_circuits d) = circuit1)
    (if Successful status then attempt (RecordSuccess provider (completedAt clk))
     else if bool_decide (r_Outcome r = OutcomeFailed) || bool_decide (r_Outcome r = OutcomeTimeout)
     then attempt (RecordFailure provider (completedAt clk)) else ret (Error ""))
    (fun _ d => P d /\ pg_GetCircuit provider (ct_circuits d) = breaker_after (r_Outcome r) circuit1 (completedAt clk)).
Proof.
  intros HP. destruct breaker_checks as (B1 & B2 & B3 & B4). rewrite Hs.
  assert (TS := total_attempt n _ _ _ (total_record ApplySuccess P B1 B4 HP)).
  assert (TF := total_attempt n _ _ _ (total_record ApplyFailure P B2 B3 HP)).
  destruct (r_Outcome r); cbn [usable bool_decide orb breaker_after].
  1,2: eapply total_weaken; [| |exact TS]; [auto|now intros a d (? & _ & ?)].
  1,3: eapply total_weaken; [| |exact TF]; [auto|now intros a d (? & _ & ?)].
  all: now apply total_ret.
Qed.

Lemma total_collectTx ec em :
  total n prepared (collectTx coll r status ec em clk) (fun res d => outcome_ok res.1.1 d).
Proof.
  unfold collectTx. eapply total_bind; [apply total_Insert|]. intros u. rewrite Hs.
  set (store := usable (r_Outcome r) && negb (bool_decide (Snapshots r = []))).
  assert (S1 : store = true -> usable (r_Outcome r) = true) by (unfold store; now intros [? _]%andb_true_iff).
  assert (S2 : store = true \/ usable (r_Outcome r) = false \/ Snapshots r = []).
  { unfold store. destruct (usable _); [|auto]. case_bool_decide; auto. }
  eapply total_bind; [now apply total_snapshots|]. intros stored. eapply total_bind; [now apply total_Complete|].
  intros u'. cbn beta. rewrite Ep, <- Hs. eapply total_bind; [apply total_transition; now intros|]. intros tr.
  apply total_ret. intros d [Sr Br]. split; [exact Sr|]. split; [reflexivity|]. split; [apply accounting|exact Br].
Qed.
End Outcome.

(** ** The whole workflow *)

Section Workflow.
Context `{Healthy} `{CollectDeps} (n : nat) (inp : CollectInput) (clk : Clock) (d0 : CollectionTables).
Context (adapter : Adapter) (r : ForecastResult) (existing : option ForecastCollection) (C : circumstances n inp clk d0 adapter r existing).

Abbreviation evaluated := (evaluated inp clk d0).
Abbreviation prepared := (prepared inp clk d0 r).
Abbreviation final := (outcome_ok inp clk d0 r).

Lemma total_EnsurePartitions (store : bool) :
  (usable (r_Outcome r) = true -> store = true \/ Snapshots r = []) ->
  total n evaluated (if store then EnsurePartitions (monthStarts (Snapshots r)) else ret tt) (fun _ => prepared).
Proof.
  intros Hst. destruct store.
  - eapply total_weaken with (P := fun d => evaluated d /\ forall m, m ∈ monthStarts (Snapshots r) ->
      m ∈ ct_partitions d \/ m ∈ monthStarts (Snapshots r)) (Q := fun _ d => evaluated d /\
      forall m, m ∈ monthStarts (Snapshots r) -> m ∈ ct_partitions d \/ m ∈ @nil Time).
    + auto.
    + intros _ d [E A]. split; [exact E|]. intros _ s Hs.
      destruct (A _ (monthStarts_covers _ _ Hs)) as [X|X]; [exact X|now apply not_elem_of_nil in X].
    + apply (total_iterM n (fun l d => evaluated d /\ forall m, m ∈ monthStarts (Snapshots r) -> m ∈ ct_partitions d \/ m ∈ l)).
      intros x l. apply total_dbcall. intros d [E A]. unfold pg_CreatePartition. cbn [fst snd]. case_bool_decide as Hx.
      * split; [exact E|]. intros m Hm. destruct (A m Hm) as [X|[->|X]%elem_of_cons]; auto.
      * split; [exact E|]. intros m Hm. cbn. rewrite elem_of_app, list_elem_of_singleton.
        destruct (A m Hm) as [X|[->|X]%elem_of_cons]; auto.
  - apply total_ret. intros d E. split; [exact E|]. intros U s Hs. destruct (Hst U) as [X|X]; [discriminate|].
    rewrite X in Hs. now apply not_elem_of_nil in Hs.
Qed.

Lemma final_same status c d d' :
  final status c d -> ct_collections d' = ct_collections d -> ct_snapshots d' = ct_snapshots d ->
  ct_circuits d' = ct_circuits d -> final status c d'.
Proof. unfold outcome_ok, stored_row. intros F -> -> ->. exact F. Qed.

Lemma total_Publish status c e : total n (final status c) (Publish e) (fun _ => final status c).
Proof. apply total_local. intros d F. eapply final_same; eauto. Qed.

Lemma total_postCommit status c x st tr : total n (final status c) (postCommit x st tr clk) (fun _ => final status c).
Proof.
  unfold postCommit. eapply total_bind; [|intros u; apply total_Publish].
  destruct tr as [t|]; [destruct (Changed t); [apply total_Publish|]|]; now apply total_ret.
Qed.

(** A deduplicated collection: one row, no snapshot, the breaker only evaluated. *)
Definition deduplicated (c : ForecastCollection) (d : CollectionTables) : Prop :=
  fc_Status c = StatusDeduplicated /\ fc_SnapshotsStored c = 0 /\ ct_collections d = ct_collections d0 ++ [c] /\
  ct_snapshots d = ct_snapshots d0 /\
  pg_GetCircuit (p_ID (in_Provider inp)) (ct_circuits d)
    = (Evaluate (pg_GetCircuit (p_ID (in_Provider inp)) (ct_circuits d0)) (now clk)).1.

Lemma total_storeDeduplicated i :
  (n <= i)%nat -> now clk <= later clk ->
  total n evaluated (storeDeduplicated inp (newID i) (Add (Truncate (now clk) Hour) (- Hour)) r clk)
    (fun res d => exists c, res = inr c /\ deduplicated c d).
Proof.
  intros Hi Hl. unfold storeDeduplicated. set (coll := MkCollection _ _ _ _ _ _ _ _ _ _ _ _ _ _ _ _ _ _ _ _ _ _).
  eapply (total_bind n _ _ (fun _ => deduplicated coll)).
  - apply total_dbexec. intros d E. eexists _, tt. split.
    + unfold pg_InsertCollection. rewrite (proj2 (id_taken_false _ _)).
      2:{ rewrite (proj1 E). now apply (cs_ids _ _ _ _ _ _ _ C). }
      unfold collection_check, dedup_conflict. cbn [coll fc_Status fc_CompletedAt fc_RequestedAt].
      change (Successful StatusDeduplicated) with false. cbn [negb andb]. rewrite (proj2 (Z.leb_le _ _)).
      * rewrite orb_true_r. reflexivity.
      * unfold Add. pose proof (Truncate_hour_bounds (now clk)). pose proof Hour_pos. lia.
    + destruct E as (Ec & Es & Eci). repeat split; [cbn; now rewrite Ec|exact Es|exact Eci].
  - intros u. eapply (total_bind n _ _ (fun _ => deduplicated coll)); [apply total_local; intros d F; exact F|].
    intros u'. apply total_ret. intros d F. eauto.
Qed.

Lemma total_Collect :
  now clk <= later clk ->
  total n (fun d => d = d0) (Collect inp clk)
    (fun res d => exists c, res = inr c /\
       match (if usable (r_Outcome r) then existing else None) with
       | None => exists ok, final (classify r ok).1.1 c d
       | Some _ => deduplicated c d
       end).
Proof.
  intros Hl. unfold Collect. pose proof (cs_active _ _ _ _ _ _ _ C) as A. bool_simp.
  rewrite H2, H3, H4, (cs_adapter _ _ _ _ _ _ _ C). cbn [negb orb].
  eapply total_bind; [apply (total_evaluate n inp clk d0 adapter r existing C)|]. intros dec. cbn beta.
  apply total_pure. intros ->. rewrite (cs_allowed _ _ _ _ _ _ _ C). cbn [negb].
  pose proof (cs_fetch _ _ _ _ _ _ _ C) as Fr. unfold request in Fr. rewrite Fr.
  eapply total_bind; [apply total_fresh|]. intros id. apply total_pure_r. intros (i & Hi & ->).
  eapply (total_bind n _ _ (fun e d => e = (if usable (r_Outcome r) then existing else None) /\ evaluated d)).
  { destruct (usable (r_Outcome r)) eqn:U; [|now apply total_ret].
    eapply total_weaken; [| |apply total_query]; [intros d E; exact E|]. intros e d [E ->]. split; [|exact E].
    unfold pg_FindDedup. rewrite (proj1 E). exact (cs_dedup _ _ _ _ _ _ _ C U). }
  intros e. apply total_pure. intros ->. cbn zeta.
  destruct (if usable (r_Outcome r) then existing else None) as [x|] eqn:Ee; [now apply total_storeDeduplicated|].
  assert (Hex : usable (r_Outcome r) = true -> existing = None) by now intros U; rewrite U in Ee.
  eapply (total_bind n _ _ (fun _ => evaluated)).
  { destruct (String.eqb _ _); [now apply total_ret|]. apply total_local. intros d E. exact E. }
  intros ok. pose proof (classify_terminal r ok) as Ht. pose proof (classify_successful r ok) as Hs.
  destruct (classify r ok) as [[status ec] em] eqn:Ecl. cbn [fst] in Ht, Hs.
  eapply total_bind.
  { apply (total_EnsurePartitions (Successful status && negb (bool_decide (Snapshots r = [])))).
    intros U. rewrite Hs, U. case_bool_decide; auto. }
  intros u. eapply total_bind.
  { apply total_attempt, total_tx. eapply (total_collectTx n inp clk d0 adapter r existing i Hi); eauto. }
  intros res. apply total_exists. intros [[c st] tr]. apply total_pure. intros ->. cbn [fst].
  eapply total_bind; [apply total_postCommit|]. intros u1. eapply (total_bind n _ _ (fun _ => final status c)).
  { destruct (_ || _); [|now apply total_ret]. eapply (total_bind n _ _ (fun _ => final status c)); [|intros; now apply total_ret].
    eapply total_weaken; [| |apply (total_attempt n (final status c) _ (fun _ => final status c))]; [auto|now intros a d (? & _ & ?)|].
    apply total_dbcall. intros d F. eapply final_same; eauto. }
  intros u2. apply total_ret. intros d F. exists c. split; [reflexivity|]. exists ok. now rewrite Ecl.
Qed.
End Workflow.

(** ** Theorems *)

(** C2: whatever statements fail, whatever the adapters answer, a collection and a
    replay keep the tables consistent: collection ids unique, every committed row
    terminal and within its CHECKs (so usable rows balance received = stored +
    deduplicated + invalid), at most one usable collection per provider, location
    and model run, snapshots unique per issue and target time, each under a parent
    of its provider and location whose [snapshots_stored] is exactly the number of
    its children, and the breakers those of some history; and rows already
    committed stay as they are. *)
Theorem collection_tables_invariant `{Env} `{CollectDeps} inp clk id actor w :
  coll_inv (db w) ->
  (coll_inv (db (Collect inp clk w).1) /\ extends (db w) (db (Collect inp clk w).1)) /\
  (coll_inv (db (Replay id actor clk w).1) /\ extends (db w) (db (Replay id actor clk w).1)).
Proof.
  intros I. split.
  - exact (preserves_Collect (db w) inp clk w (conj I (reflexivity (db w)))).
  - exact (preserves_Replay (db w) id actor clk w (conj I (reflexivity (db w)))).
Qed.

(** C10: without faults, a collection whose adapter keeps its promise returns the
    row it stored.  If no usable collection of the model run is stored yet, or the
    outcome is not usable: the row's status is that of the outcome, its accounting
    balances, every usable snapshot is in the table under this provider and
    location, and the breaker is closed after a usable outcome, advanced after a
    failure or a timeout, left alone otherwise.  If one is stored: the row is
    [deduplicated], it is the only one added, and no snapshot is. *)
Theorem collect_outcome `{Healthy} `{CollectDeps} inp clk adapter r existing w :
  circumstances (nids w) inp clk (db w) adapter r existing -> now clk <= later clk ->
  let p := p_ID (in_Provider inp) in
  exists w' c, Collect inp clk w = (w', Ok (inr c)) /\
    if usable (r_Outcome r) && bool_decide (is_Some existing)
    then fc_Status c = StatusDeduplicated /\ ct_collections (db w') = ct_collections (db w) ++ [c] /\
         ct_snapshots (db w') = ct_snapshots (db w)
    else fc_Status c = outcome_status (r_Outcome r) /\ AccountingHolds c = true /\ c ∈ ct_collections (db w') /\
         (usable (r_Outcome r) = true -> forall s, s ∈ Snapshots r ->
            (p, l_ID (in_Location inp), s_IssuedAt s, s_TargetTime s) ∈ snapshot_key <$> ct_snapshots (db w')) /\
         pg_GetCircuit p (ct_circuits (db w')) =
           breaker_after (r_Outcome r) (Evaluate (pg_GetCircuit p (ct_circuits (db w))) (now clk)).1 (completedAt clk).
Proof.
  intros C Hl p.
  destruct (total_Collect (nids w) inp clk (db w) adapter r existing C Hl w eq_refl (le_n _)) as (w' & a & E & F & _).
  destruct F as (c & -> & F). exists w', c. split; [exact E|].
  assert (K : (exists ok, outcome_ok inp clk (db w) r (classify r ok).1.1 c (db w')) ->
    fc_Status c = outcome_status (r_Outcome r) /\ AccountingHolds c = true /\ c ∈ ct_collections (db w') /\
    (usable (r_Outcome r) = true -> forall s, s ∈ Snapshots r ->
       (p, l_ID (in_Location inp), s_IssuedAt s, s_TargetTime s) ∈ snapshot_key <$> ct_snapshots (db w')) /\
    pg_GetCircuit p (ct_circuits (db w')) =
      breaker_after (r_Outcome r) (Evaluate (pg_GetCircuit p (ct_circuits (db w))) (now clk)).1 (completedAt clk)).
  { intros (ok & [Hc Hs] & Est & Ac & Br). rewrite classify_status in Est. auto 8. }
  destruct (usable (r_Outcome r)); [|now apply K]. destruct existing as [x|]; [|now apply K].
  cbn. destruct F as (S & _ & Hc & Hsn & _). auto.
Qed.

(** Note: a second collection of a model run that is already stored adds one
    [deduplicated] row and no snapshot; the breaker is evaluated but its outcome is
    not recorded, so a half-open breaker stays half-open after this success. *)
Theorem collect_deduplicates `{Healthy} `{CollectDeps} inp clk adapter r existing w :
  circumstances (nids w) inp clk (db w) adapter r (Some existing) -> usable (r_Outcome r) = true -> now clk <= later clk ->
  exists w' c, Collect inp clk w = (w', Ok (inr c)) /\
    fc_Status c = StatusDeduplicated /\ ct_collections (db w') = ct_collections (db w) ++ [c] /\
    ct_snapshots (db w') = ct_snapshots (db w) /\
    pg_GetCircuit (p_ID (in_Provider inp)) (ct_circuits (db w'))
      = (Evaluate (pg_GetCircuit (p_ID (in_Provider inp)) (ct_circuits (db w))) (now clk)).1.
Proof.
  intros C U Hl.
  destruct (total_Collect (nids w) inp clk (db w) adapter r (Some existing) C Hl w eq_refl (le_n _)) as (w' & a & E & F & _).
  destruct F as (c & -> & F). rewrite U in F. destruct F as (S & _ & Hc & Hsn & Hb). exists w', c. auto 6.
Qed.

(** *** A concrete provider *)

Definition demo_snapshot (i : uuid) (t : Time) : ForecastSnapshot :=
  MkSnapshot i 0 0 0 (9 * Hour) t 60 (Some f1) None (Some f1) (Some f0) None None None None None "" "" "" 0.

Definition demo_result (o : Outcome) : ForecastResult :=
  MkResult "{}" "sum" 200 12 "" None "v1" "a1" (9 * Hour) [demo_snapshot 101 (10 * Hour); demo_snapshot 102 (11 * Hour)] 3 1
    ["row 2: invalid target_time"] o "" None.

Definition demo_adapter (o : Outcome) : Adapter := MkAdapter (fun _ => Ok (demo_result o)) None.

Definition demo_deps (o : Outcome) : CollectDeps :=
  {| adapters := {["demo" := demo_adapter o]}; resolveCred := fun _ => "";
     payloads := MkPayloadStore (fun _ _ => true) (fun _ => Error "gone"); digest := fun s => s |}.

Definition demo_input : CollectInput :=
  MkCollectInput (MkProvider 7 "Demo" "demo" "https://example.org" StatusActive "a" "u" 0 0)
    (MkLocation 9 1 "Johor" f1 f1 "MY" "Asia/Kuala_Lumpur" StatusActive 0 0)
    (MkConfiguration 20 1 7 StatusActive "" DefaultSchedule "a1" "validated" 0 0) (MkActor None "op" "") SourceManual.

Definition demo_clock : Clock := MkClock (10 * Hour + 5) (10 * Hour + 6) (10 * Hour + 7).

Definition demo_db : CollectionTables := MkCT [in_Provider demo_input] [] [] [] ∅ [] [] [].

Lemma demo_result_ok o : result_ok (demo_result o).
Proof. constructor; [repeat constructor; reflexivity|reflexivity]. Qed.

Lemma demo_db_inv : coll_inv demo_db.
Proof.
  constructor; cbn; try constructor; try (intros x Hx; now apply not_elem_of_nil in Hx). eexists. exact table_rel_empty.
Qed.

Definition demo_run : World CollectionTables :=
  (Collect (H0 := demo_deps OutcomePartial) demo_input demo_clock (MkWorld demo_db 0 0)).1.

Lemma collection_tables_invariant_witness : coll_inv (db demo_run) /\ length (ct_snapshots (db demo_run)) = 2%nat.
Proof.
  split; [|vm_compute; reflexivity]. unfold demo_run.
  exact (proj1 (proj1 (collection_tables_invariant (H0 := demo_deps OutcomePartial) demo_input demo_clock 0%N
    (MkActor None "" "") (MkWorld demo_db 0 0) demo_db_inv))).
Defined.

Lemma collect_outcome_witness :
  exists w' c, Collect (H0 := demo_deps OutcomeFailed) demo_input demo_clock (MkWorld demo_db 0 0) = (w', Ok (inr c)) /\
    fc_Status c = StatusFailed /\ AccountingHolds c = true /\ c ∈ ct_collections (db w') /\
    (usable OutcomeFailed = true -> forall s, s ∈ Snapshots (demo_result OutcomeFailed) ->
       (7%N, 9%N, s_IssuedAt s, s_TargetTime s) ∈ snapshot_key <$> ct_snapshots (db w')) /\
    pg_GetCircuit 7 (ct_circuits (db w')) =
      breaker_after OutcomeFailed (Evaluate (pg_GetCircuit 7 ∅) (now demo_clock)).1 (completedAt demo_clock).
Proof.
  refine (collect_outcome (H1 := demo_deps OutcomeFailed) demo_input demo_clock (demo_adapter OutcomeFailed)
    (demo_result OutcomeFailed) None (MkWorld demo_db 0 0) _ _); [|vm_compute; discriminate].
  constructor.
  - reflexivity.
  - reflexivity.
  - reflexivity.
  - apply demo_result_ok.
  - reflexivity.
  - discriminate.
  - vm_compute. discriminate.
  - vm_compute. split; [discriminate|reflexivity].
  - reflexivity.
  - intros i _ Hi. now apply not_elem_of_nil in Hi.
  - constructor.
  - intros _. apply (bool_decide_unpack _). vm_compute. exact I.
Defined.

(** The same hour again, after the breaker opened and its probe delay passed. *)
Definition demo_again : CollectionTables :=
  MkCT (ct_providers (db demo_run)) (ct_collections (db demo_run)) (ct_snapshots (db demo_run)) (ct_partitions (db demo_run))
    {[7%N := circuit_after 7 (EvFailure <$> [5; 4; 3; 2; 1])]} [] [] [].

Lemma collect_deduplicates_witness :
  exists w' c, Collect (H0 := demo_deps OutcomeSuccess) demo_input demo_clock (MkWorld demo_again 0 9) = (w', Ok (inr c)) /\
    fc_Status c = StatusDeduplicated /\ ct_collections (db w') = ct_collections demo_again ++ [c] /\
    ct_snapshots (db w') = ct_snapshots demo_again /\
    pg_GetCircuit 7 (ct_circuits (db w')) = (Evaluate (pg_GetCircuit 7 (ct_circuits demo_again)) (now demo_clock)).1.
Proof.
  assert (X : exists x, pg_FindDedup 7 9 (9 * Hour) demo_again = Some x) by (vm_compute; eauto). destruct X as [x Ex].
  refine (collect_deduplicates (H1 := demo_deps OutcomeSuccess) demo_input demo_clock (demo_adapter OutcomeSuccess)
    (demo_result OutcomeSuccess) x (MkWorld demo_again 0 9) _ _ _); [|reflexivity|vm_compute; discriminate].
  constructor.
  - reflexivity.
  - reflexivity.
  - reflexivity.
  - apply demo_result_ok.
  - vm_compute. reflexivity.
  - intros _. exact Ex.
  - vm_compute. discriminate.
  - vm_compute. split; [discriminate|reflexivity].
  - vm_compute. reflexivity.
  - intros i Hi. assert (E : fc_ID <$> ct_collections demo_again = [(2 ^ 64)%N]) by (vm_compute; reflexivity).
    change (ct_collections (db (MkWorld demo_again 0 9))) with (ct_collections demo_again). rewrite E.
    rewrite list_elem_of_singleton. cbn in Hi |- *. lia.
  - apply (bool_decide_unpack _). vm_compute. exact I.
  - discriminate.
Defined.

End CollectionProps.
