(* ===== verification/Reader.v ===== *)
(** * The collection reader ([internal/collection/reader.go])

    The read side of the collections: one collection, keyset pages of them, the latest
    usable forecast of a provider for a location with its snapshots, and the lineage of
    every provider.  The queries are those of [collectionpg] over [CollectionTables];
    reads use the pool, outside any transaction.  Where [ORDER BY] leaves rows tied the
    order of the table is kept. *)

From Stdlib Require Import ZArith Lia Bool String Sorting.Sorted.
From stdpp Require Import base list strings gmap sorting.
From S2P Require Import Prelude Float64 GoTime Uuid GoStrings Effects Keyset Catalog CatalogService Records Circuit Collection CollectionProps.

Import Records Collection CollectionProps.
Local Open Scope string_scope.
Local Open Scope list_scope.
Local Open Scope Z_scope.

Module Reader.

(** ** collectionpg *)

(** The labels of the enum [collection_status]. *)
Definition status_text (s : CollectionStatus) : string :=
  match s with
  | StatusPending => "pending" | StatusSuccess => "success" | StatusPartial => "partial" | StatusFailed => "failed"
  | StatusDeduplicated => "deduplicated" | StatusRateLimited => "rate_limited" | StatusTimeout => "timeout"
  end.

Definition statuses : list CollectionStatus :=
  [StatusPending; StatusSuccess; StatusPartial; StatusFailed; StatusDeduplicated; StatusRateLimited; StatusTimeout].

Definition status_known (t : string) : bool := existsb (fun s => String.eqb (status_text s) t) statuses.

Record CollectionFilter := MkFilter {
  cf_ProviderID : option uuid;
  cf_LocationID : option uuid;
  cf_Status : option string;
  cf_Cursor : uuid;
  cf_Limit : Z
}.

Definition is_or_any {A} `{EqDecision A} (o : option A) (a : A) : bool := match o with Some x => bool_decide (x = a) | None => true end.

Definition selected (p l : option uuid) (status : option string) (c : ForecastCollection) : bool :=
  is_or_any p (fc_ProviderID c) && is_or_any l (fc_LocationID c) && is_or_any status (status_text (fc_Status c)).

(** [List]: a text that is no label of the enum is refused by the database. *)
Definition pg_List (f : CollectionFilter) (d : CollectionTables) : option (CollectionTables * list ForecastCollection) :=
  if match cf_Status f with Some t => status_known t | None => true end
  then Some (d, keyset_rows fc_ID (selected (cf_ProviderID f) (cf_LocationID f) (cf_Status f)) (cf_Cursor f) (cf_Limit f) (ct_collections d))
  else None.

(** [ORDER BY requested_at DESC] *)
Definition newest_first (a b : ForecastCollection) : bool := fc_RequestedAt b <? fc_RequestedAt a.

Definition usable_pair (p l : uuid) (c : ForecastCollection) : bool :=
  N.eqb (fc_ProviderID c) p && N.eqb (fc_LocationID c) l && Successful (fc_Status c).

Definition pg_LatestSuccessful (p l : uuid) (d : CollectionTables) : option ForecastCollection :=
  head (stable_sort newest_first (List.filter (usable_pair p l) (ct_collections d))).

Record LineageRow := MkLineageRow { lr_ProviderID : uuid; lr_AdapterVersion : string; lr_CollectingSince : option Time }.

Definition versioned (c : ForecastCollection) : bool := Successful (fc_Status c) && negb (String.eqb (fc_AdapterVersion c) "").

(** [min(requested_at)] *)
Definition earliest (cs : list ForecastCollection) : option Time :=
  match cs with [] => None | c :: cs => Some (foldr (fun x t => Z.min (fc_RequestedAt x) t) (fc_RequestedAt c) cs) end.

(** [GROUP BY provider_id] *)
Definition of_provider (p : uuid) (cs : list ForecastCollection) : list ForecastCollection := List.filter (fun c => N.eqb (fc_ProviderID c) p) cs.

Definition lineage_row (cs : list ForecastCollection) (p : uuid) : LineageRow :=
  MkLineageRow p (default "" (fc_AdapterVersion <$> head (stable_sort newest_first (List.filter versioned (of_provider p cs))))) (earliest (of_provider p cs)).

Definition pg_ProviderLineages (d : CollectionTables) : list LineageRow :=
  lineage_row (ct_collections d) <$> remove_dups (fc_ProviderID <$> ct_collections d).

Definition pg_ByCollectionID (id : uuid) (d : CollectionTables) : list ForecastSnapshot :=
  stable_sort (fun a b => s_TargetTime a <? s_TargetTime b) (List.filter (fun s => N.eqb (s_ForecastCollectionID s) id) (ct_snapshots d)).

Definition pg_GetSnapshot (id : uuid) (d : CollectionTables) : option ForecastSnapshot :=
  List.find (fun s => N.eqb (s_ID s) id) (ct_snapshots d).

(** ** reader.go *)

Record PageInfo := MkPage { HasMore : bool; NextCursor : string }.

Record CollectionListInput := MkListInput {
  cl_ProviderID : option uuid;
  cl_LocationID : option uuid;
  cl_Status : option string;
  cl_Cursor : string;
  cl_Limit : Z
}.

Record ProviderLineage := MkLineage { pl_AdapterVersion : string; pl_CollectingSince : option Time }.

(** The collection errors, and the reader's own field error. *)
Inductive ReadError := Domain (e : CollectError) | Invalid (field message : string).

Section Service.
Context `{Env} `{CatalogService.Lookups}.

Abbreviation R A := (M CollectionTables (ReadError + A)).

Definition or_not_found {A} (o : option A) : ReadError + A := match o with Some a => inr a | None => inl (Domain ErrNotFound) end.

Definition GetCollection (id : uuid) : R ForecastCollection := query "scan collection" (fun d => or_not_found (pg_GetCollection id d)).

Definition ListCollections (inp : CollectionListInput) : R (list ForecastCollection * PageInfo) :=
  let limit := page_limit (cl_Limit inp) in
  match (if String.eqb (cl_Cursor inp) "" then Some uuid_Nil else CatalogService.ids_Parse (cl_Cursor inp)) with
  | None => ret (inl (Invalid "cursor" "must be a valid UUID"))
  | Some cursor =>
  rows <-- dbexec "list collections" (pg_List (MkFilter (cl_ProviderID inp) (cl_LocationID inp) (cl_Status inp) cursor limit)) ;;
  let '(rows, more, next) := cut_page fc_ID limit rows in
  ret (inr (rows, MkPage more next))
  end.

Definition LatestForecast (p l : uuid) : R (option (ForecastCollection * list ForecastSnapshot)) :=
  coll <-- query "scan collection" (pg_LatestSuccessful p l) ;;
  match coll with
  | None => ret (inr None)
  | Some c => snaps <-- query "list snapshots" (pg_ByCollectionID (fc_ID c)) ;; ret (inr (Some (c, snaps)))
  end.

Definition SnapshotsByCollection (id : uuid) : R (list ForecastSnapshot) := snaps <-- query "list snapshots" (pg_ByCollectionID id) ;; ret (inr snaps).

Definition ProviderLineages : R (gmap uuid ProviderLineage) :=
  rows <-- query "provider lineages" pg_ProviderLineages ;;
  ret (inr (foldl (fun m r => <[lr_ProviderID r := MkLineage (lr_AdapterVersion r) (lr_CollectingSince r)]> m) ∅ rows)).

Definition GetSnapshot (id : uuid) : R ForecastSnapshot := query "scan snapshot" (fun d => or_not_found (pg_GetSnapshot id d)).
End Service.

(** ** What the queries return *)

Lemma newest_head (l : list ForecastCollection) c : head (stable_sort newest_first l) = Some c ->
  c ∈ l /\ forall x, x ∈ l -> fc_RequestedAt x <= fc_RequestedAt c.
Proof.
  intros Hh. assert (O : ordered newest_first (stable_sort newest_first l)).
  { apply stable_sort_ordered with (P := fun _ => True); [| |now apply Forall_forall]; unfold newest_first; intros; bool_simp; lia. }
  pose proof (stable_sort_perm newest_first l) as Pm. destruct (stable_sort newest_first l) as [|y ys]; [discriminate|]. injection Hh as ->.
  split; [rewrite <- Pm; left|]. intros x Hx. rewrite <- Pm in Hx. apply elem_of_cons in Hx as [->|Hx]; [lia|].
  inversion O as [|? ? _ F]; subst. rewrite Forall_forall in F. specialize (F x Hx). unfold newest_first in F. bool_simp. lia.
Qed.

Lemma newest_none (l : list ForecastCollection) : head (stable_sort newest_first l) = None -> l = [].
Proof.
  intros Hh. pose proof (stable_sort_perm newest_first l) as Pm. destruct (stable_sort newest_first l); [|discriminate].
  now apply Permutation_nil_l in Pm.
Qed.

(** The latest usable collection of a pair, or none when the pair has none. *)
Lemma latest_exact p l d :
  match pg_LatestSuccessful p l d with
  | Some c => c ∈ ct_collections d /\ usable_pair p l c = true /\
      forall x, x ∈ ct_collections d -> usable_pair p l x = true -> fc_RequestedAt x <= fc_RequestedAt c
  | None => forall x, x ∈ ct_collections d -> usable_pair p l x = false
  end.
Proof.
  unfold pg_LatestSuccessful. destruct (head _) as [c|] eqn:Hh.
  - apply newest_head in Hh as [Hc Hm]. apply filter_elem in Hc as [Hc U]. split_and!; [exact Hc|exact U|].
    intros x Hx Ux. apply Hm, filter_elem. auto.
  - apply newest_none in Hh. intros x Hx. destruct (usable_pair p l x) eqn:U; [|reflexivity].
    assert (I : x ∈ List.filter (usable_pair p l) (ct_collections d)) by now apply filter_elem. rewrite Hh in I. now apply not_elem_of_nil in I.
Qed.

Lemma by_collection_perm id d : pg_ByCollectionID id d ≡ₚ children (ct_snapshots d) id.
Proof.
  unfold pg_ByCollectionID, children. rewrite stable_sort_perm. induction (ct_snapshots d) as [|s ss IH]; [reflexivity|].
  rewrite filter_cons. cbn [List.filter]. destruct (N.eqb_spec (s_ForecastCollectionID s) id) as [E|E].
  - rewrite decide_True by exact E. now constructor.
  - now rewrite decide_False by exact E.
Qed.

Lemma by_collection_sorted id d : StronglySorted (fun a b => s_TargetTime a <= s_TargetTime b) (pg_ByCollectionID id d).
Proof.
  unfold pg_ByCollectionID. match goal with |- context [stable_sort ?f ?l] => assert (O : ordered f (stable_sort f l)) end.
  { apply stable_sort_ordered with (P := fun _ => True); [| |now apply Forall_forall]; cbn; intros; bool_simp; lia. }
  induction O as [|a l O IH F]; constructor; [exact IH|]. eapply Forall_impl; [exact F|]. cbn. intros x Hx. bool_simp. lia.
Qed.

Lemma fold_min_spec cs (t : Time) : let m := foldr (fun x t => Z.min (fc_RequestedAt x) t) t cs in
  m <= t /\ (forall x, x ∈ cs -> m <= fc_RequestedAt x) /\ (m = t \/ exists x, x ∈ cs /\ m = fc_RequestedAt x).
Proof.
  induction cs as [|c cs (A & B & C)]; cbn; [split_and!; [lia|intros x Hx; now apply not_elem_of_nil in Hx|now left]|].
  set (m := foldr _ t cs) in *. split_and!; [lia| |].
  - intros x [->|Hx]%elem_of_cons; [lia|]. specialize (B x Hx). lia.
  - destruct (Z.min_spec (fc_RequestedAt c) m) as [[_ ->]|[_ ->]]; [right; exists c; split; [left|reflexivity]|].
    destruct C as [->|(x & Hx & ->)]; [now left|]. right. exists x. split; [now right|reflexivity].
Qed.

Lemma earliest_spec cs t : earliest cs = Some t -> (forall x, x ∈ cs -> t <= fc_RequestedAt x) /\ exists x, x ∈ cs /\ t = fc_RequestedAt x.
Proof.
  destruct cs as [|c cs]; [discriminate|]. cbn. intros [= <-]. destruct (fold_min_spec cs (fc_RequestedAt c)) as (A & B & C). split.
  - intros x [->|Hx]%elem_of_cons; [exact A|auto].
  - destruct C as [->|(x & Hx & ->)]; [exists c; split; [left|reflexivity]|exists x; split; [now right|reflexivity]].
Qed.

Definition lineage_map (rows : list LineageRow) : gmap uuid ProviderLineage :=
  foldl (fun m r => <[lr_ProviderID r := MkLineage (lr_AdapterVersion r) (lr_CollectingSince r)]> m) ∅ rows.

Lemma lineage_map_lookup rows p : NoDup (lr_ProviderID <$> rows) ->
  lineage_map rows !! p = (fun r => MkLineage (lr_AdapterVersion r) (lr_CollectingSince r)) <$> List.find (fun r => N.eqb (lr_ProviderID r) p) rows.
Proof.
  unfold lineage_map. generalize (∅ : gmap uuid ProviderLineage) (lookup_empty (M := gmap uuid) (A := ProviderLineage) p).
  induction rows as [|r rows IH]; intros m Hm; [intros _; exact Hm|]. rewrite fmap_cons, NoDup_cons. intros [Nr Nd]. cbn [foldl List.find].
  destruct (N.eqb_spec (lr_ProviderID r) p) as [<-|E]; [|apply IH; [now rewrite lookup_insert_ne|assumption]].
  clear IH Nd Hm. revert Nr. generalize (lr_ProviderID r) as q. intros q Nr. set (v := MkLineage _ _).
  assert (G : forall m' : gmap uuid ProviderLineage, m' !! q = Some v -> foldl (fun m r => <[lr_ProviderID r := MkLineage (lr_AdapterVersion r) (lr_CollectingSince r)]> m) m' rows !! q = Some v).
  { induction rows as [|x rows IH]; intros m' Hm'; [exact Hm'|]. rewrite fmap_cons, not_elem_of_cons in Nr. destruct Nr as [Nx Nr].
    apply (IH Nr). now rewrite lookup_insert_ne by congruence. }
  apply G, lookup_insert_eq.
Qed.

Lemma lineage_rows_ids d : lr_ProviderID <$> pg_ProviderLineages d = remove_dups (fc_ProviderID <$> ct_collections d).
Proof. unfold pg_ProviderLineages. rewrite <- list_fmap_compose. apply list_fmap_id. Qed.

Lemma lineage_rows_find d p : List.find (fun r => N.eqb (lr_ProviderID r) p) (pg_ProviderLineages d) =
  if bool_decide (p ∈ fc_ProviderID <$> ct_collections d) then Some (lineage_row (ct_collections d) p) else None.
Proof.
  unfold pg_ProviderLineages. assert (G : forall ps, List.find (fun r => N.eqb (lr_ProviderID r) p) (lineage_row (ct_collections d) <$> ps) =
    if bool_decide (p ∈ ps) then Some (lineage_row (ct_collections d) p) else None).
  { induction ps as [|q ps IH]; [now rewrite bool_decide_false by apply not_elem_of_nil|]. cbn. destruct (N.eqb_spec q p) as [->|E].
    - now rewrite bool_decide_true by left.
    - rewrite IH. apply (f_equal (fun b : bool => if b then _ else _)). apply bool_decide_ext. rewrite elem_of_cons. intuition congruence. }
  rewrite G. apply (f_equal (fun b : bool => if b then _ else _)). apply bool_decide_ext. apply elem_of_remove_dups.
Qed.

(** ** The service when nothing fails *)

Section Served.
Context `{Healthy} `{CatalogService.Lookups}.

(** A snapshot row of a consistent table belongs to the pair of its collection. *)
Lemma child_pair d c s : coll_inv d -> c ∈ ct_collections d -> s ∈ children (ct_snapshots d) (fc_ID c) ->
  s_ProviderID s = fc_ProviderID c /\ s_LocationID s = fc_LocationID c.
Proof.
  intros I Hc Hs. apply list_elem_of_filter in Hs as [Ei Hs]. destruct (ci_parent d I s Hs) as (c' & Hc' & E1 & E2 & E3).
  assert (c' = c) as -> by (apply (NoDup_key_unique fc_ID (ct_collections d)); [apply I|assumption|assumption|congruence]). auto.
Qed.

(** The latest usable collection with all the snapshots stored for it, in time order. *)
Definition latest_of (p l : uuid) (d : CollectionTables) (o : option (ForecastCollection * list ForecastSnapshot)) : Prop :=
  match o with
  | None => forall x, x ∈ ct_collections d -> usable_pair p l x = false
  | Some (c, snaps) =>
      c ∈ ct_collections d /\ usable_pair p l c = true /\
      (forall x, x ∈ ct_collections d -> usable_pair p l x = true -> fc_RequestedAt x <= fc_RequestedAt c) /\
      StronglySorted (fun a b => s_TargetTime a <= s_TargetTime b) snaps /\ snaps ≡ₚ children (ct_snapshots d) (fc_ID c) /\
      (coll_inv d -> Z.of_nat (length snaps) = fc_SnapshotsStored c /\ Forall (fun s => s_ProviderID s = p /\ s_LocationID s = l) snaps)
  end.

Lemma latest_of_rows p l d c : pg_LatestSuccessful p l d = Some c -> latest_of p l d (Some (c, pg_ByCollectionID (fc_ID c) d)).
Proof.
  intros E. pose proof (latest_exact p l d) as L. rewrite E in L. destruct L as (Hc & U & Hm). pose proof (by_collection_perm (fc_ID c) d) as Pm.
  split_and!; [exact Hc|exact U|exact Hm|apply by_collection_sorted|exact Pm|]. intros I. split.
  - rewrite Pm. symmetry. now apply ci_count.
  - apply Forall_forall. intros s Hs. rewrite Pm in Hs. unfold usable_pair in U. apply andb_true_iff in U as [[<-%N.eqb_eq <-%N.eqb_eq]%andb_true_iff _].
    exact (child_pair d c s I Hc Hs).
Qed.

Lemma LatestForecast_run p l w : exists w' o, LatestForecast p l w = (w', Ok (inr o)) /\ db w' = db w /\ latest_of p l (db w) o.
Proof.
  unfold LatestForecast. rewrite bind_run, query_healthy. destruct (pg_LatestSuccessful p l (db w)) as [c|] eqn:E.
  - rewrite bind_run, query_healthy. eexists _, _. split; [reflexivity|]. split; [reflexivity|]. now apply latest_of_rows.
  - eexists _, _. split; [reflexivity|]. split; [reflexivity|]. cbn. pose proof (latest_exact p l (db w)) as L. now rewrite E in L.
Qed.

(** Note: the lineage of a provider: absent exactly when it has no collection; else the
    earliest request of any of its collections, and the adapter version of its latest
    usable collection that names one. *)
Theorem lineages_exact (w : World CollectionTables) : exists w' m,
  ProviderLineages w = (w', Ok (inr m)) /\ db w' = db w /\
  forall p, match m !! p with
  | None => of_provider p (ct_collections (db w)) = []
  | Some l =>
      (exists t, pl_CollectingSince l = Some t /\ (forall x, x ∈ of_provider p (ct_collections (db w)) -> t <= fc_RequestedAt x) /\
         exists x, x ∈ of_provider p (ct_collections (db w)) /\ t = fc_RequestedAt x) /\
      ((pl_AdapterVersion l = "" /\ List.filter versioned (of_provider p (ct_collections (db w))) = []) \/
       exists c, c ∈ List.filter versioned (of_provider p (ct_collections (db w))) /\ pl_AdapterVersion l = fc_AdapterVersion c /\
         forall x, x ∈ List.filter versioned (of_provider p (ct_collections (db w))) -> fc_RequestedAt x <= fc_RequestedAt c)
  end.
Proof.
  unfold ProviderLineages. rewrite bind_run, query_healthy. eexists _, _. split; [reflexivity|]. split; [reflexivity|]. intros p.
  fold (lineage_map (pg_ProviderLineages (db w))). rewrite lineage_map_lookup, lineage_rows_find by (rewrite lineage_rows_ids; apply NoDup_remove_dups).
  set (cs := ct_collections (db w)). case_bool_decide as In; cbn.
  - assert (exists c, c ∈ of_provider p cs) as [c0 Hc0].
    { apply list_elem_of_fmap in In as (c & -> & Hc). exists c. apply filter_elem. split; [exact Hc|]. apply N.eqb_refl. }
    split.
    + destruct (earliest (of_provider p cs)) as [t|] eqn:Et; [exists t; split; [reflexivity|now apply earliest_spec]|].
      destruct (of_provider p cs); [now apply not_elem_of_nil in Hc0|discriminate].
    + destruct (head _) as [c|] eqn:Hh; [right|left]; [|split; [reflexivity|now apply newest_none]]. exists c.
      apply newest_head in Hh as [Hc Hm]. auto.
  - unfold of_provider. destruct (List.filter _ cs) as [|c l] eqn:F; [reflexivity|]. exfalso. apply In.
    assert (I : c ∈ List.filter (fun c => N.eqb (fc_ProviderID c) p) cs) by (rewrite F; left). apply filter_elem in I as [I <-%N.eqb_eq].
    now apply list_elem_of_fmap_2.
Qed.

(** Note: following the cursors of the collection list from the start returns every
    selected collection exactly once, in id order. *)
Theorem collection_pages_complete (p l : option uuid) (status : option string) (limit : Z) (w : World CollectionTables) :
  (forall u, uuid_wf u -> CatalogService.ids_Parse (Uuid.to_string u) = Some u) ->
  match status with Some t => status_known t = true | None => True end ->
  NoDup (fc_ID <$> ct_collections (db w)) -> Forall (fun c => fc_ID c <> uuid_Nil /\ uuid_wf (fc_ID c)) (ct_collections (db w)) ->
  let listed := keyset fc_ID (selected p l status) (ct_collections (db w)) in
  exists w', walk (fun cursor => ListCollections (MkListInput p l status cursor limit)) HasMore NextCursor
      (S (length (ct_collections (db w)))) "" w = (w', Ok (inr listed)) /\
    (forall c, c ∈ listed <-> c ∈ ct_collections (db w) /\ selected p l status c = true) /\ StronglySorted (key_lt fc_ID) listed.
Proof.
  intros Hp Hs Nd Hn listed. assert (In : forall c, c ∈ listed -> fc_ID c <> uuid_Nil /\ uuid_wf (fc_ID c)).
  { intros c [Hc _]%keyset_elem. exact (proj1 (Forall_forall _ _) Hn c Hc). }
  destruct (walk_complete fc_ID CatalogService.ids_Parse (fun cursor => ListCollections (MkListInput p l status cursor limit)) HasMore NextCursor
    (db w) listed (page_size limit) (page_size_pos limit)) with (fuel := S (length (ct_collections (db w)))) (w := w) as (w' & E & _).
  - intros cursor c w0 Hc Hd rest. unfold ListCollections. cbn [cl_Cursor cl_Limit cl_Status cl_ProviderID cl_LocationID]. unfold cursor_id in Hc.
    rewrite Hc, bind_run. unfold dbexec. rewrite healthy. unfold pg_List. cbn [cf_Status cf_ProviderID cf_LocationID cf_Cursor cf_Limit].
    replace (match status with Some t => status_known t | None => true end) with true by (destruct status; auto).
    cbv beta iota. rewrite Hd, keyset_rows_eq by assumption. fold listed rest.
    destruct (cut_page_spec fc_ID (page_limit limit) rest (page_limit_pos limit)) as (cur & -> & Hcur).
    eexists _, (MkPage _ cur). split_and!; [reflexivity|reflexivity|reflexivity|exact Hcur].
  - now apply keyset_strict.
  - intros c Hc. apply Hp. now apply In.
  - reflexivity.
  - apply Forall_forall. intros c Hc. now apply In.
  - pose proof (keyset_length fc_ID (selected p l status) (ct_collections (db w))). unfold listed. lia.
  - exists w'. split; [exact E|]. split; [apply keyset_elem|now apply keyset_strict].
Qed.
End Served.
End Reader.
