(* ===== verification/Observe.v ===== *)
(** * Observation collection ([internal/collection/observe.go])

    [Observe] fetches the observations of a location and window, compares them with
    the live rows, and in one transaction supersedes the rows the source corrected
    and inserts the new ones ([observationpg], with the partial unique index of live
    rows, the CHECKs and the enums of the table).  The source adapter is a
    parameter, reached through its port; metrics and logs are left out. *)

From Stdlib Require Import ZArith Lia Bool String.
From stdpp Require Import base list strings gmap.
From S2P Require Import Prelude Float64 GoTime Uuid Effects Records Catalog Collection.

Import Records Catalog Collection.
Local Open Scope string_scope.
Local Open Scope list_scope.
Local Open Scope Z_scope.

Module Observe.

(** ** ports/observation.go *)

Record ObservationRequest := MkObsRequest {
  or_LocationID : uuid;
  or_Source : string;
  or_BaseURL : string;
  or_Latitude : float64;
  or_Longitude : float64;
  or_Timezone : string;
  or_WindowStart : Time;
  or_WindowEnd : Time
}.

(** The fields the workflow reads. *)
Record ObservationResult := MkObsResult {
  Observations : list Observation;
  ob_Outcome : Outcome;
  ob_ErrorCode : string
}.

(** [ObservationSourceAdapter]. *)
Class ObservationSource := {
  Source : string;
  FetchObservations : ObservationRequest -> result ObservationResult;
}.

(** ** observationpg *)

Inductive ObsEvent :=
| ObservationCollected (locationID : uuid) (source : string) (count : Z)
| ObservationCorrected (locationID : uuid) (observedAt : Time) (superseded new : uuid).

Record ObsTables := MkObsTables {
  ob_rows : list Observation;
  ob_partitions : list Time;
  ob_events : list ObsEvent
}.

Definition with_rows (d : ObsTables) (rows : list Observation) : ObsTables :=
  MkObsTables rows (ob_partitions d) (ob_events d).

Definition is_live (o : Observation) : bool := bool_decide (o_SupersededObservationID o = None).

(** The columns of the live-row index. *)
Definition obs_key (o : Observation) : string * uuid * Time := (o_Source o, o_LocationID o, o_ObservedAt o).

Definition set_superseded (o : Observation) (s : option uuid) : Observation :=
  MkObservation (o_ID o) (o_LocationID o) (o_Source o) (o_ObservationType o) (o_ObservedAt o) (o_TemperatureC o)
    (o_HumidityPct o) (o_WindSpeedMS o) (o_WindDirectionDeg o) (o_PressureHPa o) (o_PrecipitationMM o)
    (o_ProviderConditionCode o) (o_CanonicalConditionCode o) (o_QualityFlag o) s (o_CreatedAt o).

Definition set_flag (o : Observation) (f : string) : Observation :=
  MkObservation (o_ID o) (o_LocationID o) (o_Source o) (o_ObservationType o) (o_ObservedAt o) (o_TemperatureC o)
    (o_HumidityPct o) (o_WindSpeedMS o) (o_WindDirectionDeg o) (o_PressureHPa o) (o_PrecipitationMM o)
    (o_ProviderConditionCode o) (o_CanonicalConditionCode o) f (o_SupersededObservationID o) (o_CreatedAt o).

(** The enums and CHECKs of [observations]. *)
Definition observation_check (o : Observation) : bool :=
  ObservationType_Valid (o_ObservationType o)
  && existsb (String.eqb (o_QualityFlag o)) [QualityValid; QualitySuspect; QualityCorrected]
  && between (o_HumidityPct o) f0 (f64_of_Z 100) && not_negative (o_WindSpeedMS o)
  && between (o_WindDirectionDeg o) f0 (f64_of_Z 360) && not_negative (o_PrecipitationMM o).

Definition pg_ListCurrentByWindow (source : string) (locationID : uuid) (start end_ : Time) (d : ObsTables) : list Observation :=
  List.filter (fun o => String.eqb (o_Source o) source && N.eqb (o_LocationID o) locationID
                        && (start <=? o_ObservedAt o) && (o_ObservedAt o <=? end_) && is_live o) (ob_rows d).

(** One row of the batch: skipped if a live row has its key, an error if the primary
    key is taken; the insert leaves [superseded_observation_id] null. *)
Definition insert_observation (rows : list Observation) (o : Observation) : option (list Observation) :=
  if existsb (fun x => is_live x && bool_decide (obs_key x = obs_key o)) rows then Some rows
  else if existsb (fun x => bool_decide (o_ID x = o_ID o) && (o_ObservedAt x =? o_ObservedAt o)) rows then None
  else Some (rows ++ [set_superseded o None]).

Definition insert_observations (rows new : list Observation) : option (list Observation) :=
  foldl (fun acc o => rows ← acc; insert_observation rows o) (Some rows) new.

Definition pg_InsertObservations (obs : list Observation) (d : ObsTables) : option (ObsTables * Z) :=
  if forallb (fun o => observation_check o && bool_decide (month_of (o_ObservedAt o) ∈ ob_partitions d)) obs
  then rows ← insert_observations (ob_rows d) obs;
       Some (with_rows d rows, Z.of_nat (length rows) - Z.of_nat (length (ob_rows d)))
  else None.

(** The row [UPDATE ... WHERE id = $1 AND observed_at = $2 AND superseded IS NULL]. *)
Definition supersede_target (oldID : uuid) (oldAt : Time) (o : Observation) : bool :=
  N.eqb (o_ID o) oldID && (o_ObservedAt o =? oldAt) && is_live o.

Definition pg_SupersedeObservation (oldID : uuid) (oldAt : Time) (newID : uuid) (d : ObsTables) : option (ObsTables * unit) :=
  if existsb (supersede_target oldID oldAt) (ob_rows d)
  then Some (with_rows d ((fun o => if supersede_target oldID oldAt o then set_superseded o (Some newID) else o) <$> ob_rows d), tt)
  else None.

(** ** observe.go *)

Record correction := MkCorrection { oldID : uuid; oldObservedAt : Time; newID : uuid; c_observedAt : Time }.

(** [byHour]. *)
Definition by_hour (existing : list Observation) : gmap Z Observation :=
  foldl (fun m o => <[o_ObservedAt o := o]> m) ∅ existing.

(** The loop over the fetched rows: what to insert, and the corrections. *)
Definition plan_step (byHour : gmap Z Observation) (p : list Observation * list correction) (obs : Observation)
    : list Observation * list correction :=
  match byHour !! o_ObservedAt obs with
  | None => (p.1 ++ [obs], p.2)
  | Some prev =>
      if DiffersFrom obs prev
      then (p.1 ++ [set_flag obs QualityCorrected],
            p.2 ++ [MkCorrection (o_ID prev) (o_ObservedAt prev) (o_ID obs) (o_ObservedAt obs)])
      else p
  end.

Definition plan (byHour : gmap Z Observation) (obs : list Observation) : list Observation * list correction :=
  foldl (plan_step byHour) ([], []) obs.

Definition observationMonthStarts (obs : list Observation) : list Time :=
  foldl (fun out o => let ms := month_of (o_ObservedAt o) in
                      if bool_decide (ms ∈ out) then out else out ++ [ms]) [] obs.

Section Service.
Context `{Env} `{ObservationSource}.

Definition EnsureObsPartitions (ms : list Time) : M ObsTables unit :=
  iterM (fun m => dbcall "ensure partition" (fun d =>
    (if bool_decide (m ∈ ob_partitions d) then d
     else MkObsTables (ob_rows d) (ob_partitions d ++ [m]) (ob_events d), tt))) ms.

Definition Supersede (c : correction) : M ObsTables unit :=
  dbexec "supersede observation" (pg_SupersedeObservation (oldID c) (oldObservedAt c) (newID c)).

Definition InsertObservations (obs : list Observation) : M ObsTables Z :=
  match obs with [] => ret 0 | _ => dbexec "insert observations" (pg_InsertObservations obs) end.

Definition PublishObs (e : ObsEvent) : M ObsTables unit :=
  local (fun d => (MkObsTables (ob_rows d) (ob_partitions d) (ob_events d ++ [e]), tt)).

(** The transaction of [Observe]. *)
Definition observeTx (locationID : uuid) (windowStart windowEnd : Time) (obs : list Observation)
    : M ObsTables (Z * list correction) :=
  EnsureObsPartitions (observationMonthStarts obs) ;;;
  existing <-- query "list observations" (pg_ListCurrentByWindow Source locationID windowStart windowEnd) ;;
  let '(toInsert, corrections) := plan (by_hour existing) obs in
  iterM Supersede corrections ;;;
  n <-- InsertObservations toInsert ;;
  ret (n, corrections).

Definition Observe (location : Location) (windowStart windowEnd : Time) : M ObsTables (CollectError + Z) :=
  if negb (Active (l_Status location)) then ret (inl ErrInactive) else
  match FetchObservations (MkObsRequest (l_ID location) Source "" (l_Latitude location) (l_Longitude location)
                             (l_Timezone location) windowStart windowEnd) with
  | Error e => throw ("observation fetch: " +:+ e)
  | Ok r =>
  if negb (bool_decide (ob_Outcome r = OutcomeSuccess))
  then throw ("observation fetch: " +:+ orDefault (ob_ErrorCode r) "error") else
  res <-- tx_run (observeTx (l_ID location) windowStart windowEnd (Observations r)) ;;
  let '(stored, corrections) := res in
  PublishObs (ObservationCollected (l_ID location) Source stored) ;;;
  iterM (fun c => PublishObs (ObservationCorrected (l_ID location) (c_observedAt c) (oldID c) (newID c))) corrections ;;;
  ret (inr stored)
  end.
End Service.

End Observe.
