(* ===== verification/ObserveProps.v ===== *)
(** * Properties of observation collection

    The invariant of [observations] (one live row per source, location and hour;
    every superseded row points at a stored row of the same hour), preserved under
    arbitrary faults, and the agreement of the live rows with the source after a
    run, which makes a second run do nothing. *)

From Stdlib Require Import ZArith Lia Bool String SpecFloat.
From stdpp Require Import base list strings gmap.
From S2P Require Import Prelude Float64 Float64Round GoTime Uuid Effects Records Catalog Collection Observe Matching.

Import Records Catalog Collection Observe.
Local Open Scope string_scope.
Local Open Scope list_scope.
Local Open Scope Z_scope.

Module ObserveProps.

Definition pk (o : Observation) : uuid * Time := (o_ID o, o_ObservedAt o).

Definition live_rows (rows : list Observation) : list Observation := List.filter is_live rows.

Record obs_inv (rows : list Observation) : Prop := {
  oi_pk : NoDup (pk <$> rows);
  oi_live : NoDup (obs_key <$> live_rows rows);
  oi_next : forall o i, o ∈ rows -> o_SupersededObservationID o = Some i ->
    exists n, n ∈ rows /\ o_ID n = i /\ obs_key n = obs_key o;
}.

(** A row keeps its values; it may become superseded, once. *)
Definition row_kept (o o' : Observation) : Prop :=
  o' = o \/ (is_live o = true /\ exists i, o' = set_superseded o (Some i)).

Definition obs_history (rows rows' : list Observation) : Prop :=
  exists kept new, rows' = kept ++ new /\ Forall2 row_kept rows kept.

(** ** Superseding *)

Definition old (c : correction) : uuid * Time := (oldID c, oldObservedAt c).

Definition mark1 (c : correction) (o : Observation) : Observation :=
  if supersede_target (oldID c) (oldObservedAt c) o then set_superseded o (Some (newID c)) else o.

Definition mark (cs : list correction) (o : Observation) : Observation := foldl (fun o c => mark1 c o) o cs.

Lemma target_spec c o : supersede_target (oldID c) (oldObservedAt c) o = true <-> is_live o = true /\ pk o = old c.
Proof.
  unfold supersede_target, pk, old. rewrite !andb_true_iff, N.eqb_eq, Z.eqb_eq. split.
  - intros [[-> ->] L]. auto.
  - intros [L [= -> ->]]. auto.
Qed.

Lemma mark1_fields c o : pk (mark1 c o) = pk o /\ obs_key (mark1 c o) = obs_key o.
Proof. unfold mark1. now destruct (supersede_target _ _ o). Qed.

Lemma mark1_live c o : is_live (mark1 c o) = true <-> is_live o = true /\ pk o <> old c.
Proof.
  unfold mark1. pose proof (target_spec c o) as T. destruct (supersede_target _ _ o) eqn:E.
  - cbn. split; [discriminate|]. intros [_ N]. now destruct N; apply T.
  - split; [|tauto]. intros L. split; [assumption|]. intros X. assert (false = true) by tauto. discriminate.
Qed.

Lemma mark_fields cs o : pk (mark cs o) = pk o /\ obs_key (mark cs o) = obs_key o.
Proof.
  unfold mark. revert o. induction cs as [|c cs IH]; intros o; cbn; [auto|].
  destruct (IH (mark1 c o)) as [-> ->]. apply mark1_fields.
Qed.

Lemma mark_live cs o : is_live (mark cs o) = true <-> is_live o = true /\ pk o ∉ old <$> cs.
Proof.
  unfold mark. revert o. induction cs as [|c cs IH]; intros o; cbn.
  - split; [intros L; split; [exact L|apply not_elem_of_nil]|tauto].
  - rewrite IH, mark1_live, not_elem_of_cons, (proj1 (mark1_fields c o)). tauto.
Qed.

(** Where the pointer of a marked row comes from. *)
Lemma mark_next cs o i :
  o_SupersededObservationID (mark cs o) = Some i ->
  o_SupersededObservationID o = Some i \/ (is_live o = true /\ exists c, c ∈ cs /\ old c = pk o /\ newID c = i).
Proof.
  unfold mark. revert o. induction cs as [|c cs IH]; intros o; cbn; [auto|]. intros [E|(L & x & Hx & Eo & En)]%IH.
  - unfold mark1 in E. destruct (supersede_target _ _ o) eqn:T; [|auto]. cbn in E. injection E as <-.
    apply target_spec in T as [L P]. right. split; [assumption|]. exists c. split; [left|auto].
  - apply mark1_live in L as [L N]. right. split; [assumption|]. exists x. rewrite (proj1 (mark1_fields c o)) in Eo.
    split; [now right|auto].
Qed.

Lemma mark_kept cs o : row_kept o (mark cs o).
Proof.
  unfold mark. revert o. induction cs as [|c cs IH]; intros o; cbn; [now left|]. destruct (IH (mark1 c o)) as [E|(L & i & E)].
  - rewrite E. unfold mark1. destruct (supersede_target _ _ o) eqn:T; [|now left].
    apply target_spec in T as [L _]. right. eauto.
  - apply mark1_live in L as [L N]. right. split; [assumption|]. exists i. rewrite E. unfold mark1.
    now destruct (supersede_target _ _ o).
Qed.

(** The supersessions of a transaction, one after the other. *)
Fixpoint sups (cs : list correction) (rows : list Observation) : option (list Observation) :=
  match cs with
  | [] => Some rows
  | c :: cs => if existsb (supersede_target (oldID c) (oldObservedAt c)) rows then sups cs (mark1 c <$> rows) else None
  end.

Lemma sups_spec cs rows rows1 :
  sups cs rows = Some rows1 ->
  rows1 = mark cs <$> rows /\ NoDup (old <$> cs) /\
  (forall c, c ∈ cs -> exists o, o ∈ rows /\ is_live o = true /\ pk o = old c).
Proof.
  revert rows. induction cs as [|c cs IH]; intros rows; cbn [sups].
  { intros [= <-]. split; [now rewrite list_fmap_id|]. split; [constructor|]. intros c Hc. now apply not_elem_of_nil in Hc. }
  destruct (existsb _ rows) eqn:T; [|discriminate]. intros (-> & N & Hx)%IH.
  assert (B : forall x, x ∈ cs -> exists o, o ∈ rows /\ is_live o = true /\ pk o = old x /\ pk o <> old c).
  { intros x (o & Ho & L & P)%Hx. apply list_elem_of_fmap in Ho as (o0 & -> & Ho0).
    apply mark1_live in L as [L Nc]. rewrite (proj1 (mark1_fields c o0)) in P. eauto 6. }
  split; [now rewrite <- list_fmap_compose|]. rewrite fmap_cons, NoDup_cons. split.
  - split; [|assumption]. intros (x & E & (o & _ & _ & P & Nc)%B)%list_elem_of_fmap. congruence.
  - intros x [->|(o & Ho & L & P & _)%B]%elem_of_cons; [|eauto]. apply existsb_exists in T as (o & Ho & [L P]%target_spec).
    apply list_elem_of_In in Ho. eauto.
Qed.

(** ** Inserting *)

Lemma live_rows_app a b : live_rows (a ++ b) = live_rows a ++ live_rows b.
Proof. apply List.filter_app. Qed.

Lemma live_rows_elem rows o : o ∈ live_rows rows <-> o ∈ rows /\ is_live o = true.
Proof. unfold live_rows. now rewrite !list_elem_of_In, List.filter_In. Qed.

Lemma insert_observation_spec rows o rows' :
  NoDup (pk <$> rows) -> NoDup (obs_key <$> live_rows rows) -> insert_observation rows o = Some rows' ->
  exists new, rows' = rows ++ new /\ new ⊆ [set_superseded o None] /\
    NoDup (pk <$> rows') /\ NoDup (obs_key <$> live_rows rows') /\ obs_key o ∈ obs_key <$> live_rows rows'.
Proof.
  intros Np Nl. unfold insert_observation. destruct (existsb _ rows) eqn:E.
  - intros [= <-]. exists []. rewrite app_nil_r. split; [reflexivity|]. split; [set_solver|]. split; [assumption|]. split; [assumption|].
    apply existsb_exists in E as (x & Hx & B). rewrite andb_true_iff, bool_decide_eq_true in B. destruct B as [L K].
    rewrite <- K. apply list_elem_of_fmap_2, live_rows_elem. split; [now apply list_elem_of_In|assumption].
  - destruct (existsb (fun x => bool_decide (o_ID x = o_ID o) && _) rows) eqn:E2; [discriminate|]. intros [= <-].
    exists [set_superseded o None]. split; [reflexivity|]. split; [set_solver|]. split; [|split].
    + rewrite fmap_app. apply NoDup_app. split; [assumption|]. split; [|apply NoDup_singleton].
      intros p Hp ->%list_elem_of_singleton. apply list_elem_of_fmap in Hp as (x & Ex & Hx). injection Ex as E3 E4.
      apply not_true_iff_false in E2. apply E2, existsb_exists. exists x. split; [now apply list_elem_of_In|].
      rewrite andb_true_iff, bool_decide_eq_true, Z.eqb_eq. auto.
    + rewrite live_rows_app, fmap_app. apply NoDup_app. split; [assumption|]. split; [|apply NoDup_singleton].
      intros p Hp ->%list_elem_of_singleton. apply list_elem_of_fmap in Hp as (x & Ex & [Hx L]%live_rows_elem).
      apply not_true_iff_false in E. apply E, existsb_exists. exists x. split; [now apply list_elem_of_In|].
      rewrite andb_true_iff, bool_decide_eq_true. auto.
    + rewrite live_rows_app, fmap_app, elem_of_app. right. cbn. now left.
Qed.

Lemma insert_observations_none new : foldl (fun acc o => rows ← acc; insert_observation rows o) None new = None.
Proof. induction new; [reflexivity|assumption]. Qed.

Lemma insert_observations_spec new rows rows' :
  NoDup (pk <$> rows) -> NoDup (obs_key <$> live_rows rows) -> insert_observations rows new = Some rows' ->
  exists added, rows' = rows ++ added /\ added ⊆ ((fun o => set_superseded o None) <$> new) /\
    NoDup (pk <$> rows') /\ NoDup (obs_key <$> live_rows rows') /\
    (forall o, o ∈ new -> obs_key o ∈ obs_key <$> live_rows rows').
Proof.
  unfold insert_observations. revert rows. induction new as [|o new IH]; intros rows Np Nl; cbn [foldl].
  { intros [= <-]. exists []. rewrite app_nil_r. split; [reflexivity|]. split; [set_solver|]. split; [assumption|].
    split; [assumption|]. intros o Ho. now apply not_elem_of_nil in Ho. }
  cbn [mbind option_bind]. destruct (insert_observation rows o) as [rows1|] eqn:E; [|now rewrite insert_observations_none].
  destruct (insert_observation_spec rows o rows1 Np Nl E) as (a1 & -> & S1 & Np1 & Nl1 & K1).
  intros F. destruct (IH _ Np1 Nl1 F) as (a2 & -> & S2 & Np2 & Nl2 & K2). exists (a1 ++ a2). rewrite app_assoc.
  split; [reflexivity|]. split; [set_solver|]. split; [assumption|]. split; [assumption|].
  intros x [->|Hx]%elem_of_cons; [|auto]. rewrite live_rows_app, fmap_app, elem_of_app. now left.
Qed.

(** ** The plan *)

Lemma by_hour_spec l h o : by_hour l !! h = Some o -> o ∈ l /\ o_ObservedAt o = h.
Proof.
  unfold by_hour. induction l as [|x l IH] using rev_ind; [cbn; now rewrite lookup_empty|]. rewrite foldl_app. cbn.
  rewrite lookup_insert_Some, elem_of_app, list_elem_of_singleton. intros [[<- ->]|[_ [Ho E]%IH]]; auto.
Qed.

Lemma by_hour_some l o : o ∈ l -> is_Some (by_hour l !! o_ObservedAt o).
Proof.
  unfold by_hour. induction l as [|x l IH] using rev_ind; [now intros ?%not_elem_of_nil|]. rewrite foldl_app. cbn.
  rewrite elem_of_app, list_elem_of_singleton, lookup_insert_is_Some. intros [Ho|<-]; [|now left].
  destruct (decide (o_ObservedAt x = o_ObservedAt o)); auto.
Qed.

(** The correction a planned row belongs to. *)
Definition correction_of (prev o : Observation) : correction := MkCorrection (o_ID prev) (o_ObservedAt prev) (o_ID o) (o_ObservedAt o).

(** The planned form of a fetched row. *)
Definition planned (m : gmap Z Observation) (o : Observation) : option Observation :=
  match m !! o_ObservedAt o with
  | None => Some o
  | Some prev => if DiffersFrom o prev then Some (set_flag o QualityCorrected) else None
  end.

Definition corrections_of (m : gmap Z Observation) (o : Observation) : option correction :=
  match m !! o_ObservedAt o with
  | Some prev => if DiffersFrom o prev then Some (correction_of prev o) else None
  | None => None
  end.

Lemma plan_omap m obs : plan m obs = (omap (planned m) obs, omap (corrections_of m) obs).
Proof.
  unfold plan. assert (G : forall p, foldl (plan_step m) p obs = (p.1 ++ omap (planned m) obs, p.2 ++ omap (corrections_of m) obs)).
  { induction obs as [|o obs IH]; intros [a b]; cbn [foldl omap list_omap]; [cbn; now rewrite !app_nil_r|].
    rewrite IH. unfold plan_step, planned, corrections_of. destruct (m !! _) as [prev|]; [destruct (DiffersFrom o prev)|];
      cbn; now rewrite <- ?app_assoc. }
  apply G.
Qed.

Lemma planned_fields m o x : planned m o = Some x -> obs_key x = obs_key o /\ pk x = pk o.
Proof.
  unfold planned. destruct (m !! _) as [prev|]; [destruct (DiffersFrom o prev)|]; intros [= <-]; auto.
Qed.

(** ** Agreement with the source *)

Lemma fsub_self x : fsub x x = S754_nan \/ fsub x x = S754_zero false \/ fsub x x = S754_zero true.
Proof.
  destruct x as [[]|[]| |s m e]; try (cbn; tauto). rewrite fsub_finite, Z.sub_diag. cbn. auto.
Qed.

Lemma floatDiffers_self v eps : nonneg eps -> floatDiffers v v eps = false.
Proof.
  intros He. destruct v as [x|]; [|reflexivity]. cbn. apply nonneg_shape in He.
  destruct (fsub_self x) as [-> | [-> | ->]]; destruct He as [->|[[s ->]|(m & e & ->)]]; reflexivity.
Qed.

(** The measured values of a row. *)
Definition values (o : Observation) : list (option float64) :=
  [o_TemperatureC o; o_PrecipitationMM o; o_HumidityPct o; o_WindSpeedMS o; o_WindDirectionDeg o; o_PressureHPa o].

Lemma DiffersFrom_values o o' p : values o = values o' -> DiffersFrom o p = DiffersFrom o' p.
Proof. unfold values, DiffersFrom. now intros [= -> -> -> -> -> ->]. Qed.

Lemma DiffersFrom_same o p : values o = values p -> DiffersFrom o p = false.
Proof.
  unfold values, DiffersFrom. intros [= -> -> -> -> -> ->]. now rewrite !floatDiffers_self by (vm_compute; reflexivity).
Qed.

Lemma NoDup_omap_key {A B K} (h : A -> K) (k : B -> K) (g : A -> option B) l :
  (forall x y, g x = Some y -> k y = h x) -> NoDup (h <$> l) -> NoDup (k <$> omap g l).
Proof.
  intros Hg. induction l as [|x l IH]; cbn; [auto|]. rewrite NoDup_cons. intros [Hx Hl].
  destruct (g x) as [y|] eqn:E; [|auto]. cbn. rewrite NoDup_cons. split; [|auto]. rewrite (Hg x y E).
  intros (y' & Ey & (x' & Hx' & E')%list_elem_of_omap)%list_elem_of_fmap. apply Hx. rewrite Ey, (Hg x' y' E').
  now apply list_elem_of_fmap_2.
Qed.

(** Supersessions of distinct live rows are all accepted. *)
Lemma sups_accepted cs rows :
  NoDup (old <$> cs) -> (forall c, c ∈ cs -> exists o, o ∈ rows /\ is_live o = true /\ pk o = old c) ->
  sups cs rows = Some (mark cs <$> rows).
Proof.
  revert rows. induction cs as [|c cs IH]; intros rows N Hc; [cbn; now rewrite list_fmap_id|]. cbn [sups].
  rewrite fmap_cons, NoDup_cons in N. destruct N as [N1 N2].
  replace (existsb _ rows) with true.
  2:{ symmetry. apply existsb_exists. destruct (Hc c) as (o & Ho & L & P); [left|]. exists o. split; [now apply list_elem_of_In|].
      now apply target_spec. }
  rewrite IH; [now rewrite <- list_fmap_compose|assumption|]. intros x Hx. destruct (Hc x) as (o & Ho & L & P); [now right|].
  exists (mark1 c o). split; [now apply list_elem_of_fmap_2|]. rewrite mark1_live, (proj1 (mark1_fields c o)).
  split; [|assumption]. split; [assumption|]. rewrite P. intros E. apply N1. rewrite <- E. now apply list_elem_of_fmap_2.
Qed.

Definition fresh_row (o : Observation) : Observation := set_superseded o None.

(** Rows whose key has no live row and whose primary key is new are all inserted. *)
Lemma inserts_accepted new rows :
  NoDup (obs_key <$> new) -> NoDup (pk <$> new) ->
  (forall o, o ∈ new -> pk o ∉ pk <$> rows /\ obs_key o ∉ obs_key <$> live_rows rows) ->
  insert_observations rows new = Some (rows ++ (fresh_row <$> new)).
Proof.
  unfold insert_observations. revert rows. induction new as [|o new IH]; intros rows Nk Np Hn; cbn [foldl].
  { cbn. now rewrite app_nil_r. }
  rewrite fmap_cons, NoDup_cons in Nk. rewrite fmap_cons, NoDup_cons in Np. destruct Nk as [K1 K2], Np as [P1 P2], (Hn o) as [Po Ko]; [left|].
  cbn [mbind option_bind]. unfold insert_observation at 2.
  replace (existsb (fun x => is_live x && _) rows) with false.
  2:{ symmetry. apply not_true_is_false. intros (x & Hx & B)%existsb_exists.
      apply andb_true_iff in B as [L E%bool_decide_eq_true]. apply Ko. rewrite <- E.
      apply list_elem_of_fmap_2, live_rows_elem. split; [now apply list_elem_of_In|assumption]. }
  replace (existsb (fun x => bool_decide (o_ID x = o_ID o) && _) rows) with false.
  2:{ symmetry. apply not_true_is_false. intros (x & Hx & B)%existsb_exists.
      apply andb_true_iff in B as [E1%bool_decide_eq_true E2%Z.eqb_eq]. apply Po, list_elem_of_fmap. exists x.
      split; [unfold pk; congruence|now apply list_elem_of_In]. }
  rewrite IH; [cbn; now rewrite <- app_assoc|assumption|assumption|]. intros x Hx. destruct (Hn x) as [Px Kx]; [now right|].
  rewrite live_rows_app, !fmap_app, !elem_of_app. split; intros [E|E].
  - now apply Px.
  - cbn in E. apply list_elem_of_singleton in E. apply P1. change (pk (set_superseded o None)) with (pk o) in E.
    rewrite <- E. now apply list_elem_of_fmap_2.
  - now apply Kx.
  - cbn in E. apply list_elem_of_singleton in E. apply K1. change (obs_key (set_superseded o None)) with (obs_key o) in E.
    rewrite <- E. now apply list_elem_of_fmap_2.
Qed.

(** ** One transaction *)

Section Transaction.
Context `{Env} `{ObservationSource} (locationID : uuid) (windowStart windowEnd : Time) (obs : list Observation).
Context (Hsrc : Forall (fun o => o_Source o = Source /\ o_LocationID o = locationID) obs).

Definition existing (rows : list Observation) : list Observation :=
  List.filter (fun o => String.eqb (o_Source o) Source && N.eqb (o_LocationID o) locationID
                        && (windowStart <=? o_ObservedAt o) && (o_ObservedAt o <=? windowEnd) && is_live o) rows.

Lemma existing_elem rows o :
  o ∈ existing rows <-> o ∈ rows /\ is_live o = true /\ o_Source o = Source /\ o_LocationID o = locationID /\
                        windowStart <= o_ObservedAt o <= windowEnd.
Proof.
  unfold existing. rewrite !list_elem_of_In, List.filter_In, !andb_true_iff, String.eqb_eq, N.eqb_eq, !Z.leb_le. intuition.
Qed.

Abbreviation byHour rows := (by_hour (existing rows)).

(** What the transaction does to the rows, if its statements are accepted. *)
Definition observe_rows (rows : list Observation) : option (list Observation) :=
  rows1 ← sups (omap (corrections_of (byHour rows)) obs) rows;
  insert_observations rows1 (omap (planned (byHour rows)) obs).

(** A correction supersedes the live row of its hour. *)
Lemma correction_row rows c :
  obs_inv rows -> c ∈ omap (corrections_of (byHour rows)) obs ->
  exists prev o, c = correction_of prev o /\ o ∈ obs /\ prev ∈ rows /\ is_live prev = true /\
    byHour rows !! o_ObservedAt o = Some prev /\ planned (byHour rows) o = Some (set_flag o QualityCorrected) /\
    obs_key prev = obs_key o.
Proof.
  intros I. rewrite list_elem_of_omap. intros (o & Ho & Ec). unfold corrections_of in Ec. unfold planned.
  destruct (byHour rows !! o_ObservedAt o) as [prev|] eqn:Em; [|discriminate].
  destruct (DiffersFrom o prev) eqn:D; [|discriminate]. injection Ec as <-.
  destruct (by_hour_spec _ _ _ Em) as [Hp%existing_elem Eh]. destruct Hp as (Hp & L & S1 & S2 & _).
  destruct (proj1 (Forall_forall _ _) Hsrc o Ho) as [E1 E2].
  exists prev, o. repeat split; auto; [now rewrite Em, D|]. unfold obs_key. congruence.
Qed.

(** The planned rows of an hour that has a live row. *)
Lemma planned_row rows x prev :
  x ∈ omap (planned (byHour rows)) obs -> byHour rows !! o_ObservedAt x = Some prev ->
  correction_of prev x ∈ omap (corrections_of (byHour rows)) obs.
Proof.
  rewrite !list_elem_of_omap. intros (o & Ho & Ep) Em. destruct (planned_fields _ _ _ Ep) as [_ [= Ei Et]].
  exists o. split; [assumption|]. unfold planned in Ep. unfold corrections_of. rewrite <- Et, Em in *.
  destruct (DiffersFrom o prev); [|discriminate]. unfold correction_of. now rewrite Ei, Et.
Qed.

Lemma marked_pk cs rows : NoDup (pk <$> rows) -> NoDup (pk <$> (mark cs <$> rows)).
Proof.
  intros N. rewrite <- list_fmap_compose, (list_fmap_ext (pk ∘ mark cs) pk rows); [assumption|].
  intros _ o _. apply mark_fields.
Qed.

Lemma marked_live cs rows o :
  o ∈ live_rows (mark cs <$> rows) -> exists o0, o = mark cs o0 /\ o0 ∈ live_rows rows /\ pk o0 ∉ old <$> cs.
Proof.
  intros [(o0 & -> & Ho0)%list_elem_of_fmap L]%live_rows_elem. apply mark_live in L as [L Po].
  exists o0. rewrite live_rows_elem. auto.
Qed.

Lemma marked_live_keys cs rows : NoDup (obs_key <$> live_rows rows) -> NoDup (obs_key <$> live_rows (mark cs <$> rows)).
Proof.
  induction rows as [|o rows IH]; [intros; constructor|]. rewrite fmap_cons. unfold live_rows at 1. cbn [List.filter].
  fold (live_rows rows). intros Nl. unfold live_rows. cbn [List.filter]. fold (live_rows (mark cs <$> rows)).
  destruct (is_live (mark cs o)) eqn:Lc.
  - apply mark_live in Lc as [Lo _]. rewrite Lo in Nl. rewrite fmap_cons, NoDup_cons in *. destruct Nl as [N1 N2].
    split; [|now apply IH]. rewrite (proj2 (mark_fields cs o)). intros (x & Ex & Hx)%list_elem_of_fmap. apply N1. rewrite Ex.
    apply marked_live in Hx as (y & -> & Hy & _). rewrite (proj2 (mark_fields cs y)). now apply list_elem_of_fmap_2.
  - apply IH. destruct (is_live o); [|assumption]. rewrite fmap_cons, NoDup_cons in Nl. tauto.
Qed.

(** The replacement of a corrected row is stored: no live row of its hour remains,
    and no other planned row shares the hour. *)
Lemma replacement_stored rows added c :
  let cs := omap (corrections_of (byHour rows)) obs in
  let ins := omap (planned (byHour rows)) obs in
  obs_inv rows -> NoDup (old <$> cs) -> added ⊆ ((fun o => set_superseded o None) <$> ins) ->
  (forall o, o ∈ ins -> obs_key o ∈ obs_key <$> live_rows ((mark cs <$> rows) ++ added)) ->
  c ∈ cs -> exists n, n ∈ added /\ o_ID n = newID c /\
    forall o, o ∈ rows -> pk o = old c -> obs_key n = obs_key o.
Proof.
  intros cs ins I Nc Hadd Kin Hc. destruct (correction_row rows c I Hc) as (prev & o & -> & Hobs & Hprev & Lp & Em & Ep & Kp).
  assert (Hin : set_flag o QualityCorrected ∈ ins) by (apply list_elem_of_omap; eauto).
  destruct (proj1 (list_elem_of_fmap _ _ _) (Kin _ Hin)) as (x & Kx & Hx).
  change (obs_key (set_flag o QualityCorrected)) with (obs_key o) in Kx.
  rewrite live_rows_app, elem_of_app in Hx. destruct Hx as [Hx|Hx].
  - destruct (marked_live cs rows x Hx) as (y & -> & Hy & Ny). exfalso. rewrite (proj2 (mark_fields cs y)) in Kx.
    assert (y = prev) as ->.
    { apply (NoDup_key_unique obs_key (live_rows rows)); [apply I|assumption| |congruence]. now apply live_rows_elem. }
    apply Ny. apply list_elem_of_fmap. now exists (correction_of prev o).
  - apply live_rows_elem in Hx as [Hx _]. exists x. split; [assumption|]. split.
    + apply Hadd, list_elem_of_fmap in Hx as (z & -> & Hz). cbn.
      assert (Ezh : o_ObservedAt z = o_ObservedAt o) by (injection Kx; auto).
      pose proof (planned_row rows z prev Hz ltac:(now rewrite Ezh)) as Hcz.
      pose proof (NoDup_key_unique old cs (correction_of prev z) (correction_of prev o) Nc Hcz Hc eq_refl) as E.
      injection E. auto.
    + intros o0 Ho0 P. assert (o0 = prev) as ->; [|congruence].
      now apply (NoDup_key_unique pk rows); [apply I|..].
Qed.

Lemma observe_rows_inv rows rows' :
  obs_inv rows -> observe_rows rows = Some rows' ->
  obs_inv rows' /\ obs_history rows rows' /\
  (forall x, x ∈ omap (planned (byHour rows)) obs -> obs_key x ∈ obs_key <$> live_rows rows').
Proof.
  intros I. unfold observe_rows. cbn [mbind option_bind]. set (cs := omap (corrections_of _) obs).
  destruct (sups cs rows) as [rows1|] eqn:Es; [|discriminate]. apply sups_spec in Es as (-> & Nc & _).
  intros Ei. pose proof I as [Np Nl Nx].
  destruct (insert_observations_spec _ _ rows' (marked_pk cs rows Np) (marked_live_keys cs rows Nl) Ei)
    as (added & -> & Hadd & Np2 & Nl2 & Kin).
  split; [constructor; auto|split; [|assumption]].
  - intros o i [(o0 & -> & Ho0)%list_elem_of_fmap|Ho]%elem_of_app En.
    2:{ apply Hadd, list_elem_of_fmap in Ho as (x & -> & _). discriminate. }
    rewrite (proj2 (mark_fields cs o0)). apply mark_next in En as [En|(L & c & Hc & Eo & Ec)].
    + destruct (Nx o0 i Ho0 En) as (n & Hn & Ei' & Kn). exists (mark cs n). destruct (mark_fields cs n) as [[= Fi _] ->].
      rewrite Fi, elem_of_app. split; [left; now apply list_elem_of_fmap_2|auto].
    + destruct (replacement_stored rows added c I Nc Hadd Kin Hc) as (n & Hn & En & Kn).
      exists n. rewrite elem_of_app, En, (Kn o0 Ho0); auto.
  - exists (mark cs <$> rows), added. split; [reflexivity|]. apply Forall2_fmap_r, Forall_Forall2_diag, Forall_forall.
    intros o _. apply mark_kept.
Qed.

(** ** A batch the table accepts *)

Record good_batch (rows : list Observation) : Prop := {
  gb_hours : NoDup (o_ObservedAt <$> obs);
  gb_window : Forall (fun o => windowStart <= o_ObservedAt o <= windowEnd) obs;
  gb_checks : Forall (fun o => observation_check o = true) obs;
  gb_fresh : forall o, o ∈ obs -> pk o ∉ pk <$> rows;
}.

Abbreviation corrs rows := (omap (corrections_of (byHour rows)) obs).
Abbreviation inserts rows := (omap (planned (byHour rows)) obs).

Lemma corrections_hour rows o c : corrections_of (byHour rows) o = Some c -> snd (old c) = o_ObservedAt o.
Proof.
  unfold corrections_of. destruct (_ !! _) as [prev|] eqn:E; [|discriminate]. destruct (DiffersFrom o prev); [|discriminate].
  intros [= <-]. cbn. now apply by_hour_spec in E.
Qed.

(** The live row of a fetched hour is the one the plan compares with. *)
Lemma live_found rows o y :
  obs_inv rows -> Forall (fun o => windowStart <= o_ObservedAt o <= windowEnd) obs -> o ∈ obs -> y ∈ live_rows rows -> obs_key y = obs_key o ->
  byHour rows !! o_ObservedAt o = Some y.
Proof.
  intros I G Ho Hy K. pose proof (proj1 (live_rows_elem _ _) Hy) as [Hr L].
  destruct (proj1 (Forall_forall _ _) Hsrc o Ho) as [S1 S2]. pose proof (proj1 (Forall_forall _ _) G o Ho) as Hw.
  injection K as K1 K2 K3. cbn beta in Hw.
  assert (He : y ∈ existing rows) by (apply existing_elem; repeat split; auto; try congruence; rewrite K3; apply Hw).
  destruct (by_hour_some _ _ He) as [z Ez]. rewrite K3 in Ez. rewrite Ez. f_equal.
  destruct (by_hour_spec _ _ _ Ez) as [Hz Tz]. apply existing_elem in Hz as (Hz & Lz & Sz & Sl & _).
  apply (NoDup_key_unique obs_key (live_rows rows)); [apply I|now apply live_rows_elem|assumption|]. unfold obs_key. congruence.
Qed.

Lemma observe_accepted rows :
  obs_inv rows -> good_batch rows ->
  sups (corrs rows) rows = Some (mark (corrs rows) <$> rows) /\
  insert_observations (mark (corrs rows) <$> rows) (inserts rows)
    = Some ((mark (corrs rows) <$> rows) ++ (fresh_row <$> inserts rows)).
Proof.
  intros I G. split.
  - apply sups_accepted.
    + apply (NoDup_fmap_1 snd). rewrite <- list_fmap_compose.
      apply (NoDup_omap_key o_ObservedAt _ (corrections_of (byHour rows)) obs); [intros x y; apply corrections_hour|apply G].
    + intros c Hc. destruct (correction_row rows c I Hc) as (prev & o & -> & _ & Hp & L & _). now exists prev.
  - assert (Hh : NoDup (o_ObservedAt <$> inserts rows)).
    { apply (NoDup_omap_key o_ObservedAt _ (planned (byHour rows)) obs); [|apply G].
      intros x y E. now apply planned_fields in E as [_ [= _ ->]]. }
    apply inserts_accepted.
    + apply (NoDup_fmap_1 snd). rewrite <- list_fmap_compose. exact Hh.
    + apply (NoDup_fmap_1 snd). rewrite <- list_fmap_compose. exact Hh.
    + intros x (o & Ho & Ex)%list_elem_of_omap. destruct (planned_fields _ _ _ Ex) as [Kx Px]. rewrite Kx, Px. split.
      * intros (r & Er & (r0 & -> & Hr0)%list_elem_of_fmap)%list_elem_of_fmap. rewrite (proj1 (mark_fields _ r0)) in Er.
        apply (gb_fresh _ G o Ho). rewrite Er. now apply list_elem_of_fmap_2.
      * intros (r & Er & (y & -> & Hy & Ny)%marked_live)%list_elem_of_fmap. rewrite (proj2 (mark_fields _ y)) in Er.
        pose proof (live_found rows o y I (gb_window _ G) Ho Hy (eq_sym Er)) as Em. apply Ny.
        unfold planned in Ex. rewrite Em in Ex. destruct (DiffersFrom o y) eqn:D; [|discriminate].
        apply list_elem_of_fmap. exists (correction_of y o). split; [reflexivity|]. apply list_elem_of_omap. exists o.
        split; [assumption|]. unfold corrections_of. now rewrite Em, D.
Qed.

(** The live row of every fetched hour agrees with the fetched values. *)
Lemma observe_agrees rows o :
  obs_inv rows -> good_batch rows -> o ∈ obs ->
  exists n, n ∈ live_rows ((mark (corrs rows) <$> rows) ++ (fresh_row <$> inserts rows)) /\
    obs_key n = obs_key o /\ DiffersFrom o n = false.
Proof.
  intros I G Ho. destruct (planned (byHour rows) o) as [x|] eqn:Ex.
  - exists (fresh_row x). rewrite live_rows_app, elem_of_app. destruct (planned_fields _ _ _ Ex) as [Kx _]. split; [right|].
    + apply live_rows_elem. split; [|reflexivity]. apply list_elem_of_fmap_2, list_elem_of_omap. eauto.
    + split; [exact Kx|]. apply DiffersFrom_same. unfold planned in Ex.
      destruct (_ !! _) as [prev|]; [destruct (DiffersFrom o prev); [|discriminate]|]; now injection Ex as <-.
  - unfold planned in Ex. destruct (byHour rows !! o_ObservedAt o) as [prev|] eqn:Em; [|discriminate].
    destruct (DiffersFrom o prev) eqn:D; [discriminate|]. destruct (by_hour_spec _ _ _ Em) as [Hp Tp].
    apply existing_elem in Hp as (Hp & L & S1 & S2 & _). destruct (proj1 (Forall_forall _ _) Hsrc o Ho) as [E1 E2].
    assert (Np : pk prev ∉ old <$> corrs rows).
    { intros (c & Ec & (o' & Ho' & Eo')%list_elem_of_omap)%list_elem_of_fmap.
      assert (Th : o_ObservedAt o' = o_ObservedAt o) by (rewrite <- (corrections_hour _ _ _ Eo'), <- Ec; exact Tp).
      pose proof (NoDup_key_unique o_ObservedAt obs o' o (gb_hours _ G) Ho' Ho Th) as ->.
      unfold corrections_of in Eo'. rewrite Em, D in Eo'. discriminate. }
    exists (mark (corrs rows) prev). rewrite live_rows_app, elem_of_app. split; [left|].
    + apply live_rows_elem. split; [now apply list_elem_of_fmap_2|now apply mark_live].
    + rewrite (proj2 (mark_fields _ prev)). split; [unfold obs_key; congruence|].
      destruct (mark_kept (corrs rows) prev) as [->|(_ & i & ->)]; exact D.
Qed.

Lemma months_cover l o : o ∈ l -> month_of (o_ObservedAt o) ∈ observationMonthStarts l.
Proof.
  unfold observationMonthStarts. induction l as [|x l IH] using rev_ind; [now intros ?%not_elem_of_nil|].
  rewrite foldl_app. cbn. rewrite elem_of_app, list_elem_of_singleton. intros [Ho| ->]; case_bool_decide; auto;
    rewrite elem_of_app, ?list_elem_of_singleton; auto.
Qed.

(** ** The transaction as a program *)

Lemma hoare_partitions rows ms :
  hoare (fun d => ob_rows d = rows) (EnsureObsPartitions ms) (fun _ d => ob_rows d = rows) (fun _ => True).
Proof.
  eapply (hoare_err _ _ _ (fun d => ob_rows d = rows)); [easy|]. apply (hoare_preserves (fun d => ob_rows d = rows)).
  apply preserves_iterM. intros m. apply preserves_dbcall. intros d Hd. cbn. now destruct (bool_decide _).
Qed.

Lemma hoare_Supersede cs rows :
  hoare (fun d => ob_rows d = rows) (iterM Supersede cs) (fun _ d => sups cs rows = Some (ob_rows d)) (fun _ => True).
Proof.
  revert rows. induction cs as [|c cs IH]; intros rows; [apply hoare_ret; cbn; now intros d ->|].
  cbn [sups]. change (iterM Supersede (c :: cs)) with (Supersede c ;;; iterM Supersede cs).
  eapply (hoare_bind _ _ (fun _ d => existsb (supersede_target (oldID c) (oldObservedAt c)) rows = true /\ ob_rows d = mark1 c <$> rows)).
  - eapply hoare_err; [|apply hoare_dbexec]; [easy|]. intros d d' a Hd. unfold pg_SupersedeObservation. rewrite Hd.
    destruct (existsb _ rows); [|discriminate]. now intros [= <- <-].
  - intros u w [E Hw]. rewrite E. now apply IH.
Qed.

Lemma hoare_InsertObservations rows new :
  hoare (fun d => ob_rows d = rows) (InsertObservations new) (fun _ d => insert_observations rows new = Some (ob_rows d)) (fun _ => True).
Proof.
  unfold InsertObservations. destruct new as [|o new]; [apply hoare_ret; now intros d ->|].
  eapply hoare_err; [|apply hoare_dbexec]; [easy|]. intros d d' a Hd. unfold pg_InsertObservations. rewrite Hd.
  destruct (forallb _ _); [|discriminate]. cbn [mbind option_bind].
  destruct (insert_observations rows (o :: new)) as [rows'|]; [|discriminate]. now intros [= <- <-].
Qed.

Lemma hoare_observeTx rows :
  hoare (fun d => ob_rows d = rows) (observeTx locationID windowStart windowEnd obs)
    (fun _ d => observe_rows rows = Some (ob_rows d)) (fun _ => True).
Proof.
  unfold observeTx. eapply hoare_bind; [apply hoare_partitions|]. intros u.
  eapply (hoare_bind _ _ (fun ex d => ob_rows d = rows /\ ex = existing rows)).
  { eapply hoare_weaken; [| | |apply (hoare_query _ _ (fun d => ob_rows d = rows))]; [auto| |easy]. intros ex d [Hd ->]. split; [assumption|].
    unfold pg_ListCurrentByWindow. now rewrite Hd. }
  intros ex w [Hw ->]. revert w Hw. change (hoare (fun d => ob_rows d = rows)
    (let '(toInsert, corrections) := plan (byHour rows) obs in
     iterM Supersede corrections ;;; n <-- InsertObservations toInsert ;; ret (n, corrections))
    (fun _ d => observe_rows rows = Some (ob_rows d)) (fun _ => True)). rewrite plan_omap.
  eapply hoare_bind; [apply hoare_Supersede|]. intros u'. eapply (hoare_bind _ _ (fun _ d => observe_rows rows = Some (ob_rows d))).
  - intros w Hw. pose proof (hoare_InsertObservations (ob_rows (db w)) (omap (planned (byHour rows)) obs) w eq_refl) as Hi.
    destruct (InsertObservations _ w) as [w' [n|e]]; [|exact I]. unfold observe_rows. now rewrite Hw.
  - intros n. apply hoare_ret. auto.
Qed.

(** Without faults the transaction commits the planned rows. *)
Section Healthy_tx.
Context `{!Healthy} (k : nat).

Lemma total_partitions rows :
  total k (fun d => ob_rows d = rows) (EnsureObsPartitions (observationMonthStarts obs))
    (fun _ d => ob_rows d = rows /\ forall o, o ∈ obs -> month_of (o_ObservedAt o) ∈ ob_partitions d).
Proof.
  eapply (total_weaken k (fun d => ob_rows d = rows /\ forall o, o ∈ obs ->
    month_of (o_ObservedAt o) ∈ ob_partitions d \/ month_of (o_ObservedAt o) ∈ observationMonthStarts obs)).
  - intros d Hd. split; [assumption|]. intros o Ho. right. now apply months_cover.
  - intros u d X. exact X.
  - eapply total_weaken; [| |apply (total_iterM k (fun l d => ob_rows d = rows /\ forall o, o ∈ obs ->
      month_of (o_ObservedAt o) ∈ ob_partitions d \/ month_of (o_ObservedAt o) ∈ l))].
    + auto.
    + cbn. intros _ d [Hd X]. split; [assumption|]. intros o [?|?%not_elem_of_nil]%X; easy.
    + intros x l. apply total_dbcall. intros d [Hd X]. cbn. case_bool_decide as B; cbn; split; auto; intros o Ho;
        specialize (X o Ho); rewrite elem_of_cons in X; rewrite ?elem_of_app, ?list_elem_of_singleton; naive_solver.
Qed.

Lemma total_Supersede cs rows rows1 (R : ObsTables -> Prop) :
  (forall d rs, R d -> R (with_rows d rs)) -> sups cs rows = Some rows1 ->
  total k (fun d => ob_rows d = rows /\ R d) (iterM Supersede cs) (fun _ d => ob_rows d = rows1 /\ R d).
Proof.
  intros HR. revert rows. induction cs as [|c cs IH]; intros rows; cbn [sups]; [intros [= <-]; now apply total_ret|].
  destruct (existsb _ rows) eqn:T; [|discriminate]. intros Es.
  change (iterM Supersede (c :: cs)) with (Supersede c ;;; iterM Supersede cs).
  eapply total_bind; [|intros u; exact (IH _ Es)]. apply total_dbexec. intros d [Hd Rd]. unfold pg_SupersedeObservation.
  rewrite Hd, T. eexists _, _. split; [reflexivity|]. split; [reflexivity|auto].
Qed.

Lemma total_observeTx rows :
  obs_inv rows -> good_batch rows ->
  total k (fun d => ob_rows d = rows) (observeTx locationID windowStart windowEnd obs)
    (fun res d => res = (Z.of_nat (length (inserts rows)), corrs rows) /\
       ob_rows d = (mark (corrs rows) <$> rows) ++ (fresh_row <$> inserts rows)).
Proof.
  intros I G. destruct (observe_accepted rows I G) as [Es Ei]. unfold observeTx.
  eapply total_bind; [apply total_partitions|]. intros u.
  eapply (total_bind k _ _ (fun ex d => ex = existing rows /\ ob_rows d = rows /\
    forall o, o ∈ obs -> month_of (o_ObservedAt o) ∈ ob_partitions d)).
  { eapply total_weaken; [| |apply total_query]; [intros d X; exact X|]. intros ex d [[Hd X] ->]. split; [|auto].
    unfold pg_ListCurrentByWindow. now rewrite Hd. }
  intros ex. apply total_pure. intros ->. rewrite plan_omap.
  eapply total_bind; [eapply total_Supersede; [|exact Es]; auto|]. intros u'.
  eapply (total_bind k _ _ (fun n d => n = Z.of_nat (length (inserts rows)) /\
    ob_rows d = (mark (corrs rows) <$> rows) ++ (fresh_row <$> inserts rows))).
  2:{ intros n. apply total_ret. now intros d [-> ->]. }
  unfold InsertObservations. destruct (inserts rows) as [|x xs] eqn:Exs.
  { apply total_ret. intros d [Hd _]. cbn. now rewrite Hd, app_nil_r. }
  apply total_dbexec. intros d [Hd X]. unfold pg_InsertObservations. rewrite Hd.
  replace (forallb _ _) with true.
  - rewrite Ei. cbn [mbind option_bind]. eexists _, _. split; [reflexivity|]. split; [|reflexivity].
    rewrite length_app, !length_fmap. lia.
  - symmetry. apply forallb_forall. intros y Hy%list_elem_of_In. rewrite <- Exs in Hy.
    apply list_elem_of_omap in Hy as (o & Ho & Ey). destruct (planned_fields _ _ _ Ey) as [_ [= _ Th]].
    rewrite Th, andb_true_iff, bool_decide_eq_true. split; [|auto].
    pose proof (proj1 (Forall_forall _ _) (gb_checks _ G) o Ho) as Ck. cbn beta in Ck. unfold planned in Ey.
    destruct (_ !! _) as [prev|]; [destruct (DiffersFrom o prev); [|discriminate]|]; injection Ey as <-; [|exact Ck].
    unfold observation_check, QualityCorrected in *. cbn. rewrite !andb_true_iff in *. naive_solver.
Qed.

(** Fetched rows that agree with the live rows change nothing. *)
Lemma total_rerun rows :
  obs_inv rows -> Forall (fun o => windowStart <= o_ObservedAt o <= windowEnd) obs ->
  (forall o, o ∈ obs -> exists n, n ∈ live_rows rows /\ obs_key n = obs_key o /\ DiffersFrom o n = false) ->
  total k (fun d => ob_rows d = rows) (observeTx locationID windowStart windowEnd obs)
    (fun res d => res = (0, []) /\ ob_rows d = rows).
Proof.
  intros I W A.
  assert (E : inserts rows = [] /\ corrs rows = []).
  { split; apply elem_of_nil_inv; intros x (o & Ho & E)%list_elem_of_omap; destruct (A o Ho) as (n & Hn & K & D);
      unfold planned, corrections_of in E; rewrite (live_found rows o n I W Ho Hn K), D in E; discriminate. }
  destruct E as [Ei Ec]. unfold observeTx.
  eapply total_bind; [apply total_partitions|]. intros u.
  eapply (total_bind k _ _ (fun ex d => ex = existing rows /\ ob_rows d = rows)).
  { eapply total_weaken; [| |apply total_query]; [intros d X; exact X|]. intros ex d [[Hd X] ->]. split; [|auto].
    unfold pg_ListCurrentByWindow. now rewrite Hd. }
  intros ex. apply total_pure. intros ->. rewrite plan_omap, Ei, Ec. cbn.
  eapply (total_bind k _ _ (fun _ d => ob_rows d = rows)); [now apply total_ret|]. intros u'.
  eapply (total_bind k _ _ (fun n d => n = 0 /\ ob_rows d = rows)); [now apply total_ret|].
  intros n. apply total_ret. now intros d [-> ->].
Qed.
End Healthy_tx.
End Transaction.

(** ** The whole workflow *)

(** What the port promises: the rows of a result carry the source and the location
    they were asked for. *)
Definition source_promise `{ObservationSource} : Prop :=
  forall req r, FetchObservations req = Ok r ->
    Forall (fun o => o_Source o = Source /\ o_LocationID o = or_LocationID req) (Observations r).

#[export] Instance obs_history_refl : Reflexive obs_history.
Proof.
  intros rows. exists rows, []. rewrite app_nil_r. split; [reflexivity|]. apply Forall_Forall2_diag, Forall_forall.
  intros o _. now left.
Qed.

Section Run.
Context `{Env} `{ObservationSource}.

(** The steps after the transaction touch no row. *)
Lemma preserves_publish_obs rows e : preserves (fun d => ob_rows d = rows) (PublishObs e).
Proof. apply preserves_local. auto. Qed.

Lemma publish_rows rows loc stored cs :
  preserves (fun d => ob_rows d = rows)
    (PublishObs (ObservationCollected loc Source stored) ;;;
     iterM (fun c => PublishObs (ObservationCorrected loc (c_observedAt c) (oldID c) (newID c))) cs ;;;
     ret (A := CollectError + Z) (inr stored)).
Proof.
  apply preserves_bind; [apply preserves_publish_obs|]. intros _. apply preserves_bind; [|auto with fiq].
  apply preserves_iterM. intros c. apply preserves_publish_obs.
Qed.

Lemma Observe_rows loc ws we w :
  source_promise ->
  ob_rows (db (Observe loc ws we w).1) = ob_rows (db w) \/
  exists obs, Forall (fun o => o_Source o = Source /\ o_LocationID o = l_ID loc) obs /\
    observe_rows (l_ID loc) ws we obs (ob_rows (db w)) = Some (ob_rows (db (Observe loc ws we w).1)).
Proof.
  intros P. unfold Observe. destruct (negb (Active _)); [now left|].
  destruct (FetchObservations _) as [r|e] eqn:Ef; [|now left]. destruct (negb (bool_decide _)); [now left|].
  apply P in Ef. cbn [or_LocationID] in Ef. rewrite bind_run.
  pose proof (hoare_observeTx (l_ID loc) ws we (Observations r) (ob_rows (db w))) as Hx.
  destruct (tx_run _ w) as [w1 [[stored cs]|e]] eqn:Et.
  - right. exists (Observations r). split; [assumption|]. apply tx_run_ok in Et as (w2 & E2 & Ed).
    specialize (Hx (MkWorld (db w) (S (tick w)) (nids w)) eq_refl). rewrite E2 in Hx. rewrite Hx. f_equal. symmetry.
    rewrite <- Ed. now apply (publish_rows (ob_rows (db w1))).
  - left. cbn. now rewrite (tx_run_error _ _ _ _ Et).
Qed.

Definition request (loc : Location) (ws we : Time) : ObservationRequest :=
  MkObsRequest (l_ID loc) Source "" (l_Latitude loc) (l_Longitude loc) (l_Timezone loc) ws we.

(** A fetch that succeeds, with rows of the source, location and window asked for. *)
Record fetched (loc : Location) (ws we : Time) (r : ObservationResult) : Prop := {
  fe_active : Active (l_Status loc) = true;
  fe_fetch : FetchObservations (request loc ws we) = Ok r;
  fe_outcome : ob_Outcome r = OutcomeSuccess;
  fe_source : Forall (fun o => o_Source o = Source /\ o_LocationID o = l_ID loc) (Observations r);
  fe_window : Forall (fun o => ws <= o_ObservedAt o <= we) (Observations r);
}.

Lemma total_Observe `{!Healthy} k loc ws we r rows rows' stored cs :
  fetched loc ws we r ->
  total k (fun d => ob_rows d = rows) (observeTx (l_ID loc) ws we (Observations r)) (fun res d => res = (stored, cs) /\ ob_rows d = rows') ->
  total k (fun d => ob_rows d = rows) (Observe loc ws we) (fun res d => res = inr stored /\ ob_rows d = rows').
Proof.
  intros [Ea Ef Eo _ _] T. unfold Observe. rewrite Ea. cbn [negb]. unfold request in Ef. rewrite Ef, Eo. cbn [negb].
  rewrite bool_decide_true by reflexivity. cbn [negb]. eapply total_bind; [apply total_tx, T|]. intros [st cs'].
  apply total_pure. intros [= -> ->]. eapply (total_bind k _ _ (fun _ d => ob_rows d = rows')); [apply total_local; auto|].
  intros u. eapply (total_bind k _ _ (fun _ d => ob_rows d = rows')).
  - apply (total_iterM k (fun _ d => ob_rows d = rows')). intros x l. apply total_local. auto.
  - intros u'. apply total_ret. auto.
Qed.
End Run.

(** ** Theorems *)

(** C4: whatever statements fail, a run keeps one live row per source, location and
    hour, every superseded row points at a stored row of the same source, location
    and hour, and stored rows keep their values: the only change is that a live row
    becomes superseded, once. *)
Theorem observe_tables_invariant `{Env} `{ObservationSource} loc ws we w :
  source_promise -> obs_inv (ob_rows (db w)) ->
  let rows' := ob_rows (db (Observe loc ws we w).1) in
  obs_inv rows' /\ obs_history (ob_rows (db w)) rows'.
Proof.
  intros P I rows'. unfold rows'. destruct (Observe_rows loc ws we w P) as [->|(obs & Hs & E)]; [split; [assumption|reflexivity]|].
  destruct (observe_rows_inv (l_ID loc) ws we obs Hs _ _ I E) as (I' & Hh & _). auto.
Qed.

(** C15: without faults, a run whose batch the table accepts (distinct hours, new
    ids, values within the CHECKs) stores the rows it planned, and afterwards the
    live row of every fetched hour agrees with the source within the correction
    thresholds; live rows of other hours are untouched. *)
Theorem observe_agrees_with_source `{Healthy} `{ObservationSource} loc ws we r w :
  let rows := ob_rows (db w) in
  fetched loc ws we r -> obs_inv rows -> good_batch ws we (Observations r) rows ->
  exists w' n, Observe loc ws we w = (w', Ok (inr n)) /\
    (forall o, o ∈ Observations r -> exists x, x ∈ live_rows (ob_rows (db w')) /\ obs_key x = obs_key o /\ DiffersFrom o x = false) /\
    (forall x, x ∈ live_rows rows -> obs_key x ∉ obs_key <$> Observations r -> x ∈ live_rows (ob_rows (db w'))).
Proof.
  intros rows F I G. pose proof (fe_source _ _ _ _ F) as Hs.
  destruct (total_Observe (nids w) loc ws we r rows _ _ _ F (total_observeTx _ _ _ _ Hs _ rows I G) w eq_refl (le_n _))
    as (w' & a & E & [-> Hr] & _).
  exists w', (Z.of_nat (length (omap (planned (by_hour (existing (l_ID loc) ws we rows))) (Observations r)))).
  split; [exact E|]. rewrite Hr. split; [intros o Ho; now apply observe_agrees|]. intros x [Hx L]%live_rows_elem K.
  assert (N : pk x ∉ old <$> omap (corrections_of (by_hour (existing (l_ID loc) ws we rows))) (Observations r)).
  { intros (c & Ec & Hc)%list_elem_of_fmap. destruct (correction_row _ _ _ _ Hs rows c I Hc) as (prev & o & -> & Ho & Hp & _ & _ & _ & Kp).
    apply K. rewrite (NoDup_key_unique pk rows x prev (oi_pk _ I) Hx Hp Ec), Kp. now apply list_elem_of_fmap_2. }
  apply live_rows_elem. rewrite elem_of_app. destruct (mark_kept (omap (corrections_of (by_hour (existing (l_ID loc) ws we rows))) (Observations r)) x)
    as [Ek|(_ & i & Ek)].
  - split; [|assumption]. left. rewrite <- Ek at 1. now apply list_elem_of_fmap_2.
  - exfalso. pose proof (proj2 (mark_live _ x) (conj L N)) as X. now rewrite Ek in X.
Qed.

(** Note: a second run that fetches values the live rows already agree with, under
    new ids and whatever flags, stores nothing and leaves every row as it is. *)
Theorem observe_rerun_stores_nothing `{Healthy} `{ObservationSource} loc ws we r w :
  let rows := ob_rows (db w) in
  fetched loc ws we r -> obs_inv rows ->
  (forall o, o ∈ Observations r -> exists x, x ∈ live_rows rows /\ obs_key x = obs_key o /\ DiffersFrom o x = false) ->
  exists w', Observe loc ws we w = (w', Ok (inr 0)) /\ ob_rows (db w') = rows.
Proof.
  intros rows F I A.
  destruct (total_Observe (nids w) loc ws we r rows _ _ _ F
    (total_rerun _ _ _ _ (fe_source _ _ _ _ F) _ rows I (fe_window _ _ _ _ F) A) w eq_refl (le_n _)) as (w' & a & E & [-> Hr] & _).
  eauto.
Qed.

(** Note: a correction is stored live and flagged [corrected] whatever its own
    quality was, so the matching engine takes it as a candidate for its hour, also
    when the range checks of the adapter had flagged the new values suspect. *)
Theorem correction_always_eligible `{Healthy} `{ObservationSource} loc ws we r w o prev :
  let rows := ob_rows (db w) in
  fetched loc ws we r -> obs_inv rows -> good_batch ws we (Observations r) rows ->
  o ∈ Observations r -> prev ∈ live_rows rows -> obs_key prev = obs_key o -> DiffersFrom o prev = true ->
  exists w' n, Observe loc ws we w = (w', Ok (inr n)) /\
    Matching.AnalysisPG.to_candidate (set_flag o QualityCorrected) ∈
      Matching.AnalysisPG.pg_FindCandidates (l_ID loc) (o_ObservedAt o) (Matching.AnalysisPG.MkTables [] (ob_rows (db w')) []).
Proof.
  intros rows F I G Ho Hp K D. pose proof (fe_source _ _ _ _ F) as Hs.
  destruct (total_Observe (nids w) loc ws we r rows _ _ _ F (total_observeTx _ _ _ _ Hs _ rows I G) w eq_refl (le_n _))
    as (w' & a & E & [-> Hr] & _).
  eexists w', _. split; [exact E|]. unfold Matching.AnalysisPG.pg_FindCandidates. cbn [Matching.AnalysisPG.t_observations]. rewrite Hr.
  apply list_elem_of_fmap. exists (fresh_row (set_flag o QualityCorrected)). split; [reflexivity|].
  destruct (proj1 (Forall_forall _ _) Hs o Ho) as [_ El].
  apply list_elem_of_In, filter_In. split.
  - apply list_elem_of_In, elem_of_app. right. apply list_elem_of_fmap_2, list_elem_of_omap. exists o. split; [assumption|].
    unfold planned. now rewrite (live_found _ _ _ _ Hs rows o prev I (fe_window _ _ _ _ F) Ho Hp K), D.
  - cbn. now rewrite El, Z.eqb_refl, bool_decide_true.
Qed.

(** *** A concrete source *)

Definition demo_obs (i : uuid) (h : Time) (t : Z) (flag : string) (loc : uuid) : Observation :=
  MkObservation i loc "metar" ObservationStation (h * Hour) (Some (f64_of_Z t)) None None None None (Some f0) "" "" flag None 0.

Definition demo_location : Location := MkLocation 9 1 "Johor" f1 f1 "MY" "Asia/Kuala_Lumpur" StatusActive 0 0.

(** A suspect reading of 75 degrees is stored; the source then reports 70, and an
    hour more. *)
Definition demo_rows : list Observation := [demo_obs 1 1 75 QualitySuspect 9; demo_obs 2 2 20 QualityValid 9].
Definition demo_batch (loc : uuid) : list Observation :=
  [demo_obs 11 1 70 QualitySuspect loc; demo_obs 12 2 20 QualityValid loc; demo_obs 13 3 21 QualityValid loc].
Definition demo_world (rows : list Observation) : World ObsTables := MkWorld (MkObsTables rows [] []) 0 0.

#[local] Instance demo_source : ObservationSource :=
  {| Source := "metar"; FetchObservations := fun req => Ok (MkObsResult (demo_batch (or_LocationID req)) OutcomeSuccess "") |}.

Lemma demo_rows_inv : obs_inv demo_rows.
Proof.
  constructor.
  - apply (bool_decide_unpack _). vm_compute. exact I.
  - apply (bool_decide_unpack _). vm_compute. exact I.
  - intros o i Ho E. repeat (apply elem_of_cons in Ho as [->|Ho]; [discriminate|]). now apply not_elem_of_nil in Ho.
Qed.

Lemma demo_fetched : fetched demo_location 0 (5 * Hour) (MkObsResult (demo_batch 9) OutcomeSuccess "").
Proof.
  constructor.
  - reflexivity.
  - reflexivity.
  - reflexivity.
  - repeat constructor.
  - apply (bool_decide_unpack _). vm_compute. exact I.
Qed.

Lemma demo_good : good_batch 0 (5 * Hour) (demo_batch 9) demo_rows.
Proof.
  constructor.
  - apply (bool_decide_unpack _). vm_compute. exact I.
  - apply (bool_decide_unpack _). vm_compute. exact I.
  - apply (bool_decide_unpack _). vm_compute. exact I.
  - apply Forall_forall. apply (bool_decide_unpack _). vm_compute. exact I.
Qed.

Lemma observe_tables_invariant_witness :
  obs_inv (ob_rows (db (Observe demo_location 0 (5 * Hour) (demo_world demo_rows)).1)).
Proof.
  refine (proj1 (observe_tables_invariant demo_location 0 (5 * Hour) (demo_world demo_rows) _ _)).
  - intros req r [= <-]. repeat constructor.
  - exact demo_rows_inv.
Defined.

Lemma observe_agrees_with_source_witness :
  exists w' n, Observe demo_location 0 (5 * Hour) (demo_world demo_rows) = (w', Ok (inr n)) /\
    (forall o, o ∈ demo_batch 9 -> exists x, x ∈ live_rows (ob_rows (db w')) /\ obs_key x = obs_key o /\ DiffersFrom o x = false) /\
    (forall x, x ∈ live_rows demo_rows -> obs_key x ∉ obs_key <$> demo_batch 9 -> x ∈ live_rows (ob_rows (db w'))).
Proof.
  exact (observe_agrees_with_source demo_location 0 (5 * Hour) (MkObsResult (demo_batch 9) OutcomeSuccess "") (demo_world demo_rows)
    demo_fetched demo_rows_inv demo_good).
Defined.

(** The tables after that run. *)
Definition demo_after : list Observation :=
  ob_rows (db (Observe demo_location 0 (5 * Hour) (demo_world demo_rows)).1).

Lemma demo_after_inv : obs_inv demo_after.
Proof.
  constructor.
  - apply (bool_decide_unpack _). vm_compute. exact I.
  - apply (bool_decide_unpack _). vm_compute. exact I.
  - assert (X : forallb (fun o => match o_SupersededObservationID o with
        | Some i => existsb (fun n => bool_decide (o_ID n = i) && bool_decide (obs_key n = obs_key o)) demo_after
        | None => true end) demo_after = true) by (vm_compute; reflexivity).
    intros o i Ho%list_elem_of_In Eo. apply (proj1 (forallb_forall _ _) X) in Ho. rewrite Eo in Ho.
    apply existsb_exists in Ho as (n & Hn & [B1%bool_decide_eq_true B2%bool_decide_eq_true]%andb_true_iff).
    exists n. split; [exact (proj2 (list_elem_of_In _ _) Hn)|exact (conj B1 B2)].
Qed.

Lemma observe_rerun_stores_nothing_witness :
  exists w', Observe demo_location 0 (5 * Hour) (demo_world demo_after) = (w', Ok (inr 0)) /\ ob_rows (db w') = demo_after.
Proof.
  refine (observe_rerun_stores_nothing demo_location 0 (5 * Hour) (MkObsResult (demo_batch 9) OutcomeSuccess "") (demo_world demo_after)
    demo_fetched demo_after_inv _).
  change (forall o, o ∈ demo_batch 9 -> exists x, x ∈ live_rows demo_after /\ obs_key x = obs_key o /\ DiffersFrom o x = false).
  assert (X : forallb (fun o => existsb (fun x => bool_decide (obs_key x = obs_key o) && negb (DiffersFrom o x))
    (live_rows demo_after)) (demo_batch 9) = true) by (vm_compute; reflexivity).
  intros o Ho%list_elem_of_In. apply (proj1 (forallb_forall _ _) X) in Ho. apply existsb_exists in Ho as (x & Hx & [B1%bool_decide_eq_true B2%negb_true_iff]%andb_true_iff).
  exists x. split; [exact (proj2 (list_elem_of_In _ _) Hx)|exact (conj B1 B2)].
Defined.

Lemma correction_always_eligible_witness :
  RangeReasons (demo_obs 11 1 70 QualitySuspect 9) = ["temperature_c out of range"] /\
  Matching.AnalysisPG.pg_FindCandidates 9 Hour (Matching.AnalysisPG.MkTables [] demo_rows []) = [] /\
  exists w' n, Observe demo_location 0 (5 * Hour) (demo_world demo_rows) = (w', Ok (inr n)) /\
    Matching.AnalysisPG.to_candidate (demo_obs 11 1 70 QualityCorrected 9) ∈
      Matching.AnalysisPG.pg_FindCandidates 9 Hour (Matching.AnalysisPG.MkTables [] (ob_rows (db w')) []).
Proof.
  split; [vm_compute; reflexivity|]. split; [vm_compute; reflexivity|].
  refine (correction_always_eligible demo_location 0 (5 * Hour) (MkObsResult (demo_batch 9) OutcomeSuccess "") (demo_world demo_rows)
    (demo_obs 11 1 70 QualitySuspect 9) (demo_obs 1 1 75 QualitySuspect 9) demo_fetched demo_rows_inv demo_good _ _ _ _).
  - left.
  - left.
  - reflexivity.
  - vm_compute. reflexivity.
Defined.

End ObserveProps.
