(* ===== verification/Scheduler.v ===== *)
(** * The scheduler ([internal/scheduler], [schedulerpg])

    Slot generation from the active configurations and locations, claiming with
    leases, execution of a claimed slot with its run history and retries, and the
    dispatchers that hand a slot to collection, observation or analysis.  The
    database holds the scheduler's tables and those of the other modules ([Part]).
    A job runs under a context with a deadline: once it has passed, every further
    transaction of the job fails.  Foreign keys, metrics and logs are left out; the
    goroutine pool is the interleaving of [SchedulerProps]. *)

From Stdlib Require Import ZArith Lia Bool String.
From stdpp Require Import base list strings gmap sorting.
From S2P Require Import Prelude GoTime Uuid GoStrings Effects Records Catalog CatalogService Collection Observe.

Import Records Catalog Collection Observe.
Local Open Scope string_scope.
Local Open Scope list_scope.
Local Open Scope Z_scope.

Module Scheduler.

(** ** slot.go *)

Definition JobForecastCollection : string := "forecast_collection".
Definition JobObservationCollection : string := "observation_collection".
Definition JobAnalysisBatch : string := "analysis_batch".

Inductive SlotStatus := SlotDue | SlotClaimed | SlotCompleted | SlotFailed | SlotExpired.
#[export] Instance SlotStatus_eq_dec : EqDecision SlotStatus.
Proof. solve_decision. Defined.

Inductive RunStatus := RunRunning | RunCompleted | RunFailed.

Definition MaxAttempts : Z := 5.

Record Slot := MkSlot {
  sl_ID : uuid;
  sl_ProviderConfigurationID : uuid;
  sl_JobType : string;
  sl_LocationID : option uuid;
  sl_SlotTime : Time;
  sl_Status : SlotStatus;
  sl_ClaimedBy : string;
  sl_ClaimedAt : option Time;
  sl_LeaseExpiresAt : option Time;
  sl_Attempts : Z;
  sl_NextRetryAt : option Time;
  sl_ScheduleRunID : option uuid;
  sl_CreatedAt : Time;
  sl_UpdatedAt : Time
}.

Record Run := MkRun {
  ru_ID : uuid;
  ru_JobType : string;
  ru_SlotID : option uuid;
  ru_StartedAt : Time;
  ru_CompletedAt : option Time;
  ru_Status : RunStatus;
  ru_ErrorCode : string;
  ru_ErrorMessage : string;
  ru_DurationMS : Z;
  ru_RecordsAffected : Z;
  ru_CreatedAt : Time
}.

(** ** schedulerpg *)

Record SchedTables := MkSched { sc_slots : list Slot; sc_runs : list Run }.

Definition with_slots (d : SchedTables) (ss : list Slot) : SchedTables := MkSched ss (sc_runs d).
Definition with_runs (d : SchedTables) (rs : list Run) : SchedTables := MkSched (sc_slots d) rs.

(** [collection_schedules_slot_uidx]: a missing location counts as the nil UUID. *)
Definition slot_key (s : Slot) : uuid * string * uuid * Time :=
  (sl_ProviderConfigurationID s, sl_JobType s,
   match sl_LocationID s with Some l => l | None => uuid_Nil end, sl_SlotTime s).

(** The row of the INSERT: the other columns take their defaults. *)
Definition generated (s : Slot) : Slot :=
  MkSlot (sl_ID s) (sl_ProviderConfigurationID s) (sl_JobType s) (sl_LocationID s) (sl_SlotTime s) (sl_Status s)
    "" None None 0 None None (sl_CreatedAt s) (sl_UpdatedAt s).

(** [ON CONFLICT DO NOTHING] *)
Definition pg_Generate (s : Slot) (slots : list Slot) : list Slot :=
  if existsb (fun x => N.eqb (sl_ID x) (sl_ID s) || bool_decide (slot_key x = slot_key s)) slots then slots
  else slots ++ [generated s].

Definition claimable (now : Time) (s : Slot) : bool :=
  match sl_Status s with
  | SlotDue => (sl_SlotTime s <=? now) && match sl_NextRetryAt s with None => true | Some t => t <=? now end
  | SlotClaimed => match sl_LeaseExpiresAt s with Some t => t <? now | None => false end
  | _ => false
  end.

Definition slot_time_le (a b : Slot) : Prop := sl_SlotTime a <= sl_SlotTime b.
#[export] Instance slot_time_le_dec a b : Decision (slot_time_le a b).
Proof. unfold slot_time_le. apply _. Defined.

(** [ORDER BY slot_time LIMIT $2 FOR UPDATE SKIP LOCKED]: rows locked by another
    transaction are passed over. *)
Definition pg_Claimable (locked : Slot -> bool) (now : Time) (limit : nat) (slots : list Slot) : list uuid :=
  sl_ID <$> take limit (merge_sort slot_time_le (List.filter (fun s => claimable now s && negb (locked s)) slots)).

Definition claim (instanceID : string) (now : Time) (lease : Duration) (s : Slot) : Slot :=
  MkSlot (sl_ID s) (sl_ProviderConfigurationID s) (sl_JobType s) (sl_LocationID s) (sl_SlotTime s) SlotClaimed
    instanceID (Some now) (Some (Add now lease)) (sl_Attempts s) (sl_NextRetryAt s) (sl_ScheduleRunID s)
    (sl_CreatedAt s) (sl_UpdatedAt s).

(** The updated table, and the rows [RETURNING] gives (in table order here). *)
Definition pg_ClaimDue (locked : Slot -> bool) (instanceID : string) (now : Time) (lease : Duration) (limit : nat)
    (slots : list Slot) : list Slot * list Slot :=
  let ids := pg_Claimable locked now limit slots in
  ((fun s => if bool_decide (sl_ID s ∈ ids) then claim instanceID now lease s else s) <$> slots,
   claim instanceID now lease <$> List.filter (fun s => bool_decide (sl_ID s ∈ ids)) slots).

Definition completed (runID : uuid) (s : Slot) : Slot :=
  MkSlot (sl_ID s) (sl_ProviderConfigurationID s) (sl_JobType s) (sl_LocationID s) (sl_SlotTime s) SlotCompleted
    (sl_ClaimedBy s) (sl_ClaimedAt s) (sl_LeaseExpiresAt s) (sl_Attempts s) (sl_NextRetryAt s) (Some runID)
    (sl_CreatedAt s) (sl_UpdatedAt s).

Definition pg_CompleteSlot (slotID runID : uuid) (slots : list Slot) : list Slot :=
  (fun s => if N.eqb (sl_ID s) slotID then completed runID s else s) <$> slots.

Definition failed (runID : uuid) (attempts : Z) (nextRetryAt : option Time) (s : Slot) : Slot :=
  MkSlot (sl_ID s) (sl_ProviderConfigurationID s) (sl_JobType s) (sl_LocationID s) (sl_SlotTime s)
    (match nextRetryAt with Some _ => SlotDue | None => SlotFailed end)
    "" None None attempts nextRetryAt (Some runID) (sl_CreatedAt s) (sl_UpdatedAt s).

Definition pg_FailSlot (slotID runID : uuid) (attempts : Z) (nextRetryAt : option Time) (slots : list Slot) : list Slot :=
  (fun s => if N.eqb (sl_ID s) slotID then failed runID attempts nextRetryAt s else s) <$> slots.

Definition pg_CountClaimable (now : Time) (slots : list Slot) : Z := Z.of_nat (length (List.filter (claimable now) slots)).

(** [INSERT INTO schedule_runs]: a taken id is an error. *)
Definition pg_StartRun (r : Run) (runs : list Run) : option (list Run) :=
  if existsb (fun x => N.eqb (ru_ID x) (ru_ID r)) runs then None
  else Some (runs ++ [MkRun (ru_ID r) (ru_JobType r) (ru_SlotID r) (ru_StartedAt r) None (ru_Status r) "" "" 0 0 (ru_CreatedAt r)]).

(** [dbnow] is the database's clock. *)
Definition pg_FinishRun (runID : uuid) (status : RunStatus) (errorCode errorMessage : string) (durationMS records : Z)
    (dbnow : Time) (runs : list Run) : list Run :=
  (fun r => if N.eqb (ru_ID r) runID
            then MkRun (ru_ID r) (ru_JobType r) (ru_SlotID r) (ru_StartedAt r) (Some dbnow) status errorCode errorMessage
                   durationMS records (ru_CreatedAt r)
            else r) <$> runs.

(** ** scheduler.go: pure parts *)

Record Config := MkConfig {
  cf_InstanceID : string;
  cf_Interval : Duration;
  cf_LeaseDuration : Duration;
  cf_MaxConcurrent : Z;
  cf_ClaimBatch : Z;
  cf_JobTimeout : Duration;
  cf_DrainTimeout : Duration;
  cf_MissedThreshold : Duration;
  cf_ObservationConfigID : uuid;
  cf_ObservationMinuteOffset : Z;
  cf_AnalysisConfigID : uuid;
  cf_AnalysisMinuteOffsets : list Z
}.

Definition positive_or (v def : Z) : Z := if v <=? 0 then def else v.

(** The defaults of [New]; [generatedID] is the random instance id. *)
Definition New (generatedID : string) (c : Config) : Config :=
  let interval := positive_or (cf_Interval c) (15 * Second) in
  MkConfig (if String.eqb (cf_InstanceID c) "" then generatedID else cf_InstanceID c) interval
    (positive_or (cf_LeaseDuration c) (5 * Minute)) (positive_or (cf_MaxConcurrent c) 8) (positive_or (cf_ClaimBatch c) 10)
    (positive_or (cf_JobTimeout c) (60 * Second)) (positive_or (cf_DrainTimeout c) (30 * Second))
    (if cf_MissedThreshold c <=? 0 then (if 2 * interval <? 2 * Minute then 2 * Minute else 2 * interval)
     else cf_MissedThreshold c)
    (cf_ObservationConfigID c) (cf_ObservationMinuteOffset c) (cf_AnalysisConfigID c) (cf_AnalysisMinuteOffsets c).

(** The outer loop of [analysisSlotTimes], an hour per step. *)
Fixpoint analysisLoop (fuel : nat) (h from to : Time) (offsets : list Z) : list Time :=
  match fuel with
  | O => []
  | S fuel =>
      if Before h to
      then List.filter (fun t => negb (Before t from) && Before t to) ((fun off => Add h (off * Minute)) <$> offsets)
             ++ analysisLoop fuel (Add h Hour) from to offsets
      else []
  end.

(** The window's hours, and two for the truncated start and the exit test. *)
Definition analysisSlotTimes (from to : Time) (offsets : list Z) : list Time :=
  let offsets := match offsets with [] => [10; 40] | _ => offsets end in
  analysisLoop (Z.to_nat ((to - from) / Hour + 2)) (Truncate from Hour) from to offsets.

Definition slotLag (now slotTime : Time) : Duration := let d := Sub now slotTime in if 0 <? d then d else 0.

Definition retryBackoff (attempt : Z) : Duration :=
  let attempt := if attempt <? 1 then 1 else attempt in
  let attempt := if 5 <? attempt then 5 else attempt in
  Z.shiftl 1 (attempt - 1) * Second.

(** The errors a dispatcher returns, with their text. *)
Inductive JobError := JobCircuitOpen (text : string) | JobInactive (text : string) | JobOther (text : string).

Definition classifyError (e : JobError) : string :=
  match e with JobCircuitOpen _ => "circuit_open" | JobInactive _ => "inactive" | JobOther _ => "error" end.

Definition error_text (e : JobError) : string :=
  match e with JobCircuitOpen t | JobInactive t | JobOther t => t end.

Definition truncateMsg (s : string) : string :=
  if 500 <? Z.of_nat (String.length s) then String.substring 0 500 s else s.

(** The retry time of a failed attempt. *)
Definition nextRetry (attempts : Z) (now : Time) : option Time :=
  if attempts <? MaxAttempts then Some (Add now (retryBackoff attempts)) else None.

(** What the clocks read during one execution, and whether the job's deadline had
    passed when the dispatcher returned. *)
Record ExecClock := MkExec { x_start : Time; x_done : Time; x_retry : Time; x_db : Time; x_expired : bool }.

Section Service.
Context `{Env} {D : Type} `{Part D SchedTables} `{Part D CatalogService.CatalogTables}.

Definition on_slots {A} (op : string) (f : list Slot -> list Slot * A) : M D A :=
  dbcall op (fun d => let t := part (T := SchedTables) d in
                      let '(ss, a) := f (sc_slots t) in (put (with_slots t ss) d, a)).

Definition on_runs (op : string) (f : list Run -> option (list Run)) : M D unit :=
  dbexec op (fun d => let t := part (T := SchedTables) d in
                      rs ← f (sc_runs t); Some (put (with_runs t rs) d, tt)).

Definition Generate (s : Slot) : M D unit := on_slots "generate slot" (fun ss => (pg_Generate s ss, tt)).
Definition CompleteSlot (slotID runID : uuid) : M D unit :=
  on_slots "complete slot" (fun ss => (pg_CompleteSlot slotID runID ss, tt)).
Definition FailSlot (slotID runID : uuid) (attempts : Z) (next : option Time) : M D unit :=
  on_slots "fail slot" (fun ss => (pg_FailSlot slotID runID attempts next ss, tt)).
Definition StartRun (r : Run) : M D unit := on_runs "start run" (pg_StartRun r).
Definition FinishRun (runID : uuid) (status : RunStatus) (code msg : string) (ms records : Z) (dbnow : Time) : M D unit :=
  on_runs "finish run" (fun rs => Some (pg_FinishRun runID status code msg ms records dbnow rs)).

(** A catalog read; its domain errors become errors here. *)
Definition catalog {A} (m : M CatalogService.CatalogTables (CatalogService.CatalogError + A)) : M D A :=
  r <-- zoom m ;; match r with inr a => ret a | inl _ => throw "catalog" end.

Definition newSlot (configID : uuid) (job : string) (loc : option uuid) (t now : Time) : M D unit :=
  id <-- fresh ;; Generate (MkSlot id configID job loc t SlotDue "" None None 0 None None now now).

Definition generateTx (cfg : Config) (configs : list ProviderConfiguration) (locations : list Location) (now : Time) : M D unit :=
  let from := Add (Truncate now Hour) (- Hour) in
  let to := Add (Truncate now Hour) Hour in
  iterM (fun c => iterM (fun t => iterM (fun l => newSlot (cfg_ID c) JobForecastCollection (Some (l_ID l)) t now) locations)
                    (SlotTimes (cfg_CollectionSchedule c) from to)) configs ;;;
  (if negb (N.eqb (cf_ObservationConfigID cfg) uuid_Nil)
   then iterM (fun t => iterM (fun l => newSlot (cf_ObservationConfigID cfg) JobObservationCollection (Some (l_ID l)) t now) locations)
          (SlotTimes (MkSchedule "hourly" (cf_ObservationMinuteOffset cfg)) from to)
   else ret tt) ;;;
  (if negb (N.eqb (cf_AnalysisConfigID cfg) uuid_Nil)
   then iterM (fun t => newSlot (cf_AnalysisConfigID cfg) JobAnalysisBatch None t now)
          (analysisSlotTimes from to (cf_AnalysisMinuteOffsets cfg))
   else ret tt).

Definition generateSlots (cfg : Config) (now : Time) : M D unit :=
  configs <-- catalog CatalogService.ListActiveConfigurations ;;
  locations <-- catalog CatalogService.ListActiveLocations ;;
  match locations with [] => ret tt | _ => tx_run (generateTx cfg configs locations now) end.

Definition claimDue (locked : Slot -> bool) (cfg : Config) (now : Time) : M D (list Slot) :=
  tx_run (on_slots "claim slots" (pg_ClaimDue locked (cf_InstanceID cfg) now (cf_LeaseDuration cfg) (Z.to_nat (cf_ClaimBatch cfg)))).

(** The number of claimable slots the stall warning reports, if it is given. *)
Definition watchdog (cfg : Config) (lastProgress now : Time) : M D (option Z) :=
  if Sub now lastProgress <? 2 * cf_Interval cfg then ret None else
  r <-- attempt (tx_run (query "count claimable slots" (fun d => pg_CountClaimable now (sc_slots (part d))))) ;;
  match r with
  | Ok n => ret (if 0 <? n then Some n else None)
  | Error _ => ret None
  end.

(** One tick: the slots handed to the pool, and the time of last progress. *)
Definition tick_ (locked : Slot -> bool) (cfg : Config) (lastProgress now : Time) : M D (list Slot * Time) :=
  attempt (generateSlots cfg now) ;;;
  watchdog cfg lastProgress now ;;;
  r <-- attempt (claimDue locked cfg now) ;;
  match r with
  | Error _ => ret ([], lastProgress)
  | Ok [] => ret ([], lastProgress)
  | Ok slots => ret (slots, now)
  end.

(** A transaction under the job's context. *)
Definition ctx_tx {A} (clk : ExecClock) (m : M D A) : M D A :=
  if x_expired clk then throw "context deadline exceeded" else tx_run m.

Definition execute (dispatch : Slot -> M D (JobError + Z)) (clk : ExecClock) (slot : Slot) : M D unit :=
  runID <-- fresh ;;
  started <-- attempt (tx_run (StartRun (MkRun runID (sl_JobType slot) (Some (sl_ID slot)) (x_start clk) None RunRunning "" "" 0 0 (x_start clk)))) ;;
  match started with
  | Error _ => ret tt
  | Ok _ =>
  res <-- attempt (dispatch slot) ;;
  let durationMS := Milliseconds (Sub (x_done clk) (x_start clk)) in
  match (match res with Error e => inl (JobOther e) | Ok r => r end) with
  | inl err =>
      let attempts := sl_Attempts slot + 1 in
      attempt (ctx_tx clk (FinishRun runID RunFailed (classifyError err) (truncateMsg (error_text err)) durationMS 0 (x_db clk))) ;;;
      attempt (ctx_tx clk (FailSlot (sl_ID slot) runID attempts (nextRetry attempts (x_retry clk)))) ;;;
      ret tt
  | inr records =>
      attempt (ctx_tx clk (FinishRun runID RunCompleted "" "" durationMS records (x_db clk))) ;;;
      attempt (ctx_tx clk (CompleteSlot (sl_ID slot) runID)) ;;;
      ret tt
  end
  end.
End Service.

(** ** The dispatchers *)

Section Dispatchers.
Context `{Env} {D : Type} `{Part D CatalogService.CatalogTables} `{Part D CollectionTables} `{Part D ObsTables}.

Definition Dispatcher : Type := Slot -> M D (JobError + Z).

(** The job types are ASCII texts. *)
Definition unsupported (slot : Slot) : JobError := JobOther ("unsupported job type " +:+ quoted_ascii (sl_JobType slot)).

(** [err.Error()] of a collection error is a formatted text, a parameter here. *)
Definition collect_error (text : CollectError -> string) (e : CollectError) : JobError :=
  match e with
  | CircuitOpenError _ _ => JobCircuitOpen (text e)
  | ErrInactive => JobInactive (text e)
  | _ => JobOther (text e)
  end.

(** A wrapped read: [load configuration: ...]. *)
Definition load {A} (what : string) (m : M CatalogService.CatalogTables (CatalogService.CatalogError + A)) : M D (JobError + A) :=
  r <-- attempt (zoom m) ;;
  match r with
  | Ok (inr a) => ret (inr a)
  | Ok (inl _) => ret (inl (JobOther (what +:+ ": resource not found")))
  | Error e => ret (inl (JobOther (what +:+ ": " +:+ e)))
  end.

Definition ForecastDispatch `{CollectDeps} (text : CollectError -> string) (clk : Clock) : Dispatcher := fun slot =>
  if negb (String.eqb (sl_JobType slot) JobForecastCollection) then ret (inl (unsupported slot)) else
  match sl_LocationID slot with
  | None => ret (inl (JobOther ("forecast slot " +:+ Uuid.to_string (sl_ID slot) +:+ " missing location_id")))
  | Some locationID =>
  cfg <-! load "load configuration" (CatalogService.GetConfiguration (sl_ProviderConfigurationID slot)) ;;
  provider <-! load "load provider" (CatalogService.GetProvider (cfg_ProviderID cfg)) ;;
  location <-! load "load location" (CatalogService.GetLocation locationID) ;;
  r <-- zoom (Collect (MkCollectInput provider location cfg (MkActor None "scheduler" "") SourceScheduled) clk) ;;
  match r with
  | inl e => ret (inl (collect_error text e))
  | inr coll => ret (inr (fc_SnapshotsStored coll))
  end
  end.

Definition observationWindow : Duration := 2 * Hour.

Definition ObservationDispatch `{ObservationSource} (text : CollectError -> string) : Dispatcher := fun slot =>
  if negb (String.eqb (sl_JobType slot) JobObservationCollection) then ret (inl (unsupported slot)) else
  match sl_LocationID slot with
  | None => ret (inl (JobOther ("observation slot " +:+ Uuid.to_string (sl_ID slot) +:+ " missing location_id")))
  | Some locationID =>
  location <-! load "load location" (CatalogService.GetLocation locationID) ;;
  let end_ := Truncate (sl_SlotTime slot) Hour in
  let start := Add end_ (- observationWindow) in
  r <-- zoom (Observe location start end_) ;;
  match r with inl e => ret (inl (collect_error text e)) | inr n => ret (inr n) end
  end.

(** The analysis services are reached through their interfaces. *)
Record Analysis := MkAnalysis { MatchBatch : M D Z; AggregateBatch : M D Z; RankBatch : M D Z }.

(** [run]: match, then aggregate, then rank; the first error stops. *)
Definition analysis_run (a : Analysis) : M D (JobError + Z) :=
  pairs <-- MatchBatch a ;;
  rows <-- AggregateBatch a ;;
  rankings <-- RankBatch a ;;
  ret (inr (pairs + rows + rankings)).

Definition Recompute (a : Analysis) : M D (JobError + Z) := analysis_run a.

Definition AnalysisDispatch (a : Analysis) : Dispatcher := fun slot =>
  if negb (String.eqb (sl_JobType slot) JobAnalysisBatch) then ret (inl (unsupported slot)) else analysis_run a.

Definition Router (byType : gmap string Dispatcher) : Dispatcher := fun slot =>
  match byType !! sl_JobType slot with
  | Some d => d slot
  | None => ret (inl (JobOther ("no dispatcher for job type " +:+ quoted_ascii (sl_JobType slot))))
  end.
End Dispatchers.

End Scheduler.
