(* ===== verification/SchedulerProps.v ===== *)
(** * Properties of the scheduler

    Claims, leases and job endings as a step relation over the slot table and the
    jobs in flight on any number of instances: while every job ends within its
    lease, a slot has at most one job, and completed and failed slots stay as they
    are.  Execution of a slot is one step of that machine, whatever fails, and without
    faults settles the slot with one run; the slots generated by a tick are exactly
    those the schedules ask for.  The machine has one clock: the skew between the
    clocks of two instances is not modelled. *)

From Stdlib Require Import ZArith Lia Bool String.
From stdpp Require Import base list strings gmap sorting relations.
From S2P Require Import Prelude GoTime Uuid Effects Records Catalog CatalogService Collection Observe Scheduler.

Import Records Catalog Collection Observe Scheduler.
Local Open Scope string_scope.
Local Open Scope list_scope.
Local Open Scope Z_scope.

Module SchedulerProps.

Lemma NoDup_fmap_filter {A K} (f : A -> K) (p : A -> bool) (l : list A) : NoDup (f <$> l) -> NoDup (f <$> List.filter p l).
Proof.
  induction l as [|x l IH]; cbn; [auto|]. rewrite NoDup_cons. intros [N1 N2]. destruct (p x); [|auto]. cbn. rewrite NoDup_cons. split; [|auto].
  intros (y & Ey & [Hy _]%list_elem_of_In%filter_In)%list_elem_of_fmap. apply N1. rewrite Ey. now apply list_elem_of_fmap_2, list_elem_of_In.
Qed.

(** ** The machine *)

(** The time, the slot table, and the claimed rows whose jobs are in flight. *)
Record Machine := MkMachine { mc_now : Time; mc_slots : list Slot; mc_jobs : list Slot }.

Definition lease_until (s : Slot) (t : Time) : Prop :=
  match sl_LeaseExpiresAt s with Some e => t <= e | None => False end.

Inductive Step (lease : Duration) (timely : bool) : Machine -> Machine -> Prop :=
| st_time now t slots jobs :
    now <= t -> (timely = true -> Forall (fun j => lease_until j t) jobs) ->
    Step lease timely (MkMachine now slots jobs) (MkMachine t slots jobs)
| st_generate now s slots jobs :
    sl_Status s = SlotDue -> Step lease timely (MkMachine now slots jobs) (MkMachine now (pg_Generate s slots) jobs)
| st_claim locked inst now limit slots jobs slots' claimed :
    pg_ClaimDue locked inst now lease limit slots = (slots', claimed) ->
    Step lease timely (MkMachine now slots jobs) (MkMachine now slots' (jobs ++ claimed))
| st_complete now run slots l1 j l2 :
    Step lease timely (MkMachine now slots (l1 ++ j :: l2)) (MkMachine now (pg_CompleteSlot (sl_ID j) run slots) (l1 ++ l2))
| st_fail now run slots l1 j l2 :
    Step lease timely (MkMachine now slots (l1 ++ j :: l2))
      (MkMachine now (pg_FailSlot (sl_ID j) run (sl_Attempts j + 1) (nextRetry (sl_Attempts j + 1) now) slots) (l1 ++ l2))
| st_lost now slots l1 j l2 :
    Step lease timely (MkMachine now slots (l1 ++ j :: l2)) (MkMachine now slots (l1 ++ l2)).

Definition slot_ok (s : Slot) : Prop :=
  0 <= sl_Attempts s <= MaxAttempts /\
  match sl_Status s with
  | SlotDue | SlotCompleted => sl_Attempts s < MaxAttempts
  | SlotClaimed => sl_Attempts s < MaxAttempts /\ exists t, sl_LeaseExpiresAt s = Some t
  | SlotFailed => sl_Attempts s = MaxAttempts
  | SlotExpired => True
  end.

(** A job's row is in the table as it was claimed, under a lease that runs. *)
Definition holds (now : Time) (slots : list Slot) (j : Slot) : Prop :=
  j ∈ slots /\ sl_Status j = SlotClaimed /\ lease_until j now.

Record machine_inv (m : Machine) : Prop := {
  mi_ids : NoDup (sl_ID <$> mc_slots m);
  mi_keys : NoDup (slot_key <$> mc_slots m);
  mi_ok : Forall slot_ok (mc_slots m);
  mi_rows : Forall (holds (mc_now m) (mc_slots m)) (mc_jobs m);
  mi_jobs : NoDup (sl_ID <$> mc_jobs m);
}.

Definition terminal (s : Slot) : Prop := sl_Status s = SlotCompleted \/ sl_Status s = SlotFailed.

(** ** Updates of rows *)

(** A table update that keeps ids and keys. *)
Definition row_update (f : Slot -> Slot) : Prop := forall s, sl_ID (f s) = sl_ID s /\ slot_key (f s) = slot_key s.

Lemma row_update_keys f (slots : list Slot) : row_update f ->
  sl_ID <$> (f <$> slots) = sl_ID <$> slots /\ slot_key <$> (f <$> slots) = slot_key <$> slots.
Proof.
  intros Hf. rewrite <- !list_fmap_compose. split; apply list_fmap_ext; intros i s _; apply Hf.
Qed.

Lemma update_if_id (P : Slot -> bool) g : (forall s, sl_ID (g s) = sl_ID s /\ slot_key (g s) = slot_key s) ->
  row_update (fun s => if P s then g s else s).
Proof. intros Hg s. destruct (P s); [apply Hg|auto]. Qed.

Lemma claim_fields inst now lease s : sl_ID (claim inst now lease s) = sl_ID s /\ slot_key (claim inst now lease s) = slot_key s.
Proof. auto. Qed.

(** ** Claiming *)

Lemma claimable_ids locked now limit slots s :
  NoDup (sl_ID <$> slots) -> s ∈ slots -> sl_ID s ∈ pg_Claimable locked now limit slots -> claimable now s = true.
Proof.
  intros N Hs Hi. unfold pg_Claimable in Hi. apply list_elem_of_fmap in Hi as (x & Ex & Hx).
  apply elem_of_take_in in Hx. rewrite merge_sort_Permutation in Hx. apply list_elem_of_In, filter_In in Hx as [Hx Cx].
  apply andb_true_iff in Cx as [Cx _]. apply list_elem_of_In in Hx. now rewrite (NoDup_key_unique sl_ID slots s x N Hs Hx Ex).
Qed.

Lemma job_not_claimable now slots j : holds now slots j -> claimable now j = false.
Proof.
  intros (_ & E & L). unfold claimable, lease_until in *. rewrite E. destruct (sl_LeaseExpiresAt j); [|easy]. apply Z.ltb_ge. lia.
Qed.

Lemma terminal_not_claimable now s : terminal s -> claimable now s = false.
Proof. unfold claimable. now intros [-> | ->]. Qed.

Lemma claim_inv lease locked inst now limit slots jobs slots' claimed :
  0 <= lease -> machine_inv (MkMachine now slots jobs) -> pg_ClaimDue locked inst now lease limit slots = (slots', claimed) ->
  machine_inv (MkMachine now slots' (jobs ++ claimed)) /\ (forall s, s ∈ slots -> claimable now s = false -> s ∈ slots').
Proof.
  intros Hl [Ni Nk Ok Hr Nj] [= <- <-]. cbn in *. set (ids := pg_Claimable locked now limit slots).
  set (f := fun s => if bool_decide (sl_ID s ∈ ids) then claim inst now lease s else s).
  assert (Hf : row_update f).
  { intros s. unfold f. case_bool_decide; auto. }
  destruct (row_update_keys f slots Hf) as [Ei Ek].
  assert (Keep : forall s, s ∈ slots -> claimable now s = false -> s ∈ f <$> slots).
  { intros s Hs Hc. apply list_elem_of_fmap. exists s. split; [|assumption]. unfold f. case_bool_decide as B; [|reflexivity].
    pose proof (claimable_ids locked now limit slots s Ni Hs B). congruence. }
  split; [|exact Keep]. constructor; cbn; [now rewrite Ei|now rewrite Ek| | |].
  - apply Forall_fmap, Forall_forall. intros s Hs. pose proof (proj1 (Forall_forall _ _) Ok s Hs) as [B M]. cbn. unfold f.
    case_bool_decide as I; [|split; assumption]. pose proof (claimable_ids locked now limit slots s Ni Hs I) as C.
    split; [exact B|]. cbn. split; [|eauto]. unfold claimable in C. destruct (sl_Status s); try discriminate; tauto.
  - apply Forall_app. split.
    + rewrite Forall_forall in Hr |- *. intros j Hj. specialize (Hr j Hj). pose proof (job_not_claimable _ _ _ Hr) as Hc.
      destruct Hr as (Hs & E & L). split; [now apply Keep|auto].
    + apply Forall_fmap, Forall_forall. intros s Hs%list_elem_of_In%filter_In. destruct Hs as [Hs%list_elem_of_In B].
      split; [|split; [reflexivity|]]; [|cbn; unfold Add; lia].
      apply list_elem_of_fmap. exists s. unfold f. now rewrite B.
  - rewrite fmap_app. apply NoDup_app. split; [assumption|]. split.
    + intros i (j & -> & Hj)%list_elem_of_fmap (x & Ex & (s & -> & Hs)%list_elem_of_fmap)%list_elem_of_fmap.
      apply list_elem_of_In, filter_In in Hs as [Hs%list_elem_of_In B%bool_decide_eq_true]. cbn in Ex.
      pose proof (proj1 (Forall_forall _ _) Hr j Hj) as Hh. pose proof (job_not_claimable _ _ _ Hh) as Hc. destruct Hh as (Hjs & _).
      rewrite (NoDup_key_unique sl_ID slots j s Ni Hjs Hs Ex) in Hc. pose proof (claimable_ids locked now limit slots s Ni Hs B). congruence.
    + rewrite <- list_fmap_compose. now apply NoDup_fmap_filter.
Qed.

(** ** A job ends *)

Lemma end_inv now slots l1 j l2 (g : Slot -> Slot) :
  machine_inv (MkMachine now slots (l1 ++ j :: l2)) ->
  (forall s, sl_ID (g s) = sl_ID s /\ slot_key (g s) = slot_key s) -> slot_ok (g j) ->
  machine_inv (MkMachine now ((fun s => if N.eqb (sl_ID s) (sl_ID j) then g s else s) <$> slots) (l1 ++ l2)) /\
  (forall s, s ∈ slots -> terminal s -> s ∈ (fun s => if N.eqb (sl_ID s) (sl_ID j) then g s else s) <$> slots).
Proof.
  intros [Ni Nk Ok Hr Nj] Hg Og. cbn in *. set (f := fun s => if N.eqb (sl_ID s) (sl_ID j) then g s else s).
  destruct (row_update_keys f slots (update_if_id _ g Hg)) as [Ei Ek].
  apply Forall_app in Hr as [R1 R2]. apply Forall_cons in R2 as [(Hj & Sj & Lj) R2].
  rewrite fmap_app, fmap_cons in Nj. apply NoDup_app in Nj as (N1 & N12 & N2). apply NoDup_cons in N2 as [Nj2 N2].
  assert (Other : forall s, s ∈ slots -> sl_ID s <> sl_ID j -> s ∈ f <$> slots).
  { intros s Hs Hn. apply list_elem_of_fmap. exists s. split; [|assumption]. unfold f. now rewrite (proj2 (N.eqb_neq _ _) Hn). }
  assert (Kept : forall l, Forall (holds now slots) l -> sl_ID j ∉ sl_ID <$> l -> Forall (holds now (f <$> slots)) l).
  { intros l. rewrite !Forall_forall. intros Hl Nl x Hx. destruct (Hl x Hx) as (Hs & E & L). split; [|auto]. apply Other; [assumption|].
    intros E'. apply Nl. rewrite <- E'. now apply list_elem_of_fmap_2. }
  split; [constructor; cbn; [now rewrite Ei|now rewrite Ek| | |]|].
  - apply Forall_fmap, Forall_forall. intros s Hs. cbn. unfold f. destruct (N.eqb_spec (sl_ID s) (sl_ID j)) as [E|_].
    + now rewrite (NoDup_key_unique sl_ID slots s j Ni Hs Hj E).
    + now apply (proj1 (Forall_forall _ _) Ok).
  - apply Forall_app. split; apply Kept; auto. intros Hin. apply (N12 (sl_ID j) Hin). left.
  - rewrite fmap_app. apply NoDup_app. split; [assumption|]. split; [|assumption]. intros i Hi Hi2. apply (N12 i Hi). now right.
  - intros s Hs T. apply Other; [assumption|]. intros E. pose proof (NoDup_key_unique sl_ID slots s j Ni Hs Hj E) as ->.
    unfold terminal in T. rewrite Sj in T. now destruct T.
Qed.

Lemma lost_inv now slots l1 j l2 : machine_inv (MkMachine now slots (l1 ++ j :: l2)) -> machine_inv (MkMachine now slots (l1 ++ l2)).
Proof.
  intros [Ni Nk Ok Hr Nj]. constructor; cbn in *; auto.
  - apply Forall_app in Hr as [R1 R2]. apply Forall_cons in R2 as [_ R2]. apply Forall_app. auto.
  - rewrite fmap_app, fmap_cons in Nj. apply NoDup_app in Nj as (N1 & N12 & N2). apply NoDup_cons in N2 as [_ N2].
    rewrite fmap_app. apply NoDup_app. split; [assumption|]. split; [|assumption]. intros i Hi Hi2. apply (N12 i Hi). now right.
Qed.

Lemma generate_inv now s slots jobs :
  sl_Status s = SlotDue -> machine_inv (MkMachine now slots jobs) ->
  machine_inv (MkMachine now (pg_Generate s slots) jobs) /\ (forall x, x ∈ slots -> x ∈ pg_Generate s slots).
Proof.
  intros Es I. unfold pg_Generate. destruct (existsb _ slots) eqn:B; [auto|]. destruct I as [Ni Nk Ok Hr Nj]. cbn in *.
  assert (F : forall x, x ∈ slots -> sl_ID x <> sl_ID s /\ slot_key x <> slot_key s).
  { intros x Hx. apply not_true_iff_false in B. split; intros E; apply B, existsb_exists; exists x; (split; [now apply list_elem_of_In|]);
      apply orb_true_iff; [left; now apply N.eqb_eq|right; now apply bool_decide_eq_true]. }
  split; [|intros x Hx; apply elem_of_app; auto]. constructor; cbn.
  - rewrite fmap_app. apply NoDup_snoc; [assumption|]. intros (x & Ex & Hx)%list_elem_of_fmap. symmetry in Ex. now apply (F x Hx) in Ex.
  - rewrite fmap_app. apply NoDup_snoc; [assumption|]. intros (x & Ex & Hx)%list_elem_of_fmap. symmetry in Ex. now apply (F x Hx) in Ex.
  - apply Forall_app. split; [assumption|]. constructor; [|constructor]. unfold slot_ok, generated. cbn. rewrite Es. unfold MaxAttempts. lia.
  - eapply Forall_impl; [exact Hr|]. intros j (Hj & ? & ?). split; [apply elem_of_app; auto|auto].
  - assumption.
Qed.

Lemma nextRetry_some a now : a < MaxAttempts -> exists t, nextRetry a now = Some t.
Proof. intros Ha. unfold nextRetry. rewrite (proj2 (Z.ltb_lt _ _) Ha). eauto. Qed.

Lemma step_inv lease m m' :
  0 <= lease -> Step lease true m m' -> machine_inv m ->
  machine_inv m' /\ (forall s, s ∈ mc_slots m -> terminal s -> s ∈ mc_slots m').
Proof.
  intros Hl S I. destruct S as [now t slots jobs Ht Hj|now s slots jobs Es|locked inst now limit slots jobs slots' claimed E
                               |now run slots l1 j l2|now run slots l1 j l2|now slots l1 j l2]; cbn [mc_slots].
  - split; [|auto]. destruct I as [Ni Nk Ok Hr Nj]. constructor; auto. cbn in *. specialize (Hj eq_refl).
    rewrite Forall_forall in *. intros j Hx. destruct (Hr j Hx) as (? & ? & _). split; [assumption|]. auto.
  - destruct (generate_inv now s slots jobs Es I). auto.
  - destruct (claim_inv lease locked inst now limit slots jobs slots' claimed Hl I E) as [I' K]. split; [assumption|].
    intros s Hs T. apply K; [assumption|]. now apply terminal_not_claimable.
  - apply end_inv; [assumption|auto|]. pose proof (mi_rows _ I) as Hr. cbn in Hr. apply Forall_app in Hr as [_ Hr].
    apply Forall_cons in Hr as [(Hin & Sj & _) _]. pose proof (proj1 (Forall_forall _ _) (mi_ok _ I) j Hin) as [B K]. rewrite Sj in K.
    split; [exact B|]. cbn. tauto.
  - apply end_inv; [assumption|auto|]. pose proof (mi_rows _ I) as Hr. cbn in Hr. apply Forall_app in Hr as [_ Hr].
    apply Forall_cons in Hr as [(Hin & Sj & _) _]. pose proof (proj1 (Forall_forall _ _) (mi_ok _ I) j Hin) as [B K]. rewrite Sj in K.
    unfold slot_ok, failed, nextRetry. cbn. destruct (sl_Attempts j + 1 <? MaxAttempts) eqn:E; bool_simp; lia.
  - split; [|auto]. now apply (lost_inv now slots l1 j l2).
Qed.

(** ** Execution as a step *)

Section Execute.
Context `{Env} {D : Type} `{PartLaws D SchedTables} `{Part D CatalogService.CatalogTables}.

Definition slots_of (d : D) : list Slot := sc_slots (part d).
Definition runs_of (d : D) : list Run := sc_runs (part d).

(** The dispatcher leaves the scheduler's tables alone. *)
Definition keeps_sched {A} (m : M D A) : Prop := forall t, preserves (fun d => part (T := SchedTables) d = t) m.

Lemma keeps_slots {A} (m : M D A) ss : keeps_sched m -> preserves (fun d => slots_of d = ss) m.
Proof. intros K w Hw. unfold slots_of in *. rewrite <- Hw. f_equal. exact (K _ w eq_refl). Qed.

Lemma preserves_on_runs op f ss : preserves (fun d => slots_of d = ss) (on_runs op f).
Proof.
  apply preserves_dbexec. intros d d' a Hd. cbn [mbind option_bind]. destruct (f _) as [rs|]; [|discriminate].
  intros [= <- _]. unfold slots_of in *. now rewrite part_put.
Qed.

Lemma hoare_attempt_keeps {A} (P : D -> Prop) (m : M D A) :
  preserves P m -> hoare P (attempt m) (fun _ d => P d) (fun _ => False).
Proof. intros Hm w Hw. specialize (Hm w Hw). unfold attempt. now destruct (m w). Qed.

Lemma preserves_ctx_runs clk op f ss : preserves (fun d => slots_of d = ss) (ctx_tx clk (on_runs op f)).
Proof. unfold ctx_tx. destruct (x_expired clk); [apply preserves_throw|]. apply preserves_tx, preserves_on_runs. Qed.

(** An update of the slots, attempted under the job's context. *)
Lemma hoare_on_slots clk op g ss :
  hoare (fun d => slots_of d = ss) (attempt (ctx_tx clk (on_slots op (fun s => (g s, tt)))))
    (fun _ d => slots_of d = ss \/ (x_expired clk = false /\ slots_of d = g ss)) (fun _ => False).
Proof.
  intros w Hw. unfold attempt, ctx_tx. destruct (x_expired clk); [now left|]. unfold tx_run. destruct (fault _); [now left|].
  unfold on_slots, dbcall. cbn. destruct (fault _); [now left|]. cbn. destruct (fault _); [now left|].
  right. split; [reflexivity|]. cbn. unfold slots_of in *. rewrite part_put. cbn. now rewrite Hw.
Qed.

Definition ended (clk : ExecClock) (slot : Slot) (ss ss' : list Slot) : Prop :=
  ss' = ss \/ (x_expired clk = false /\ exists run,
    ss' = pg_CompleteSlot (sl_ID slot) run ss \/
    ss' = pg_FailSlot (sl_ID slot) run (sl_Attempts slot + 1) (nextRetry (sl_Attempts slot + 1) (x_retry clk)) ss).

Lemma execute_ended dispatch clk slot ss :
  keeps_sched (dispatch slot) ->
  hoare (fun d => slots_of d = ss) (execute dispatch clk slot) (fun _ d => ended clk slot ss (slots_of d)) (fun _ => False).
Proof.
  intros K. unfold execute. eapply (hoare_bind _ _ (fun _ d => slots_of d = ss)); [intros w Hw; exact Hw|]. intros run.
  eapply hoare_bind; [apply hoare_attempt_keeps, preserves_tx, preserves_on_runs|].
  intros [u|e]; [|apply hoare_ret; now left]. eapply hoare_bind; [apply hoare_attempt_keeps, keeps_slots, K|].
  intros res. set (r := match res with Ok r => r | Error e => _ end).
  destruct r as [err|records]; (eapply hoare_bind; [apply hoare_attempt_keeps, preserves_ctx_runs|]); intros u1;
    (eapply hoare_bind; [apply hoare_on_slots|]); intros u2; apply hoare_ret;
    (intros d [E|[X E]]; [now left|right; split; [exact X|]; exists run; auto]).
Qed.

(** *** Without faults *)

Section Healthy_exec.
Context `{!Healthy}.

Definition run_row (run : uuid) (clk : ExecClock) (slot : Slot) : Run :=
  MkRun run (sl_JobType slot) (Some (sl_ID slot)) (x_start clk) None RunRunning "" "" 0 0 (x_start clk).

Definition finished_row (run : uuid) (clk : ExecClock) (slot : Slot) (st : RunStatus) (code msg : string) (n : Z) : Run :=
  MkRun run (sl_JobType slot) (Some (sl_ID slot)) (x_start clk) (Some (x_db clk)) st code msg
    (Milliseconds (Sub (x_done clk) (x_start clk))) n (x_start clk).

(** The world the dispatcher sees: the run is in the history. *)
Definition started (clk : ExecClock) (slot : Slot) (w : World D) : World D :=
  MkWorld (put (with_runs (part (db w)) (runs_of (db w) ++ [run_row (Effects.newID (nids w)) clk slot])) (db w)) (3 + tick w) (S (nids w)).

Definition job_result (r : result (JobError + Z)) : JobError + Z := match r with Ok x => x | Error e => inl (JobOther e) end.

(** The scheduler's tables after the job. *)
Definition final_sched (clk : ExecClock) (slot : Slot) (run : uuid) (t : SchedTables) (r : JobError + Z) : SchedTables :=
  if x_expired clk then MkSched (sc_slots t) (sc_runs t ++ [run_row run clk slot])
  else match r with
  | inr n => MkSched (pg_CompleteSlot (sl_ID slot) run (sc_slots t)) (sc_runs t ++ [finished_row run clk slot RunCompleted "" "" n])
  | inl e => MkSched (pg_FailSlot (sl_ID slot) run (sl_Attempts slot + 1) (nextRetry (sl_Attempts slot + 1) (x_retry clk)) (sc_slots t))
               (sc_runs t ++ [finished_row run clk slot RunFailed (classifyError e) (truncateMsg (error_text e)) 0])
  end.

Lemma start_healthy clk slot w :
  Effects.newID (nids w) ∉ ru_ID <$> runs_of (db w) ->
  tx_run (StartRun (run_row (Effects.newID (nids w)) clk slot)) (MkWorld (db w) (tick w) (S (nids w))) = (started clk slot w, Ok tt).
Proof.
  intros N. unfold tx_run. rewrite healthy. unfold StartRun, on_runs, dbexec. cbn [tick db nids]. rewrite healthy.
  unfold pg_StartRun. replace (existsb _ _) with false.
  - cbn. rewrite healthy. reflexivity.
  - symmetry. apply not_true_is_false. intros (x & Hx & E%N.eqb_eq)%existsb_exists. apply N. cbn in E. rewrite <- E.
    now apply list_elem_of_fmap_2, list_elem_of_In.
Qed.

Lemma tx_on_slots op f (w : World D) :
  tx_run (on_slots op (fun s => (f s, tt))) w
    = (MkWorld (put (with_slots (part (db w)) (f (slots_of (db w)))) (db w)) (3 + tick w) (nids w), Ok tt).
Proof. unfold tx_run. rewrite healthy. unfold on_slots, dbcall. cbn [tick db nids]. rewrite healthy. cbn. rewrite healthy. reflexivity. Qed.

Lemma tx_on_runs op f (w : World D) :
  tx_run (on_runs op (fun r => Some (f r))) w
    = (MkWorld (put (with_runs (part (db w)) (f (runs_of (db w)))) (db w)) (3 + tick w) (nids w), Ok tt).
Proof. unfold tx_run. rewrite healthy. unfold on_runs, dbexec. cbn [tick db nids]. rewrite healthy. cbn. rewrite healthy. reflexivity. Qed.

Lemma finish_appended run st code msg ms n dbnow rs clk slot :
  run ∉ ru_ID <$> rs ->
  pg_FinishRun run st code msg ms n dbnow (rs ++ [run_row run clk slot])
    = rs ++ [MkRun run (sl_JobType slot) (Some (sl_ID slot)) (x_start clk) (Some dbnow) st code msg ms n (x_start clk)].
Proof.
  intros N. unfold pg_FinishRun. rewrite fmap_app. cbn. rewrite N.eqb_refl. f_equal.
  rewrite <- (list_fmap_id rs) at 2. apply list_fmap_ext. intros i x Hx%list_elem_of_lookup_2. destruct (N.eqb_spec (ru_ID x) run) as [E|]; [|reflexivity].
  destruct N. rewrite <- E. now apply list_elem_of_fmap_2.
Qed.

Lemma execute_final dispatch clk slot w :
  Effects.newID (nids w) ∉ ru_ID <$> runs_of (db w) -> keeps_sched (dispatch slot) ->
  exists w', execute dispatch clk slot w = (w', Ok tt) /\
    part (db w') = final_sched clk slot (Effects.newID (nids w)) (part (db w)) (job_result (dispatch slot (started clk slot w)).2).
Proof.
  intros N K. unfold execute, fresh. rewrite bind_run. rewrite bind_run. unfold attempt at 1.
  pose proof (start_healthy clk slot w N) as Es. unfold run_row in Es at 1. rewrite Es. rewrite bind_run. unfold attempt at 1. pose proof (K _ (started clk slot w) eq_refl) as Kd.
  destruct (dispatch slot (started clk slot w)) as [w1 res]. cbn [fst snd] in *. cbn [started db] in Kd. rewrite part_put in Kd.
  fold (job_result res). unfold final_sched, ctx_tx. destruct (x_expired clk).
  { destruct (job_result res); (eexists; split; [reflexivity|]); exact Kd. }
  destruct (job_result res) as [e|n]; rewrite bind_run; unfold attempt, FinishRun; rewrite tx_on_runs, bind_run;
    unfold FailSlot, CompleteSlot; rewrite tx_on_slots; (eexists; split; [reflexivity|]); cbn [db]; rewrite !part_put;
    unfold slots_of, runs_of; cbn [db]; rewrite part_put, Kd; cbn [with_slots with_runs sc_slots sc_runs]; now rewrite finish_appended.
Qed.
End Healthy_exec.
End Execute.

(** ** The dispatchers work on other tables *)

(** Writing the tables [T] leaves the tables [U]. *)
Class Disjoint (D T U : Type) `{Part D T} `{Part D U} := { part_other : forall (t : T) (d : D), part (T := U) (put t d) = part d }.

Section Others.
Context `{Env} {D : Type} `{Part D SchedTables} `{Part D CatalogService.CatalogTables} `{Part D CollectionTables} `{Part D ObsTables}.
Context `{!Disjoint D CatalogService.CatalogTables SchedTables} `{!Disjoint D CollectionTables SchedTables} `{!Disjoint D ObsTables SchedTables}.

Lemma keeps_zoom {T A} `{Part D T} `{!Disjoint D T SchedTables} (m : M T A) : keeps_sched (zoom m).
Proof. intros t w Hw. unfold zoom. destruct (m _) as [w' r]. cbn. now rewrite part_other. Qed.

Lemma keeps_ret {A} (a : A) : keeps_sched (D := D) (ret a).
Proof. intros t. apply preserves_ret. Qed.

Lemma keeps_bind {A B} (m : M D A) (k : A -> M D B) : keeps_sched m -> (forall a, keeps_sched (k a)) -> keeps_sched (bind m k).
Proof. intros Hm Hk t. apply preserves_bind; [apply Hm|]. intros a. apply Hk. Qed.

Lemma keeps_bindE {E A B} (m : M D (E + A)) (k : A -> M D (E + B)) : keeps_sched m -> (forall a, keeps_sched (k a)) -> keeps_sched (bindE m k).
Proof. intros Hm Hk. apply keeps_bind; [assumption|]. intros [e|a]; [apply keeps_ret|apply Hk]. Qed.

Lemma keeps_load {A} what (m : M CatalogService.CatalogTables (CatalogService.CatalogError + A)) : keeps_sched (load what m).
Proof.
  apply keeps_bind; [|intros [[e|a]|e]; apply keeps_ret]. intros t. apply preserves_attempt. apply (keeps_zoom m).
Qed.

Lemma forecast_keeps `{CollectDeps} text clk slot : keeps_sched (ForecastDispatch text clk slot).
Proof.
  unfold ForecastDispatch. destruct (negb _); [apply keeps_ret|]. destruct (sl_LocationID slot); [|apply keeps_ret].
  apply keeps_bindE; [apply keeps_load|]. intros cfg. apply keeps_bindE; [apply keeps_load|]. intros p.
  apply keeps_bindE; [apply keeps_load|]. intros l. apply keeps_bind; [apply keeps_zoom|]. intros [e|c]; apply keeps_ret.
Qed.

Lemma observation_keeps `{ObservationSource} text slot : keeps_sched (ObservationDispatch text slot).
Proof.
  unfold ObservationDispatch. destruct (negb _); [apply keeps_ret|]. destruct (sl_LocationID slot); [|apply keeps_ret].
  apply keeps_bindE; [apply keeps_load|]. intros l. apply keeps_bind; [apply keeps_zoom|]. intros [e|x]; apply keeps_ret.
Qed.

(** The routing table of the worker ([cmd/forecastiq/app.go]). *)
Definition jobRouter `{CollectDeps} `{ObservationSource} (text : CollectError -> string) (clk : Clock) (a : Analysis (D := D)) : Dispatcher (D := D) :=
  Router (<[JobForecastCollection := ForecastDispatch text clk]>
         (<[JobObservationCollection := ObservationDispatch text]> {[JobAnalysisBatch := AnalysisDispatch a]})).

Lemma router_keeps `{CollectDeps} `{ObservationSource} text clk a slot :
  keeps_sched (MatchBatch a) -> keeps_sched (AggregateBatch a) -> keeps_sched (RankBatch a) ->
  keeps_sched (jobRouter text clk a slot).
Proof.
  intros K1 K2 K3. unfold jobRouter, Router. set (r := insert _ _ _). destruct (r !! sl_JobType slot) as [f|] eqn:E; [|apply keeps_ret].
  unfold r in E. apply lookup_insert_Some in E as [[_ <-]|[_ E]]; [apply forecast_keeps|].
  apply lookup_insert_Some in E as [[_ <-]|[_ E]]; [apply observation_keeps|]. apply lookup_singleton_Some in E as [_ <-].
  unfold AnalysisDispatch, analysis_run. destruct (negb _); [apply keeps_ret|]. apply keeps_bind; [assumption|]. intros x.
  apply keeps_bind; [assumption|]. intros y. apply keeps_bind; [assumption|]. intros z. apply keeps_ret.
Qed.
End Others.

(** ** Analysis instants *)

Lemma analysisLoop_elem fuel h from to offsets t :
  to <= h + Z.of_nat fuel * Hour ->
  t ∈ analysisLoop fuel h from to offsets <->
  exists k off, 0 <= k /\ h + k * Hour < to /\ off ∈ offsets /\ t = h + k * Hour + off * Minute /\ from <= t < to.
Proof.
  revert h. induction fuel as [|fuel IH]; intros h Hf; cbn [analysisLoop].
  { rewrite elem_of_nil. split; [easy|]. intros (k & off & Hk & Hh & _). pose proof Hour_pos. nia. }
  unfold Before, Add. destruct (h <? to) eqn:E; bool_simp.
  - rewrite elem_of_app, IH by lia. rewrite list_elem_of_In, filter_In, <- list_elem_of_In, list_elem_of_fmap. split.
    + intros [[(off & -> & Ho) B]|(k & off & Hk & Hh & Ho & -> & B)].
      * apply andb_true_iff in B as [B1 B2]. bool_simp. exists 0, off. repeat split; auto; lia.
      * exists (k + 1), off. repeat split; auto; lia.
    + intros (k & off & Hk & Hh & Ho & -> & B). destruct (Z.eq_dec k 0) as [->|].
      * left. split; [exists off; split; [lia|assumption]|]. apply andb_true_iff. rewrite negb_true_iff, Z.ltb_ge, Z.ltb_lt. lia.
      * right. exists (k - 1), off. repeat split; auto; lia.
  - rewrite elem_of_nil. split; [easy|]. intros (k & off & Hk & Hh & _). pose proof Hour_pos. nia.
Qed.

Definition analysis_offsets (offsets : list Z) : list Z := match offsets with [] => [10; 40] | _ => offsets end.

Lemma analysis_times from to offsets t :
  Forall (fun o => 0 <= o <= 59) offsets -> from <= to ->
  t ∈ analysisSlotTimes from to offsets <-> from <= t < to /\ exists off, off ∈ analysis_offsets offsets /\ t mod Hour = off * Minute.
Proof.
  intros Ho Hft. unfold analysisSlotTimes. fold (analysis_offsets offsets).
  assert (Ho' : Forall (fun o => 0 <= o <= 59) (analysis_offsets offsets)) by (destruct offsets; [repeat constructor; lia|assumption]).
  pose proof (Truncate_hour_bounds from) as Bt. rewrite analysisLoop_elem.
  2:{ pose proof (Z.div_mod (to - from) Hour ltac:(discriminate)). pose proof (Z.mod_pos_bound (to - from) Hour Hour_pos).
      pose proof (Z.div_pos (to - from) Hour ltac:(lia) Hour_pos). lia. }
  rewrite Truncate_hour in *. pose proof (Z.div_mod from Hour ltac:(discriminate)) as Ef. split.
  - intros (k & off & Hk & Hh & Hin & -> & B). split; [exact B|]. exists off. split; [assumption|].
    pose proof (proj1 (Forall_forall _ _) Ho' off Hin) as Hoff. cbn beta in Hoff.
    replace (_ + _ + _) with (off * Minute + (from / Hour + k) * Hour) by lia. rewrite Z.mod_add by discriminate. apply Z.mod_small.
    unfold Hour, Minute, Second. lia.
  - intros (B & off & Hin & Hm). pose proof (proj1 (Forall_forall _ _) Ho' off Hin) as Hoff. cbn beta in Hoff.
    pose proof (Z.div_mod t Hour ltac:(discriminate)) as Et. exists (t / Hour - from / Hour), off.
    assert (from / Hour <= t / Hour) by (apply Z.div_le_mono; [apply Hour_pos|lia]).
    unfold Hour, Minute, Second in *. repeat split; auto; lia.
Qed.

(** ** Generating slots *)

Section Generation.
Context `{FreshIds} `{!Healthy} {D : Type} `{PartLaws D SchedTables} `{PartLaws D CatalogService.CatalogTables}.
Context `{!Disjoint D SchedTables CatalogService.CatalogTables} `{!Disjoint D CatalogService.CatalogTables SchedTables}.

Abbreviation SlotKey := (uuid * string * uuid * Time)%type.
Abbreviation slots w := (slots_of (D := D) (db w)).
Abbreviation keys w := (slot_key <$> slots w).

(** The ids still to come are not in use. *)
Definition unused (w : World D) : Prop := forall i, (nids w <= i)%nat -> Effects.newID i ∉ sl_ID <$> slots w.

(** A slot as generation leaves it. *)
Definition new_slot (s : Slot) : Prop :=
  sl_Status s = SlotDue /\ sl_Attempts s = 0 /\ sl_NextRetryAt s = None /\ sl_LeaseExpiresAt s = None.

(** From [w] to [w'] the slots of the keys [ks] that were missing were added. *)
Record generates (ks : list SlotKey) (w w' : World D) : Prop := {
  ge_nids : (nids w <= nids w')%nat;
  ge_catalog : part (T := CatalogService.CatalogTables) (db w') = part (db w);
  ge_new : exists new, slots w' = slots w ++ new /\ Forall new_slot new /\
    (forall s, s ∈ new -> slot_key s ∈ ks /\ slot_key s ∉ keys w /\
                          exists i, (nids w <= i < nids w')%nat /\ sl_ID s = Effects.newID i);
  ge_all : ks ⊆ keys w';
  ge_keys : NoDup (keys w) -> NoDup (keys w');
}.

Lemma generates_unused ks w w' : unused w -> generates ks w w' -> unused w'.
Proof.
  intros U [Hn _ (new & E & _ & Hnew) _ _] i Hi. rewrite E, fmap_app, elem_of_app. intros [X|(s & Es & Hs)%list_elem_of_fmap].
  - exact (U i ltac:(lia) X).
  - destruct (Hnew s Hs) as (_ & _ & j & Hj & Ej). rewrite Ej in Es. apply newID_inj in Es. lia.
Qed.

Lemma generates_refl w : generates [] w w.
Proof.
  constructor; auto; [|set_solver]. exists []. rewrite app_nil_r. split; [reflexivity|]. split; [constructor|].
  intros s Hs. now apply not_elem_of_nil in Hs.
Qed.

Lemma generates_trans k1 k2 w w1 w2 : generates k1 w w1 -> generates k2 w1 w2 -> generates (k1 ++ k2) w w2.
Proof.
  intros [N1 C1 (new1 & E1 & F1 & H1') A1 K1] [N2 C2 (new2 & E2 & F2 & H2') A2 K2]. constructor; auto; [lia|congruence| |].
  - exists (new1 ++ new2). rewrite E2, E1, app_assoc. split; [reflexivity|]. split; [now apply Forall_app|].
    intros s [Hs|Hs]%elem_of_app; rewrite elem_of_app.
    + destruct (H1' s Hs) as (X & Y & i & Hi & Ei). split; [auto|]. split; [assumption|]. exists i. split; [lia|assumption].
    + destruct (H2' s Hs) as (X & Y & i & Hi & Ei). split; [auto|]. split; [|exists i; split; [lia|assumption]].
      intros Z. apply Y. rewrite E1, fmap_app, elem_of_app. auto.
  - intros k [Hk|Hk]%elem_of_app; [|auto]. rewrite E2, fmap_app, elem_of_app. left. auto.
Qed.

Lemma newSlot_generates config job loc t now w :
  unused w -> exists w', newSlot config job loc t now w = (w', Ok tt) /\
    generates [(config, job, match loc with Some l => l | None => uuid_Nil end, t)] w w'.
Proof.
  intros U. unfold newSlot, fresh. rewrite bind_run. unfold Generate, on_slots, dbcall. cbn [tick db nids]. rewrite healthy.
  set (s := MkSlot _ _ _ _ _ _ _ _ _ _ _ _ _ _). fold (slots w). eexists. split; [reflexivity|].
  set (k := (config, job, _, t)). assert (Ek : slot_key s = k) by reflexivity.
  assert (Es : forall a b, slots (MkWorld (put (with_slots (part (db w)) (pg_Generate s (slots w))) (db w)) a b) = pg_Generate s (slots w))
    by (intros; unfold slots_of; cbn; now rewrite part_put).
  constructor; cbn [nids]; rewrite ?Es; [lia|cbn; now rewrite part_other| | |].
  - unfold pg_Generate. destruct (existsb _ (slots w)) eqn:B.
    + exists []. rewrite app_nil_r. split; [reflexivity|]. split; [constructor|]. intros x Hx. now apply not_elem_of_nil in Hx.
    + exists [generated s]. split; [reflexivity|]. split; [repeat constructor|]. intros x ->%list_elem_of_singleton.
      split; [left|]. split; [|exists (nids w); split; [lia|reflexivity]].
      intros (y & Ey & Hy)%list_elem_of_fmap. apply not_true_iff_false in B. apply B, existsb_exists. exists y.
      split; [now apply list_elem_of_In|]. apply orb_true_iff. right. now apply bool_decide_eq_true.
  - intros k' ->%list_elem_of_singleton. unfold pg_Generate. destruct (existsb _ (slots w)) eqn:B.
    + apply existsb_exists in B as (y & Hy & [Ey%N.eqb_eq|Ey%bool_decide_eq_true]%orb_true_iff).
      * exfalso. apply (U (nids w) (le_n _)). rewrite list_elem_of_fmap. exists y. split; [now symmetry|now apply list_elem_of_In].
      * rewrite <- Ek, <- Ey. now apply list_elem_of_fmap_2, list_elem_of_In.
    + rewrite fmap_app, elem_of_app. right. now left.
  - intros N. unfold pg_Generate. destruct (existsb _ (slots w)) eqn:B; [assumption|]. rewrite fmap_app. apply NoDup_snoc; [assumption|].
    intros (y & Ey & Hy)%list_elem_of_fmap. apply not_true_iff_false in B. apply B, existsb_exists. exists y.
    split; [now apply list_elem_of_In|]. apply orb_true_iff. right. now apply bool_decide_eq_true.
Qed.

(** A unit step that generates the keys [ks], from any such world. *)
Definition step_generates (ks : list SlotKey) (m : M D unit) : Prop :=
  forall w, unused w -> exists w', m w = (w', Ok tt) /\ generates ks w w'.

Lemma iterM_generates {A} (f : A -> M D unit) (k : A -> list SlotKey) l :
  (forall x, step_generates (k x) (f x)) -> step_generates (l ≫= k) (iterM f l).
Proof.
  intros Hf. induction l as [|x l IH]; intros w U; [eexists; split; [reflexivity|apply generates_refl]|].
  destruct (Hf x w U) as (w1 & E1 & G1). destruct (IH w1 (generates_unused _ _ _ U G1)) as (w2 & E2 & G2).
  exists w2. rewrite iterM_cons, E1. split; [exact E2|]. now apply (generates_trans _ _ _ w1).
Qed.

Lemma seq_generates k1 k2 m1 m2 : step_generates k1 m1 -> step_generates k2 m2 -> step_generates (k1 ++ k2) (m1 ;;; m2).
Proof.
  intros G1 G2 w U. destruct (G1 w U) as (w1 & E1 & X1). destruct (G2 w1 (generates_unused _ _ _ U X1)) as (w2 & E2 & X2).
  exists w2. rewrite bind_run, E1. split; [exact E2|]. now apply (generates_trans _ _ _ w1).
Qed.

(** The slots a tick asks for. *)
Definition site_keys (config : uuid) (job : string) (locations : list Location) (ts : list Time) : list SlotKey :=
  t ← ts; (fun l => (config, job, l_ID l, t)) <$> locations.

Definition wanted (cfg : Config) (configs : list ProviderConfiguration) (locations : list Location) (now : Time) : list SlotKey :=
  let from := Truncate now Hour - Hour in
  let to := Truncate now Hour + Hour in
  (configs ≫= fun c => site_keys (cfg_ID c) JobForecastCollection locations (SlotTimes (cfg_CollectionSchedule c) from to))
  ++ (if negb (N.eqb (cf_ObservationConfigID cfg) uuid_Nil)
      then site_keys (cf_ObservationConfigID cfg) JobObservationCollection locations
             (SlotTimes (MkSchedule "hourly" (cf_ObservationMinuteOffset cfg)) from to) else [])
  ++ (if negb (N.eqb (cf_AnalysisConfigID cfg) uuid_Nil)
      then (fun t => (cf_AnalysisConfigID cfg, JobAnalysisBatch, uuid_Nil, t)) <$> analysisSlotTimes from to (cf_AnalysisMinuteOffsets cfg)
      else []).

Lemma bind_singleton {A B} (f : A -> B) (l : list A) : (l ≫= fun x => [f x]) = f <$> l.
Proof. induction l as [|x l IH]; [reflexivity|]. cbn. now rewrite IH. Qed.

Lemma sites_generate config job locations ts now :
  step_generates (site_keys config job locations ts)
    (iterM (fun t => iterM (fun l => newSlot config job (Some (l_ID l)) t now) locations) ts).
Proof.
  apply iterM_generates. intros t. rewrite <- bind_singleton. apply iterM_generates. intros l w U.
  exact (newSlot_generates config job (Some (l_ID l)) t now w U).
Qed.

Lemma generateTx_generates cfg configs locations now : step_generates (wanted cfg configs locations now) (generateTx cfg configs locations now).
Proof.
  unfold generateTx, wanted, Add. rewrite Z.add_opp_r. apply seq_generates; [|apply seq_generates].
  - apply iterM_generates. intros c. apply sites_generate.
  - destruct (negb _); [apply sites_generate|]. intros w U. eexists. split; [reflexivity|apply generates_refl].
  - destruct (negb _); [|intros w U; eexists; split; [reflexivity|apply generates_refl]].
    rewrite <- bind_singleton. apply iterM_generates. intros t w U. exact (newSlot_generates _ _ None t now w U).
Qed.

Definition catalog_of (w : World D) : CatalogService.CatalogTables := part (db w).

Definition wanted_of (cfg : Config) (now : Time) (w : World D) : list SlotKey :=
  match CatalogService.pg_ListActive (catalog_of w) with
  | [] => []
  | ls => wanted cfg (CatalogService.pg_ListActiveConfigurations (catalog_of w)) ls now
  end.

Lemma catalog_query {A} op (f : CatalogService.CatalogTables -> A) w :
  catalog (query op (fun d => inr (f d))) w = (MkWorld (db w) (S (tick w)) (nids w), Ok (f (catalog_of w))).
Proof. unfold catalog. rewrite bind_run. unfold zoom. rewrite query_healthy. cbn. now rewrite put_part. Qed.

Lemma generates_ticks ks w w1 t : generates ks (MkWorld (db w) t (nids w)) w1 -> forall t', generates ks w (MkWorld (db w1) t' (nids w1)).
Proof. intros [] t'. now constructor. Qed.

Lemma generateSlots_generates cfg now w :
  unused w -> exists w', generateSlots cfg now w = (w', Ok tt) /\ generates (wanted_of cfg now w) w w'.
Proof.
  intros U.
  unfold generateSlots, CatalogService.ListActiveConfigurations, CatalogService.ListActiveLocations, wanted_of.
  rewrite bind_run, catalog_query, bind_run, catalog_query. cbn [db tick nids]. change (catalog_of (MkWorld (db w) _ _)) with (catalog_of w).
  destruct (CatalogService.pg_ListActive (catalog_of w)) as [|l ls]; [eexists; split; [reflexivity|]|].
  - apply (generates_ticks [] w w (tick w)). destruct w. apply generates_refl.
  - set (configs := CatalogService.pg_ListActiveConfigurations _). unfold tx_run. rewrite healthy. cbn [db tick nids].
    destruct (generateTx_generates cfg configs (l :: ls) now (MkWorld (db w) (S (S (S (tick w)))) (nids w)) U) as (w1 & E & G).
    rewrite E, healthy. eexists. split; [reflexivity|]. now apply (generates_ticks _ w w1 (S (S (S (tick w))))).
Qed.

Lemma generates_nothing ks w w' : generates ks w w' -> ks ⊆ keys w -> slots w' = slots w.
Proof.
  intros [_ _ (new & E & _ & Hn) _ _] Hk. destruct new as [|s new]; [now rewrite app_nil_r in E|].
  destruct (Hn s) as (X & Y & _); [left|]. destruct Y. auto.
Qed.
End Generation.

(** ** Theorems *)

(** C1: leases exclude.  On any interleaving of any number of instances in which
    every job ends, or is lost, before its lease does: a slot has at most one job in
    flight, that job's row is exactly as it was claimed, ids and schedule keys stay
    unique, attempts stay within the limit, and completed and failed slots never
    change again. *)
Theorem lease_mutual_exclusion lease m m' :
  0 <= lease -> machine_inv m -> rtc (Step lease true) m m' ->
  machine_inv m' /\ (forall s, s ∈ mc_slots m -> terminal s -> s ∈ mc_slots m').
Proof.
  intros Hl I R. induction R as [m|m m1 m' S _ IH]; [auto|].
  destruct (step_inv lease m m1 Hl S I) as [I1 T1]. destruct (IH I1) as [I2 T2]. auto.
Qed.

(** Note: running a claimed slot, with any dispatcher that works on other tables and
    whatever statements fail, is one step of the machine: the slot is completed,
    failed with one more attempt, or left as it was (always so once the deadline of
    the job has passed). *)
Theorem execute_is_step `{Env} {D} `{PartLaws D SchedTables} dispatch clk slot (w : World D) lease timely l1 l2 :
  keeps_sched (dispatch slot) ->
  Step lease timely (MkMachine (x_retry clk) (slots_of (db w)) (l1 ++ slot :: l2))
    (MkMachine (x_retry clk) (slots_of (db (execute dispatch clk slot w).1)) (l1 ++ l2)) /\
  (x_expired clk = true -> slots_of (db (execute dispatch clk slot w).1) = slots_of (db w)).
Proof.
  intros K. pose proof (execute_ended dispatch clk slot (slots_of (db w)) K w eq_refl) as E.
  destruct (execute dispatch clk slot w) as [w' [u|e]]; [|destruct E]. cbn [fst]. destruct E as [-> |(X & run & [-> | ->])].
  - split; [constructor|auto].
  - split; [constructor|congruence].
  - split; [constructor|congruence].
Qed.

(** Note: without faults, execution stores one run with the outcome, its duration and
    its records or error code, and updates the slot: completed, due again after the
    backoff, or failed at the fifth attempt.  If the deadline had passed, the run
    stays [running] and the slot stays claimed, its attempt not counted. *)
Theorem execute_outcome `{Healthy} {D} `{PartLaws D SchedTables} dispatch clk slot (w : World D) :
  Effects.newID (nids w) ∉ ru_ID <$> runs_of (db w) -> keeps_sched (dispatch slot) ->
  exists w', execute dispatch clk slot w = (w', Ok tt) /\
    part (db w') = final_sched clk slot (Effects.newID (nids w)) (part (db w)) (job_result (dispatch slot (started clk slot w)).2).
Proof. apply execute_final. Qed.

(** [s'] is the row of [slot] after its job ended with [r]. *)
Definition settled (clk : ExecClock) (slot s' : Slot) (r : JobError + Z) : Prop :=
  sl_ID s' = sl_ID slot /\ slot_key s' = slot_key slot /\
  match r with
  | inr _ => sl_Status s' = SlotCompleted /\ sl_Attempts s' = sl_Attempts slot /\ forall t, claimable t s' = false
  | inl _ =>
      sl_Attempts s' = sl_Attempts slot + 1 /\ sl_ClaimedBy s' = "" /\
      if sl_Attempts slot <? 4
      then sl_Status s' = SlotDue /\ let b := 2 ^ sl_Attempts slot * Second in
           forall t, (claimable t s' = true -> 8 * b <= 10 * (t - x_retry clk)) /\
             (12 * b <= 10 * (t - x_retry clk) -> sl_SlotTime slot <= t -> claimable t s' = true)
      else sl_Status s' = SlotFailed /\ forall t, claimable t s' = false
  end.

Lemma completed_settled clk slot run n : settled clk slot (completed run slot) (inr n).
Proof. repeat split. Qed.

Lemma backoff_pow a : 0 <= a < 4 -> retryBackoff (a + 1) = 2 ^ a * Second.
Proof. intros Ha. assert (a = 0 \/ a = 1 \/ a = 2 \/ a = 3) as [->|[->|[->| ->]]] by lia; reflexivity. Qed.

Lemma failed_settled clk slot run e : 0 <= sl_Attempts slot < 5 ->
  settled clk slot (failed run (sl_Attempts slot + 1) (nextRetry (sl_Attempts slot + 1) (x_retry clk)) slot) (inl e).
Proof.
  intros Ha. split; [reflexivity|]. split; [reflexivity|]. cbn [sl_Attempts sl_ClaimedBy failed]. split; [reflexivity|]. split; [reflexivity|].
  unfold nextRetry, MaxAttempts. destruct (Z.ltb_spec (sl_Attempts slot) 4).
  - destruct (Z.ltb_spec (sl_Attempts slot + 1) 5); [|lia]. rewrite backoff_pow by lia. split; [reflexivity|]. intros t. set (b := 2 ^ sl_Attempts slot * Second) in *.
    assert (0 < b) by (unfold b; apply Z.mul_pos_pos; [apply Z.pow_pos_nonneg; lia|reflexivity]).
    unfold claimable, failed. cbn [sl_Status sl_SlotTime sl_NextRetryAt]. unfold Add. rewrite andb_true_iff, !Z.leb_le. lia.
  - destruct (Z.ltb_spec (sl_Attempts slot + 1) 5); [lia|]. split; reflexivity.
Qed.

Lemma update_row (f : Slot -> Slot) (slot : Slot) (slots : list Slot) : NoDup (sl_ID <$> slots) -> slot ∈ slots ->
  (fun s => if N.eqb (sl_ID s) (sl_ID slot) then f s else s) <$> slots = (fun s => if N.eqb (sl_ID s) (sl_ID slot) then f slot else s) <$> slots.
Proof.
  intros N Hs. apply list_fmap_ext. intros i x Hi. destruct (N.eqb_spec (sl_ID x) (sl_ID slot)) as [E|]; [|reflexivity].
  f_equal. apply (NoDup_key_unique sl_ID slots); auto. now apply list_elem_of_lookup_2 in Hi.
Qed.

(** C36: a job that ends within its deadline settles its slot.  Without faults, whatever
    job runs on the other tables: the execution returns, exactly the row of the slot
    changes, and one run is added to the history, finished, linked from the slot, and
    completed with the records of the job or failed.  After a success the slot is
    completed and is never claimed again, its attempts unchanged.  After a failure the
    attempts are one more; before the fifth the slot is due again, claimable by any
    instance after a backoff within 20% of 1, 2, 4 and 8 seconds in turn and not
    before; at the fifth it is failed and never claimed again. *)
Theorem execution_settles `{Healthy} {D} `{PartLaws D SchedTables} dispatch clk slot (w : World D) :
  Effects.newID (nids w) ∉ ru_ID <$> runs_of (db w) -> keeps_sched (dispatch slot) ->
  NoDup (sl_ID <$> slots_of (db w)) -> slot ∈ slots_of (db w) -> 0 <= sl_Attempts slot < 5 -> x_expired clk = false ->
  let r := job_result (dispatch slot (started clk slot w)).2 in
  exists w' s' run, execute dispatch clk slot w = (w', Ok tt) /\
    slots_of (db w') = (fun s => if N.eqb (sl_ID s) (sl_ID slot) then s' else s) <$> slots_of (db w) /\ settled clk slot s' r /\
    runs_of (db w') = runs_of (db w) ++ [run] /\ sl_ScheduleRunID s' = Some (ru_ID run) /\ ru_SlotID run = Some (sl_ID slot) /\
    ru_JobType run = sl_JobType slot /\ ru_StartedAt run = x_start clk /\ ru_CompletedAt run = Some (x_db clk) /\
    match r with inr n => ru_Status run = RunCompleted /\ ru_RecordsAffected run = n | inl _ => ru_Status run = RunFailed end.
Proof.
  intros N K Nd Hs Ha X r. destruct (execute_final dispatch clk slot w N K) as (w' & E & F). fold r in F. exists w'. unfold slots_of, runs_of in *.
  rewrite F. unfold final_sched. rewrite X. destruct r as [e|n].
  - eexists (failed _ _ _ slot), _. split; [exact E|]. split; [now apply (update_row (failed _ _ _))|]. split; [now apply failed_settled|].
    split; [reflexivity|]. repeat split.
  - eexists (completed _ slot), _. split; [exact E|]. split; [now apply (update_row (completed _))|]. split; [apply completed_settled|].
    split; [reflexivity|]. repeat split.
Qed.


Lemma claim_step lease inst t x :
  claimable t x = true -> Step lease true (MkMachine t [x] []) (MkMachine t [claim inst t lease x] [claim inst t lease x]).
Proof.
  intros Hx. apply (st_claim lease true (fun _ => false) inst t 1 [x] []). unfold pg_ClaimDue, pg_Claimable. cbn. rewrite Hx. cbn.
  rewrite bool_decide_true by left. reflexivity.
Qed.

(** A claimed slot whose job is lost is claimed again once its lease has passed. *)
Lemma reclaim_steps lease inst t s :
  0 <= lease -> sl_Status s = SlotClaimed -> sl_LeaseExpiresAt s = Some (t + lease) ->
  let t' := t + lease + 1 in
  rtc (Step lease true) (MkMachine t [s] [s]) (MkMachine t' [claim inst t' lease s] [claim inst t' lease s]).
Proof.
  intros Hl Es El t'. eapply rtc_l; [apply (st_lost lease true t [s] [] s [])|]. cbn [app].
  eapply rtc_l; [apply (st_time lease true t t' [s] []); [unfold t'; lia|constructor]|]. apply rtc_once, claim_step.
  unfold claimable. rewrite Es, El. apply Z.ltb_lt. unfold t'. lia.
Qed.

(** Note: a job that outlives its deadline does not use up an attempt.  From any
    table holding one due slot, and with every job lost within its lease, the slot
    is claimed again and again, its attempts unchanged, for as long as one likes:
    the retry limit does not bound timeouts. *)
Theorem timeouts_never_exhaust lease now s :
  0 <= lease -> sl_Status s = SlotDue -> sl_SlotTime s <= now -> sl_NextRetryAt s = None ->
  forall n : nat, exists s', sl_Status s' = SlotClaimed /\ sl_Attempts s' = sl_Attempts s /\
    rtc (Step lease true) (MkMachine now [s] []) (MkMachine (now + Z.of_nat n * (lease + 1)) [s'] [s']).
Proof.
  intros Hl Es Ht En n.
  assert (G : exists s', (sl_Status s' = SlotClaimed /\ sl_Attempts s' = sl_Attempts s /\
      sl_LeaseExpiresAt s' = Some (now + Z.of_nat n * (lease + 1) + lease)) /\
    rtc (Step lease true) (MkMachine now [s] []) (MkMachine (now + Z.of_nat n * (lease + 1)) [s'] [s'])).
  { induction n as [|n (s1 & (E1 & A1 & L1) & R)].
    - exists (claim "a" now lease s). rewrite Z.add_0_r. split; [auto|]. apply rtc_once, claim_step.
      unfold claimable. rewrite Es, En. apply andb_true_iff. split; [now apply Z.leb_le|reflexivity].
    - set (t := now + Z.of_nat n * (lease + 1)) in *. replace (now + Z.of_nat (S n) * (lease + 1)) with (t + lease + 1) by lia.
      exists (claim "a" (t + lease + 1) lease s1). split; [auto|]. etransitivity; [exact R|]. now apply reclaim_steps. }
  destruct G as (s' & (E & A & _) & R). eauto.
Qed.

Definition demo_slot : Slot :=
  MkSlot 100 20 JobForecastCollection (Some 9%N) 0 SlotDue "" None None 0 None None 0 0.

(** Note: nothing but time protects a claim.  If a job may end after its lease, a
    second instance can complete the slot and the first one then puts it back to
    due: the ending statements do not check who holds the slot. *)
Theorem late_worker_reopens_slot :
  exists m1 m2, machine_inv (MkMachine 0 [demo_slot] []) /\
    rtc (Step 10 false) (MkMachine 0 [demo_slot] []) m1 /\ sl_Status <$> mc_slots m1 = [SlotCompleted] /\
    rtc (Step 10 false) m1 m2 /\ sl_Status <$> mc_slots m2 = [SlotDue].
Proof.
  set (a := claim "a" 0 10 demo_slot). set (b := claim "b" 11 10 a).
  exists (MkMachine 11 [completed 7 b] [a]), (MkMachine 11 [failed 8 1 (Some (11 + Second)) (completed 7 b)] []). split_and!.
  - constructor; [apply NoDup_singleton|apply NoDup_singleton| |constructor|apply NoDup_nil_2].
    constructor; [|constructor]. unfold slot_ok, MaxAttempts. cbn. lia.
  - eapply rtc_l; [apply (st_claim 10 false (fun _ => false) "a" 0 1 [demo_slot] [] [a] [a]); vm_compute; reflexivity|]. cbn [app].
    eapply rtc_l; [apply (st_time 10 false 0 11 [a] [a]); [lia|discriminate]|].
    eapply rtc_l; [apply (st_claim 10 false (fun _ => false) "b" 11 1 [a] [a] [b] [b]); vm_compute; reflexivity|]. cbn [app].
    apply rtc_once. exact (st_complete 10 false 11 7 [b] [a] b []).
  - reflexivity.
  - apply rtc_once. exact (st_fail 10 false 11 8 [completed 7 b] [] a []).
  - reflexivity.
Qed.

(** *** A concrete database *)

Record Database := MkDatabase {
  d_sched : SchedTables;
  d_catalog : CatalogService.CatalogTables;
  d_collection : CollectionTables;
  d_obs : ObsTables
}.

#[local] Instance sched_part : Part Database SchedTables :=
  {| part := d_sched; put := fun t d => MkDatabase t (d_catalog d) (d_collection d) (d_obs d) |}.
#[local] Instance catalog_part : Part Database CatalogService.CatalogTables :=
  {| part := d_catalog; put := fun t d => MkDatabase (d_sched d) t (d_collection d) (d_obs d) |}.
#[local] Instance collection_part : Part Database CollectionTables :=
  {| part := d_collection; put := fun t d => MkDatabase (d_sched d) (d_catalog d) t (d_obs d) |}.
#[local] Instance obs_part : Part Database ObsTables :=
  {| part := d_obs; put := fun t d => MkDatabase (d_sched d) (d_catalog d) (d_collection d) t |}.
#[local] Instance sched_laws : PartLaws Database SchedTables.
Proof. constructor; [reflexivity|now intros []|reflexivity]. Qed.
#[local] Instance catalog_laws : PartLaws Database CatalogService.CatalogTables.
Proof. constructor; [reflexivity|now intros []|reflexivity]. Qed.
#[local] Instance disjoint1 : Disjoint Database SchedTables CatalogService.CatalogTables.
Proof. constructor. reflexivity. Qed.
#[local] Instance disjoint2 : Disjoint Database CatalogService.CatalogTables SchedTables.
Proof. constructor. reflexivity. Qed.
#[local] Instance disjoint3 : Disjoint Database CollectionTables SchedTables.
Proof. constructor. reflexivity. Qed.
#[local] Instance disjoint4 : Disjoint Database ObsTables SchedTables.
Proof. constructor. reflexivity. Qed.

Definition demo_site : Location := MkLocation 9 1 "Johor" Float64.f1 Float64.f1 "MY" "Asia/Kuala_Lumpur" StatusActive 0 0.
Definition demo_config : ProviderConfiguration := MkConfiguration 20 1 7 StatusActive "" DefaultSchedule "a1" "validated" 0 0.
Definition demo_provider : Provider := MkProvider 7 "Demo" "demo" "https://example.org" StatusActive "a" "u" 0 0.

Definition demo_claimed : Slot := claim "a" 5 (5 * Minute) demo_slot.

Definition demo_db (slots : list Slot) : Database :=
  MkDatabase (MkSched slots []) (CatalogService.MkCatalog [1%N] [demo_site] [demo_provider] [demo_config] [])
    (MkCT [demo_provider] [] [] [] ∅ [] [] []) (MkObsTables [] [] []).

#[local] Instance no_adapters : CollectDeps :=
  {| adapters := ∅; resolveCred := fun _ => ""; payloads := MkPayloadStore (fun _ _ => true) (fun _ => Error "gone"); digest := fun s => s |}.
#[local] Instance no_source : ObservationSource := {| Source := "metar"; FetchObservations := fun _ => Error "unreachable" |}.

Definition demo_router : Dispatcher (D := Database) :=
  jobRouter (fun _ => "") (MkClock 5 6 7) (MkAnalysis (ret 1) (ret 2) (ret 3)).

Lemma demo_router_keeps slot : keeps_sched (demo_router slot).
Proof. apply router_keeps; apply keeps_ret. Qed.

Definition demo_exec (expired : bool) : ExecClock := MkExec 5 8 9 9 expired.

Lemma demo_machine_inv : machine_inv (MkMachine 5 [demo_claimed] [demo_claimed]).
Proof.
  constructor; cbn.
  - apply NoDup_singleton.
  - apply NoDup_singleton.
  - repeat constructor; cbn; unfold MaxAttempts; try lia. eexists. reflexivity.
  - constructor; [|constructor]. split; [left|]. split; [reflexivity|]. cbn. unfold Add, Minute, Second. lia.
  - apply NoDup_singleton.
Qed.

Lemma lease_mutual_exclusion_witness :
  machine_inv (MkMachine 6 (pg_CompleteSlot 100 7 [demo_claimed]) []).
Proof.
  refine (proj1 (lease_mutual_exclusion (5 * Minute) (MkMachine 5 [demo_claimed] [demo_claimed]) _ _ demo_machine_inv _)); [discriminate|].
  eapply rtc_l; [apply (st_time _ _ 5 6 [demo_claimed] [demo_claimed]); [lia|]|].
  - intros _. constructor; [|constructor]. vm_compute. discriminate.
  - apply rtc_once. exact (st_complete _ _ 6 7 [demo_claimed] [] demo_claimed []).
Defined.

Lemma execute_is_step_witness :
  slots_of (db (execute demo_router (demo_exec true) demo_claimed (MkWorld (demo_db [demo_claimed]) 0 0)).1) = [demo_claimed].
Proof.
  exact (proj2 (execute_is_step demo_router (demo_exec true) demo_claimed (MkWorld (demo_db [demo_claimed]) 0 0) 5 true [] []
    (demo_router_keeps demo_claimed)) eq_refl).
Defined.

Lemma execution_settles_witness :
  exists w' s', execute demo_router (demo_exec false) demo_claimed (MkWorld (demo_db [demo_claimed]) 0 0) = (w', Ok tt) /\
    slots_of (db w') = [s'] /\ sl_Attempts s' = 1 /\ sl_Status s' = SlotDue.
Proof.
  destruct (execution_settles demo_router (demo_exec false) demo_claimed (MkWorld (demo_db [demo_claimed]) 0 0)) as (w' & s' & run & E & Es & S & _).
  - apply not_elem_of_nil.
  - apply demo_router_keeps.
  - apply NoDup_singleton.
  - left.
  - split; [discriminate|reflexivity].
  - reflexivity.
  - exists w', s'. split; [exact E|]. split; [exact Es|]. destruct S as (_ & _ & S). vm_compute in S. destruct S as (A1 & _ & A2 & _). exact (conj A1 A2).
Defined.

Lemma execute_outcome_witness :
  exists w', execute demo_router (demo_exec false) demo_claimed (MkWorld (demo_db [demo_claimed]) 0 0) = (w', Ok tt) /\
    sl_Attempts <$> slots_of (db w') = [1] /\ sl_NextRetryAt <$> slots_of (db w') = [Some (9 + Second)].
Proof.
  destruct (execute_outcome demo_router (demo_exec false) demo_claimed (MkWorld (demo_db [demo_claimed]) 0 0)) as (w' & E & F).
  - apply not_elem_of_nil.
  - apply demo_router_keeps.
  - exists w'. split; [exact E|]. unfold slots_of. rewrite F. vm_compute. auto.
Defined.

Definition demo_cfg : Config := New "a" (MkConfig "" 0 0 0 0 0 0 0 20 5 20 []).


Lemma timeouts_never_exhaust_witness :
  exists s', sl_Status s' = SlotClaimed /\ sl_Attempts s' = 0 /\
    rtc (Step (5 * Minute) true) (MkMachine 5 [demo_slot] []) (MkMachine (5 + 1000 * (5 * Minute + 1)) [s'] [s']).
Proof.
  refine (timeouts_never_exhaust (5 * Minute) 5 demo_slot _ _ _ _ 1000); [discriminate|reflexivity|discriminate|reflexivity].
Defined.

End SchedulerProps.
