(* ===== verification/Transport.v ===== *)
(** * The provider transport ([adapters/forecastproviders/providerhttp])

    [Get] is the GET shared by the provider adapters: up to [maxAttempts] requests,
    with backoff and rate limiting before each, a bounded body read, and the
    classification of the outcome into a [ProviderError] ([ports/errors.go]).

    The network is a parameter, [Upstream]: what each request answers, how long it
    takes, and whether a wait is cut short by the context.  A header is what its
    [Get] returns. *)

From Stdlib Require Import ZArith Lia Bool String.
From stdpp Require Import base list strings gmap pretty.
From S2P Require Import Prelude Float64 GoTime GoStrings Collection.

Import Collection.
Local Open Scope string_scope.
Local Open Scope list_scope.
Local Open Scope Z_scope.

Module Transport.

(** ** ports/errors.go *)

Inductive ErrorCode :=
| ErrTimeout | ErrProvider5xx | ErrRateLimited | ErrSchemaDrift | ErrNetworkLocal | ErrDBError
| ErrPayloadWriteFailed | ErrCircuitOpen | ErrInvalidCredentials.

#[export] Instance ErrorCode_eq_dec : EqDecision ErrorCode.
Proof. solve_decision. Defined.

Definition ErrorCode_String (c : ErrorCode) : string :=
  match c with
  | ErrTimeout => "timeout"
  | ErrProvider5xx => "provider_5xx"
  | ErrRateLimited => "rate_limited"
  | ErrSchemaDrift => "schema_drift"
  | ErrNetworkLocal => "network_local"
  | ErrDBError => "db_error"
  | ErrPayloadWriteFailed => "payload_write_failed"
  | ErrCircuitOpen => "circuit_open"
  | ErrInvalidCredentials => "invalid_credentials"
  end.

Record RateLimit := MkRateLimit {
  rl_Limit : Z;
  rl_Remaining : Z;
  rl_Reset : option Time;
  rl_RetryAfter : option Duration
}.

(** A Go error of the transport, by what the classification asks of it:
    [errors.Is(err, context.DeadlineExceeded)] and [Timeout()]. *)
Record NetError := MkNetError { isDeadline : bool; hasTimeout : bool }.

Record ProviderError := MkProviderError {
  Code : ErrorCode;
  pe_HTTPStatus : Z;
  Retryable : bool;
  pe_RateLimit : option RateLimit;
  cause : option NetError
}.

Definition NewProviderError (code : ErrorCode) (httpStatus : Z) (retryable : bool) (c : option NetError) : ProviderError :=
  MkProviderError code httpStatus retryable None c.

(** [Error]: the code and the status only. *)
Definition ProviderError_Error (e : ProviderError) : string :=
  if 0 <? pe_HTTPStatus e
  then "provider error: " +:+ ErrorCode_String (Code e) +:+ " (status " +:+ pretty (pe_HTTPStatus e) +:+ ")"
  else "provider error: " +:+ ErrorCode_String (Code e).

Definition ProviderError_Outcome (e : ProviderError) : Outcome :=
  match Code e with
  | ErrTimeout => OutcomeTimeout
  | ErrRateLimited => OutcomeRateLimited
  | ErrInvalidCredentials => OutcomeAuthFailed
  | _ => OutcomeFailed
  end.

(** ** The network *)

Definition Header : Type := gmap string (list string).

Definition header_Get (h : Header) (k : string) : string := default "" (h !! k ≫= head).
Definition header_Set (h : Header) (k v : string) : Header := <[k := [v]]> h.

Record HttpResponse := MkHttp {
  hr_StatusCode : Z;
  hr_Header : string -> string;
  hr_Body : string;
  hr_ReadError : option NetError
}.

(** The [k]-th request of a call. *)
Class Upstream := {
  newRequest : string -> option NetError;
  roundTrip : nat -> string -> Header -> NetError + HttpResponse;
  elapsed : nat -> Duration;
  afterCall : nat -> Time;
  jitterRand : nat -> float64;
  backoffDone : nat -> Duration -> option NetError;
  limiterDone : nat -> option NetError;
  http_ParseTime : string -> option Time;
}.

(** ** client.go *)

Definition defaultUserAgent : string := "ForecastIQ/1.0 (+https://forecastiq.local)".
Definition defaultMaxRespByte : Z := Z.shiftl 10 20.
Definition defaultMaxAttempts : Z := 5.
Definition defaultRetryBase : Duration := Second.

(** Without the HTTP client itself; [hasLimiter] is [Limiter != nil]. *)
Record Config := MkConfig {
  UserAgent : string;
  hasLimiter : bool;
  MaxResponseBytes : Z;
  MaxAttempts : Z;
  RetryBaseDelay : Duration;
  RetryableOverride : option (Z -> bool -> bool)
}.

Record Client := MkClient {
  limiter : bool;
  userAgent : string;
  maxRespBytes : Z;
  maxAttempts : Z;
  retryBase : Duration;
  retryOverride : option (Z -> bool -> bool)
}.

Definition New (cfg : Config) : Client :=
  MkClient (hasLimiter cfg)
    (if String.eqb (UserAgent cfg) "" then defaultUserAgent else UserAgent cfg)
    (if MaxResponseBytes cfg <=? 0 then defaultMaxRespByte else MaxResponseBytes cfg)
    (if MaxAttempts cfg <=? 0 then defaultMaxAttempts else MaxAttempts cfg)
    (if RetryBaseDelay cfg <=? 0 then defaultRetryBase else RetryBaseDelay cfg)
    (RetryableOverride cfg).

Record Response := MkResponse {
  Body : string;
  StatusCode : Z;
  rs_LatencyMS : Z;
  Attempts : Z;
  RequestID : string;
  rs_RateLimit : option RateLimit
}.

Definition noResponse : Response := MkResponse "" 0 0 0 "" None.

Definition isTimeout (e : NetError) : bool := hasTimeout e.

Definition classify (status : Z) (rl : option RateLimit) (err : option NetError) : ProviderError :=
  match err with
  | Some e =>
      if isDeadline e || isTimeout e then NewProviderError ErrTimeout status true err
      else if 500 <=? status then NewProviderError ErrProvider5xx status true err
      else NewProviderError ErrNetworkLocal status true err
  | None =>
      if status =? 429 then MkProviderError ErrRateLimited status true rl None
      else if (status =? 401) || (status =? 403) then NewProviderError ErrInvalidCredentials status false None
      else if 500 <=? status then NewProviderError ErrProvider5xx status true None
      else NewProviderError ErrNetworkLocal status false None
  end.

Section Get.
Context `{Upstream}.

(** [parseRateLimit]; [now] is the reading of [time.Until]. *)
Definition parseRetryAfter (now : Time) (v : string) : option Duration :=
  if String.eqb v "" then None else
  match Atoi v with
  | Some secs => Some (wrap64 (secs * Second))
  | None => (fun t => let d := Sub t now in if d <? 0 then 0 else d) <$> http_ParseTime v
  end.

Definition headerInt (v : string) : option Z := if String.eqb v "" then None else Atoi v.

Definition parseRateLimit (now : Time) (h : string -> string) : option RateLimit :=
  let retryAfter := parseRetryAfter now (h "Retry-After") in
  let limit := headerInt (h "X-RateLimit-Limit") in
  let remaining := headerInt (h "X-RateLimit-Remaining") in
  let reset := headerInt (h "X-RateLimit-Reset") in
  match retryAfter, limit, remaining, reset with
  | None, None, None, None => None
  | _, _, _, _ => Some (MkRateLimit (default 0 limit) (default (-1) remaining) ((fun e => e * Second) <$> reset) retryAfter)
  end.

(** What one request yields. *)
Record Once := MkOnce {
  on_body : string;
  on_status : Z;
  on_rl : option RateLimit;
  on_reqID : string;
  on_latency : Z;
  on_err : option NetError
}.

(** The request carries the caller's header, the agent and a default [Accept]. *)
Definition requestHeader (c : Client) (header : Header) : Header :=
  let h := header_Set header "User-Agent" (userAgent c) in
  if String.eqb (header_Get h "Accept") "" then header_Set h "Accept" "application/json" else h.

(** [io.ReadAll] of the body limited to one byte more than the bound: a longer body
    is cut there, before any later read error. *)
Definition doOnce (c : Client) (k : nat) (endpoint : string) (header : Header) : Once :=
  match newRequest endpoint with
  | Some err => MkOnce "" 0 None "" 0 (Some err)
  | None =>
      let latencyMS := Milliseconds (elapsed k) in
      match roundTrip k endpoint (requestHeader c header) with
      | inl err => MkOnce "" 0 None "" latencyMS (Some err)
      | inr res =>
          let once body err := MkOnce body (hr_StatusCode res) (parseRateLimit (afterCall k) (hr_Header res))
                                 (hr_Header res "X-Request-Id") latencyMS err in
          if maxRespBytes c <? Z.of_nat (String.length (hr_Body res)) then once "" (Some (MkNetError false false))
          else match hr_ReadError res with
               | Some err => once "" (Some err)
               | None => once (hr_Body res) None
               end
      end
  end.

(** The delay of [backoff], with its jitter. *)
Definition backoffDelay (c : Client) (attempt : nat) : Duration :=
  let base := (f64_of_Z (retryBase c) * f64_of_Z (wrap64 (Z.shiftl 1 (Z.of_nat attempt - 1))))%f64 in
  let jitter := (f1 + (jitterRand attempt * f64_lit 4 10 - f64_lit 2 10))%f64 in
  default minInt64 (f64_to_Z (base * jitter)%f64).

(** The waits before an attempt: the error that cut one short. *)
Definition waits (c : Client) (attempt : nat) : option NetError :=
  match (if (0 <? attempt)%nat then backoffDone attempt (backoffDelay c attempt) else None) with
  | Some err => Some err
  | None => if limiter c then limiterDone attempt else None
  end.

Definition record_attempt (resp : Response) (attempt : nat) (o : Once) : Response :=
  MkResponse (if String.eqb (on_body o) "" then Body resp else on_body o)
    (if 0 <? on_status o then on_status o else StatusCode resp)
    (on_latency o) (Z.of_nat attempt + 1)
    (if String.eqb (on_reqID o) "" then RequestID resp else on_reqID o)
    (match on_rl o with Some rl => Some rl | None => rs_RateLimit resp end).

Definition succeeded (o : Once) : bool :=
  match on_err o with None => (200 <=? on_status o) && (on_status o <? 300) | Some _ => false end.

Definition wants_retry (c : Client) (o : Once) (e : ProviderError) : bool :=
  match retryOverride c with Some f => f (on_status o) (Retryable e) | None => Retryable e end.

(** The loop, with [n] attempts left. *)
Fixpoint get_loop (c : Client) (endpoint : string) (header : Header) (n : nat) (attempt : nat) (resp : Response)
    (last : option ProviderError) : Response * option ProviderError :=
  match n with
  | O => (resp, last)
  | S n =>
      match waits c attempt with
      | Some err => (resp, Some (NewProviderError ErrTimeout (StatusCode resp) false (Some err)))
      | None =>
          let o := doOnce c attempt endpoint header in
          let resp := record_attempt resp attempt o in
          if succeeded o then (resp, None)
          else let e := classify (on_status o) (on_rl o) (on_err o) in
               if wants_retry c o e then get_loop c endpoint header n (S attempt) resp (Some e)
               else (resp, Some e)
      end
  end.

Definition Get (c : Client) (endpoint : string) (header : Header) : Response * option ProviderError :=
  get_loop c endpoint header (Z.to_nat (maxAttempts c)) 0 noResponse None.
End Get.

(** ** What [Get] returns *)

Section Facts.
Context `{Upstream} (c : Client) (endpoint : string) (header : Header).

Abbreviation once k := (doOnce c k endpoint header).
Abbreviation failure k := (classify (on_status (once k)) (on_rl (once k)) (on_err (once k))).

(** Attempt [k] failed in a way the client retries. *)
Definition retried (k : nat) : Prop :=
  succeeded (once k) = false /\ wants_retry c (once k) (failure k) = true.

(** The response after the first [k] attempts. *)
Definition seen (k : nat) : Response := foldl (fun r j => record_attempt r j (once j)) noResponse (seq 0 k).

Lemma seen_S k : seen (S k) = record_attempt (seen k) k (once k).
Proof. unfold seen. now rewrite seq_S, foldl_snoc. Qed.

(** The three ways out: a success, a wait cut short before attempt [k], or the
    failure of the last attempt, which is final or the last one allowed. *)
Definition ended (N k : nat) (err : option ProviderError) : Prop :=
  match err with
  | None => exists j, k = S j /\ succeeded (once j) = true
  | Some e =>
      (exists w, (k < N)%nat /\ waits c k = Some w /\ (forall j, S j = k -> retried j) /\
                 e = NewProviderError ErrTimeout (StatusCode (seen k)) false (Some w)) \/
      (exists j, k = S j /\ succeeded (once j) = false /\ e = failure j /\
                 (wants_retry c (once j) (failure j) = false \/ k = N))
  end.

Lemma get_loop_ended N n k last :
  (k + n = N)%nat -> (forall j, (j < k)%nat -> waits c j = None /\ retried j) ->
  (k = O -> 0 < n)%nat -> (forall j, k = S j -> last = Some (failure j)) ->
  exists k', (k <= k' <= N)%nat /\
    (get_loop c endpoint header n k (seen k) last).1 = seen k' /\
    ended N k' (get_loop c endpoint header n k (seen k) last).2 /\
    (forall j, (j < k')%nat -> waits c j = None) /\ (forall j, (S j < k')%nat -> retried j).
Proof.
  revert k last. induction n as [|n IH]; intros k last Hn Hp Hz Hl; cbn [get_loop].
  { exists k. split; [lia|]. split; [reflexivity|]. split; [|split; intros; apply Hp; lia].
    destruct k as [|j]; [lia|]. rewrite (Hl j eq_refl). right. exists j. destruct (Hp j) as [_ [Hs _]]; [lia|].
    repeat split; [assumption|right; lia]. }
  destruct (waits c k) as [w|] eqn:Ew.
  { exists k. split; [lia|]. split; [reflexivity|]. split; [|split; intros; apply Hp; lia].
    left. exists w. split; [lia|]. split; [assumption|]. split; [intros; apply Hp; lia|reflexivity]. }
  assert (Hw : forall j, (j < S k)%nat -> waits c j = None).
  { intros j Hj. destruct (decide (j = k)) as [->|]; [assumption|]. apply Hp. lia. }
  assert (Hr : forall j, (S j < S k)%nat -> retried j) by (intros; apply Hp; lia).
  destruct (succeeded (once k)) eqn:Es.
  { exists (S k). rewrite seen_S. split; [lia|]. split; [reflexivity|]. split; [now exists k|now split]. }
  destruct (wants_retry c (once k) (failure k)) eqn:Er.
  - rewrite <- seen_S. destruct (IH (S k) (Some (failure k))) as (k' & ? & ?); [lia| |lia|now intros j [= ->]|].
    + intros j Hj. split; [now apply Hw|]. destruct (decide (j = k)) as [->|]; [now split|]. apply Hr. lia.
    + exists k'. split; [lia|assumption].
  - exists (S k). rewrite seen_S. split; [lia|]. split; [reflexivity|]. split; [right; exists k; auto|now split].
Qed.

(** [v] is the last non-empty value of [f] below [k], or empty. *)
Definition is_latest (f : nat -> string) (k : nat) (v : string) : Prop :=
  (v = "" /\ forall j, (j < k)%nat -> f j = "") \/
  exists j, (j < k)%nat /\ v = f j /\ f j <> "" /\ forall i, (j < i < k)%nat -> f i = "".

Lemma is_latest_S f k v : is_latest f k v -> is_latest f (S k) (if String.eqb (f k) "" then v else f k).
Proof.
  intros L. destruct (String.eqb_spec (f k) "") as [E|E].
  - destruct L as [[-> L]|(j & Hj & -> & Hn & L)].
    + left. split; [reflexivity|]. intros j Hj. destruct (decide (j = k)) as [->|]; [assumption|]. apply L. lia.
    + right. exists j. repeat split; [lia|assumption|]. intros i Hi. destruct (decide (i = k)) as [->|]; [assumption|].
      apply L. lia.
  - right. exists k. repeat split; [lia|assumption|lia].
Qed.

Lemma seen_fields k :
  Attempts (seen k) = Z.of_nat k /\ is_latest (fun j => on_body (once j)) k (Body (seen k)) /\
  is_latest (fun j => on_reqID (once j)) k (RequestID (seen k)).
Proof.
  induction k as [|k (A & B & R)]; [repeat split; left; split; try reflexivity; lia|].
  rewrite seen_S. unfold record_attempt. cbn [Attempts Body RequestID].
  repeat split; [lia|exact (is_latest_S _ _ _ B)|exact (is_latest_S _ _ _ R)].
Qed.
End Facts.

Lemma New_maxAttempts cfg : 0 < maxAttempts (New cfg).
Proof. unfold New. cbn. destruct (MaxAttempts cfg <=? 0) eqn:E; bool_simp; [reflexivity|assumption]. Qed.

(** ** Theorems *)

(** Note: [Get] makes [k] requests, at most [maxAttempts] of them, with no wait cut
    short before any and every one but the last failed and retryable.  It returns
    without error exactly when the last one succeeded; otherwise its error is the
    interrupted wait (a timeout, not retryable) or the classification of the last
    request, which was final or the last allowed.  The body and request id are the
    last non-empty ones received, whatever the status they came with. *)
Theorem get_exact `{Upstream} cfg endpoint header :
  let c := New cfg in
  let '(resp, err) := Get c endpoint header in
  exists k, (k <= Z.to_nat (maxAttempts c))%nat /\ Attempts resp = Z.of_nat k /\
    is_latest (fun j => on_body (doOnce c j endpoint header)) k (Body resp) /\
    is_latest (fun j => on_reqID (doOnce c j endpoint header)) k (RequestID resp) /\
    ended c endpoint header (Z.to_nat (maxAttempts c)) k err /\
    (forall j, (j < k)%nat -> waits c j = None) /\
    (forall j, (S j < k)%nat -> retried c endpoint header j).
Proof.
  intros c. pose proof (New_maxAttempts cfg) as Hm. fold c in Hm.
  destruct (get_loop_ended c endpoint header (Z.to_nat (maxAttempts c)) (Z.to_nat (maxAttempts c)) 0 None)
    as (k & Hk & E & En & Hw & Hr); try lia.
  change (seen c endpoint header 0) with noResponse in E, En. unfold Get.
  destruct (get_loop _ _ _ _ _ _ _) as [resp err]. cbn [fst snd] in E, En. subst resp.
  destruct (seen_fields c endpoint header k) as (A & B & R). exists k. split; [lia|]. auto 8.
Qed.

(** Note: a retried failure leaves its body behind.  When the next attempt succeeds
    with an empty body, [Get] reports success with the body of the failed attempt. *)
Theorem stale_body_reported `{Upstream} c endpoint header :
  2 <= maxAttempts c -> waits c 0 = None -> waits c 1 = None ->
  retried c endpoint header 0 -> succeeded (doOnce c 1 endpoint header) = true ->
  on_body (doOnce c 1 endpoint header) = "" ->
  let '(resp, err) := Get c endpoint header in
  err = None /\ Body resp = on_body (doOnce c 0 endpoint header) /\
  StatusCode resp = on_status (doOnce c 1 endpoint header).
Proof.
  intros Hm W0 W1 [Hs Hr] Hok Hb. unfold Get.
  destruct (Z.to_nat (maxAttempts c)) as [|[|n]] eqn:E; [lia|lia|].
  cbn [get_loop]. rewrite W0, Hs, Hr, W1, Hok. unfold record_attempt. cbn [Body StatusCode]. rewrite Hb.
  pose proof Hok as Hok'. unfold succeeded in Hok'.
  destruct (on_err (doOnce c 1 endpoint header)) in Hok'; [discriminate|]. bool_simp.
  split; [reflexivity|]. split; [now destruct (String.eqb_spec (on_body (doOnce c 0 endpoint header)) "")|].
  now replace (0 <? _) with true by (symmetry; apply Z.ltb_lt; lia).
Qed.

(** A provider that answers 503 with a body, then 200 with none. *)
Definition demo_upstream : Upstream := {|
  newRequest := fun _ => None;
  roundTrip := fun k _ _ => inr (match k with
    | O => MkHttp 503 (fun _ => "") "{unavailable}" None
    | _ => MkHttp 200 (fun _ => "") "" None
    end);
  elapsed := fun _ => 7 * Millisecond; afterCall := fun _ => 0; jitterRand := fun _ => f64_lit 1 2;
  backoffDone := fun _ _ => None; limiterDone := fun _ => None; http_ParseTime := fun _ => None
|}.

Definition demo_client : Client := New (MkConfig "" true 0 0 0 None).

Lemma stale_body_reported_witness :
  let '(resp, err) := Get (H := demo_upstream) demo_client "https://x" ∅ in
  err = None /\ Body resp = "{unavailable}" /\ StatusCode resp = 200.
Proof.
  refine (stale_body_reported (H := demo_upstream) demo_client "https://x" ∅ _ _ _ _ _ _);
    try reflexivity; [discriminate|split; reflexivity].
Defined.

End Transport.
