(* ===== verification/Adapters.v ===== *)
(** * Provider adapters ([adapters/forecastproviders], [adapters/observationsources])

    The Open-Meteo and OpenWeather forecast adapters and the Open-Meteo historical
    observation source: the request, the decomposition of the payload into rows,
    their normalisation and validation, the classification of the whole, and
    OpenWeather's daily budget.

    Decoding of JSON ([json.Unmarshal]), [time.Parse], [strconv.Quote] and the
    payload digest are parameters ([Codec]); the network is that of [Transport].
    A result is built in place by the code; here the rows are folded into [Rows],
    and [UnmappedConditions] and [RateLimit], which only metrics read, are kept
    beside the [ForecastResult] of the port. *)

From Stdlib Require Import ZArith Lia Bool String.
From stdpp Require Import base list strings gmap pretty.
From S2P Require Import Prelude Float64 GoTime GoStrings Uuid Effects Records Matching Collection Observe Transport.

Import Records Collection Observe Transport.
Local Open Scope string_scope.
Local Open Scope list_scope.
Local Open Scope Z_scope.

Module Adapters.

(** ** domain/condition.go *)

Definition ConditionTaxonomyVersion : string := "1".

Definition ConditionClear : string := "clear".
Definition ConditionPartlyCloudy : string := "partly_cloudy".
Definition ConditionCloudy : string := "cloudy".
Definition ConditionFog : string := "fog".
Definition ConditionDrizzle : string := "drizzle".
Definition ConditionRain : string := "rain".
Definition ConditionHeavyRain : string := "heavy_rain".
Definition ConditionThunderstorm : string := "thunderstorm".
Definition ConditionSnow : string := "snow".
Definition ConditionSleet : string := "sleet".
Definition ConditionUnknown : string := "unknown".

Definition canonicalCodes : list string :=
  [ConditionClear; ConditionPartlyCloudy; ConditionCloudy; ConditionFog; ConditionDrizzle; ConditionRain;
   ConditionHeavyRain; ConditionThunderstorm; ConditionSnow; ConditionSleet; ConditionUnknown].

Definition IsValidCanonical (code : string) : bool := existsb (String.eqb code) canonicalCodes.

(** ** Rows *)

(** The fields of the result that the row loop writes, and the id supply. *)
Record Rows := MkRows {
  rw_Snapshots : list ForecastSnapshot;
  rw_InvalidCount : Z;
  rw_InvalidReasons : list string;
  rw_Unmapped : gmap string Z;
  rw_ids : nat
}.

Definition noRows (ids : nat) : Rows := MkRows [] 0 [] ∅ ids.

Definition reject (r : Rows) (reason : string) : Rows :=
  MkRows (rw_Snapshots r) (rw_InvalidCount r + 1) (rw_InvalidReasons r ++ [reason]) (rw_Unmapped r) (rw_ids r).
Definition accept (r : Rows) (s : ForecastSnapshot) : Rows :=
  MkRows (rw_Snapshots r ++ [s]) (rw_InvalidCount r) (rw_InvalidReasons r) (rw_Unmapped r) (rw_ids r).
Definition tally (r : Rows) (code : string) : Rows :=
  MkRows (rw_Snapshots r) (rw_InvalidCount r) (rw_InvalidReasons r)
    (<[code := default 0 (rw_Unmapped r !! code) + 1]> (rw_Unmapped r)) (rw_ids r).
Definition take_id (r : Rows) : Rows :=
  MkRows (rw_Snapshots r) (rw_InvalidCount r) (rw_InvalidReasons r) (rw_Unmapped r) (S (rw_ids r)).

Definition row_name (i : nat) : string := "row " +:+ pretty (Z.of_nat i).

Definition set_condition (s : ForecastSnapshot) (provider canonical : string) : ForecastSnapshot :=
  MkSnapshot (s_ID s) (s_ForecastCollectionID s) (s_ProviderID s) (s_LocationID s) (s_IssuedAt s) (s_TargetTime s)
    (s_ForecastHorizonMinutes s) (s_TemperatureC s) (s_FeelsLikeTemperatureC s) (s_PrecipitationProbability s)
    (s_PrecipitationAmountMM s) (s_HumidityPct s) (s_WindSpeedMS s) (s_WindDirectionDeg s) (s_PressureHPa s)
    (s_CloudCoverPct s) provider canonical (s_ConditionTaxonomyVersion s) (s_CreatedAt s).

(** The condition of a row, when the provider gives a code. *)
Definition put_condition (mapCondition : Z -> string * bool) (code : option Z) (s : ForecastSnapshot) (r : Rows)
    : ForecastSnapshot * Rows :=
  match code with
  | None => (s, r)
  | Some code =>
      let '(canonical, mapped) := mapCondition code in
      let s := set_condition s (pretty code) canonical in
      (s, if mapped then r else tally r (pretty code))
  end.

(** One turn of the row loop: build, validate, append. *)
Definition row_step (build : nat -> Rows -> (string + ForecastSnapshot) * Rows) (r : Rows) (i : nat) : Rows :=
  let '(res, r) := build i r in
  match res with
  | inl reason => reject r reason
  | inr snap =>
      match Validate snap with
      | [] => accept r snap
      | reasons => reject r (row_name i +:+ ": " +:+ String.concat ", " reasons)
      end
  end.

(** The closing switch: more than half invalid is schema drift. *)
Definition classify_rows (n : Z) (invalid : Z) : Outcome * string :=
  if n =? 0 then (OutcomeFailed, "schema_drift")
  else if n <? invalid * 2 then (OutcomeFailed, "schema_drift")
  else if 0 <? invalid then (OutcomePartial, "")
  else (OutcomeSuccess, "").

(** What [decompose] writes into the result. *)
Record Decomposed := MkDecomposed {
  de_Rows : Rows;
  de_RecordsReceived : Z;
  de_Outcome : Outcome;
  de_ErrorCode : string
}.

Definition drift (ids : nat) (reason : string) : Decomposed :=
  MkDecomposed (MkRows [] 0 [reason] ∅ ids) 0 OutcomeFailed "schema_drift".

(** The loop over [n] rows and the switch. *)
Definition decompose_rows (build : nat -> Rows -> (string + ForecastSnapshot) * Rows) (n : nat) (ids : nat) : Decomposed :=
  let r := foldl (row_step build) (noRows ids) (seq 0 n) in
  let '(outcome, code) := classify_rows (Z.of_nat n) (rw_InvalidCount r) in
  MkDecomposed r (Z.of_nat n) outcome code.

(** The port's result with what only metrics read. *)
Record AdapterResult := MkAdapterResult {
  ar_Result : ForecastResult;
  UnmappedConditions : gmap string Z;
  ar_RateLimit : option RateLimit
}.

(** ** Parameters *)

Class Codec := {
  time_Parse : string -> string -> option Time;
  Quote : string -> string;
  sha256 : string -> string;
}.

Definition layoutRFC3339 : string := "2006-01-02T15:04:05Z07:00".
Definition layoutMinute : string := "2006-01-02T15:04".

(** [parseTime] of both Open-Meteo adapters. *)
Definition parseTime `{Codec} (s : string) : option Time :=
  match time_Parse layoutRFC3339 s with
  | Some t => Some t
  | None => time_Parse layoutMinute s
  end.

Definition Checksum_of `{Codec} (raw : string) : string := if String.eqb raw "" then "" else sha256 raw.

(** The result of a call that the transport classified as failed. *)
Definition failed_result `{Codec} (schema version : string) (issued : Time) (resp : Response) (e : ProviderError) : AdapterResult :=
  MkAdapterResult
    (MkResult (Body resp) (Checksum_of (Body resp)) (StatusCode resp) (rs_LatencyMS resp) (RequestID resp) None
       schema version issued [] 0 0 [] (ProviderError_Outcome e) (ErrorCode_String (Code e)) (Some (ProviderError_Error e)))
    ∅ (match rs_RateLimit resp with Some rl => Some rl | None => pe_RateLimit e end).

(** The result of a decomposed payload. *)
Definition decomposed_result `{Codec} (schema version : string) (issued : Time) (raw : string) (status latency : Z)
    (reqID : string) (rl : option RateLimit) (d : Decomposed) : AdapterResult :=
  MkAdapterResult
    (MkResult raw (Checksum_of raw) status latency reqID None schema version issued
       (rw_Snapshots (de_Rows d)) (de_RecordsReceived d) (rw_InvalidCount (de_Rows d)) (rw_InvalidReasons (de_Rows d))
       (de_Outcome d) (de_ErrorCode d) None)
    (rw_Unmapped (de_Rows d)) rl.

(** [strconv.FormatFloat(x, 'f', 6, 64)]. *)
Definition coordinate (x : float64) : string := GoFmt.fmt_fixed 6 x.

End Adapters.
