(* ===== verification/OpenMeteo.v ===== *)
(** * The Open-Meteo forecast adapter ([adapters/forecastproviders/openmeteo]) *)

From Stdlib Require Import ZArith Lia Bool String.
From stdpp Require Import base list strings gmap pretty.
From S2P Require Import Prelude Float64 GoTime GoStrings Uuid Effects Records Matching Collection Transport Adapters.

Import Records Matching Collection Transport Adapters.
Local Open Scope string_scope.
Local Open Scope list_scope.
Local Open Scope Z_scope.

Module OpenMeteo.

Definition ProviderSlug : string := "open-meteo".
Definition SchemaVersion : string := "openmeteo-v1".
Definition AdapterVersion : string := "1.0.0".
Definition forecastPath : string := "/v1/forecast".
Definition hourlyParams : string :=
  "temperature_2m,apparent_temperature,precipitation_probability,precipitation,relative_humidity_2m,wind_speed_10m,wind_direction_10m,surface_pressure,cloud_cover,weather_code".
Definition forecastDays : Z := 7.

(** ** condition_map.go *)

Definition wmoConditionMap : gmap Z string := list_to_map
  [(0, ConditionClear); (1, ConditionClear); (2, ConditionPartlyCloudy); (3, ConditionCloudy);
   (45, ConditionFog); (48, ConditionFog);
   (51, ConditionDrizzle); (53, ConditionDrizzle); (55, ConditionDrizzle);
   (56, ConditionSleet); (57, ConditionSleet);
   (61, ConditionRain); (63, ConditionRain); (65, ConditionHeavyRain);
   (66, ConditionSleet); (67, ConditionSleet);
   (71, ConditionSnow); (73, ConditionSnow); (75, ConditionSnow); (77, ConditionSnow);
   (80, ConditionRain); (81, ConditionRain); (82, ConditionHeavyRain);
   (85, ConditionSnow); (86, ConditionSnow);
   (95, ConditionThunderstorm); (96, ConditionThunderstorm); (99, ConditionThunderstorm)].

Definition mapCondition (code : Z) : string * bool :=
  match wmoConditionMap !! code with
  | None => (ConditionUnknown, false)
  | Some canonical => (canonical, true)
  end.

(** ** The response schema *)

Record hourlyData := MkHourly {
  h_Time : list string;
  Temperature2m : list (option float64);
  ApparentTemperature : list (option float64);
  PrecipitationProbability : list (option float64);
  Precipitation : list (option float64);
  RelativeHumidity2m : list (option float64);
  WindSpeed10m : list (option float64);
  WindDirection10m : list (option float64);
  SurfacePressure : list (option float64);
  CloudCover : list (option float64);
  WeatherCode : list (option Z)
}.

Record forecastResponse := MkForecastResponse {
  fr_lat : float64;
  fr_lon : float64;
  fr_tz : string;
  Hourly : option hourlyData
}.

(** [at] and [atInt]: the element, or nil out of range; a JSON null is nil too. *)
Definition at_ {A} (arr : list (option A)) (i : nat) : option A := default None (arr !! i).

Definition pctToRatio (pct : option float64) : option float64 := (fun p => (p / f64_of_Z 100)%f64) <$> pct.

Section Adapter.
Context `{Env} `{Codec}.

(** [json.Unmarshal] into a [forecastResponse]. *)
Context (unmarshal : string -> result forecastResponse).

(** ** decompose.go *)

Definition buildSnapshot (h : hourlyData) (req : ForecastRequest) (i : nat) (r : Rows)
    : (string + ForecastSnapshot) * Rows :=
  let text := default "" (h_Time h !! i) in
  match parseTime text with
  | None => (inl (row_name i +:+ ": invalid target_time " +:+ Quote text), r)
  | Some targetTime =>
      let horizon := int_of (Minutes (Sub targetTime (fr_IssuedAt req))) in
      let snap := MkSnapshot (Effects.newID (rw_ids r)) 0 0 0 (fr_IssuedAt req) targetTime horizon
        (at_ (Temperature2m h) i) (at_ (ApparentTemperature h) i) (pctToRatio (at_ (PrecipitationProbability h) i))
        (at_ (Precipitation h) i) (at_ (RelativeHumidity2m h) i) (at_ (WindSpeed10m h) i) (at_ (WindDirection10m h) i)
        (at_ (SurfacePressure h) i) (at_ (CloudCover h) i) "" "" ConditionTaxonomyVersion zeroTime in
      let '(snap, r) := put_condition mapCondition (at_ (WeatherCode h) i) snap (take_id r) in
      (inr snap, r)
  end.

Definition decompose (raw : string) (req : ForecastRequest) (ids : nat) : Decomposed :=
  match unmarshal raw with
  | Error e => drift ids ("payload is not valid JSON: " +:+ e)
  | Ok resp =>
      match Hourly resp with
      | None => drift ids "required field hourly.time is missing or empty"
      | Some h =>
          match h_Time h with
          | [] => drift ids "required field hourly.time is missing or empty"
          | _ => decompose_rows (buildSnapshot h req) (length (h_Time h)) ids
          end
      end
  end.

(** ** openmeteo.go *)

Definition buildURL (req : ForecastRequest) : string :=
  let base := if String.eqb (fr_BaseURL req) "" then "https://api.open-meteo.com" else fr_BaseURL req in
  base +:+ forecastPath +:+ "?" +:+
    Encode [("forecast_days", pretty forecastDays); ("hourly", hourlyParams); ("latitude", coordinate (fr_Latitude req));
            ("longitude", coordinate (fr_Longitude req)); ("timezone", "UTC")].

Definition requestHeaders (req : ForecastRequest) : Header :=
  if String.eqb (fr_Credential req) "" then ∅ else header_Set ∅ "Authorization" ("Bearer " +:+ fr_Credential req).

Definition FetchForecast `{Upstream} (transport : Client) (req : ForecastRequest) (ids : nat) : AdapterResult :=
  let '(resp, ferr) := Get transport (buildURL req) (requestHeaders req) in
  match ferr with
  | Some e => failed_result SchemaVersion AdapterVersion (fr_IssuedAt req) resp e
  | None =>
      decomposed_result SchemaVersion AdapterVersion (fr_IssuedAt req) (Body resp) (StatusCode resp) (rs_LatencyMS resp)
        (RequestID resp) (rs_RateLimit resp) (decompose (Body resp) req ids)
  end.

Definition DecodeStored (req : ForecastRequest) (raw : string) (ids : nat) : AdapterResult :=
  decomposed_result SchemaVersion AdapterVersion (fr_IssuedAt req) raw 0 0 "" None (decompose raw req ids).

(** The adapter behind the port, for one call. *)
Definition adapter `{Upstream} (transport : Client) (ids : nat) : Collection.Adapter :=
  MkAdapter (fun req => Ok (ar_Result (FetchForecast transport req ids)))
            (Some (fun req raw => Ok (ar_Result (DecodeStored req raw ids)))).
End Adapter.

End OpenMeteo.
