(* ===== verification/OpenWeather.v ===== *)
(** * The OpenWeather forecast adapter ([adapters/forecastproviders/openweather])

    With its daily budget: a counter of the requests of the current UTC day and a
    pause engaged by a 429.  A budget is guarded by a mutex, so its operations are
    atomic, and an execution is a sequence of them. *)

From Stdlib Require Import ZArith Lia Bool String.
From stdpp Require Import base list strings gmap pretty.
From S2P Require Import Prelude Float64 GoTime GoStrings Uuid Effects Records Matching Collection Transport Adapters.

Import Records Matching Collection Transport Adapters.
Local Open Scope string_scope.
Local Open Scope list_scope.
Local Open Scope Z_scope.

Module OpenWeather.

Definition ProviderSlug : string := "openweather".
Definition SchemaVersion : string := "openweather-v1".
Definition AdapterVersion : string := "1.0.0".
Definition forecastPath : string := "/data/3.0/onecall".
Definition excludeParts : string := "current,minutely,daily,alerts".

(** ** budget.go *)

Record dailyBudget := MkBudget {
  b_max : Z;
  b_day : Time;
  b_used : Z;
  b_pausedTil : Time
}.

Definition utcDay (t : Time) : Time := Date (Year t) (Month t) (DayOfMonth t).

Definition untilNextUTCDay (now : Time) : Duration := Sub (Add (utcDay now) (24 * Hour)) now.

Definition newDailyBudget (max : Z) (now : Time) : dailyBudget := MkBudget max (utcDay now) 0 zeroTime.

Definition rollover (b : dailyBudget) (now : Time) : dailyBudget :=
  let today := utcDay now in
  if After today (b_day b) then MkBudget (b_max b) today 0 zeroTime else b.

(** The admission, or how long to wait. *)
Definition reserve (b : dailyBudget) (now : Time) : dailyBudget * (bool * Duration) :=
  let b := rollover b now in
  if negb (b_pausedTil b =? zeroTime) && Before now (b_pausedTil b) then (b, (false, Sub (b_pausedTil b) now))
  else
    let b := if negb (b_pausedTil b =? zeroTime) then MkBudget (b_max b) (b_day b) (b_used b) zeroTime else b in
    if b_max b <=? b_used b then (b, (false, untilNextUTCDay now))
    else (MkBudget (b_max b) (b_day b) (b_used b + 1) (b_pausedTil b), (true, 0)).

(** The end of a pause engaged at [now]. *)
Definition pauseEnd (now : Time) (d : Duration) : Time :=
  if 0 <? d then Add now d else Add now (untilNextUTCDay now).

Definition pause (b : dailyBudget) (now : Time) (d : Duration) : dailyBudget :=
  let b := rollover b now in
  if After (pauseEnd now d) (b_pausedTil b) then MkBudget (b_max b) (b_day b) (b_used b) (pauseEnd now d) else b.

Definition consume (b : dailyBudget) (n : Z) (now : Time) : dailyBudget :=
  if n <=? 0 then b else
  let b := rollover b now in
  MkBudget (b_max b) (b_day b) (if b_max b <? b_used b + n then b_max b else b_used b + n) (b_pausedTil b).

(** ** condition_map.go *)

Definition mapCondition (code : Z) : string * bool :=
  if (200 <=? code) && (code <? 300) then (ConditionThunderstorm, true)
  else if (300 <=? code) && (code <? 400) then (ConditionDrizzle, true)
  else if (code =? 500) || (code =? 501) || ((520 <=? code) && (code <=? 522)) || (code =? 531) then (ConditionRain, true)
  else if (code =? 502) || (code =? 503) || (code =? 504) then (ConditionHeavyRain, true)
  else if code =? 511 then (ConditionSleet, true)
  else if (600 <=? code) && (code <=? 602) then (ConditionSnow, true)
  else if (611 <=? code) && (code <=? 616) then (ConditionSleet, true)
  else if (620 <=? code) && (code <=? 622) then (ConditionSnow, true)
  else if (code =? 701) || (code =? 711) || (code =? 721) || (code =? 731) || (code =? 741) || (code =? 751)
          || (code =? 761) || (code =? 762) then (ConditionFog, true)
  else if code =? 800 then (ConditionClear, true)
  else if (code =? 801) || (code =? 802) then (ConditionPartlyCloudy, true)
  else if (code =? 803) || (code =? 804) then (ConditionCloudy, true)
  else (ConditionUnknown, false).

(** ** decompose.go *)

(** The pointers of the JSON are options; [Weather] keeps null entries. *)
Record hourlyItem := MkItem {
  Dt : Z;
  Temp : option float64;
  FeelsLike : option float64;
  it_Pressure : option float64;
  it_Humidity : option float64;
  Clouds : option float64;
  it_WindSpeed : option float64;
  WindDeg : option float64;
  Pop : option float64;
  Rain : option (option float64);
  Snow : option (option float64);
  Weather : list (option Z)
}.

Record forecastResponse := MkForecastResponse {
  Lat : float64;
  Lon : float64;
  Hourly : list (option hourlyItem)
}.

(** The rain and snow of the last hour; the sum starts from a zero. *)
Definition precipMM (item : hourlyItem) : option float64 :=
  let add total v := match v with Some (Some x) => (total + x)%f64 | _ => total end in
  let present v := match v with Some (Some _) => true | _ => false end in
  if present (Rain item) || present (Snow item) then Some (add (add f0 (Rain item)) (Snow item)) else None.

Definition primaryConditionID (entries : list (option Z)) : option Z :=
  foldr (fun e k => match e with Some code => Some code | None => k end) None entries.

Section Adapter.
Context `{Env} `{Codec}.

(** [json.Unmarshal] into a [forecastResponse]. *)
Context (unmarshal : string -> result forecastResponse).

Definition buildSnapshot (items : list (option hourlyItem)) (req : ForecastRequest) (i : nat) (r : Rows)
    : (string + ForecastSnapshot) * Rows :=
  let missing := (inl (row_name i +:+ ": missing or invalid dt"), r) in
  match default None (items !! i) with
  | None => missing
  | Some item =>
      if Dt item <=? 0 then missing else
      let targetTime := Dt item * Second in
      let horizon := int_of (Minutes (Sub targetTime (fr_IssuedAt req))) in
      let snap := MkSnapshot (Effects.newID (rw_ids r)) 0 0 0 (fr_IssuedAt req) targetTime horizon
        (Temp item) (FeelsLike item) (Pop item) (precipMM item) (it_Humidity item) (it_WindSpeed item) (WindDeg item)
        (it_Pressure item) (Clouds item) "" "" ConditionTaxonomyVersion zeroTime in
      let '(snap, r) := put_condition mapCondition (primaryConditionID (Weather item)) snap (take_id r) in
      (inr snap, r)
  end.

Definition decompose (raw : string) (req : ForecastRequest) (ids : nat) : Decomposed :=
  match unmarshal raw with
  | Error e => drift ids ("payload is not valid JSON: " +:+ e)
  | Ok resp =>
      match Hourly resp with
      | [] => drift ids "required field hourly is missing or empty"
      | _ => decompose_rows (buildSnapshot (Hourly resp) req) (length (Hourly resp)) ids
      end
  end.

(** ** openweather.go *)

(** The client of [New]: a 429 is not retried by the transport. *)
Definition retryableOverride (status : Z) (def : bool) : bool := if status =? 429 then false else def.

Definition newClient (limiter : bool) (maxBytes maxRetries : Z) (retryBase : Duration) : Client :=
  Transport.New (MkConfig "" limiter maxBytes maxRetries retryBase (Some retryableOverride)).

(** The budget of [New]; none unless positive. *)
Definition newBudget (daily : Z) (now : Time) : option dailyBudget :=
  if 0 <? daily then Some (newDailyBudget daily now) else None.

Definition buildURL (req : ForecastRequest) : string :=
  let base := if String.eqb (fr_BaseURL req) "" then "https://api.openweathermap.org" else fr_BaseURL req in
  base +:+ forecastPath +:+ "?" +:+
    Encode ((if String.eqb (fr_Credential req) "" then [] else [("appid", fr_Credential req)]) ++
            [("exclude", excludeParts); ("lat", coordinate (fr_Latitude req)); ("lon", coordinate (fr_Longitude req));
             ("units", "metric")]).

(** The clock readings of a call: at the reservation, when the retries are debited,
    and when a pause is engaged. *)
Record FetchClock := MkFetchClock { t_reserve : Time; t_consume : Time; t_pause : Time }.

Definition refused (req : ForecastRequest) (retryAfter : Duration) : AdapterResult :=
  MkAdapterResult
    (MkResult "" "" 0 0 "" None SchemaVersion AdapterVersion (fr_IssuedAt req) [] 0 0 [] OutcomeRateLimited
       (ErrorCode_String ErrRateLimited) (Some (ProviderError_Error (NewProviderError ErrRateLimited 0 true None))))
    ∅ (Some (MkRateLimit 0 0 None (Some retryAfter))).

Definition retries_debited (b : option dailyBudget) (clk : FetchClock) (resp : Response) : option dailyBudget :=
  (fun b => if 1 <? Attempts resp then consume b (Attempts resp - 1) (t_consume clk) else b) <$> b.

Definition pause_engaged (b : option dailyBudget) (clk : FetchClock) (e : ProviderError) : option dailyBudget :=
  (fun b => if bool_decide (Code e = ErrRateLimited)
            then pause b (t_pause clk) (default 0 (pe_RateLimit e ≫= rl_RetryAfter)) else b) <$> b.

Definition FetchForecast `{Upstream} (transport : Client) (clk : FetchClock) (b : option dailyBudget) (req : ForecastRequest)
    (ids : nat) : option dailyBudget * AdapterResult :=
  let reserved := (fun b => reserve b (t_reserve clk)) <$> b in
  match reserved with
  | Some (b, (false, retryAfter)) => (Some b, refused req retryAfter)
  | _ =>
      let b := fst <$> reserved in
      let '(resp, ferr) := Get transport (buildURL req) ∅ in
      let b := retries_debited b clk resp in
      match ferr with
      | Some e => (pause_engaged b clk e, failed_result SchemaVersion AdapterVersion (fr_IssuedAt req) resp e)
      | None =>
          (b, decomposed_result SchemaVersion AdapterVersion (fr_IssuedAt req) (Body resp) (StatusCode resp)
                (rs_LatencyMS resp) (RequestID resp) (rs_RateLimit resp) (decompose (Body resp) req ids))
      end
  end.

Definition DecodeStored (req : ForecastRequest) (raw : string) (ids : nat) : AdapterResult :=
  decomposed_result SchemaVersion AdapterVersion (fr_IssuedAt req) raw 0 0 "" None (decompose raw req ids).

(** The adapter behind the port, for one call from the budget [b]. *)
Definition adapter `{Upstream} (transport : Client) (clk : FetchClock) (b : option dailyBudget) (ids : nat) : Collection.Adapter :=
  MkAdapter (fun req => Ok (ar_Result (FetchForecast transport clk b req ids).2))
            (Some (fun req raw => Ok (ar_Result (DecodeStored req raw ids)))).
End Adapter.

End OpenWeather.
