(* ===== verification/Historical.v ===== *)
(** * The Open-Meteo historical observation source ([adapters/observationsources/openmeteo]) *)

From Stdlib Require Import ZArith Lia Bool String.
From stdpp Require Import base list strings gmap pretty.
From S2P Require Import Prelude Float64 GoTime GoStrings Uuid Effects Records Collection Observe Transport Adapters OpenMeteo.

Import Records Collection Observe Transport Adapters.
Local Open Scope string_scope.
Local Open Scope list_scope.
Local Open Scope Z_scope.

Module Historical.

Definition SourceName : string := "openmeteo_historical".
Definition SchemaVersion : string := "openmeteo-historical-v1".
Definition AdapterVersion : string := "1.0.0".
Definition forecastPath : string := "/v1/forecast".
Definition hourlyParams : string :=
  "temperature_2m,relative_humidity_2m,wind_speed_10m,wind_direction_10m,surface_pressure,precipitation,weather_code".

(** [mapCondition] over the same table as the forecast adapter's. *)
Definition mapCondition (code : Z) : string := default ConditionUnknown (OpenMeteo.wmoConditionMap !! code).

(** [New]: reanalysis unless configured. *)
Definition defaultType (configured : string) : string := if String.eqb configured "" then ObservationReanalysis else configured.

Record hourlyData := MkHourly {
  h_Time : list string;
  Temperature2m : list (option float64);
  RelativeHumidity2m : list (option float64);
  WindSpeed10m : list (option float64);
  WindDirection10m : list (option float64);
  SurfacePressure : list (option float64);
  Precipitation : list (option float64);
  WeatherCode : list (option Z)
}.

Record historicalResponse := MkHistorical {
  hs_lat : float64;
  hs_lon : float64;
  hs_tz : string;
  Hourly : option hourlyData
}.

(** The whole result; [hr_Result] is what the workflow reads. *)
Record HistoricalResult := MkHistoricalResult {
  hr_Result : ObservationResult;
  hr_RecordsReceived : Z;
  SuspectCount : Z;
  hr_InvalidCount : Z;
  hr_InvalidReasons : list string;
  hr_HTTPStatusCode : Z;
  hr_LatencyMS : Z;
  hr_RateLimit : option RateLimit;
  hr_Err : option string
}.

(** What the row loop writes. *)
Record ObsRows := MkObsRows {
  ow_Observations : list Observation;
  ow_Suspect : Z;
  ow_Invalid : Z;
  ow_Reasons : list string;
  ow_ids : nat
}.

(** [t.Format("2006-01-02T15:04")]. *)
Definition formatMinute (t : Time) : string :=
  pad_int 4 (Year t) +:+ "-" +:+ pad_int 2 (Month t) +:+ "-" +:+ pad_int 2 (DayOfMonth t) +:+ "T" +:+
  pad_int 2 ((t mod Day) / Hour) +:+ ":" +:+ pad_int 2 ((t mod Hour) / Minute).

Section Adapter.
Context `{Env} `{Codec}.

(** [json.Unmarshal] into a [historicalResponse], and the configured provenance. *)
Context (unmarshal : string -> result historicalResponse) (obsType : string).

Definition buildURL (req : ObservationRequest) : string :=
  let base := if String.eqb (or_BaseURL req) "" then "https://historical-forecast-api.open-meteo.com" else or_BaseURL req in
  base +:+ forecastPath +:+ "?" +:+
    Encode [("end_hour", formatMinute (or_WindowEnd req)); ("hourly", hourlyParams);
            ("latitude", coordinate (or_Latitude req)); ("longitude", coordinate (or_Longitude req));
            ("start_hour", formatMinute (or_WindowStart req)); ("timezone", "UTC")].

(** The row and its id taken, or the reason against it. *)
Definition buildObservation (h : hourlyData) (req : ObservationRequest) (i : nat) (ids : nat) : string + Observation :=
  let text := default "" (h_Time h !! i) in
  match parseTime text with
  | None => inl (row_name i +:+ ": invalid observed_at " +:+ Quote text)
  | Some observedAt =>
      if negb (or_WindowEnd req =? zeroTime) && After observedAt (or_WindowEnd req)
      then inl (row_name i +:+ ": observed_at after window end (future)")
      else
        let code := OpenMeteo.at_ (WeatherCode h) i in
        inr (MkObservation (Effects.newID ids) (or_LocationID req) SourceName obsType observedAt
               (OpenMeteo.at_ (Temperature2m h) i) (OpenMeteo.at_ (RelativeHumidity2m h) i)
               (OpenMeteo.at_ (WindSpeed10m h) i) (OpenMeteo.at_ (WindDirection10m h) i)
               (OpenMeteo.at_ (SurfacePressure h) i) (OpenMeteo.at_ (Precipitation h) i)
               (match code with Some c => pretty c | None => "" end)
               (match code with Some c => mapCondition c | None => "" end)
               QualityValid None zeroTime)
  end.

Definition obs_step (h : hourlyData) (req : ObservationRequest) (r : ObsRows) (i : nat) : ObsRows :=
  match buildObservation h req i (ow_ids r) with
  | inl reason => MkObsRows (ow_Observations r) (ow_Suspect r) (ow_Invalid r + 1) (ow_Reasons r ++ [reason]) (ow_ids r)
  | inr obs =>
      match RangeReasons obs with
      | [] => MkObsRows (ow_Observations r ++ [obs]) (ow_Suspect r) (ow_Invalid r) (ow_Reasons r) (S (ow_ids r))
      | reasons =>
          MkObsRows (ow_Observations r ++ [set_flag obs QualitySuspect]) (ow_Suspect r + 1) (ow_Invalid r)
            (ow_Reasons r ++ [row_name i +:+ " suspect: " +:+ String.concat ", " reasons]) (S (ow_ids r))
      end
  end.

Definition classify_obs (rows : list Observation) (invalid n : Z) : Outcome * string :=
  match rows with
  | [] => (OutcomeFailed, "schema_drift")
  | _ => if n <? invalid * 2 then (OutcomeFailed, "schema_drift") else (OutcomeSuccess, "")
  end.

(** [decompose], with the response's status, latency and rate limit. *)
Definition decompose (raw : string) (req : ObservationRequest) (ids : nat) (resp : Response) : HistoricalResult :=
  let result rows n suspect invalid reasons outcome code :=
    MkHistoricalResult (MkObsResult rows outcome code) n suspect invalid reasons
      (StatusCode resp) (rs_LatencyMS resp) (rs_RateLimit resp) None in
  let missing := result [] 0 0 0 ["required field hourly.time is missing or empty"] OutcomeFailed "schema_drift" in
  match unmarshal raw with
  | Error e => result [] 0 0 0 ["payload is not valid JSON: " +:+ e] OutcomeFailed "schema_drift"
  | Ok r =>
      match Hourly r with
      | None => missing
      | Some h =>
          match h_Time h with
          | [] => missing
          | _ =>
              let n := length (h_Time h) in
              let w := foldl (obs_step h req) (MkObsRows [] 0 0 [] ids) (seq 0 n) in
              let '(outcome, code) := classify_obs (ow_Observations w) (ow_Invalid w) (Z.of_nat n) in
              result (ow_Observations w) (Z.of_nat n) (ow_Suspect w) (ow_Invalid w) (ow_Reasons w) outcome code
          end
      end
  end.

Definition FetchObservations `{Upstream} (transport : Client) (req : ObservationRequest) (ids : nat) : HistoricalResult :=
  let '(resp, ferr) := Get transport (buildURL req) ∅ in
  match ferr with
  | Some e =>
      MkHistoricalResult (MkObsResult [] (ProviderError_Outcome e) (ErrorCode_String (Code e))) 0 0 0 []
        (StatusCode resp) (rs_LatencyMS resp)
        (match rs_RateLimit resp with Some rl => Some rl | None => pe_RateLimit e end) (Some (ProviderError_Error e))
  | None => decompose (Body resp) req ids resp
  end.

(** The source behind the port, for one call. *)
Definition source `{Upstream} (transport : Client) (ids : nat) : ObservationSource := {|
  Observe.Source := SourceName;
  Observe.FetchObservations := fun req => Ok (hr_Result (FetchObservations transport req ids))
|}.
End Adapter.

End Historical.
