(* ===== verification/AdapterProps.v ===== *)
(** * The adapters keep their promises

    The row loop shared by the forecast adapters, what their results are, that they
    satisfy the promise the collection theorems assume of the port ([result_ok]),
    that a stored payload decodes to the same rows, and that the observation source
    satisfies the promise of its port ([source_promise]). *)

From Stdlib Require Import ZArith Lia Bool String.
From stdpp Require Import base list strings gmap pretty.
From S2P Require Import Prelude Float64 Float64Round GoTime GoStrings Uuid Effects Records Matching Catalog Collection CollectionProps Observe ObserveProps Transport Adapters OpenMeteo OpenWeather Historical.

Import Records Matching Collection CollectionProps Observe ObserveProps Transport Adapters.
Local Open Scope string_scope.
Local Open Scope list_scope.
Local Open Scope Z_scope.

Module AdapterProps.

(** ** The row loop *)

Definition with_id (s : ForecastSnapshot) (id : uuid) : ForecastSnapshot :=
  MkSnapshot id (s_ForecastCollectionID s) (s_ProviderID s) (s_LocationID s) (s_IssuedAt s) (s_TargetTime s)
    (s_ForecastHorizonMinutes s) (s_TemperatureC s) (s_FeelsLikeTemperatureC s) (s_PrecipitationProbability s)
    (s_PrecipitationAmountMM s) (s_HumidityPct s) (s_WindSpeedMS s) (s_WindDirectionDeg s) (s_PressureHPa s)
    (s_CloudCoverPct s) (s_ProviderConditionCode s) (s_CanonicalConditionCode s) (s_ConditionTaxonomyVersion s)
    (s_CreatedAt s).

(** A snapshot without the id it was given. *)
Definition erase (s : ForecastSnapshot) : ForecastSnapshot := with_id s 0.

Lemma Validate_with_id s id : Validate (with_id s id) = Validate s.
Proof. reflexivity. Qed.

(** The row, if the validation accepts it. *)
Definition valid_row (row : nat -> option ForecastSnapshot) (i : nat) : option ForecastSnapshot :=
  s ← row i; match Validate s with [] => Some s | _ => None end.

(** [r'] has the rows of [r]. *)
Definition same_rows (r r' : Rows) : Prop :=
  rw_Snapshots r' = rw_Snapshots r /\ rw_InvalidCount r' = rw_InvalidCount r /\ rw_InvalidReasons r' = rw_InvalidReasons r.

(** [build] builds the rows [row], each with the next id, and changes only the
    tallies. *)
Definition builds `{Env} (build : nat -> Rows -> (string + ForecastSnapshot) * Rows) (row : nat -> option ForecastSnapshot) : Prop :=
  forall i, match row i with
  | None => exists reason, forall r, build i r = (inl reason, r)
  | Some s => forall r, exists r', build i r = (inr (with_id s (Effects.newID (rw_ids r))), r') /\ same_rows r r' /\ rw_ids r' = S (rw_ids r)
  end.

(** The ids used so far are distinct members of the supply. *)
Definition ids_used `{Env} (r : Rows) : Prop :=
  exists ks, s_ID <$> rw_Snapshots r = Effects.newID <$> ks /\ NoDup ks /\ Forall (fun k => (k < rw_ids r)%nat) ks.

Section Loop.
Context `{Env} (build : nat -> Rows -> (string + ForecastSnapshot) * Rows) (row : nat -> option ForecastSnapshot).
Context (Hb : builds build row).

(** One turn, by what the row is. *)
Lemma row_step_cases r i :
  (valid_row row i = None /\ rw_Snapshots (row_step build r i) = rw_Snapshots r /\
   rw_InvalidCount (row_step build r i) = rw_InvalidCount r + 1 /\ (rw_ids r <= rw_ids (row_step build r i))%nat) \/
  (exists s, valid_row row i = Some s /\ Validate s = [] /\
   rw_Snapshots (row_step build r i) = rw_Snapshots r ++ [with_id s (Effects.newID (rw_ids r))] /\
   rw_InvalidCount (row_step build r i) = rw_InvalidCount r /\ rw_ids (row_step build r i) = S (rw_ids r)).
Proof.
  pose proof (Hb i) as B. unfold row_step, valid_row. destruct (row i) as [s|].
  - destruct (B r) as (r' & -> & (S1 & S2 & _) & Hi). rewrite Validate_with_id. cbn [mbind option_bind].
    destruct (Validate s) as [|e es] eqn:V.
    + right. exists s. cbn. rewrite S1, S2, Hi. auto.
    + left. cbn. rewrite S1, S2, Hi. auto with lia.
  - destruct B as (reason & B). rewrite B. left. cbn. auto.
Qed.

(** The reasons do not depend on the ids either. *)
Lemma row_step_reasons r1 r2 i :
  rw_InvalidReasons r1 = rw_InvalidReasons r2 ->
  rw_InvalidReasons (row_step build r1 i) = rw_InvalidReasons (row_step build r2 i).
Proof.
  intros E. pose proof (Hb i) as B. unfold row_step. destruct (row i) as [s|].
  - destruct (B r1) as (r1' & -> & (_ & _ & S1) & _), (B r2) as (r2' & -> & (_ & _ & S2) & _).
    rewrite !Validate_with_id. destruct (Validate s); cbn; congruence.
  - destruct B as (reason & B). rewrite !B. cbn. congruence.
Qed.

Lemma loop_reasons l r1 r2 :
  rw_InvalidReasons r1 = rw_InvalidReasons r2 ->
  rw_InvalidReasons (foldl (row_step build) r1 l) = rw_InvalidReasons (foldl (row_step build) r2 l).
Proof. revert r1 r2. induction l as [|i l IH]; intros r1 r2 E; cbn; [assumption|]. now apply IH, row_step_reasons. Qed.

(** The whole loop: the valid rows in order, the others counted, fresh ids. *)
Lemma loop_spec l r :
  let r' := foldl (row_step build) r l in
  erase <$> rw_Snapshots r' = (erase <$> rw_Snapshots r) ++ omap (fun i => erase <$> valid_row row i) l /\
  rw_InvalidCount r' + Z.of_nat (length (rw_Snapshots r')) =
    rw_InvalidCount r + Z.of_nat (length (rw_Snapshots r)) + Z.of_nat (length l) /\
  rw_InvalidCount r <= rw_InvalidCount r' /\
  (ids_used r -> ids_used r').
Proof.
  revert r. induction l as [|i l IH]; intros r; cbn [foldl].
  { cbn. rewrite app_nil_r. repeat split; auto; lia. }
  destruct (IH (row_step build r i)) as (E & C & M & U).
  destruct (row_step_cases r i) as [(V & S & N & I)|(s & V & _ & S & N & I)]; cbn [omap list_omap]; rewrite V; cbn [fmap option_fmap option_map].
  - rewrite S in E, C. split; [exact E|]. cbn [length]. split; [lia|]. split; [lia|]. intros (ks & K1 & K2 & K3). apply U.
    exists ks. rewrite S. repeat split; [assumption..|]. eapply Forall_impl; [exact K3|]. cbn. lia.
  - rewrite S in E, C. rewrite fmap_app in E. rewrite length_app in C. cbn [fmap list_fmap length] in E, C.
    split; [rewrite E, <- app_assoc; reflexivity|]. cbn [length]. split; [lia|]. split; [lia|]. intros (ks & K1 & K2 & K3). apply U.
    exists (ks ++ [rw_ids r]). rewrite S, !fmap_app, K1, I. split; [reflexivity|]. split.
    + apply NoDup_snoc; [assumption|]. intros X. rewrite Forall_forall in K3. specialize (K3 _ X). cbn in K3. lia.
    + apply Forall_app. split; [eapply Forall_impl; [exact K3|]; cbn; lia|]. repeat constructor.
Qed.
End Loop.

(** ** What a decomposed payload is *)

(** The outcome of [n] rows of which [invalid] are invalid. *)
Definition outcome_of (n invalid : Z) : Outcome :=
  if bool_decide (n < 2 * invalid) then OutcomeFailed else if bool_decide (invalid = 0) then OutcomeSuccess else OutcomePartial.

(** The result holds the valid ones of the [n] rows [row], in order and with distinct
    ids; the others are counted, and the outcome follows the counts. *)
Record rows_exact `{Env} (row : nat -> option ForecastSnapshot) (n : nat) (r : ForecastResult) : Prop := {
  re_rows : erase <$> Snapshots r = omap (fun i => erase <$> valid_row row i) (seq 0 n);
  re_received : RecordsReceived r = Z.of_nat n;
  re_invalid : InvalidCount r = Z.of_nat n - Z.of_nat (length (Snapshots r));
  re_outcome : r_Outcome r = outcome_of (Z.of_nat n) (InvalidCount r);
  re_ids : FreshIds -> NoDup (s_ID <$> Snapshots r);
}.

(** Nothing could be read from the payload. *)
Definition unreadable (r : ForecastResult) : Prop :=
  Snapshots r = [] /\ RecordsReceived r = 0 /\ InvalidCount r = 0 /\ r_Outcome r = OutcomeFailed /\
  r_ErrorCode r = "schema_drift".

Lemma classify_rows_outcome n invalid : 0 < n -> 0 <= invalid -> (classify_rows n invalid).1 = outcome_of n invalid.
Proof.
  intros Hn Hi. unfold classify_rows, outcome_of. replace (n =? 0) with false by (symmetry; apply Z.eqb_neq; lia).
  destruct (n <? invalid * 2) eqn:E; bool_simp.
  - now rewrite bool_decide_eq_true_2 by lia.
  - rewrite bool_decide_eq_false_2 by lia. destruct (0 <? invalid) eqn:F; bool_simp.
    + now rewrite bool_decide_eq_false_2 by lia.
    + now rewrite bool_decide_eq_true_2 by lia.
Qed.

Lemma decompose_rows_exact `{Env} `{Codec} build row n ids schema version issued raw status latency reqID rl :
  builds build row -> (0 < n)%nat ->
  rows_exact row n (ar_Result (decomposed_result schema version issued raw status latency reqID rl (decompose_rows build n ids))).
Proof.
  intros Hb Hn. unfold decompose_rows. destruct (loop_spec build row Hb (seq 0 n) (noRows ids)) as (E & C & M & U).
  set (r := foldl _ _ _) in *. cbn [rw_Snapshots rw_InvalidCount noRows fmap list_fmap app length] in E, C, M.
  rewrite length_seq in C. pose proof (classify_rows_outcome (Z.of_nat n) (rw_InvalidCount r)) as O.
  destruct (classify_rows _ _) as [o code]. constructor; cbn [decomposed_result ar_Result Snapshots RecordsReceived InvalidCount r_Outcome de_Rows de_RecordsReceived de_Outcome].
  - exact E.
  - reflexivity.
  - lia.
  - apply O; lia.
  - intros F. destruct U as (ks & -> & K & _); [exists []; repeat constructor|]. apply NoDup_fmap; [|assumption].
    intros i j. apply newID_inj.
Qed.

Lemma erase_same s t : erase s = erase t -> Validate t = Validate s /\ (snapshot_numbers s -> snapshot_numbers t).
Proof.
  intros E. change (Validate t) with (Validate (erase t)). rewrite <- E. split; [reflexivity|].
  change (snapshot_numbers t) with (snapshot_numbers (erase t)). now rewrite <- E.
Qed.

(** The promise of the port, from the numbers of the rows. *)
Lemma rows_exact_ok `{Env} row n r :
  rows_exact row n r -> (forall i s, row i = Some s -> snapshot_numbers s) -> result_ok r.
Proof.
  intros X Hn. constructor.
  - apply Forall_forall. intros s Hs. assert (Hi : erase s ∈ erase <$> Snapshots r) by now apply list_elem_of_fmap_2.
    rewrite (re_rows _ _ _ X) in Hi. apply list_elem_of_omap in Hi as (i & _ & Hi).
    unfold valid_row in Hi. destruct (row i) as [t|] eqn:Et; cbn in Hi; [|discriminate].
    destruct (Validate t) as [|? ?] eqn:V; [|discriminate]. apply Some_inj, erase_same in Hi as [Hv Hi].
    split; [congruence|]. now apply Hi, (Hn i).
  - rewrite (re_received _ _ _ X), (re_invalid _ _ _ X). lia.
Qed.

(** ** The rows of the two providers *)

(** The condition columns of a row. *)
Definition condition_row (mapCondition : Z -> string * bool) (code : option Z) (s : ForecastSnapshot) : ForecastSnapshot :=
  match code with Some c => set_condition s (pretty c) (mapCondition c).1 | None => s end.

(** Row [i] of an Open-Meteo payload: the values at index [i], percent as a ratio. *)
Definition om_row `{Codec} (h : OpenMeteo.hourlyData) (req : ForecastRequest) (i : nat) : option ForecastSnapshot :=
  let col f := OpenMeteo.at_ (f h) i in
  t ← parseTime (default "" (OpenMeteo.h_Time h !! i));
  Some (condition_row OpenMeteo.mapCondition (OpenMeteo.at_ (OpenMeteo.WeatherCode h) i)
    (MkSnapshot 0 0 0 0 (fr_IssuedAt req) t (int_of (Minutes (Sub t (fr_IssuedAt req))))
       (col OpenMeteo.Temperature2m) (col OpenMeteo.ApparentTemperature)
       ((fun p => (p / f64_of_Z 100)%f64) <$> col OpenMeteo.PrecipitationProbability)
       (col OpenMeteo.Precipitation) (col OpenMeteo.RelativeHumidity2m) (col OpenMeteo.WindSpeed10m)
       (col OpenMeteo.WindDirection10m) (col OpenMeteo.SurfacePressure) (col OpenMeteo.CloudCover)
       "" "" ConditionTaxonomyVersion zeroTime)).

(** Row [i] of an OpenWeather payload: the item, if present with a positive time. *)
Definition ow_row (items : list (option OpenWeather.hourlyItem)) (req : ForecastRequest) (i : nat) : option ForecastSnapshot :=
  it ← default None (items !! i);
  if bool_decide (0 < OpenWeather.Dt it) then
    let t := OpenWeather.Dt it * Second in
    Some (condition_row OpenWeather.mapCondition (OpenWeather.primaryConditionID (OpenWeather.Weather it))
      (MkSnapshot 0 0 0 0 (fr_IssuedAt req) t (int_of (Minutes (Sub t (fr_IssuedAt req))))
         (OpenWeather.Temp it) (OpenWeather.FeelsLike it) (OpenWeather.Pop it) (OpenWeather.precipMM it)
         (OpenWeather.it_Humidity it) (OpenWeather.it_WindSpeed it) (OpenWeather.WindDeg it) (OpenWeather.it_Pressure it)
         (OpenWeather.Clouds it) "" "" ConditionTaxonomyVersion zeroTime))
  else None.

(** [put_condition] sets the condition columns and at most a tally. *)
Lemma put_condition_spec mapCondition code s r :
  exists r', put_condition mapCondition code s r = (condition_row mapCondition code s, r') /\
    same_rows r r' /\ rw_ids r' = rw_ids r.
Proof.
  unfold put_condition, condition_row. destruct code as [c|]; [|exists r; repeat split].
  destruct (mapCondition c) as [canonical []]; eexists; repeat split.
Qed.

Lemma condition_row_id mapCondition code s id :
  condition_row mapCondition code (with_id s id) = with_id (condition_row mapCondition code s) id.
Proof. now destruct code. Qed.

Lemma om_builds `{Env} `{Codec} h req : builds (OpenMeteo.buildSnapshot h req) (om_row h req).
Proof.
  intros i. unfold om_row, OpenMeteo.buildSnapshot. cbv zeta. destruct (parseTime _) as [t|]; cbn [mbind option_bind]; [|eexists; reflexivity].
  intros r. edestruct put_condition_spec as (r' & -> & S & I). exists r'. split; [|split; [exact S|exact I]].
  now rewrite <- condition_row_id.
Qed.

Lemma ow_builds `{Env} items req : builds (OpenWeather.buildSnapshot items req) (ow_row items req).
Proof.
  intros i. unfold ow_row, OpenWeather.buildSnapshot. cbv zeta.
  destruct (default None (items !! i)) as [it|]; cbn [mbind option_bind]; [|eexists; reflexivity].
  destruct (OpenWeather.Dt it <=? 0) eqn:E; bool_simp.
  - rewrite bool_decide_eq_false_2 by lia. eexists; reflexivity.
  - rewrite bool_decide_eq_true_2 by lia. intros r. edestruct put_condition_spec as (r' & -> & S & I).
    exists r'. split; [|split; [exact S|exact I]]. now rewrite <- condition_row_id.
Qed.

(** *** Numbers

    JSON has no NaN and no infinity, and [json.Unmarshal] rejects a number out of
    range: decoded numbers are finite. *)

Definition finite_opt (v : option float64) : Prop := match v with Some x => is_finite x = true | None => True end.

Definition om_finite (h : OpenMeteo.hourlyData) : Prop :=
  Forall (Forall finite_opt)
    [OpenMeteo.Temperature2m h; OpenMeteo.ApparentTemperature h; OpenMeteo.PrecipitationProbability h;
     OpenMeteo.Precipitation h; OpenMeteo.RelativeHumidity2m h; OpenMeteo.WindSpeed10m h; OpenMeteo.WindDirection10m h;
     OpenMeteo.SurfacePressure h; OpenMeteo.CloudCover h].

Definition ow_finite (it : OpenWeather.hourlyItem) : Prop :=
  Forall finite_opt
    [OpenWeather.Temp it; OpenWeather.FeelsLike it; OpenWeather.Pop it; default None (OpenWeather.Rain it);
     default None (OpenWeather.Snow it); OpenWeather.it_Humidity it; OpenWeather.it_WindSpeed it; OpenWeather.WindDeg it;
     OpenWeather.it_Pressure it; OpenWeather.Clouds it].

Lemma finite_not_nan v : finite_opt v -> not_nan v.
Proof. destruct v as [[]|]; easy. Qed.

Lemma at_finite l i : Forall finite_opt l -> finite_opt (OpenMeteo.at_ l i).
Proof.
  intros F. unfold OpenMeteo.at_. destruct (l !! i) as [v|] eqn:E; [|exact I].
  rewrite Forall_forall in F. exact (F _ (list_elem_of_lookup_2 _ _ _ E)).
Qed.

Lemma ratio_not_nan v : finite_opt v -> not_nan ((fun p => (p / f64_of_Z 100)%f64) <$> v).
Proof.
  intros F%finite_not_nan. destruct v as [x|]; [|exact I]. cbn. change (f64_of_Z 100) with (pos_f 7036874417766400 (-46)).
  now apply fdiv_pos_not_nan.
Qed.

Lemma fadd_not_nan x y : is_finite x = true -> is_finite y = true -> is_nan (x + y)%f64 = false.
Proof.
  destruct x as [[]|[]| |], y as [[]|[]| |]; intros; try discriminate; try reflexivity.
  rewrite fadd_finite. apply binary_normalize_not_nan.
Qed.

Lemma fadd_0_finite x : is_finite x = true -> is_finite (f0 + x)%f64 = true.
Proof. destruct x as [[]|[]| |]; easy. Qed.

Lemma precip_not_nan it : ow_finite it -> not_nan (OpenWeather.precipMM it).
Proof.
  unfold ow_finite. rewrite !Forall_cons. intros (_ & _ & _ & R & S & _). unfold OpenWeather.precipMM.
  destruct (OpenWeather.Rain it) as [[x|]|], (OpenWeather.Snow it) as [[y|]|]; cbn -[fadd f0] in *; try exact I;
    try apply fadd_not_nan; try apply fadd_0_finite; try reflexivity; assumption.
Qed.

Lemma condition_row_numbers mapCondition code s : snapshot_numbers s -> snapshot_numbers (condition_row mapCondition code s).
Proof. now destruct code. Qed.

Lemma om_row_numbers `{Codec} h req i s : om_finite h -> om_row h req i = Some s -> snapshot_numbers s.
Proof.
  unfold om_finite. rewrite !Forall_cons. intros (_ & _ & P & A & U & W & D & _ & C & _) E. unfold om_row in E.
  destruct (parseTime _); [|discriminate]. injection E as <-. apply condition_row_numbers.
  repeat constructor; cbn; auto using finite_not_nan, at_finite, ratio_not_nan.
Qed.

Lemma ow_row_numbers items req i s :
  (forall it, Some it ∈ items -> ow_finite it) -> ow_row items req i = Some s -> snapshot_numbers s.
Proof.
  intros F E. unfold ow_row in E. destruct (items !! i) as [[it|]|] eqn:L; [|discriminate..].
  cbn in E. destruct (bool_decide _); [|discriminate]. injection E as <-. apply condition_row_numbers.
  apply list_elem_of_lookup_2, F in L. pose proof (precip_not_nan it L) as Pr. unfold ow_finite in L. rewrite !Forall_cons in L.
  destruct L as (_ & _ & P & _ & _ & U & W & D & _ & C & _).
  repeat constructor; cbn; auto using finite_not_nan.
Qed.

(** ** Results *)

(** The payload decodes to hourly data with at least one time; or to some items. *)
Definition om_readable (unmarshal : string -> result OpenMeteo.forecastResponse) (raw : string) (h : OpenMeteo.hourlyData) : Prop :=
  exists resp, unmarshal raw = Ok resp /\ OpenMeteo.Hourly resp = Some h /\ OpenMeteo.h_Time h <> [].

Definition ow_readable (unmarshal : string -> result OpenWeather.forecastResponse) (raw : string)
    (items : list (option OpenWeather.hourlyItem)) : Prop :=
  exists resp, unmarshal raw = Ok resp /\ OpenWeather.Hourly resp = items /\ items <> [].

(** [r] is what the payload says: its valid rows if readable, schema drift if not. *)
Definition om_exact `{Env} `{Codec} unmarshal (req : ForecastRequest) (raw : string) (r : ForecastResult) : Prop :=
  RawPayload r = raw /\
  (forall h, om_readable unmarshal raw h -> rows_exact (om_row h req) (length (OpenMeteo.h_Time h)) r) /\
  ((forall h, ~ om_readable unmarshal raw h) -> unreadable r).

Definition ow_exact `{Env} unmarshal (req : ForecastRequest) (raw : string) (r : ForecastResult) : Prop :=
  RawPayload r = raw /\
  (forall items, ow_readable unmarshal raw items -> rows_exact (ow_row items req) (length items) r) /\
  ((forall items, ~ ow_readable unmarshal raw items) -> unreadable r).

Lemma length_pos {A} (l : list A) : l <> [] -> (0 < length l)%nat.
Proof. destruct l; [easy|cbn; lia]. Qed.

Lemma om_decomposed `{Env} `{Codec} unmarshal schema version issued raw status latency reqID rl req ids :
  om_exact unmarshal req raw
    (ar_Result (decomposed_result schema version issued raw status latency reqID rl (OpenMeteo.decompose unmarshal raw req ids))).
Proof.
  split; [reflexivity|]. unfold OpenMeteo.decompose. split.
  - intros h (resp & -> & -> & Hn). pose proof (length_pos _ Hn) as Hl. destruct (OpenMeteo.h_Time h) eqn:E; [easy|].
    rewrite <- E in *. apply decompose_rows_exact; [apply om_builds|assumption].
  - intros N. destruct (unmarshal raw) as [resp|e] eqn:U; [|repeat split].
    destruct (OpenMeteo.Hourly resp) as [h|] eqn:Eh; [|repeat split].
    destruct (OpenMeteo.h_Time h) eqn:Et; [repeat split|]. exfalso. apply (N h). exists resp. now rewrite Et.
Qed.

Lemma ow_decomposed `{Env} `{Codec} unmarshal schema version issued raw status latency reqID rl req ids :
  ow_exact unmarshal req raw
    (ar_Result (decomposed_result schema version issued raw status latency reqID rl (OpenWeather.decompose unmarshal raw req ids))).
Proof.
  split; [reflexivity|]. unfold OpenWeather.decompose. split.
  - intros items (resp & -> & E & Hn). rewrite <- E in Hn |- *. pose proof (length_pos _ Hn) as Hl.
    destruct (OpenWeather.Hourly resp) eqn:Eh; [easy|]. rewrite <- Eh in *.
    apply decompose_rows_exact; [apply ow_builds|assumption].
  - intros N. destruct (unmarshal raw) as [resp|e] eqn:U; [|repeat split].
    destruct (OpenWeather.Hourly resp) eqn:Eh; [repeat split|]. exfalso. apply (N (OpenWeather.Hourly resp)). exists resp.
    now rewrite Eh.
Qed.

(** No row: the transport failed, or the budget refused the call. *)
Definition no_rows (o : Outcome) (r : ForecastResult) : Prop :=
  Snapshots r = [] /\ RecordsReceived r = 0 /\ InvalidCount r = 0 /\ r_Outcome r = o.

Lemma no_rows_ok o r : no_rows o r -> result_ok r.
Proof. intros (S & R & I & _). constructor; rewrite S; [constructor|]. rewrite R, I. reflexivity. Qed.

Lemma unreadable_ok r : unreadable r -> result_ok r.
Proof. intros (S & R & I & O & _). now apply (no_rows_ok OutcomeFailed). Qed.

Definition om_numbers (unmarshal : string -> result OpenMeteo.forecastResponse) : Prop :=
  forall raw h, om_readable unmarshal raw h -> om_finite h.
Definition ow_numbers (unmarshal : string -> result OpenWeather.forecastResponse) : Prop :=
  forall raw items, ow_readable unmarshal raw items -> forall it, Some it ∈ items -> ow_finite it.

(** Readability is decidable: it is a case analysis on the decoder's answer. *)
Lemma om_readable_dec unmarshal raw : (exists h, om_readable unmarshal raw h) \/ forall h, ~ om_readable unmarshal raw h.
Proof.
  destruct (unmarshal raw) as [resp|e] eqn:U; [|right; intros h (r & E & _); congruence].
  destruct (OpenMeteo.Hourly resp) as [h|] eqn:Eh; [|right; intros h (r & E & F & _); congruence].
  destruct (OpenMeteo.h_Time h) as [|t ts] eqn:Et.
  - right. intros h' (r & E & F & G). congruence.
  - left. exists h, resp. now rewrite Et.
Qed.

Lemma ow_readable_dec unmarshal raw : (exists l, ow_readable unmarshal raw l) \/ forall l, ~ ow_readable unmarshal raw l.
Proof.
  destruct (unmarshal raw) as [resp|e] eqn:U; [|right; intros l (r & E & _); congruence].
  destruct (OpenWeather.Hourly resp) as [|i l] eqn:Eh.
  - right. intros l (r & E & F & G). congruence.
  - left. exists (OpenWeather.Hourly resp), resp. now rewrite Eh.
Qed.

Lemma om_exact_ok `{Env} `{Codec} unmarshal req raw r : om_numbers unmarshal -> om_exact unmarshal req raw r -> result_ok r.
Proof.
  intros N (_ & X & Y). destruct (om_readable_dec unmarshal raw) as [(h & Hr)|Hr]; [|now apply unreadable_ok, Y].
  eapply rows_exact_ok; [exact (X h Hr)|]. intros i s. exact (om_row_numbers h req i s (N raw h Hr)).
Qed.

Lemma ow_exact_ok `{Env} unmarshal req raw r : ow_numbers unmarshal -> ow_exact unmarshal req raw r -> result_ok r.
Proof.
  intros N (_ & X & Y). destruct (ow_readable_dec unmarshal raw) as [(l & Hr)|Hr]; [|now apply unreadable_ok, Y].
  eapply rows_exact_ok; [exact (X l Hr)|]. intros i s. exact (ow_row_numbers l req i s (N raw l Hr)).
Qed.

(** *** What a call returns *)

Lemma om_fetch `{Env} `{Codec} `{Upstream} unmarshal transport req ids :
  let r := ar_Result (OpenMeteo.FetchForecast unmarshal transport req ids) in
  match Get transport (OpenMeteo.buildURL req) (OpenMeteo.requestHeaders req) with
  | (resp, Some e) => no_rows (ProviderError_Outcome e) r
  | (resp, None) => om_exact unmarshal req (Body resp) r
  end.
Proof.
  unfold OpenMeteo.FetchForecast. destruct (Get _ _ _) as [resp [e|]]; [repeat split|]. apply om_decomposed.
Qed.

Lemma ow_fetch `{Env} `{Codec} `{Upstream} unmarshal transport clk b req ids :
  let r := ar_Result (OpenWeather.FetchForecast unmarshal transport clk b req ids).2 in
  match (fun b => (OpenWeather.reserve b (OpenWeather.t_reserve clk)).2.1) <$> b,
        Get transport (OpenWeather.buildURL req) ∅ with
  | Some false, _ => no_rows OutcomeRateLimited r
  | _, (resp, Some e) => no_rows (ProviderError_Outcome e) r
  | _, (resp, None) => ow_exact unmarshal req (Body resp) r
  end.
Proof.
  unfold OpenWeather.FetchForecast. destruct b as [b|]; cbn [fmap option_fmap option_map].
  - destruct (OpenWeather.reserve b _) as [b' [[] d]]; cbn [fst snd]; [|repeat split].
    destruct (Get _ _ _) as [resp [e|]]; [repeat split|]. apply ow_decomposed.
  - destruct (Get _ _ _) as [resp [e|]]; [repeat split|]. apply ow_decomposed.
Qed.

(** *** Conditions *)

(** No condition, or one of the taxonomy. *)
Definition condition_ok (s : ForecastSnapshot) : Prop :=
  s_CanonicalConditionCode s = "" \/ IsValidCanonical (s_CanonicalConditionCode s) = true.

Lemma om_canonical code : IsValidCanonical (OpenMeteo.mapCondition code).1 = true.
Proof.
  unfold OpenMeteo.mapCondition. destruct (OpenMeteo.wmoConditionMap !! code) as [c|] eqn:E; [|reflexivity].
  assert (F : map_Forall (fun _ c => IsValidCanonical c = true) OpenMeteo.wmoConditionMap)
    by (apply (bool_decide_unpack _); vm_compute; exact I).
  exact (F _ _ E).
Qed.

Lemma ow_canonical code : IsValidCanonical (OpenWeather.mapCondition code).1 = true.
Proof. unfold OpenWeather.mapCondition. simp_if; reflexivity. Qed.

Lemma condition_row_ok mapCondition code s :
  (forall c, IsValidCanonical (mapCondition c).1 = true) -> s_CanonicalConditionCode s = "" ->
  condition_ok (condition_row mapCondition code s).
Proof. intros Hm E. destruct code as [c|]; [right; apply Hm|now left]. Qed.

Lemma om_row_condition `{Codec} h req i s : om_row h req i = Some s -> condition_ok s.
Proof.
  unfold om_row. destruct (parseTime _); [|discriminate]. intros [= <-]. apply condition_row_ok; [exact om_canonical|reflexivity].
Qed.

Lemma ow_row_condition items req i s : ow_row items req i = Some s -> condition_ok s.
Proof.
  unfold ow_row. destruct (default None (items !! i)) as [it|]; [|discriminate]. cbn. destruct (bool_decide _); [|discriminate].
  intros [= <-]. apply condition_row_ok; [exact ow_canonical|reflexivity].
Qed.

Lemma rows_exact_conditions `{Env} row n r :
  rows_exact row n r -> (forall i s, row i = Some s -> condition_ok s) -> Forall condition_ok (Snapshots r).
Proof.
  intros X Hc. apply Forall_forall. intros s Hs. assert (Hi : erase s ∈ erase <$> Snapshots r) by now apply list_elem_of_fmap_2.
  rewrite (re_rows _ _ _ X) in Hi. apply list_elem_of_omap in Hi as (i & _ & Hi).
  unfold valid_row in Hi. destruct (row i) as [t|] eqn:Et; cbn in Hi; [|discriminate].
  destruct (Validate t); [|discriminate]. apply Some_inj in Hi. change (condition_ok (erase s)). rewrite <- Hi.
  exact (Hc i t Et).
Qed.

(** What the collection workflow relies on. *)
Definition good (r : ForecastResult) : Prop := result_ok r /\ Forall condition_ok (Snapshots r).

Definition keeps_promise (a : Collection.Adapter) : Prop :=
  (forall req r, Collection.FetchForecast a req = Ok r -> good r) /\
  (forall decode, Collection.DecodeStored a = Some decode -> forall req raw r, decode req raw = Ok r -> good r).

Lemma no_rows_good o r : no_rows o r -> good r.
Proof. intros N. split; [now apply (no_rows_ok o)|]. destruct N as (-> & _). constructor. Qed.

Lemma om_exact_good `{Env} `{Codec} unmarshal req raw r : om_numbers unmarshal -> om_exact unmarshal req raw r -> good r.
Proof.
  intros N X. split; [exact (om_exact_ok unmarshal req raw r N X)|]. destruct X as (_ & X & Y).
  destruct (om_readable_dec unmarshal raw) as [(h & Hr)|Hr]; [|destruct (Y Hr) as (-> & _); constructor].
  eapply rows_exact_conditions; [exact (X h Hr)|]. intros i s. apply om_row_condition.
Qed.

Lemma ow_exact_good `{Env} unmarshal req raw r : ow_numbers unmarshal -> ow_exact unmarshal req raw r -> good r.
Proof.
  intros N X. split; [exact (ow_exact_ok unmarshal req raw r N X)|]. destruct X as (_ & X & Y).
  destruct (ow_readable_dec unmarshal raw) as [(l & Hr)|Hr]; [|destruct (Y Hr) as (-> & _); constructor].
  eapply rows_exact_conditions; [exact (X l Hr)|]. intros i s. apply ow_row_condition.
Qed.

Lemma om_keeps `{Env} `{Codec} `{Upstream} unmarshal transport ids :
  om_numbers unmarshal -> keeps_promise (OpenMeteo.adapter unmarshal transport ids).
Proof.
  intros N. split.
  - intros req r [= <-]. pose proof (om_fetch unmarshal transport req ids) as F. cbv zeta in F.
    destruct (Get _ _ _) as [resp [e|]]; [exact (no_rows_good _ _ F)|exact (om_exact_good _ _ _ _ N F)].
  - intros decode [= <-] req raw r [= <-]. exact (om_exact_good _ _ _ _ N (om_decomposed unmarshal OpenMeteo.SchemaVersion OpenMeteo.AdapterVersion _ raw 0 0 "" None req ids)).
Qed.

Lemma ow_keeps `{Env} `{Codec} `{Upstream} unmarshal transport clk b ids :
  ow_numbers unmarshal -> keeps_promise (OpenWeather.adapter unmarshal transport clk b ids).
Proof.
  intros N. split.
  - intros req r [= <-]. pose proof (ow_fetch unmarshal transport clk b req ids) as F. cbv zeta in F.
    match type of F with match ?x with _ => _ end => destruct x as [[]|] end; try exact (no_rows_good _ _ F);
      destruct (Get transport _ _) as [resp [e|]]; first [exact (no_rows_good _ _ F)|exact (ow_exact_good _ _ _ _ N F)].
  - intros decode [= <-] req raw r [= <-]. exact (ow_exact_good _ _ _ _ N (ow_decomposed unmarshal OpenWeather.SchemaVersion OpenWeather.AdapterVersion _ raw 0 0 "" None req ids)).
Qed.

(** *** Replay *)

(** The same rows and counts, but for the ids. *)
Definition same_decomposed (d d' : Decomposed) : Prop :=
  erase <$> rw_Snapshots (de_Rows d) = erase <$> rw_Snapshots (de_Rows d') /\
  rw_InvalidCount (de_Rows d) = rw_InvalidCount (de_Rows d') /\
  rw_InvalidReasons (de_Rows d) = rw_InvalidReasons (de_Rows d') /\
  de_RecordsReceived d = de_RecordsReceived d' /\ de_Outcome d = de_Outcome d' /\ de_ErrorCode d = de_ErrorCode d'.

Lemma decompose_rows_same `{Env} build row n ids ids' :
  builds build row -> same_decomposed (decompose_rows build n ids) (decompose_rows build n ids').
Proof.
  intros Hb. unfold decompose_rows.
  destruct (loop_spec build row Hb (seq 0 n) (noRows ids)) as (E & C & _).
  destruct (loop_spec build row Hb (seq 0 n) (noRows ids')) as (E' & C' & _).
  pose proof (loop_reasons build row Hb (seq 0 n) (noRows ids) (noRows ids') eq_refl) as R.
  set (r := foldl _ (noRows ids) _) in *. set (r' := foldl _ (noRows ids') _) in *.
  change (erase <$> rw_Snapshots (noRows ids)) with (@nil ForecastSnapshot) in E.
  change (erase <$> rw_Snapshots (noRows ids')) with (@nil ForecastSnapshot) in E'.
  assert (S : erase <$> rw_Snapshots r = erase <$> rw_Snapshots r') by now rewrite E, E'.
  assert (L : length (rw_Snapshots r) = length (rw_Snapshots r')) by (rewrite <- (length_fmap erase), S; apply length_fmap).
  cbn in C, C'. assert (I : rw_InvalidCount r = rw_InvalidCount r') by lia. rewrite <- I.
  destruct (classify_rows _ _) as [o code]. repeat split; assumption.
Qed.

Lemma drift_same ids ids' reason : same_decomposed (drift ids reason) (drift ids' reason).
Proof. repeat split. Qed.

Lemma om_decompose_same `{Env} `{Codec} unmarshal raw req ids ids' :
  same_decomposed (OpenMeteo.decompose unmarshal raw req ids) (OpenMeteo.decompose unmarshal raw req ids').
Proof.
  unfold OpenMeteo.decompose. destruct (unmarshal raw) as [resp|e]; [|apply drift_same].
  destruct (OpenMeteo.Hourly resp) as [h|]; [|apply drift_same].
  destruct (OpenMeteo.h_Time h); [apply drift_same|]. exact (decompose_rows_same _ _ _ ids ids' (om_builds h req)).
Qed.

Lemma ow_decompose_same `{Env} unmarshal raw req ids ids' :
  same_decomposed (OpenWeather.decompose unmarshal raw req ids) (OpenWeather.decompose unmarshal raw req ids').
Proof.
  unfold OpenWeather.decompose. destruct (unmarshal raw) as [resp|e]; [|apply drift_same].
  destruct (OpenWeather.Hourly resp); [apply drift_same|]. exact (decompose_rows_same _ _ _ ids ids' (ow_builds _ req)).
Qed.

(** [r'] is [r] decoded again: everything but the ids and the HTTP metadata. *)
Definition rederived (r r' : ForecastResult) : Prop :=
  RawPayload r' = RawPayload r /\ Checksum r' = Checksum r /\
  Collection.SchemaVersion r' = Collection.SchemaVersion r /\ Collection.AdapterVersion r' = Collection.AdapterVersion r /\
  r_IssuedAt r' = r_IssuedAt r /\ erase <$> Snapshots r' = erase <$> Snapshots r /\
  RecordsReceived r' = RecordsReceived r /\ InvalidCount r' = InvalidCount r /\ InvalidReasons r' = InvalidReasons r /\
  r_Outcome r' = r_Outcome r /\ r_ErrorCode r' = r_ErrorCode r /\ r_Err r' = r_Err r.

Lemma decomposed_rederived `{Codec} schema version issued raw status latency reqID rl status' latency' reqID' rl' d d' :
  same_decomposed d' d ->
  rederived (ar_Result (decomposed_result schema version issued raw status latency reqID rl d))
            (ar_Result (decomposed_result schema version issued raw status' latency' reqID' rl' d')).
Proof. intros (? & ? & ? & ? & ? & ?). repeat split; assumption. Qed.

(** ** The observation source *)

Definition obs_with_id (o : Observation) (id : uuid) : Observation :=
  MkObservation id (o_LocationID o) (o_Source o) (o_ObservationType o) (o_ObservedAt o) (o_TemperatureC o)
    (o_HumidityPct o) (o_WindSpeedMS o) (o_WindDirectionDeg o) (o_PressureHPa o) (o_PrecipitationMM o)
    (o_ProviderConditionCode o) (o_CanonicalConditionCode o) (o_QualityFlag o) (o_SupersededObservationID o) (o_CreatedAt o).

Definition obs_erase (o : Observation) : Observation := obs_with_id o 0.

(** Row [i] of a historical payload, unless its time is unreadable or after the window. *)
Definition hist_row `{Codec} (obsType : string) (h : Historical.hourlyData) (req : ObservationRequest) (i : nat) : option Observation :=
  let col f := OpenMeteo.at_ (f h) i in
  let code := OpenMeteo.at_ (Historical.WeatherCode h) i in
  t ← parseTime (default "" (Historical.h_Time h !! i));
  if bool_decide (or_WindowEnd req <> zeroTime /\ or_WindowEnd req < t) then None
  else Some (MkObservation 0 (or_LocationID req) Historical.SourceName obsType t (col Historical.Temperature2m)
         (col Historical.RelativeHumidity2m) (col Historical.WindSpeed10m) (col Historical.WindDirection10m)
         (col Historical.SurfacePressure) (col Historical.Precipitation)
         (default "" (pretty <$> code)) (default "" (Historical.mapCondition <$> code)) QualityValid None zeroTime).

(** A row out of range is kept, and marked. *)
Definition flagged (o : Observation) : Observation :=
  match RangeReasons o with [] => o | _ => set_flag o QualitySuspect end.

Definition is_suspect (o : Observation) : bool := String.eqb (o_QualityFlag o) QualitySuspect.

Lemma buildObservation_row `{Env} `{Codec} obsType h req i ids :
  match hist_row obsType h req i with
  | None => exists reason, Historical.buildObservation obsType h req i ids = inl reason
  | Some o => Historical.buildObservation obsType h req i ids = inr (obs_with_id o (Effects.newID ids)) /\ o_QualityFlag o = QualityValid
  end.
Proof.
  unfold hist_row, Historical.buildObservation. cbv zeta. destruct (parseTime _) as [t|]; cbn [mbind option_bind]; [|eexists; reflexivity].
  unfold After. destruct (or_WindowEnd req =? zeroTime) eqn:Z, (or_WindowEnd req <? t) eqn:L; bool_simp; cbn [negb andb].
  3: (rewrite bool_decide_eq_true_2 by lia; eexists; reflexivity).
  all: rewrite bool_decide_eq_false_2 by lia; split; [|reflexivity]; now destruct (OpenMeteo.at_ (Historical.WeatherCode h) i).
Qed.

Lemma flagged_suspect o : o_QualityFlag o = QualityValid -> is_suspect (flagged o) = negb (bool_decide (RangeReasons o = [])).
Proof.
  intros E. unfold flagged, is_suspect. destruct (RangeReasons o); [now rewrite E|reflexivity].
Qed.

Section HistoricalLoop.
Context `{Env} `{Codec} (obsType : string) (h : Historical.hourlyData) (req : ObservationRequest).

Abbreviation row i := (flagged <$> hist_row obsType h req i).

Lemma obs_step_cases r i :
  let r' := Historical.obs_step obsType h req r i in
  match row i with
  | None => Historical.ow_Observations r' = Historical.ow_Observations r /\
      Historical.ow_Suspect r' = Historical.ow_Suspect r /\ Historical.ow_Invalid r' = Historical.ow_Invalid r + 1
  | Some o => Historical.ow_Observations r' = Historical.ow_Observations r ++ [obs_with_id o (Effects.newID (Historical.ow_ids r))] /\
      Historical.ow_Suspect r' = Historical.ow_Suspect r + (if is_suspect o then 1 else 0) /\
      Historical.ow_Invalid r' = Historical.ow_Invalid r
  end.
Proof.
  pose proof (buildObservation_row obsType h req i (Historical.ow_ids r)) as B. unfold Historical.obs_step.
  destruct (hist_row obsType h req i) as [o|]; cbn [fmap option_fmap option_map].
  - destruct B as [-> Q]. rewrite (flagged_suspect o Q). unfold flagged.
    change (RangeReasons (obs_with_id o _)) with (RangeReasons o).
    destruct (RangeReasons o); cbn; repeat split; lia.
  - destruct B as [reason ->]. repeat split.
Qed.

Lemma obs_loop_spec l r :
  let r' := foldl (Historical.obs_step obsType h req) r l in
  let rows := omap (fun i => row i) l in
  obs_erase <$> Historical.ow_Observations r' = (obs_erase <$> Historical.ow_Observations r) ++ (obs_erase <$> rows) /\
  Historical.ow_Suspect r' = Historical.ow_Suspect r + Z.of_nat (length (List.filter is_suspect rows)) /\
  Historical.ow_Invalid r' = Historical.ow_Invalid r + Z.of_nat (length l) - Z.of_nat (length rows).
Proof.
  revert r. induction l as [|i l IH]; intros r; cbn [foldl].
  { cbn. rewrite app_nil_r. repeat split; lia. }
  pose proof (obs_step_cases r i) as S. cbv zeta in S. destruct (IH (Historical.obs_step obsType h req r i)) as (E & P & N).
  cbn [omap list_omap]. destruct (row i) as [o|]; destruct S as (S1 & S2 & S3); cbn [List.filter length].
  - split; [rewrite E, S1, fmap_app, <- app_assoc; reflexivity|]. rewrite P, N, S2, S3.
    destruct (is_suspect o); cbn [length]; lia.
  - split; [rewrite E, S1; reflexivity|]. lia.
Qed.
End HistoricalLoop.

Definition hist_readable (unmarshal : string -> result Historical.historicalResponse) (raw : string) (h : Historical.hourlyData) : Prop :=
  exists resp, unmarshal raw = Ok resp /\ Historical.Hourly resp = Some h /\ Historical.h_Time h <> [].

(** The result holds the readable rows of the window, the ones out of range marked
    suspect and counted, and is a failure when there is none or most are invalid. *)
Record hist_exact `{Codec} (obsType : string) (h : Historical.hourlyData) (req : ObservationRequest)
    (r : Historical.HistoricalResult) : Prop := {
  he_rows : obs_erase <$> Observations (Historical.hr_Result r) =
    obs_erase <$> omap (fun i => flagged <$> hist_row obsType h req i) (seq 0 (length (Historical.h_Time h)));
  he_received : Historical.hr_RecordsReceived r = Z.of_nat (length (Historical.h_Time h));
  he_invalid : Historical.hr_InvalidCount r =
    Z.of_nat (length (Historical.h_Time h)) - Z.of_nat (length (Observations (Historical.hr_Result r)));
  he_suspect : Historical.SuspectCount r = Z.of_nat (length (List.filter is_suspect (Observations (Historical.hr_Result r))));
  he_outcome : ob_Outcome (Historical.hr_Result r) =
    if bool_decide (Observations (Historical.hr_Result r) = [] \/
                    Historical.hr_RecordsReceived r < 2 * Historical.hr_InvalidCount r)
    then OutcomeFailed else OutcomeSuccess;
}.

Lemma classify_obs_outcome rows invalid n :
  (Historical.classify_obs rows invalid n).1 = if bool_decide (rows = [] \/ n < 2 * invalid) then OutcomeFailed else OutcomeSuccess.
Proof.
  unfold Historical.classify_obs. destruct rows as [|o rows]; [reflexivity|]. destruct (n <? invalid * 2) eqn:E; bool_simp.
  - rewrite bool_decide_eq_true_2; [reflexivity|right; lia].
  - rewrite bool_decide_eq_false_2; [reflexivity|]. intros [?|?]; [discriminate|lia].
Qed.

Lemma filter_erase (l l' : list Observation) :
  obs_erase <$> l = obs_erase <$> l' -> length (List.filter is_suspect l) = length (List.filter is_suspect l').
Proof.
  revert l'. induction l as [|o l IH]; intros [|o' l']; try discriminate; [reflexivity|]. rewrite !fmap_cons.
  intros E. pose proof (f_equal tail E) as E2. apply (f_equal head), Some_inj in E as E1. cbn [tail] in E2. apply IH in E2. cbn [List.filter].
  replace (is_suspect o) with (is_suspect o') by (change (is_suspect (obs_erase o') = is_suspect (obs_erase o)); now rewrite E1).
  destruct (is_suspect o'); cbn [length]; congruence.
Qed.

Lemma hist_decompose_exact `{Env} `{Codec} unmarshal obsType raw req ids resp h :
  hist_readable unmarshal raw h -> hist_exact obsType h req (Historical.decompose unmarshal obsType raw req ids resp).
Proof.
  intros (fr & Eu & Eh & Hn). unfold Historical.decompose. rewrite Eu, Eh.
  destruct (Historical.h_Time h) as [|t0 ts] eqn:Et; [easy|]. rewrite <- Et in *.
  destruct (obs_loop_spec obsType h req (seq 0 (length (Historical.h_Time h))) (Historical.MkObsRows [] 0 0 [] ids)) as (E & P & N).
  set (w := foldl _ _ _) in *. cbn [Historical.ow_Observations Historical.ow_Suspect Historical.ow_Invalid fmap list_fmap app] in E, P, N.
  rewrite length_seq in N. pose proof (filter_erase _ _ E) as F. rewrite <- F in P.
  assert (L : length (Historical.ow_Observations w) =
    length (omap (fun i => flagged <$> hist_row obsType h req i) (seq 0 (length (Historical.h_Time h)))))
    by (rewrite <- (length_fmap obs_erase), E; apply length_fmap).
  pose proof (classify_obs_outcome (Historical.ow_Observations w) (Historical.ow_Invalid w) (Z.of_nat (length (Historical.h_Time h)))) as O.
  destruct (Historical.classify_obs _ _ _) as [o code]. constructor; cbn.
  - exact E.
  - reflexivity.
  - lia.
  - lia.
  - exact O.
Qed.

Lemma hist_decompose_unreadable `{Env} `{Codec} unmarshal obsType raw req ids resp :
  (forall h, ~ hist_readable unmarshal raw h) ->
  let r := Historical.hr_Result (Historical.decompose unmarshal obsType raw req ids resp) in
  Observations r = [] /\ ob_Outcome r = OutcomeFailed.
Proof.
  intros N. unfold Historical.decompose. destruct (unmarshal raw) as [fr|e] eqn:U; [|now split].
  destruct (Historical.Hourly fr) as [h|] eqn:Eh; [|now split].
  destruct (Historical.h_Time h) eqn:Et; [now split|]. exfalso. apply (N h). exists fr. now rewrite Et.
Qed.

(** Every row carries the source and the location of the request. *)
Lemma hist_exact_promise `{Codec} obsType h req r :
  hist_exact obsType h req r ->
  Forall (fun o => o_Source o = Historical.SourceName /\ o_LocationID o = or_LocationID req) (Observations (Historical.hr_Result r)).
Proof.
  intros X. apply Forall_forall. intros o Ho.
  assert (Hi : obs_erase o ∈ obs_erase <$> Observations (Historical.hr_Result r)) by now apply list_elem_of_fmap_2.
  rewrite (he_rows _ _ _ _ X) in Hi. apply list_elem_of_fmap in Hi as (o' & E & Hi).
  apply list_elem_of_omap in Hi as (i & _ & Hi). unfold hist_row in Hi.
  destruct (parseTime _); [|discriminate]. cbn [mbind option_bind] in Hi. destruct (bool_decide _); [discriminate|].
  apply Some_inj in Hi. change (o_Source (obs_erase o) = Historical.SourceName /\ o_LocationID (obs_erase o) = or_LocationID req).
  rewrite E, <- Hi. unfold flagged. now destruct (RangeReasons _).
Qed.

Lemma hist_readable_dec unmarshal raw : (exists h, hist_readable unmarshal raw h) \/ forall h, ~ hist_readable unmarshal raw h.
Proof.
  destruct (unmarshal raw) as [resp|e] eqn:U; [|right; intros h (r & E & _); congruence].
  destruct (Historical.Hourly resp) as [h|] eqn:Eh; [|right; intros h (r & E & F & _); congruence].
  destruct (Historical.h_Time h) as [|t ts] eqn:Et.
  - right. intros h' (r & E & F & G). congruence.
  - left. exists h, resp. now rewrite Et.
Qed.

Lemma hist_promise `{Env} `{Codec} `{Upstream} unmarshal obsType transport ids :
  @source_promise (Historical.source unmarshal obsType transport ids).
Proof.
  intros req r [= <-]. unfold Historical.FetchObservations.
  destruct (Get _ _ _) as [resp [e|]]; [constructor|].
  destruct (hist_readable_dec unmarshal (Body resp)) as [(h & Hr)|Hr].
  - exact (hist_exact_promise _ _ _ _ (hist_decompose_exact unmarshal obsType (Body resp) req ids resp h Hr)).
  - destruct (hist_decompose_unreadable unmarshal obsType (Body resp) req ids resp Hr) as [-> _]. constructor.
Qed.

(** ** Theorems *)

(** C9: whatever the network answers and whatever the payload, the result of either
    forecast adapter, fetched or decoded from a stored payload, is what the
    collection workflow relies on: its snapshots pass validation and hold numbers,
    every record received is a snapshot or counted invalid, and conditions are of
    the taxonomy.  The decoders are only assumed to yield finite numbers. *)
Theorem forecast_adapters_keep_promise `{Env} `{Codec} `{Upstream} unmarshal unmarshal' transport clk b ids :
  om_numbers unmarshal -> ow_numbers unmarshal' ->
  keeps_promise (OpenMeteo.adapter unmarshal transport ids) /\
  keeps_promise (OpenWeather.adapter unmarshal' transport clk b ids).
Proof. intros N N'. split; [now apply om_keeps|now apply ow_keeps]. Qed.

(** C11: a forecast call returns no row when the transport fails (with the outcome of
    the failure) or the budget refuses it; otherwise exactly the valid rows of the
    payload, in order, normalised, with distinct ids, the rest counted: failed above
    half invalid, partial below, success with none; schema drift if unreadable. *)
Theorem forecast_rows_exact `{Env} `{Codec} `{Upstream} unmarshal unmarshal' transport clk b req ids :
  (let r := ar_Result (OpenMeteo.FetchForecast unmarshal transport req ids) in
   match Get transport (OpenMeteo.buildURL req) (OpenMeteo.requestHeaders req) with
   | (resp, Some e) => no_rows (ProviderError_Outcome e) r
   | (resp, None) => om_exact unmarshal req (Body resp) r
   end) /\
  (let r := ar_Result (OpenWeather.FetchForecast unmarshal' transport clk b req ids).2 in
   match (fun b => (OpenWeather.reserve b (OpenWeather.t_reserve clk)).2.1) <$> b, Get transport (OpenWeather.buildURL req) ∅ with
   | Some false, _ => no_rows OutcomeRateLimited r
   | _, (resp, Some e) => no_rows (ProviderError_Outcome e) r
   | _, (resp, None) => ow_exact unmarshal' req (Body resp) r
   end).
Proof. split; [apply om_fetch|apply ow_fetch]. Qed.

(** A payload is decoded by its text and the issue time of the request alone. *)
Lemma om_decompose_request `{Env} `{Codec} unmarshal raw req req' ids :
  fr_IssuedAt req' = fr_IssuedAt req -> OpenMeteo.decompose unmarshal raw req' ids = OpenMeteo.decompose unmarshal raw req ids.
Proof. intros E. unfold OpenMeteo.decompose, OpenMeteo.buildSnapshot. now rewrite E. Qed.

Lemma ow_decompose_request `{Env} unmarshal raw req req' ids :
  fr_IssuedAt req' = fr_IssuedAt req -> OpenWeather.decompose unmarshal raw req' ids = OpenWeather.decompose unmarshal raw req ids.
Proof. intros E. unfold OpenWeather.decompose, OpenWeather.buildSnapshot. now rewrite E. Qed.

(** The budget, if there is one, lets the call through. *)
Definition budget_admits (b : option OpenWeather.dailyBudget) (clk : OpenWeather.FetchClock) : Prop :=
  match b with Some b => (OpenWeather.reserve b (OpenWeather.t_reserve clk)).2.1 = true | None => True end.

Lemma ow_fetch_completed `{Env} `{Codec} `{Upstream} unmarshal transport clk b req ids resp :
  budget_admits b clk -> Get transport (OpenWeather.buildURL req) ∅ = (resp, None) ->
  (OpenWeather.FetchForecast unmarshal transport clk b req ids).2 =
  decomposed_result OpenWeather.SchemaVersion OpenWeather.AdapterVersion (fr_IssuedAt req) (Body resp) (StatusCode resp)
    (rs_LatencyMS resp) (RequestID resp) (rs_RateLimit resp) (OpenWeather.decompose unmarshal (Body resp) req ids).
Proof.
  intros B G. unfold OpenWeather.FetchForecast. rewrite G. destruct b as [b|]; [|reflexivity]. cbn in *.
  destruct (OpenWeather.reserve b _) as [b' [ok w]]. cbn in B. now rewrite B.
Qed.

(** C26: decoding the stored payload of a call the provider completed (a 2xx answer,
    let through by the daily budget where there is one) gives the result of the call
    again, whatever the rest of the request the replay builds, as long as it keeps the
    issue time: the same snapshots but for their ids, counts, reasons, outcome,
    versions and digest. *)
Theorem replay_rederives `{Env} `{Codec} `{Upstream} unmarshal unmarshal' transport clk b req req' ids ids' resp resp' :
  fr_IssuedAt req' = fr_IssuedAt req ->
  Get transport (OpenMeteo.buildURL req) (OpenMeteo.requestHeaders req) = (resp, None) ->
  budget_admits b clk -> Get transport (OpenWeather.buildURL req) ∅ = (resp', None) ->
  let r := ar_Result (OpenMeteo.FetchForecast unmarshal transport req ids) in
  let r' := ar_Result (OpenWeather.FetchForecast unmarshal' transport clk b req ids).2 in
  rederived r (ar_Result (OpenMeteo.DecodeStored unmarshal req' (RawPayload r) ids')) /\
  rederived r' (ar_Result (OpenWeather.DecodeStored unmarshal' req' (RawPayload r') ids')).
Proof.
  intros Ei G B G'. cbv zeta. rewrite (ow_fetch_completed unmarshal' transport clk b req ids resp' B G').
  unfold OpenMeteo.FetchForecast, OpenMeteo.DecodeStored, OpenWeather.DecodeStored. rewrite G, Ei, (om_decompose_request _ _ req req'), (ow_decompose_request _ _ req req') by exact Ei.
  cbn [decomposed_result ar_Result RawPayload snd]. split.
  - apply (decomposed_rederived _ _ _ (Body resp) _ _ _ (rs_RateLimit resp) _ _ _ None). apply om_decompose_same.
  - apply (decomposed_rederived _ _ _ (Body resp') _ _ _ (rs_RateLimit resp') _ _ _ None). apply ow_decompose_same.
Qed.

(** Note: the observation source keeps the promise of its port (rows of the requested
    location and of its source), and a call returns exactly the rows of the payload
    whose time is readable and not after the window, the ones out of range marked
    suspect rather than dropped; it fails when the transport does, when no row is
    left, or when more than half are invalid. *)
Theorem historical_source_exact `{Env} `{Codec} `{Upstream} unmarshal obsType transport req ids :
  @source_promise (Historical.source unmarshal obsType transport ids) /\
  let r := Historical.FetchObservations unmarshal obsType transport req ids in
  match Get transport (Historical.buildURL req) ∅ with
  | (resp, Some e) => Observations (Historical.hr_Result r) = [] /\ ob_Outcome (Historical.hr_Result r) = ProviderError_Outcome e
  | (resp, None) =>
      (forall h, hist_readable unmarshal (Body resp) h -> hist_exact obsType h req r) /\
      ((forall h, ~ hist_readable unmarshal (Body resp) h) ->
       Observations (Historical.hr_Result r) = [] /\ ob_Outcome (Historical.hr_Result r) = OutcomeFailed)
  end.
Proof.
  split; [apply hist_promise|]. cbv zeta. unfold Historical.FetchObservations.
  destruct (Get _ _ _) as [resp [e|]]; [now split|]. split.
  - intros h. apply hist_decompose_exact.
  - apply hist_decompose_unreadable.
Qed.

(** *** A concrete provider *)

Definition demo_codec : Codec := {|
  time_Parse := fun layout s => if String.eqb layout layoutMinute then (fun n => n * Hour) <$> Atoi s else None;
  Quote := fun s => s; sha256 := fun s => s
|}.

Definition demo_hourly : OpenMeteo.hourlyData :=
  OpenMeteo.MkHourly ["10"; "x"; "11"] [Some f1; None; Some f0] [] [Some (f64_of_Z 40); None; Some (f64_of_Z 70)]
    [Some f0] [Some (f64_of_Z 50); Some f1; Some f1] [] [] [] [] [Some 3; None; Some 1234].

Definition demo_items : list (option OpenWeather.hourlyItem) :=
  [Some (OpenWeather.MkItem 36000 (Some f1) None None None None None None (Some f1) (Some (Some f1)) (Some (Some f1)) [None; Some 800]);
   None; Some (OpenWeather.MkItem 39600 None None None None None None None None None (Some None) [])].

Definition demo_om (raw : string) : result OpenMeteo.forecastResponse :=
  if String.eqb raw "" then Error "eof" else Ok (OpenMeteo.MkForecastResponse f0 f0 "UTC" (Some demo_hourly)).
Definition demo_ow (raw : string) : result OpenWeather.forecastResponse :=
  if String.eqb raw "" then Error "eof" else Ok (OpenWeather.MkForecastResponse f0 f0 demo_items).

Definition demo_up : Upstream := {|
  newRequest := fun _ => None;
  roundTrip := fun k _ _ => inr (match k with
    | O => MkHttp 502 (fun _ => "") "bad gateway" None
    | _ => MkHttp 200 (fun _ => "") "{}" None
    end);
  elapsed := fun _ => 0; afterCall := fun _ => 0; jitterRand := fun _ => f0;
  backoffDone := fun _ _ => None; limiterDone := fun _ => None; http_ParseTime := fun _ => None
|}.

Definition demo_ids : Env := {| fault := fun _ => false; Effects.newID := fun k => N.of_nat (100 + k) |}.
Definition demo_request : ForecastRequest := MkRequest 7 9 "" "" "" f0 f0 "UTC" (9 * Hour).
Definition demo_fetch_clock : OpenWeather.FetchClock := OpenWeather.MkFetchClock 0 0 0.

Lemma demo_om_numbers : om_numbers demo_om.
Proof.
  intros raw h (resp & E & F & _). unfold demo_om in E. destruct (String.eqb raw ""); [discriminate|].
  injection E as <-. injection F as <-. repeat constructor.
Qed.

Lemma demo_ow_numbers : ow_numbers demo_ow.
Proof.
  intros raw l (resp & E & F & _) it Hi. unfold demo_ow in E. destruct (String.eqb raw ""); [discriminate|].
  injection E as <-. cbn in F. subst l. unfold demo_items in Hi. rewrite !elem_of_cons in Hi.
  destruct Hi as [[= ->]|[[=]|[[= ->]|Hi]]]; [repeat constructor..|now apply not_elem_of_nil in Hi].
Qed.

Lemma forecast_adapters_keep_promise_witness :
  keeps_promise (@OpenMeteo.adapter demo_ids demo_codec demo_om demo_up demo_client 0) /\
  keeps_promise (@OpenWeather.adapter demo_ids demo_codec demo_ow demo_up demo_client demo_fetch_clock None 0).
Proof.
  exact (@forecast_adapters_keep_promise demo_ids demo_codec demo_up demo_om demo_ow demo_client demo_fetch_clock None 0%nat
           demo_om_numbers demo_ow_numbers).
Defined.

(** After a 502 and a retry, one row of three is invalid: a partial result, that the
    replay gives again from a request that has only the issue time; and a call that
    the budget admits as the last of its day. *)
Definition replay_request : ForecastRequest := MkRequest 7 9 "" "" "" f0 f0 "" (9 * Hour).

Lemma replay_rederives_witness :
  let r := ar_Result (@OpenMeteo.FetchForecast demo_ids demo_codec demo_om demo_up demo_client demo_request 0) in
  let r' := ar_Result (@OpenWeather.FetchForecast demo_ids demo_codec demo_ow demo_up demo_client demo_fetch_clock
                         (Some (OpenWeather.newDailyBudget 1 0)) demo_request 0).2 in
  r_Outcome r = OutcomePartial /\ length (Snapshots r) = 2%nat /\
  rederived r (ar_Result (@OpenMeteo.DecodeStored demo_ids demo_codec demo_om replay_request (RawPayload r) 50)) /\
  rederived r' (ar_Result (@OpenWeather.DecodeStored demo_ids demo_codec demo_ow replay_request (RawPayload r') 50)).
Proof.
  split; [vm_compute; reflexivity|]. split; [vm_compute; reflexivity|].
  apply (@replay_rederives demo_ids demo_codec demo_up demo_om demo_ow demo_client demo_fetch_clock (Some (OpenWeather.newDailyBudget 1 0))
    demo_request replay_request 0%nat 50%nat (MkResponse "{}" 200 0 2 "" None) (MkResponse "{}" 200 0 2 "" None)); vm_compute; reflexivity.
Defined.

End AdapterProps.
