(* ===== verification/BudgetProps.v ===== *)
(** * OpenWeather's daily budget refines a log of requests

    The specification keeps the log of what happened and decides by looking it up:
    a call is admitted when fewer than [max] requests are logged for the UTC day and
    no pause is running.  The budget, which keeps only a counter, a day and an
    instant, answers the same on every sequence of operations whose clock does not
    go back and whose pauses end on the UTC day they were engaged (a pause across
    midnight is dropped there, [pause_dropped_at_midnight]). *)

From Stdlib Require Import ZArith Lia Bool.
From stdpp Require Import base list sorting.
From S2P Require Import Prelude GoTime OpenWeather.

Import OpenWeather.
Local Open Scope list_scope.
Local Open Scope Z_scope.

Module BudgetProps.

(** ** Operations and runs *)

Inductive Op :=
| OReserve (t : Time)
| OPause (t : Time) (d : Duration)
| OConsume (t : Time) (n : Z).

Definition op_time (o : Op) : Time := match o with OReserve t | OPause t _ | OConsume t _ => t end.

(** One operation: the budget after it, and its answer if it has one. *)
Definition op_step (b : dailyBudget) (o : Op) : dailyBudget * option bool :=
  match o with
  | OReserve t => let '(b, (ok, _)) := reserve b t in (b, Some ok)
  | OPause t d => (pause b t d, None)
  | OConsume t n => (consume b n t, None)
  end.

Fixpoint answers (b : dailyBudget) (ops : list Op) : list bool :=
  match ops with
  | [] => []
  | o :: ops => let '(b, a) := op_step b o in match a with Some x => x :: answers b ops | None => answers b ops end
  end.

(** ** The specification *)

Inductive Event :=
| Granted (t : Time)
| Extra (t : Time) (n : Z)
| Paused (t : Time) (until : Time).

Definition event_time (e : Event) : Time := match e with Granted t | Extra t _ | Paused t _ => t end.

(** The requests an event stands for. *)
Definition requests (e : Event) : Z := match e with Granted _ => 1 | Extra _ n => n | Paused _ _ => 0 end.

Definition on_day (d : Time) (e : Event) : bool := utcDay (event_time e) =? d.

Definition requests_on (d : Time) (log : list Event) : Z := foldr Z.add 0 (requests <$> List.filter (on_day d) log).

Definition pausing (now : Time) (e : Event) : bool :=
  match e with Paused _ until => now <? until | _ => false end.

Definition admits (max : Z) (log : list Event) (now : Time) : bool :=
  negb (existsb (pausing now) log) && (requests_on (utcDay now) log <? max).

Definition spec_step (max : Z) (log : list Event) (o : Op) : list Event * option bool :=
  match o with
  | OReserve t => if admits max log t then (log ++ [Granted t], Some true) else (log, Some false)
  | OPause t d => (log ++ [Paused t (pauseEnd t d)], None)
  | OConsume t n => (if 0 <? n then log ++ [Extra t n] else log, None)
  end.

Fixpoint spec_answers (max : Z) (log : list Event) (ops : list Op) : list bool :=
  match ops with
  | [] => []
  | o :: ops => let '(log, a) := spec_step max log o in
                match a with Some x => x :: spec_answers max log ops | None => spec_answers max log ops end
  end.

Fixpoint spec_log (max : Z) (log : list Event) (ops : list Op) : list Event :=
  match ops with [] => log | o :: ops => spec_log max (spec_step max log o).1 ops end.

(** ** Days *)

Lemma utcDay_div t : utcDay t = t / Day * Day.
Proof. unfold utcDay. rewrite Date_fields. pose proof (Z.div_mod t Day ltac:(discriminate)). lia. Qed.

Lemma utcDay_mono t u : t <= u -> utcDay t <= utcDay u.
Proof.
  intros L. rewrite !utcDay_div. apply Z.mul_le_mono_nonneg_r; [unfold Day, Hour, Minute, Second; lia|].
  apply Z.div_le_mono; [reflexivity|assumption].
Qed.

(** Before the midnight that ends a day it is still that day. *)
Lemma utcDay_before t u : u < utcDay t + Day -> utcDay u <= utcDay t.
Proof.
  rewrite !utcDay_div. assert (P : 0 < Day) by reflexivity. revert P. generalize Day. intros D P L.
  apply Z.mul_le_mono_nonneg_r; [lia|]. apply Z.lt_succ_r, Z.div_lt_upper_bound; [assumption|]. rewrite Z.mul_succ_r. lia.
Qed.

(** The pause a 429 engages ends by the next midnight. *)
Definition ends_today (o : Op) : bool :=
  match o with OPause t d => t + d <=? utcDay t + Day | _ => true end.

Lemma pauseEnd_today t d : t + d <= utcDay t + Day -> pauseEnd t d <= utcDay t + Day.
Proof.
  intros L. unfold pauseEnd, untilNextUTCDay, Add, Sub. destruct (0 <? d); [exact L|].
  change (24 * Hour) with Day. pose proof (Z.div_mod t Day ltac:(discriminate)). pose proof (Z.mod_pos_bound t Day ltac:(reflexivity)).
  rewrite utcDay_div. assert (minInt64 <= 0) by (vm_compute; discriminate). lia.
Qed.

(** Only these facts matter below. *)
#[local] Opaque utcDay.

(** ** The log *)

Lemma requests_on_snoc d log e : requests_on d (log ++ [e]) = requests_on d log + if on_day d e then requests e else 0.
Proof.
  unfold requests_on. rewrite List.filter_app, fmap_app. cbn [List.filter].
  destruct (on_day d e); cbn; rewrite foldr_app; cbn.
  - induction (List.filter (on_day d) log); cbn; lia.
  - lia.
Qed.

Lemma requests_on_nil d log : (forall e, e ∈ log -> utcDay (event_time e) <> d) -> requests_on d log = 0.
Proof.
  induction log as [|e log IH]; intros Hn; [reflexivity|]. unfold requests_on. cbn [List.filter].
  replace (on_day d e) with false by (symmetry; apply Z.eqb_neq, Hn; left). apply IH. intros x Hx. apply Hn. now right.
Qed.

(** Every pause and request of the log is of a day up to [d], and ended or counted
    there. *)
Record tracks (max : Z) (last : Time) (b : dailyBudget) (log : list Event) : Prop := {
  tr_max : b_max b = max;
  tr_day : b_day b <= utcDay last;
  tr_past : forall e, e ∈ log -> utcDay (event_time e) <= b_day b;
  tr_used : b_used b = Z.min max (requests_on (b_day b) log);
  tr_counts : forall e, e ∈ log -> 0 <= requests e;
  tr_zero : zeroTime <= b_pausedTil b;
  tr_pause : forall t u, Paused t u ∈ log -> utcDay t = b_day b -> u <= b_pausedTil b \/ u <= last;
  tr_midnight : forall t u, Paused t u ∈ log -> u <= utcDay t + Day;
  tr_paused : b_pausedTil b = zeroTime \/ exists t, Paused t (b_pausedTil b) ∈ log /\ utcDay t = b_day b;
}.

Lemma tracks_new max t : 0 < max -> tracks max t (newDailyBudget max t) [].
Proof.
  intros Hm. constructor; cbn.
  - reflexivity.
  - lia.
  - intros e H. now apply not_elem_of_nil in H.
  - unfold requests_on. cbn. lia.
  - intros e H. now apply not_elem_of_nil in H.
  - lia.
  - intros t' u H. now apply not_elem_of_nil in H.
  - intros t' u H. now apply not_elem_of_nil in H.
  - now left.
Qed.

(** Time passes, and the day rolls over. *)
Lemma tracks_rollover max last t b log :
  0 < max -> tracks max last b log -> last <= t ->
  tracks max t (rollover b t) log /\ b_day (rollover b t) = utcDay t.
Proof.
  intros Hm T L. pose proof (utcDay_mono _ _ L) as D. destruct T as [T1 T2 T3 T4 T5 T6 T7 T8 T9].
  unfold rollover, After. destruct (b_day b <? utcDay t) eqn:E; bool_simp.
  - split; [|reflexivity]. assert (N : forall e, e ∈ log -> utcDay (event_time e) <> utcDay t) by (intros e H%T3; lia).
    constructor; cbn [b_max b_day b_used b_pausedTil]; auto; try lia.
    + intros e H%T3. lia.
    + rewrite requests_on_nil by assumption. lia.
    + intros t' u H%N. easy.
  - split; [|lia]. constructor; auto; try lia. intros t' u H H'. destruct (T7 t' u H H'); [now left|right; lia].
Qed.

(** The pause the budget sees is the one of the log. *)
Lemma tracks_pausing max t b log :
  tracks max t b log -> b_day b = utcDay t -> zeroTime <= t ->
  negb (b_pausedTil b =? zeroTime) && Before t (b_pausedTil b) = existsb (pausing t) log.
Proof.
  intros [] Hd Hz. generalize dependent (zeroTime). intros z Tz Tp Hz. apply eq_true_iff_eq. rewrite existsb_exists. unfold Before. split.
  - intros E. bool_simp. destruct Tp as [?|(t' & Hi & Ht)]; [contradiction|].
    exists (Paused t' (b_pausedTil b)). split; [now apply list_elem_of_In|]. now apply Z.ltb_lt.
  - intros (e & He%list_elem_of_In & P). destruct e as [?|? ?|t' u]; [discriminate P|discriminate P|]. unfold pausing in P.
    apply Z.ltb_lt in P. assert (Ed : utcDay t' = b_day b).
    { pose proof (tr_past0 _ He). pose proof (tr_midnight0 _ _ He). pose proof (utcDay_before t' t ltac:(lia)). cbn in *. lia. }
    destruct (tr_pause0 t' u He Ed); [|lia]. apply andb_true_iff. rewrite negb_true_iff, Z.eqb_neq, Z.ltb_lt. lia.
Qed.

Lemma requests_on_nonneg d log : (forall e, e ∈ log -> 0 <= requests e) -> 0 <= requests_on d log.
Proof.
  induction log as [|e log IH]; intros Hn; [reflexivity|]. unfold requests_on in *. cbn [List.filter].
  assert (0 <= foldr Z.add 0 (requests <$> List.filter (on_day d) log)) by (apply IH; intros; apply Hn; now right).
  destruct (on_day d e); [|assumption]. specialize (Hn e ltac:(left)). cbn. lia.
Qed.

(** The budget answers as the log says. *)
Lemma tracks_admits max t b log :
  tracks max t b log -> b_day b = utcDay t -> zeroTime <= t ->
  admits max log t = negb (negb (b_pausedTil b =? zeroTime) && Before t (b_pausedTil b)) && (b_used b <? max).
Proof.
  intros T Hd Hz. rewrite (tracks_pausing max t b log T Hd Hz). unfold admits. f_equal. rewrite (tr_used _ _ _ _ T), <- Hd.
  apply eq_true_iff_eq. rewrite !Z.ltb_lt. lia.
Qed.

(** An event of today is logged. *)
Lemma tracks_snoc max t b log e :
  0 < max -> tracks max t b log -> utcDay (event_time e) = b_day b -> 0 <= requests e ->
  (forall t' u, e = Paused t' u -> False) ->
  tracks max t (MkBudget (b_max b) (b_day b) (Z.min max (b_used b + requests e)) (b_pausedTil b)) (log ++ [e]).
Proof.
  intros Hm [] Hd Hr Hp. constructor; cbn; auto.
  - intros x [Hx|Hx%list_elem_of_singleton]%elem_of_app; [auto|subst; lia].
  - rewrite requests_on_snoc. unfold on_day. rewrite Hd, Z.eqb_refl. lia.
  - intros x [Hx|Hx%list_elem_of_singleton]%elem_of_app; [auto|now subst].
  - intros t' u [Hx|Hx%list_elem_of_singleton]%elem_of_app Ht; [now apply (tr_pause0 t')|]. destruct (Hp t' u (eq_sym Hx)).
  - intros t' u [Hx|Hx%list_elem_of_singleton]%elem_of_app; [now apply tr_midnight0|]. destruct (Hp t' u (eq_sym Hx)).
  - destruct tr_paused0 as [?|(t' & H & H')]; [now left|]. right. exists t'. split; [|assumption]. apply elem_of_app. now left.
Qed.

Lemma tracks_later max last t b log : tracks max last b log -> last <= t -> tracks max t b log.
Proof.
  intros [] L. pose proof (utcDay_mono _ _ L). constructor; auto; [lia|].
  intros t' u Hi Ht. destruct (tr_pause0 t' u Hi Ht); [now left|right; lia].
Qed.

(** A pause that has ended may be forgotten. *)
Lemma tracks_unpause max t b log :
  tracks max t b log -> negb (b_pausedTil b =? zeroTime) && Before t (b_pausedTil b) = false -> zeroTime <= t ->
  tracks max t (MkBudget (b_max b) (b_day b) (b_used b) zeroTime) log.
Proof.
  intros [] E Hz. constructor; cbn; auto; [lia|]. intros t' u Hi Ht. unfold Before in E.
  destruct (tr_pause0 t' u Hi Ht); [|now right]. apply andb_false_iff in E as [E|E]; bool_simp; lia.
Qed.

Lemma tracks_pause max t b log u :
  tracks max t b log -> b_day b = utcDay t -> u <= utcDay t + Day ->
  tracks max t (MkBudget (b_max b) (b_day b) (b_used b) (Z.max (b_pausedTil b) u)) (log ++ [Paused t u]).
Proof.
  intros [] Hd Hu. constructor; cbn; auto; [| | |lia| | |].
  - intros x [Hx|Hx%list_elem_of_singleton]%elem_of_app; [auto|subst; cbn; lia].
  - rewrite requests_on_snoc. destruct (on_day _ _); cbn; lia.
  - intros x [Hx|Hx%list_elem_of_singleton]%elem_of_app; [auto|now subst].
  - intros t' u' [Hx|Hx%list_elem_of_singleton]%elem_of_app Ht; [|injection Hx as -> ->; lia].
    destruct (tr_pause0 t' u' Hx Ht); lia.
  - intros t' u' [Hx|Hx%list_elem_of_singleton]%elem_of_app; [now apply tr_midnight0|]. now injection Hx as -> ->.
  - destruct (Z.max_spec (b_pausedTil b) u) as [[L ->]|[L ->]].
    + right. exists t. split; [|easy]. apply elem_of_app. right. now apply list_elem_of_singleton.
    + destruct tr_paused0 as [?|(t' & Hi & Ht)]; [now left|]. right. exists t'. split; [|assumption]. apply elem_of_app. now left.
Qed.

Lemma reserve_sim max last b log t :
  0 < max -> tracks max last b log -> last <= t -> zeroTime <= t ->
  (reserve b t).2.1 = admits max log t /\
  tracks max t (reserve b t).1 (if admits max log t then log ++ [Granted t] else log).
Proof.
  intros Hm T L Hz. destruct (tracks_rollover max last t b log Hm T L) as [T1 D1]. unfold reserve.
  set (b1 := rollover b t) in *. rewrite (tracks_admits max t b1 log T1 D1 Hz).
  destruct (negb (b_pausedTil b1 =? zeroTime) && Before t (b_pausedTil b1)) eqn:E; [now split|].
  pose proof (tracks_unpause max t b1 log T1 E Hz) as T2.
  assert (B : (if negb (b_pausedTil b1 =? zeroTime) then MkBudget (b_max b1) (b_day b1) (b_used b1) zeroTime else b1)
              = MkBudget (b_max b1) (b_day b1) (b_used b1) zeroTime).
  { destruct (b_pausedTil b1 =? zeroTime) eqn:Z; [|reflexivity]. bool_simp. rewrite <- Z. now destruct b1. }
  rewrite B. pose proof (tr_max _ _ _ _ T1) as Em. cbn [b_max b_used b_day b_pausedTil negb andb]. rewrite Em in *.
  destruct (max <=? b_used b1) eqn:U; bool_simp.
  - replace (b_used b1 <? max) with false by (symmetry; apply Z.ltb_ge; lia). now split.
  - replace (b_used b1 <? max) with true by (symmetry; apply Z.ltb_lt; lia). split; [reflexivity|].
    pose proof (tracks_snoc max t _ log (Granted t) Hm T2 (eq_sym D1) ltac:(cbn; lia) ltac:(discriminate)) as T3.
    cbn [b_max b_used b_day b_pausedTil requests] in T3. now replace (Z.min max (b_used b1 + 1)) with (b_used b1 + 1) in T3 by lia.
Qed.

Lemma step_sim max last b log o :
  0 < max -> tracks max last b log -> last <= op_time o -> zeroTime <= op_time o -> ends_today o = true ->
  (op_step b o).2 = (spec_step max log o).2 /\ tracks max (op_time o) (op_step b o).1 (spec_step max log o).1.
Proof.
  intros Hm T L Hz He. destruct o as [t|t d|t n]; cbn [op_time op_step spec_step ends_today] in *.
  - destruct (reserve_sim max last b log t Hm T L Hz) as [E S]. destruct (reserve b t) as [b' [ok w]]. cbn [fst snd] in *.
    subst ok. destruct (admits max log t); now split.
  - split; [reflexivity|]. destruct (tracks_rollover max last t b log Hm T L) as [T1 D1]. cbn [fst].
    pose proof (tracks_pause max t _ log (pauseEnd t d) T1 D1 (pauseEnd_today t d (proj1 (Z.leb_le _ _) He))) as T2. unfold pause, After.
    destruct (b_pausedTil (rollover b t) <? pauseEnd t d) eqn:E; bool_simp.
    + now rewrite Z.max_r in T2 by lia.
    + rewrite Z.max_l in T2 by lia. now destruct (rollover b t).
  - split; [reflexivity|]. unfold consume. cbn [fst]. destruct (n <=? 0) eqn:E; bool_simp.
    + replace (0 <? n) with false by (symmetry; apply Z.ltb_ge; lia). now apply (tracks_later max last).
    + replace (0 <? n) with true by (symmetry; apply Z.ltb_lt; lia).
      destruct (tracks_rollover max last t b log Hm T L) as [T1 D1].
      pose proof (tracks_snoc max t _ log (Extra t n) Hm T1 (eq_sym D1) ltac:(cbn; lia) ltac:(discriminate)) as T2.
      cbn [requests] in T2. rewrite (tr_max _ _ _ _ T1) in *. cbv zeta.
      replace (if max <? b_used (rollover b t) + n then max else b_used (rollover b t) + n)
        with (Z.min max (b_used (rollover b t) + n)); [exact T2|]. simp_if; bool_simp; lia.
Qed.

(** ** Theorems *)

(** The requests admitted on a day. *)
Definition admitted_on (d : Time) (log : list Event) : Z :=
  Z.of_nat (length (List.filter (fun e => match e with Granted t => utcDay t =? d | _ => false end) log)).

Lemma admitted_le d log : (forall e, e ∈ log -> 0 <= requests e) -> admitted_on d log <= requests_on d log.
Proof.
  induction log as [|e log IH]; intros Hn; [reflexivity|].
  specialize (IH ltac:(intros; apply Hn; now right)). specialize (Hn e ltac:(left)).
  unfold admitted_on, requests_on in *. cbn [List.filter]. unfold on_day at 1.
  destruct e as [t|t n|t u]; cbn [event_time] in *; destruct (utcDay t =? d); cbn [length fmap list_fmap foldr requests] in *; lia.
Qed.

Lemma answers_sim max ops : forall last b log,
  0 < max -> zeroTime <= last -> tracks max last b log -> StronglySorted Z.le (last :: (op_time <$> ops)) ->
  forallb ends_today ops = true -> answers b ops = spec_answers max log ops.
Proof.
  induction ops as [|o ops IH]; intros last b log Hm Hz T S Ht; [reflexivity|]. rewrite fmap_cons in S.
  cbn [forallb] in Ht. apply andb_true_iff in Ht as [Ho Ht].
  apply StronglySorted_inv in S as [S F]. apply Forall_cons in F as [F _].
  destruct (step_sim max last b log o Hm T F ltac:(lia) Ho) as [E T']. cbn [answers spec_answers].
  destruct (op_step b o) as [b' a], (spec_step max log o) as [log' a']. cbn [fst snd] in *. subst a'.
  assert (R : answers b' ops = spec_answers max log' ops) by (apply (IH (op_time o)); [assumption|lia|assumption|assumption|assumption]).
  destruct a; now rewrite R.
Qed.

Lemma admitted_on_snoc d log e :
  admitted_on d (log ++ [e]) = admitted_on d log + match e with Granted t => if utcDay t =? d then 1 else 0 | _ => 0 end.
Proof.
  unfold admitted_on. rewrite List.filter_app, length_app. cbn [List.filter].
  destruct e as [t|t n|t u]; cbn [length]; [|lia..]. destruct (utcDay t =? d); cbn [length]; lia.
Qed.

Lemma spec_log_bounded max ops : forall log,
  (forall e, e ∈ log -> 0 <= requests e) -> (forall d, admitted_on d log <= max) -> forall d, admitted_on d (spec_log max log ops) <= max.
Proof.
  induction ops as [|o ops IH]; intros log Hn Hl; [exact Hl|]. cbn [spec_log]. apply IH; destruct o as [t|t d|t n]; cbn [spec_step].
  - destruct (admits max log t); cbn; [|assumption]. intros e [He|He%list_elem_of_singleton]%elem_of_app; [auto|subst; cbn; lia].
  - cbn. intros e [He|He%list_elem_of_singleton]%elem_of_app; [auto|now subst].
  - destruct (0 <? n) eqn:E; cbn; [|assumption]. bool_simp.
    intros e [He|He%list_elem_of_singleton]%elem_of_app; [auto|subst; cbn; lia].
  - intros d. destruct (admits max log t) eqn:A; cbn [fst]; [|apply Hl]. rewrite admitted_on_snoc.
    unfold admits in A. bool_simp. destruct (utcDay t =? d) eqn:D; [|rewrite Z.add_0_r; apply Hl]. bool_simp. subst d.
    pose proof (admitted_le (utcDay t) log Hn). lia.
  - intros d'. cbn [fst]. rewrite admitted_on_snoc, Z.add_0_r. apply Hl.
  - intros d'. cbn [fst]. destruct (0 <? n); [|apply Hl]. rewrite admitted_on_snoc, Z.add_0_r. apply Hl.
Qed.

(** A debit of retries. *)
Definition debits (o : Op) : bool := match o with OConsume _ n => 0 <? n | _ => false end.

(** Without retries the admitted calls are the requests. *)
Lemma spec_log_plain max ops : forall log,
  (forall d, requests_on d log = admitted_on d log) -> forallb (fun o => negb (debits o)) ops = true ->
  forall d, requests_on d (spec_log max log ops) = admitted_on d (spec_log max log ops).
Proof.
  induction ops as [|o ops IH]; intros log Hl Hn; [exact Hl|]. cbn [spec_log forallb] in *.
  apply andb_true_iff in Hn as [Ho Hn]. apply IH; [|exact Hn]. destruct o as [t|t u|t n]; cbn [spec_step debits] in *.
  - destruct (admits max log t); cbn [fst]; [|exact Hl]. intros d. rewrite requests_on_snoc, admitted_on_snoc, Hl. reflexivity.
  - intros d. cbn [fst]. rewrite requests_on_snoc, admitted_on_snoc, Hl. now destruct (on_day _ _).
  - destruct (0 <? n); [discriminate|exact Hl].
Qed.

(** C12: on any sequence of reservations, pauses and debits whose clock does not go
    back and whose pauses end by the next UTC midnight, the budget admits a call
    exactly when fewer than [max] requests, retries included, are logged for the
    UTC day and no pause is running; so no more than [max] calls are admitted in a
    day, and when none of them had to be retried no more than [max] requests are
    made in a day. *)
Theorem budget_refines_log max t0 ops :
  0 < max -> zeroTime <= t0 -> StronglySorted Z.le (t0 :: (op_time <$> ops)) -> forallb ends_today ops = true ->
  answers (newDailyBudget max t0) ops = spec_answers max [] ops /\
  (forall d, admitted_on d (spec_log max [] ops) <= max) /\
  (forallb (fun o => negb (debits o)) ops = true -> forall d, requests_on d (spec_log max [] ops) <= max).
Proof.
  intros Hm Hz S Ht. assert (B : forall d, admitted_on d (spec_log max [] ops) <= max).
  { apply spec_log_bounded; [intros e He; now apply not_elem_of_nil in He|]. intros d. change (0 <= max). lia. }
  split; [exact (answers_sim max ops t0 _ [] Hm Hz (tracks_new max t0 Hm) S Ht)|]. split; [exact B|].
  intros Hn d. rewrite (spec_log_plain max ops [] (fun _ => eq_refl) Hn). apply B.
Qed.

(** Two calls, a debit of the retries, a 429 that pauses an hour, and the next day. *)
Definition demo_ops : list Op :=
  [OReserve Hour; OConsume Hour 1; OReserve (2 * Hour); OPause (2 * Hour) Hour; OReserve (3 * Hour - 1); OReserve (3 * Hour);
   OReserve Day].

Lemma budget_refines_log_witness :
  answers (newDailyBudget 3 0) demo_ops = [true; true; false; false; true] /\ admitted_on 0 (spec_log 3 [] demo_ops) <= 3.
Proof.
  assert (S : StronglySorted Z.le (0 :: (op_time <$> demo_ops))).
  { unfold demo_ops. cbn [fmap list_fmap op_time]. repeat constructor; vm_compute; discriminate. }
  destruct (budget_refines_log 3 0 demo_ops ltac:(lia) ltac:(vm_compute; discriminate) S ltac:(vm_compute; reflexivity))
    as (A & B & _). split; [|exact (B 0)]. rewrite A. vm_compute. reflexivity.
Defined.

(** Note: a pause does not outlive the day it was engaged in: after midnight a call
    is admitted before the instant the provider advised. *)
Theorem pause_dropped_at_midnight b t d now :
  0 < b_max b -> b_day b <= utcDay t -> utcDay t < utcDay now -> 0 < d -> now < Add t d ->
  (reserve (pause b t d) now).2.1 = true.
Proof.
  intros Hm Hd Hn Hp _.
  assert (B : b_max (pause b t d) = b_max b /\ b_day (pause b t d) < utcDay now).
  { unfold pause, rollover, After. simp_if; bool_simp; cbn in *; lia. }
  destruct B as [Bm Bd]. unfold reserve, rollover, After.
  replace (b_day (pause b t d) <? utcDay now) with true by (symmetry; apply Z.ltb_lt; lia).
  cbn [b_pausedTil b_max b_used negb]. rewrite Z.eqb_refl. cbn [negb andb]. cbn [b_max b_used].
  replace (b_max (pause b t d) <=? 0) with false by (symmetry; apply Z.leb_gt; lia). reflexivity.
Qed.

(** A 429 at 23:00 with a Retry-After of six hours; a call ten minutes after midnight. *)
Lemma pause_dropped_at_midnight_witness :
  (reserve (pause (newDailyBudget 10 0) (23 * Hour) (6 * Hour)) (Day + 10 * Minute)).2.1 = true.
Proof. apply pause_dropped_at_midnight; vm_compute; congruence. Defined.

End BudgetProps.
