(* ===== verification/CacheProps.v ===== *)
(** * The response cache is an LRU, and what it serves

    The list and map of [Cache] refine a bounded list of entries in order of last use.
    Under any interleaving an answer from the cache is an unexpired 200 answer of the
    same key; what is answered after a handler failed with a 5xx is left open. *)

From Stdlib Require Import ZArith Lia Bool Ascii String.
From stdpp Require Import base list strings gmap pretty.
From S2P Require Import Prelude GoTime GoStrings Uuid Cache.

Import Cache.
Local Open Scope string_scope.
Local Open Scope list_scope.
Local Open Scope Z_scope.

Module CacheProps.

(** ** The specification: entries from the most to the least recently used *)

Definition without (key : string) (l : list cacheEntry) : list cacheEntry :=
  List.filter (fun e => negb (String.eqb (ce_key e) key)) l.

Definition lookup_key (key : string) (l : list cacheEntry) : option cacheEntry :=
  List.find (fun e => String.eqb (ce_key e) key) l.

Definition spec_get (key : string) (now : Time) (l : list cacheEntry) : list cacheEntry * option cacheEntry :=
  match lookup_key key l with
  | None => (l, None)
  | Some e => if bool_decide (ce_expiresAt e < now) then (without key l, None) else (e :: without key l, Some e)
  end.

Definition spec_put (cap : Z) (e : cacheEntry) (l : list cacheEntry) : list cacheEntry :=
  take (Z.to_nat cap) (e :: without (ce_key e) l).

(** ** The representation *)

(** The list holds each element once, each with a value; the map sends a key to the
    element that holds it; new elements are new. *)
Record wf (c : ResponseCache) : Prop := {
  wf_nodup : NoDup (ll c);
  wf_listed : forall i, i ∈ ll c -> exists e, values c !! i = Some e /\ items c !! ce_key e = Some i;
  wf_items : forall k i, items c !! k = Some i -> i ∈ ll c /\ exists e, values c !! i = Some e /\ ce_key e = k;
  wf_fresh : forall i, i ∈ ll c -> (i < fresh_el c)%nat;
}.

Definition entries (c : ResponseCache) : list cacheEntry := omap (fun i => values c !! i) (ll c).

Lemma elem_remove i j l : j ∈ remove_el i l <-> j ∈ l /\ j <> i.
Proof.
  unfold remove_el. rewrite !list_elem_of_In, List.filter_In, negb_true_iff, Nat.eqb_neq. intuition congruence.
Qed.

Lemma nodup_remove i l : NoDup l -> NoDup (remove_el i l).
Proof. rewrite !NoDup_ListNoDup. apply List.NoDup_filter. Qed.

Lemma length_entries c : wf c -> length (entries c) = length (ll c).
Proof.
  intros W. unfold entries. pose proof (wf_listed c W) as L. induction (ll c) as [|i l IH]; [reflexivity|].
  destruct (L i) as (e & E & _); [left|]. cbn. rewrite E. cbn. f_equal. apply IH. intros j Hj. apply L. now right.
Qed.

(** Removing the element of a key removes the entry of the key. *)
Lemma omap_remove (vs : gmap nat cacheEntry) (i : nat) (key : string) (l : list nat) :
  (forall j, j ∈ l -> exists e, vs !! j = Some e /\ (ce_key e = key <-> j = i)) ->
  omap (fun j => vs !! j) (remove_el i l) = without key (omap (fun j => vs !! j) l).
Proof.
  induction l as [|j l IH]; intros L; [reflexivity|]. destruct (L j) as (e & E & K); [left|].
  specialize (IH ltac:(intros x Hx; apply L; now right)). unfold remove_el, without in *. cbn [omap list_omap]. rewrite E.
  cbn [List.filter]. destruct (Nat.eqb_spec i j) as [<-|N]; cbn [negb].
  - replace (String.eqb (ce_key e) key) with true by (symmetry; apply String.eqb_eq, K; reflexivity). exact IH.
  - replace (String.eqb (ce_key e) key) with false by (symmetry; apply String.eqb_neq; intros X%K; congruence).
    cbn [omap list_omap negb]. rewrite E. f_equal. exact IH.
Qed.

Lemma wf_key_element c key i : wf c -> items c !! key = Some i ->
  forall j, j ∈ ll c -> exists e, values c !! j = Some e /\ (ce_key e = key <-> j = i).
Proof.
  intros W I j Hj. destruct (wf_listed c W j Hj) as (e & E & K). exists e. split; [assumption|]. split.
  - intros X. rewrite X in K. congruence.
  - intros ->. destruct (wf_items c W key i I) as [_ (e' & E' & K')]. congruence.
Qed.

Lemma entries_remove c key i : wf c -> items c !! key = Some i ->
  omap (fun j => values c !! j) (remove_el i (ll c)) = without key (entries c).
Proof. intros W I. apply omap_remove. now apply wf_key_element. Qed.

Lemma find_omap (vs : gmap nat cacheEntry) (i : nat) (key : string) (l : list nat) :
  (forall j, j ∈ l -> exists e, vs !! j = Some e /\ (ce_key e = key <-> j = i)) ->
  lookup_key key (omap (fun j => vs !! j) l) = if bool_decide (i ∈ l) then vs !! i else None.
Proof.
  induction l as [|j l IH]; intros L; [reflexivity|]. destruct (L j) as (e & E & K); [left|].
  cbn [omap list_omap]. rewrite E. unfold lookup_key in *. cbn [List.find].
  destruct (String.eqb_spec (ce_key e) key) as [X|X].
  - apply K in X as ->. rewrite bool_decide_eq_true_2; [now rewrite E|left].
  - rewrite IH; [|intros x Hx; apply L; now right].
    assert (j <> i) by (intros Y; now apply X, K).
    assert (Q : i ∈ j :: l <-> i ∈ l) by (rewrite elem_of_cons; intuition congruence). now rewrite (bool_decide_ext _ _ Q).
Qed.

Lemma lookup_entries c key : wf c ->
  lookup_key key (entries c) = snd <$> element c key /\
  (forall i e, element c key = Some (i, e) -> items c !! key = Some i /\ values c !! i = Some e).
Proof.
  intros W. unfold element. destruct (items c !! key) as [i|] eqn:I; cbn [mbind option_bind].
  - pose proof (wf_items c W key i I) as [Hi (e & E & K)]. rewrite E. cbn [mbind option_bind fmap option_fmap option_map snd]. split.
    + unfold entries. rewrite (find_omap _ i); [|now apply wf_key_element]. now rewrite bool_decide_eq_true_2.
    + intros i' e' [= <- <-]. now split.
  - split; [|discriminate]. unfold entries, lookup_key. pose proof (wf_listed c W) as L. cbn.
    induction (ll c) as [|j l IH]; [reflexivity|]. destruct (L j) as (e & E & K); [left|]. cbn [omap list_omap]. rewrite E. cbn [List.find].
    destruct (String.eqb_spec (ce_key e) key) as [X|X]; [congruence|]. apply IH. intros x Hx. apply L. now right.
Qed.

Lemma wf_drop c i e : wf c -> i ∈ ll c -> values c !! i = Some e -> wf (drop c i (ce_key e)).
Proof.
  intros W Hi E. destruct (wf_listed c W i Hi) as (e' & E' & K). assert (e' = e) as -> by congruence.
  constructor; cbn [drop ll values items fresh_el].
  - apply nodup_remove, wf_nodup, W.
  - intros j [Hj N]%elem_remove. destruct (wf_listed c W j Hj) as (x & Ex & Kx). exists x. split; [assumption|].
    rewrite lookup_delete_ne; [assumption|]. intros X. congruence.
  - intros k j [Nk Ij]%lookup_delete_Some. destruct (wf_items c W k j Ij) as [Hj (x & Ex & Kx)]. split; [|now exists x].
    apply elem_remove. split; [assumption|]. intros ->. congruence.
  - intros j [Hj _]%elem_remove. now apply (wf_fresh c W).
Qed.

Lemma wf_move c i : wf c -> i ∈ ll c -> wf (move_front c i).
Proof.
  intros W Hi. assert (Q : forall j, j ∈ i :: remove_el i (ll c) <-> j ∈ ll c).
  { intros j. rewrite elem_of_cons, elem_remove. destruct (decide (j = i)) as [->|]; intuition. }
  constructor; cbn [move_front ll values items fresh_el].
  - constructor; [rewrite elem_remove; intuition|apply nodup_remove, wf_nodup, W].
  - intros j Hj. apply (wf_listed c W), Q, Hj.
  - intros k j Ij. rewrite Q. exact (wf_items c W k j Ij).
  - intros j Hj. apply (wf_fresh c W), Q, Hj.
Qed.

(** Storing a new value of the same key in its element. *)
Lemma wf_set c i e : wf c -> items c !! ce_key e = Some i ->
  wf (MkCache (cap c) (ll c) (<[i := e]> (values c)) (items c) (fresh_el c)).
Proof.
  intros W I. pose proof (wf_items c W _ i I) as [Hi (x & Ex & Kx)].
  constructor; cbn [ll values items fresh_el].
  - apply W.
  - intros j Hj. destruct (decide (i = j)) as [<-|N]; [exists e; now rewrite lookup_insert_eq|]. rewrite lookup_insert_ne by assumption.
    now apply (wf_listed c W).
  - intros k j Ij. destruct (wf_items c W k j Ij) as [Hj (y & Ey & Ky)]. split; [assumption|].
    destruct (decide (i = j)) as [<-|N]; [exists e; rewrite lookup_insert_eq; split; [reflexivity|congruence]|].
    rewrite lookup_insert_ne by assumption. now exists y.
  - apply W.
Qed.

Lemma wf_push c e : wf c -> items c !! ce_key e = None ->
  wf (MkCache (cap c) (fresh_el c :: ll c) (<[fresh_el c := e]> (values c)) (<[ce_key e := fresh_el c]> (items c)) (S (fresh_el c))).
Proof.
  intros W I. assert (N : fresh_el c ∉ ll c) by (intros H%(wf_fresh c W); lia).
  constructor; cbn [ll values items fresh_el].
  - constructor; [assumption|apply W].
  - intros j [->|Hj]%elem_of_cons; [exists e; now rewrite !lookup_insert_eq|].
    rewrite lookup_insert_ne by congruence. destruct (wf_listed c W j Hj) as (x & Ex & Kx). exists x. split; [assumption|].
    rewrite lookup_insert_ne; [assumption|]. congruence.
  - intros k j Hk. destruct (decide (ce_key e = k)) as [<-|Nk].
    + rewrite lookup_insert_eq in Hk. injection Hk as <-. split; [left|]. exists e. now rewrite lookup_insert_eq.
    + rewrite lookup_insert_ne in Hk by assumption. destruct (wf_items c W k j Hk) as [Hj (x & Ex & Kx)].
      split; [now right|]. exists x. rewrite lookup_insert_ne; [easy|]. intros X. now rewrite <- X in Hj.
  - intros j [->|Hj]%elem_of_cons; [lia|]. pose proof (wf_fresh c W j Hj). lia.
Qed.

(** ** The operations *)

Lemma get_refines c key now : wf c ->
  wf (get c key now).1 /\ spec_get key now (entries c) = (entries (get c key now).1, (get c key now).2) /\
  cap (get c key now).1 = cap c.
Proof.
  intros W. destruct (lookup_entries c key W) as [L X]. unfold get, spec_get. rewrite L.
  destruct (element c key) as [[i e]|]; cbn [fmap option_fmap option_map snd]; [|now split].
  destruct (X i e eq_refl) as [Ii Ei]. pose proof (wf_items c W key i Ii) as [Hi (x & Ex & Kx)].
  assert (Ke : ce_key e = key) by congruence. unfold After.
  destruct (ce_expiresAt e <? now) eqn:T; bool_simp.
  - rewrite bool_decide_eq_true_2 by assumption. split; [rewrite <- Ke; now apply wf_drop|]. split; [|reflexivity].
    unfold entries at 2. cbn [drop ll values fst snd]. f_equal. symmetry. exact (entries_remove c key i W Ii).
  - rewrite bool_decide_eq_false_2 by lia. split; [now apply wf_move|]. split; [|reflexivity].
    unfold entries at 2. cbn [move_front ll values fst snd omap list_omap]. rewrite Ei. f_equal. f_equal. symmetry.
    exact (entries_remove c key i W Ii).
Qed.

Lemma last_remove i l : NoDup (l ++ [i]) -> remove_el i (l ++ [i]) = l.
Proof.
  intros N. unfold remove_el. rewrite List.filter_app. cbn. rewrite Nat.eqb_refl. cbn. rewrite app_nil_r.
  apply NoDup_app in N as (_ & N & _). assert (F : forall j, j ∈ l -> j <> i).
  { intros j Hj ->. apply (N i Hj). now apply list_elem_of_singleton. }
  clear N. induction l as [|j l IH]; [reflexivity|]. cbn. destruct (Nat.eqb_spec i j) as [->|_].
  - exfalso. now apply (F j); [left|].
  - cbn. f_equal. apply IH. intros x Hx. apply F. now right.
Qed.

(** The eviction loop keeps the first [cap] entries. *)
Lemma evict_refines n c : wf c -> 0 <= cap c -> (length (ll c) <= n + Z.to_nat (cap c))%nat ->
  wf (evict n c) /\ entries (evict n c) = take (Z.to_nat (cap c)) (entries c) /\ cap (evict n c) = cap c.
Proof.
  revert c. induction n as [|n IH]; intros c W Hc Hn; cbn [evict].
  { split; [assumption|]. split; [|reflexivity]. rewrite take_ge; [reflexivity|]. rewrite length_entries by assumption. lia. }
  destruct (cap c <? Z.of_nat (length (ll c))) eqn:E; bool_simp.
  2: { split; [assumption|]. split; [|reflexivity]. rewrite take_ge; [reflexivity|]. rewrite length_entries by assumption. lia. }
  destruct (last (ll c)) as [i|] eqn:La; [|apply last_None in La; rewrite La in E; cbn in E; lia].
  apply last_Some in La as [l Hl]. assert (Hi : i ∈ ll c) by (rewrite Hl; apply elem_of_app; right; now apply list_elem_of_singleton).
  destruct (wf_listed c W i Hi) as (e & Ee & Ke). rewrite Ee.
  pose proof (wf_drop c i e W Hi Ee) as W'.
  assert (Hd : ll (drop c i (ce_key e)) = l).
  { cbn [drop ll]. rewrite Hl. apply last_remove. rewrite <- Hl. apply W. }
  rewrite Hl, length_app in *. cbn [length] in *.
  destruct (IH (drop c i (ce_key e)) W' Hc) as (W2 & E2 & C2); [rewrite Hd; cbn [drop cap]; lia|].
  split; [assumption|]. split; [|now rewrite C2]. rewrite E2. cbn [drop cap]. unfold entries. rewrite Hd, Hl. cbn [drop values].
  rewrite omap_app. symmetry. apply take_app_le.
  replace (length (omap (fun j => values c !! j) l)) with (length l); [lia|].
  pose proof (length_entries _ W') as Le. unfold entries in Le. rewrite Hd in Le. cbn [drop values] in Le. congruence.
Qed.

Lemma without_absent c key : wf c -> items c !! key = None -> without key (entries c) = entries c.
Proof.
  intros W I. unfold entries. pose proof (wf_listed c W) as L. induction (ll c) as [|j l IH]; [reflexivity|].
  destruct (L j) as (e & E & K); [left|]. cbn [omap list_omap]. rewrite E. unfold without in *. cbn [List.filter].
  replace (String.eqb (ce_key e) key) with false by (symmetry; apply String.eqb_neq; congruence). cbn [negb]. f_equal.
  apply IH. intros x Hx. apply L. now right.
Qed.

Lemma omap_insert_other (vs : gmap nat cacheEntry) i e (l : list nat) : i ∉ l ->
  omap (fun j => <[i := e]> vs !! j) l = omap (fun j => vs !! j) l.
Proof.
  induction l as [|j l IH]; intros N; [reflexivity|]. apply not_elem_of_cons in N as [N1 N2]. cbn [omap list_omap].
  rewrite lookup_insert_ne by congruence. now rewrite IH.
Qed.

Lemma put_refines c e : wf c -> 0 < cap c -> Len c <= cap c ->
  wf (put c e) /\ entries (put c e) = spec_put (cap c) e (entries c) /\ cap (put c e) = cap c.
Proof.
  intros W Hc Hl. unfold put, spec_put, Len in *. destruct (items c !! ce_key e) as [i|] eqn:I.
  - pose proof (wf_set c i e W I) as W'. pose proof (wf_items c W _ i I) as [Hi _].
    split; [now apply wf_move|]. split; [|reflexivity]. unfold entries at 1. cbn [move_front ll values omap list_omap].
    rewrite lookup_insert_eq, omap_insert_other by (rewrite elem_remove; intuition).
    rewrite (entries_remove c (ce_key e) i W I). symmetry. apply take_ge. cbn [length].
    rewrite <- (entries_remove c (ce_key e) i W I).
    assert (P : (length (omap (fun j => values c !! j) (remove_el i (ll c))) <= length (remove_el i (ll c)))%nat).
    { clear. induction (remove_el i (ll c)) as [|j l IH]; cbn; [lia|]. destruct (values c !! j); cbn; lia. }
    assert (Q : (length (remove_el i (ll c)) < length (ll c))%nat).
    { clear - Hi. unfold remove_el. induction (ll c) as [|j l IH]; [now apply not_elem_of_nil in Hi|]. cbn.
      apply elem_of_cons in Hi as [<-|Hi]; [rewrite Nat.eqb_refl; cbn; pose proof (List.filter_length_le (fun j => negb (Nat.eqb i j)) l); lia|].
      specialize (IH Hi). destruct (negb (Nat.eqb i j)); cbn; lia. }
    lia.
  - pose proof (wf_push c e W I) as W'.
    match goal with |- wf (evict ?n ?c') /\ _ => destruct (evict_refines n c' W') as (W2 & E2 & C2); [cbn; lia|cbn; lia|] end.
    split; [assumption|]. split; [|assumption]. rewrite E2. cbn [cap]. f_equal. unfold entries at 1. cbn [ll values omap list_omap].
    rewrite lookup_insert_eq, omap_insert_other by (intros H%(wf_fresh c W); lia). f_equal.
    symmetry. now apply without_absent.
Qed.

(** ** Any sequence of lookups and stores *)

Inductive Op := OGet (key : string) (now : Time) | OPut (e : cacheEntry).

Definition op_step (c : ResponseCache) (o : Op) : ResponseCache * option cacheEntry :=
  match o with OGet key now => get c key now | OPut e => (put c e, None) end.

Definition spec_step (cap : Z) (l : list cacheEntry) (o : Op) : list cacheEntry * option cacheEntry :=
  match o with OGet key now => spec_get key now l | OPut e => (spec_put cap e l, None) end.

Fixpoint run {S} (step : S -> Op -> S * option cacheEntry) (s : S) (ops : list Op) : S * list (option cacheEntry) :=
  match ops with
  | [] => (s, [])
  | o :: ops => let '(s, a) := step s o in let '(s, l) := run step s ops in (s, a :: l)
  end.

(** The representation, within its capacity. *)
Definition sound (capacity : Z) (c : ResponseCache) : Prop := wf c /\ 0 < capacity /\ cap c = capacity /\ Len c <= capacity.

Lemma sound_new capacity : sound (cap (NewResponseCache capacity)) (NewResponseCache capacity).
Proof.
  split.
  { constructor; cbn [NewResponseCache ll items values fresh_el]; [apply NoDup_nil_2| | |].
    1, 3: intros i Hi; now apply not_elem_of_nil in Hi.
    intros k i Hi. now rewrite lookup_empty in Hi. }
  unfold NewResponseCache, Len. cbn. destruct (capacity <=? 0) eqn:E; bool_simp; [repeat split; easy|repeat split; lia].
Qed.

Lemma length_without key l : (length (without key l) <= length l)%nat.
Proof. apply List.filter_length_le. Qed.

Lemma without_found key l e : lookup_key key l = Some e -> (length (without key l) < length l)%nat.
Proof.
  induction l as [|x l IH]; cbn; [discriminate|]. destruct (String.eqb (ce_key x) key); cbn.
  - intros _. pose proof (length_without key l). unfold without in *. lia.
  - intros H%IH. unfold without in H. lia.
Qed.

Lemma step_refines capacity c o :
  sound capacity c ->
  sound capacity (op_step c o).1 /\ spec_step capacity (entries c) o = (entries (op_step c o).1, (op_step c o).2).
Proof.
  intros (W & Hp & Hc & Hl). destruct o as [key now|e]; cbn [op_step spec_step].
  - destruct (get_refines c key now W) as (W' & E & C'). split; [|assumption].
    split; [assumption|]. split; [assumption|]. split; [congruence|]. unfold Len in *.
    rewrite <- length_entries in Hl |- * by assumption. apply (f_equal (fun p => length p.1)) in E. cbn [fst] in E. rewrite <- E.
    unfold spec_get. destruct (lookup_key key (entries c)) as [e|] eqn:L; [|exact Hl]. apply without_found in L.
    destruct (bool_decide _); cbn [fst length]; lia.
  - subst capacity. destruct (put_refines c e W Hp Hl) as (W' & E & C'). cbn [fst snd]. split; [|now rewrite E].
    split; [assumption|]. split; [assumption|]. split; [assumption|]. unfold Len. rewrite <- length_entries, E by assumption.
    unfold spec_put. rewrite length_take. lia.
Qed.

Lemma run_refines capacity ops : forall c, sound capacity c ->
  sound capacity (run op_step c ops).1 /\
  run (spec_step capacity) (entries c) ops = (entries (run op_step c ops).1, (run op_step c ops).2).
Proof.
  induction ops as [|o ops IH]; intros c S; [now split|]. cbn [run].
  destruct (step_refines capacity c o S) as [S' E]. rewrite E. destruct (op_step c o) as [c' a]. cbn [fst snd] in *.
  destruct (IH c' S') as [S2 E2]. rewrite E2. destruct (run op_step c' ops) as [c2 l]. now split.
Qed.

(** ** The middleware *)

Section Serving.
Context `{Digest}.

(** A 200 answer of the handler to a request, kept for [maxAge]. *)
Record Produced := MkProduced { pd_Request : Request; pd_Answer : Buffered; pd_At : Time; pd_MaxAge : Duration }.

Definition pd_entry (p : Produced) : cacheEntry := stored (pd_Request p) (pd_MaxAge p) (pd_Answer p) (pd_At p).

(** The atomic steps of the requests served, in any interleaving: a lookup, and a
    store of an answer. *)
Inductive Step : ResponseCache * list Produced -> ResponseCache * list Produced -> Prop :=
| StepLookup c log r t : Step (c, log) ((get c (cacheKey r "public") t).1, log)
| StepStore c log p : Buffered_Status (pd_Answer p) = 200 -> Step (c, log) (put c (pd_entry p), log ++ [p]).

(** Every entry is an answer of the log. *)
Definition backed (capacity : Z) (s : ResponseCache * list Produced) : Prop :=
  sound capacity s.1 /\ Forall (fun p => Buffered_Status (pd_Answer p) = 200) s.2 /\
  forall e, e ∈ entries s.1 -> exists p, p ∈ s.2 /\ e = pd_entry p.

Lemma elem_without key l e : e ∈ without key l -> e ∈ l.
Proof. unfold without. rewrite !list_elem_of_In, List.filter_In. tauto. Qed.

Lemma lookup_key_elem key l e : lookup_key key l = Some e -> e ∈ l /\ ce_key e = key.
Proof.
  intros [Hi Hk]%List.find_some. apply String.eqb_eq in Hk. split; [now apply list_elem_of_In|assumption].
Qed.

(** What an operation leaves in the cache was there, or was put. *)
Lemma spec_step_elem capacity l o e :
  e ∈ (spec_step capacity l o).1 -> e ∈ l \/ o = OPut e.
Proof.
  destruct o as [key now|x]; cbn [spec_step].
  - unfold spec_get. destruct (lookup_key key l) as [y|] eqn:L; [|now left]. apply lookup_key_elem in L as [Hy _].
    destruct (bool_decide _); cbn [fst]; [intros E%elem_without; now left|].
    intros [->|E%elem_without]%elem_of_cons; now left.
  - unfold spec_put. intros E%elem_of_take_in. apply elem_of_cons in E as [->|E%elem_without]; [now right|now left].
Qed.

Lemma step_backed capacity s s' : Step s s' -> backed capacity s -> backed capacity s'.
Proof.
  intros T (S & F & B). destruct T as [c log r t|c log p Hp]; cbn [fst snd] in *.
  - destruct (step_refines capacity c (OGet (cacheKey r "public") t) S) as [S' E]. split; [exact S'|]. split; [assumption|].
    intros e He. apply B. cbn [op_step fst] in *. apply (f_equal fst) in E. cbn [fst] in E. rewrite <- E in He.
    apply spec_step_elem in He as [He|He]; [assumption|discriminate].
  - destruct (step_refines capacity c (OPut (pd_entry p)) S) as [S' E]. split; [exact S'|].
    split; [apply Forall_app; split; [assumption|now repeat constructor]|]. cbn [op_step fst snd] in *.
    intros e He. apply (f_equal fst) in E. cbn [fst] in E. rewrite <- E in He. apply spec_step_elem in He as [He|[= <-]].
    + destruct (B e He) as (q & Hq & ->). exists q. split; [|reflexivity]. apply elem_of_app. now left.
    + exists p. split; [|reflexivity]. apply elem_of_app. right. now apply list_elem_of_singleton.
Qed.

Lemma reachable_backed capacity s : rtc Step (NewResponseCache capacity, []) s -> backed (cap (NewResponseCache capacity)) s.
Proof.
  intros R. assert (B : backed (cap (NewResponseCache capacity)) (NewResponseCache capacity, [])).
  { split; [apply sound_new|]. split; [constructor|]. intros e He. now apply not_elem_of_nil in He. }
  revert B. induction R as [|s1 s2 s3 T R IH]; [easy|]. intros B. apply IH. now apply (step_backed _ s1).
Qed.

(** A hit is an entry of the key that has not expired. *)
Lemma get_hit capacity c key t c' e :
  sound capacity c -> get c key t = (c', Some e) -> e ∈ entries c /\ ce_key e = key /\ t <= ce_expiresAt e.
Proof.
  intros (W & _) G. destruct (get_refines c key t W) as (_ & E & _). rewrite G in E. cbn [fst snd] in E.
  unfold spec_get in E. destruct (lookup_key key (entries c)) as [x|] eqn:L; [|discriminate].
  apply lookup_key_elem in L as [Hx Kx]. destruct (bool_decide (ce_expiresAt x < t)) eqn:T; [discriminate|].
  apply bool_decide_eq_false in T. injection E as _ ->. repeat split; [assumption..|lia].
Qed.
End Serving.

(** ** Theorems *)

(** C13: on every sequence of lookups and stores, the linked list and map of the cache
    answer as a list of at most [capacity] entries ordered by last use: a lookup
    finds the entry of its key, drops it if expired and moves it to the front
    otherwise; a store puts its entry in front and drops the last beyond capacity. *)
Theorem cache_refines_lru capacity ops :
  let c := NewResponseCache capacity in
  let '(c', answers) := run op_step c ops in
  run (spec_step (cap c)) [] ops = (entries c', answers) /\ Len c' <= cap c.
Proof.
  cbv zeta. destruct (run_refines _ ops _ (sound_new capacity)) as [(W & _ & _ & L) E].
  destruct (run op_step _ ops) as [c' answers]. now split.
Qed.

(** A request at [t1] from the cache [c] is answered by the handler's own answer, or
    by an answer of the log with the same key that has not expired.  Of a handler
    that fails on the server side (5xx) it is only said that nothing is stored. *)
Definition served `{Digest} (c : ResponseCache) (log : list Produced) (maxAge : Duration) (handler : Request -> Buffered)
    (r : Request) (t1 t2 : Time) : Prop :=
  let '(c', resp) := Cache maxAge handler c r t1 t2 in
  let b := handler r in
  (exists log', rtc Step (c, log) (c', log') /\ (Buffered_Status b <> 200 -> log' = log) /\
     (Buffered_Status b < 500 ->
      (rp_Status resp = Buffered_Status b /\ rp_Body resp = bw_body b /\
       (rp_Status resp <> 200 -> rp_CacheControl resp = "no-store")) \/
      (rp_Status resp = 304 /\ Buffered_Status b = 200 /\ ifNoneMatch (rq_IfNoneMatch r) (etagOf (bw_body b)) = true))) \/
  (exists p, p ∈ log /\ cacheKey (pd_Request p) "public" = cacheKey r "public" /\
     Buffered_Status (pd_Answer p) = 200 /\ t1 <= Add (pd_At p) (pd_MaxAge p) /\
     rp_ETag resp = etagOf (bw_body (pd_Answer p)) /\
     ((rp_Status resp = 200 /\ rp_Body resp = bw_body (pd_Answer p)) \/
      (rp_Status resp = 304 /\ ifNoneMatch (rq_IfNoneMatch r) (rp_ETag resp) = true))).

(** C14: however the requests interleave, a request is answered from the cache only
    by the body of a 200 answer the handler gave for the same cache key at most its
    [maxAge] ago, or by 304 when the client holds the ETag of that answer; otherwise
    the handler runs, nothing but a 200 answer is stored, and unless it fails with a
    5xx its own answer is passed on (a 4xx as [no-store]), or 304 when the client
    holds the ETag of the 200 answer. *)
Theorem cache_serves_stored_answers `{Digest} capacity c log maxAge handler r t1 t2 :
  rtc Step (NewResponseCache capacity, []) (c, log) -> served c log maxAge handler r t1 t2.
Proof.
  intros R. destruct (reachable_backed capacity _ R) as (S & F & B). cbn [fst snd] in *. unfold served, Cache.
  destruct (get c (cacheKey r "public") t1) as [c1 [e|]] eqn:G.
  - right. destruct (get_hit _ _ _ _ _ _ S G) as (He & Ke & Te). destruct (B e He) as (p & Hp & ->).
    exists p. split; [assumption|]. split; [exact Ke|]. split; [rewrite Forall_forall in F; now apply F|].
    split; [exact Te|]. unfold hit. cbn [pd_entry stored ce_etag ce_body].
    destruct (ifNoneMatch _ _) eqn:I; cbn [rp_ETag rp_Status rp_Body]; split; auto.
  - assert (L : Step (c, log) (c1, log)) by (pose proof (StepLookup c log r t1) as L; now rewrite G in L).
    unfold miss. destruct (Buffered_Status (handler r) =? 200) eqn:St; bool_simp; cbn [negb]; left.
    + exists (log ++ [MkProduced r (handler r) t2 maxAge]). split.
      { eapply rtc_l; [exact L|]. apply rtc_once. exact (StepStore c1 log (MkProduced r (handler r) t2 maxAge) St). }
      split; [easy|]. intros _. destruct (ifNoneMatch _ _) eqn:I; cbn [rp_Status rp_Body rp_CacheControl]; [right; auto|left].
      split; [auto|]. split; [reflexivity|]. easy.
    + exists log. split; [now apply rtc_once|]. split; [reflexivity|]. intros _. left. cbn [rp_Status rp_Body rp_CacheControl]. auto.
Qed.

(** Note: the key holds the route template, not the path.  After [/locations/a] was
    answered, [/locations/b] of the same template and query is served the body of
    [/locations/a] until it expires. *)
Theorem path_parameters_share_entry `{Digest} capacity maxAge handler c r1 r2 t1 t2 t3 t4 :
  sound capacity c -> (get c (cacheKey r1 "public") t1).2 = None -> Buffered_Status (handler r1) = 200 ->
  rq_Method r2 = rq_Method r1 -> rq_FullPath r2 = rq_FullPath r1 -> rq_Query r2 = rq_Query r1 -> rq_IfNoneMatch r2 = "" ->
  t3 <= Add t2 maxAge ->
  rp_Body (Cache maxAge handler (Cache maxAge handler c r1 t1 t2).1 r2 t3 t4).2 = bw_body (handler r1).
Proof.
  intros S G St Em Ep Eq Ei Ht.
  assert (K : cacheKey r2 "public" = cacheKey r1 "public") by (unfold cacheKey, cacheText; now rewrite Em, Ep, Eq).
  unfold Cache at 2. destruct (step_refines capacity c (OGet (cacheKey r1 "public") t1) S) as [S1 _]. cbn [op_step] in S1.
  destruct (get c (cacheKey r1 "public") t1) as [c1 o]. cbn [fst snd] in *. subst o.
  unfold miss. rewrite St. cbn [Z.eqb Pos.eqb negb fst]. set (e := stored r1 maxAge (handler r1) t2).
  destruct S1 as (W & Hp & Hc & Hl). subst capacity. destruct (put_refines c1 e W Hp Hl) as (W2 & E2 & C2).
  destruct (get_refines (put c1 e) (cacheKey r2 "public") t3 W2) as (_ & E3 & _).
  unfold Cache. destruct (get (put c1 e) (cacheKey r2 "public") t3) as [c3 o]. cbn [fst snd] in E3.
  rewrite E2 in E3. unfold spec_put in E3. destruct (Z.to_nat (cap c1)) as [|n] eqn:En; [lia|]. cbn [take] in E3.
  unfold spec_get, lookup_key in E3. cbn [List.find] in E3. change (ce_key e) with (cacheKey r1 "public") in E3.
  rewrite K, String.eqb_refl in E3. rewrite bool_decide_eq_false_2 in E3 by (change (ce_expiresAt e) with (Add t2 maxAge); lia).
  injection E3 as _ <-. unfold hit, ifNoneMatch. now rewrite Ei.
Qed.

(** Note: the names and values of the query are joined without escaping, so different
    queries have the same key. *)
Theorem query_text_collides :
  cacheText (MkReq "GET" "/x" "/x" {[ "a" := ["1"]; "b" := ["2"] ]} "") "public" =
  cacheText (MkReq "GET" "/x" "/x" {[ "a" := ["1&b=2"] ]} "") "public".
Proof. vm_compute. reflexivity. Qed.

(** *** A concrete server *)

Definition demo_digest : Digest := {| sha256hex := fun s => s |}.

Definition demo_handler (r : Request) : Buffered := MkBuffered 200 (rq_Path r) "application/json".

Definition demo_location (id : string) : Request := MkReq "GET" "/locations/:id" ("/locations/" +:+ id) ∅ "".

Definition demo_produced : Produced := MkProduced (demo_location "a") (demo_handler (demo_location "a")) 5 Minute.

Lemma cache_serves_stored_answers_witness :
  @served demo_digest (put (NewResponseCache 2) (@pd_entry demo_digest demo_produced)) [demo_produced] Minute demo_handler
    (demo_location "a") 6 7.
Proof.
  apply (@cache_serves_stored_answers demo_digest 2). apply rtc_once. exact (StepStore (NewResponseCache 2) [] demo_produced eq_refl).
Defined.

Lemma path_parameters_share_entry_witness :
  rp_Body (@Cache demo_digest Minute demo_handler
    (@Cache demo_digest Minute demo_handler (NewResponseCache 2) (demo_location "a") 0 5).1 (demo_location "b") 6 7).2
  = "/locations/a".
Proof.
  refine (@path_parameters_share_entry demo_digest 2 Minute demo_handler (NewResponseCache 2) (demo_location "a") (demo_location "b")
    0 5 6 7 (sound_new 2) _ _ _ _ _ _ _); try reflexivity. vm_compute. discriminate.
Defined.

End CacheProps.
