(* ===== verification/Credential.v ===== *)
(** * API-key credentials ([internal/identity/credential.go])

    Bytes are [Z] values below 256.  The codecs the code takes from Go's library are
    written out: [encoding/hex], the unpadded alphabets of [encoding/base64], the
    integers of [fmt.Sprintf] and [fmt.Sscanf].  Random bytes and argon2 are
    parameters ([Crypto]).  The theorems are round trips: a printed hash verifies the
    key it was made from, and the prefix of a generated key is found again. *)

From Stdlib Require Import ZArith NArith Lia Bool Ascii String.
From stdpp Require Import base list strings pretty.
From S2P Require Import Prelude GoTime GoStrings.

Local Open Scope string_scope.
Local Open Scope list_scope.
Local Open Scope Z_scope.

Module Credential.

Definition byte_ok (b : Z) : Prop := 0 <= b < 256.

(** ** [[]byte(s)] and [string(b)] *)

Fixpoint bytes_of (s : string) : list Z :=
  match s with "" => [] | String a s => Z.of_N (N_of_ascii a) :: bytes_of s end.

Fixpoint string_of (bs : list Z) : string :=
  match bs with [] => "" | b :: bs => String (ascii_of_N (Z.to_N b)) (string_of bs) end.

(** ** encoding/hex *)

Definition hex_char (n : Z) : ascii := ascii_of_N (Z.to_N (if n <? 10 then 48 + n else 87 + n)).

Fixpoint hex_EncodeToString (bs : list Z) : string :=
  match bs with
  | [] => ""
  | b :: bs => String (hex_char (b / 16)) (String (hex_char (b mod 16)) (hex_EncodeToString bs))
  end.

(** ** encoding/base64: [RawStdEncoding] and [RawURLEncoding] *)

Inductive Alphabet := StdAlphabet | URLAlphabet.

Definition enc_char (al : Alphabet) (n : Z) : ascii :=
  if n <? 26 then ascii_of_N (Z.to_N (65 + n))
  else if n <? 52 then ascii_of_N (Z.to_N (71 + n))
  else if n <? 62 then ascii_of_N (Z.to_N (n - 4))
  else match al with
       | StdAlphabet => if n =? 62 then "+"%char else "/"%char
       | URLAlphabet => if n =? 62 then "-"%char else "_"%char
       end.

Definition dec_char (al : Alphabet) (a : ascii) : option Z :=
  let c := Z.of_N (N_of_ascii a) in
  if (65 <=? c) && (c <=? 90) then Some (c - 65)
  else if (97 <=? c) && (c <=? 122) then Some (c - 71)
  else if (48 <=? c) && (c <=? 57) then Some (c + 4)
  else match al with
       | StdAlphabet => if c =? 43 then Some 62 else if c =? 47 then Some 63 else None
       | URLAlphabet => if c =? 45 then Some 62 else if c =? 95 then Some 63 else None
       end.

Fixpoint EncodeToString (al : Alphabet) (bs : list Z) : string :=
  let c n := enc_char al n in
  match bs with
  | [] => ""
  | [x] => String (c (x / 4)) (String (c (x mod 4 * 16)) "")
  | [x; y] => String (c (x / 4)) (String (c (x mod 4 * 16 + y / 16)) (String (c (y mod 16 * 4)) ""))
  | x :: y :: z :: bs =>
      String (c (x / 4)) (String (c (x mod 4 * 16 + y / 16)) (String (c (y mod 16 * 4 + z / 64)) (String (c (z mod 64))
        (EncodeToString al bs))))
  end.

(** The decoder skips line ends; the last group may be short but not of one
    character, and its spare bits are ignored. *)
Definition line_end (a : ascii) : bool := Ascii.eqb a "010" || Ascii.eqb a "013".

Fixpoint drop_line_ends (s : string) : string :=
  match s with "" => "" | String a s => if line_end a then drop_line_ends s else String a (drop_line_ends s) end.

Fixpoint sextets (al : Alphabet) (s : string) : option (list Z) :=
  match s with
  | "" => Some []
  | String a s => match dec_char al a, sextets al s with Some n, Some ns => Some (n :: ns) | _, _ => None end
  end.

Fixpoint unpack (ns : list Z) : option (list Z) :=
  match ns with
  | [] => Some []
  | [_] => None
  | [a; b] => Some [a * 4 + b / 16]
  | [a; b; c] => Some [a * 4 + b / 16; b mod 16 * 16 + c / 4]
  | a :: b :: c :: d :: ns =>
      (fun bs => a * 4 + b / 16 :: b mod 16 * 16 + c / 4 :: c mod 4 * 64 + d :: bs) <$> unpack ns
  end.

Definition DecodeString (al : Alphabet) (s : string) : option (list Z) := sextets al (drop_line_ends s) ≫= unpack.

(** ** fmt.Sscanf with literals and [%d] *)

Fixpoint scan_digits (s : string) : string * string :=
  match s with
  | "" => ("", "")
  | String a r => if is_digit a then let '(d, rest) := scan_digits r in (String a d, rest) else ("", s)
  end.

(** Blanks before a verb are skipped, a newline is an error. *)
Fixpoint scan_blanks (fuel : nat) (s : string) : option string :=
  match fuel with
  | O => Some s
  | S n =>
      match s with
      | String a _ => if Ascii.eqb a "010" then None
                      else match skip_space s with Some r => scan_blanks n r | None => Some s end
      | "" => Some s
      end
  end.

Definition scan_uint (bits : Z) (s : string) : option (Z * string) :=
  match scan_blanks (String.length s) s with
  | None => None
  | Some s =>
      let '(d, rest) := scan_digits s in
      match unsigned d with
      | Some n => if n <? 2 ^ bits then Some (n, rest) else None
      | None => None
      end
  end.

Definition scan_int (s : string) : option (Z * string) :=
  match scan_blanks (String.length s) s with
  | None => None
  | Some s =>
      let '(sgn, s) := match s with
                       | String a r => if Ascii.eqb a "-" then (-1, r) else if Ascii.eqb a "+" then (1, r) else (1, s)
                       | "" => (1, s)
                       end in
      let '(d, rest) := scan_digits s in
      match unsigned d with
      | Some n => if (- 2 ^ 63 <=? sgn * n) && (sgn * n <=? 2 ^ 63 - 1) then Some (sgn * n, rest) else None
      | None => None
      end
  end.

(** ** credential.go *)

Definition keyPrefixLabel : string := "fiq_".
Definition keyPrefixBytes : nat := 4.
Definition keySecretBytes : nat := 32.

Definition argonMemoryKiB : Z := 64 * 1024.
Definition argonTime : Z := 1.
Definition argonThreads : Z := 4.
Definition argonKeyLen : Z := 32.
Definition argonSaltLen : nat := 16.
Definition argon2_Version : Z := 19.

(** [argon2.IDKey password salt time memory threads keyLen]; its documentation
    promises [keyLen] bytes. *)
Class Crypto := {
  IDKey : list Z -> list Z -> Z -> Z -> Z -> Z -> list Z;
}.
Class CryptoLaws `{Crypto} := {
  IDKey_bytes : forall p s t m n k, Forall byte_ok (IDKey p s t m n k);
  IDKey_length : forall p s t m n k, 0 <= k -> Z.of_nat (length (IDKey p s t m n k)) = k;
}.

(** [generateKey] on the random bytes it reads. *)
Definition generateKey (pb sb : list Z) : string * string :=
  let prefix := keyPrefixLabel +:+ hex_EncodeToString pb in
  let secret := EncodeToString URLAlphabet sb in
  (prefix, prefix +:+ "." +:+ secret).

(** [strings.IndexByte]: the text before the first occurrence. *)
Fixpoint before_byte (c : ascii) (s : string) : option string :=
  match s with
  | "" => None
  | String a s => if Ascii.eqb a c then Some "" else String a <$> before_byte c s
  end.

Definition splitKey (plaintext : string) : option string :=
  match before_byte "." plaintext with
  | None => None
  | Some "" => None
  | Some prefix => if HasPrefix plaintext keyPrefixLabel then Some prefix else None
  end.

Definition phc (salt sum : list Z) : string :=
  "$argon2id$v=" +:+ pretty argon2_Version +:+ "$m=" +:+ pretty argonMemoryKiB +:+ ",t=" +:+ pretty argonTime
  +:+ ",p=" +:+ pretty argonThreads +:+ "$" +:+ EncodeToString StdAlphabet salt +:+ "$" +:+ EncodeToString StdAlphabet sum.

Section Hash.
Context `{Crypto}.

Definition hashKey (plaintext : string) (salt : list Z) : string :=
  phc salt (IDKey (bytes_of plaintext) salt argonTime argonMemoryKiB argonThreads argonKeyLen).

Definition scan_version (s : string) : option Z :=
  match strip_prefix "v=" s with Some r => fst <$> scan_int r | None => None end.

Definition scan_params (s : string) : option (Z * Z * Z) :=
  match strip_prefix "m=" s ≫= scan_uint 32 with
  | Some (mem, r) =>
      match strip_prefix ",t=" r ≫= scan_uint 32 with
      | Some (t, r) =>
          match strip_prefix ",p=" r ≫= scan_uint 32 with
          | Some (p, _) => Some (mem, t, p)
          | None => None
          end
      | None => None
      end
  | None => None
  end.

(** [inl] is an error. *)
Definition verifyKey (plaintext encoded : string) : string + bool :=
  match Split "$" encoded with
  | [_; alg; ver; params; p4; p5] =>
      if negb (String.eqb alg "argon2id") then inl "unsupported key hash format"
      else match scan_version ver with
           | Some version =>
               if version =? argon2_Version then
                 match scan_params params with
                 | Some (mem, t, p) =>
                     match DecodeString StdAlphabet p4 with
                     | Some salt =>
                         match DecodeString StdAlphabet p5 with
                         | Some want =>
                             let got := IDKey (bytes_of plaintext) salt t mem (p mod 256) (Z.of_nat (length want) mod 2 ^ 32) in
                             inr (bool_decide (got = want))
                         | None => inl "decode hash"
                         end
                     | None => inl "decode salt"
                     end
                 | None => inl "malformed argon2 parameters"
                 end
               else inl "unsupported argon2 version"
           | None => inl "unsupported argon2 version"
           end
  | _ => inl "unsupported key hash format"
  end.
End Hash.

Example codec_examples :
  EncodeToString StdAlphabet (bytes_of "any carnal pleas") = "YW55IGNhcm5hbCBwbGVhcw" /\
  DecodeString StdAlphabet "YW55IGNhcm5hbCBwbGVhcw" = Some (bytes_of "any carnal pleas") /\
  DecodeString StdAlphabet "YW55IA==" = None /\ DecodeString URLAlphabet "_-8" = Some [255; 239] /\
  hex_EncodeToString [0; 171; 16] = "00ab10" /\ scan_params "m=65536,t=1,p=4" = Some (65536, 1, 4) /\ scan_version "v=19" = Some 19 /\
  splitKey "fiq_00ab.x.y" = Some "fiq_00ab" /\ splitKey "fiq_x" = None /\ splitKey ".fiq_" = None.
Proof. vm_compute. repeat split. Qed.

(** ** Round trips of the codecs *)

(** A character of an alphabet decodes to its sextet and is none of the separators. *)
Definition plain_char (a : ascii) : bool :=
  negb (line_end a) && negb (Ascii.eqb a "$") && negb (Ascii.eqb a ".").

Lemma plain_char_inv a : plain_char a = true ->
  line_end a = false /\ Ascii.eqb a "$" = false /\ Ascii.eqb a "." = false.
Proof. unfold plain_char. rewrite !andb_true_iff, !negb_true_iff. tauto. Qed.

Lemma enc_char_ok al n : 0 <= n < 64 -> dec_char al (enc_char al n) = Some n /\ plain_char (enc_char al n) = true.
Proof.
  intros H. assert (A : forallb (fun k => let n := Z.of_nat k in
      bool_decide (dec_char al (enc_char al n) = Some n) && plain_char (enc_char al n)) (seq 0 64) = true)
    by (destruct al; vm_compute; reflexivity).
  rewrite forallb_forall in A. specialize (A (Z.to_nat n)). rewrite Z2Nat.id in A by lia.
  destruct (andb_prop _ _ (A ltac:(apply in_seq; lia))) as [E P]. split; [now apply bool_decide_eq_true in E|exact P].
Qed.

Fixpoint all_plain (s : string) : bool := match s with "" => true | String a s => plain_char a && all_plain s end.

(** Induction by three elements. *)
Lemma list_ind3 {A} (P : list A -> Prop) :
  P [] -> (forall x, P [x]) -> (forall x y, P [x; y]) -> (forall x y z l, P l -> P (x :: y :: z :: l)) -> forall l, P l.
Proof.
  intros H0 H1 H2 H3. fix IH 1. intros [|x [|y [|z l]]]; [exact H0|exact (H1 x)|exact (H2 x y)|exact (H3 x y z l (IH l))].
Qed.

Lemma Forall_cons3 {A} (P : A -> Prop) x y z l : Forall P (x :: y :: z :: l) <-> P x /\ P y /\ P z /\ Forall P l.
Proof. now rewrite !Forall_cons. Qed.

(** The sextets of the encoding. *)
Fixpoint pack (bs : list Z) : list Z :=
  match bs with
  | [] => []
  | [x] => [x / 4; x mod 4 * 16]
  | [x; y] => [x / 4; x mod 4 * 16 + y / 16; y mod 16 * 4]
  | x :: y :: z :: bs => x / 4 :: x mod 4 * 16 + y / 16 :: y mod 16 * 4 + z / 64 :: z mod 64 :: pack bs
  end.

Fixpoint chars (al : Alphabet) (ns : list Z) : string :=
  match ns with [] => "" | n :: ns => String (enc_char al n) (chars al ns) end.

Lemma Encode_chars al bs : EncodeToString al bs = chars al (pack bs).
Proof. induction bs using list_ind3; cbn; [reflexivity..|now rewrite IHbs]. Qed.

Lemma pack_sextets bs : Forall byte_ok bs -> Forall (fun n => 0 <= n < 64) (pack bs).
Proof.
  unfold byte_ok. induction bs as [|x|x y|x y z bs IH] using list_ind3; cbn [pack]; rewrite ?Forall_cons3, ?Forall_cons, ?Forall_nil;
    intros; repeat split; try (zdiv). apply IH; tauto.
Qed.

Lemma unpack_pack bs : Forall byte_ok bs -> unpack (pack bs) = Some bs.
Proof.
  unfold byte_ok. induction bs as [|x|x y|x y z bs IH] using list_ind3; rewrite ?Forall_cons3, ?Forall_cons; intros F; cbn [pack unpack].
  - reflexivity.
  - f_equal. f_equal. zdiv.
  - f_equal. repeat f_equal; zdiv.
  - rewrite IH by tauto. cbn. f_equal. repeat f_equal; zdiv.
Qed.

Lemma chars_plain al ns : Forall (fun n => 0 <= n < 64) ns ->
  all_plain (chars al ns) = true /\ drop_line_ends (chars al ns) = chars al ns /\ sextets al (chars al ns) = Some ns.
Proof.
  induction 1 as [|n ns Hn F (I1 & I2 & I3)]; [repeat split|]. cbn [chars all_plain drop_line_ends sextets].
  destruct (enc_char_ok al n Hn) as [E P]. rewrite E, P, I1, I2, I3. apply plain_char_inv in P as (-> & _). auto.
Qed.

(** Note: the unpadded base64 codecs are inverse to each other on byte strings. *)
Theorem base64_roundtrip al bs : Forall byte_ok bs -> DecodeString al (EncodeToString al bs) = Some bs.
Proof.
  intros F. unfold DecodeString. rewrite Encode_chars. destruct (chars_plain al _ (pack_sextets bs F)) as (_ & -> & ->). cbn.
  now apply unpack_pack.
Qed.

Lemma Encode_plain al bs : Forall byte_ok bs -> all_plain (EncodeToString al bs) = true.
Proof. intros F. rewrite Encode_chars. apply chars_plain, pack_sextets, F. Qed.

(** Splitting at a separator that the first part does not contain. *)
Lemma Split_first s r : all_plain s = true -> Split "$" (s +:+ String "$" r) = s :: Split "$" r.
Proof.
  induction s as [|a s IH]; intros P; [reflexivity|]. cbn [all_plain] in P. apply andb_prop in P as [Pa P].
  apply plain_char_inv in Pa as (_ & Pa & _). change (String a s +:+ String "$" r) with (String a (s +:+ String "$" r)). cbn [Split]. now rewrite Pa, IH.
Qed.

Lemma Split_last s : all_plain s = true -> Split "$" s = [s].
Proof.
  induction s as [|a s IH]; intros P; [reflexivity|]. cbn [all_plain] in P. apply andb_prop in P as [Pa P].
  apply plain_char_inv in Pa as (_ & Pa & _). cbn [Split]. now rewrite Pa, IH.
Qed.

Lemma phc_split salt sum : Forall byte_ok salt -> Forall byte_ok sum ->
  Split "$" (phc salt sum) = ["" ; "argon2id"; "v=19"; "m=65536,t=1,p=4"; EncodeToString StdAlphabet salt; EncodeToString StdAlphabet sum].
Proof.
  intros Fs Fm. set (S := EncodeToString StdAlphabet salt). set (H := EncodeToString StdAlphabet sum).
  assert (phc salt sum = "" +:+ String "$" ("argon2id" +:+ String "$" ("v=19" +:+ String "$" ("m=65536,t=1,p=4" +:+ String "$" (S +:+ String "$" H))))) as ->
    by reflexivity.
  rewrite !Split_first, Split_last; try reflexivity; now apply Encode_plain.
Qed.

(** What a stored hash answers to any presented key. *)
Lemma verify_stored `{CryptoLaws} (plaintext : string) (salt : list Z) (other : string) : Forall byte_ok salt ->
  verifyKey other (hashKey plaintext salt) =
    inr (bool_decide (IDKey (bytes_of other) salt argonTime argonMemoryKiB argonThreads argonKeyLen =
                      IDKey (bytes_of plaintext) salt argonTime argonMemoryKiB argonThreads argonKeyLen)).
Proof.
  intros Fs. unfold verifyKey, hashKey. rewrite phc_split; [|assumption|apply IDKey_bytes].
  change (String.eqb "argon2id" "argon2id") with true. cbn [negb].
  change (scan_version "v=19") with (Some 19). change (19 =? argon2_Version) with true. cbv iota.
  change (scan_params "m=65536,t=1,p=4") with (Some (65536, 1, 4)). cbv iota.
  rewrite !base64_roundtrip by (assumption || apply IDKey_bytes). rewrite IDKey_length by (unfold argonKeyLen; lia). reflexivity.
Qed.

Lemma verify_own `{CryptoLaws} (plaintext : string) (salt : list Z) : Forall byte_ok salt ->
  verifyKey plaintext (hashKey plaintext salt) = inr true.
Proof. intros Fs. rewrite verify_stored by assumption. now rewrite bool_decide_true. Qed.

(** Note: a stored key hash verifies the key it was made from, whatever the salt; the
    hash text survives its own parser (version, parameters, salt and digest).  Any
    other key whose argon2 digest under that salt differs is refused. *)
Theorem hash_verifies `{CryptoLaws} (plaintext : string) (salt : list Z) : Forall byte_ok salt ->
  verifyKey plaintext (hashKey plaintext salt) = inr true /\
  forall other, verifyKey other (hashKey plaintext salt) =
    inr (bool_decide (IDKey (bytes_of other) salt argonTime argonMemoryKiB argonThreads argonKeyLen =
                      IDKey (bytes_of plaintext) salt argonTime argonMemoryKiB argonThreads argonKeyLen)).
Proof. intros Fs. split; [now apply verify_own|]. intros other. now apply verify_stored. Qed.

Lemma hex_plain bs : Forall byte_ok bs -> all_plain (hex_EncodeToString bs) = true.
Proof.
  assert (A : forall n, 0 <= n < 16 -> plain_char (hex_char n) = true).
  { intros n Hn. assert (C : forallb (fun k => plain_char (hex_char (Z.of_nat k))) (seq 0 16) = true) by (vm_compute; reflexivity).
    rewrite forallb_forall in C. specialize (C (Z.to_nat n)). rewrite Z2Nat.id in C by lia. apply C, in_seq. lia. }
  unfold byte_ok. induction 1 as [|b bs Hb F IH]; [reflexivity|]. cbn. rewrite !A, IH by zdiv. reflexivity.
Qed.

Lemma before_byte_app s r : all_plain s = true -> before_byte "." (s +:+ String "." r) = Some s.
Proof.
  induction s as [|a s IH]; intros P; [reflexivity|]. cbn [all_plain] in P. apply andb_prop in P as [Pa P].
  apply plain_char_inv in Pa as (_ & _ & Pa). change (String a s +:+ String "." r) with (String a (s +:+ String "." r)).
  cbn [before_byte]. now rewrite Pa, IH.
Qed.

(** The lookup prefix of a generated key is found in the presented text. *)
Lemma split_generated pb sb : Forall byte_ok pb -> splitKey (generateKey pb sb).2 = Some (generateKey pb sb).1.
Proof.
  intros F. unfold splitKey, generateKey, keyPrefixLabel. cbn [fst snd]. set (h := hex_EncodeToString pb). set (e := EncodeToString _ sb).
  assert (B : before_byte "." (("fiq_" +:+ h) +:+ "." +:+ e) = Some ("fiq_" +:+ h)).
  { change ("." +:+ e) with (String "." e). apply before_byte_app. change (all_plain h = true). now apply hex_plain. }
  rewrite B. reflexivity.
Qed.

(** A toy hash, for evaluation. *)
Definition toy : Crypto :=
  {| IDKey := fun p s t m n k => (fun i => (foldr Z.add 7 p * 31 + foldr Z.add 1 s + Z.of_nat i) mod 256) <$> seq 0 (Z.to_nat k) |}.

Lemma toy_laws : @CryptoLaws toy.
Proof.
  constructor; cbn.
  - intros. apply Forall_forall. intros b (i & -> & _)%list_elem_of_fmap. unfold byte_ok. apply Z.mod_pos_bound. lia.
  - intros. rewrite length_fmap, length_seq. lia.
Qed.

Lemma hash_verifies_witness :
  @verifyKey toy "fiq_00ab10ff.secret" (@hashKey toy "fiq_00ab10ff.secret" (repeat 5 16)) = inr true /\
  @verifyKey toy "fiq_00ab10ff.secreT" (@hashKey toy "fiq_00ab10ff.secret" (repeat 5 16)) = inr false.
Proof.
  split; [|vm_compute; reflexivity].
  apply (@hash_verifies toy toy_laws "fiq_00ab10ff.secret" (repeat 5 16)). repeat constructor; unfold byte_ok; lia.
Defined.

End Credential.
