(* ===== verification/Identity.v ===== *)
(** * Identity ([internal/identity], [adapters/persistence/identitypg])

    Users, API keys, account exports and the audit trail they write, on the tables of
    the identity migrations with their constraints: unique subjects, e-mails and key
    prefixes, one pending export per user, foreign keys with their cascades, and the
    immutable audit table that only a transaction with the [allow_immutable_write]
    setting may anonymise.  Domain errors are values; the calls to the managed auth
    provider are recorded in order in [it_provider].  Random bytes, argon2 and the
    token verifier are parameters; the clock's readings are arguments. *)

From Stdlib Require Import ZArith NArith Lia Bool String.
From stdpp Require Import base list strings gmap.
From S2P Require Import Prelude GoTime Uuid GoStrings Effects Credential.

Import Credential.
Local Open Scope string_scope.
Local Open Scope list_scope.
Local Open Scope Z_scope.

Module Identity.

(** ** domain *)

Inductive IdentityError :=
| ErrUserNotFound | ErrUserDisabled | ErrKeyNotFound | ErrKeyInactive | ErrInvalidToken | ErrTokenExpired
| ErrInvalidCredential | ErrDuplicateSubject | ErrSelfLockout | ErrUpstreamAuth | ErrExportInProgress
| ErrExportNotFound | ErrExportExpired
| FieldErr (field message : string).

#[export] Instance IdentityError_eq_dec : EqDecision IdentityError.
Proof. solve_decision. Defined.

Definition RoleUser : string := "user".
Definition RoleAdmin : string := "admin".
Definition Role_IsAdmin (r : string) : bool := String.eqb r RoleAdmin.

(** JSON values of preferences are kept as their text. *)
Definition JSONMap : Type := list (string * string).

Record User := MkUser {
  u_ID : uuid;
  u_WorkspaceID : uuid;
  u_AuthSubject : string;
  u_Email : string;
  u_Role : string;
  u_Status : string;
  u_DefaultLocationID : option uuid;
  u_Preferences : JSONMap;
  u_CreatedAt : Time;
  u_UpdatedAt : Time;
  u_LastLoginAt : option Time
}.

Definition User_Active (u : User) : bool := String.eqb (u_Status u) "active".

Record APIKey := MkAPIKey {
  k_ID : uuid;
  k_UserID : uuid;
  k_WorkspaceID : uuid;
  k_Name : string;
  k_KeyHash : string;
  k_KeyPrefix : string;
  k_Scopes : list string;
  k_RateLimitPerMin : Z;
  k_ExpiresAt : option Time;
  k_CreatedAt : Time;
  k_RevokedAt : option Time;
  k_LastUsedAt : option Time
}.

Definition Revoked (k : APIKey) : bool := bool_decide (is_Some (k_RevokedAt k)).
Definition Key_Expired (k : APIKey) (now : Time) : bool :=
  match k_ExpiresAt k with Some e => negb (Before now e) | None => false end.
Definition Usable (k : APIKey) (now : Time) : bool := negb (Revoked k) && negb (Key_Expired k now).

Definition DefaultScopes : list string := ["read:public"].

Definition ExportPending : string := "pending".
Definition ExportCompleted : string := "completed".
Definition ExportFailed : string := "failed".

Record ExportJob := MkExportJob {
  j_ID : uuid;
  j_WorkspaceID : uuid;
  j_RequestedBy : uuid;
  j_TargetUserID : option uuid;
  j_Status : string;
  j_ObjectKey : string;
  j_ExpiresAt : option Time;
  j_CompletedAt : option Time;
  j_ErrorMessage : string;
  j_CreatedAt : Time
}.

Definition Job_Expired (j : ExportJob) (now : Time) : bool :=
  match j_ExpiresAt j with Some e => negb (Before now e) | None => false end.

(** ** audit *)

Record RecordedEvent := MkRecordedEvent {
  e_ID : uuid;
  e_UserID : option uuid;
  e_Action : string;
  e_ResourceType : string;
  e_ResourceID : option uuid;
  e_Details : list (string * string);
  e_IPAddress : string;
  e_CreatedAt : Time
}.

Record Event := MkEvent {
  ev_UserID : option uuid;
  ev_Action : string;
  ev_ResourceType : string;
  ev_ResourceID : option uuid;
  ev_Details : list (string * string);
  ev_IPAddress : string;
  ev_At : Time
}.

(** ** identity.go *)

Inductive AuthMethod := AuthJWT | AuthAPIKey.

Record Principal := MkPrincipal {
  p_UserID : uuid;
  p_WorkspaceID : uuid;
  p_Email : string;
  p_Role : string;
  p_Method : AuthMethod;
  p_Scopes : list string
}.

Definition IsAdmin (p : Principal) : bool := Role_IsAdmin (p_Role p).

Record CreateKeyInput := MkCreateKeyInput {
  ck_Name : string;
  ck_Scopes : list string;
  ck_RateLimitPerMin : Z;
  ck_ExpiresAt : option Time;
  ck_IPAddress : string
}.

Record UpdateProfileInput := MkUpdateProfile {
  up_DefaultLocationID : option uuid;
  up_Preferences : option JSONMap;
  up_IPAddress : string
}.

(** ports.Claims *)
Record Claims := MkClaims { c_Subject : string; c_Email : string; c_ExpiresAt : Time }.

(** ** The state *)

(** What the auth provider was told ([SupabaseAdmin]). *)
Inductive ProviderCall := SetBanned (subject : string) (banned : bool) | DeleteUserCall (subject : string).

(** The export document; JSON and gzip of the payload store are left out. *)
Record ExportKey := MkExportKey {
  xk_ID : uuid; xk_Name : string; xk_KeyPrefix : string; xk_Scopes : list string;
  xk_CreatedAt : Time; xk_RevokedAt : option Time; xk_LastUsedAt : option Time
}.
Record ExportEvent := MkExportEvent {
  xe_ID : uuid; xe_Action : string; xe_ResourceType : string; xe_Details : list (string * string); xe_CreatedAt : Time
}.
Record ExportDoc := MkExportDoc {
  x_ExportedAt : Time;
  x_User : uuid * string * string * string * option uuid * JSONMap * Time * option Time;
  x_APIKeys : list ExportKey;
  x_AuditEvents : list ExportEvent
}.

Record IdTables := MkIdTables {
  it_users : list User;
  it_keys : list APIKey;
  it_jobs : list ExportJob;
  it_audit : list RecordedEvent;
  it_locations : list uuid;
  it_files : gmap string ExportDoc;
  it_provider : list ProviderCall;
  it_guc : bool;                      (** [app.allow_immutable_write] of the transaction *)
  it_draws : nat                      (** reads of [crypto/rand] so far *)
}.

Definition with_users (d : IdTables) (us : list User) : IdTables :=
  MkIdTables us (it_keys d) (it_jobs d) (it_audit d) (it_locations d) (it_files d) (it_provider d) (it_guc d) (it_draws d).
Definition with_keys (d : IdTables) (ks : list APIKey) : IdTables :=
  MkIdTables (it_users d) ks (it_jobs d) (it_audit d) (it_locations d) (it_files d) (it_provider d) (it_guc d) (it_draws d).
Definition with_jobs (d : IdTables) (js : list ExportJob) : IdTables :=
  MkIdTables (it_users d) (it_keys d) js (it_audit d) (it_locations d) (it_files d) (it_provider d) (it_guc d) (it_draws d).
Definition with_audit (d : IdTables) (es : list RecordedEvent) : IdTables :=
  MkIdTables (it_users d) (it_keys d) (it_jobs d) es (it_locations d) (it_files d) (it_provider d) (it_guc d) (it_draws d).
Definition with_files (d : IdTables) (fs : gmap string ExportDoc) : IdTables :=
  MkIdTables (it_users d) (it_keys d) (it_jobs d) (it_audit d) (it_locations d) fs (it_provider d) (it_guc d) (it_draws d).
Definition with_provider (d : IdTables) (ps : list ProviderCall) : IdTables :=
  MkIdTables (it_users d) (it_keys d) (it_jobs d) (it_audit d) (it_locations d) (it_files d) ps (it_guc d) (it_draws d).
Definition with_guc (d : IdTables) (b : bool) : IdTables :=
  MkIdTables (it_users d) (it_keys d) (it_jobs d) (it_audit d) (it_locations d) (it_files d) (it_provider d) b (it_draws d).
Definition with_draws (d : IdTables) (n : nat) : IdTables :=
  MkIdTables (it_users d) (it_keys d) (it_jobs d) (it_audit d) (it_locations d) (it_files d) (it_provider d) (it_guc d) n.

(** ** identitypg *)

Definition user_exists (d : IdTables) (id : uuid) : bool := existsb (fun u => bool_decide (u_ID u = id)) (it_users d).

(** A foreign key that may be null. *)
Definition user_fk (d : IdTables) (id : option uuid) : bool := match id with Some i => user_exists d i | None => true end.

Definition pg_UserByID (id : uuid) (d : IdTables) : option User := List.find (fun u => bool_decide (u_ID u = id)) (it_users d).
Definition pg_UserBySubject (subject : string) (d : IdTables) : option User :=
  List.find (fun u => String.eqb (u_AuthSubject u) subject) (it_users d).

(** [inl] is the violation of a unique constraint, mapped to a domain error. *)
Definition pg_InsertUser (u : User) (d : IdTables) : option (IdTables * (IdentityError + unit)) :=
  if existsb (fun x => bool_decide (u_ID x = u_ID u) || String.eqb (u_AuthSubject x) (u_AuthSubject u) || String.eqb (u_Email x) (u_Email u)) (it_users d)
  then Some (d, inl ErrDuplicateSubject)
  else Some (with_users d (it_users d ++ [u]), inr tt).

(** [UPDATE users ... WHERE id = $1]; the [updated_at] that a trigger takes from the
    server's clock is left as it is. *)
Definition on_user (id : uuid) (f : User -> User) (us : list User) : list User :=
  (fun u => if bool_decide (u_ID u = id) then f u else u) <$> us.

Definition set_profile (u : User) (x : User) : User :=
  MkUser (u_ID x) (u_WorkspaceID x) (u_AuthSubject x) (u_Email x) (u_Role x) (u_Status x)
    (u_DefaultLocationID u) (u_Preferences u) (u_CreatedAt x) (u_UpdatedAt x) (u_LastLoginAt x).

Definition pg_UpdateProfile (u : User) (d : IdTables) : option (IdTables * unit) :=
  let location_fk := match u_DefaultLocationID u with Some l => existsb (N.eqb l) (it_locations d) | None => true end in
  if location_fk || negb (user_exists d (u_ID u)) then Some (with_users d (on_user (u_ID u) (set_profile u) (it_users d)), tt) else None.

Definition set_login (at_ : Time) (x : User) : User :=
  MkUser (u_ID x) (u_WorkspaceID x) (u_AuthSubject x) (u_Email x) (u_Role x) (u_Status x)
    (u_DefaultLocationID x) (u_Preferences x) (u_CreatedAt x) (u_UpdatedAt x) (Some at_).
Definition pg_TouchLastLogin (id : uuid) (at_ : Time) (d : IdTables) : IdTables * unit :=
  (with_users d (on_user id (set_login at_) (it_users d)), tt).

Definition set_status (status : string) (x : User) : User :=
  MkUser (u_ID x) (u_WorkspaceID x) (u_AuthSubject x) (u_Email x) (u_Role x) status
    (u_DefaultLocationID x) (u_Preferences x) (u_CreatedAt x) (u_UpdatedAt x) (u_LastLoginAt x).
Definition set_role (role : string) (x : User) : User :=
  MkUser (u_ID x) (u_WorkspaceID x) (u_AuthSubject x) (u_Email x) role (u_Status x)
    (u_DefaultLocationID x) (u_Preferences x) (u_CreatedAt x) (u_UpdatedAt x) (u_LastLoginAt x).

(** [RowsAffected() == 0] is [ErrUserNotFound]. *)
Definition pg_UpdateStatus (id : uuid) (status : string) (d : IdTables) : IdTables * (IdentityError + unit) :=
  if user_exists d id then (with_users d (on_user id (set_status status) (it_users d)), inr tt) else (d, inl ErrUserNotFound).
Definition pg_UpdateRole (id : uuid) (role : string) (d : IdTables) : IdTables * (IdentityError + unit) :=
  if user_exists d id then (with_users d (on_user id (set_role role) (it_users d)), inr tt) else (d, inl ErrUserNotFound).

(** [ON DELETE SET NULL] *)
Definition clear_ref (id : uuid) (r : option uuid) : option uuid := if bool_decide (r = Some id) then None else r.

Definition anonymise (id : uuid) (e : RecordedEvent) : RecordedEvent :=
  MkRecordedEvent (e_ID e) (clear_ref id (e_UserID e)) (e_Action e) (e_ResourceType e) (e_ResourceID e) (e_Details e) (e_IPAddress e) (e_CreatedAt e).
Definition untarget (id : uuid) (j : ExportJob) : ExportJob :=
  MkExportJob (j_ID j) (j_WorkspaceID j) (j_RequestedBy j) (clear_ref id (j_TargetUserID j)) (j_Status j) (j_ObjectKey j) (j_ExpiresAt j)
    (j_CompletedAt j) (j_ErrorMessage j) (j_CreatedAt j).

(** [DELETE FROM users]: keys and requested exports go with the user, references are
    cleared; the trigger on the audit table rejects the clearing without the setting. *)
Definition pg_DeleteUser (id : uuid) (d : IdTables) : option (IdTables * (IdentityError + unit)) :=
  if negb (user_exists d id) then Some (d, inl ErrUserNotFound)
  else if negb (it_guc d) && existsb (fun e => bool_decide (e_UserID e = Some id)) (it_audit d) then None
  else Some (MkIdTables (List.filter (fun u => negb (bool_decide (u_ID u = id))) (it_users d))
               (List.filter (fun k => negb (bool_decide (k_UserID k = id))) (it_keys d))
               (untarget id <$> List.filter (fun j => negb (bool_decide (j_RequestedBy j = id))) (it_jobs d))
               (anonymise id <$> it_audit d) (it_locations d) (it_files d) (it_provider d) (it_guc d) (it_draws d), inr tt).

(** Newest first; [uuid.Nil] is no cursor. *)
Definition pg_ListUsers (limit : Z) (cursor : uuid) (d : IdTables) : list User :=
  let rows := if bool_decide (cursor = uuid_Nil) then it_users d else List.filter (fun u => (u_ID u <? cursor)%N) (it_users d) in
  take (Z.to_nat limit) (stable_sort (fun a b => (u_ID b <? u_ID a)%N) rows).

Definition without_hash (k : APIKey) : APIKey :=
  MkAPIKey (k_ID k) (k_UserID k) (k_WorkspaceID k) (k_Name k) "" (k_KeyPrefix k) (k_Scopes k) (k_RateLimitPerMin k)
    (k_ExpiresAt k) (k_CreatedAt k) (k_RevokedAt k) (k_LastUsedAt k).

Definition pg_InsertKey (k : APIKey) (d : IdTables) : option (IdTables * unit) :=
  if existsb (fun x => bool_decide (k_ID x = k_ID k) || String.eqb (k_KeyPrefix x) (k_KeyPrefix k)) (it_keys d)
     || negb (user_exists d (k_UserID k)) || (k_RateLimitPerMin k <=? 0)
  then None else Some (with_keys d (it_keys d ++ [k]), tt).

Definition pg_KeyByPrefix (prefix : string) (d : IdTables) : option APIKey :=
  List.find (fun k => String.eqb (k_KeyPrefix k) prefix) (it_keys d).
Definition pg_KeyByID (id : uuid) (d : IdTables) : option APIKey :=
  without_hash <$> List.find (fun k => bool_decide (k_ID k = id)) (it_keys d).
Definition pg_KeysByUser (id : uuid) (d : IdTables) : list APIKey :=
  without_hash <$> stable_sort (fun a b => k_CreatedAt b <? k_CreatedAt a) (List.filter (fun k => bool_decide (k_UserID k = id)) (it_keys d)).

Definition on_key (id : uuid) (f : APIKey -> APIKey) (ks : list APIKey) : list APIKey :=
  (fun k => if bool_decide (k_ID k = id) then f k else k) <$> ks.

Definition set_revoked (at_ : Time) (k : APIKey) : APIKey :=
  match k_RevokedAt k with
  | Some _ => k
  | None => MkAPIKey (k_ID k) (k_UserID k) (k_WorkspaceID k) (k_Name k) (k_KeyHash k) (k_KeyPrefix k) (k_Scopes k) (k_RateLimitPerMin k)
              (k_ExpiresAt k) (k_CreatedAt k) (Some at_) (k_LastUsedAt k)
  end.
Definition pg_Revoke (id : uuid) (at_ : Time) (d : IdTables) : IdTables * unit := (with_keys d (on_key id (set_revoked at_) (it_keys d)), tt).

Definition touch (at_ : Time) (k : APIKey) : APIKey :=
  MkAPIKey (k_ID k) (k_UserID k) (k_WorkspaceID k) (k_Name k) (k_KeyHash k) (k_KeyPrefix k) (k_Scopes k) (k_RateLimitPerMin k)
    (k_ExpiresAt k) (k_CreatedAt k) (k_RevokedAt k) (Some at_).
Definition pg_TouchLastUsed (id : uuid) (at_ : Time) (d : IdTables) : IdTables * unit := (with_keys d (on_key id (touch at_) (it_keys d)), tt).

(** The partial unique index: a null target is never equal. *)
Definition pending_for (target : option uuid) (j : ExportJob) : bool :=
  String.eqb (j_Status j) ExportPending && match target with Some t => bool_decide (j_TargetUserID j = Some t) | None => false end.

Definition pg_InsertJob (j : ExportJob) (d : IdTables) : option (IdTables * (IdentityError + unit)) :=
  if existsb (fun x => bool_decide (j_ID x = j_ID j)) (it_jobs d)
     || (String.eqb (j_Status j) ExportPending && existsb (pending_for (j_TargetUserID j)) (it_jobs d))
  then Some (d, inl ErrExportInProgress)
  else if user_exists d (j_RequestedBy j) && user_fk d (j_TargetUserID j)
          && existsb (String.eqb (j_Status j)) [ExportPending; ExportCompleted; ExportFailed]
  then Some (with_jobs d (it_jobs d ++ [j]), inr tt) else None.

Definition on_job (id : uuid) (f : ExportJob -> ExportJob) (js : list ExportJob) : list ExportJob :=
  (fun j => if bool_decide (j_ID j = id) then f j else j) <$> js.

Definition complete_job (objectKey : string) (expiresAt completedAt : Time) (j : ExportJob) : ExportJob :=
  MkExportJob (j_ID j) (j_WorkspaceID j) (j_RequestedBy j) (j_TargetUserID j) ExportCompleted objectKey (Some expiresAt) (Some completedAt)
    (j_ErrorMessage j) (j_CreatedAt j).
Definition fail_job (msg : string) (j : ExportJob) : ExportJob :=
  MkExportJob (j_ID j) (j_WorkspaceID j) (j_RequestedBy j) (j_TargetUserID j) ExportFailed (j_ObjectKey j) (j_ExpiresAt j) (j_CompletedAt j)
    msg (j_CreatedAt j).
Definition pg_CompleteJob (id : uuid) (objectKey : string) (expiresAt completedAt : Time) (d : IdTables) : IdTables * unit :=
  (with_jobs d (on_job id (complete_job objectKey expiresAt completedAt) (it_jobs d)), tt).
Definition pg_FailJob (id : uuid) (msg : string) (d : IdTables) : IdTables * unit :=
  (with_jobs d (on_job id (fail_job msg) (it_jobs d)), tt).
Definition pg_JobByID (id : uuid) (d : IdTables) : option ExportJob := List.find (fun j => bool_decide (j_ID j = id)) (it_jobs d).

(** ** auditpg and audit.ReaderService *)

Definition pg_InsertEvent (id : uuid) (e : Event) (d : IdTables) : option (IdTables * unit) :=
  if existsb (fun x => bool_decide (e_ID x = id)) (it_audit d) || negb (user_fk d (ev_UserID e)) then None
  else Some (with_audit d (it_audit d ++ [MkRecordedEvent id (ev_UserID e) (ev_Action e) (ev_ResourceType e) (ev_ResourceID e)
                             (ev_Details e) (ev_IPAddress e) (ev_At e)]), tt).

Record Filter := MkFilter {
  f_Action : option string; f_ResourceType : option string; f_UserID : option uuid; f_Cursor : uuid; f_Limit : Z
}.

Definition matches (f : Filter) (e : RecordedEvent) : bool :=
  match f_Action f with Some a => String.eqb (e_Action e) a | None => true end
  && match f_ResourceType f with Some a => String.eqb (e_ResourceType e) a | None => true end
  && match f_UserID f with Some u => bool_decide (e_UserID e = Some u) | None => true end
  && (bool_decide (f_Cursor f = uuid_Nil) || (e_ID e <? f_Cursor f)%N).

Definition pg_ListEvents (f : Filter) (d : IdTables) : list RecordedEvent :=
  take (Z.to_nat (f_Limit f + 1)) (stable_sort (fun a b => (e_ID b <? e_ID a)%N) (List.filter (matches f) (it_audit d))).

Definition effective_limit (limit : Z) : Z := if (limit <=? 0) || (200 <? limit) then 50 else limit.

Definition with_limit (f : Filter) (n : Z) : Filter := MkFilter (f_Action f) (f_ResourceType f) (f_UserID f) (f_Cursor f) n.

(** The page and the next cursor, when there is more. *)
Definition page (limit : Z) (rows : list RecordedEvent) : list RecordedEvent * option uuid :=
  if limit <? Z.of_nat (length rows) then
    let rows := take (Z.to_nat limit) rows in (rows, e_ID <$> last rows)
  else (rows, None).

(** ** The services *)

(** [crypto/rand]: the bytes of the [n]-th read. *)
Class Random := { random : nat -> nat -> list Z }.
Class RandomLaws `{Random} := {
  random_bytes : forall i n, Forall byte_ok (random i n);
  random_length : forall i n, length (random i n) = n;
}.

(** The auth adapter ([ports.TokenVerifier]) at an instant. *)
Class TokenVerifier := { Verify : Time -> string -> IdentityError + Claims }.

Section Service.
Context `{Env} `{Crypto} `{Random} `{TokenVerifier} (workspaceID : uuid).

Definition S (A : Type) : Type := M IdTables (IdentityError + A).

Definition sret {A} (a : A) : S A := ret (inr a).
Definition fail {A} (e : IdentityError) : S A := ret (inl e).
Definition read {A} (op : string) (f : IdTables -> A) : S A := query op (fun d => inr (f d)).
Definition found {A} (e : IdentityError) (op : string) (f : IdTables -> option A) : S A :=
  query op (fun d => match f d with Some a => inr a | None => inl e end).
Definition exec (op : string) (f : IdTables -> IdTables * unit) : S unit := dbcall op (fun d => let '(d', _) := f d in (d', inr tt)).
Definition insert (op : string) (f : IdTables -> option (IdTables * unit)) : S unit :=
  dbexec op (fun d => match f d with Some (d', _) => Some (d', inr tt) | None => None end).

(** [rand.Read] *)
Definition draw (op : string) (n : nat) : S (list Z) :=
  dbcall op (fun d => (with_draws d (Datatypes.S (it_draws d)), inr (random (it_draws d) n))).

Definition newID_ : S uuid := bind fresh (fun id => sret id).

(** [recorder.Record] and [auditpg.Insert]; every caller sets the time. *)
Definition RecordEvent (e : Event) : S unit :=
  id <-! newID_ ;; insert "insert audit event" (pg_InsertEvent id e).

(** A unit of work; [SET LOCAL] ends with it. *)
Definition unit_of_work {A} (fn : S A) : S A :=
  tx_runE (a <-! fn ;; bind (local (fun d => (with_guc d false, tt))) (fun _ => sret a)).

(** *** apikey_service.go *)

Definition maxKeyNameLen : Z := 100.
Definition defaultKeyRateMin : Z := 60.

Definition CreateKey (p : Principal) (inp : CreateKeyInput) (now : Time) : S (APIKey * string) :=
  let name := TrimSpace (ck_Name inp) in
  if String.eqb name "" || (maxKeyNameLen <? Z.of_nat (String.length name)) then
    fail (FieldErr "name" "name is required and must be at most 100 characters")
  else
    pb <-! draw "generate key prefix" keyPrefixBytes ;;
    sb <-! draw "generate key secret" keySecretBytes ;;
    let '(prefix, plaintext) := generateKey pb sb in
    salt <-! draw "generate salt" argonSaltLen ;;
    let hash := hashKey plaintext salt in
    let scopes := match ck_Scopes inp with [] => DefaultScopes | l => l end in
    let rate := if ck_RateLimitPerMin inp <=? 0 then defaultKeyRateMin else ck_RateLimitPerMin inp in
    id <-! newID_ ;;
    let key := MkAPIKey id (p_UserID p) (p_WorkspaceID p) name hash prefix scopes rate (ck_ExpiresAt inp) now None None in
    unit_of_work (
      insert "insert api key" (pg_InsertKey key) ;;!
      RecordEvent (MkEvent (Some (p_UserID p)) "apikey.create" "api_key" (Some id)
        [("name", name); ("key_prefix", prefix); ("scopes", String.concat "," scopes)] (ck_IPAddress inp) now)) ;;!
    sret (without_hash key, plaintext).

Definition ListKeys (userID : uuid) : S (list APIKey) := read "list api keys" (pg_KeysByUser userID).

Definition RevokeKey (userID keyID : uuid) (ip : string) (now : Time) : S unit :=
  unit_of_work (
    key <-! found ErrKeyNotFound "scan api key" (pg_KeyByID keyID) ;;
    if negb (bool_decide (k_UserID key = userID)) then fail ErrKeyNotFound
    else
      exec "revoke api key" (pg_Revoke keyID now) ;;!
      RecordEvent (MkEvent (Some userID) "apikey.revoke" "api_key" (Some keyID) [("key_prefix", k_KeyPrefix key)] ip now)).

Definition AuthenticateAPIKey (rawKey : string) (now : Time) : S Principal :=
  match splitKey rawKey with
  | None => fail ErrInvalidCredential
  | Some prefix =>
      key <-! found ErrInvalidCredential "get api key by prefix" (pg_KeyByPrefix prefix) ;;
      match verifyKey rawKey (k_KeyHash key) with
      | inl _ | inr false => fail ErrInvalidCredential
      | inr true =>
          if negb (Usable key now) then fail ErrKeyInactive
          else
            user <-! found ErrUserNotFound "scan user" (pg_UserByID (k_UserID key)) ;;
            if negb (User_Active user) then fail ErrUserDisabled
            else
              bind (attempt (unit_of_work (exec "touch api key last used" (pg_TouchLastUsed (k_ID key) now)))) (fun _ =>
              sret (MkPrincipal (u_ID user) (u_WorkspaceID user) (u_Email user) (u_Role user) AuthAPIKey (k_Scopes key)))
      end
  end.

(** *** user_service.go *)

Definition resolveOrProvision (c : Claims) (now : Time) : S User :=
  r <-! read "lookup user" (pg_UserBySubject (c_Subject c)) ;;
  match r with
  | Some existing => sret existing
  | None =>
      id <-! newID_ ;;
      let user := MkUser id workspaceID (c_Subject c) (c_Email c) RoleUser "active" None [] now now None in
      bind (unit_of_work (
        dbexec "insert user" (pg_InsertUser user) ;;!
        RecordEvent (MkEvent (Some id) "user.provisioned" "user" (Some id)
          [("email", c_Email c); ("auth_subject", c_Subject c)] "" now)))
        (fun r => match r with
                  | inr _ => sret user
                  | inl ErrDuplicateSubject => found ErrUserNotFound "scan user" (pg_UserBySubject (c_Subject c))
                  | inl e => fail e
                  end)
  end.

Definition Authenticate (rawToken : string) (now : Time) : S Principal :=
  match Verify now rawToken with
  | inl e => fail e
  | inr claims =>
      user <-! resolveOrProvision claims now ;;
      if negb (User_Active user) then fail ErrUserDisabled
      else
        unit_of_work (exec "touch last login" (pg_TouchLastLogin (u_ID user) now)) ;;!
        sret (MkPrincipal (u_ID user) (u_WorkspaceID user) (u_Email user) (u_Role user) AuthJWT [])
  end.

Definition GetMe (userID : uuid) : S User := found ErrUserNotFound "scan user" (pg_UserByID userID).

Definition profileFields (inp : UpdateProfileInput) : list string :=
  (if bool_decide (is_Some (up_DefaultLocationID inp)) then ["default_location_id"] else [])
  ++ (if bool_decide (is_Some (up_Preferences inp)) then ["preferences"] else []).

Definition UpdateMe (userID : uuid) (inp : UpdateProfileInput) (now : Time) : S User :=
  unit_of_work (
    user <-! found ErrUserNotFound "scan user" (pg_UserByID userID) ;;
    let user := MkUser (u_ID user) (u_WorkspaceID user) (u_AuthSubject user) (u_Email user) (u_Role user) (u_Status user)
      (match up_DefaultLocationID inp with Some l => Some l | None => u_DefaultLocationID user end)
      (default (u_Preferences user) (up_Preferences inp)) (u_CreatedAt user) now (u_LastLoginAt user) in
    insert "update user profile" (pg_UpdateProfile user) ;;!
    RecordEvent (MkEvent (Some userID) "user.update_profile" "user" (Some userID)
      [("fields", String.concat "," (profileFields inp))] (up_IPAddress inp) now) ;;!
    sret user).

(** *** admin_user_service.go *)

(** [supabase.SetBanned] and [DeleteUser]: outside the database, may fail. *)
Definition provider_call (op : string) (c : ProviderCall) : S unit :=
  exec op (fun d => (with_provider d (it_provider d ++ [c]), tt)).

Definition ListUsers (limit : Z) (cursor : uuid) : S (list User) :=
  let limit := if (limit <=? 0) || (200 <? limit) then 50 else limit in
  read "list users" (pg_ListUsers limit cursor).

Definition SetStatus (actor : Principal) (targetID : uuid) (status ip : string) (now : Time) : S User :=
  if negb (String.eqb status "active") && negb (String.eqb status "disabled") then
    fail (FieldErr "status" "status must be one of active|disabled")
  else if bool_decide (targetID = p_UserID actor) then fail ErrSelfLockout
  else
    target <-! found ErrUserNotFound "scan user" (pg_UserByID targetID) ;;
    let banned := String.eqb status "disabled" in
    bind (attempt (provider_call "set banned" (SetBanned (u_AuthSubject target) banned))) (fun r =>
    match r with
    | Error _ => fail ErrUpstreamAuth
    | Ok _ =>
        let action := if banned then "admin.user_disabled" else "admin.user_enabled" in
        unit_of_work (
          dbcall "update user status" (pg_UpdateStatus targetID status) ;;!
          RecordEvent (MkEvent (Some (p_UserID actor)) action "user" (Some targetID)
            [("target_user_id", Uuid.to_string targetID); ("status", status)] ip now)) ;;!
        sret (set_status status target)
    end).

Definition SetRole (actor : Principal) (targetID : uuid) (role ip : string) (now : Time) : S User :=
  if negb (String.eqb role "user") && negb (String.eqb role "admin") then fail (FieldErr "role" "role must be one of user|admin")
  else if bool_decide (targetID = p_UserID actor) then fail ErrSelfLockout
  else
    target <-! found ErrUserNotFound "scan user" (pg_UserByID targetID) ;;
    unit_of_work (
      dbcall "update user role" (pg_UpdateRole targetID role) ;;!
      RecordEvent (MkEvent (Some (p_UserID actor)) "admin.user_role_changed" "user" (Some targetID)
        [("target_user_id", Uuid.to_string targetID); ("role", role)] ip now)) ;;!
    sret (set_role role target).

Definition DeleteAccount (actor : Principal) (targetID : uuid) (selfService : bool) (ip : string) (now : Time) : S unit :=
  if negb selfService && bool_decide (targetID = p_UserID actor) then fail ErrSelfLockout
  else
    target <-! found ErrUserNotFound "scan user" (pg_UserByID targetID) ;;
    let action := if selfService then "user.deleted" else "admin.user_deleted" in
    unit_of_work (
      exec "enable immutable write" (fun d => (with_guc d true, tt)) ;;!
      RecordEvent (MkEvent (Some (p_UserID actor)) action "user" (Some targetID)
        [("target_user_id", Uuid.to_string targetID); ("self_service", if selfService then "true" else "false")] ip now) ;;!
      dbexec "delete user" (pg_DeleteUser targetID)) ;;!
    bind (attempt (provider_call "delete user" (DeleteUserCall (u_AuthSubject target)))) (fun _ => sret tt).

(** *** webhook_service.go *)

Definition webhookActions (eventType : string) : option string :=
  let ev s := String.eqb eventType s in
  if ev "login" || ev "signed_in" then Some "auth.login"
  else if ev "login_failed" then Some "auth.login_failed"
  else if ev "signup" || ev "user.created" then Some "auth.registered"
  else if ev "email_verified" then Some "auth.email_verified"
  else if ev "password_recovery_requested" then Some "auth.password_reset_requested"
  else if ev "password_recovery_completed" then Some "auth.password_reset_completed"
  else if ev "logout" || ev "signed_out" then Some "auth.logout"
  else None.

Definition Ingest (eventType subject ip : string) (now : Time) : S unit :=
  match webhookActions eventType with
  | None => sret tt
  | Some action =>
      bind (if String.eqb subject "" then ret (Ok (inr None)) else attempt (read "scan user" (pg_UserBySubject subject))) (fun r =>
      let userID := match r with Ok (inr (Some u)) => Some (u_ID u) | _ => None end in
      unit_of_work (RecordEvent (MkEvent userID action "auth" None [("event_type", eventType); ("auth_subject", subject)] ip now)))
  end.

(** *** audit.ReaderService.List *)

Definition ListEvents (f : Filter) : S (list RecordedEvent * option uuid) :=
  let f := with_limit f (effective_limit (f_Limit f)) in
  rows <-! read "list audit events" (pg_ListEvents f) ;;
  sret (page (f_Limit f) rows).

(** *** export_service.go *)

Definition exportTTL : Duration := 24 * Hour.
Definition exportAuditLimit : Z := 1000.

Definition exportKeyFor (targetID jobID : uuid) : string :=
  "file://exports/" +:+ Uuid.to_string targetID +:+ "/" +:+ Uuid.to_string jobID +:+ ".json.gz".

Definition assemble (target : User) (now : Time) : S ExportDoc :=
  keys <-! read "list api keys" (pg_KeysByUser (u_ID target)) ;;
  events <-! ListEvents (MkFilter None None (Some (u_ID target)) uuid_Nil exportAuditLimit) ;;
  sret (MkExportDoc now
    (u_ID target, u_Email target, u_Role target, u_Status target, u_DefaultLocationID target, u_Preferences target, u_CreatedAt target, u_LastLoginAt target)
    ((fun k => MkExportKey (k_ID k) (k_Name k) (k_KeyPrefix k) (k_Scopes k) (k_CreatedAt k) (k_RevokedAt k) (k_LastUsedAt k)) <$> keys)
    ((fun e => MkExportEvent (e_ID e) (e_Action e) (e_ResourceType e) (e_Details e) (e_CreatedAt e)) <$> events.1)).

(** The generation: document, file, completion.  [inl] of the result means that the
    generation failed, whatever the reason. *)
Definition generate (actor : Principal) (target : User) (job : ExportJob) (ip : string) (completedAt : Time) : S ExportJob :=
  data <-! assemble target completedAt ;;
  let objectKey := exportKeyFor (u_ID target) (j_ID job) in
  exec "write export" (fun d => (with_files d (<[objectKey := data]> (it_files d)), tt)) ;;!
  let expiresAt := Add completedAt exportTTL in
  unit_of_work (
    exec "complete export job" (pg_CompleteJob (j_ID job) objectKey expiresAt completedAt) ;;!
    RecordEvent (MkEvent (Some (p_UserID actor)) "user.export_completed" "export_job" (Some (j_ID job))
      [("target_user_id", Uuid.to_string (u_ID target))] ip completedAt)) ;;!
  sret (complete_job objectKey expiresAt completedAt job).

Definition RequestExport (actor : Principal) (targetID : uuid) (ip : string) (now completedAt : Time) : S ExportJob :=
  target <-! found ErrUserNotFound "scan user" (pg_UserByID targetID) ;;
  id <-! newID_ ;;
  let job := MkExportJob id workspaceID (p_UserID actor) (Some targetID) ExportPending "" None None "" now in
  let action := if bool_decide (targetID = p_UserID actor) then "user.export_requested" else "admin.export_requested" in
  unit_of_work (
    dbexec "insert export job" (pg_InsertJob job) ;;!
    RecordEvent (MkEvent (Some (p_UserID actor)) action "export_job" (Some id) [("target_user_id", Uuid.to_string targetID)] ip now)) ;;!
  bind (attempt (generate actor target job ip completedAt)) (fun r =>
  match r with
  | Ok (inr done) => sret done
  | _ =>
      bind (attempt (unit_of_work (exec "fail export job" (pg_FailJob id "export generation failed")))) (fun _ =>
      throw "generate export")
  end).

Definition DownloadExport (actor : Principal) (jobID : uuid) (now : Time) : S ExportDoc :=
  job <-! found ErrExportNotFound "scan export job" (pg_JobByID jobID) ;;
  let authorized := bool_decide (j_RequestedBy job = p_UserID actor) || bool_decide (j_TargetUserID job = Some (p_UserID actor)) || IsAdmin actor in
  if negb authorized then fail ErrExportNotFound
  else if negb (String.eqb (j_Status job) ExportCompleted) || String.eqb (j_ObjectKey job) "" then fail ErrExportNotFound
  else if Job_Expired job now then fail ErrExportExpired
  else
    bind (query "read export" (fun d => it_files d !! j_ObjectKey job)) (fun r =>
    match r with Some doc => sret doc | None => throw "read export" end).
End Service.

End Identity.
