(* ===== verification/IdentityProps.v ===== *)
(** * Identity: what every operation does to the tables

    The services of [Identity] as commands ([Op]), refined to a small set of table
    changes, each committed together with the audit event it owes.  The table
    invariant, the append-only audit trail and the finality of a revocation are
    proved on the changes and hold for any sequence of commands under any faults;
    the other theorems state what authentication accepts, what a created key is
    worth, and what disabling and deleting an account do. *)

From Stdlib Require Import ZArith NArith Lia Bool String.
From stdpp Require Import base list strings gmap relations.
From S2P Require Import Prelude GoTime Uuid GoStrings Effects Credential Identity.

Import Credential Identity.
Local Open Scope string_scope.
Local Open Scope list_scope.
Local Open Scope Z_scope.

Module IdentityProps.

(** ** Table changes *)

Inductive Change :=
| Provisioned (u : User)
| ProfileSet (u : User)
| LoggedIn (id : uuid) (at_ : Time)
| StatusSet (id : uuid) (status : string)
| RoleSet (id : uuid) (role : string)
| AccountDeleted (id : uuid)
| KeyCreated (k : APIKey)
| KeyRevoked (id : uuid) (at_ : Time)
| KeyUsed (id : uuid) (at_ : Time)
| ExportRequested (j : ExportJob)
| ExportDone (id : uuid) (objectKey : string) (expiresAt completedAt : Time)
| ExportBroken (id : uuid) (msg : string)
| AuthEvent (action : string)
| FileWritten (key : string) (doc : ExportDoc)
| ProviderTold (c : ProviderCall)
| RandomDrawn.

(** The tables after the change; [None] when a constraint refuses it. *)
Definition effect (c : Change) (d : IdTables) : option IdTables :=
  let done {E} (r : option (IdTables * (E + unit))) := match r with Some (d', inr _) => Some d' | _ => None end in
  match c with
  | Provisioned u => done (pg_InsertUser u d)
  | ProfileSet u => fst <$> pg_UpdateProfile u d
  | LoggedIn id t => Some (pg_TouchLastLogin id t d).1
  | StatusSet id s => done (Some (pg_UpdateStatus id s d))
  | RoleSet id r => done (Some (pg_UpdateRole id r d))
  | AccountDeleted id => done (pg_DeleteUser id d)
  | KeyCreated k => fst <$> pg_InsertKey k d
  | KeyRevoked id t => Some (pg_Revoke id t d).1
  | KeyUsed id t => Some (pg_TouchLastUsed id t d).1
  | ExportRequested j => done (pg_InsertJob j d)
  | ExportDone id key e t => Some (pg_CompleteJob id key e t d).1
  | ExportBroken id msg => Some (pg_FailJob id msg d).1
  | AuthEvent _ => Some d
  | FileWritten k doc => Some (with_files d (<[k := doc]> (it_files d)))
  | ProviderTold p => Some (with_provider d (it_provider d ++ [p]))
  | RandomDrawn => Some (with_draws d (Datatypes.S (it_draws d)))
  end.

(** The actions under which a change must appear in the audit trail, and the row it
    must name; nothing for time stamps, files and a failed export. *)
Definition owed (c : Change) : list string :=
  match c with
  | Provisioned _ => ["user.provisioned"]
  | ProfileSet _ => ["user.update_profile"]
  | StatusSet _ s => [if String.eqb s "disabled" then "admin.user_disabled" else "admin.user_enabled"]
  | RoleSet _ _ => ["admin.user_role_changed"]
  | AccountDeleted _ => ["user.deleted"; "admin.user_deleted"]
  | KeyCreated _ => ["apikey.create"]
  | KeyRevoked _ _ => ["apikey.revoke"]
  | ExportRequested _ => ["user.export_requested"; "admin.export_requested"]
  | ExportDone _ _ _ _ => ["user.export_completed"]
  | AuthEvent a => [a]
  | _ => []
  end.

Definition subject_of (c : Change) : option uuid :=
  match c with
  | Provisioned u | ProfileSet u => Some (u_ID u)
  | StatusSet id _ | RoleSet id _ | AccountDeleted id | KeyRevoked id _ | ExportDone id _ _ _ => Some id
  | KeyCreated k => Some (k_ID k)
  | ExportRequested j => Some (j_ID j)
  | _ => None
  end.

Definition recorded (id : uuid) (e : Event) (d : IdTables) : option IdTables := fst <$> pg_InsertEvent id e d.

(** A change and its event; the deletion of an account is recorded before it. *)
Definition commit (c : Change) (id : uuid) (e : Event) (d : IdTables) : option IdTables :=
  match c with
  | AccountDeleted _ => recorded id e (with_guc d true) ≫= effect c
  | _ => effect c d ≫= recorded id e
  end.

(** One change; [may] are the accounts that may be deleted. *)
Inductive step (may : uuid -> Prop) : IdTables -> IdTables -> Prop :=
| step_quiet c d d' : owed c = [] -> effect c d = Some d' -> step may d d'
| step_audited c id e d d' : (forall t, c = AccountDeleted t -> may t) ->
    ev_Action e ∈ owed c -> ev_ResourceID e = subject_of c -> commit c id e d = Some d' -> step may d d'
| step_close d : step may d (with_guc d false).

(** ** Commands *)

Inductive Op :=
| OpCreateKey (p : Principal) (inp : CreateKeyInput) (now : Time)
| OpRevokeKey (userID keyID : uuid) (ip : string) (now : Time)
| OpAuthenticateAPIKey (rawKey : string) (now : Time)
| OpAuthenticate (rawToken : string) (now : Time)
| OpUpdateMe (userID : uuid) (inp : UpdateProfileInput) (now : Time)
| OpSetStatus (actor : Principal) (targetID : uuid) (status ip : string) (now : Time)
| OpSetRole (actor : Principal) (targetID : uuid) (role ip : string) (now : Time)
| OpDeleteAccount (actor : Principal) (targetID : uuid) (selfService : bool) (ip : string) (now : Time)
| OpIngest (eventType subject ip : string) (now : Time)
| OpRequestExport (actor : Principal) (targetID : uuid) (ip : string) (now completedAt : Time)
| OpDownloadExport (actor : Principal) (jobID : uuid) (now : Time)
| OpGetMe (userID : uuid)
| OpListKeys (userID : uuid)
| OpListUsers (limit : Z) (cursor : uuid)
| OpListEvents (f : Filter).

(** Rows found by id. *)
Lemma find_inv {A} (p : A -> bool) l x : List.find p l = Some x -> x ∈ l /\ p x = true.
Proof. intros E%List.find_some. now rewrite list_elem_of_In. Qed.

Lemma user_by_id id d u : pg_UserByID id d = Some u -> u ∈ it_users d /\ u_ID u = id.
Proof. intros [Hu B]%find_inv. now apply bool_decide_eq_true in B. Qed.

Section Runs.
Context `{Env} `{Crypto} `{Random} `{TokenVerifier} (workspaceID : uuid).

Definition outcome {A} (m : M IdTables A) (w : World IdTables) : World IdTables := (m w).1.

(** The world after a command, whatever it answered. *)
Definition run (o : Op) : World IdTables -> World IdTables :=
  match o with
  | OpCreateKey p inp now => outcome (CreateKey p inp now)
  | OpRevokeKey u k ip now => outcome (RevokeKey u k ip now)
  | OpAuthenticateAPIKey raw now => outcome (AuthenticateAPIKey raw now)
  | OpAuthenticate raw now => outcome (Authenticate workspaceID raw now)
  | OpUpdateMe u inp now => outcome (UpdateMe u inp now)
  | OpSetStatus a t s ip now => outcome (SetStatus a t s ip now)
  | OpSetRole a t r ip now => outcome (SetRole a t r ip now)
  | OpDeleteAccount a t self ip now => outcome (DeleteAccount a t self ip now)
  | OpIngest ev sub ip now => outcome (Ingest ev sub ip now)
  | OpRequestExport a t ip now c => outcome (RequestExport workspaceID a t ip now c)
  | OpDownloadExport a j now => outcome (DownloadExport a j now)
  | OpGetMe u => outcome (GetMe u)
  | OpListKeys u => outcome (ListKeys u)
  | OpListUsers l c => outcome (ListUsers l c)
  | OpListEvents f => outcome (ListEvents f)
  end.

Definition runs (ops : list Op) (w : World IdTables) : World IdTables := foldl (fun w o => run o w) w ops.

(** ** Inversions of the statements *)

Lemma exec_done op f w w' a : exec op f w = (w', Ok (inr a)) -> db w' = (f (db w)).1.
Proof. unfold exec, dbcall. destruct (fault _); [discriminate|]. destruct (f (db w)). now intros [= <- _]. Qed.

Lemma insert_done op f w w' a : insert op f w = (w', Ok (inr a)) -> fst <$> f (db w) = Some (db w').
Proof. unfold insert, dbexec. destruct (fault _); [discriminate|]. destruct (f (db w)) as [[d' u]|]; [|discriminate]. now intros [= <- _]. Qed.

Lemma found_done {A} e op (f : IdTables -> option A) w w' a : found e op f w = (w', Ok (inr a)) -> f (db w) = Some a /\ db w' = db w.
Proof. unfold found, query, dbcall. destruct (fault _); [discriminate|]. destruct (f (db w)); [|discriminate]. now intros [= <- ->]. Qed.

Lemma read_done {A} op (f : IdTables -> A) w w' a : read op f w = (w', Ok (inr a)) -> f (db w) = a /\ db w' = db w.
Proof. unfold read, query, dbcall. destruct (fault _); [discriminate|]. now intros [= <- ->]. Qed.

Lemma dbexec_done {A} op (f : IdTables -> option (IdTables * (IdentityError + A))) w w' a :
  dbexec op f w = (w', Ok (inr a)) -> f (db w) = Some (db w', inr a).
Proof. unfold dbexec. destruct (fault _); [discriminate|]. destruct (f (db w)) as [[d' r]|]; [|discriminate]. now intros [= <- ->]. Qed.

Lemma dbcall_done {A} op (f : IdTables -> IdTables * (IdentityError + A)) w w' a :
  dbcall op f w = (w', Ok (inr a)) -> f (db w) = (db w', inr a).
Proof. unfold dbcall. destruct (fault _); [discriminate|]. destruct (f (db w)) as [d' r]. now intros [= <- ->]. Qed.

Lemma event_done e w w' a : RecordEvent e w = (w', Ok (inr a)) -> exists id, recorded id e (db w) = Some (db w').
Proof.
  unfold RecordEvent, newID_. intros (w1 & id & E1 & E2)%bindE_ok. apply insert_done in E2. exists id.
  revert E1. unfold bind, fresh, sret, ret. intros [= <- _]. exact E2.
Qed.

Lemma sret_done {A} (x a : A) (w w' : World IdTables) : sret x w = (w', Ok (inr a)) -> x = a /\ w' = w.
Proof. now intros [= <- <-]. Qed.

(** A unit of work ends with what its body committed, or with the tables it began with. *)
Lemma uow_inv {A} (m : Identity.S A) w :
  (exists w1 a, m (MkWorld (db w) (Datatypes.S (tick w)) (nids w)) = (w1, Ok (inr a)) /\
     db (unit_of_work m w).1 = with_guc (db w1) false /\ (unit_of_work m w).2 = Ok (inr a)) \/
  (db (unit_of_work m w).1 = db w /\ forall a, (unit_of_work m w).2 <> Ok (inr a)).
Proof.
  destruct (tx_runE_inv (a <-! m ;; bind (local (fun d => (with_guc d false, tt))) (fun _ => sret a)) w)
    as [(w1 & a & E & Ed & Er)|X]; [left|right; exact X].
  apply bindE_ok in E as (w2 & a' & E & E2). revert E2. unfold bind, local, sret, ret. intros [= <- <-]. eauto 8.
Qed.

Lemma uow_done {A} (m : Identity.S A) w w' a : unit_of_work m w = (w', Ok (inr a)) ->
  exists w1, m (MkWorld (db w) (Datatypes.S (tick w)) (nids w)) = (w1, Ok (inr a)) /\ db w' = with_guc (db w1) false.
Proof.
  intros E. destruct (uow_inv m w) as [(w1 & a' & E1 & Ed & Er)|[_ X]]; rewrite E in *; cbn in *; [|now destruct (X a)].
  injection Er as <-. eauto.
Qed.

(** ** Every command is a sequence of changes *)

Section Evolves.
Context (may : uuid -> Prop) (d0 : IdTables).
Notation kept := (preserves (rtc (step may) d0)).

Lemma kept_query {A} op (f : IdTables -> A) : kept (query op f).
Proof. apply preserves_query. Qed.

Lemma kept_found {A} e op (f : IdTables -> option A) : kept (found e op f).
Proof. apply preserves_query. Qed.

Lemma kept_read {A} op (f : IdTables -> A) : kept (read op f).
Proof. apply preserves_query. Qed.

Lemma kept_quiet c op f : owed c = [] -> (forall d, effect c d = Some (f d).1) -> kept (exec op f).
Proof.
  intros O Ef. unfold exec. apply preserves_dbcall. intros d Hd. specialize (Ef d). destruct (f d) as [d' u]. cbn in *.
  eapply rtc_r; [exact Hd|]. econstructor; eassumption.
Qed.

Lemma kept_draw op n : kept (draw op n).
Proof. unfold draw. apply preserves_dbcall. intros d Hd. eapply rtc_r; [exact Hd|]. now apply (step_quiet may RandomDrawn). Qed.

Lemma kept_newID : kept newID_.
Proof. apply preserves_bind; [apply preserves_fresh|]. intros. apply preserves_ret. Qed.

(** A unit of work whose body, when it succeeds, is one change. *)
Lemma kept_uow {A} (m : Identity.S A) :
  (forall w w1 a, m w = (w1, Ok (inr a)) -> rtc (step may) (db w) (db w1)) -> kept (unit_of_work m).
Proof.
  intros Hm w Hw. destruct (uow_inv m w) as [(w1 & a & E & Ed & _)|[Ed _]]; rewrite Ed; [|exact Hw].
  apply Hm in E. cbn in E. eapply rtc_r; [etrans; [exact Hw|exact E]|]. constructor.
Qed.
End Evolves.

#[local] Hint Resolve kept_query kept_found kept_read kept_draw kept_newID : fiq.

(** Passes the statements that write nothing. *)
Ltac walk := repeat (apply preserves_bindE; [solve [auto with fiq]|intros ?]).

(** Peels the statements of a body that succeeded. *)
Ltac peel E :=
  lazymatch type of E with
  | bindE _ _ _ = _ => let w := fresh "w" in let a := fresh "a" in let E1 := fresh "E" in
      apply bindE_ok in E as (w & a & E1 & E); peel E1; peel E
  | exec _ _ _ = _ => apply exec_done in E
  | insert _ _ _ = _ => apply insert_done in E
  | found _ _ _ _ = _ => apply found_done in E as [? E]
  | read _ _ _ = _ => apply read_done in E as [? E]
  | dbexec _ _ _ = _ => apply dbexec_done in E
  | dbcall _ _ _ = _ => apply dbcall_done in E
  | RecordEvent _ _ = _ => let id := fresh "id" in apply event_done in E as [id E]
  | sret _ _ = _ => apply sret_done in E as [? ?]; subst
  | fail _ _ = _ => discriminate E
  | (if ?b then _ else _) _ = _ => let B := fresh "B" in destruct b eqn:B; peel E
  | _ => idtac
  end.

(** A body that made one change and recorded its event. *)
Lemma one_change may c id e d d1 d' : effect c d = Some d1 -> recorded id e d1 = Some d' ->
  ev_Action e ∈ owed c -> ev_ResourceID e = subject_of c -> (forall t, c <> AccountDeleted t) -> rtc (step may) d d'.
Proof.
  intros E1 E2 O R N. apply rtc_once. eapply (step_audited may c); [intros t ->; now destruct (N t)|exact O|exact R|].
  destruct c; try (cbn [commit]; rewrite E1; exact E2). now destruct (N id0).
Qed.

Lemma deletion may t id e d d1 d' u : recorded id e (with_guc d true) = Some d1 -> pg_DeleteUser t d1 = Some (d', inr u) ->
  ev_Action e ∈ owed (AccountDeleted t) -> ev_ResourceID e = Some t -> may t -> rtc (step may) d d'.
Proof. intros E1 E2 O R Y. eapply rtc_once, (step_audited may (AccountDeleted t)); [now intros ? [= <-]|exact O|exact R|]. cbn. rewrite E1. cbn. now rewrite E2. Qed.

Lemma CreateKey_kept may d0 p inp now : preserves (rtc (step may) d0) (CreateKey p inp now).
Proof.
  unfold CreateKey. destruct (_ || _); [apply preserves_ret|]. walk.
  apply preserves_bindE; [|intros; apply preserves_ret]. apply kept_uow. intros w w1 u E. peel E.
  eapply (one_change may (KeyCreated _)); [exact E0|exact E|now left|reflexivity|done].
Qed.

Lemma RevokeKey_kept may d0 u k ip now : preserves (rtc (step may) d0) (RevokeKey u k ip now).
Proof.
  unfold RevokeKey. apply kept_uow. intros w w1 a E. peel E. eapply (one_change may (KeyRevoked k now)); [|exact E|now left|reflexivity|done].
  cbn. now rewrite E1, E0.
Qed.

Lemma AuthenticateAPIKey_kept may d0 raw now : preserves (rtc (step may) d0) (AuthenticateAPIKey raw now).
Proof.
  unfold AuthenticateAPIKey. destruct (splitKey raw); [|apply preserves_ret]. walk. destruct (verifyKey _ _) as [|[]]; try apply preserves_ret.
  destruct (negb _); [apply preserves_ret|]. walk. destruct (negb _); [apply preserves_ret|].
  apply preserves_bind; [|intros; apply preserves_ret]. apply preserves_attempt, kept_uow. intros w w1 [] E. peel E.
  apply rtc_once, (step_quiet may (KeyUsed (k_ID a) now)); [done|]. now rewrite E.
Qed.

Lemma resolve_kept may d0 c now : preserves (rtc (step may) d0) (resolveOrProvision workspaceID c now).
Proof.
  unfold resolveOrProvision. walk. destruct a; [apply preserves_ret|]. walk.
  apply preserves_bind; [|intros [[]|]; auto with fiq; apply preserves_ret]. apply kept_uow. intros w w1 u E. peel E.
  match type of E0 with pg_InsertUser ?u _ = _ => eapply (one_change may (Provisioned u)) end; [|exact E|now left|reflexivity|done].
  cbn [effect]. now rewrite E0.
Qed.

Lemma Authenticate_kept may d0 raw now : preserves (rtc (step may) d0) (Authenticate workspaceID raw now).
Proof.
  unfold Authenticate. destruct (Verify now raw); [apply preserves_ret|]. apply preserves_bindE; [apply resolve_kept|]. intros u.
  destruct (negb _); [apply preserves_ret|]. apply preserves_bindE; [|intros; apply preserves_ret]. apply kept_uow. intros w w1 a E. peel E.
  apply rtc_once, (step_quiet may (LoggedIn (u_ID u) now)); [done|]. now rewrite E.
Qed.

Lemma UpdateMe_kept may d0 u inp now : preserves (rtc (step may) d0) (UpdateMe u inp now).
Proof.
  unfold UpdateMe. apply kept_uow. intros w w1 a E. peel E. rewrite E0 in E1.
  eapply (one_change may (ProfileSet _)); [exact E1|exact E2|now left| |done]. cbn. apply user_by_id in H3 as [_ ->]. reflexivity.
Qed.

Lemma kept_provider may d0 op c : preserves (rtc (step may) d0) (provider_call op c).
Proof. now apply (kept_quiet may d0 (ProviderTold c)). Qed.

Lemma SetStatus_kept may d0 a t s ip now : preserves (rtc (step may) d0) (SetStatus a t s ip now).
Proof.
  unfold SetStatus. destruct (_ && _); [apply preserves_ret|]. destruct (bool_decide _); [apply preserves_ret|]. walk.
  apply preserves_bind; [apply preserves_attempt, kept_provider|]. intros [r|e]; [|apply preserves_ret].
  apply preserves_bindE; [|intros; apply preserves_ret]. apply kept_uow. intros w w1 u E. peel E.
  eapply (one_change may (StatusSet t s)); [cbn [effect]; now rewrite E0|exact E|now left|reflexivity|done].
Qed.

Lemma SetRole_kept may d0 a t r ip now : preserves (rtc (step may) d0) (SetRole a t r ip now).
Proof.
  unfold SetRole. destruct (_ && _); [apply preserves_ret|]. destruct (bool_decide _); [apply preserves_ret|]. walk.
  apply preserves_bindE; [|intros; apply preserves_ret]. apply kept_uow. intros w w1 u E. peel E.
  eapply (one_change may (RoleSet t r)); [cbn [effect]; now rewrite E0|exact E|now left|reflexivity|done].
Qed.

Lemma DeleteAccount_kept (may : uuid -> Prop) d0 a t self ip now : may t -> preserves (rtc (step may) d0) (DeleteAccount a t self ip now).
Proof.
  intros Y. unfold DeleteAccount. destruct (_ && _); [apply preserves_ret|]. walk. apply preserves_bindE.
  - apply kept_uow. intros w w1 u E. peel E. rewrite E0 in E1. eapply deletion; [exact E1|exact E| |reflexivity|exact Y].
    cbn. destruct self; set_solver.
  - intros _. apply preserves_bind; [apply preserves_attempt, kept_provider|]. intros; apply preserves_ret.
Qed.

Lemma Ingest_kept may d0 ev sub ip now : preserves (rtc (step may) d0) (Ingest ev sub ip now).
Proof.
  unfold Ingest. destruct (webhookActions ev) as [action|]; [|apply preserves_ret]. apply preserves_bind.
  - destruct (String.eqb sub ""); [apply preserves_ret|]. apply preserves_attempt, kept_read.
  - intros r. apply kept_uow. intros w w1 u E. peel E. eapply (one_change may (AuthEvent action)); [reflexivity|exact E|now left|reflexivity|done].
Qed.

Lemma ListEvents_kept may d0 f : preserves (rtc (step may) d0) (ListEvents f).
Proof. unfold ListEvents. walk. apply preserves_ret. Qed.

Lemma generate_kept may d0 a t j ip c : preserves (rtc (step may) d0) (generate a t j ip c).
Proof.
  unfold generate, assemble. apply preserves_bindE; [apply preserves_bindE; [apply kept_read|]; intros ?; apply preserves_bindE; [apply ListEvents_kept|]; intros; apply preserves_ret|].
  intros doc. apply preserves_bindE; [now apply (kept_quiet may d0 (FileWritten (exportKeyFor (u_ID t) (j_ID j)) doc))|]. intros _.
  apply preserves_bindE; [|intros; apply preserves_ret]. apply kept_uow. intros w w1 u E. peel E.
  eapply (one_change may (ExportDone _ _ _ _)); [cbn [effect]; rewrite <- E0; reflexivity|exact E|now left|reflexivity|done].
Qed.

Lemma RequestExport_kept may d0 a t ip now c : preserves (rtc (step may) d0) (RequestExport workspaceID a t ip now c).
Proof.
  unfold RequestExport. walk. apply preserves_bindE.
  - apply kept_uow. intros w w1 u E. peel E.
    match type of E0 with pg_InsertJob ?j _ = _ => eapply (one_change may (ExportRequested j)) end; [cbn [effect]; now rewrite E0|exact E| |reflexivity|done].
    cbn. destruct (bool_decide _); set_solver.
  - intros _. apply preserves_bind; [apply preserves_attempt, generate_kept|]. intros r.
    assert (preserves (rtc (step may) d0) (bind (attempt (unit_of_work (exec "fail export job" (pg_FailJob a1 "export generation failed"))))
      (fun _ => throw (A := IdentityError + ExportJob) "generate export"))).
    { apply preserves_bind; [|intros; apply preserves_throw]. apply preserves_attempt, kept_uow. intros w w1 u E. peel E.
      apply rtc_once, (step_quiet may (ExportBroken a1 "export generation failed")); [done|]. now rewrite E. }
    destruct r as [[e|done]|e]; [assumption|apply preserves_ret|assumption].
Qed.

Lemma DownloadExport_kept may d0 a j now : preserves (rtc (step may) d0) (DownloadExport a j now).
Proof.
  unfold DownloadExport. walk. repeat (destruct (_ : bool); [apply preserves_ret|]).
  apply preserves_bind; [apply kept_query|]. intros [doc|]; [apply preserves_ret|apply preserves_throw].
Qed.

(** The accounts a command deletes. *)
Definition deletes (o : Op) (t : uuid) : Prop := match o with OpDeleteAccount _ u _ _ _ => u = t | _ => False end.

Lemma run_steps o w : rtc (step (deletes o)) (db w) (db (run o w)).
Proof.
  assert (G : forall A (m : M IdTables A), preserves (rtc (step (deletes o)) (db w)) m -> rtc (step (deletes o)) (db w) (db (outcome m w))).
  { intros A m Hm. apply Hm. reflexivity. }
  destruct o; cbn [run]; apply G; unfold GetMe, ListKeys, ListUsers;
    auto using CreateKey_kept, RevokeKey_kept, AuthenticateAPIKey_kept, Authenticate_kept, UpdateMe_kept, SetStatus_kept, SetRole_kept,
      Ingest_kept, RequestExport_kept, DownloadExport_kept, kept_found, kept_read, ListEvents_kept.
  now apply DeleteAccount_kept.
Qed.

Lemma step_mono (may may' : uuid -> Prop) : (forall t, may t -> may' t) -> forall d d', step may d d' -> step may' d d'.
Proof. intros Hm d d' [c ? ? O E|c ? ? ? ? Y O R E|]; [eapply step_quiet|eapply step_audited|apply step_close]; eauto. Qed.

Definition deleted_by (ops : list Op) (t : uuid) : Prop := exists o, o ∈ ops /\ deletes o t.

Lemma runs_steps ops w : rtc (step (deleted_by ops)) (db w) (db (runs ops w)).
Proof.
  revert w. induction ops as [|o ops IH]; intros w; [reflexivity|]. cbn [runs foldl]. etrans.
  - eapply rtc_subrel; [|apply run_steps]. intros d d'. apply step_mono. intros t D. exists o. split; [now left|exact D].
  - eapply rtc_subrel; [|apply IH]. intros d d'. apply step_mono. intros t (o' & Ho & D). exists o'. split; [now right|exact D].
Qed.
End Runs.

(** ** The table invariant *)

Definition pending_target (j : ExportJob) : option uuid :=
  if String.eqb (j_Status j) ExportPending then j_TargetUserID j else None.

Definition users_ok (us : list User) : Prop :=
  NoDup (u_ID <$> us) /\ NoDup (u_AuthSubject <$> us) /\ NoDup (u_Email <$> us).

Definition keys_ok (ids : list uuid) (ks : list APIKey) : Prop :=
  NoDup (k_ID <$> ks) /\ NoDup (k_KeyPrefix <$> ks) /\
  Forall (fun k => k_UserID k ∈ ids /\ 0 < k_RateLimitPerMin k) ks.

Definition jobs_ok (ids : list uuid) (js : list ExportJob) : Prop :=
  NoDup (j_ID <$> js) /\ NoDup (omap pending_target js) /\
  Forall (fun j => j_RequestedBy j ∈ ids /\ (forall t, j_TargetUserID j = Some t -> t ∈ ids) /\
                   j_Status j ∈ [ExportPending; ExportCompleted; ExportFailed]) js.

Definition audit_ok (ids : list uuid) (es : list RecordedEvent) : Prop :=
  NoDup (e_ID <$> es) /\ Forall (fun e => forall u, e_UserID e = Some u -> u ∈ ids) es.

Definition id_ok (d : IdTables) : Prop :=
  users_ok (it_users d) /\ keys_ok (u_ID <$> it_users d) (it_keys d) /\
  jobs_ok (u_ID <$> it_users d) (it_jobs d) /\ audit_ok (u_ID <$> it_users d) (it_audit d).

(** An update of rows that keeps a column. *)
Lemma column_kept {A B} (col : A -> B) (p : A -> bool) (f : A -> A) (l : list A) :
  (forall x, col (f x) = col x) -> col <$> ((fun x => if p x then f x else x) <$> l) = col <$> l.
Proof. intros Hf. rewrite <- list_fmap_compose. apply list_fmap_ext. intros i x _. cbn. destruct (p x); auto. Qed.

Lemma Forall_kept {A} (P : A -> Prop) (p : A -> bool) (f : A -> A) (l : list A) :
  (forall x, P x -> P (f x)) -> Forall P l -> Forall P ((fun x => if p x then f x else x) <$> l).
Proof. intros Hf. rewrite Forall_fmap. intros F. eapply Forall_impl; [exact F|]. intros x Hx. cbn. destruct (p x); auto. Qed.

Lemma column_filter {A B} (col : A -> B) (p : A -> bool) (l : list A) : col <$> List.filter p l `sublist_of` col <$> l.
Proof. induction l as [|x l IH]; cbn; [constructor|]. destruct (p x); now constructor. Qed.

Lemma Forall_lfilter {A} (P Q : A -> Prop) (p : A -> bool) l : Forall P l -> (forall x, P x -> p x = true -> Q x) -> Forall Q (List.filter p l).
Proof. rewrite !Forall_forall. intros F PQ x. rewrite list_elem_of_In, List.filter_In, <- list_elem_of_In. intros [Hx Hp]. auto. Qed.

Lemma existsb_false {A} (p : A -> bool) l : existsb p l = false -> forall x, x ∈ l -> p x = false.
Proof. intros E x Hx. destruct (p x) eqn:P; [|reflexivity]. rewrite <- E. symmetry. apply existsb_exists. exists x. now rewrite <- list_elem_of_In. Qed.

(** A row whose column none has yet. *)
Lemma column_fresh {A B} (col : A -> B) (l : list A) (x : A) : NoDup (col <$> l) -> (forall y, y ∈ l -> col y <> col x) -> NoDup (col <$> (l ++ [x])).
Proof.
  intros ND F. rewrite fmap_app. apply NoDup_app. split; [exact ND|]. split; [|apply NoDup_singleton].
  intros b (y & -> & Hy)%list_elem_of_fmap. cbn. rewrite list_elem_of_singleton. auto.
Qed.

Lemma user_exists_ids d id : user_exists d id = true <-> id ∈ u_ID <$> it_users d.
Proof.
  unfold user_exists. rewrite existsb_exists, list_elem_of_fmap. setoid_rewrite <- list_elem_of_In. setoid_rewrite bool_decide_eq_true.
  split; intros (u & X & Y); eauto.
Qed.

Lemma ids_left (id x : uuid) us : x ∈ u_ID <$> us -> x <> id -> x ∈ u_ID <$> List.filter (fun u => negb (bool_decide (u_ID u = id))) us.
Proof.
  intros (u & -> & Hu)%list_elem_of_fmap N. apply list_elem_of_fmap. exists u. split; [reflexivity|].
  rewrite list_elem_of_In, List.filter_In, <- list_elem_of_In. split; [exact Hu|]. now rewrite bool_decide_false.
Qed.

Lemma clear_ref_some id r x : clear_ref id r = Some x -> r = Some x /\ x <> id.
Proof. unfold clear_ref. case_bool_decide as E; [discriminate|]. intros ->. split; [reflexivity|]. now intros ->. Qed.

(** *** Each change keeps it *)

Lemma insert_user_ok u d d' : id_ok d -> pg_InsertUser u d = Some (d', inr tt) -> id_ok d'.
Proof.
  intros ((N1 & N2 & N3) & (K1 & K2 & K3) & (J1 & J2 & J3) & A1 & A2). unfold pg_InsertUser. destruct (existsb _ _) eqn:X; [discriminate|].
  intros [= <-]. assert (F : forall x, x ∈ it_users d -> u_ID x <> u_ID u /\ u_AuthSubject x <> u_AuthSubject u /\ u_Email x <> u_Email u).
  { intros x Hx. pose proof (existsb_false _ _ X x Hx) as B. rewrite !orb_false_iff, bool_decide_eq_false, !String.eqb_neq in B. tauto. }
  assert (I : forall x, x ∈ u_ID <$> it_users d -> x ∈ u_ID <$> (it_users d ++ [u])) by (intros x; rewrite fmap_app; set_solver).
  repeat split; cbn; try assumption; try (apply column_fresh; [assumption|intros; now apply F]).
  - eapply Forall_impl; [exact K3|]. intros k [? ?]. auto.
  - eapply Forall_impl; [exact J3|]. intros j (? & ? & ?). split_and!; eauto.
  - eapply Forall_impl; [exact A2|]. cbn. eauto.
Qed.

(** An update that keeps ids, subjects and addresses of the users. *)
Lemma users_updated_ok id f d : (forall u, u_ID (f u) = u_ID u /\ u_AuthSubject (f u) = u_AuthSubject u /\ u_Email (f u) = u_Email u) ->
  id_ok d -> id_ok (with_users d (on_user id f (it_users d))).
Proof.
  intros Hf. unfold id_ok, users_ok, on_user. cbn. rewrite !(column_kept _ _ f) by (intros u; now destruct (Hf u) as (? & ? & ?)). tauto.
Qed.

Lemma keys_updated_ok id f d :
  (forall k, k_ID (f k) = k_ID k /\ k_KeyPrefix (f k) = k_KeyPrefix k /\ k_UserID (f k) = k_UserID k /\ k_RateLimitPerMin (f k) = k_RateLimitPerMin k) ->
  id_ok d -> id_ok (with_keys d (on_key id f (it_keys d))).
Proof.
  intros Hf (U & (K1 & K2 & K3) & J & A). unfold id_ok, keys_ok, on_key. cbn.
  rewrite !(column_kept _ _ f) by (intros k; now destruct (Hf k) as (? & ? & ? & ?)). repeat split; try apply U; try apply J; try apply A; try assumption.
  apply Forall_kept; [|exact K3]. intros k. destruct (Hf k) as (_ & _ & -> & ->). tauto.
Qed.

Lemma insert_key_ok k d d' u : id_ok d -> pg_InsertKey k d = Some (d', u) -> id_ok d'.
Proof.
  intros (U & (K1 & K2 & K3) & J & A). unfold pg_InsertKey. destruct (_ || _) eqn:X; [discriminate|]. intros [= <-].
  rewrite !orb_false_iff, negb_false_iff, user_exists_ids, Z.leb_gt in X. destruct X as [[X UE] R].
  assert (F : forall x, x ∈ it_keys d -> k_ID x <> k_ID k /\ k_KeyPrefix x <> k_KeyPrefix k).
  { intros x Hx. pose proof (existsb_false _ _ X x Hx) as B. rewrite !orb_false_iff, bool_decide_eq_false, String.eqb_neq in B. tauto. }
  split; [exact U|]. split; [|split; [exact J|exact A]]. repeat split; cbn; try (apply column_fresh; [assumption|intros; now apply F]).
  apply Forall_app. split; [exact K3|]. auto.
Qed.

Lemma pending_for_target j x t : j_Status x = ExportPending -> j_TargetUserID x = Some t ->
  existsb (pending_for (Some t)) j = false -> t ∉ omap pending_target j.
Proof.
  intros S T X (y & Hy & P)%list_elem_of_omap. pose proof (existsb_false _ _ X y Hy) as B. revert P. unfold pending_target, pending_for in *.
  destruct (String.eqb _ _); [|discriminate]. intros E. now rewrite bool_decide_true in B.
Qed.

Lemma insert_job_ok j d d' : id_ok d -> pg_InsertJob j d = Some (d', inr tt) -> id_ok d'.
Proof.
  intros (U & K & (J1 & J2 & J3) & A). unfold pg_InsertJob. destruct (_ || _) eqn:X; [discriminate|].
  destruct (_ && _ && _) eqn:Y; [|discriminate]. intros [= <-]. rewrite orb_false_iff in X. rewrite !andb_true_iff, user_exists_ids in Y.
  destruct X as [X1 X2], Y as [[Y1 Y2] Y3]. split; [exact U|]. split; [exact K|]. split; [|exact A]. repeat split; cbn.
  - apply column_fresh; [exact J1|]. intros y Hy. apply (bool_decide_eq_false (j_ID y = j_ID j)), (existsb_false _ _ X1 y Hy).
  - rewrite omap_app. apply NoDup_app. split; [exact J2|]. assert (P : pending_target j = None \/ exists t, pending_target j = Some t /\ t ∉ omap pending_target (it_jobs d)).
    { unfold pending_target at 1 2. destruct (String.eqb_spec (j_Status j) ExportPending) as [S|S]; [|now left].
      destruct (j_TargetUserID j) as [t|] eqn:T; [right; exists t|now left]. split; [reflexivity|]. eapply pending_for_target; eauto. }
    cbn. destruct P as [-> | (t & -> & Ht)]; (split; [set_solver|]); [constructor|apply NoDup_singleton].
  - apply Forall_app. split; [exact J3|]. constructor; [|constructor]. split; [exact Y1|]. split.
    + intros t E. rewrite E in Y2. now apply user_exists_ids.
    + apply existsb_exists in Y3 as (s & Hs & ->%String.eqb_eq). now apply list_elem_of_In.
Qed.

(** A job that leaves the pending state. *)
Lemma settle_pending id f js : (forall j, pending_target (f j) = None) ->
  omap pending_target ((fun j => if bool_decide (j_ID j = id) then f j else j) <$> js) `sublist_of` omap pending_target js.
Proof.
  intros Hf. induction js as [|j js IH]; cbn; [constructor|]. case_bool_decide.
  - rewrite Hf. destruct (pending_target j); [now constructor|exact IH].
  - destruct (pending_target j); [now constructor|exact IH].
Qed.

Lemma settle_job_ok id f d :
  (forall j, j_ID (f j) = j_ID j /\ j_RequestedBy (f j) = j_RequestedBy j /\ j_TargetUserID (f j) = j_TargetUserID j /\
             j_Status (f j) ∈ [ExportCompleted; ExportFailed]) ->
  id_ok d -> id_ok (with_jobs d (on_job id f (it_jobs d))).
Proof.
  intros Hf (U & K & (J1 & J2 & J3) & A). split; [exact U|]. split; [exact K|]. split; [|exact A]. unfold on_job. repeat split; cbn.
  - rewrite (column_kept j_ID) by (intros j; now destruct (Hf j)). exact J1.
  - eapply sublist_NoDup; [exact J2|]. apply settle_pending. intros j. unfold pending_target. destruct (Hf j) as (_ & _ & _ & S).
    assert (S1 : j_Status (f j) = ExportCompleted \/ j_Status (f j) = ExportFailed) by set_solver. now destruct S1 as [-> | ->].
  - apply Forall_kept; [|exact J3]. intros j (? & ? & ?). destruct (Hf j) as (_ & -> & -> & S). split; [assumption|]. split; [assumption|]. set_solver.
Qed.

Lemma untarget_pending id js : omap pending_target (untarget id <$> js) `sublist_of` omap pending_target js.
Proof.
  induction js as [|j js IH]; cbn; [constructor|]. assert (P : pending_target (untarget id j) = None \/ pending_target (untarget id j) = pending_target j).
  { unfold pending_target. cbn. destruct (String.eqb _ _); [|auto]. unfold clear_ref. case_bool_decide; auto. }
  destruct P as [-> | ->]; destruct (pending_target j); auto; now constructor.
Qed.

Lemma delete_user_ok id d d' : id_ok d -> pg_DeleteUser id d = Some (d', inr tt) -> id_ok d'.
Proof.
  intros ((N1 & N2 & N3) & (K1 & K2 & K3) & (J1 & J2 & J3) & A1 & A2). unfold pg_DeleteUser. destruct (negb _); [discriminate|].
  destruct (_ && _); [discriminate|]. intros [= <-]. repeat split; cbn; try match goal with X : NoDup _ |- _ => solve [eapply sublist_NoDup; [exact X|apply column_filter]] end.
  - eapply Forall_lfilter; [exact K3|]. intros k [Hu Hr] B. rewrite negb_true_iff, bool_decide_eq_false in B. split; [now apply ids_left|exact Hr].
  - rewrite <- list_fmap_compose. eapply sublist_NoDup; [exact J1|]. apply (column_filter j_ID).
  - eapply sublist_NoDup; [exact J2|]. etrans; [apply untarget_pending|]. clear. induction (it_jobs d) as [|j js IH]; cbn; [constructor|].
    destruct (negb _); cbn; destruct (pending_target j); auto; now constructor.
  - apply Forall_fmap. eapply Forall_lfilter; [exact J3|]. intros j (Hr & Ht & Hs) B. rewrite negb_true_iff, bool_decide_eq_false in B.
    split; [now apply ids_left|]. split; [|exact Hs]. intros t [E N]%clear_ref_some. auto using ids_left.
  - rewrite <- list_fmap_compose. exact A1.
  - apply Forall_fmap. eapply Forall_impl; [exact A2|]. intros e He u [E N]%clear_ref_some. auto using ids_left.
Qed.

Lemma record_event_ok id e d d' : id_ok d -> recorded id e d = Some d' -> id_ok d'.
Proof.
  intros (U & K & J & A1 & A2). unfold recorded, pg_InsertEvent. destruct (_ || _) eqn:X; [discriminate|]. cbn. intros [= <-].
  rewrite orb_false_iff, negb_false_iff in X. destruct X as [X Y]. split; [exact U|]. split; [exact K|]. split; [exact J|]. split; cbn.
  - apply column_fresh; [exact A1|]. intros y Hy. apply (bool_decide_eq_false (e_ID y = id)), (existsb_false _ _ X y Hy).
  - apply Forall_app. split; [exact A2|]. constructor; [|constructor]. cbn. intros u E. rewrite E in Y. now apply user_exists_ids.
Qed.

Lemma effect_ok c d d' : id_ok d -> effect c d = Some d' -> id_ok d'.
Proof.
  intros Hd. destruct c; cbn; try (intros [= <-]; exact Hd).
  - destruct (pg_InsertUser u d) as [[d1 [|[]]]|] eqn:E; try discriminate. intros [= <-]. eapply insert_user_ok; eauto.
  - unfold pg_UpdateProfile. destruct (_ || _); [|discriminate]. intros [= <-]. now apply users_updated_ok.
  - intros [= <-]. now apply users_updated_ok.
  - unfold pg_UpdateStatus. destruct (user_exists d id); [|discriminate]. intros [= <-]. now apply users_updated_ok.
  - unfold pg_UpdateRole. destruct (user_exists d id); [|discriminate]. intros [= <-]. now apply users_updated_ok.
  - destruct (pg_DeleteUser id d) as [[d1 [|[]]]|] eqn:E; try discriminate. intros [= <-]. eapply delete_user_ok; eauto.
  - destruct (pg_InsertKey k d) as [[d1 u]|] eqn:E; [|discriminate]. intros [= <-]. eapply insert_key_ok; eauto.
  - intros [= <-]. apply keys_updated_ok; [|exact Hd]. intros k. unfold set_revoked. now destruct (k_RevokedAt k).
  - intros [= <-]. now apply keys_updated_ok.
  - destruct (pg_InsertJob j d) as [[d1 [|[]]]|] eqn:E; try discriminate. intros [= <-]. eapply insert_job_ok; eauto.
  - intros [= <-]. apply settle_job_ok; [|exact Hd]. intros j. cbn. split_and!; [done..|]. now left.
  - intros [= <-]. apply settle_job_ok; [|exact Hd]. intros j. cbn. split_and!; [done..|]. right. now left.
Qed.

(** A commit is the change followed by its record, or the reverse for a deletion. *)
Lemma commit_inv c id e d d' : commit c id e d = Some d' ->
  (exists d1, effect c d = Some d1 /\ recorded id e d1 = Some d' /\ forall t, c <> AccountDeleted t) \/
  (exists t d1, c = AccountDeleted t /\ recorded id e (with_guc d true) = Some d1 /\ effect c d1 = Some d').
Proof.
  unfold commit. destruct c; try (intros (d1 & E1 & E2)%bind_Some; left; exists d1; split_and!; eauto; discriminate).
  intros (d1 & E1 & E2)%bind_Some. right. eauto.
Qed.

Lemma step_ok may d d' : step may d d' -> id_ok d -> id_ok d'.
Proof.
  intros S Hd. destruct S as [c d d' _ E|c id e d d' _ _ _ E|]; [eapply effect_ok; eauto| |exact Hd].
  apply commit_inv in E as [(d1 & E1 & E2 & _)|(t & d1 & -> & E1 & E2)].
  - eapply record_event_ok; [eapply effect_ok|]; eauto.
  - eapply effect_ok; [|exact E2]. eapply record_event_ok; [|exact E1]. exact Hd.
Qed.

(** An invariant of every change holds after any commands. *)
Lemma steps_keep may (P : IdTables -> Prop) : (forall d d', step may d d' -> P d -> P d') -> forall d d', rtc (step may) d d' -> P d -> P d'.
Proof. intros HP d d' R. induction R; eauto. Qed.

(** ** The audit trail *)

(** An event as it was, or without its user once that account is gone. *)
Definition kept_event (may : uuid -> Prop) (e e' : RecordedEvent) : Prop :=
  e' = e \/ exists u, may u /\ e_UserID e = Some u /\ e' = anonymise u e.

Definition extends (may : uuid -> Prop) (es es' : list RecordedEvent) : Prop :=
  exists old new, es' = old ++ new /\ Forall2 (kept_event may) es old.

Lemma kept_event_trans may e e1 e2 : kept_event may e e1 -> kept_event may e1 e2 -> kept_event may e e2.
Proof.
  intros [-> | (u & Hu & E & ->)]; [auto|]. intros [-> | (v & _ & E' & _)]; [right; eauto|].
  exfalso. revert E'. cbn. unfold clear_ref. now rewrite E, bool_decide_true.
Qed.

Lemma Forall2_kept_trans may l1 l2 l3 : Forall2 (kept_event may) l1 l2 -> Forall2 (kept_event may) l2 l3 -> Forall2 (kept_event may) l1 l3.
Proof. intros F. revert l3. induction F; intros l3 G; inversion G; subst; constructor; eauto using kept_event_trans. Qed.

Lemma kept_refl may es : Forall2 (kept_event may) es es.
Proof. induction es; constructor; [now left|assumption]. Qed.

Lemma extends_trans may a b c : extends may a b -> extends may b c -> extends may a c.
Proof.
  intros (o1 & n1 & -> & F1) (o2 & n2 & -> & F2). apply Forall2_app_inv_l in F2 as (x & y & Fx & Fy & ->).
  exists x, (y ++ n2). split; [now rewrite <- app_assoc|]. eapply Forall2_kept_trans; eauto.
Qed.

Lemma anonymise_kept (may : uuid -> Prop) u es : may u -> Forall2 (kept_event may) es (anonymise u <$> es).
Proof.
  intros Hu. induction es as [|e es IH]; constructor; [|exact IH]. destruct (decide (e_UserID e = Some u)) as [E|E]; [right; eauto|left].
  destruct e as [i us a r ri de ip t]. unfold anonymise, clear_ref. cbn in *. now rewrite bool_decide_false.
Qed.

(** The cases of a change that was made. *)
Ltac effect_cases E :=
  cbn in E; unfold pg_InsertUser, pg_UpdateProfile, pg_UpdateStatus, pg_UpdateRole, pg_DeleteUser, pg_InsertKey, pg_InsertJob in E;
  repeat case_match; simplify_option_eq.

Lemma effect_audit c d d' : effect c d = Some d' ->
  it_audit d' = it_audit d \/ exists t, c = AccountDeleted t /\ it_audit d' = anonymise t <$> it_audit d.
Proof. intros E. destruct c; effect_cases E; eauto. Qed.

Lemma recorded_audit id e d d' : recorded id e d = Some d' -> exists r, it_audit d' = it_audit d ++ [r] /\ e_Action r = ev_Action e.
Proof. unfold recorded, pg_InsertEvent. destruct (_ || _); [discriminate|]. intros [= <-]. cbn. eauto. Qed.

Lemma step_extends may d d' : step may d d' -> extends may (it_audit d) (it_audit d').
Proof.
  intros S. assert (Q : forall es new, extends may es (es ++ new)) by (intros; do 2 eexists; split; [reflexivity|apply kept_refl]).
  destruct S as [c d d' O E|c id e d d' Y O R E|]; [| |exists (it_audit d), []; split; [symmetry; apply app_nil_r|apply kept_refl]].
  - apply effect_audit in E as [-> | (t & -> & _)]; [|discriminate O]. rewrite <- (app_nil_r (it_audit d)) at 2. apply Q.
  - apply commit_inv in E as [(d1 & E1 & (r & -> & _)%recorded_audit & N)|(t & d1 & -> & (r & E1 & _)%recorded_audit & E2)].
    + apply effect_audit in E1 as [-> | (t & -> & _)]; [apply Q|now destruct (N t)].
    + apply effect_audit in E2 as [-> | (u & [= ->] & ->)]; rewrite E1; [apply Q|]. rewrite fmap_app. do 2 eexists. split; [reflexivity|].
      apply anonymise_kept. now apply Y.
Qed.

(** ** Revocation *)

(** The row of a revoked key: its last use may move, nothing else. *)
Definition revoked_row (k : APIKey) (t : Time) (d : IdTables) : Prop :=
  exists k', k' ∈ it_keys d /\ k_ID k' = k_ID k /\ k_KeyPrefix k' = k_KeyPrefix k /\ k_UserID k' = k_UserID k /\ k_RevokedAt k' = Some t.

Lemma on_key_row k t id f d : (forall x, k_RevokedAt x = Some t ->
    k_ID (f x) = k_ID x /\ k_KeyPrefix (f x) = k_KeyPrefix x /\ k_UserID (f x) = k_UserID x /\ k_RevokedAt (f x) = Some t) ->
  revoked_row k t d -> revoked_row k t (with_keys d (on_key id f (it_keys d))).
Proof.
  intros Hf (x & Hx & E1 & E2 & E3 & E4). destruct (Hf x E4) as (F1 & F2 & F3 & F4).
  exists (if bool_decide (k_ID x = id) then f x else x). split.
  - unfold on_key. cbn. apply list_elem_of_fmap. eauto.
  - case_bool_decide; [rewrite F1, F2, F3|]; auto.
Qed.

Lemma effect_revoked k t c d d' : effect c d = Some d' -> (forall u, c = AccountDeleted u -> u <> k_UserID k) ->
  revoked_row k t d -> revoked_row k t d'.
Proof.
  intros E N R. destruct c; effect_cases E; try exact R.
  - destruct R as (x & Hx & E1 & E2 & E3 & E4). exists x. split; [|auto]. cbn. rewrite list_elem_of_In, List.filter_In, <- list_elem_of_In.
    split; [exact Hx|]. rewrite bool_decide_false; [reflexivity|]. intros <-. now apply (N (k_UserID x)).
  - destruct R as (x & Hx & R). exists x. split; [|exact R]. cbn. set_solver.
  - apply on_key_row; [|exact R]. intros x Ex. unfold set_revoked. now rewrite Ex.
  - apply on_key_row; [|exact R]. intros x Ex. now cbn.
Qed.

Lemma recorded_keys id e d d' : recorded id e d = Some d' -> it_keys d' = it_keys d.
Proof. unfold recorded, pg_InsertEvent. destruct (_ || _); [discriminate|]. now intros [= <-]. Qed.

Lemma step_revoked (may : uuid -> Prop) k t d d' : ~ may (k_UserID k) -> step may d d' -> revoked_row k t d -> revoked_row k t d'.
Proof.
  intros N S R. destruct S as [c d d' O E|c id e d d' Y O _ E|]; [| |exact R].
  - eapply effect_revoked; eauto. now intros u ->.
  - apply commit_inv in E as [(d1 & E1 & E2%recorded_keys & Nd)|(u & d1 & -> & E1%recorded_keys & E2)].
    + unfold revoked_row. rewrite E2. eapply effect_revoked; eauto. intros u ->. now destruct (Nd u).
    + eapply effect_revoked; eauto; [intros v [= <-] ->; apply N; auto|]. unfold revoked_row. now rewrite E1.
Qed.

(** A row is found by a unique column. *)
Lemma find_unique {A} (col : A -> string) (l : list A) x : NoDup (col <$> l) -> x ∈ l -> List.find (fun y => String.eqb (col y) (col x)) l = Some x.
Proof.
  induction l as [|y l IH]; cbn; intros ND Hx; [set_solver|]. apply NoDup_cons in ND as [N ND]. apply elem_of_cons in Hx as [-> | Hx].
  - now rewrite String.eqb_refl.
  - destruct (String.eqb_spec (col y) (col x)) as [E|E]; [|auto]. exfalso. apply N. rewrite E. now apply list_elem_of_fmap_2.
Qed.

(** ** Authentication *)

Section Authentication.
Context `{Env} `{Crypto} `{Random} `{TokenVerifier} (workspaceID : uuid).

(** The principal is the user's row in the database; a key adds its scopes. *)
Definition principal_of (u : User) (m : AuthMethod) (scopes : list string) : Principal :=
  MkPrincipal (u_ID u) (u_WorkspaceID u) (u_Email u) (u_Role u) m scopes.

Definition live_key (k : APIKey) (now : Time) : Prop :=
  k_RevokedAt k = None /\ forall e, k_ExpiresAt k = Some e -> now < e.

Lemma Usable_live k now : Usable k now = true <-> live_key k now.
Proof.
  unfold Usable, Revoked, Key_Expired, live_key, Before. rewrite andb_true_iff, !negb_true_iff, bool_decide_eq_false.
  destruct (k_RevokedAt k) eqn:R, (k_ExpiresAt k) eqn:X; rewrite ?negb_false_iff, ?Z.ltb_lt; split; intros [A B]; split; try done.
  all: try (now destruct A; eauto). all: try (intros e [= <-]; exact B). all: try (now apply B). all: try (now intros []).
Qed.

Lemma auth_key_inv raw now w w' p : AuthenticateAPIKey raw now w = (w', Ok (inr p)) ->
  exists k u, splitKey raw = Some (k_KeyPrefix k) /\ pg_KeyByPrefix (k_KeyPrefix k) (db w) = Some k /\
    verifyKey raw (k_KeyHash k) = inr true /\ live_key k now /\
    pg_UserByID (k_UserID k) (db w) = Some u /\ User_Active u = true /\ p = principal_of u AuthAPIKey (k_Scopes k).
Proof.
  unfold AuthenticateAPIKey. destruct (splitKey raw) as [prefix|] eqn:S; [|discriminate].
  intros (w1 & k & [Fk E1]%found_done & E)%bindE_ok. destruct (verifyKey raw (k_KeyHash k)) as [|[]] eqn:V; try discriminate E.
  destruct (Usable k now) eqn:L; [cbn [negb] in E|discriminate E]. apply bindE_ok in E as (w2 & u & [Fu E2]%found_done & E).
  destruct (User_Active u) eqn:Act; [cbn [negb] in E|discriminate E].
  apply bind_ok in E as (w3 & r & _ & [= _ <-]). pose proof (find_inv _ _ _ Fk) as [_ <-%String.eqb_eq].
  rewrite E1 in Fu. exists k, u. apply Usable_live in L. split_and!; auto.
Qed.

(** First use provisions an ordinary, active user under an id no row has. *)
Lemma provision_inv c now w w' u : resolveOrProvision workspaceID c now w = (w', Ok (inr u)) ->
  match pg_UserBySubject (c_Subject c) (db w) with
  | Some x => u = x
  | None => u_Role u = RoleUser /\ u_AuthSubject u = c_Subject c /\ u_Email u = c_Email c /\ u_ID u ∉ u_ID <$> it_users (db w)
  end.
Proof.
  unfold resolveOrProvision. intros (w1 & r & [Er Ed]%read_done & E)%bindE_ok. rewrite Er. destruct r as [x|].
  - now apply sret_done in E as [-> _].
  - apply bindE_ok in E as (w2 & id & E1 & E). assert (Ed2 : db w2 = db w) by (revert E1; unfold newID_, bind, fresh, sret, ret; intros [= <- _]; exact Ed).
    apply bind_ok in E as (w3 & r & E2 & E). destruct r as [e|[]].
    + destruct e; try discriminate E. apply found_done in E as [Fu _].
      destruct (uow_inv (dbexec "insert user" (pg_InsertUser (MkUser id workspaceID (c_Subject c) (c_Email c) RoleUser "active" None [] now now None)) ;;!
        RecordEvent (MkEvent (Some id) "user.provisioned" "user" (Some id) [("email", c_Email c); ("auth_subject", c_Subject c)] "" now)) w2)
        as [(w4 & a & _ & _ & X)|[X _]]; rewrite E2 in X; cbn in X; [discriminate X|]. rewrite X, Ed2, Er in Fu. discriminate Fu.
    + apply sret_done in E as [<- _]. apply uow_done in E2 as (w4 & E2 & _). apply bindE_ok in E2 as (w5 & a & E2%dbexec_done & _).
      cbn [db] in E2. rewrite Ed2 in E2. unfold pg_InsertUser in E2. destruct (existsb _ _) eqn:X; [discriminate E2|].
      split_and!; try reflexivity. intros (y & Ey & Hy)%list_elem_of_fmap. pose proof (existsb_false _ _ X y Hy) as B.
      rewrite !orb_false_iff, bool_decide_eq_false in B. cbn in *. destruct B as [[B _] _]. now apply B.
Qed.

Lemma auth_token_inv raw now w w' p : Authenticate workspaceID raw now w = (w', Ok (inr p)) ->
  exists c u, Verify now raw = inr c /\ User_Active u = true /\ p = principal_of u AuthJWT [] /\
    match pg_UserBySubject (c_Subject c) (db w) with
    | Some x => u = x
    | None => u_Role u = RoleUser /\ u_AuthSubject u = c_Subject c /\ u_Email u = c_Email c /\ u_ID u ∉ u_ID <$> it_users (db w)
    end.
Proof.
  unfold Authenticate. destruct (Verify now raw) as [e|c]; [discriminate|]. intros (w1 & u & E1%provision_inv & E)%bindE_ok.
  destruct (User_Active u) eqn:Act; [cbn [negb] in E|discriminate E]. apply bindE_ok in E as (w2 & a & _ & [<- _]%sret_done).
  exists c, u. auto.
Qed.

(** Note: no principal without a credential: an API key authenticates only when its
    text has the prefix of a stored key whose hash it matches, that key is neither
    revoked nor expired, and its owner is active; a bearer token only when the
    verifier accepts it, and its subject is an active user or one provisioned now
    with the ordinary role.  The role is always the database's, never the credential's. *)
Theorem authentication_sound (raw : string) (now : Time) (w w' : World IdTables) (p : Principal) :
  (AuthenticateAPIKey raw now w = (w', Ok (inr p)) ->
     exists k u, k ∈ it_keys (db w) /\ u ∈ it_users (db w) /\ splitKey raw = Some (k_KeyPrefix k) /\
       verifyKey raw (k_KeyHash k) = inr true /\ live_key k now /\ u_ID u = k_UserID k /\ u_Status u = "active" /\
       p = principal_of u AuthAPIKey (k_Scopes k)) /\
  (Authenticate workspaceID raw now w = (w', Ok (inr p)) ->
     exists c, Verify now raw = inr c /\
       ((exists u, u ∈ it_users (db w) /\ u_AuthSubject u = c_Subject c /\ u_Status u = "active" /\ p = principal_of u AuthJWT []) \/
        (pg_UserBySubject (c_Subject c) (db w) = None /\ p_Role p = RoleUser /\ p_Email p = c_Email c))).
Proof.
  split.
  - intros (k & u & S & Fk & V & L & Fu & Act & ->)%auth_key_inv. apply find_inv in Fk as [Hk _]. apply user_by_id in Fu as [Hu Eu].
    apply String.eqb_eq in Act. exists k, u. auto 9.
  - intros (c & u & V & Act & -> & M)%auth_token_inv. exists c. split; [exact V|]. apply String.eqb_eq in Act.
    destruct (pg_UserBySubject _ _) as [x|] eqn:F; [left|right].
    + subst x. apply find_inv in F as [Hu Es%String.eqb_eq]. eauto 6.
    + destruct M as (R & _ & Em & _). auto.
Qed.
End Authentication.

(** ** Any sequence of commands *)

Section Commands.
Context `{Env} `{Crypto} `{Random} `{TokenVerifier} (workspaceID : uuid).

(** C18: audit is mandatory: whatever commands run, and whatever statements fail on
    the way, the tables move only by changes that are committed together with the
    audit event they owe (the right action, naming the changed row); what may change
    without a record are login and last-use times, a failed export, files, the calls
    to the auth provider and the random source. *)
Theorem identity_audited (ops : list Op) (w : World IdTables) :
  rtc (step (deleted_by ops)) (db w) (db (runs workspaceID ops w)).
Proof. apply runs_steps. Qed.

(** C19: the table invariant survives every sequence of commands under every fault:
    ids, subjects, addresses and key prefixes stay unique, every key, export and
    audit event refers to an existing user, a user has at most one pending export,
    and export states and key rates stay in range. *)
Theorem identity_tables_ok (ops : list Op) (w : World IdTables) :
  id_ok (db w) -> id_ok (db (runs workspaceID ops w)).
Proof. apply (steps_keep (deleted_by ops) id_ok); [apply step_ok|apply runs_steps]. Qed.

(** Note: the audit trail is append-only: after any commands every earlier event is still
    there, in its place and unchanged, except that the user of an account which one of
    the commands deleted is cleared from it. *)
Theorem audit_append_only (ops : list Op) (w : World IdTables) :
  extends (deleted_by ops) (it_audit (db w)) (it_audit (db (runs workspaceID ops w))).
Proof.
  apply (steps_keep (deleted_by ops) (fun d => extends (deleted_by ops) (it_audit (db w)) (it_audit d))) with (d := db w).
  - intros d d' S E. eapply extends_trans; [exact E|]. now apply step_extends.
  - apply runs_steps.
  - exists (it_audit (db w)), []. split; [symmetry; apply app_nil_r|apply kept_refl].
Qed.

(** Note: a revocation is final: once a key is revoked, no command sequence that keeps
    its owner's account makes a text with that key's prefix authenticate again. *)
Theorem revocation_final (ops : list Op) (w w' : World IdTables) (k : APIKey) (t : Time) (raw : string) (now : Time) (p : Principal) :
  id_ok (db w) -> k ∈ it_keys (db w) -> k_RevokedAt k = Some t -> ~ deleted_by ops (k_UserID k) ->
  splitKey raw = Some (k_KeyPrefix k) ->
  AuthenticateAPIKey raw now (runs workspaceID ops w) <> (w', Ok (inr p)).
Proof.
  intros Hok Hk Hr Nd S E. pose proof (runs_steps workspaceID ops w) as R.
  assert (Hok' : id_ok (db (runs workspaceID ops w))) by (eapply steps_keep; eauto using step_ok).
  assert (R' : revoked_row k t (db (runs workspaceID ops w))).
  { eapply (steps_keep _ (revoked_row k t)); [|exact R|]; [intros d d'; now apply step_revoked|]. exists k. auto. }
  destruct R' as (x & Hx & _ & Ep & _ & Er). apply auth_key_inv in E as (k' & u & S' & Fk & _ & [L _] & _).
  rewrite S in S'. injection S' as S'. destruct Hok' as (_ & (_ & Np & _) & _). unfold pg_KeyByPrefix in Fk.
  rewrite <- S', <- Ep, (find_unique k_KeyPrefix _ x Np Hx) in Fk. injection Fk as <-. congruence.
Qed.

(** A status change that was answered with the user. *)
Lemma SetStatus_inv actor t s ip now w w' u : SetStatus actor t s ip now w = (w', Ok (inr u)) ->
  t <> p_UserID actor /\ exists target d1, pg_UserByID t (db w) = Some target /\
    it_provider d1 = it_provider (db w) ++ [SetBanned (u_AuthSubject target) (String.eqb s "disabled")] /\ it_users d1 = it_users (db w) /\
    it_users (db w') = on_user t (set_status s) (it_users d1) /\ it_keys (db w') = it_keys (db w) /\ it_provider (db w') = it_provider d1.
Proof.
  unfold SetStatus. destruct (_ && _); [discriminate|]. case_bool_decide as N; [discriminate|].
  intros (w1 & target & [Ft E1]%found_done & E)%bindE_ok. apply bind_ok in E as (w2 & r & E2 & E).
  destruct r as [r|]; [|discriminate E]. split; [exact N|]. revert E2. unfold attempt. destruct (provider_call _ _ w1) as [w3 r3] eqn:P.
  intros [= -> ->]. assert (P' : exists x, r = inr x).
  { revert P. unfold provider_call, exec, dbcall. destruct (fault _); [discriminate|]. intros [= _ <-]. eauto. }
  destruct P' as [[] ->]. apply exec_done in P. cbn in P. rewrite E1 in P.
  apply bindE_ok in E as (w4 & a & (w5 & E3 & E4)%uow_done & [_ ->]%sret_done). apply bindE_ok in E3 as (w6 & b & E3%dbcall_done & [id E5]%event_done).
  cbn [db] in E3. exists target, (db w2). rewrite E4. cbn [it_users it_keys it_provider with_guc].
  unfold recorded, pg_InsertEvent in E5. destruct (_ || _); [discriminate E5|]. injection E5 as <-. cbn [it_users it_keys it_provider with_audit].
  unfold pg_UpdateStatus in E3. destruct (user_exists _ _); [|discriminate E3]. injection E3 as <-. cbn. rewrite P. auto 8.
Qed.

(** Users after a disabling. *)
Lemma on_user_status t s us u : u ∈ on_user t (set_status s) us -> u_ID u = t -> u_Status u = s.
Proof.
  intros (x & -> & _)%list_elem_of_fmap. case_bool_decide as B; [reflexivity|]. now intros E.
Qed.

(** Note: disabling a user takes effect at once and for both kinds of credential: after
    an administrator's change to [disabled] that was answered with success, the auth
    provider was told to ban the subject first, nothing authenticates as that user any
    more, and the administrator is never the one disabled. *)
Theorem disabled_locked_out (actor : Principal) (t : uuid) (ip : string) (now : Time) (w w' : World IdTables) (u : User) :
  SetStatus actor t "disabled" ip now w = (w', Ok (inr u)) ->
  t <> p_UserID actor /\
  (exists target, pg_UserByID t (db w) = Some target /\
     it_provider (db w') = it_provider (db w) ++ [SetBanned (u_AuthSubject target) true]) /\
  forall raw now2 w2 p,
    AuthenticateAPIKey raw now2 w' = (w2, Ok (inr p)) \/ Authenticate workspaceID raw now2 w' = (w2, Ok (inr p)) -> p_UserID p <> t.
Proof.
  intros (N & target & d1 & Ft & Pr & Eu & Us & _ & Pr')%SetStatus_inv. split; [exact N|].
  split; [exists target; now rewrite Pr', Pr|].
  assert (G : forall x, x ∈ it_users (db w') -> User_Active x = true -> u_ID x <> t).
  { rewrite Us. intros x Hx Act E. pose proof (on_user_status _ _ _ _ Hx E) as S. unfold User_Active in Act. now rewrite S in Act. }
  assert (It : t ∈ u_ID <$> it_users (db w')).
  { rewrite Us, Eu. unfold on_user. rewrite (column_kept u_ID) by reflexivity. apply user_by_id in Ft as [Ht <-]. now apply list_elem_of_fmap_2. }
  intros raw now2 w2 p [E|E].
  - apply auth_key_inv in E as (k & x & _ & _ & _ & _ & [Hx _]%user_by_id & Act & ->). now apply G.
  - apply auth_token_inv in E as (c & x & _ & Act & -> & M). destruct (pg_UserBySubject _ _) as [y|] eqn:F.
    + subst y. apply find_inv in F as [Hx _]. now apply G.
    + destruct M as (_ & _ & _ & M). cbn. now intros <-.
Qed.
End Commands.

(** ** A created key *)

Section CreatedKey.
Context `{Healthy} `{CryptoLaws} `{RandomLaws} `{TokenVerifier}.

Lemma draw_done op n (w w' : World IdTables) l : draw op n w = (w', Ok (inr l)) -> Forall byte_ok l.
Proof. intros E%dbcall_done. injection E as _ <-. apply random_bytes. Qed.

(** What a well-formed text with the prefix of a stored key is answered. *)
Lemma auth_key_run raw now (w : World IdTables) k : splitKey raw = Some (k_KeyPrefix k) ->
  pg_KeyByPrefix (k_KeyPrefix k) (db w) = Some k -> verifyKey raw (k_KeyHash k) = inr true ->
  (Usable k now = false -> exists w', AuthenticateAPIKey raw now w = (w', Ok (inl ErrKeyInactive))) /\
  (forall u, Usable k now = true -> pg_UserByID (k_UserID k) (db w) = Some u -> User_Active u = true ->
     exists w', AuthenticateAPIKey raw now w = (w', Ok (inr (principal_of u AuthAPIKey (k_Scopes k))))).
Proof.
  intros S Fk V. unfold AuthenticateAPIKey. rewrite S. unfold bindE at 1 3, found at 1 3. rewrite !bind_run, !query_healthy, Fk, V. split.
  - intros ->. eexists. reflexivity.
  - intros u -> Fu Act. cbn [negb]. unfold bindE, found. rewrite bind_run, query_healthy. cbn [db]. rewrite Fu, Act. cbn [negb].
    unfold attempt. rewrite bind_run. destruct (unit_of_work _ _) as [w1 r]. eexists. reflexivity.
Qed.

Lemma CreateKey_inv p inp now (w w' : World IdTables) k plaintext : CreateKey p inp now w = (w', Ok (inr (k, plaintext))) ->
  exists key, k = without_hash key /\ key ∈ it_keys (db w') /\ splitKey plaintext = Some (k_KeyPrefix key) /\
    verifyKey plaintext (k_KeyHash key) = inr true /\ k_UserID key = p_UserID p /\ k_ExpiresAt key = ck_ExpiresAt inp /\ k_RevokedAt key = None.
Proof.
  unfold CreateKey. destruct (_ || _); [discriminate|]. intros (w1 & pb & Hpb%draw_done & E)%bindE_ok.
  apply bindE_ok in E as (w2 & sb & Hsb%draw_done & E). destruct (generateKey pb sb) as [prefix text] eqn:G.
  apply bindE_ok in E as (w3 & salt & Hs%draw_done & E). apply bindE_ok in E as (w4 & id & _ & E).
  apply bindE_ok in E as (w5 & a & (w6 & E1 & Ed)%uow_done & E). apply sret_done in E as [[= <- <-] ->].
  match type of Ed with _ = _ => eexists (MkAPIKey id (p_UserID p) (p_WorkspaceID p) _ _ prefix _ _ (ck_ExpiresAt inp) now None None) end.
  split; [reflexivity|]. split.
  - apply bindE_ok in E1 as (w7 & b & E1%insert_done & [i E2]%event_done). apply recorded_keys in E2. rewrite Ed. cbn [it_keys with_guc]. rewrite E2.
    unfold pg_InsertKey in E1. destruct (_ || _); [discriminate E1|]. injection E1 as <-. cbn [it_keys with_keys]. apply elem_of_app. right. now left.
  - pose proof (split_generated pb sb Hpb) as S. rewrite G in S. cbn [fst snd] in S. split; [exact S|]. split; [now apply verify_own|]. auto.
Qed.

Lemma RevokeKey_inv u id ip now (w w' : World IdTables) a : RevokeKey u id ip now w = (w', Ok (inr a)) ->
  it_keys (db w') = on_key id (set_revoked now) (it_keys (db w)).
Proof.
  intros (w1 & E & Ed)%uow_done. apply bindE_ok in E as (w2 & k & [_ E1]%found_done & E). destruct (negb _); [discriminate E|].
  apply bindE_ok in E as (w3 & b & E2%exec_done & [i E3%recorded_keys]%event_done). rewrite Ed. cbn [it_keys with_guc]. rewrite E3, E2, E1. reflexivity.
Qed.

Lemma kept_ok {A} (m : M IdTables A) w : (forall d0, preserves (rtc (step (fun _ => False)) d0) m) -> id_ok (db w) -> id_ok (db (m w).1).
Proof. intros K. apply (steps_keep (fun _ => False) id_ok); [apply step_ok|]. apply K. reflexivity. Qed.

(** C23: a key is worth what it was created with: the text handed out once authenticates
    as its owner's current row with the key's scopes until the expiry asked for, the
    answer to the creation holds no hash; from the expiry on, and from the moment its
    owner revokes it at any time, the same text is refused. *)
Theorem created_key_authenticates (p : Principal) (inp : CreateKeyInput) (now now2 : Time) (w w1 : World IdTables) (k : APIKey)
    (plaintext : string) (u : User) :
  id_ok (db w) -> CreateKey p inp now w = (w1, Ok (inr (k, plaintext))) ->
  pg_UserByID (p_UserID p) (db w1) = Some u -> u_Status u = "active" -> (forall e, ck_ExpiresAt inp = Some e -> now2 < e) ->
  k_KeyHash k = "" /\
  (exists w2, AuthenticateAPIKey plaintext now2 w1 = (w2, Ok (inr (principal_of u AuthAPIKey (k_Scopes k))))) /\
  (forall e later, ck_ExpiresAt inp = Some e -> e <= later ->
     exists w2 err, AuthenticateAPIKey plaintext later w1 = (w2, Ok (inl err))) /\
  forall ip now3 w3, RevokeKey (p_UserID p) (k_ID k) ip now3 w1 = (w3, Ok (inr tt)) ->
    forall later, exists w4 err, AuthenticateAPIKey plaintext later w3 = (w4, Ok (inl err)).
Proof.
  intros Hok E Fu Act Exp. assert (Hok1 : id_ok (db w1)).
  { change (id_ok (db (w1, Ok (inr (k, plaintext) : IdentityError + APIKey * string)).1)). rewrite <- E. apply kept_ok; [|exact Hok]. intros d0. apply CreateKey_kept. }
  apply CreateKey_inv in E as (key & -> & Hk & S & V & Eo & Ee & Er). split; [reflexivity|]. cbn [k_Scopes k_ID without_hash].
  assert (L : live_key key now2) by (split; [exact Er|]; now rewrite Ee). apply String.eqb_eq in Act.
  pose proof (find_unique k_KeyPrefix _ key (proj1 (proj2 (proj1 (proj2 Hok1)))) Hk) as F1. split; [|split].
  - destruct (auth_key_run plaintext now2 w1 key S F1 V) as [_ A]. apply A; [now apply Usable_live|now rewrite Eo|exact Act].
  - intros e later Ex Le. destruct (auth_key_run plaintext later w1 key S F1 V) as [A _].
    destruct A as [w2 A]; [|now exists w2, ErrKeyInactive]. apply not_true_is_false. rewrite Usable_live.
    intros [_ X]. rewrite Ee, Ex in X. specialize (X e eq_refl). lia.
  - intros ip now3 w3 E3. assert (Hok3 : id_ok (db w3)).
    { change (id_ok (db (w3, Ok (inr tt : IdentityError + unit)).1)). rewrite <- E3. apply kept_ok; [|exact Hok1]. intros d0. apply RevokeKey_kept. }
    apply RevokeKey_inv in E3. set (key' := set_revoked now3 key). assert (K' : key' ∈ it_keys (db w3)).
    { rewrite E3. apply list_elem_of_fmap. exists key. now rewrite bool_decide_true. }
    assert (P : k_KeyPrefix key' = k_KeyPrefix key /\ k_KeyHash key' = k_KeyHash key /\ k_RevokedAt key' = Some now3) by (unfold key', set_revoked; now rewrite Er).
    destruct P as (P1 & P2 & P3). pose proof (find_unique k_KeyPrefix _ key' (proj1 (proj2 (proj1 (proj2 Hok3)))) K') as F.
    intros later. destruct (auth_key_run plaintext later w3 key') as [A _]; [now rewrite P1|exact F|now rewrite P2|].
    destruct A as [w4 A]; [unfold Usable, Revoked; now rewrite P3|now exists w4, ErrKeyInactive].
Qed.
End CreatedKey.

(** ** Deleting an account *)

Section Deletion.
Context `{Healthy} `{Crypto} `{Random} `{TokenVerifier}.

Lemma exec_run op f (w : World IdTables) : exec op f w = (MkWorld (f (db w)).1 (Datatypes.S (tick w)) (nids w), Ok (inr tt)).
Proof. unfold exec. rewrite dbcall_healthy. now destruct (f (db w)). Qed.

Lemma found_run {A} e op (f : IdTables -> option A) (w : World IdTables) a : f (db w) = Some a ->
  found e op f w = (MkWorld (db w) (Datatypes.S (tick w)) (nids w), Ok (inr a)).
Proof. intros E. unfold found. now rewrite query_healthy, E. Qed.

Lemma event_run e (w : World IdTables) d' : recorded (newID (nids w)) e (db w) = Some d' ->
  RecordEvent e w = (MkWorld d' (Datatypes.S (tick w)) (Datatypes.S (nids w)), Ok (inr tt)).
Proof.
  unfold recorded, RecordEvent, newID_, bindE, bind, fresh, sret, ret, insert, dbexec. cbn [tick db nids]. rewrite healthy.
  destruct (pg_InsertEvent _ _ _) as [[d u]|]; [|discriminate]. now intros [= <-].
Qed.

Lemma uow_run {A} (m : Identity.S A) w w1 a : m (MkWorld (db w) (Datatypes.S (tick w)) (nids w)) = (w1, Ok (inr a)) ->
  unit_of_work m w = (MkWorld (with_guc (db w1) false) (Datatypes.S (tick w1)) (nids w1), Ok (inr a)).
Proof. intros E. unfold unit_of_work, tx_runE. rewrite healthy. unfold bindE, bind at 1. rewrite E. unfold bind, local, sret, ret. cbn [db tick nids]. now rewrite healthy. Qed.

Lemma bindE_run {A B} (m : Identity.S A) (k : A -> Identity.S B) w w1 a : m w = (w1, Ok (inr a)) -> bindE m k w = k a w1.
Proof. intros E. unfold bindE, bind. now rewrite E. Qed.

(** Nothing in the tables names the user. *)
Definition forgotten (t : uuid) (d : IdTables) : Prop :=
  (forall u, u ∈ it_users d -> u_ID u <> t) /\ (forall k, k ∈ it_keys d -> k_UserID k <> t) /\
  (forall j, j ∈ it_jobs d -> j_RequestedBy j <> t /\ j_TargetUserID j <> Some t) /\
  (forall e, e ∈ it_audit d -> e_UserID e <> Some t).

Lemma in_lfilter {A} (p : A -> bool) l x : x ∈ List.filter p l <-> x ∈ l /\ p x = true.
Proof. now rewrite !list_elem_of_In, List.filter_In. Qed.

Lemma deleted_forgotten t d d' u : pg_DeleteUser t d = Some (d', inr u) -> forgotten t d'.
Proof.
  unfold pg_DeleteUser. destruct (negb _); [discriminate|]. destruct (_ && _); [discriminate|]. intros [= <- _].
  assert (C : forall r, clear_ref t r <> Some t) by (intros r [_ N]%clear_ref_some; now apply N).
  assert (K : forall (a b : uuid), negb (bool_decide (a = b)) = true -> a <> b) by (intros a b; now rewrite negb_true_iff, bool_decide_eq_false).
  split; [|split; [|split]]; cbn.
  - intros x [_ B]%in_lfilter. now apply K.
  - intros x [_ B]%in_lfilter. now apply K.
  - intros x (y & -> & [_ B]%in_lfilter)%list_elem_of_fmap. split; [now apply K|apply C].
  - intros e (y & -> & _)%list_elem_of_fmap. apply C.
Qed.

(** The event of a deletion can be recorded. *)
Lemma recorded_run id ev d : user_fk d (ev_UserID ev) = true -> (forall e, e ∈ it_audit d -> e_ID e <> id) ->
  recorded id ev d = Some (with_audit d (it_audit d ++ [MkRecordedEvent id (ev_UserID ev) (ev_Action ev) (ev_ResourceType ev) (ev_ResourceID ev)
                             (ev_Details ev) (ev_IPAddress ev) (ev_At ev)])).
Proof.
  intros U Fr. unfold recorded, pg_InsertEvent. rewrite U. replace (existsb _ _) with false; [reflexivity|].
  symmetry. apply not_true_iff_false. rewrite existsb_exists. intros (e & He & Q%bool_decide_eq_true). apply (Fr e); [now apply list_elem_of_In|exact Q].
Qed.

(** With the setting on, an existing user can be deleted. *)
Lemma delete_run t d : user_exists d t = true -> it_guc d = true -> exists d', pg_DeleteUser t d = Some (d', inr tt) /\
  it_users d' = List.filter (fun u => negb (bool_decide (u_ID u = t))) (it_users d) /\
  it_keys d' = List.filter (fun k => negb (bool_decide (k_UserID k = t))) (it_keys d) /\
  it_audit d' = anonymise t <$> it_audit d /\ it_provider d' = it_provider d.
Proof. intros U G. unfold pg_DeleteUser. rewrite U, G. cbn. eexists. split; [reflexivity|]. auto. Qed.

(** Note: deletion erases the account and nothing else: it succeeds for any existing user
    (except an administrator deleting themselves through the admin path), afterwards no
    row of any table names the user, every other user and key is untouched, earlier
    audit events are kept without the user, the deletion itself is on record, and the
    auth provider is told last. *)
Theorem account_deleted (actor : Principal) (t : uuid) (selfService : bool) (ip : string) (now : Time) (w : World IdTables) (target : User) :
  pg_UserByID t (db w) = Some target -> user_exists (db w) (p_UserID actor) = true ->
  (selfService = false -> t <> p_UserID actor) -> (forall e, e ∈ it_audit (db w) -> e_ID e <> newID (nids w)) ->
  exists w' e, DeleteAccount actor t selfService ip now w = (w', Ok (inr tt)) /\ forgotten t (db w') /\
    it_users (db w') = List.filter (fun u => negb (bool_decide (u_ID u = t))) (it_users (db w)) /\
    it_keys (db w') = List.filter (fun k => negb (bool_decide (k_UserID k = t))) (it_keys (db w)) /\
    it_audit (db w') = (anonymise t <$> it_audit (db w)) ++ [e] /\
    e_Action e = (if selfService then "user.deleted" else "admin.user_deleted") /\ e_ResourceID e = Some t /\
    it_provider (db w') = it_provider (db w) ++ [DeleteUserCall (u_AuthSubject target)].
Proof.
  intros Ft Ua Self Fr. unfold DeleteAccount.
  assert (B : negb selfService && bool_decide (t = p_UserID actor) = false).
  { destruct selfService; [reflexivity|]. apply bool_decide_eq_false. now apply Self. }
  rewrite B, (bindE_run _ _ _ _ _ (found_run _ _ _ _ _ Ft)). clear B.
  set (ev := MkEvent _ _ _ _ _ _ _). pose proof (recorded_run (newID (nids w)) ev (with_guc (db w) true) Ua Fr) as R.
  match type of R with _ = Some ?d => set (d1 := d) in R end.
  destruct (delete_run t d1) as (d2 & D & Du & Dk & Da & Dp); [|reflexivity|].
  { apply user_exists_ids. apply user_by_id in Ft as [Ht <-]. now apply (list_elem_of_fmap_2 u_ID). }
  pose proof (deleted_forgotten t d1 d2 tt D) as Fg.
  erewrite bindE_run; [|apply uow_run; erewrite bindE_run by apply exec_run; erewrite bindE_run by (apply event_run, R);
    unfold dbexec; rewrite healthy; cbn [db]; rewrite D; reflexivity].
  unfold attempt, provider_call. rewrite bind_run, exec_run. cbn [db tick nids fst]. unfold d1 in Da. cbn [it_audit with_audit with_guc] in Da. rewrite fmap_app in Da.
  eexists _, _. split; [reflexivity|]. cbn. rewrite Du, Dk, Da, Dp. split_and!; try reflexivity; apply Fg.
Qed.
End Deletion.

(** ** Boundary behaviour *)

Section Boundaries.
Context `{Healthy} `{Crypto} `{Random} `{TokenVerifier} (workspaceID : uuid).

(** Note: a verified token whose subject is new but whose e-mail another subject holds
    can never log in: the insert fails on the address, the re-read by subject finds
    nobody, and the answer is that the user does not exist. *)
Theorem shared_address_never_logs_in raw now (w : World IdTables) c x :
  Verify now raw = inr c -> pg_UserBySubject (c_Subject c) (db w) = None -> x ∈ it_users (db w) -> u_Email x = c_Email c ->
  exists w', Authenticate workspaceID raw now w = (w', Ok (inl ErrUserNotFound)) /\ db w' = db w.
Proof.
  intros V N Hx Em. unfold Authenticate. rewrite V. unfold resolveOrProvision, read, newID_, fresh, sret, ret, bindE, bind at 1 2 3.
  rewrite query_healthy, N. unfold unit_of_work, tx_runE, bindE, bind, dbexec. cbn [tick db nids]. rewrite !healthy.
  unfold pg_InsertUser. replace (existsb _ _) with true.
  - cbn [tick db nids]. unfold ret. cbn [tick db nids]. unfold found. rewrite query_healthy. cbn [db]. rewrite N. eexists. split; reflexivity.
  - symmetry. apply existsb_exists. exists x. split; [now apply list_elem_of_In|]. cbn. rewrite Em, String.eqb_refl. now rewrite !orb_true_r.
Qed.

(** Note: an export holds at most fifty audit events: the thousand it asks for is over
    the reader's maximum, which replaces it by the default page. *)
Theorem export_audit_truncated target now (w w' : World IdTables) doc :
  assemble target now w = (w', Ok (inr doc)) -> (length (x_AuditEvents doc) <= 50)%nat.
Proof.
  unfold assemble. intros (w1 & ks & _ & E)%bindE_ok. apply bindE_ok in E as (w2 & es & E1 & [<- _]%sret_done). cbn [x_AuditEvents]. rewrite length_fmap.
  unfold ListEvents in E1. apply bindE_ok in E1 as (w3 & rows & _ & [<- _]%sret_done). unfold page.
  change (f_Limit (with_limit _ _)) with 50. destruct (Z.ltb_spec 50 (Z.of_nat (length rows))); cbn [fst]; [rewrite length_take|]; lia.
Qed.

(** Note: the scopes of the caller play no part in the scopes of the key it creates. *)
Theorem create_key_ignores_scopes (p : Principal) (scopes : list string) (m : AuthMethod) inp now (w : World IdTables) :
  CreateKey (MkPrincipal (p_UserID p) (p_WorkspaceID p) (p_Email p) (p_Role p) m scopes) inp now w = CreateKey p inp now w.
Proof. reflexivity. Qed.
End Boundaries.

(** ** Evaluation on concrete tables *)

Definition toyRandom : Random := {| random := fun i n => repeat (Z.of_nat i mod 256) n |}.

Lemma toyRandom_laws : @RandomLaws toyRandom.
Proof.
  constructor; cbn; intros i n; [|apply repeat_length]. apply Forall_forall. intros b Hb%list_elem_of_In%repeat_spec. subst b.
  unfold byte_ok. apply Z.mod_pos_bound. lia.
Qed.

Definition toyVerifier : TokenVerifier := {| Verify := fun now raw => if String.eqb raw "token" then inr (MkClaims "sub-bob" "bob@x" 99) else inl ErrInvalidToken |}.

Definition alice : User := MkUser 1%N 9%N "sub-alice" "alice@x" RoleAdmin "active" None [] 0 0 None.
Definition bob : User := MkUser 2%N 9%N "sub-bob" "bob@x" RoleUser "active" None [] 0 0 None.
Definition as_user (u : User) : Principal := principal_of u AuthJWT [].
Definition town : World IdTables := MkWorld (MkIdTables [alice; bob] [] [] [] [] ∅ [] false 0) 0 0.
Definition laptop : CreateKeyInput := MkCreateKeyInput "laptop" ["read:public"] 0 (Some 100) "10.0.0.1".

Lemma town_ok : id_ok (db town).
Proof. repeat split; cbn; try apply NoDup_nil_2; try constructor; try set_solver; try (apply NoDup_ListNoDup; repeat constructor; cbn; intuition discriminate). Qed.

(** Bob's key after its creation and revocation. *)
Definition revoked_town : World IdTables :=
  @runs calm toy toyRandom toyVerifier 9%N
    [OpCreateKey (as_user bob) laptop 10; OpRevokeKey 2%N (2 ^ 64)%N "10.0.0.1" 11] town.

Lemma created_key_authenticates_witness : exists w1 k text,
  @CreateKey calm toy toyRandom (as_user bob) laptop 10 town = (w1, Ok (inr (k, text))) /\ k_KeyHash k = "" /\
  exists w2, @AuthenticateAPIKey calm toy text 50 w1 = (w2, Ok (inr (principal_of bob AuthAPIKey ["read:public"]))).
Proof.
  eexists _, _, _. assert (E : @CreateKey calm toy toyRandom (as_user bob) laptop 10 town = _) by (vm_compute; reflexivity).
  split; [exact E|]. eapply (@created_key_authenticates calm calm_healthy toy toy_laws toyRandom toyRandom_laws (as_user bob) laptop 10 50 town) in E;
    [|exact town_ok|vm_compute; reflexivity|reflexivity|cbn; intros e [= <-]; lia].
  destruct E as (E1 & E2 & _). split; [exact E1|exact E2].
Defined.

Lemma revoked_town_ok : id_ok (db revoked_town).
Proof. apply (steps_keep (deleted_by [OpCreateKey (as_user bob) laptop 10; OpRevokeKey 2%N (2 ^ 64)%N "10.0.0.1" 11]) id_ok) with (d := db town); [apply step_ok|apply runs_steps|exact town_ok]. Qed.

Lemma identity_tables_ok_witness : id_ok (db town) /\ id_ok (db revoked_town).
Proof. split; [exact town_ok|]. apply (@identity_tables_ok calm toy toyRandom toyVerifier 9%N). exact town_ok. Defined.

Lemma revocation_final_witness :
  snd (@AuthenticateAPIKey calm toy "fiq_00000000.AQEBAQEBAQEBAQEBAQEBAQEBAQEBAQEBAQEBAQEBAQE" 12
    (@runs calm toy toyRandom toyVerifier 9%N [OpSetStatus (as_user alice) 2%N "active" "" 12] revoked_town)) <>
  Ok (inr (principal_of bob AuthAPIKey ["read:public"])).
Proof.
  intros R. destruct (it_keys (db revoked_town)) as [|k []] eqn:K; [vm_compute in K; discriminate K| |vm_compute in K; discriminate K].
  eapply (@revocation_final calm toy toyRandom toyVerifier 9%N [OpSetStatus (as_user alice) 2%N "active" "" 12] revoked_town _ k 11
    "fiq_00000000.AQEBAQEBAQEBAQEBAQEBAQEBAQEBAQEBAQEBAQEBAQE" 12 (principal_of bob AuthAPIKey ["read:public"])).
  - exact revoked_town_ok.
  - rewrite K. now left.
  - vm_compute in K. now injection K as <-.
  - intros (o & Ho & D). apply list_elem_of_singleton in Ho. now subst o.
  - vm_compute in K. injection K as <-. vm_compute. reflexivity.
  - rewrite <- R. apply surjective_pairing.
Defined.

Lemma disabled_locked_out_witness : exists w' u,
  @SetStatus calm (as_user alice) 2%N "disabled" "10.0.0.9" 20 town = (w', Ok (inr u)) /\
  forall raw now2 w2 p, @Authenticate calm toyVerifier 9%N raw now2 w' = (w2, Ok (inr p)) -> p_UserID p <> 2%N.
Proof.
  destruct (@SetStatus calm (as_user alice) 2%N "disabled" "10.0.0.9" 20 town) as [w' [[e|u]|e]] eqn:E;
    [vm_compute in E; discriminate E| |vm_compute in E; discriminate E].
  exists w', u. split; [reflexivity|]. intros raw now2 w2 p A.
  apply (@disabled_locked_out calm toy toyVerifier 9%N _ _ _ _ _ _ _ E) with (raw := raw) (now2 := now2) (w2 := w2). now right.
Defined.

Lemma account_deleted_witness : exists w', @DeleteAccount calm (as_user bob) 2%N true "10.0.0.1" 30 revoked_town = (w', Ok (inr tt)) /\
  forgotten 2%N (db w') /\ it_provider (db w') = [DeleteUserCall "sub-bob"].
Proof.
  destruct (@account_deleted calm calm_healthy (as_user bob) 2%N true "10.0.0.1" 30 revoked_town bob) as (w' & e & E & F & _ & _ & _ & _ & _ & P).
  - vm_compute. reflexivity.
  - vm_compute. reflexivity.
  - discriminate.
  - intros e He. assert (A : forallb (fun e => negb (bool_decide (e_ID e = @newID calm (nids revoked_town)))) (it_audit (db revoked_town)) = true)
      by (vm_compute; reflexivity).
    rewrite forallb_forall in A. specialize (A e ltac:(now apply list_elem_of_In)). now rewrite negb_true_iff, bool_decide_eq_false in A.
  - exists w'. split; [exact E|]. split; [exact F|]. rewrite P. vm_compute. reflexivity.
Defined.

Lemma authentication_sound_witness : exists u, u ∈ it_users (db town) /\
  (@Authenticate calm toyVerifier 9%N "token" 5 town).2 = Ok (inr (principal_of u AuthJWT [])).
Proof.
  destruct (@Authenticate calm toyVerifier 9%N "token" 5 town) as [w' r] eqn:E.
  assert (R : r = Ok (inr (as_user bob))) by (apply (f_equal snd) in E; vm_compute in E; now subst r). subst r.
  destruct (proj2 (@authentication_sound calm toy toyVerifier 9%N "token" 5 town w' (as_user bob)) E) as (c & V & [(u & Hu & _ & _ & ->)|(N & _)]).
  - exists u. split; [exact Hu|reflexivity].
  - vm_compute in V. injection V as <-. vm_compute in N. discriminate N.
Defined.

End IdentityProps.
