(* ===== verification/Limiter.v ===== *)
(** * Token buckets ([internal/platform/ratelimit])

    One bucket of [float64] tokens, refilled by the time elapsed since its last
    refill and capped at its maximum, and the keyed limiter that holds one per client
    address.  The clock's reading is an argument of every operation; the mutexes make
    each of them one step (the hand-over from the map's mutex to the bucket's is not a
    step of its own).  [wait_step] is one turn of the blocking [Wait]. *)

From Stdlib Require Import ZArith Lia Bool String.
From Stdlib Require Import SpecFloat.
From stdpp Require Import base list strings gmap.
From S2P Require Import Prelude Float64 Float64Round GoTime.

Local Open Scope list_scope.
Local Open Scope Z_scope.

Module Limiter.

Record Limiter := MkLimiter { tokens : float64; max : float64; refillPerSec : float64; last : Time }.

Definition NewLimiter (max refillPerSec : float64) (now : Time) : Limiter := MkLimiter max max refillPerSec now.

Definition refill (now : Time) (l : Limiter) : Limiter :=
  let elapsed := Seconds (Sub now (last l)) in
  if fltb f0 elapsed then
    let t := (tokens l + elapsed * refillPerSec l)%f64 in
    MkLimiter (if fltb (max l) t then max l else t) (max l) (refillPerSec l) now
  else l.

Definition take_one (l : Limiter) : Limiter := MkLimiter (tokens l - f1)%f64 (max l) (refillPerSec l) (last l).

Definition Allow (now : Time) (l : Limiter) : Limiter * bool :=
  let l := refill now l in
  if fleb f1 (tokens l) then (take_one l, true) else (l, false).

(** [time.Duration(x)]; out of range the amd64 conversion gives the least integer. *)
Definition to_duration (x : float64) : Duration :=
  match f64_to_Z x with Some z => if (minInt64 <=? z) && (z <=? maxInt64) then z else minInt64 | None => minInt64 end.

(** One turn of [Wait]: a token, or the time to sleep before the next turn. *)
Definition wait_step (now : Time) (l : Limiter) : Limiter * option Duration :=
  let l := refill now l in
  if fleb f1 (tokens l) then (take_one l, None)
  else
    let need := (f1 - tokens l)%f64 in
    let wait := to_duration (need / refillPerSec l * f64_of_Z Second)%f64 in
    (l, Some (if wait <? 10 * Millisecond then 10 * Millisecond else wait)).

(** ** KeyedLimiter *)

Record KeyedLimiter := MkKeyed { buckets : gmap string Limiter; k_max : float64; k_refill : float64 }.

Definition NewKeyedLimiter (max refillPerSec : float64) : KeyedLimiter := MkKeyed ∅ max refillPerSec.

Definition bucket (now : Time) (key : string) (k : KeyedLimiter) : Limiter :=
  default (NewLimiter (k_max k) (k_refill k) now) (buckets k !! key).

Definition KAllow (now : Time) (key : string) (k : KeyedLimiter) : KeyedLimiter * bool :=
  let '(b, ok) := Allow now (bucket now key k) in
  (MkKeyed (<[key := b]> (buckets k)) (k_max k) (k_refill k), ok).

(** The limiter of the router: [n] requests a minute ([cmd/forecastiq/app.go]). *)
Definition per_minute (n : Z) : KeyedLimiter := NewKeyedLimiter (f64_of_Z n) (f64_of_Z n / f64_of_Z 60)%f64.

(** ** Arithmetic of one token *)

Lemma fsub_one_shape x : fleb f1 x = true -> is_finite x = true -> exists m e, x = pos_f m e.
Proof. intros L F. destruct x as [[]|[]| |[] m e]; try discriminate; eauto. Qed.

(** The exact value of the difference before rounding, in units of the smallest float. *)
Lemma sub_one_value s m e : kmin <= e -> let k := Z.min e (-52) in
  (sval k (S754_finite s m e) - sval k (pos_f 4503599627370496 (-52))) * 2 ^ (k - kmin) = sval kmin (S754_finite s m e) - 2 ^ 1074.
Proof. intros K k. unfold k, kmin in *. rewrite Z.mul_sub_distr_r, !sval_scale by (cbn [fexpo]; unfold kmin; lia). reflexivity. Qed.

(** Taking one from a number between one and [j] leaves one between zero and [j - 1]. *)
Lemma fsub_one_bounds x j : 1 <= j < 2 ^ 53 -> valid x = true -> fleb f1 x = true -> fleb x (f64_of_Z j) = true ->
  nonneg (x - f1)%f64 /\ fleb (x - f1)%f64 (f64_of_Z (j - 1)) = true.
Proof.
  intros Hj V L U. destruct (f64_of_Z_exact j ltac:(lia)) as [Fj Sj]. destruct (f64_of_Z_exact (j - 1) ltac:(lia)) as [Fp Sp].
  assert (Fx : is_finite x = true) by (destruct x as [|[]| |]; try reflexivity; destruct (f64_of_Z j) as [|[]| |[]]; discriminate).
  destruct (fsub_one_shape x L Fx) as (m & e & ->).
  pose proof (fleb_sval _ _ Fx Fj V (f64_of_Z_valid j) U) as Ux. pose proof (fleb_sval f1 _ eq_refl Fx eq_refl V L) as Lx.
  pose proof (fexpo_kmin _ V) as K. cbn [fexpo] in K. rewrite f1_eq, fsub_finite in *. set (k := Z.min e (-52)).
  assert (Kk : kmin <= k) by (unfold k, kmin in *; lia). pose proof (sub_one_value false m e K) as Val. cbv zeta in Val. fold k in Val.
  change (sval kmin (pos_f 4503599627370496 (-52))) with (2 ^ 1074) in Lx. split.
  - apply (normalize_lower _ _ _ f0 kmin); [reflexivity|reflexivity|exact Kk|cbn; unfold kmin; lia|]. rewrite Val. cbn [f0]. change (sval kmin f0) with 0. lia.
  - apply (normalize_upper _ _ _ _ kmin); [exact Fp|apply f64_of_Z_valid|exact Kk|apply fexpo_kmin, f64_of_Z_valid|]. rewrite Val, Sp.
    rewrite Sj in Ux. rewrite Z.mul_sub_distr_r, Z.mul_1_l. lia.
Qed.

(** Counting down from an integer is exact. *)
Lemma fsub_one_lower j : 1 <= j < 2 ^ 53 -> fleb (f64_of_Z (j - 1)) (f64_of_Z j - f1)%f64 = true.
Proof.
  intros Hj. destruct (f64_of_Z_exact j ltac:(lia)) as [Fj Sj]. destruct (f64_of_Z_exact (j - 1) ltac:(lia)) as [Fp Sp].
  pose proof (f64_of_Z_valid j) as V. destruct (f64_of_Z j) as [[]| | |s m e] eqn:E; try discriminate;
    try (change (sval kmin _) with 0 in Sj; exfalso; assert (0 < 2 ^ 1074) by (apply Z.pow_pos_nonneg; lia); nia).
  pose proof (fexpo_kmin _ V) as K. cbn [fexpo] in K. rewrite f1_eq, fsub_finite. set (k := Z.min e (-52)).
  pose proof (sub_one_value s m e K) as Val. cbv zeta in Val. fold k in Val.
  apply (normalize_lower _ _ _ _ kmin); [exact Fp|apply f64_of_Z_valid|unfold k, kmin in *; lia|apply fexpo_kmin, f64_of_Z_valid|].
  rewrite Val, Sp, Sj, Z.mul_sub_distr_r, Z.mul_1_l. lia.
Qed.

Lemma f64_of_Z_one_le j : 1 <= j < 2 ^ 53 -> fleb f1 (f64_of_Z j) = true.
Proof. intros Hj. apply (f64_of_Z_le 1); lia. Qed.

Lemma count_down j : 1 <= j < 2 ^ 53 -> (f64_of_Z j - f1)%f64 = f64_of_Z (j - 1).
Proof.
  intros Hj. pose proof (fsub_one_lower j Hj) as L. assert (One : fleb f1 (f64_of_Z j) = true) by now apply f64_of_Z_one_le.
  destruct (fsub_one_bounds (f64_of_Z j) j Hj (f64_of_Z_valid j) One) as [_ U].
  { apply fleb_refl. destruct (f64_of_Z_exact j ltac:(lia)) as [F _]. now destruct (f64_of_Z j). }
  destruct (f64_of_Z_exact (j - 1) ltac:(lia)) as [Fp Sp]. destruct (Z.eq_dec j 1) as [->|N1]; [reflexivity|].
  assert (K : fkey (f64_of_Z j - f1)%f64 = fkey (f64_of_Z (j - 1))).
  { apply fleb_kle in L as (_ & _ & L), U as (_ & _ & U). destruct L as [L|L]; [|now symmetry]. destruct U as [U|U]; [|exact U].
    destruct (klt_irrefl _ (klt_trans _ _ _ L U)). }
  pose proof (f64_of_Z_one_le (j - 1) ltac:(lia)) as P. destruct (fsub_one_shape _ P Fp) as (m & e & E). rewrite E in *.
  destruct (f64_of_Z j - f1)%f64 as [[]|[]| |[] m' e']; cbn in K; try discriminate K; congruence.
Qed.

(** ** Bounds *)

Section Bounds.
Context (n : Z) (m : positive) (e : Z) (Hn : 0 <= n < 2 ^ 53) (Hr : valid (pos_f m e) = true).

(** Tokens between zero and [j], in a bucket of size [n]. *)
Definition holds (j : Z) (l : Limiter) : Prop :=
  max l = f64_of_Z n /\ refillPerSec l = pos_f m e /\ valid (tokens l) = true /\ nonneg (tokens l) /\ fleb (tokens l) (f64_of_Z j) = true.

Lemma Seconds_valid d : valid (Seconds d) = true.
Proof. unfold Seconds, dur_units. auto with fiq. Qed.

Lemma refill_holds now l : holds n l -> holds n (refill now l).
Proof.
  intros (M & R & V & N & U). unfold refill. destruct (fltb f0 _) eqn:E; [|now split_and!]. rewrite R, M.
  assert (P : psign (Seconds (Sub now (last l)) * pos_f m e)%f64) by (apply psign_mul_pos_r; [apply Seconds_valid|exact Hr|]; apply fltb_pos in E as [->|(mm & ee & ->)]; unfold signed; eauto).
  set (t := (tokens l + _)%f64). assert (Nt : nonneg t) by (apply fadd_nonneg; [exact N|now apply psign_nonneg]).
  assert (Vt : valid t = true) by (apply fadd_valid; [exact V|apply fmul_valid; [apply Seconds_valid|exact Hr]]).
  destruct (fltb (f64_of_Z n) t) eqn:C; split_and!; cbn [max refillPerSec tokens]; auto with fiq.
  - apply f64_of_Z_nonneg. lia.
  - apply fleb_refl, nonneg_not_nan, f64_of_Z_nonneg. lia.
  - apply fltb_false_fleb; [apply nonneg_not_nan, f64_of_Z_nonneg; lia|now apply nonneg_not_nan|exact C].
Qed.

Lemma take_one_holds j l : 1 <= j <= n -> fleb f1 (tokens l) = true -> holds j l -> holds (j - 1) (take_one l).
Proof.
  intros Hj L (M & R & V & N & U). destruct (fsub_one_bounds (tokens l) j ltac:(lia) V L U) as [N' U'].
  split_and!; cbn; auto. now apply fsub_valid.
Qed.

Lemma holds_pos j l : 0 <= j -> fleb f1 (tokens l) = true -> holds j l -> 1 <= j.
Proof.
  intros Hj L (_ & _ & _ & _ & U). destruct (Z.eq_dec j 0) as [->|]; [|lia]. pose proof (fleb_trans _ _ _ L U) as X. discriminate X.
Qed.

Lemma holds_mono j j' l : 0 <= j <= j' -> j' < 2 ^ 53 -> holds j l -> holds j' l.
Proof.
  intros Hj Hj' (M & R & V & N & U). split_and!; auto. eapply fleb_trans; [exact U|]. now apply f64_of_Z_le.
Qed.

Lemma Allow_holds now l : holds n l -> holds n (Allow now l).1.
Proof.
  intros Hl%(refill_holds now). unfold Allow. destruct (fleb f1 _) eqn:E; [|exact Hl]. pose proof (holds_pos n _ ltac:(lia) E Hl) as P.
  cbn. apply (holds_mono (n - 1)); [lia|lia|]. apply take_one_holds; [lia|exact E|exact Hl].
Qed.

(** [k] calls at one instant, and how many of them were allowed. *)
Fixpoint burst (now : Time) (k : nat) (l : Limiter) : Limiter * Z :=
  match k with
  | O => (l, 0)
  | S k =>
      let '(l1, ok) := Allow now l in
      let '(l2, c) := burst now k l1 in
      (l2, (if ok then 1 else 0) + c)
  end.

(** No time has passed since the last refill. *)
Definition still (now : Time) (l : Limiter) : Prop := fltb f0 (Seconds (Sub now (last l))) = false.

Lemma still_refill now l : still now l -> refill now l = l.
Proof. unfold still, refill. now intros ->. Qed.

Lemma refill_still now l : still now (refill now l).
Proof.
  unfold still, refill. destruct (fltb f0 (Seconds (Sub now (last l)))) eqn:E; [|exact E]. cbn [last]. rewrite Sub_exact by (unfold minInt64, maxInt64; lia).
  now rewrite Z.sub_diag.
Qed.

Lemma burst_le now k : forall j l, 0 <= j <= n -> still now l -> holds j l -> 0 <= (burst now k l).2 <= j.
Proof.
  induction k as [|k IH]; intros j l Hj St Hl; cbn; [lia|]. unfold Allow. rewrite (still_refill now l St). destruct (fleb f1 (tokens l)) eqn:E.
  - pose proof (holds_pos j l ltac:(lia) E Hl) as P. specialize (IH (j - 1) (take_one l) ltac:(lia) St (take_one_holds j l ltac:(lia) E Hl)).
    destruct (burst now k (take_one l)). cbn in *. lia.
  - specialize (IH j l Hj St Hl). destruct (burst now k l). cbn in *. lia.
Qed.

(** A full bucket lets exactly its size through. *)
Lemma burst_exact now k : forall j l, 0 <= j <= n -> still now l -> tokens l = f64_of_Z j -> (burst now k l).2 = Z.min (Z.of_nat k) j.
Proof.
  induction k as [|k IH]; intros j l Hj St Ht; cbn [burst]; [cbn; lia|]. unfold Allow. rewrite (still_refill now l St), Ht. destruct (Z.eq_dec j 0) as [->|Nz].
  - change (fleb f1 (f64_of_Z 0)) with false. cbv iota. specialize (IH 0 l ltac:(lia) St Ht). destruct (burst now k l). cbn in *. lia.
  - rewrite f64_of_Z_one_le by lia. assert (T : tokens (take_one l) = f64_of_Z (j - 1)).
    { cbn. rewrite Ht. apply count_down. lia. }
    specialize (IH (j - 1) (take_one l) ltac:(lia) St T). destruct (burst now k (take_one l)). cbn in *. lia.
Qed.
End Bounds.

(** ** The keyed limiter *)

(** Requests as they come: an instant and an address. *)
Definition serve (reqs : list (Time * string)) (k : KeyedLimiter) : KeyedLimiter :=
  foldl (fun k r => (KAllow r.1 r.2 k).1) k reqs.

(** [c] requests from one address at one instant, and how many were allowed. *)
Fixpoint kburst (now : Time) (key : string) (c : nat) (k : KeyedLimiter) : KeyedLimiter * Z :=
  match c with
  | O => (k, 0)
  | S c =>
      let '(k1, ok) := KAllow now key k in
      let '(k2, s) := kburst now key c k1 in
      (k2, (if ok then 1 else 0) + s)
  end.

Lemma kburst_bucket now key c : forall k, (kburst now key c k).2 = (burst now c (bucket now key k)).2.
Proof.
  induction c as [|c IH]; intros k; [reflexivity|]. cbn [kburst burst]. unfold KAllow. destruct (Allow now (bucket now key k)) as [b ok].
  set (k1 := MkKeyed _ _ _). specialize (IH k1). assert (B : bucket now key k1 = b) by (unfold bucket, k1; cbn; now rewrite lookup_insert_eq).
  rewrite B in IH. destruct (kburst now key c k1), (burst now c b). cbn in *. now rewrite IH.
Qed.

Definition keyed_ok (n : Z) (m : positive) (e : Z) (k : KeyedLimiter) : Prop :=
  k_max k = f64_of_Z n /\ k_refill k = pos_f m e /\ forall key b, buckets k !! key = Some b -> holds n m e n b.

Lemma fresh_holds n m e now : 0 <= n < 2 ^ 53 -> holds n m e n (NewLimiter (f64_of_Z n) (pos_f m e) now).
Proof.
  intros Hn. pose proof (f64_of_Z_nonneg n ltac:(lia)) as N. split_and!; cbn; auto with fiq. now apply fleb_refl, nonneg_not_nan.
Qed.

Lemma bucket_holds n m e now key k : 0 <= n < 2 ^ 53 -> keyed_ok n m e k -> holds n m e n (bucket now key k).
Proof.
  intros Hn (M & R & B). unfold bucket. destruct (buckets k !! key) as [b|] eqn:E; [now apply (B key)|]. cbn. rewrite M, R. now apply fresh_holds.
Qed.

Lemma serve_ok n m e reqs : 0 <= n < 2 ^ 53 -> valid (pos_f m e) = true -> forall k, keyed_ok n m e k -> keyed_ok n m e (serve reqs k).
Proof.
  intros Hn Hr. induction reqs as [|[now key] reqs IH]; intros k Hk; [exact Hk|]. cbn [serve foldl]. apply IH. cbn [fst snd].
  unfold KAllow. pose proof (bucket_holds n m e now key k Hn Hk) as Hb. apply (Allow_holds n m e Hn Hr now) in Hb.
  destruct (Allow now _) as [b ok]. destruct Hk as (M & R & B). split_and!; cbn; [exact M|exact R|].
  intros key' b' [[-> ->]|[_ E]]%lookup_insert_Some; [exact Hb|now apply (B key')].
Qed.

(** C33: the request limiter keeps its promise in [float64]: whatever requests came
    before, every bucket holds between zero and [n] tokens; of any number of requests
    one address makes at one instant at most [n] pass, exactly [n] when the address is
    new; and a request never touches another address's bucket. *)
Theorem limiter_sound (n : Z) (m : positive) (e : Z) (reqs : list (Time * string)) (now : Time) (key : string) (c : nat) :
  0 <= n < 2 ^ 53 -> valid (pos_f m e) = true ->
  let k := serve reqs (NewKeyedLimiter (f64_of_Z n) (pos_f m e)) in
  (forall key' b, buckets k !! key' = Some b -> nonneg (tokens b) /\ fleb (tokens b) (f64_of_Z n) = true) /\
  0 <= (kburst now key c k).2 <= n /\
  (buckets k !! key = None -> (kburst now key c k).2 = Z.min (Z.of_nat c) n) /\
  (forall key', key' <> key -> buckets (KAllow now key k).1 !! key' = buckets k !! key').
Proof.
  intros Hn Hr k. assert (Hk : keyed_ok n m e k) by (apply serve_ok; [exact Hn|exact Hr|]; split_and!; [done|done|]; intros ? ? X; discriminate X).
  split; [|split; [|split]].
  - intros key' b E. destruct Hk as (_ & _ & B). destruct (B key' b E) as (_ & _ & _ & N & U). auto.
  - rewrite kburst_bucket. pose proof (bucket_holds n m e now key k Hn Hk) as Hb. destruct c as [|c]; [cbn; lia|].
    apply (refill_holds n m e Hn Hr now) in Hb. pose proof (burst_le n m e Hn now (S c) n _ ltac:(lia) (refill_still now (bucket now key k)) Hb) as L.
    cbn [burst] in *. unfold Allow in *. now rewrite (still_refill now _ (refill_still now _)) in L.
  - intros E. rewrite kburst_bucket. unfold bucket. rewrite E. cbn [default from_option]. destruct Hk as (-> & _).
    apply (burst_exact n Hn now c n _); [lia| |reflexivity]. unfold still. cbn [last NewLimiter]. rewrite Sub_exact by (unfold minInt64, maxInt64; lia).
    now rewrite Z.sub_diag.
  - intros key' N. unfold KAllow. destruct (Allow _ _). cbn. now rewrite lookup_insert_ne.
Qed.

Lemma limiter_sound_witness :
  (kburst 0 "10.0.0.1" 5 (NewKeyedLimiter (f64_of_Z 3) (f64_of_Z 3 / f64_of_Z 60)%f64)).2 = 3.
Proof.
  assert (R : exists m e, (f64_of_Z 3 / f64_of_Z 60)%f64 = pos_f m e /\ valid (pos_f m e) = true) by (vm_compute; eauto).
  destruct R as (m & e & -> & V). destruct (limiter_sound 3 m e [] 0 "10.0.0.1" 5 ltac:(lia) V) as (_ & _ & X & _). now apply X.
Defined.

End Limiter.
