(* ===== verification/Respond.v ===== *)
(** * Answers of the API ([internal/api/respond])

    Rounding of the published numbers, the freshness block, the caller's principal
    with its scopes, and the mapping of every error of the services to its problem
    document.  Errors keep their cause when they are wrapped, so an error is its
    cause; the texts that [fmt] renders from a float or quotes are parameters. *)

From Stdlib Require Import ZArith Lia Bool String.
From Stdlib Require Import SpecFloat.
From stdpp Require Import base list strings gmap.
From S2P Require Import Prelude Float64 Float64Round GoTime Uuid GoStrings Effects Catalog CatalogService Circuit Records Collection Credential Identity.

Local Open Scope string_scope.
Local Open Scope list_scope.
Local Open Scope Z_scope.

Module Respond.

(** ** round.go *)

Definition dpScore : Z := 4.
Definition dpTemperature : Z := 2.
Definition dpRain : Z := 2.
Definition dpPressure : Z := 2.
Definition dpWind : Z := 1.

(** [math.Round]: half away from zero. *)
Definition math_Round (x : float64) : float64 :=
  match x with
  | S754_finite s m e =>
      if 0 <=? e then x
      else
        let q := (Zpos m + 2 ^ (- e - 1)) / 2 ^ (- e) in
        if q =? 0 then S754_zero s else if s then fopp (f64_of_Z q) else f64_of_Z q
  | _ => x
  end.

(** [math.Pow(10, n)], exact for the places in use. *)
Definition pow10 (n : Z) : float64 := f64_of_Z (10 ^ n).

Definition round (x : float64) (n : Z) : float64 := let p := pow10 n in (math_Round (x * p) / p)%f64.

Definition roundPtr (x : option float64) (n : Z) : option float64 := (fun v => round v n) <$> x.
Definition RoundScore (x : option float64) : option float64 := roundPtr x dpScore.
Definition RoundTemperature (x : option float64) : option float64 := roundPtr x dpTemperature.
Definition RoundRain (x : option float64) : option float64 := roundPtr x dpRain.
Definition RoundPressure (x : option float64) : option float64 := roundPtr x dpPressure.
Definition RoundWind (x : option float64) : option float64 := roundPtr x dpWind.

Definition error_magnitude (metricType : string) : bool :=
  existsb (String.eqb metricType) ["mae"; "rmse"; "bias"; "rain_mae_all"; "rain_mae_wet"].

Definition RoundMetric (variable metricType : string) (x : option float64) : option float64 :=
  match x with
  | None => None
  | Some _ =>
      if error_magnitude metricType then
        if String.eqb variable "temperature" then RoundTemperature x
        else if String.eqb variable "wind_speed" then RoundWind x
        else if String.eqb variable "pressure" then RoundPressure x
        else if String.eqb variable "humidity" then RoundScore x
        else RoundRain x
      else RoundScore x
  end.

(** *** Rounded values lie on the decimal grid *)

(** Rounding a number of at most [A] to an integer gives one of at most [A]. *)
Lemma math_Round_int A x : 0 <= A < 2 ^ 52 -> zb A x -> signed false x -> exists k, 0 <= k <= A /\ math_Round x = f64_of_Z k.
Proof.
  intros HA (F & V & L) [->|[->|(m & e & ->)]]; [exists 0; split; [lia|reflexivity]|discriminate F|].
  pose proof (fexpo_kmin _ V) as K. cbn [fexpo sval cond_Zopp] in K, L. rewrite Z.abs_eq in L by (apply Z.mul_nonneg_nonneg; [lia|apply Z.pow_nonneg; lia]).
  unfold math_Round. destruct (Z.leb_spec 0 e) as [He|He].
  - exfalso. apply valid_finite in V as [C _]. pose proof (canonical_bounds _ _ C) as (_ & _ & B). specialize (B ltac:(lia)).
    change (2 ^ (prec - 1)) with (2 ^ 52) in B. replace (e - kmin) with (e + 1074) in L by (unfold kmin; lia). rewrite Z.pow_add_r in L by lia.
    assert (0 < 2 ^ 1074) by (apply Z.pow_pos_nonneg; lia). assert (1 <= 2 ^ e) by (apply (Z.pow_le_mono_r 2 0 e); lia). nia.
  - assert (Hp : 0 < 2 ^ (- e)) by (apply Z.pow_pos_nonneg; lia). assert (Hm : Zpos m <= A * 2 ^ (- e)).
    { replace 1074 with (- e + (e - kmin)) in L by (unfold kmin; lia). rewrite Z.pow_add_r in L by (unfold kmin in *; lia).
      assert (0 < 2 ^ (e - kmin)) by (apply Z.pow_pos_nonneg; lia). nia. }
    assert (Hh : 2 ^ (- e) = 2 * 2 ^ (- e - 1)) by (rewrite <- Z.pow_succ_r by lia; f_equal; lia).
    set (q := (Zpos m + 2 ^ (- e - 1)) / 2 ^ (- e)). assert (Hq : 0 <= q <= A).
    { assert (0 < 2 ^ (- e - 1)) by (apply Z.pow_pos_nonneg; lia). split; [apply Z.div_pos; lia|]. apply Z.lt_succ_r, Z.div_lt_upper_bound; lia. }
    exists q. split; [exact Hq|]. destruct (Z.eqb_spec q 0) as [->|]; reflexivity.
Qed.

(** A published score is a fraction of ten thousand between 0 and 1. *)
Lemma round_unit x : valid x = true -> signed false x -> fleb x f1 = true ->
  exists k, 0 <= k <= 10000 /\ round x dpScore = (f64_of_Z k / f64_of_Z 10000)%f64.
Proof.
  intros V S U. assert (Zx : zb 1 x) by (apply zb_nonneg_le; [lia|exact V|now apply psign_nonneg|exact U]).
  assert (Zp : zb 10000 (f64_of_Z 10000)) by (apply zb_of_Z; lia).
  assert (P : signed false (x * pow10 dpScore)%f64).
  { change (pow10 dpScore) with (pos_f 5497558138880000 (-39)). apply psign_mul_pos_r; [exact V|reflexivity|exact S]. }
  destruct (math_Round_int 10000 (x * pow10 dpScore)%f64) as (k & Hk & E); [lia| |exact P|].
  - change (pow10 dpScore) with (f64_of_Z 10000). apply (zb_mul 1 10000); auto; lia.
  - exists k. split; [exact Hk|]. unfold round. rewrite E. reflexivity.
Qed.

(** Note: rounding keeps scores scores: whatever score or ratio in [0,1] is published, the
    rounded value is one of the ten thousand and one fractions [k/10000], so it is still
    in [0,1]; an absent value stays absent. *)
Theorem published_scores_in_range (x : option float64) :
  (forall v, x = Some v -> valid v = true /\ signed false v /\ fleb v f1 = true) ->
  match RoundScore x with
  | None => x = None
  | Some r => is_Some x /\ nonneg r /\ fleb r f1 = true /\ exists k, 0 <= k <= 10000 /\ r = (f64_of_Z k / f64_of_Z 10000)%f64
  end.
Proof.
  intros Hx. destruct x as [v|]; [|reflexivity]. cbn. destruct (Hx v eq_refl) as (V & S & U). destruct (round_unit v V S U) as (k & Hk & E).
  split; [eauto|]. rewrite E. split; [|split; [|eauto]].
  - change (f64_of_Z 10000) with (pos_f 5497558138880000 (-39)). apply psign_nonneg, psign_div_finite_den.
    destruct (f64_of_Z_exact k ltac:(lia)) as [F _]. pose proof (f64_of_Z_nonneg k ltac:(lia)) as N.
    unfold signed. destruct (Z.eq_dec k 0) as [->|]; [now left|]. apply nonneg_shape in N as [E0|[[s E0]|N]]; [now rewrite E0 in F| |now right; right].
    pose proof (f64_of_Z_pos k ltac:(lia)) as P. now rewrite E0 in P.
  - apply fdiv_le_1; auto with fiq; [apply f64_of_Z_nonneg; lia|]. apply f64_of_Z_le; lia.
Qed.

Lemma published_scores_in_range_witness : match RoundScore (Some (f64_lit 2 3)) with Some r => fleb r f1 = true | None => False end.
Proof.
  pose proof (published_scores_in_range (Some (f64_lit 2 3))) as H. cbn [RoundScore roundPtr fmap option_fmap option_map] in *. apply H.
  intros v [= <-]. split; [vm_compute; reflexivity|]. split; [|vm_compute; reflexivity]. right. right. vm_compute. eauto.
Defined.

(** ** freshness.go *)

Definition FreshnessFresh : string := "fresh".
Definition FreshnessDelayed : string := "delayed".
Definition FreshnessStale : string := "stale".
Definition FreshnessUnavailable : string := "unavailable".

Record Freshness := MkFreshness {
  fr_State : string;
  fr_LastUpdated : option Time;
  fr_AgeSeconds : Z;
  fr_ThresholdSeconds : Z;
  fr_Reason : string
}.

(** [int64(d.Seconds())] *)
Definition whole_seconds (d : Duration) : Z := default 0 (f64_to_Z (Seconds d)).

Definition ComputeFreshness (lastUpdated : option Time) (now : Time) (freshMax staleMax : Duration) (unavailableReason : string) : Freshness :=
  match lastUpdated with
  | None => MkFreshness FreshnessUnavailable None 0 0 unavailableReason
  | Some t =>
      let age := Sub now t in
      let age := if age <? 0 then 0 else age in
      let state := if age <=? freshMax then FreshnessFresh else if age <=? staleMax then FreshnessDelayed else FreshnessStale in
      MkFreshness state (Some t) (whole_seconds age) (whole_seconds freshMax) ""
  end.

(** ** context.go *)

Record Principal := MkPrincipal {
  rp_UserID : option uuid;
  rp_WorkspaceID : option uuid;
  rp_Email : string;
  rp_Role : string;
  rp_Name : string;
  rp_Method : string;
  rp_Scopes : list string
}.

Definition IsAdmin (p : Principal) : bool := String.eqb (rp_Role p) "admin".

Definition HasScope (p : Principal) (scope : string) : bool :=
  if negb (String.eqb (rp_Method p) "api_key") then true
  else if String.eqb scope "" || String.eqb scope "read:public" then true
  else existsb (fun s => String.eqb s scope) (rp_Scopes p).

(** ** envelope.go *)

Record Attribution := MkAttribution { at_Provider : string; at_Text : string; at_URL : string }.
Record Warning := MkWarning { wa_ProviderID : string; wa_Code : string; wa_Message : string; wa_Since : string }.
Record Pagination := MkPagination { pa_NextCursor : string; pa_HasMore : bool }.
Record Provenance := MkProvenance {
  pv_Mix : gmap string float64; pv_Sources : list string; pv_QualityWeightingApplied : option bool
}.

Record Options := MkOptions {
  op_RequestID : string;
  op_Timezone : string;
  op_Units : list (string * string);
  op_MethodologyVersion : string;
  op_WeightsVersion : string;
  op_Freshness : option Freshness;
  op_Provenance : option Provenance;
  op_Attribution : list Attribution;
  op_Warnings : list Warning;
  op_Pagination : option Pagination
}.

(** The envelope over the data of type [A]; [JSON] sets the partial flag. *)
Record Envelope (A : Type) := MkEnvelope { env_Data : A; env_Options : Options; env_GeneratedAt : Time; env_PartialResult : bool }.
Arguments MkEnvelope {A}.
Arguments env_Data {A}.
Arguments env_Options {A}.
Arguments env_GeneratedAt {A}.
Arguments env_PartialResult {A}.

Definition JSON {A} (data : A) (opts : Options) (now : Time) : Envelope A :=
  MkEnvelope data opts now (bool_decide (op_Warnings opts <> [])).

(** ** errors.go *)

(** The causes [Classify] tells apart. *)
Inductive ApiError :=
| Catalog_ (e : CatalogService.CatalogError)
| CatalogInactive
| Collection_ (e : Collection.CollectError)
| Identity_ (e : Identity.IdentityError)
| FieldMessage (field message : string)
| ErrUnauthorized | ErrForbidden | ErrRateLimited | ErrPayloadTooLarge
| MaxBytesError
| Other (text : string).

Record ExistingResource := MkExisting { er_ID : string; er_Name : string; er_DistanceDegrees : float64 }.

Record Problem := MkProblem {
  pr_Type : string;
  pr_Title : string;
  pr_Status : Z;
  pr_Detail : string;
  pr_Instance : string;
  pr_RequestID : string;
  pr_Retryable : bool;
  pr_Errors : list (string * string);
  pr_ExistingResource : option ExistingResource
}.

Definition errorBase : string := "https://forecastiq.example/errors/".

Class Texts := { fmt6 : float64 -> string; quoted : string -> string }.

Definition status_text (s : Catalog.Status) : string :=
  match s with
  | Catalog.StatusActive => "active" | Catalog.StatusDisabled => "disabled" | Catalog.StatusArchived => "archived"
  | Catalog.StatusOther s => s
  end.

Definition validation_text (fs : list CatalogService.FieldError) : string :=
  "validation failed: " +:+ String.concat "; " ((fun f => CatalogService.Field f +:+ ": " +:+ CatalogService.Message f) <$> fs).

Section Classify.
Context `{Texts}.

Definition Classify (err : ApiError) (requestID instance : string) : Problem :=
  let problem cls title status detail retryable errors existing :=
    MkProblem (errorBase +:+ cls) title status detail instance requestID retryable errors existing in
  let plain cls title status detail retryable := problem cls title status detail retryable [] None in
  let field f m := problem "validation" "Validation Error" 422 m true [(f, m)] None in
  let not_found := plain "not_found" "Not Found" 404 "The requested resource was not found." false in
  let inactive := plain "validation" "Resource Inactive" 422 "The provider, location, or configuration is not active." false in
  let unauthorized := plain "unauthorized" "Unauthorized" 401 "Authentication is required to access this resource." true in
  let internal := plain "internal" "Internal Server Error" 500 "An unexpected error occurred." true in
  let too_large := plain "payload_too_large" "Payload Too Large" 413 "The request body exceeds the maximum allowed size." false in
  match err with
  | Catalog_ (CatalogService.ValidationError fs) =>
      problem "validation" "Validation Error" 422 (validation_text fs) true ((fun f => (CatalogService.Field f, CatalogService.Message f)) <$> fs) None
  | FieldMessage f m | Identity_ (Identity.FieldErr f m) => field f m
  | Catalog_ (CatalogService.DuplicateLocationError id name d) =>
      problem "duplicate" "Duplicate Location" 409
        ("location " +:+ fmt6 d +:+ "° from existing location " +:+ quoted name +:+ " (id=" +:+ Uuid.to_string id +:+ "); near-duplicate (BR-LOC-01)")
        true [] (Some (MkExisting (Uuid.to_string id) name d))
  | Catalog_ (CatalogService.NameConflictError name) =>
      plain "conflict" "Name Conflict" 409 ("an active location named " +:+ quoted name +:+ " already exists in this workspace") true
  | Catalog_ (CatalogService.StatusTransitionError from to) =>
      plain "conflict" "Invalid Status Transition" 409 ("invalid status transition " +:+ status_text from +:+ " → " +:+ status_text to) false
  | Collection_ (Collection.CircuitOpenError _ _) =>
      plain "conflict" "Provider Circuit Open" 409 "The provider circuit breaker is open; collection is temporarily blocked." true
  | Catalog_ CatalogService.ErrNotFound | Collection_ Collection.ErrNotFound
  | Identity_ Identity.ErrUserNotFound | Identity_ Identity.ErrKeyNotFound | Identity_ Identity.ErrExportNotFound => not_found
  | CatalogInactive | Collection_ Collection.ErrInactive => inactive
  | Collection_ Collection.ErrPayloadUnavailable =>
      plain "payload_unavailable" "Payload Unavailable" 422 "The raw payload is unavailable (expired or corrupt)." false
  | Collection_ Collection.ErrReplayUnsupported =>
      plain "validation" "Replay Unsupported" 422 "The provider adapter does not support payload replay." false
  | ErrUnauthorized | Identity_ Identity.ErrInvalidToken | Identity_ Identity.ErrTokenExpired | Identity_ Identity.ErrInvalidCredential
  | Identity_ Identity.ErrKeyInactive | Identity_ Identity.ErrUserDisabled => unauthorized
  | ErrForbidden => plain "forbidden" "Forbidden" 403 "You do not have permission to perform this action." false
  | Identity_ Identity.ErrSelfLockout => plain "conflict" "Self-Lockout Prevented" 409 "You cannot disable or delete your own admin account." false
  | Identity_ Identity.ErrExportInProgress => plain "conflict" "Export In Progress" 409 "An export is already in progress for this user." true
  | Identity_ Identity.ErrExportExpired => plain "gone" "Export Expired" 410 "The export download window has closed; request a new export." false
  | Identity_ Identity.ErrUpstreamAuth =>
      plain "upstream_unavailable" "Auth Provider Unavailable" 502
        "The change could not be propagated to the authentication provider; no change was made." true
  | ErrRateLimited => plain "rate_limited" "Rate Limited" 429 "Too many requests; please retry later." true
  | ErrPayloadTooLarge | MaxBytesError => too_large
  | Identity_ Identity.ErrDuplicateSubject | Other _ => internal
  end.

(** Errors that say why a credential was refused. *)
Definition credential_error (e : ApiError) : bool :=
  match e with
  | ErrUnauthorized | Identity_ Identity.ErrInvalidToken | Identity_ Identity.ErrTokenExpired | Identity_ Identity.ErrInvalidCredential
  | Identity_ Identity.ErrKeyInactive | Identity_ Identity.ErrUserDisabled => true
  | _ => false
  end.

(** Note: the answers give nothing away: every refused credential is answered alike,
    whatever the reason, and an unexpected error is answered without its text. *)
Theorem answers_disclose_nothing (e1 e2 : ApiError) (t1 t2 requestID instance : string) :
  (credential_error e1 = true -> credential_error e2 = true -> Classify e1 requestID instance = Classify e2 requestID instance) /\
  Classify (Other t1) requestID instance = Classify (Other t2) requestID instance.
Proof.
  split; [|reflexivity]. assert (C : forall e, credential_error e = true -> Classify e requestID instance = Classify ErrUnauthorized requestID instance).
  { intros [ | | |[]| | | | | | | ]; now try discriminate. }
  intros A B. now rewrite (C e1 A), (C e2 B).
Qed.
End Classify.
End Respond.
