(* ===== verification/Api.v ===== *)
(** * The HTTP layer ([internal/api], [internal/api/handlers])

    The middleware chain, the router with the gates of every route, and the handlers
    of the identity surface: profile, API keys, user administration, exports, audit
    trail and auth webhook.  The router library finds the route of a request; a
    request carries the route pattern it found, the path parameters, the query and the
    headers.  A request body is what the binder makes of it: unreadable, or its fields.
    Handlers of the other components are reached ([Elsewhere]) and modelled there: here
    they leave the identity tables alone, and the audit events they append are part of
    their own components; the
    response cache in front of the public reads is the component [Cache].  Logging and
    metrics are left out. *)

From Stdlib Require Import ZArith Lia Bool String.
From stdpp Require Import base list strings gmap.
From S2P Require Import Prelude GoTime Uuid GoStrings Effects CatalogService Credential Identity Limiter Respond.

Import Respond.
Local Open Scope string_scope.
Local Open Scope list_scope.
Local Open Scope Z_scope.

Module Api.

(** ** Requests and replies *)

(** What [ShouldBindJSON] or the raw body gives. *)
Inductive Body :=
| Unreadable                                   (** no JSON, a wrong type, or over the size limit *)
| ProfileBody (defaultLocationID : option string) (preferences : option Identity.JSONMap)
| KeyBody (name : string) (scopes : list string) (rateLimitPerMin : Z) (expiresAt : option Time)
| StatusBody (status : string)
| RoleBody (role : string)
| RawBody (text : string).

Record Request := MkRequest {
  rq_Method : string;
  rq_Route : string;
  rq_Path : string;
  rq_Params : list (string * string);
  rq_Query : list (string * string);
  rq_Headers : list (string * string);
  rq_ContentLength : Z;
  rq_ClientIP : string;
  rq_RequestID : string;
  rq_Body : Body
}.

Fixpoint assoc (k : string) (l : list (string * string)) : string :=
  match l with [] => "" | (k', v) :: l => if String.eqb k k' then v else assoc k l end.

Definition GetHeader (r : Request) (name : string) : string := assoc name (rq_Headers r).
Definition Query (r : Request) (name : string) : string := assoc name (rq_Query r).
Definition Param (r : Request) (name : string) : string := assoc name (rq_Params r).

Record userDTO := MkUserDTO {
  ud_ID : string; ud_Email : string; ud_Role : string; ud_Status : string; ud_DefaultLocationID : option string;
  ud_Preferences : Identity.JSONMap; ud_CreatedAt : Time; ud_LastLoginAt : option Time
}.

Definition userToDTO (u : Identity.User) : userDTO :=
  MkUserDTO (Uuid.to_string (Identity.u_ID u)) (Identity.u_Email u) (Identity.u_Role u) (Identity.u_Status u)
    (Uuid.to_string <$> Identity.u_DefaultLocationID u) (Identity.u_Preferences u) (Identity.u_CreatedAt u) (Identity.u_LastLoginAt u).

Record apiKeyDTO := MkApiKeyDTO {
  kd_ID : string; kd_Name : string; kd_KeyPrefix : string; kd_Scopes : list string; kd_RateLimitPerMin : Z;
  kd_ExpiresAt : option Time; kd_CreatedAt : Time; kd_RevokedAt : option Time; kd_LastUsedAt : option Time
}.

Definition apiKeyToDTO (k : Identity.APIKey) : apiKeyDTO :=
  MkApiKeyDTO (Uuid.to_string (Identity.k_ID k)) (Identity.k_Name k) (Identity.k_KeyPrefix k) (Identity.k_Scopes k) (Identity.k_RateLimitPerMin k)
    (Identity.k_ExpiresAt k) (Identity.k_CreatedAt k) (Identity.k_RevokedAt k) (Identity.k_LastUsedAt k).

Record exportJobDTO := MkExportJobDTO {
  jd_ID : string; jd_Status : string; jd_DownloadURL : string; jd_ExpiresAt : option Time; jd_CreatedAt : Time
}.

Definition exportJobToDTO (j : Identity.ExportJob) : exportJobDTO :=
  MkExportJobDTO (Uuid.to_string (Identity.j_ID j)) (Identity.j_Status j)
    (if String.eqb (Identity.j_Status j) "completed" then "/api/v1/exports/" +:+ Uuid.to_string (Identity.j_ID j) else "")
    (Identity.j_ExpiresAt j) (Identity.j_CreatedAt j).

Record auditEventDTO := MkAuditEventDTO {
  ad_ID : string; ad_UserID : option string; ad_Action : string; ad_ResourceType : string; ad_ResourceID : option string;
  ad_Details : list (string * string); ad_IPAddress : string; ad_CreatedAt : Time
}.

Definition auditEventToDTO (e : Identity.RecordedEvent) : auditEventDTO :=
  MkAuditEventDTO (Uuid.to_string (Identity.e_ID e)) (Uuid.to_string <$> Identity.e_UserID e) (Identity.e_Action e) (Identity.e_ResourceType e)
    (Uuid.to_string <$> Identity.e_ResourceID e) (Identity.e_Details e) (Identity.e_IPAddress e) (Identity.e_CreatedAt e).

Inductive Payload :=
| PUser (u : userDTO)
| PKeys (ks : list apiKeyDTO)
| PCreatedKey (k : apiKeyDTO) (plaintext : string)
| PUsers (us : list userDTO)
| PExport (j : exportJobDTO)
| PFile (filename : string) (doc : Identity.ExportDoc)
| PEvents (es : list auditEventDTO).

Inductive Reply :=
| Answer (status : Z) (p : Payload) (page : option Pagination)
| NoContent
| ProblemReply (p : Problem).

(** ** middleware.go, security.go *)

(** [principalFromIdentity] *)
Definition method_text (m : Identity.AuthMethod) : string := match m with Identity.AuthJWT => "jwt" | Identity.AuthAPIKey => "api_key" end.

Definition principalFromIdentity (p : Identity.Principal) : Respond.Principal :=
  Respond.MkPrincipal (Some (Identity.p_UserID p)) (Some (Identity.p_WorkspaceID p)) (Identity.p_Email p) (Identity.p_Role p) (Identity.p_Email p)
    (method_text (Identity.p_Method p)) (Identity.p_Scopes p).

(** Which authenticators are wired. *)
Record Auth := MkAuth { a_Users : bool; a_Keys : bool }.

Definition SecurityHeaders (r : Request) : list (string * string) :=
  [("X-Content-Type-Options", "nosniff"); ("X-Frame-Options", "DENY"); ("Referrer-Policy", "strict-origin-when-cross-origin");
   ("X-XSS-Protection", "0"); ("Permissions-Policy", "camera=(), microphone=(), geolocation=()");
   ("Content-Security-Policy", "default-src 'none'; frame-ancestors 'none'")]
  ++ (if existsb (String.eqb (rq_Method r)) ["GET"; "HEAD"; "OPTIONS"] then [] else [("Cache-Control", "no-store")]).

Definition CORS (allowOrigins : list string) (r : Request) : list (string * string) * option Reply :=
  let origin := GetHeader r "Origin" in
  ((if negb (String.eqb origin "") && existsb (String.eqb origin) allowOrigins then
      [("Access-Control-Allow-Origin", origin);
       ("Access-Control-Allow-Headers", "Authorization, X-API-Key, Idempotency-Key, X-Request-Id, Content-Type");
       ("Access-Control-Allow-Methods", "GET, POST, PUT, PATCH, DELETE, OPTIONS"); ("Access-Control-Max-Age", "3600")]
    else []),
   if String.eqb (rq_Method r) "OPTIONS" then Some NoContent else None).

(** ** router.go *)

Inductive Handler :=
| Healthz | Readyz | ServeOpenAPI | AuthWebhook
| ListLocations | GetLocation | ListProviders | GetProvider
| Rankings | RankingsMethodology | AccuracySummary | AccuracyTrends | ForecastComparison
| LatestForecast
| GetMe | UpdateMe | DeleteMe | RequestMyExport | DownloadExport | ListAPIKeys | CreateAPIKey | RevokeAPIKey
| CreateLocation | UpdateLocation | SetLocationStatus | TriggerCollection | ReplayCollection | ListCollections | GetCollection
| CollectionSnapshots | AdminHealth | SetProviderStatus | ListProviderConfigurations | UpdateProviderConfiguration | AuditEvents
| AdminRecompute | ListUsers | SetUserStatus | SetUserRole | DeleteUser | RequestUserExport.

#[export] Instance Handler_eq_dec : EqDecision Handler.
Proof. solve_decision. Defined.

(** The handlers a route puts before its own. *)
Inductive Gate := GRateLimit | GCache | GAuth | GRole (role : string) | GScope (scope : string).

Record Route := MkRoute { rt_Method : string; rt_Path : string; rt_Gates : list Gate; rt_Handler : Handler }.

Record RouterConfig := MkRouterConfig {
  rc_Auth : Auth;
  rc_CORSAllowOrigins : list string;
  rc_BodyLimit : Z;
  rc_WebhookSecret : string
}.

Definition group (prefix : string) (gates : list Gate) (rs : list (string * string * list Gate * Handler)) : list Route :=
  (fun '(m, p, g, h) => MkRoute m (prefix +:+ p) (gates ++ g) h) <$> rs.

Definition routes (cfg : RouterConfig) : list Route :=
  group "" [] [("GET", "/healthz", [], Healthz); ("GET", "/readyz", [], Readyz)]
  ++ group "/api/v1" [GRateLimit]
       ([("GET", "/openapi.json", [], ServeOpenAPI)]
        ++ (if String.eqb (rc_WebhookSecret cfg) "" then [] else [("POST", "/auth/webhook", [], AuthWebhook)])
        ++ [("GET", "/locations", [GCache], ListLocations); ("GET", "/locations/:id", [GCache], GetLocation);
            ("GET", "/providers", [GCache], ListProviders); ("GET", "/providers/:id", [GCache], GetProvider);
            ("GET", "/rankings", [GCache], Rankings); ("GET", "/rankings/methodology", [GCache], RankingsMethodology);
            ("GET", "/accuracy/summary", [GCache], AccuracySummary); ("GET", "/accuracy", [GCache], AccuracyTrends);
            ("GET", "/forecast-comparison", [GCache], ForecastComparison);
            ("GET", "/forecasts/latest", [GAuth; GScope "read:data"], LatestForecast)])
  ++ group "/api/v1" [GRateLimit; GAuth]
       [("GET", "/me", [], GetMe); ("PATCH", "/me", [], UpdateMe); ("DELETE", "/me", [], DeleteMe); ("POST", "/me/export", [], RequestMyExport);
        ("GET", "/exports/:id", [], DownloadExport); ("GET", "/api-keys", [], ListAPIKeys); ("POST", "/api-keys", [], CreateAPIKey);
        ("DELETE", "/api-keys/:id", [], RevokeAPIKey)]
  ++ group "/api/v1" [GRateLimit; GAuth; GRole "admin"]
       [("POST", "/locations", [], CreateLocation); ("PUT", "/locations/:id", [], UpdateLocation);
        ("PATCH", "/locations/:id/status", [], SetLocationStatus); ("POST", "/admin/collections/trigger", [], TriggerCollection);
        ("POST", "/admin/collections/:id/replay", [], ReplayCollection); ("GET", "/forecast-collections", [], ListCollections);
        ("GET", "/forecast-collections/:id", [], GetCollection); ("GET", "/forecast-collections/:id/snapshots", [], CollectionSnapshots);
        ("GET", "/admin/health", [], AdminHealth); ("PATCH", "/admin/providers/:id/status", [], SetProviderStatus);
        ("GET", "/admin/provider-configurations", [], ListProviderConfigurations);
        ("PATCH", "/admin/provider-configurations/:id", [], UpdateProviderConfiguration); ("GET", "/admin/audit-events", [], AuditEvents);
        ("POST", "/admin/recompute", [], AdminRecompute); ("GET", "/admin/users", [], ListUsers);
        ("PATCH", "/admin/users/:id/status", [], SetUserStatus); ("PATCH", "/admin/users/:id/role", [], SetUserRole);
        ("DELETE", "/admin/users/:id", [], DeleteUser); ("POST", "/admin/users/:id/export", [], RequestUserExport)].

Definition find_route (cfg : RouterConfig) (r : Request) : option Route :=
  List.find (fun rt => String.eqb (rt_Method rt) (rq_Method r) && String.eqb (rt_Path rt) (rq_Route r)) (routes cfg).

Definition bodyLimit (cfg : RouterConfig) : Z := if rc_BodyLimit cfg <=? 0 then 1048576 else rc_BodyLimit cfg.
(** ** webhook.go: what it takes from outside *)

Record webhookPayload := MkWebhookPayload {
  wp_Type : string; wp_Event : string; wp_Subject : string; wp_UserID : string; wp_IP : string; wp_User_ID : string; wp_Record_ID : string
}.

(** HMAC-SHA256 of a body under a key, and the JSON of the payload. *)
Class Webhooks := {
  hmac_sha256 : string -> string -> list Z;
  parse_payload : string -> option webhookPayload;
}.

Definition webhookMaxBody : nat := 1048576.

Fixpoint firstNonEmpty (vals : list string) : string :=
  match vals with [] => "" | v :: vals => if String.eqb v "" then firstNonEmpty vals else v end.

Section Serve.
Context `{Env} `{Credential.Crypto} `{Identity.Random} `{Identity.TokenVerifier} `{CatalogService.Lookups} `{Texts} `{Webhooks} (workspaceID : uuid).

Definition problem (e : ApiError) (r : Request) : Reply := ProblemReply (Classify e (rq_RequestID r) (rq_Path r)).

(** *** Authentication and gates *)

(** [Auth.resolve]: an API key first, else a bearer token; any failure is no principal. *)
Definition resolve (a : Auth) (r : Request) (now : Time) : M Identity.IdTables (option Respond.Principal) :=
  let accept (m : Identity.S Identity.Principal) : M Identity.IdTables (option Respond.Principal) :=
    bind (attempt m) (fun res => match res with Ok (inr p) => ret (Some (principalFromIdentity p)) | _ => ret None end) in
  let key := TrimSpace (GetHeader r "X-API-Key") in
  if negb (String.eqb key "") then
    if negb (a_Keys a) then ret None else accept (Identity.AuthenticateAPIKey key now)
  else
    let h := GetHeader r "Authorization" in
    if HasPrefix h "Bearer " then
      let token := TrimSpace (TrimPrefix h "Bearer ") in
      if String.eqb token "" || negb (a_Users a) then ret None else accept (Identity.Authenticate workspaceID token now)
    else ret None.

Record Server := MkServer { sv_limiter : Limiter.KeyedLimiter; sv_world : World Identity.IdTables }.

Inductive Outcome := Stopped (r : Reply) | Passed (p : option Respond.Principal).

Definition gate_step (cfg : RouterConfig) (r : Request) (now : Time) (g : Gate) (s : Server) (p : option Respond.Principal) : Server * Outcome :=
  match g with
  | GRateLimit =>
      let '(l, ok) := Limiter.KAllow now (rq_ClientIP r) (sv_limiter s) in
      (MkServer l (sv_world s), if ok then Passed p else Stopped (problem ErrRateLimited r))
  | GCache => (s, Passed p)
  | GAuth =>
      match resolve (rc_Auth cfg) r now (sv_world s) with
      | (w, Ok (Some q)) => (MkServer (sv_limiter s) w, Passed (Some q))
      | (w, _) => (MkServer (sv_limiter s) w, Stopped (problem ErrUnauthorized r))
      end
  | GRole role =>
      (s, match p with
          | None => Stopped (problem ErrUnauthorized r)
          | Some q => if String.eqb (rp_Role q) role then Passed p else Stopped (problem ErrForbidden r)
          end)
  | GScope scope =>
      (s, match p with
          | None => Stopped (problem ErrUnauthorized r)
          | Some q => if HasScope q scope then Passed p else Stopped (problem ErrForbidden r)
          end)
  end.

Fixpoint run_gates (cfg : RouterConfig) (r : Request) (now : Time) (gs : list Gate) (s : Server) (p : option Respond.Principal) : Server * Outcome :=
  match gs with
  | [] => (s, Passed p)
  | g :: gs =>
      match gate_step cfg r now g s p with
      | (s', Passed p') => run_gates cfg r now gs s' p'
      | (s', Stopped x) => (s', Stopped x)
      end
  end.

(** CORS preflight and the declared body size come before every route. *)
Definition front (cfg : RouterConfig) (r : Request) : option Reply :=
  match (CORS (rc_CORSAllowOrigins cfg) r).2 with
  | Some x => Some x
  | None => if bodyLimit cfg <? rq_ContentLength r then Some (problem ErrPayloadTooLarge r) else None
  end.

Inductive Dispatch := Refused (x : Reply) | NoRoute | Reached (h : Handler) (p : option Respond.Principal).

Definition dispatch (cfg : RouterConfig) (r : Request) (now : Time) (s : Server) : Server * Dispatch :=
  match front cfg r with
  | Some x => (s, Refused x)
  | None =>
      match find_route cfg r with
      | None => (s, NoRoute)
      | Some rt =>
          match run_gates cfg r now (rt_Gates rt) s None with
          | (s', Stopped x) => (s', Refused x)
          | (s', Passed p) => (s', Reached (rt_Handler rt) p)
          end
      end
  end.

(** *** Handlers of the identity surface *)

Definition badUUID (field : string) : ApiError := FieldMessage field "must be a valid UUID".

Definition serve_with {A} (r : Request) (m : Identity.S A) (k : A -> Reply) : M Identity.IdTables Reply :=
  bind (attempt m) (fun res => ret (match res with
    | Ok (inr a) => k a
    | Ok (inl e) => problem (Identity_ e) r
    | Error t => problem (Other t) r
    end)).

Definition refuse (e : ApiError) (r : Request) : M Identity.IdTables Reply := ret (problem e r).

(** [pathUUID] *)
Definition with_path_id (r : Request) (k : uuid -> M Identity.IdTables Reply) : M Identity.IdTables Reply :=
  match CatalogService.ids_Parse (Param r "id") with None => refuse (badUUID "id") r | Some id => k id end.

(** [currentUserID] *)
Definition with_user (r : Request) (p : option Respond.Principal) (k : uuid -> M Identity.IdTables Reply) : M Identity.IdTables Reply :=
  match p ≫= rp_UserID with None => refuse ErrUnauthorized r | Some id => k id end.

(** [principalActor]; the method and scopes are not handed on. *)
Definition principalActor (p : option Respond.Principal) : option Identity.Principal :=
  q ← p; id ← rp_UserID q; Some (Identity.MkPrincipal id (default uuid_Nil (rp_WorkspaceID q)) (rp_Email q) (rp_Role q) Identity.AuthJWT []).

Definition with_actor (r : Request) (p : option Respond.Principal) (k : Identity.Principal -> M Identity.IdTables Reply) : M Identity.IdTables Reply :=
  match principalActor p with None => refuse ErrUnauthorized r | Some a => k a end.

Definition h_GetMe (r : Request) (p : option Respond.Principal) : M Identity.IdTables Reply :=
  with_user r p (fun uid => serve_with r (Identity.GetMe uid) (fun u => Answer 200 (PUser (userToDTO u)) None)).

Definition h_UpdateMe (r : Request) (p : option Respond.Principal) (now : Time) : M Identity.IdTables Reply :=
  with_user r p (fun uid =>
    match rq_Body r with
    | ProfileBody loc prefs =>
        let update l := serve_with r (Identity.UpdateMe uid (Identity.MkUpdateProfile l prefs (rq_ClientIP r)) now)
                          (fun u => Answer 200 (PUser (userToDTO u)) None) in
        match loc with
        | None => update None
        | Some t => match CatalogService.ids_Parse t with None => refuse (badUUID "default_location_id") r | Some id => update (Some id) end
        end
    | _ => refuse (FieldMessage "body" "invalid JSON body") r
    end).

Definition h_ListAPIKeys (r : Request) (p : option Respond.Principal) : M Identity.IdTables Reply :=
  with_user r p (fun uid => serve_with r (Identity.ListKeys uid) (fun ks => Answer 200 (PKeys (apiKeyToDTO <$> ks)) None)).

Definition h_CreateAPIKey (r : Request) (p : option Respond.Principal) (now : Time) : M Identity.IdTables Reply :=
  match (q ← p; u ← rp_UserID q; w ← rp_WorkspaceID q; Some (u, w)) with
  | None => refuse ErrUnauthorized r
  | Some (u, w) =>
      match rq_Body r with
      | KeyBody name scopes rate exp =>
          if String.eqb name "" then refuse (FieldMessage "name" "name is required") r
          else serve_with r (Identity.CreateKey (Identity.MkPrincipal u w "" "" Identity.AuthJWT []) (Identity.MkCreateKeyInput name scopes rate exp (rq_ClientIP r)) now)
                 (fun '(k, plaintext) => Answer 201 (PCreatedKey (apiKeyToDTO k) plaintext) None)
      | _ => refuse (FieldMessage "name" "name is required") r
      end
  end.

Definition h_RevokeAPIKey (r : Request) (p : option Respond.Principal) (now : Time) : M Identity.IdTables Reply :=
  with_user r p (fun uid => with_path_id r (fun id =>
    serve_with r (Identity.RevokeKey uid id (rq_ClientIP r) now) (fun _ => NoContent))).

Definition h_ListUsers (r : Request) : M Identity.IdTables Reply :=
  let limit := if String.eqb (Query r "limit") "" then 50 else default 50 (Atoi (Query r "limit")) in
  match (if String.eqb (Query r "cursor") "" then Some uuid_Nil else CatalogService.ids_Parse (Query r "cursor")) with
  | None => refuse (badUUID "cursor") r
  | Some cursor =>
      serve_with r (Identity.ListUsers limit cursor) (fun us =>
        let dtos := userToDTO <$> us in
        Answer 200 (PUsers dtos)
          (if (Z.of_nat (length dtos) =? limit) && (0 <? limit)
           then (fun d => MkPagination (ud_ID d) true) <$> last dtos else None))
  end.

Definition h_SetUserStatus (r : Request) (p : option Respond.Principal) (now : Time) : M Identity.IdTables Reply :=
  with_actor r p (fun actor => with_path_id r (fun id =>
    match rq_Body r with
    | StatusBody s =>
        if String.eqb s "" then refuse (FieldMessage "status" "status is required") r
        else serve_with r (Identity.SetStatus actor id s (rq_ClientIP r) now) (fun u => Answer 200 (PUser (userToDTO u)) None)
    | _ => refuse (FieldMessage "status" "status is required") r
    end)).

Definition h_SetUserRole (r : Request) (p : option Respond.Principal) (now : Time) : M Identity.IdTables Reply :=
  with_actor r p (fun actor => with_path_id r (fun id =>
    match rq_Body r with
    | RoleBody s =>
        if String.eqb s "" then refuse (FieldMessage "role" "role is required") r
        else serve_with r (Identity.SetRole actor id s (rq_ClientIP r) now) (fun u => Answer 200 (PUser (userToDTO u)) None)
    | _ => refuse (FieldMessage "role" "role is required") r
    end)).

Definition h_DeleteUser (r : Request) (p : option Respond.Principal) (now : Time) : M Identity.IdTables Reply :=
  with_actor r p (fun actor => with_path_id r (fun id =>
    serve_with r (Identity.DeleteAccount actor id false (rq_ClientIP r) now) (fun _ => NoContent))).

Definition h_DeleteMe (r : Request) (p : option Respond.Principal) (now : Time) : M Identity.IdTables Reply :=
  with_actor r p (fun actor =>
    serve_with r (Identity.DeleteAccount actor (Identity.p_UserID actor) true (rq_ClientIP r) now) (fun _ => NoContent)).

Definition h_RequestMyExport (r : Request) (p : option Respond.Principal) (now completedAt : Time) : M Identity.IdTables Reply :=
  with_actor r p (fun actor =>
    serve_with r (Identity.RequestExport workspaceID actor (Identity.p_UserID actor) (rq_ClientIP r) now completedAt)
      (fun j => Answer 201 (PExport (exportJobToDTO j)) None)).

Definition h_RequestUserExport (r : Request) (p : option Respond.Principal) (now completedAt : Time) : M Identity.IdTables Reply :=
  with_actor r p (fun actor => with_path_id r (fun id =>
    serve_with r (Identity.RequestExport workspaceID actor id (rq_ClientIP r) now completedAt) (fun j => Answer 201 (PExport (exportJobToDTO j)) None))).

Definition h_DownloadExport (r : Request) (p : option Respond.Principal) (now : Time) : M Identity.IdTables Reply :=
  with_actor r p (fun actor => with_path_id r (fun id =>
    serve_with r (Identity.DownloadExport actor id now)
      (fun doc => Answer 200 (PFile ("forecastiq-export-" +:+ Uuid.to_string id +:+ ".json") doc) None))).

Definition h_AuditEvents (r : Request) : M Identity.IdTables Reply :=
  let opt name := if String.eqb (Query r name) "" then None else Some (Query r name) in
  match (if String.eqb (Query r "user_id") "" then Some None else Some <$> CatalogService.ids_Parse (Query r "user_id")) with
  | None => refuse (badUUID "user_id") r
  | Some uid =>
      match (if String.eqb (Query r "cursor") "" then Some uuid_Nil else CatalogService.ids_Parse (Query r "cursor")) with
      | None => refuse (badUUID "cursor") r
      | Some cursor =>
          let limit := if String.eqb (Query r "limit") "" then 50 else default 50 (Atoi (Query r "limit")) in
          serve_with r (Identity.ListEvents (Identity.MkFilter (opt "action") (opt "resource_type") uid cursor limit))
            (fun '(es, next) => Answer 200 (PEvents (auditEventToDTO <$> es))
              (Some (MkPagination (default "" (Uuid.to_string <$> next)) (bool_decide (is_Some next)))))
      end
  end.

(** *** webhook.go *)

Definition verifyWebhookSignature (secret header body : string) : bool :=
  if String.eqb secret "" || String.eqb header "" then false
  else String.eqb (TrimPrefix header "sha256=") (Credential.hex_EncodeToString (hmac_sha256 secret body)).

Definition h_AuthWebhook (secret : string) (r : Request) (now : Time) : M Identity.IdTables Reply :=
  match rq_Body r with
  | RawBody text =>
      let body := String.substring 0 webhookMaxBody text in
      if negb (verifyWebhookSignature secret (GetHeader r "X-Webhook-Signature") body) then refuse ErrUnauthorized r
      else match parse_payload body with
           | None => ret NoContent
           | Some p =>
               bind (attempt (Identity.Ingest (firstNonEmpty [wp_Type p; wp_Event p])
                 (firstNonEmpty [wp_Subject p; wp_UserID p; wp_User_ID p; wp_Record_ID p]) (firstNonEmpty [wp_IP p; rq_ClientIP r]) now))
                 (fun _ => ret NoContent)
           end
  | _ => refuse ErrUnauthorized r
  end.

(** *** A whole request *)

Inductive Result := Replied (x : Reply) | NotFound | Elsewhere (h : Handler) (p : option Respond.Principal).

Definition handler (cfg : RouterConfig) (h : Handler) (r : Request) (p : option Respond.Principal) (now completedAt : Time) : option (M Identity.IdTables Reply) :=
  match h with
  | AuthWebhook => Some (h_AuthWebhook (rc_WebhookSecret cfg) r now)
  | GetMe => Some (h_GetMe r p)
  | UpdateMe => Some (h_UpdateMe r p now)
  | DeleteMe => Some (h_DeleteMe r p now)
  | RequestMyExport => Some (h_RequestMyExport r p now completedAt)
  | DownloadExport => Some (h_DownloadExport r p now)
  | ListAPIKeys => Some (h_ListAPIKeys r p)
  | CreateAPIKey => Some (h_CreateAPIKey r p now)
  | RevokeAPIKey => Some (h_RevokeAPIKey r p now)
  | AuditEvents => Some (h_AuditEvents r)
  | ListUsers => Some (h_ListUsers r)
  | SetUserStatus => Some (h_SetUserStatus r p now)
  | SetUserRole => Some (h_SetUserRole r p now)
  | DeleteUser => Some (h_DeleteUser r p now)
  | RequestUserExport => Some (h_RequestUserExport r p now completedAt)
  | _ => None
  end.

(** The panic handler: an error that a handler does not answer is a 500. *)
Definition serve (cfg : RouterConfig) (r : Request) (now completedAt : Time) (s : Server) : Server * Result :=
  match dispatch cfg r now s with
  | (s', Refused x) => (s', Replied x)
  | (s', NoRoute) => (s', NotFound)
  | (s', Reached h p) =>
      match handler cfg h r p now completedAt with
      | None => (s', Elsewhere h p)
      | Some m =>
          match m (sv_world s') with
          | (w, Ok x) => (MkServer (sv_limiter s') w, Replied x)
          | (w, Error _) => (MkServer (sv_limiter s') w, Replied (problem (Other "internal") r))
          end
      end
  end.
End Serve.

End Api.
