(* ===== verification/ApiProps.v ===== *)
(** * Who may do what over HTTP

    The access policy of the API as a function of the handler, that the router with
    its gates is exactly that policy, and what follows for whole requests: each runs
    at most two identity commands, the check of the credential it carries and one
    command on behalf of the user that credential belongs to.  Every request is then
    a short sequence of the commands of [Identity], and what [IdentityProps] shows of
    those sequences holds of any traffic. *)

From Stdlib Require Import ZArith Lia Bool String.
From stdpp Require Import base list strings gmap.
From S2P Require Import Prelude GoTime Uuid GoStrings Effects CatalogService Credential Identity IdentityProps Limiter Respond Api.

Import Api.
Local Open Scope string_scope.
Local Open Scope list_scope.
Local Open Scope Z_scope.

Module ApiProps.

(** ** The policy *)

Inductive Access := Anyone | Scoped (scope : string) | AnyUser | Administrators.

Definition access (h : Handler) : Access :=
  match h with
  | Healthz | Readyz | ServeOpenAPI | AuthWebhook | ListLocations | GetLocation | ListProviders | GetProvider
  | Rankings | RankingsMethodology | AccuracySummary | AccuracyTrends | ForecastComparison => Anyone
  | LatestForecast => Scoped "read:data"
  | GetMe | UpdateMe | DeleteMe | RequestMyExport | DownloadExport | ListAPIKeys | CreateAPIKey | RevokeAPIKey => AnyUser
  | _ => Administrators
  end.

(** The probes of the platform are not rate limited. *)
Definition probe (h : Handler) : bool := match h with Healthz | Readyz => true | _ => false end.

Definition permits (a : Access) (q : Respond.Principal) : bool :=
  match a with
  | Anyone | AnyUser => true
  | Scoped s => Respond.HasScope q s
  | Administrators => String.eqb (Respond.rp_Role q) "admin"
  end.

Section Traffic.
Context `{Env} `{Credential.Crypto} `{Identity.Random} `{Identity.TokenVerifier} `{CatalogService.Lookups} `{Respond.Texts} `{Webhooks} (workspaceID : uuid).

(** What a request to a handler goes through, from the policy alone. *)
Definition grant (cfg : RouterConfig) (r : Request) (now : Time) (h : Handler) (s : Server) : Server * Dispatch :=
  match access h with
  | Anyone => (s, Reached h None)
  | a =>
      match resolve workspaceID (rc_Auth cfg) r now (sv_world s) with
      | (w, Ok (Some q)) =>
          (MkServer (sv_limiter s) w, if permits a q then Reached h (Some q) else Refused (problem Respond.ErrForbidden r))
      | (w, _) => (MkServer (sv_limiter s) w, Refused (problem Respond.ErrUnauthorized r))
      end
  end.

Definition policy (cfg : RouterConfig) (r : Request) (now : Time) (s : Server) : Server * Dispatch :=
  match front cfg r, find_route cfg r with
  | Some x, _ => (s, Refused x)
  | None, None => (s, NoRoute)
  | None, Some rt =>
      let h := rt_Handler rt in
      if probe h then grant cfg r now h s
      else
        let '(l, ok) := Limiter.KAllow now (rq_ClientIP r) (sv_limiter s) in
        let s := MkServer l (sv_world s) in
        if ok then grant cfg r now h s else (s, Refused (problem Respond.ErrRateLimited r))
  end.

(** The gates the policy asks for. *)
Definition access_gates (a : Access) : list Gate :=
  match a with
  | Anyone => []
  | Scoped s => [GAuth; GScope s]
  | AnyUser => [GAuth]
  | Administrators => [GAuth; GRole "admin"]
  end.

Definition gate_eqb (g g' : Gate) : bool :=
  match g, g' with
  | GRateLimit, GRateLimit | GCache, GCache | GAuth, GAuth => true
  | GRole a, GRole b | GScope a, GScope b => String.eqb a b
  | _, _ => false
  end.

Fixpoint gates_eqb (l l' : list Gate) : bool :=
  match l, l' with [], [] => true | g :: l, g' :: l' => gate_eqb g g' && gates_eqb l l' | _, _ => false end.

Lemma gates_eqb_eq l l' : gates_eqb l l' = true -> l = l'.
Proof.
  revert l'. induction l as [|g l IH]; intros [|g' l'] E; try discriminate; [reflexivity|].
  cbn in E. apply andb_prop in E as [G E%IH]. subst l'. f_equal. destruct g, g'; try discriminate; try reflexivity; now apply String.eqb_eq in G as ->.
Qed.

Definition no_cache (gs : list Gate) : list Gate := List.filter (fun g => negb (gate_eqb g GCache)) gs.

Definition guarded (rt : Route) : bool :=
  gates_eqb (no_cache (rt_Gates rt)) ((if probe (rt_Handler rt) then [] else [GRateLimit]) ++ access_gates (access (rt_Handler rt))).

(** The table of routes, read against the policy. *)
Lemma routes_checked cfg rt : rt ∈ routes cfg -> guarded rt = true.
Proof.
  assert (F : forallb guarded (routes cfg) = true) by (unfold routes; destruct (String.eqb (rc_WebhookSecret cfg) ""); vm_compute; reflexivity).
  rewrite forallb_forall in F. intros Hr. now apply F, list_elem_of_In.
Qed.

Lemma run_no_cache cfg r now gs : forall s p, run_gates workspaceID cfg r now gs s p = run_gates workspaceID cfg r now (no_cache gs) s p.
Proof.
  induction gs as [|g gs IH]; intros s p; [reflexivity|]. destruct g; cbn; rewrite ?IH; try reflexivity;
    repeat case_match; rewrite ?IH; reflexivity.
Qed.

Lemma grant_gates cfg r now h s :
  match run_gates workspaceID cfg r now (access_gates (access h)) s None with
  | (s', Stopped x) => (s', Refused x)
  | (s', Passed p) => (s', Reached h p)
  end = grant cfg r now h s.
Proof.
  unfold grant. destruct (access h) as [|sc| |]; [reflexivity| | |];
    cbn; destruct (resolve _ _ _ _ _) as [w [[q|]|t]]; cbn; try reflexivity; now destruct (_ : bool).
Qed.

(** The router with its gates is the policy. *)
Lemma dispatch_eq cfg r now s : dispatch workspaceID cfg r now s = policy cfg r now s.
Proof.
  unfold dispatch, policy. destruct (front cfg r); [reflexivity|]. destruct (find_route cfg r) as [rt|] eqn:E; [|reflexivity].
  apply List.find_some in E as [Hr _]. apply list_elem_of_In, routes_checked, gates_eqb_eq in Hr. rewrite run_no_cache, Hr.
  destruct (probe (rt_Handler rt)); [apply grant_gates|]. cbn. destruct (Limiter.KAllow _ _ _) as [l []]; [apply grant_gates|reflexivity].
Qed.

(** ** Credentials *)

Definition api_key (r : Request) : string := TrimSpace (GetHeader r "X-API-Key").
Definition bearer (r : Request) : string := TrimSpace (TrimPrefix (GetHeader r "Authorization") "Bearer ").

(** The principals a request can prove itself to be against the tables [d]. *)
Inductive genuine (a : Auth) (r : Request) (now : Time) (d : Identity.IdTables) : Identity.Principal -> Prop :=
| by_key k u : a_Keys a = true -> k ∈ Identity.it_keys d -> Credential.splitKey (api_key r) = Some (Identity.k_KeyPrefix k) ->
    Credential.verifyKey (api_key r) (Identity.k_KeyHash k) = inr true -> IdentityProps.live_key k now ->
    u ∈ Identity.it_users d -> Identity.u_ID u = Identity.k_UserID k -> Identity.u_Status u = "active" ->
    genuine a r now d (IdentityProps.principal_of u Identity.AuthAPIKey (Identity.k_Scopes k))
| by_token c u : a_Users a = true -> api_key r = "" -> Identity.Verify now (bearer r) = inr c ->
    Identity.u_AuthSubject u = Identity.c_Subject c -> Identity.u_Status u = "active" ->
    (u ∈ Identity.it_users d \/ Identity.u_Role u = Identity.RoleUser /\ Identity.u_ID u ∉ Identity.u_ID <$> Identity.it_users d) ->
    genuine a r now d (IdentityProps.principal_of u Identity.AuthJWT []).

(** The command by which a request is authenticated. *)
Inductive credential_check (r : Request) (now : Time) : IdentityProps.Op -> Prop :=
| check_key : credential_check r now (IdentityProps.OpAuthenticateAPIKey (api_key r) now)
| check_token : credential_check r now (IdentityProps.OpAuthenticate (bearer r) now).

Lemma resolve_world a r now w : (resolve workspaceID a r now w).1 = w \/
  exists o, credential_check r now o /\ (resolve workspaceID a r now w).1 = IdentityProps.run workspaceID o w.
Proof.
  unfold resolve. fold (api_key r). fold (bearer r).
  assert (G : forall m : Identity.S Identity.Principal, (bind (attempt m) (fun res : result (Identity.IdentityError + Identity.Principal) =>
    match res with Ok (inr p) => ret (Some (principalFromIdentity p)) | _ => ret None end) w).1 = (m w).1).
  { intros m. unfold bind, attempt. destruct (m w) as [w' [[|]|]]; reflexivity. }
  destruct (negb _); [destruct (negb _); [now left|right; eexists; split; [apply check_key|apply G]]|].
  destruct (HasPrefix _ _); [|now left]. destruct (_ || _); [now left|right; eexists; split; [apply check_token|apply G]].
Qed.

Lemma resolve_genuine a r now w w' q : resolve workspaceID a r now w = (w', Ok (Some q)) ->
  exists ip, q = principalFromIdentity ip /\ genuine a r now (db w) ip.
Proof.
  unfold resolve. fold (api_key r). fold (bearer r).
  assert (G : forall m : Identity.S Identity.Principal, bind (attempt m) (fun res : result (Identity.IdentityError + Identity.Principal) =>
    match res with Ok (inr p) => ret (Some (principalFromIdentity p)) | _ => ret None end) w = (w', Ok (Some q)) ->
    exists ip, q = principalFromIdentity ip /\ m w = (w', Ok (inr ip))).
  { intros m. unfold bind, attempt. destruct (m w) as [w1 [[|ip]|]]; try discriminate. intros [= <- <-]. eauto. }
  destruct (String.eqb_spec (api_key r) "") as [Ek|_]; cbn [negb].
  - destruct (HasPrefix _ _); [|discriminate]. destruct (String.eqb (bearer r) ""); [discriminate|]. destruct (a_Users a) eqn:A; [|discriminate].
    cbn [orb negb]. intros (ip & -> & E)%G. exists ip. split; [reflexivity|]. apply IdentityProps.auth_token_inv in E as (c & u & V & Act & -> & M).
    apply String.eqb_eq in Act. destruct (Identity.pg_UserBySubject _ _) as [x|] eqn:F.
    + subst x. apply IdentityProps.find_inv in F as [Hu Es%String.eqb_eq]. apply by_token with c; auto.
    + destruct M as (R & Es & _ & N). apply by_token with c; auto.
  - destruct (a_Keys a) eqn:A; [|discriminate]. cbn [negb]. intros (ip & -> & E)%G. exists ip. split; [reflexivity|].
    apply IdentityProps.auth_key_inv in E as (k & u & S & Fk & V & L & Fu & Act & ->). apply IdentityProps.find_inv in Fk as [Hk _].
    apply IdentityProps.user_by_id in Fu as [Hu Eu]. apply String.eqb_eq in Act. now apply by_key.
Qed.

(** What a reached handler may rely on. *)
Lemma reached_genuine cfg r now s s' h op : dispatch workspaceID cfg r now s = (s', Reached h op) ->
  (access h = Anyone /\ op = None) \/
  exists ip, access h <> Anyone /\ op = Some (principalFromIdentity ip) /\ genuine (rc_Auth cfg) r now (db (sv_world s)) ip /\
    permits (access h) (principalFromIdentity ip) = true.
Proof.
  rewrite dispatch_eq. unfold policy. destruct (front cfg r); [discriminate|]. destruct (find_route cfg r) as [rt|]; [|discriminate].
  assert (G : forall l, grant cfg r now (rt_Handler rt) (MkServer l (sv_world s)) = (s', Reached h op) ->
    (access h = Anyone /\ op = None) \/ exists ip, access h <> Anyone /\ op = Some (principalFromIdentity ip) /\
      genuine (rc_Auth cfg) r now (db (sv_world s)) ip /\ permits (access h) (principalFromIdentity ip) = true).
  { intros l. unfold grant. destruct (access (rt_Handler rt)) as [| | |] eqn:Ea; [intros [= _ <- <-]; auto| | |];
      cbn [sv_world]; destruct (resolve _ _ _ _ _) as [w [[q|]|]] eqn:Er; try discriminate; apply resolve_genuine in Er as (ip & -> & Gip);
      destruct (permits _ _) eqn:P; try discriminate; intros [= _ <- <-]; rewrite Ea; right; exists ip; (split; [discriminate|auto]). }
  destruct (probe _); [|destruct (Limiter.KAllow _ _ _) as [l []]; [|discriminate]]; [|apply G].
  destruct s as [l w]. apply (G l).
Qed.

(** ** Commands a request may run *)

(** [o] is a command that a request from [ip] to the API may run for it. *)
Definition on_behalf (ip : Identity.Principal) (o : IdentityProps.Op) : Prop :=
  let self u := u = Identity.p_UserID ip in
  let admin := Identity.p_Role ip = "admin" in
  let acts a := self (Identity.p_UserID a) /\ Identity.p_Role a = Identity.p_Role ip in
  match o with
  | IdentityProps.OpCreateKey p _ _ => self (Identity.p_UserID p) /\ Identity.p_WorkspaceID p = Identity.p_WorkspaceID ip
  | IdentityProps.OpRevokeKey u _ _ _ | IdentityProps.OpUpdateMe u _ _ | IdentityProps.OpGetMe u | IdentityProps.OpListKeys u => self u
  | IdentityProps.OpSetStatus a _ _ _ _ | IdentityProps.OpSetRole a _ _ _ _ => acts a /\ admin
  | IdentityProps.OpDeleteAccount a t selfService _ _ => acts a /\ (self t \/ admin) /\ (selfService = true -> self t)
  | IdentityProps.OpRequestExport a t _ _ _ => acts a /\ (self t \/ admin)
  | IdentityProps.OpDownloadExport a _ _ => acts a
  | IdentityProps.OpListUsers _ _ | IdentityProps.OpListEvents _ => admin
  | IdentityProps.OpAuthenticateAPIKey _ _ | IdentityProps.OpAuthenticate _ _ | IdentityProps.OpIngest _ _ _ _ => False
  end.

(** The part of the body the webhook reads carries a valid signature. *)
Definition signed (cfg : RouterConfig) (r : Request) : Prop :=
  exists text, rq_Body r = RawBody text /\
    verifyWebhookSignature (rc_WebhookSecret cfg) (GetHeader r "X-Webhook-Signature") (String.substring 0 webhookMaxBody text) = true.

Definition may_run (cfg : RouterConfig) (r : Request) (now : Time) (d : Identity.IdTables) (o : IdentityProps.Op) : Prop :=
  credential_check r now o \/
  (exists ip, genuine (rc_Auth cfg) r now d ip /\ on_behalf ip o) \/
  (signed cfg r /\ match o with IdentityProps.OpIngest _ _ _ _ => True | _ => False end).

(** A handler answers, and changes nothing or runs one command that [P] allows. *)
Definition performs (P : IdentityProps.Op -> Prop) (m : M Identity.IdTables Reply) : Prop :=
  forall w, (exists x, (m w).2 = Ok x) /\ ((m w).1 = w \/ exists o, P o /\ (m w).1 = IdentityProps.run workspaceID o w).

Lemma performs_refuse P e r : performs P (refuse e r).
Proof. intros w. split; [now eexists|now left]. Qed.

Lemma performs_attempt {A} (P : IdentityProps.Op -> Prop) (m : Identity.S A) (k : result (Identity.IdentityError + A) -> Reply) o :
  (forall w, (m w).1 = IdentityProps.run workspaceID o w) -> P o -> performs P (bind (attempt m) (fun x => ret (k x))).
Proof.
  intros E Po w. specialize (E w). unfold bind, attempt. destruct (m w) as [w' x]. cbn in *. subst w'.
  split; [now eexists|right; eauto].
Qed.

Lemma performs_serve {A} (P : IdentityProps.Op -> Prop) r (m : Identity.S A) k o :
  (forall w, (m w).1 = IdentityProps.run workspaceID o w) -> P o -> performs P (serve_with r m k).
Proof. apply performs_attempt. Qed.

Lemma performs_path P r k : (forall id, performs P (k id)) -> performs P (with_path_id r k).
Proof. intros Hk. unfold with_path_id. destruct (CatalogService.ids_Parse _); [apply Hk|apply performs_refuse]. Qed.

(** The command of the service call in the goal. *)
Ltac command :=
  lazymatch goal with
  | |- performs _ (serve_with _ ?m _) =>
      lazymatch m with
      | Identity.GetMe ?u => constr:(IdentityProps.OpGetMe u)
      | Identity.UpdateMe ?u ?i ?n => constr:(IdentityProps.OpUpdateMe u i n)
      | Identity.ListKeys ?u => constr:(IdentityProps.OpListKeys u)
      | Identity.CreateKey ?p ?i ?n => constr:(IdentityProps.OpCreateKey p i n)
      | Identity.RevokeKey ?u ?k ?ip ?n => constr:(IdentityProps.OpRevokeKey u k ip n)
      | Identity.ListUsers ?l ?c => constr:(IdentityProps.OpListUsers l c)
      | Identity.SetStatus ?a ?t ?s ?ip ?n => constr:(IdentityProps.OpSetStatus a t s ip n)
      | Identity.SetRole ?a ?t ?s ?ip ?n => constr:(IdentityProps.OpSetRole a t s ip n)
      | Identity.DeleteAccount ?a ?t ?b ?ip ?n => constr:(IdentityProps.OpDeleteAccount a t b ip n)
      | Identity.RequestExport _ ?a ?t ?ip ?n ?c => constr:(IdentityProps.OpRequestExport a t ip n c)
      | Identity.DownloadExport ?a ?j ?n => constr:(IdentityProps.OpDownloadExport a j n)
      | Identity.ListEvents ?f => constr:(IdentityProps.OpListEvents f)
      end
  end.

Section Reached.
Context (cfg : RouterConfig) (r : Request) (now completedAt : Time) (d : Identity.IdTables).

Lemma behalf ip o : genuine (rc_Auth cfg) r now d ip -> on_behalf ip o -> may_run cfg r now d o.
Proof. right. left. eauto. Qed.

Lemma webhook_performs : performs (may_run cfg r now d) (h_AuthWebhook (rc_WebhookSecret cfg) r now).
Proof.
  unfold h_AuthWebhook. destruct (rq_Body r) as [| | | | |text] eqn:B; try apply performs_refuse.
  destruct (verifyWebhookSignature _ _ _) eqn:V; cbn [negb]; [|apply performs_refuse].
  destruct (parse_payload _) as [p|]; [|intros w; split; [now eexists|now left]].
  apply performs_attempt with (o := IdentityProps.OpIngest (firstNonEmpty [wp_Type p; wp_Event p])
    (firstNonEmpty [wp_Subject p; wp_UserID p; wp_User_ID p; wp_Record_ID p]) (firstNonEmpty [wp_IP p; rq_ClientIP r]) now); [reflexivity|].
  right. right. split; [exists text; auto|exact I].
Qed.

Lemma handler_performs h op m : handler workspaceID cfg h r op now completedAt = Some m ->
  (access h = Anyone /\ op = None) \/ (exists ip, access h <> Anyone /\ op = Some (principalFromIdentity ip) /\ genuine (rc_Auth cfg) r now d ip /\
    permits (access h) (principalFromIdentity ip) = true) ->
  performs (may_run cfg r now d) m.
Proof.
  intros E [[A ->]|(ip & _ & -> & G & P)].
  - destruct h; try discriminate; injection E as <-. apply webhook_performs.
  - destruct h; try discriminate E; injection E as <-; try apply webhook_performs; cbn [access permits] in P;
      try apply String.eqb_eq in P; cbn in P;
      unfold h_GetMe, h_UpdateMe, h_ListAPIKeys, h_CreateAPIKey, h_RevokeAPIKey, h_ListUsers, h_SetUserStatus, h_SetUserRole, h_DeleteUser,
        h_DeleteMe, h_RequestMyExport, h_RequestUserExport, h_DownloadExport, h_AuditEvents, with_user, with_actor; cbn [mbind option_bind principalFromIdentity principalActor Respond.rp_UserID Respond.rp_WorkspaceID default];
      repeat first [apply performs_refuse | apply performs_path; intros ? | case_match];
      (let o := command in apply (performs_serve _ _ _ _ o); [reflexivity|apply (behalf ip); [exact G|cbn; split_and?; auto; discriminate]]).
Qed.
End Reached.

(** ** Whole requests *)

Lemma runs_app ops ops' w : IdentityProps.runs workspaceID (ops ++ ops') w = IdentityProps.runs workspaceID ops' (IdentityProps.runs workspaceID ops w).
Proof. apply foldl_app. Qed.

(** Routing runs at most the check of the credential. *)
Lemma dispatch_world cfg r now s : exists ops, Forall (credential_check r now) ops /\ (length ops <= 1)%nat /\
  sv_world (dispatch workspaceID cfg r now s).1 = IdentityProps.runs workspaceID ops (sv_world s).
Proof.
  rewrite dispatch_eq. unfold policy.
  assert (Nil : exists ops, Forall (credential_check r now) ops /\ (length ops <= 1)%nat /\ sv_world s = IdentityProps.runs workspaceID ops (sv_world s))
    by (exists []; split_and!; [constructor|cbn; lia|reflexivity]).
  assert (G : forall h l, exists ops, Forall (credential_check r now) ops /\ (length ops <= 1)%nat /\
    sv_world (grant cfg r now h (MkServer l (sv_world s))).1 = IdentityProps.runs workspaceID ops (sv_world s)).
  { intros h l. unfold grant. destruct (resolve_world (rc_Auth cfg) r now (sv_world s)) as [E|(o & C & E)];
      destruct (access h); cbn [sv_world]; try exact Nil; destruct (resolve _ _ _ _ _) as [w [[q|]|]]; cbn in E |- *; subst w;
      first [exact Nil|exists [o]; split_and!; [repeat constructor; exact C|cbn; lia|reflexivity]]. }
  destruct (front cfg r); [exact Nil|]. destruct (find_route cfg r) as [rt|]; [|exact Nil].
  destruct (probe _); [destruct s; apply G|]. destruct (Limiter.KAllow _ _ _) as [l []]; [apply G|exact Nil].
Qed.

Lemma serve_commands cfg r now completedAt s : exists ops,
  Forall (may_run cfg r now (db (sv_world s))) ops /\ (length ops <= 2)%nat /\
  sv_world (serve workspaceID cfg r now completedAt s).1 = IdentityProps.runs workspaceID ops (sv_world s).
Proof.
  destruct (dispatch_world cfg r now s) as (ops & C & L & E). unfold serve.
  assert (Base : Forall (may_run cfg r now (db (sv_world s))) ops) by (eapply Forall_impl; [exact C|]; now left).
  destruct (dispatch workspaceID cfg r now s) as [s' dp] eqn:D. cbn [fst] in E.
  assert (Stay : exists ops, Forall (may_run cfg r now (db (sv_world s))) ops /\ (length ops <= 2)%nat /\
    sv_world s' = IdentityProps.runs workspaceID ops (sv_world s)) by (exists ops; split_and!; [exact Base|lia|exact E]).
  destruct dp as [x| |h op]; [exact Stay|exact Stay|]. destruct (handler _ _ _ _ _ _ _) as [m|] eqn:Hm; [|exact Stay].
  apply reached_genuine in D. apply (handler_performs cfg r now completedAt (db (sv_world s))) in Hm; [|exact D].
  destruct (Hm (sv_world s')) as [[x Ex] W]. destruct (m (sv_world s')) as [w y]. cbn in Ex, W |- *. subst y. cbn.
  destruct W as [->|(o & Po & ->)]; [exact Stay|]. exists (ops ++ [o]). rewrite runs_app, <- E, Forall_app, length_app. split_and!; auto.
  cbn. lia.
Qed.

(** C20: the routes enforce the access policy: a handler that is not public is reached
    only with the principal of a live key or a verified token of an active user; the
    administration handlers only by users whose role in the tables is administrator;
    the forecast data by an API key only when it holds the scope for it. *)
Theorem routes_guarded (cfg : RouterConfig) (r : Request) (now : Time) (s s' : Server) (h : Handler) (op : option Respond.Principal) :
  dispatch workspaceID cfg r now s = (s', Reached h op) ->
  match access h with
  | Anyone => op = None
  | a => exists ip, op = Some (principalFromIdentity ip) /\ genuine (rc_Auth cfg) r now (db (sv_world s)) ip /\
      (a = Administrators -> Identity.p_Role ip = "admin") /\
      (a = Scoped "read:data" -> Identity.p_Method ip = Identity.AuthAPIKey -> "read:data" ∈ Identity.p_Scopes ip)
  end.
Proof.
  intros [[-> ->]|(ip & N & -> & G & P)]%reached_genuine; [reflexivity|]. destruct (access h) as [|sc| |] eqn:A.
  - now destruct N.
  - exists ip. split_and!; auto; [discriminate|]. intros [= ->] Me. revert P. cbn. unfold Respond.HasScope. cbn. rewrite Me. cbn.
    intros (x & Hx & <-%String.eqb_eq)%existsb_exists. now apply list_elem_of_In.
  - exists ip. now split_and!.
  - exists ip. split_and!; auto; [|discriminate]. now apply String.eqb_eq in P.
Qed.

(** ** Traffic *)

(** The commands that requests may run one after the other, each judged by the tables
    its request finds. *)
Inductive authorised (cfg : RouterConfig) : list (Request * Time * Time) -> World Identity.IdTables -> list IdentityProps.Op -> Prop :=
| authorised_nil w : authorised cfg [] w []
| authorised_cons r now c reqs w ops ops' : Forall (may_run cfg r now (db w)) ops -> (length ops <= 2)%nat ->
    authorised cfg reqs (IdentityProps.runs workspaceID ops w) ops' -> authorised cfg ((r, now, c) :: reqs) w (ops ++ ops').

Definition serves (cfg : RouterConfig) (reqs : list (Request * Time * Time)) (s : Server) : Server :=
  foldl (fun s '(r, now, c) => (serve workspaceID cfg r now c s).1) s reqs.

Lemma serves_commands cfg reqs : forall s, exists ops,
  authorised cfg reqs (sv_world s) ops /\ sv_world (serves cfg reqs s) = IdentityProps.runs workspaceID ops (sv_world s).
Proof.
  induction reqs as [|[[r now] c] reqs IH]; intros s; [exists []; split; [constructor|reflexivity]|].
  destruct (serve_commands cfg r now c s) as (ops & M & L & E). destruct (IH (serve workspaceID cfg r now c s).1) as (ops' & A & E').
  exists (ops ++ ops'). rewrite E in A. split; [now constructor|].
  change (serves cfg ((r, now, c) :: reqs) s) with (serves cfg reqs (serve workspaceID cfg r now c s).1). rewrite E', E. symmetry. apply runs_app.
Qed.

(** C21: any traffic is a sequence of authorised commands: whatever requests arrive and
    whatever statements fail, each request runs at most two commands, the check of the
    credential it carries and one command for the user it authenticates as (an
    administrator's where the command is one, a signed event for the webhook); so the
    tables move only by audited changes, no account is touched but by these commands,
    and the tables stay consistent. *)
Theorem traffic_authorised (cfg : RouterConfig) (reqs : list (Request * Time * Time)) (s : Server) : exists ops,
  authorised cfg reqs (sv_world s) ops /\
  sv_world (serves cfg reqs s) = IdentityProps.runs workspaceID ops (sv_world s) /\
  rtc (IdentityProps.step (IdentityProps.deleted_by ops)) (db (sv_world s)) (db (sv_world (serves cfg reqs s))) /\
  (IdentityProps.id_ok (db (sv_world s)) -> IdentityProps.id_ok (db (sv_world (serves cfg reqs s)))).
Proof.
  destruct (serves_commands cfg reqs s) as (ops & A & E). exists ops. rewrite E. pose proof (IdentityProps.runs_steps workspaceID ops (sv_world s)) as R.
  split_and!; [exact A|reflexivity|exact R|]. intros Hok. eapply IdentityProps.steps_keep; eauto using IdentityProps.step_ok.
Qed.
End Traffic.

(** ** A request for the profile, and one for the user list *)

Definition noLookups : CatalogService.Lookups := {| CatalogService.LoadLocation := fun _ => true; CatalogService.ids_Parse := fun _ => None |}.
Definition plainTexts : Respond.Texts := {| Respond.fmt6 := fun _ => "0"; Respond.quoted := fun t => t |}.
Definition open_cfg : RouterConfig := MkRouterConfig (MkAuth true true) [] 0 "".
Definition as_bob (method route : string) : Request :=
  MkRequest method route route [] [] [("Authorization", "Bearer token")] 0 "10.0.0.1" "req-1" Unreadable.
Definition quiet : Server := MkServer (Limiter.per_minute 60) IdentityProps.town.
Definition bob_dispatch (route : string) : Server * Dispatch :=
  @dispatch calm Credential.toy IdentityProps.toyVerifier plainTexts 9%N open_cfg (as_bob "GET" route) 5 quiet.

Lemma routes_guarded_witness :
  (exists ip, snd (bob_dispatch "/api/v1/me") = Reached GetMe (Some (principalFromIdentity ip)) /\
     @genuine Credential.toy IdentityProps.toyVerifier (rc_Auth open_cfg) (as_bob "GET" "/api/v1/me") 5 (db IdentityProps.town) ip) /\
  snd (bob_dispatch "/api/v1/admin/users") = Refused (@problem plainTexts Respond.ErrForbidden (as_bob "GET" "/api/v1/admin/users")).
Proof.
  split; [|vm_compute; reflexivity]. destruct (bob_dispatch "/api/v1/me") as [s' dp] eqn:E.
  assert (R : dp = Reached GetMe (Some (principalFromIdentity (IdentityProps.as_user IdentityProps.bob)))).
  { apply (f_equal snd) in E. vm_compute in E. subst dp. reflexivity. }
  subst dp. destruct (routes_guarded 9%N open_cfg (as_bob "GET" "/api/v1/me") 5 quiet s' _ _ E) as (ip & Ep & G & _).
  exists ip. split; [cbn; now rewrite Ep|exact G].
Defined.

End ApiProps.
