(* ===== verification/Dashboard.v ===== *)
(** * The public dashboard handlers ([internal/api/handlers]: rankings.go, accuracy.go, forecast_comparison.go, partial.go)

    Query decoding, the read models of [ReadModel] and the catalog behind them, and
    the assembly of the answer: rounded values, freshness, attribution and the
    warnings for providers without data.  A handler is a program over the tables it
    reads; its error is what [respond.Error] is given.  The clock's reading is an
    argument.  The time zone database and [time.Parse] are the parameters of
    [Calendar]; instants carry no zone, so [UTC()] is the identity. *)

From Stdlib Require Import ZArith NArith Lia Bool String Ascii.
From stdpp Require Import base list strings gmap.
From S2P Require Import Prelude Float64 GoTime GoZone Uuid GoStrings Effects Ranking Aggregate RankService Catalog CatalogService ReadModel Respond Api.

Import Catalog Ranking ReadModel Respond Api.
Local Open Scope string_scope.
Local Open Scope list_scope.
Local Open Scope Z_scope.
Local Open Scope m_scope.

Module Dashboard.

(** [time.LoadLocation] and [time.Parse] (layout, text). *)
Class Calendar := {
  LoadZone : string -> option GoZone.Location;
  time_Parse : string -> string -> option Time;
}.

Definition layoutRFC3339 : string := "2006-01-02T15:04:05Z07:00".
Definition layoutDate : string := "2006-01-02".

(** ** DTOs *)

Record AttributionDTO := MkAttributionDTO { ad_Text : string; ad_URL : string }.
Record providerRef := MkProviderRef { pr_ID : string; pr_Name : string; pr_Slug : string; pr_Attribution : AttributionDTO }.
Definition zeroRef : providerRef := MkProviderRef "" "" "" (MkAttributionDTO "" "").

Record componentScoreDTO := MkComponentDTO {
  cd_Component : string; cd_Value : option float64; cd_Normalized : option float64; cd_Weight : float64; cd_Excluded : bool
}.

Record rankingRowDTO := MkRankingRowDTO {
  rw_Rank : Z;
  rw_Tied : bool;
  rw_Provider : providerRef;
  rw_CompositeScore : option float64;
  rw_CILower : option float64;
  rw_CIUpper : option float64;
  rw_RankingStatus : Ranking.Status;
  rw_SampleCount : Z;
  rw_Coverage : option float64;
  rw_Reliability : option float64;
  rw_CoveragePenaltyApplied : bool;
  rw_ComponentScores : list componentScoreDTO
}.

Record observationContextDTO := MkObservationDTO {
  od_TemperatureC : option float64;
  od_PrecipitationMM : option float64;
  od_ObservedAt : Time;
  od_Source : string;
  od_ObservationType : string;
  od_QualityFlag : string;
  od_Freshness : option Freshness
}.

Record rankingsDTO := MkRankingsDTO {
  rg_LocationID : string;
  rg_HorizonMinutes : Z;
  rg_HorizonProfile : string;
  rg_MinSampleCount : Z;
  rg_EvaluationPeriod : option (Time * Time);
  rg_Rankings : list rankingRowDTO;
  rg_ObservationContext : option observationContextDTO
}.

Record metricDTO := MkMetricDTO {
  md_Variable : string; md_MetricType : string; md_Value : option float64; md_CILower : option float64; md_CIUpper : option float64; md_SampleCount : Z
}.

Record collectionWindowDTO := MkWindowDTO {
  wd_FirstSnapshotAt : option Time; wd_LastSnapshotAt : option Time; wd_Coverage : option float64; wd_Reliability : option float64
}.

Definition windowDTO (w : CollectionWindow) : collectionWindowDTO :=
  MkWindowDTO (cw_FirstSnapshotAt w) (cw_LastSnapshotAt w) (RoundScore (cw_Coverage w)) (RoundScore (cw_Reliability w)).

Record locationSummaryProviderDTO := MkLocationSummaryDTO {
  ld_Provider : providerRef; ld_RankingStatus : option Ranking.Status; ld_Metrics : list metricDTO; ld_CollectionWindow : collectionWindowDTO
}.

Record providerSummaryCellDTO := MkCellDTO {
  sd_LocationID : string;
  sd_LocationName : string;
  sd_HorizonMinutes : Z;
  sd_CompositeScore : option float64;
  sd_RankingStatus : Ranking.Status;
  sd_SampleCount : Z;
  sd_Coverage : option float64;
  sd_CollectionWindow : collectionWindowDTO
}.

(** The two modes of the summary. *)
Inductive summaryDTO :=
| ByLocation (locationID : string) (horizon : Z) (providers : list locationSummaryProviderDTO)
| ByProvider (provider : providerRef) (cells : list providerSummaryCellDTO).

Record trendBucketDTO := MkTrendBucketDTO {
  bd_PeriodStart : Time; bd_PeriodEnd : Time; bd_Value : option float64; bd_CILower : option float64; bd_CIUpper : option float64; bd_SampleCount : Z
}.
Record trendSeriesDTO := MkTrendSeriesDTO { td_ProviderID : string; td_Buckets : list trendBucketDTO }.

Record trendsDTO := MkTrendsDTO {
  tn_LocationID : string; tn_HorizonMinutes : Z; tn_Variable : string; tn_MetricType : string; tn_Aggregation : string; tn_TZ : string;
  tn_PeriodStart : Time; tn_PeriodEnd : Time; tn_Series : list trendSeriesDTO
}.

Record fvaPointDTO := MkFvaPoint { fd_TargetTime : Time; fd_Value : option float64; fd_IssuedAt : Time; fd_HorizonMinutes : Z }.
Record fvaSeriesDTO := MkFvaSeries { fs_Provider : providerRef; fs_IssuedAt : Time; fs_Points : list fvaPointDTO }.
Record fvaObservationDTO := MkFvaObservation {
  fo_ObservedAt : Time; fo_Value : option float64; fo_Source : string; fo_ObservationType : string; fo_QualityFlag : string; fo_ConditionCode : string
}.
Record fvaDayMetricDTO := MkFvaDayMetric {
  fm_ProviderID : string; fm_MAE : option float64; fm_RMSE : option float64; fm_Bias : option float64; fm_SampleCount : Z; fm_MethodologyVersion : string
}.
Record fvaLocationDTO := MkFvaLocation { fl_ID : string; fl_Name : string; fl_Timezone : string }.
Record fvaDTO := MkFva {
  fv_Location : fvaLocationDTO;
  fv_Date : string;
  fv_Variable : string;
  fv_HorizonMinutes : Z;
  fv_Series : list fvaSeriesDTO;
  fv_Observations : list fvaObservationDTO;
  fv_DayMetrics : list fvaDayMetricDTO;
  fv_ErrorBandMAE : option float64;
  fv_ObservationsAvailable : bool
}.

(** ** Constants *)

Definition rankingsFreshMax : Duration := 75 * Minute.
Definition rankingsStaleMax : Duration := 24 * Hour.
Definition obsFreshMax : Duration := 90 * Minute.
Definition obsStaleMax : Duration := 6 * Hour.
Definition summaryFreshMax : Duration := 90 * Minute.
Definition summaryStaleMax : Duration := 24 * Hour.
Definition trendsFreshMax : Duration := 26 * Hour.
Definition trendsStaleMax : Duration := 8 * 24 * Hour.
Definition trendsMaxDays : Z := 365.
Definition trendsDefaultDay : Z := 30.
Definition trendsMaxBuckets : Z := 2000.

Definition horizonProfiles (s : string) : bool := existsb (String.eqb s) [Ranking.ProfileUniform; "short_term"; "daily_planning"].
Definition aggregations (s : string) : bool := existsb (String.eqb s) ["daily"; "weekly"; "monthly"].
Definition comparisonVariables (s : string) : bool :=
  existsb (String.eqb s) ["temperature"; "wind_speed"; "humidity"; "pressure"; "precipitation"].

(** ** Helpers *)

(** [c.DefaultQuery]: the default only when the name is absent. *)
Definition DefaultQuery (r : Request) (name def : string) : string :=
  if existsb (fun kv => String.eqb name kv.1) (Api.rq_Query r) then Query r name else def.

Definition coveragePenaltyApplied (coverage : option float64) (status : Ranking.Status) : bool :=
  bool_decide (status <> Ranking.StatusUnranked) && match coverage with Some c => fltb c (f64_lit 8 10) | None => false end.

Definition roundComponentValue (component : string) (v : option float64) : option float64 :=
  if existsb (String.eqb component) ["temp_mae"; "temp_bias_abs"] then RoundTemperature v
  else if String.eqb component "rain_mae_all" then RoundRain v
  else if String.eqb component "wind_mae" then RoundWind v
  else RoundScore v.

Definition roundWeight (w : float64) : float64 := default w (RoundScore (Some w)).

Definition componentDTOs (cs : list Ranking.ComponentScore) : list componentScoreDTO :=
  (fun c => MkComponentDTO (Ranking.cs_Component c) (roundComponentValue (Ranking.cs_Component c) (Ranking.cs_Value c))
     (RoundScore (Ranking.cs_Normalized c)) (roundWeight (Ranking.cs_Weight c)) (Ranking.cs_Excluded c)) <$> cs.

Definition roundValue (variable : string) (v : option float64) : option float64 :=
  if String.eqb variable "temperature" then RoundTemperature v
  else if String.eqb variable "wind_speed" then RoundWind v
  else if String.eqb variable "pressure" then RoundPressure v
  else if String.eqb variable "precipitation" then RoundRain v
  else RoundScore v.

Definition ref_of (p : Catalog.Provider) : providerRef :=
  MkProviderRef (Uuid.to_string (Catalog.p_ID p)) (Catalog.p_Name p) (Catalog.p_Slug p)
    (MkAttributionDTO (Catalog.p_AttributionText p) (Catalog.p_AttributionURL p)).

Definition credit (p : providerRef) : Attribution := MkAttribution (pr_Name p) (ad_Text (pr_Attribution p)) (ad_URL (pr_Attribution p)).

(** One attribution per key, in the order of the first provider that has it. *)
Fixpoint credits (key : providerRef -> string) (seen : list string) (ps : list providerRef) : list Attribution :=
  match ps with
  | [] => []
  | p :: ps => if existsb (String.eqb (key p)) seen then credits key seen ps else credit p :: credits key (key p :: seen) ps
  end.

Definition text_and_url (p : providerRef) : string := ad_Text (pr_Attribution p) +:+ ad_URL (pr_Attribution p).
(** The providers with a text, once per text. *)
Definition text_credits (ps : list providerRef) : list Attribution :=
  credits (fun p => ad_Text (pr_Attribution p)) [] (List.filter (fun p => negb (String.eqb (ad_Text (pr_Attribution p)) "")) ps).

Definition warnProviderUnavailable : string := "provider_unavailable".

Definition absentProviderWarnings (active : list Catalog.Provider) (present : list uuid) : list Warning :=
  match present with
  | [] => []
  | _ =>
      (fun p => MkWarning (Uuid.to_string (Catalog.p_ID p)) warnProviderUnavailable "No published data for this provider in the requested view." "")
      <$> List.filter (fun p => bool_decide (Catalog.p_Status p = Catalog.StatusActive) && negb (bool_decide (Catalog.p_ID p ∈ present))) active
  end.

(** ** Handlers *)

Section Handlers.
Context `{Env} `{Database} `{CatalogService.Lookups} `{Calendar}.

(** A step that may end the handler with an error. *)
Definition HM (A : Type) : Type := M ReadTables (ApiError + A).

Definition done {A} (a : A) : HM A := ret (inr a).
Definition stop {A} (e : ApiError) : HM A := ret (inl e).
Definition check (ok : bool) (e : ApiError) : HM unit := if ok then done tt else stop e.

(** A service call: its error goes to [respond.Error]. *)
Definition call {A} (m : M ReadTables A) : HM A :=
  bind (attempt m) (fun x => match x with Ok a => done a | Error t => stop (Other t) end).

Definition found {A} (op : string) (f : ReadTables -> option A) : HM A :=
  x <-! call (query op f) ;; match x with Some a => done a | None => stop (Catalog_ CatalogService.ErrNotFound) end.

(** The catalog behind the handlers: [ORDER BY slug]. *)
Definition pg_ListProviders (d : ReadTables) : list Catalog.Provider :=
  stable_sort (fun a b => text_ltb (Catalog.p_Slug a) (Catalog.p_Slug b)) (rd_providers d).
Definition ListProviders_ : HM (list Catalog.Provider) := call (query "list providers" pg_ListProviders).
Definition GetProvider_ (id : uuid) : HM Catalog.Provider :=
  found "scan provider" (fun d => List.find (fun p => bool_decide (Catalog.p_ID p = id)) (rd_providers d)).
Definition GetLocation_ (id : uuid) : HM Catalog.Location :=
  found "scan location" (fun d => List.find (fun l => bool_decide (Catalog.l_ID l = id)) (rd_locations d)).

Definition parseUUIDParam (raw field : string) : HM uuid :=
  match CatalogService.ids_Parse raw with Some id => done id | None => stop (badUUID field) end.

(** [queryUUID] *)
Definition queryUUID (r : Request) (name : string) : HM (option uuid) :=
  if String.eqb (Query r name) "" then done None else id <-! parseUUIDParam (Query r name) name ;; done (Some id).

(** An optional integer parameter that [ok] accepts. *)
Definition int_param (r : Request) (name message : string) (ok : Z -> bool) (def : Z) : HM Z :=
  if String.eqb (Query r name) "" then done def
  else match Atoi (Query r name) with
       | Some n => if ok n then done n else stop (FieldMessage name message)
       | None => stop (FieldMessage name message)
       end.

Definition horizonParam (r : Request) : HM Z :=
  int_param r "horizon_minutes" "must be a positive integer" (fun n => 0 <? n) DefaultRankingHorizon.

Definition parseDateOrTime (s : string) : option Time :=
  match time_Parse layoutRFC3339 s with Some t => Some t | None => time_Parse layoutDate s end.

Definition time_param (r : Request) (name : string) (def : Time) : HM Time :=
  if String.eqb (Query r name) "" then done def
  else match parseDateOrTime (Query r name) with
       | Some t => done t
       | None => stop (FieldMessage name "must be an ISO date or date-time")
       end.

(** *** rankings.go *)

Definition row_ref (row : RankingReadRow) : providerRef :=
  MkProviderRef (Uuid.to_string (RankService.rr_ProviderID (rr_row row))) (rr_ProviderName row) (rr_ProviderSlug row)
    (MkAttributionDTO (rr_AttributionText row) (rr_AttributionURL row)).

Definition rankingRow (x : RankedRow) : rankingRowDTO :=
  let r := rr_row (rk_Row x) in
  MkRankingRowDTO (Rank x) (Tied x) (row_ref (rk_Row x)) (RoundScore (RankService.rr_CompositeScore r)) (RoundScore (RankService.rr_CILower r))
    (RoundScore (RankService.rr_CIUpper r)) (RankService.rr_Status r) (RankService.rr_SampleCount r) (RoundScore (RankService.rr_Coverage r))
    (RoundScore (RankService.rr_Reliability r)) (coveragePenaltyApplied (RankService.rr_Coverage r) (RankService.rr_Status r))
    (componentDTOs (RankService.rr_ComponentScores r)).

Definition observationDTO (now : Time) (o : ObservationContextRow) : observationContextDTO :=
  MkObservationDTO (RoundTemperature (oc_TemperatureC o)) (RoundRain (oc_PrecipitationMM o)) (oc_ObservedAt o) (oc_Source o)
    (oc_ObservationType o) (oc_QualityFlag o) (Some (ComputeFreshness (Some (oc_ObservedAt o)) now obsFreshMax obsStaleMax "")).

Definition rankings_query (r : Request) : HM RankingsQuery :=
  locationID <-! parseUUIDParam (Query r "location_id") "location_id" ;;
  horizon <-! horizonParam r ;;
  let profile := DefaultQuery r "horizon_profile" Ranking.ProfileUniform in
  check (horizonProfiles profile) (FieldMessage "horizon_profile" "must be one of uniform|short_term|daily_planning") ;;!
  minSample <-! int_param r "min_sample_count" "must be a non-negative integer" (fun n => 0 <=? n) DefaultMinSampleCount ;;
  int_param r "period_days" "must be a positive integer" (fun n => 0 <? n) 30 ;;!
  check (String.eqb (Query r "weights") "") (FieldMessage "weights" "custom weights are not supported in this release (uniform default only)") ;;!
  done (MkRankingsQuery locationID horizon profile minSample).

Definition rankings_answer (r : Request) (now : Time) (q : RankingsQuery) (res : RankingsResult) (active : option (list Catalog.Provider)) :
  Envelope rankingsDTO :=
  JSON
    (MkRankingsDTO (Uuid.to_string (rq_LocationID q)) (rs_HorizonMinutes res) (rs_HorizonProfile res) (rs_MinSampleCount res)
       (if rs_HasRows res then Some (rs_PeriodStart res, rs_PeriodEnd res) else None)
       (rankingRow <$> rs_Rows res) (observationDTO now <$> rs_Observation res))
    (MkOptions (rq_RequestID r) "" [] (rs_MethodologyVersion res) (rs_WeightsVersion res)
       (Some (ComputeFreshness (rs_LastCalculatedAt res) now rankingsFreshMax rankingsStaleMax "no_rankings"))
       ((fun o => MkProvenance {[oc_ObservationType o := f1]} [oc_Source o] None) <$> rs_Observation res)
       (credits text_and_url [] ((fun x => row_ref (rk_Row x)) <$> rs_Rows res))
       (match active with
        | Some ps => absentProviderWarnings ps ((fun x => RankService.rr_ProviderID (rr_row (rk_Row x))) <$> rs_Rows res)
        | None => []
        end) None) now.

Definition h_Rankings (r : Request) (now : Time) : HM (Envelope rankingsDTO) :=
  q <-! rankings_query r ;;
  res <-! call (ReadModel.Rankings q) ;;
  active <-- ListProviders_ ;;
  done (rankings_answer r now q res (match active with inr ps => Some ps | inl _ => None end)).

(** *** accuracy.go: summary *)

Definition metric_dto (m : RankService.MetricValue) : metricDTO :=
  let round := RoundMetric (RankService.mv_Variable m) (RankService.mv_MetricType m) in
  MkMetricDTO (RankService.mv_Variable m) (RankService.mv_MetricType m) (round (RankService.mv_Value m)) (round (RankService.mv_CILower m))
    (round (RankService.mv_CIUpper m)) (RankService.mv_SampleCount m).

(** [providerRefs] *)
Definition refs_of (ps : list Catalog.Provider) : gmap uuid providerRef := foldl (fun m p => <[Catalog.p_ID p := ref_of p]> m) ∅ ps.
Definition ref_at (refs : gmap uuid providerRef) (id : uuid) : providerRef := default zeroRef (refs !! id).

Definition weighted : Provenance := MkProvenance ∅ [] (Some true).

Definition accuracySummaryByLocation (r : Request) (now : Time) (loc : string) : HM (Envelope summaryDTO) :=
  locationID <-! parseUUIDParam loc "location_id" ;;
  horizon <-! horizonParam r ;;
  res <-! call (ReadModel.LocationSummary locationID horizon) ;;
  list <-! ListProviders_ ;;
  let refs := refs_of list in
  again <-- ListProviders_ ;;
  done (JSON
    (ByLocation (Uuid.to_string locationID) (ls_HorizonMinutes res)
       ((fun p => MkLocationSummaryDTO (ref_at refs (lsp_ProviderID p)) (lsp_RankingStatus p) (metric_dto <$> lsp_Metrics p) (windowDTO (lsp_Window p)))
        <$> ls_Providers res))
    (MkOptions (rq_RequestID r) "" [] Aggregate.MethodologyVersion Ranking.WeightsVersion
       (Some (ComputeFreshness (ls_LastSnapshotAt res) now summaryFreshMax summaryStaleMax "no_data")) (Some weighted)
       (text_credits ((fun p => ref_at refs (lsp_ProviderID p)) <$> ls_Providers res))
       (absentProviderWarnings (match again with inr ps => ps | inl _ => [] end) (lsp_ProviderID <$> ls_Providers res)) None) now).

(** A cell with the window of its location, under the cell's own coverage. *)
Definition cell_window (windows : gmap uuid CollectionWindow) (c : ProviderSummaryCell) : CollectionWindow :=
  let w := default zeroWindow (windows !! sc_LocationID c) in
  MkWindow (cw_FirstSnapshotAt w) (cw_LastSnapshotAt w) (sc_Coverage c) (sc_Reliability c).

Definition cell_dto (windows : gmap uuid CollectionWindow) (c : ProviderSummaryCell) : providerSummaryCellDTO :=
  MkCellDTO (Uuid.to_string (sc_LocationID c)) (sc_LocationName c) (sc_HorizonMinutes c) (RoundScore (sc_CompositeScore c)) (sc_RankingStatus c)
    (sc_SampleCount c) (RoundScore (sc_Coverage c)) (windowDTO (cell_window windows c)).

Definition accuracySummaryByProvider (r : Request) (now : Time) (prov : string) : HM (Envelope summaryDTO) :=
  providerID <-! parseUUIDParam prov "provider_id" ;;
  res <-! call (ReadModel.ProviderSummary providerID) ;;
  provider <-! GetProvider_ providerID ;;
  let ref := ref_of provider in
  let last := foldl later None ((fun c => cw_LastSnapshotAt (cell_window (psm_Windows res) c)) <$> psm_Cells res) in
  done (JSON (ByProvider ref (cell_dto (psm_Windows res) <$> psm_Cells res))
    (MkOptions (rq_RequestID r) "" [] Aggregate.MethodologyVersion Ranking.WeightsVersion
       (Some (ComputeFreshness last now summaryFreshMax summaryStaleMax "no_data")) (Some weighted) [credit ref] [] None) now).

Definition h_AccuracySummary (r : Request) (now : Time) : HM (Envelope summaryDTO) :=
  let loc := Query r "location_id" in
  let prov := Query r "provider_id" in
  check (xorb (String.eqb loc "") (String.eqb prov "")) (FieldMessage "location_id" "exactly one of location_id or provider_id is required") ;;!
  if negb (String.eqb prov "") then accuracySummaryByProvider r now prov else accuracySummaryByLocation r now loc.

(** *** accuracy.go: trends *)

Definition trends_filter (r : Request) (now : Time) : HM (TrendFilter * GoZone.Location) :=
  locationID <-! parseUUIDParam (Query r "location_id") "location_id" ;;
  let variable := Query r "variable" in
  let metricType := Query r "metric_type" in
  check (negb (String.eqb variable "" || String.eqb metricType "")) (FieldMessage "variable" "variable and metric_type are required") ;;!
  horizon <-! horizonParam r ;;
  let aggregation := DefaultQuery r "aggregation" "daily" in
  check (aggregations aggregation) (FieldMessage "aggregation" "must be one of daily|weekly|monthly") ;;!
  loc <-! match LoadZone (DefaultQuery r "tz" "UTC") with
          | Some l => done l
          | None => stop (FieldMessage "tz" "must be a valid IANA timezone")
          end ;;
  to <-! time_param r "period_end" now ;;
  from <-! time_param r "period_start" (AddDate now 0 0 (- trendsDefaultDay)) ;;
  check (Before from to) (FieldMessage "period_start" "must be before period_end") ;;!
  check (negb (trendsMaxDays * 24 * Hour <? Sub to from)) (FieldMessage "period_end" "range must not exceed 365 days") ;;!
  n <-! int_param r "limit" "must be a positive integer" (fun n => 0 <? n) trendsMaxBuckets ;;
  let limit := if n <? trendsMaxBuckets then n else trendsMaxBuckets in
  pid <-! queryUUID r "provider_id" ;;
  done (MkTrendFilter pid locationID horizon variable metricType from to aggregation limit, loc).

Definition trend_dto (f : TrendFilter) (b : TrendBucket) : trendBucketDTO :=
  let round := RoundMetric (tf_Variable f) (tf_MetricType f) in
  MkTrendBucketDTO (tb_PeriodStart b) (tb_PeriodEnd b) (round (tb_Value b)) (round (tb_CILower b)) (round (tb_CIUpper b)) (tb_SampleCount b).

Definition h_AccuracyTrends (r : Request) (now : Time) : HM (Envelope trendsDTO) :=
  fl <-! trends_filter r now ;;
  let '(f, loc) := fl in
  res <-! call (ReadModel.Trends f (Some loc)) ;;
  let tz := DefaultQuery r "tz" "UTC" in
  done (JSON
    (MkTrendsDTO (Uuid.to_string (tf_LocationID f)) (tf_HorizonMinutes f) (tf_Variable f) (tf_MetricType f) (tf_Aggregation f) tz (tf_From f) (tf_To f)
       ((fun s => MkTrendSeriesDTO (Uuid.to_string (ts_ProviderID s)) (trend_dto f <$> ts_Buckets s)) <$> tr_Series res))
    (MkOptions (rq_RequestID r) tz [] Aggregate.MethodologyVersion ""
       (Some (ComputeFreshness (tr_LastPeriodEnd res) now trendsFreshMax trendsStaleMax "no_data")) None [] [] None) now).

(** *** forecast_comparison.go *)

Fixpoint parse_tokens (toks : list string) : HM (list uuid) :=
  match toks with
  | [] => done []
  | t :: toks =>
      let t := TrimSpace t in
      if String.eqb t "" then parse_tokens toks
      else match CatalogService.ids_Parse t with
           | None => stop (FieldMessage "providers" "must be a comma-separated list of UUIDs")
           | Some id => ids <-! parse_tokens toks ;; done (id :: ids)
           end
  end.

Definition active (p : Catalog.Provider) : bool := bool_decide (Catalog.p_Status p = Catalog.StatusActive).

Definition resolveComparisonProviders (r : Request) : HM (list uuid * gmap uuid providerRef) :=
  all <-! ListProviders_ ;;
  let raw := TrimSpace (Query r "providers") in
  ids <-! (if String.eqb raw "" then done (Catalog.p_ID <$> List.filter active all) else parse_tokens (Split ","%char raw)) ;;
  done (ids, refs_of all).

Definition comparison_warnings (providerIDs present : list uuid) : list Warning :=
  match present with
  | [] => []
  | _ =>
      (fun id => MkWarning (Uuid.to_string id) warnProviderUnavailable "No forecast for this provider on the requested day/horizon." "")
      <$> List.filter (fun id => negb (bool_decide (id ∈ present))) providerIDs
  end.

Definition comparison_answer (r : Request) (now : Time) (loc : Catalog.Location) (date : string) (q : ComparisonQuery) (refs : gmap uuid providerRef)
  (res : ComparisonResult) : Envelope fvaDTO :=
  let variable := cq_Variable q in
  let ref s := ref_at refs (cs_ProviderID s) in
  JSON
    (MkFva (MkFvaLocation (Uuid.to_string (Catalog.l_ID loc)) (Catalog.l_Name loc) (Catalog.l_Timezone loc)) date variable (cq_HorizonMinutes q)
       ((fun s => MkFvaSeries (ref s) (cs_IssuedAt s)
          ((fun p => MkFvaPoint (fp_TargetTime p) (roundValue variable (Some (fp_Value p))) (fp_IssuedAt p) (fp_HorizonMinutes p)) <$> cs_Points s))
        <$> cr_Series res)
       ((fun o => MkFvaObservation (cmo_ObservedAt o) (roundValue variable (Some (cmo_Value o))) (cmo_Source o) (cmo_ObservationType o)
          (cmo_QualityFlag o) (cmo_ConditionCode o)) <$> cr_Observations res)
       ((fun m => MkFvaDayMetric (Uuid.to_string (dm_ProviderID m)) (RoundMetric variable "mae" (dm_MAE m)) (RoundMetric variable "rmse" (dm_RMSE m))
          (RoundMetric variable "bias" (dm_Bias m)) (dm_SampleCount m) Aggregate.MethodologyVersion) <$> cr_DayMetrics res)
       (RoundMetric variable "mae" (cr_ErrorBandMAE res)) (cr_ObservationsAvailable res))
    (MkOptions (rq_RequestID r) (Catalog.l_Timezone loc) [] Aggregate.MethodologyVersion ""
       (Some (ComputeFreshness (cr_LatestObservedAt res) now obsFreshMax obsStaleMax "observations_unavailable"))
       ((fun mix => MkProvenance mix [] (Some true)) <$> cr_ProvenanceMix res)
       (text_credits (ref <$> cr_Series res))
       (comparison_warnings (cq_ProviderIDs q) (cs_ProviderID <$> cr_Series res)) None) now.

Definition h_ForecastComparison (r : Request) (now : Time) : HM (Envelope fvaDTO) :=
  locationID <-! parseUUIDParam (Query r "location_id") "location_id" ;;
  let variable := Query r "variable" in
  check (comparisonVariables variable) (FieldMessage "variable" "must be one of temperature|wind_speed|humidity|pressure|precipitation") ;;!
  check (negb (String.eqb (Query r "horizon_minutes") "")) (FieldMessage "horizon_minutes" "is required") ;;!
  horizon <-! horizonParam r ;;
  let date := Query r "date" in
  check (negb (String.eqb date "")) (FieldMessage "date" "is required (ISO date)") ;;!
  loc <-! GetLocation_ locationID ;;
  let tz := default UTC (LoadZone (Catalog.l_Timezone loc)) in
  civil <-! match time_Parse layoutDate date with
            | Some t => done t
            | None => stop (FieldMessage "date" "must be an ISO date (YYYY-MM-DD)")
            end ;;
  let from := GoZone.resolve tz civil in
  let to := AddDateIn from tz 0 0 1 in
  pr <-! resolveComparisonProviders r ;;
  let q := MkComparisonQuery locationID pr.1 variable horizon from to in
  res <-! call (ReadModel.ForecastComparison q) ;;
  done (comparison_answer r now loc date q pr.2 res).
End Handlers.

End Dashboard.
