(* ===== verification/DashboardProps.v ===== *)
(** * What the dashboard handlers answer

    Every public dashboard request is answered whatever its parameters and whatever
    statements fail, and reads only; what an answer after a failed statement should
    be is left open; its ranges and its size are bounded; and where there are rankings an
    active provider is never missing from a ranking without a warning. *)

From Stdlib Require Import ZArith NArith Lia Bool String.
From stdpp Require Import base list strings gmap.
From S2P Require Import Prelude Float64 GoTime GoZone Grouping Uuid GoStrings Effects Ranking Aggregate RankService Catalog CatalogService ReadModel ReadProps Respond Api Dashboard.

Import Catalog Ranking ReadModel Respond Api Dashboard.
Local Open Scope string_scope.
Local Open Scope list_scope.
Local Open Scope Z_scope.

Module DashboardProps.

Section Answers.
Context `{Env} `{Database} `{CatalogService.Lookups} `{Calendar} `{Texts}.

Variable r : Request.

(** What excuses an answer other than the expected ones: a statement failed, or the
    horizon is a number the database's [integer] cannot hold. *)
Definition excused : Prop :=
  (exists i, fault i = true) \/ exists n, Atoi (Query r "horizon_minutes") = Some n /\ 2 ^ 31 <= n.

(** ** Reading programs *)

(** [m] reads: it leaves the tables alone, and fails only with an excuse. *)
Definition reads {A} (Q : A -> Prop) (m : M ReadTables A) : Prop :=
  forall w, db (m w).1 = db w /\ match (m w).2 with Ok a => Q a | Error _ => excused end.

Lemma reads_ret {A} (Q : A -> Prop) (a : A) : Q a -> reads Q (ret a).
Proof. intros Qa w. now split. Qed.

Lemma reads_query {A} (Q : A -> Prop) op (f : ReadTables -> A) : (forall d, Q (f d)) -> reads Q (query op f).
Proof. intros Qf w. unfold query, dbcall. destruct (fault (tick w)) eqn:F; cbn; split; auto. left. now exists (tick w). Qed.

Lemma reads_query4 {A} (Q : A -> Prop) n op (f : ReadTables -> A) : int4 n = true \/ excused -> (forall d, Q (f d)) -> reads Q (query4 n op f).
Proof.
  intros E Qf. unfold query4. destruct (int4 n); [now apply reads_query|]. destruct E as [E|E]; [discriminate|]. intros w. now split.
Qed.

Lemma reads_bind {A B} (Q : A -> Prop) (R : B -> Prop) m (k : A -> M ReadTables B) :
  reads Q m -> (forall a, Q a -> reads R (k a)) -> reads R (bind m k).
Proof.
  intros Hm Hk w. unfold bind. destruct (Hm w) as [D1 X1]. destruct (m w) as [w1 [a|t]]; cbn in *; [|now split].
  destruct (Hk a X1 w1) as [D2 X2]. now rewrite D2.
Qed.

(** ** Handlers *)

(** An error without an excuse is answered as a bad parameter or as an unknown
    resource. *)
Definition expected (e : ApiError) : Prop :=
  forall requestID path, let s := Respond.pr_Status (Classify e requestID path) in s = 422 \/ s = 404 \/ excused.

(** [m] answers with a value in [Q] or with an expected error, and reads only. *)
Definition answers {A} (Q : A -> Prop) (m : HM A) : Prop :=
  forall w, db (m w).1 = db w /\ exists x, (m w).2 = Ok x /\ match x with inl e => expected e | inr a => Q a end.

Lemma answers_done {A} (Q : A -> Prop) a : Q a -> answers Q (done a).
Proof. intros Qa w. split; [reflexivity|now eexists]. Qed.

Lemma answers_field {A} (Q : A -> Prop) f m : answers Q (stop (FieldMessage f m)).
Proof. intros w. split; [reflexivity|]. eexists. split; [reflexivity|]. intros ? ?. now left. Qed.

Lemma answers_missing {A} (Q : A -> Prop) : answers Q (stop (Catalog_ CatalogService.ErrNotFound)).
Proof. intros w. split; [reflexivity|]. eexists. split; [reflexivity|]. intros ? ?. right. now left. Qed.

Lemma answers_bind {A B} (Q : A -> Prop) (R : B -> Prop) (m : HM A) (k : A -> HM B) :
  answers Q m -> (forall a, Q a -> answers R (k a)) -> answers R (bindE m k).
Proof.
  intros Hm Hk w. unfold bindE, bind. destruct (Hm w) as [D1 (x & E & X)]. destruct (m w) as [w1 y]. cbn in *. subst y.
  destruct x as [e|a]; [split; [exact D1|now eexists]|]. destruct (Hk a X w1) as [D2 X2]. now rewrite D2.
Qed.

Lemma answers_call {A} (Q : A -> Prop) (m : M ReadTables A) : reads Q m -> answers Q (call m).
Proof.
  intros Hm w. unfold call, bind, attempt. destruct (Hm w) as [D X]. destruct (m w) as [w1 [a|t]]; cbn in *; (split; [exact D|]);
    eexists; (split; [reflexivity|]); [exact X|]. intros ? ?. right. now right.
Qed.

(** The result of a step, error or not, taken as a value. *)
Lemma answers_ignore {A B} (Q : A -> Prop) (R : B -> Prop) (m : HM A) (k : ApiError + A -> HM B) :
  answers Q m -> (forall x, (forall a, x = inr a -> Q a) -> answers R (k x)) -> answers R (bind m k).
Proof.
  intros Hm Hk w. unfold bind. destruct (Hm w) as [D1 (x & E & X)]. destruct (m w) as [w1 y]. cbn in *. subst y.
  destruct (Hk x ltac:(intros a ->; exact X) w1) as [D2 X2]. now rewrite D2.
Qed.

Lemma answers_check ok f m : answers (fun _ => ok = true) (check ok (FieldMessage f m)).
Proof. unfold check. destruct ok; [now apply answers_done|apply answers_field]. Qed.

Definition any {A} (_ : A) : Prop := True.

Lemma answers_uuid raw f : answers any (parseUUIDParam raw f).
Proof. unfold parseUUIDParam. destruct (CatalogService.ids_Parse _); [now apply answers_done|apply answers_field]. Qed.

Lemma answers_int name msg ok def : ok def = true -> answers (fun n => ok n = true) (int_param r name msg ok def).
Proof.
  intros D. unfold int_param. destruct (String.eqb _ _); [now apply answers_done|]. destruct (Atoi _) as [n|]; [|apply answers_field].
  destruct (ok n) eqn:E; [now apply answers_done|apply answers_field].
Qed.

(** A horizon is positive, and fits the statements' parameter unless excused. *)
Definition horizon_ok (n : Z) : Prop := 0 < n /\ (int4 n = true \/ excused).

Lemma answers_horizon : answers horizon_ok (horizonParam r).
Proof.
  unfold horizonParam, int_param. destruct (String.eqb _ _); [apply answers_done; split; [reflexivity|now left]|].
  destruct (Atoi _) as [n|] eqn:E; [|apply answers_field]. destruct (Z.ltb_spec 0 n); [|apply answers_field].
  apply answers_done. split; [assumption|]. unfold int4. destruct (Z.leb_spec (- 2 ^ 31) n); [|lia]. destruct (Z.ltb_spec n (2 ^ 31)); [now left|].
  right. right. now exists n.
Qed.

Lemma answers_time name def : answers any (time_param r name def).
Proof.
  unfold time_param. destruct (String.eqb _ _); [now apply answers_done|]. destruct (parseDateOrTime _); [now apply answers_done|apply answers_field].
Qed.

Lemma answers_queryUUID name : answers any (queryUUID r name).
Proof.
  unfold queryUUID. destruct (String.eqb _ _); [now apply answers_done|]. eapply answers_bind; [apply answers_uuid|]. intros id _. now apply answers_done.
Qed.

Lemma answers_found {A} op (f : ReadTables -> option A) : answers any (found op f).
Proof.
  unfold found. eapply answers_bind; [apply (answers_call any), reads_query; done|]. intros [a|] _; [now apply answers_done|apply answers_missing].
Qed.

Lemma answers_providers : answers any ListProviders_.
Proof. now apply (answers_call any), reads_query. Qed.

Lemma answers_tokens toks : answers any (parse_tokens toks).
Proof.
  induction toks as [|t toks IH]; [now apply answers_done|]. cbn. destruct (String.eqb _ _); [exact IH|].
  destruct (CatalogService.ids_Parse _); [|apply answers_field]. eapply answers_bind; [exact IH|]. intros ids _. now apply answers_done.
Qed.

Ltac step := first
  [ progress intros
  | apply answers_done; exact I
  | apply answers_field
  | eapply answers_bind; [solve [apply answers_check|apply answers_uuid|apply answers_horizon|apply answers_time|apply answers_queryUUID|apply answers_found
      |apply answers_providers|apply answers_tokens|now apply answers_int]|]
  | eapply answers_ignore; [apply answers_providers|] ].

Lemma reads_rankings q : horizon_ok (rq_HorizonMinutes q) -> reads any (ReadModel.Rankings q).
Proof.
  intros [_ Hq]. unfold ReadModel.Rankings. eapply reads_bind; [now apply (reads_query4 any)|]. intros rows _. eapply reads_bind; [now apply (reads_query any)|].
  intros obs _. destruct rows; now apply reads_ret.
Qed.

Lemma reads_location id h : horizon_ok h -> reads any (ReadModel.LocationSummary id h).
Proof.
  intros [_ Hh]. unfold ReadModel.LocationSummary.
  repeat (eapply reads_bind; [first [now apply (reads_query any)|now apply (reads_query4 any)]|intros ? _]). now apply reads_ret.
Qed.

Lemma reads_provider id : reads any (ReadModel.ProviderSummary id).
Proof. unfold ReadModel.ProviderSummary. repeat (eapply reads_bind; [now apply (reads_query any)|intros ? _]). now apply reads_ret. Qed.

(** Every variable the handler accepts has a column on both sides. *)
Lemma reads_comparison q : horizon_ok (cq_HorizonMinutes q) -> comparisonVariables (cq_Variable q) = true -> reads any (ReadModel.ForecastComparison q).
Proof.
  unfold comparisonVariables, ReadModel.ForecastComparison, forecastColumn, observationColumn. intros [_ Hq] V.
  cbn [existsb] in V. rewrite orb_false_r in V.
  destruct (String.eqb _ "temperature"), (String.eqb _ "wind_speed"), (String.eqb _ "humidity"), (String.eqb _ "pressure"),
    (String.eqb _ "precipitation"); try discriminate V;
    (eapply reads_bind; [now apply (reads_query4 any)|intros points _]; eapply reads_bind; [now apply (reads_query any)|intros obs _]; now apply reads_ret).
Qed.

Lemma answers_rankings_query : answers (fun q => horizon_ok (rq_HorizonMinutes q)) (rankings_query r).
Proof. unfold rankings_query. step. intros id _. step. intros h Hh. repeat step. now apply answers_done. Qed.

Lemma answers_rankings now : answers any (h_Rankings r now).
Proof.
  unfold h_Rankings. eapply answers_bind.
  - apply answers_rankings_query.
  - intros q Hq. eapply answers_bind; [now apply answers_call, reads_rankings|]. repeat step.
Qed.

Lemma answers_summary now : answers any (h_AccuracySummary r now).
Proof.
  unfold h_AccuracySummary. step. intros _ _. destruct (negb _).
  - unfold accuracySummaryByProvider. repeat step. eapply answers_bind; [apply answers_call, reads_provider|]. repeat step.
  - unfold accuracySummaryByLocation. repeat step. eapply answers_bind; [now apply answers_call, reads_location|]. repeat step.
Qed.

Lemma answers_resolve : answers any (resolveComparisonProviders r).
Proof.
  unfold resolveComparisonProviders. do 2 step. eapply (answers_bind any); [|repeat step].
  destruct (String.eqb _ _); [now apply answers_done|apply answers_tokens].
Qed.

Lemma answers_comparison now : answers any (h_ForecastComparison r now).
Proof.
  unfold h_ForecastComparison. step. intros id _. step. intros [] V. repeat step. eapply (answers_bind any).
  - destruct (time_Parse _ _); repeat step.
  - intros civil _. eapply answers_bind; [apply answers_resolve|]. intros pr _.
    eapply answers_bind; [now apply answers_call, reads_comparison|]. repeat step.
Qed.

(** ** Trends *)

(** A filter the trends query is given. *)
Definition bounded (f : TrendFilter) : Prop :=
  horizon_ok (tf_HorizonMinutes f) /\ tf_From f < tf_To f <= tf_From f + 365 * Day /\ 1 <= tf_Limit f <= 2000 /\ aggregations (tf_Aggregation f) = true.

Lemma answers_filter now : answers (fun fl => bounded fl.1) (trends_filter r now).
Proof.
  unfold trends_filter. step. intros id _. step. intros [] _. step. intros h Hh. step. intros [] Ha. eapply (answers_bind any).
  { destruct (LoadZone _); [now apply answers_done|apply answers_field]. }
  intros l _. step. intros to _. step. intros from _. step. intros [] Hb. step. intros [] Hr. step. intros n Hn. step. intros pid _.
  apply answers_done. unfold bounded, Before, trendsMaxDays, trendsMaxBuckets in *. cbn [fst tf_HorizonMinutes tf_From tf_To tf_Limit tf_Aggregation].
  apply Z.ltb_lt in Hb, Hn. apply negb_true_iff, Z.ltb_ge in Hr. split_and!; auto;
    unfold Sub, minInt64, maxInt64, Day, Hour, Minute, Second in *; destruct (Z.ltb_spec n 2000); lia.
Qed.

(** Groups of rows hold each row once. *)
Lemma with_key_cons_length (key : TrendBucket -> uuid) k x l :
  length (with_key key k (x :: l)) = ((if decide (key x = k) then 1 else 0) + length (with_key key k l))%nat.
Proof. unfold with_key. cbn. destruct (decide (key x = k)); [rewrite bool_decide_true|rewrite bool_decide_false]; auto. Qed.

Lemma once (k : uuid) ids : NoDup ids -> (sum_list_with (fun i => if decide (k = i) then 1 else 0) ids <= 1)%nat /\
  (k ∉ ids -> sum_list_with (fun i => if decide (k = i) then 1 else 0)%nat ids = 0%nat).
Proof.
  induction 1 as [|i ids N ND [IH1 IH2]]; [cbn; lia|]. cbn. destruct (decide (k = i)) as [->|D].
  - rewrite IH2 by assumption. split; [lia|]. intros X. exfalso. apply X. now left.
  - split; [exact IH1|]. intros X. apply IH2. intros Y. apply X. now right.
Qed.

Lemma sum_with_plus {A} (f g : A -> nat) l : sum_list_with (fun x => f x + g x)%nat l = (sum_list_with f l + sum_list_with g l)%nat.
Proof. induction l; cbn; lia. Qed.

Lemma sum_with_le {A} (f g : A -> nat) l : (forall x, x ∈ l -> f x <= g x)%nat -> (sum_list_with f l <= sum_list_with g l)%nat.
Proof. induction l as [|x l IH]; intros F; cbn; [lia|]. pose proof (F x ltac:(now left)). assert (sum_list_with f l <= sum_list_with g l)%nat by (apply IH; intros y Hy; apply F; now right). lia. Qed.

Lemma sum_with_key (key : TrendBucket -> uuid) ids rows : NoDup ids -> (sum_list_with (fun k => length (with_key key k rows)) ids <= length rows)%nat.
Proof.
  intros ND. induction rows as [|x rows IH]; [induction ids; cbn; [lia|]; inversion ND; auto|].
  transitivity (sum_list_with (fun k => (if decide (key x = k) then 1 else 0) + length (with_key key k rows))%nat ids).
  { apply sum_with_le. intros k _. now rewrite with_key_cons_length. }
  rewrite sum_with_plus. destruct (once (key x) ids ND) as [O _]. cbn. lia.
Qed.

Lemma length_omap_le {A B} (f : A -> option B) l : (length (omap f l) <= length l)%nat.
Proof. induction l as [|x l IH]; cbn; [lia|]. destruct (f x); cbn; lia. Qed.

Lemma buckets_length l a rows : (length (buckets (trend_groups l a rows)) <= length rows)%nat.
Proof.
  unfold buckets. etransitivity; [apply length_omap_le|]. rewrite (Permutation_length (stable_sort_perm _ _)). unfold trend_groups.
  destruct (group_all_order (bucket_key l a) (trend_init l a) trend_step rows) as [N M].
  rewrite <- (length_fmap (bucket_key l a) rows). apply submseteq_length, NoDup_submseteq; [exact N|]. intros k. apply M.
Qed.

Lemma series_length l a rows : (sum_list_with (fun s => length (ts_Buckets s)) (tr_Series (assembleTrends l a rows)) <= length rows)%nat.
Proof.
  unfold assembleTrends. cbn [tr_Series].
  destruct (group_all_order tb_ProviderID (fun _ => MkGrouped ∅ []) (group_add (bucket_key l a) (trend_init l a) trend_step) rows) as [N _].
  fold (provider_groups l a rows) in N. etransitivity; [|apply (sum_with_key tb_ProviderID _ rows N)].
  induction (g_order (provider_groups l a rows)) as [|id ids IH]; [cbn; lia|]. inversion N as [|? ? _ N']; subst. cbn.
  rewrite ReadProps.provider_group_lookup. destruct (with_key tb_ProviderID id rows) as [|x rs] eqn:W; cbn [fmap option_fmap option_map].
  - cbn. now apply IH.
  - cbn [sum_list_with ts_Buckets]. rewrite <- W. pose proof (buckets_length l a (with_key tb_ProviderID id rows)). specialize (IH N'). lia.
Qed.

Lemma reads_trends f l : bounded f -> reads (fun res => (sum_list_with (fun s => length (ts_Buckets s)) (tr_Series res) <= Z.to_nat (tf_Limit f))%nat)
  (ReadModel.Trends f (Some l)).
Proof.
  intros ((_ & Hh) & _ & L & _). unfold ReadModel.Trends. eapply (reads_bind (fun rows => (length rows <= Z.to_nat (tf_Limit f))%nat)).
  - apply reads_query4; [assumption|]. intros d. unfold pg_AccuracyTrends. destruct (Z.ltb_spec 0 (tf_Limit f)); [|lia]. rewrite length_take. lia.
  - intros rows Hr. apply reads_ret. etransitivity; [apply series_length|exact Hr].
Qed.

Definition buckets_of (d : trendsDTO) : nat := sum_list_with (fun s => length (td_Buckets s)) (tn_Series d).

(** A trends answer of bounded span and size. *)
Definition bounded_answer (d : trendsDTO) : Prop :=
  0 < tn_HorizonMinutes d /\ tn_PeriodStart d < tn_PeriodEnd d <= tn_PeriodStart d + 365 * Day /\ (buckets_of d <= 2000)%nat /\
  aggregations (tn_Aggregation d) = true.

Lemma answers_trends now : answers (fun e => bounded_answer (env_Data e)) (h_AccuracyTrends r now).
Proof.
  unfold h_AccuracyTrends. eapply answers_bind; [apply answers_filter|]. intros [f l] B. cbn [fst] in B.
  eapply answers_bind; [apply answers_call, reads_trends, B|]. intros res L. apply answers_done. destruct B as (B1 & B2 & B3 & B4).
  cbn [env_Data JSON]. unfold bounded_answer, buckets_of. cbn [tn_HorizonMinutes tn_PeriodStart tn_PeriodEnd tn_Aggregation tn_Series].
  split_and!; [apply B1|apply B2|apply B2| |exact B4].
  etransitivity; [|etransitivity; [exact L|lia]]. apply Nat.eq_le_incl.
  induction (tr_Series res) as [|s ss IH]; [reflexivity|]. cbn [fmap list_fmap sum_list_with td_Buckets]. now rewrite length_fmap, IH.
Qed.

(** C28: every dashboard request is answered: whatever its parameters and whatever
    statements fail, each of the four public handlers returns an answer and leaves the
    tables alone.  When no statement fails and the horizon is a 32-bit number, an error
    is a 422 for a bad parameter or a 404 for an unknown resource, never another one
    (every variable the comparison accepts has its columns); nothing is said of the
    error after a failed statement.  A trends answer spans at most 365 days and holds
    at most 2000 buckets. *)
Theorem dashboard_answers (now : Time) :
  answers any (h_Rankings r now) /\ answers any (h_AccuracySummary r now) /\ answers any (h_ForecastComparison r now) /\
  answers (fun e => bounded_answer (env_Data e)) (h_AccuracyTrends r now).
Proof.
  split_and!.
  - apply answers_rankings.
  - apply answers_summary.
  - apply answers_comparison.
  - apply answers_trends.
Qed.
End Answers.

(** ** Partial results *)

Lemma warned_absent ps present wn : wn ∈ absentProviderWarnings ps present <->
  present <> [] /\ exists p, p ∈ ps /\ Catalog.p_Status p = Catalog.StatusActive /\ Catalog.p_ID p ∉ present /\
    wn = MkWarning (Uuid.to_string (Catalog.p_ID p)) warnProviderUnavailable "No published data for this provider in the requested view." "".
Proof.
  unfold absentProviderWarnings. destruct present as [|i present]; [split; [intros X; inversion X|intros [N _]; now destruct N]|].
  rewrite list_elem_of_fmap. split.
  - intros (p & -> & Hp). apply list_elem_of_In, filter_In in Hp as [Hp B]. apply andb_prop in B as [A N].
    apply bool_decide_eq_true in A. apply negb_true_iff, bool_decide_eq_false in N. split; [discriminate|]. exists p. rewrite list_elem_of_In. auto.
  - intros [_ (p & Hp & A & N & ->)]. exists p. split; [reflexivity|]. apply list_elem_of_In, filter_In. rewrite <- list_elem_of_In. split; [exact Hp|].
    now rewrite bool_decide_true, bool_decide_false.
Qed.

(** The provider of a served row. *)
Definition row_provider (x : RankedRow) : uuid := RankService.rr_ProviderID (rr_row (rk_Row x)).

(** The warning codes of the contract. *)
Definition warning_code (c : string) : bool := String.eqb c "provider_unavailable" || String.eqb c "stale".

(** What the answer [env] of the rankings says of the providers, for the served [rows]. *)
Record complete_answer (rows : list RankedRow) (d : ReadTables) (env : Envelope rankingsDTO) : Prop := {
  ca_rows : rg_Rankings (env_Data env) = rankingRow <$> rows;
  ca_partial : env_PartialResult env = bool_decide (op_Warnings (env_Options env) <> []);
  ca_codes : forall wn, wn ∈ op_Warnings (env_Options env) -> warning_code (wa_Code wn) = true;
  ca_covered : forall p, p ∈ rd_providers d -> Catalog.p_Status p = Catalog.StatusActive -> Catalog.p_ID p ∉ row_provider <$> rows ->
    exists wn, wn ∈ op_Warnings (env_Options env) /\ wa_Code wn = "provider_unavailable" /\ wa_ProviderID wn = Uuid.to_string (Catalog.p_ID p);
  ca_sound : forall wn, wn ∈ op_Warnings (env_Options env) -> wa_Message wn = "No published data for this provider in the requested view." ->
    exists p, p ∈ rd_providers d /\ Catalog.p_Status p = Catalog.StatusActive /\ wa_ProviderID wn = Uuid.to_string (Catalog.p_ID p) /\
      Catalog.p_ID p ∉ row_provider <$> rows
}.

Lemma rankings_answer_complete `{Database} r now q res d : rs_Rows res <> [] ->
  complete_answer (rs_Rows res) d (rankings_answer r now q res (Some (pg_ListProviders d))).
Proof.
  intros N. assert (L : forall p, p ∈ pg_ListProviders d <-> p ∈ rd_providers d) by (intros p; unfold pg_ListProviders; now rewrite stable_sort_perm).
  constructor.
  - reflexivity.
  - reflexivity.
  - intros wn W. cbn in W. apply warned_absent in W as [_ (p & _ & _ & _ & ->)]. reflexivity.
  - intros p Hp A Np. eexists. split; [cbn; apply warned_absent; split; [|exists p; rewrite L; auto]|split; reflexivity].
    intros E. apply fmap_nil_inv in E. contradiction.
  - intros wn W _. cbn in W. apply warned_absent in W as [_ (p & Hp & A & Np & ->)]. apply L in Hp. exists p. auto.
Qed.

(** C29: no active provider is missing from the rankings unannounced.  With a working
    database every valid request for a cell that has rankings is answered with exactly
    the rows of its last batch, in their order; every active provider without a row is
    named by a [provider_unavailable] warning; a warning that says there is no published
    data is only about an active provider that has no row; every warning has a code of
    the contract, and the answer is marked partial exactly when there is a warning. *)
Theorem rankings_partial `{Env} `{!Healthy} `{Database} `{CatalogService.Lookups} (r : Request) (now : Time) (w w0 : World ReadTables)
  (q : RankingsQuery) : rankings_query r w = (w0, Ok (inr q)) -> int4 (rq_HorizonMinutes q) = true ->
  let rows := orderRankings (pg_ListRankings (rq_LocationID q) (rq_HorizonMinutes q) (ReadProps.effective_profile q) (db w)) in
  rows <> [] ->
  exists w' env, h_Rankings r now w = (w', Ok (inr env)) /\ db w' = db w /\ complete_answer rows (db w) env.
Proof.
  intros E Hi rows Ne. pose (T := {| fmt6 := fun _ => ""; quoted := fun t => t |} : Texts). destruct (answers_rankings_query r w) as [D _].
  rewrite E in D. cbn [fst] in D. unfold h_Rankings. unfold bindE at 1. rewrite bind_run, E.
  destruct (ReadProps.Rankings_run q w0 Hi) as (res & Eq & Er & _). rewrite D in Eq, Er. fold rows in Er.
  unfold ListProviders_, call, done, bindE, attempt. rewrite !bind_run, Eq. unfold bind, ret. cbv beta iota zeta. rewrite query_healthy.
  cbv beta iota zeta. cbn [db tick nids].
  eexists _, _. split; [reflexivity|]. split; [reflexivity|]. rewrite <- Er. apply rankings_answer_complete. now rewrite Er.
Qed.

(** ** Two providers with data and one without *)

Definition numbers : CatalogService.Lookups :=
  {| CatalogService.LoadLocation := fun _ => true; CatalogService.ids_Parse := fun t => if String.eqb t "nine" then Some 9%N else None |}.
Definition for_nine : Request := MkRequest "GET" "/api/v1/rankings" "/api/v1/rankings" [] [("location_id", "nine")] [] 0 "10.0.0.1" "req-1" Unreadable.

(** The tables of [ReadProps] with one more active provider that has no ranking. *)
Definition six_providers : ReadTables :=
  MkReadTables (rd_rankings ReadProps.demo_tables) (rd_metrics ReadProps.demo_tables) (rd_snapshots ReadProps.demo_tables)
    (rd_observations ReadProps.demo_tables) (rd_providers ReadProps.demo_tables ++ [ReadProps.demo_provider 26 "f"]) (rd_locations ReadProps.demo_tables).

Lemma rankings_partial_witness : exists w' env,
  @h_Rankings calm ReadProps.demo_database numbers for_nine 0 (MkWorld six_providers 0 0) = (w', Ok (inr env)) /\
  exists wn, wn ∈ op_Warnings (env_Options env) /\ wa_ProviderID wn = Uuid.to_string 26.
Proof.
  assert (E : exists q, @rankings_query numbers for_nine (MkWorld six_providers 0 0) = (MkWorld six_providers 0 0, Ok (inr q)) /\
    q = MkRankingsQuery 9 1440 "uniform" 30) by (eexists; split; [vm_compute; reflexivity|reflexivity]).
  destruct E as (q & E & ->).
  destruct (@rankings_partial calm _ ReadProps.demo_database numbers for_nine 0 _ _ _ E eq_refl) as (w' & env & Ea & _ & C).
  { vm_compute. discriminate. }
  exists w', env. split; [exact Ea|]. destruct (ca_covered _ _ _ C (ReadProps.demo_provider 26 "f")) as (wn & Hw & _ & Ew).
  - cbn. rewrite list_elem_of_In. cbn. auto 9.
  - reflexivity.
  - apply (bool_decide_unpack _). vm_compute. reflexivity.
  - exists wn. exact (conj Hw Ew).
Defined.

End DashboardProps.
