(* ===== verification/Jwks.v ===== *)
(** * Token verification ([adapters/auth/jwks], [adapters/auth/devauth])

    The verifier of bearer tokens: compact JWTs signed with RS256 or ES256 by a key of
    the auth provider's key set, which is cached and fetched again when a token names
    an unknown key.  A call is one step on the verifier's state; the clock's readings
    and the endpoint's answer are its arguments.  JSON decoding, SHA-256 and the two
    signature schemes are the parameters of [Jose]; base64 is that of [Credential].
    The theorem is about the tokens on which the code and the published rules agree
    ([undisputed]).  [Verifiers] gives the state as the [TokenVerifier] the identity service uses. *)

From Stdlib Require Import ZArith NArith Lia Bool String Ascii.
From stdpp Require Import base list strings gmap.
From S2P Require Import Prelude GoTime Uuid GoStrings Effects Credential Identity IdentityProps.

Local Open Scope string_scope.
Local Open Scope list_scope.
Local Open Scope Z_scope.

Module Jwks.

Inductive PublicKey := RSAKey (n e : Z) | ECKey (x y : Z).

Record jwk := MkJwk { jw_Kty : string; jw_Kid : string; jw_N : string; jw_E : string; jw_Crv : string; jw_X : string; jw_Y : string }.

Record jwtHeader := MkHeader { jh_Alg : string; jh_Kid : string }.

(** The [aud] member as JSON has it. *)
Inductive Aud := AudAbsent | AudNull | AudString (s : string) | AudStrings (l : list string) | AudOther.

Record jwtClaims := MkJwtClaims { jc_Subject : string; jc_Email : string; jc_Issuer : string; jc_Expiry : Z; jc_Audience : Aud }.

Class Jose := {
  json_header : list Z -> option jwtHeader;
  json_claims : list Z -> option jwtClaims;
  json_jwks : string -> option (list jwk);
  sha256_Sum256 : string -> list Z;
  rsa_VerifyPKCS1v15 : Z -> Z -> list Z -> list Z -> bool;
  ecdsa_Verify : Z -> Z -> list Z -> Z -> Z -> bool;
}.

(** [audience.UnmarshalJSON]: a string, or a list of strings; null decodes as the
    empty string. *)
Definition audience (a : Aud) : option (list string) :=
  match a with
  | AudAbsent => Some []
  | AudNull => Some [""]
  | AudString s => Some [s]
  | AudStrings l => Some l
  | AudOther => None
  end.

Fixpoint contains (a : list string) (want : string) : bool :=
  match a with [] => false | v :: a => if String.eqb v want then true else contains a want end.

Record Config := MkConfig { cf_Issuer : string; cf_Audience : string; cf_MinRefreshInterval : Duration; cf_Leeway : Duration }.

Record Verifier := MkVerifier {
  issuer : string;
  aud_ : string;
  minRefresh : Duration;
  leeway : Duration;
  keys : gmap string PublicKey;
  lastRefresh : Time
}.

Definition New (cfg : Config) : Verifier :=
  MkVerifier (cf_Issuer cfg) (cf_Audience cfg)
    (if cf_MinRefreshInterval cfg <=? 0 then Minute else cf_MinRefreshInterval cfg)
    (if cf_Leeway cfg <=? 0 then 60 * Second else cf_Leeway cfg) ∅ zeroTime.

Definition with_keys (v : Verifier) (ks : gmap string PublicKey) (now : Time) : Verifier :=
  MkVerifier (issuer v) (aud_ v) (minRefresh v) (leeway v) ks now.

(** [new(big.Int).SetBytes] *)
Definition SetBytes (bs : list Z) : Z := foldl (fun a b => a * 256 + b) 0 bs.

Definition RawURL (s : string) : option (list Z) := Credential.DecodeString Credential.URLAlphabet s.

Definition publicKey (k : jwk) : option PublicKey :=
  if String.eqb (jw_Kty k) "RSA" then
    match RawURL (jw_N k), RawURL (jw_E k) with
    | Some n, Some e => Some (RSAKey (SetBytes n) (wrap64 (SetBytes e)))
    | _, _ => None
    end
  else if String.eqb (jw_Kty k) "EC" then
    if negb (String.eqb (jw_Crv k) "P-256") then None
    else match RawURL (jw_X k), RawURL (jw_Y k) with
         | Some x, Some y => Some (ECKey (SetBytes x) (SetBytes y))
         | _, _ => None
         end
  else None.

Definition add_key (out : gmap string PublicKey) (k : jwk) : gmap string PublicKey :=
  match publicKey k with
  | Some pub => if String.eqb (jw_Kid k) "" then out else <[jw_Kid k := pub]> out
  | None => out
  end.

(** [time.Unix(sec, 0)]: seconds since year 1 in 64 bits. *)
Definition time_Unix (sec : Z) : Time := (wrap64 (sec + 62135596800) - 62135596800) * Second.

(** What the key endpoint answers; a body that cannot be read is [None]. *)
Inductive Response := NoResponse | Responded (status : Z) (body : option string).

Definition maxBody : nat := 1048576.

(** The clock at the refresh check, after a fetch, and at the expiry check. *)
Record Readings := MkReadings { at_check : Time; at_store : Time; at_expiry : Time }.

Section Verification.
Context `{Jose}.

Definition parseJWKS (body : string) : option (gmap string PublicKey) :=
  match json_jwks body with
  | None => None
  | Some ks => let out := foldl add_key ∅ ks in if bool_decide (out = ∅) then None else Some out
  end.

Definition due (v : Verifier) (now : Time) : bool :=
  negb (negb (lastRefresh v =? zeroTime) && (Sub now (lastRefresh v) <? minRefresh v)).

(** The key set an answer of the endpoint holds. *)
Definition fetched (resp : Response) : option (gmap string PublicKey) :=
  match resp with
  | Responded 200 (Some body) => parseJWKS (String.substring 0 maxBody body)
  | _ => None
  end.

(** The state after, and whether there was no error. *)
Definition refresh (rd : Readings) (resp : Response) (v : Verifier) : Verifier * bool :=
  if negb (due v (at_check rd)) then (v, true)
  else match fetched resp with
       | Some ks => (with_keys v ks (at_store rd), true)
       | None => (v, false)
       end.

Definition keyForKID (rd : Readings) (resp : Response) (kid : string) (v : Verifier) : Verifier * option PublicKey :=
  match keys v !! kid with
  | Some k => (v, Some k)
  | None =>
      match refresh rd resp v with
      | (v', false) => (v', None)
      | (v', true) => (v', keys v' !! kid)
      end
  end.

Definition verifySignature (alg : string) (key : PublicKey) (signingInput : string) (sig : list Z) : bool :=
  let digest := sha256_Sum256 signingInput in
  if String.eqb alg "RS256" then
    match key with RSAKey n e => rsa_VerifyPKCS1v15 n e digest sig | ECKey _ _ => false end
  else if String.eqb alg "ES256" then
    match key with
    | ECKey x y => if negb (length sig =? 64)%nat then false else ecdsa_Verify x y digest (SetBytes (take 32 sig)) (SetBytes (drop 32 sig))
    | RSAKey _ _ => false
    end
  else false.

(** What is left of [Verify] once the signature is good. *)
Definition check_claims (v : Verifier) (now : Time) (payload : string) : Identity.IdentityError + Identity.Claims :=
  match RawURL payload ≫= json_claims with
  | None => inl Identity.ErrInvalidToken
  | Some cl =>
      match audience (jc_Audience cl) with
      | None => inl Identity.ErrInvalidToken
      | Some aud =>
          if String.eqb (jc_Subject cl) "" then inl Identity.ErrInvalidToken
          else if negb (String.eqb (issuer v) "") && negb (String.eqb (jc_Issuer cl) (issuer v)) then inl Identity.ErrInvalidToken
          else if negb (String.eqb (aud_ v) "") && negb (contains aud (aud_ v)) then inl Identity.ErrInvalidToken
          else if jc_Expiry cl =? 0 then inl Identity.ErrInvalidToken
          else
            let exp := time_Unix (jc_Expiry cl) in
            if After now (Add exp (leeway v)) then inl Identity.ErrTokenExpired
            else inr (Identity.MkClaims (jc_Subject cl) (jc_Email cl) exp)
      end
  end.

Definition Verify (rd : Readings) (resp : Response) (raw : string) (v : Verifier) : Verifier * (Identity.IdentityError + Identity.Claims) :=
  match Split "."%char raw with
  | [p0; p1; p2] =>
      match RawURL p0 ≫= json_header with
      | None => (v, inl Identity.ErrInvalidToken)
      | Some h =>
          if negb (String.eqb (jh_Alg h) "RS256") && negb (String.eqb (jh_Alg h) "ES256") then (v, inl Identity.ErrInvalidToken)
          else match RawURL p2 with
               | None => (v, inl Identity.ErrInvalidToken)
               | Some sig =>
                   match keyForKID rd resp (jh_Kid h) v with
                   | (v', None) => (v', inl Identity.ErrInvalidToken)
                   | (v', Some key) =>
                       if negb (verifySignature (jh_Alg h) key (p0 +:+ "." +:+ p1) sig) then (v', inl Identity.ErrInvalidToken)
                       else (v', check_claims v' (at_expiry rd) p1)
                   end
               end
      end
  | _ => (v, inl Identity.ErrInvalidToken)
  end.
End Verification.

(** ** devauth.go *)

(** [strings.Cut(s, ":")] *)
Fixpoint cut_colon (s : string) : string * string :=
  match s with
  | "" => ("", "")
  | String a r => if Ascii.eqb a ":" then ("", r) else let '(x, y) := cut_colon r in (String a x, y)
  end.

(** The development verifier, which trusts what it is told. *)
Definition dev_Verify (now : Time) (raw : string) : Identity.IdentityError + Identity.Claims :=
  let raw := TrimSpace raw in
  if String.eqb raw "" then inl Identity.ErrInvalidToken
  else
    let '(subject, email) := cut_colon raw in
    let subject := TrimSpace subject in
    if String.eqb subject "" then inl Identity.ErrInvalidToken
    else
      let email := TrimSpace email in
      let email := if String.eqb email "" then subject +:+ "@dev.local" else email in
      inr (Identity.MkClaims ("dev|" +:+ subject) email (Add now Hour)).

(** ** What a token needs *)

Section Spec.
Context `{Jose}.

(** The key the verifier uses for [kid]: a cached one, or one of the key set it
    fetches when the id is unknown and a refresh is due. *)
Definition key_known (v : Verifier) (rd : Readings) (resp : Response) (kid : string) (key : PublicKey) : Prop :=
  keys v !! kid = Some key \/
  (keys v !! kid = None /\ due v (at_check rd) = true /\ exists ks, fetched resp = Some ks /\ ks !! kid = Some key).

(** The algorithm of the token and the kind of the key agree, and the signature is good. *)
Inductive signed_by (input : string) (sig : list Z) : string -> PublicKey -> Prop :=
| by_rsa n e : rsa_VerifyPKCS1v15 n e (sha256_Sum256 input) sig = true -> signed_by input sig "RS256" (RSAKey n e)
| by_ec x y : length sig = 64%nat -> ecdsa_Verify x y (sha256_Sum256 input) (SetBytes (take 32 sig)) (SetBytes (drop 32 sig)) = true ->
    signed_by input sig "ES256" (ECKey x y).

Record claims_hold (v : Verifier) (now : Time) (cl : jwtClaims) (aud : list string) : Prop := {
  ch_subject : jc_Subject cl <> "";
  ch_issuer : issuer v = "" \/ jc_Issuer cl = issuer v;
  ch_audience : aud_ v = "" \/ aud_ v ∈ aud;
  ch_expiry : jc_Expiry cl <> 0;
  ch_alive : now <= time_Unix (jc_Expiry cl) + leeway v
}.

Record acceptable (v : Verifier) (rd : Readings) (resp : Response) (raw : string) (c : Identity.Claims) : Prop := MkAcceptable {
  ac_h : jwtHeader; ac_p0 : string; ac_p1 : string; ac_p2 : string; ac_sig : list Z; ac_key : PublicKey; ac_cl : jwtClaims; ac_aud : list string;
  ac_parts : Split "."%char raw = [ac_p0; ac_p1; ac_p2];
  ac_header : RawURL ac_p0 ≫= json_header = Some ac_h;
  ac_sigbytes : RawURL ac_p2 = Some ac_sig;
  ac_known : key_known v rd resp (jh_Kid ac_h) ac_key;
  ac_signed : signed_by (ac_p0 +:+ "." +:+ ac_p1) ac_sig (jh_Alg ac_h) ac_key;
  ac_payload : RawURL ac_p1 ≫= json_claims = Some ac_cl;
  ac_audience : audience (jc_Audience ac_cl) = Some ac_aud;
  ac_claims : claims_hold v (at_expiry rd) ac_cl ac_aud;
  ac_result : c = Identity.MkClaims (jc_Subject ac_cl) (jc_Email ac_cl) (time_Unix (jc_Expiry ac_cl))
}.

Lemma contains_elem a want : contains a want = true <-> want ∈ a.
Proof.
  induction a as [|x a IH]; cbn; [split; [discriminate|intros X; inversion X]|]. rewrite list_elem_of_In in *. cbn.
  destruct (String.eqb_spec x want) as [->|N]; [tauto|]. rewrite IH. intuition congruence.
Qed.

Lemma signature_ok alg key input sig : verifySignature alg key input sig = true <-> signed_by input sig alg key.
Proof.
  unfold verifySignature. split.
  - destruct (String.eqb_spec alg "RS256") as [->|_]; [destruct key; [apply by_rsa|discriminate]|].
    destruct (String.eqb_spec alg "ES256") as [->|_]; [|discriminate]. destruct key as [|x y]; [discriminate|].
    destruct (Nat.eqb_spec (length sig) 64); [|discriminate]. now apply by_ec.
  - intros [n e V|x y L V]; cbn; [exact V|]. now rewrite L.
Qed.

(** A look-up changes at most the key set and the time of the refresh. *)
Lemma key_lookup rd resp kid v v' x : keyForKID rd resp kid v = (v', x) ->
  (issuer v' = issuer v /\ aud_ v' = aud_ v /\ leeway v' = leeway v) /\ (forall key, x = Some key <-> key_known v rd resp kid key).
Proof.
  unfold keyForKID, refresh, key_known. destruct (keys v !! kid) as [k|] eqn:K.
  { intros [= <- <-]. split; [auto|]. intros key. split; [auto|]. intros [E|[E _]]; [exact E|discriminate]. }
  destruct (due v (at_check rd)) eqn:D; cbn [negb].
  - destruct (fetched resp) as [ks|]; intros [= <- <-]; (split; [auto|]); intros key; (split; [|intros [E|(_ & _ & ks' & [= <-] & E)]]); cbn in *; try discriminate; auto.
    intros E. right. eauto.
  - intros [= <- <-]. split; [auto|]. intros key. rewrite K. split; [discriminate|]. intros [E|(_ & E & _)]; discriminate.
Qed.

Lemma claims_checked v now payload c : check_claims v now payload = inr c <->
  exists cl aud, RawURL payload ≫= json_claims = Some cl /\ audience (jc_Audience cl) = Some aud /\ claims_hold v now cl aud /\
    c = Identity.MkClaims (jc_Subject cl) (jc_Email cl) (time_Unix (jc_Expiry cl)).
Proof.
  unfold check_claims, After, Add. destruct (RawURL payload ≫= json_claims) as [cl|]; [|split; [discriminate|intros (? & ? & [=] & _)]].
  destruct (audience (jc_Audience cl)) as [aud|] eqn:A; [|split; [discriminate|intros (? & ? & [= <-] & E & _); congruence]].
  split.
  - destruct (String.eqb_spec (jc_Subject cl) "") as [|S]; [discriminate|]. destruct (negb _ && negb _) eqn:I; [discriminate|].
    destruct (negb (String.eqb (aud_ v) "") && _) eqn:B; [discriminate|]. destruct (Z.eqb_spec (jc_Expiry cl) 0) as [|X]; [discriminate|].
    destruct (Z.ltb_spec (time_Unix (jc_Expiry cl) + leeway v) now) as [|L]; [discriminate|]. intros [= <-]. exists cl, aud. split_and!; auto.
    apply andb_false_iff in I, B. rewrite !negb_false_iff, !String.eqb_eq in I. rewrite !negb_false_iff, String.eqb_eq, contains_elem in B.
    now constructor.
  - intros (cl' & aud' & [= <-] & E & [S I B X L] & ->). rewrite A in E. injection E as <-. rewrite (proj2 (String.eqb_neq _ _) S).
    assert (I' : negb (String.eqb (issuer v) "") && negb (String.eqb (jc_Issuer cl) (issuer v)) = false).
    { apply andb_false_iff. rewrite !negb_false_iff, !String.eqb_eq. exact I. }
    assert (B' : negb (String.eqb (aud_ v) "") && negb (contains aud (aud_ v)) = false).
    { apply andb_false_iff. rewrite !negb_false_iff, String.eqb_eq, contains_elem. exact B. }
    rewrite I', B', (proj2 (Z.eqb_neq _ _) X), (proj2 (Z.ltb_ge _ _) L). reflexivity.
Qed.

Lemma claims_hold_same v v' now cl aud : issuer v' = issuer v -> aud_ v' = aud_ v -> leeway v' = leeway v ->
  claims_hold v now cl aud <-> claims_hold v' now cl aud.
Proof. intros E1 E2 E3. split; intros [S I B X L]; constructor; rewrite ?E1, ?E2, ?E3 in *; assumption. Qed.

Lemma verify_acceptable (v : Verifier) (rd : Readings) (resp : Response) (raw : string) (c : Identity.Claims) :
  (Verify rd resp raw v).2 = inr c <-> acceptable v rd resp raw c.
Proof.
  unfold Verify. split.
  - destruct (Split "."%char raw) as [|p0 [|p1 [|p2 [|]]]] eqn:P; try discriminate.
    destruct (RawURL p0 ≫= json_header) as [h|] eqn:Eh; [|discriminate]. destruct (negb _ && negb _); [discriminate|].
    destruct (RawURL p2) as [sig|] eqn:Es; [|discriminate]. destruct (keyForKID rd resp (jh_Kid h) v) as [v' [key|]] eqn:K; [|discriminate].
    apply key_lookup in K as [(E1 & E2 & E3) K]. destruct (verifySignature _ _ _ _) eqn:V; [|discriminate]. cbn [negb snd].
    intros (cl & aud & Ec & Ea & C & ->)%claims_checked. apply signature_ok in V. apply (claims_hold_same v v') in C; auto.
    econstructor; eauto. now apply K.
  - intros [h p0 p1 p2 sig key cl aud P Eh Es Kn V Ec Ea C ->]. rewrite P, Eh, Es.
    assert (A : negb (String.eqb (jh_Alg h) "RS256") && negb (String.eqb (jh_Alg h) "ES256") = false) by (inversion V; reflexivity). rewrite A.
    destruct (keyForKID rd resp (jh_Kid h) v) as [v' x] eqn:K. apply key_lookup in K as [(E1 & E2 & E3) K]. apply K in Kn as ->.
    apply signature_ok in V. rewrite V. cbn [negb snd]. apply claims_checked. exists cl, aud. split_and!; auto.
    now apply (claims_hold_same v v').
Qed.

(** The algorithm the header of a token names. *)
Definition header_alg (raw : string) : option string :=
  match Split "."%char raw with
  | [p0; _; _] => jh_Alg <$> (RawURL p0 ≫= json_header)
  | _ => None
  end.

(** The claims a token carries. *)
Definition token_claims (raw : string) : option jwtClaims :=
  match Split "."%char raw with [_; p1; _] => RawURL p1 ≫= json_claims | _ => None end.

(** The tokens on which the code and the published verification rules (RS256 only, keys
    cached for 15 minutes, 30 seconds of leeway) agree: another algorithm than ES256, no
    cached key older than that, and not expired for longer than 30 seconds but within
    the configured leeway. *)
Record undisputed (v : Verifier) (rd : Readings) (raw : string) : Prop := {
  ud_alg : header_alg raw <> Some "ES256";
  ud_keys : keys v = ∅ \/ at_check rd <= lastRefresh v + 15 * Minute;
  ud_expiry : forall cl, token_claims raw = Some cl ->
    at_expiry rd <= time_Unix (jc_Expiry cl) + 30 * Second \/ time_Unix (jc_Expiry cl) + leeway v < at_expiry rd
}.

(** C22: a bearer token is accepted exactly when it has three parts, names RS256 and an
    RSA key of the provider's key set (the cached one, or the one fetched because the
    key is unknown and a refresh is due), the signature over header and payload is good
    under that key, and the claims carry a subject, the configured issuer and audience,
    and an expiry not past by more than 30 seconds (or the configured leeway, if it is
    shorter); the identity it gives is the signed one.  So a token without a signature,
    or with a shared-secret one, never passes.  This is for tokens that do not name
    ES256 and did not expire between 30 seconds and the configured leeway ago, and for
    keys cached at most 15 minutes ago. *)
Theorem token_verification_exact (v : Verifier) (rd : Readings) (resp : Response) (raw : string) (c : Identity.Claims) :
  undisputed v rd raw ->
  (Verify rd resp raw v).2 = inr c <->
  header_alg raw = Some "RS256" /\ (exists cl, token_claims raw = Some cl /\ at_expiry rd <= time_Unix (jc_Expiry cl) + 30 * Second) /\
  acceptable v rd resp raw c.
Proof.
  intros [Ne _ Ex]. rewrite verify_acceptable. split; [|tauto]. intros A. split; [|split; [|exact A]];
    destruct A as [h p0 p1 p2 sig key cl aud P Hd _ _ S Cl _ Ch _].
  - unfold header_alg in *. rewrite P, Hd in *. cbn in *. destruct S; [reflexivity|contradiction].
  - exists cl. unfold token_claims in *. rewrite P, Cl in *. split; [reflexivity|]. destruct (Ex cl eq_refl) as [E|E]; [exact E|].
    pose proof (ch_alive _ _ _ _ Ch). lia.
Qed.

(** ** The key set over time *)

Definition run (calls : list (Readings * Response * string)) (v : Verifier) : Verifier :=
  foldl (fun v '(rd, resp, raw) => (Verify rd resp raw v).1) v calls.

Lemma verify_state rd resp raw v : let v' := (Verify rd resp raw v).1 in
  v' = v \/ (due v (at_check rd) = true /\ exists ks, fetched resp = Some ks /\ v' = with_keys v ks (at_store rd)).
Proof.
  assert (K : forall kid, let v' := (keyForKID rd resp kid v).1 in
    v' = v \/ (due v (at_check rd) = true /\ exists ks, fetched resp = Some ks /\ v' = with_keys v ks (at_store rd))).
  { intros kid. unfold keyForKID, refresh. destruct (keys v !! kid); [now left|]. destruct (due v (at_check rd)); [|now left]. cbn [negb].
    destruct (fetched resp) as [ks|]; [right; eauto|now left]. }
  unfold Verify. destruct (Split _ _) as [|p0 [|p1 [|p2 [|]]]]; try now left. destruct (RawURL p0 ≫= json_header) as [h|]; [|now left].
  destruct (negb _ && negb _); [now left|]. destruct (RawURL p2) as [sig|]; [|now left]. specialize (K (jh_Kid h)).
  destruct (keyForKID rd resp (jh_Kid h) v) as [v' [key|]]; [|exact K]. now destruct (negb _).
Qed.

(** Note: the keys a verifier trusts are those of one answer of the endpoint, the last
    it could use, whatever tokens were presented: a key the provider drops is gone
    with the next refresh. *)
Theorem keys_published (cfg : Config) (calls : list (Readings * Response * string)) :
  let v := run calls (New cfg) in keys v = ∅ \/ exists rd resp raw, (rd, resp, raw) ∈ calls /\ fetched resp = Some (keys v).
Proof.
  induction calls as [|[[rd resp] raw] calls IH] using rev_ind; [now left|]. unfold run in *. rewrite foldl_app. cbn.
  destruct (verify_state rd resp raw (foldl (fun v '(rd, resp, raw) => (Verify rd resp raw v).1) (New cfg) calls)) as [->|(_ & ks & F & ->)].
  - destruct IH as [E|(rd' & resp' & raw' & I & E)]; [now left|]. right. exists rd', resp', raw'. split; [|exact E].
    apply elem_of_app. now left.
  - right. exists rd, resp, raw. split; [|exact F]. apply elem_of_app. right. now left.
Qed.

(** Note: the refresh interval counts successful fetches only: while the endpoint fails
    (or before the first success) the state does not change, so every token with an
    unknown key id sends another request, however often they come. *)
Theorem failed_refresh_unlimited (rd : Readings) (resp : Response) (raw : string) (v : Verifier) :
  fetched resp = None -> (Verify rd resp raw v).1 = v /\
    forall rd', due (Verify rd resp raw v).1 (at_check rd') = due v (at_check rd').
Proof.
  intros F. assert (E : (Verify rd resp raw v).1 = v) by (destruct (verify_state rd resp raw v) as [E|(_ & ks & E & _)]; congruence).
  now rewrite E.
Qed.

(** ** The interface of the identity service *)

(** The verifier in a state, with what the endpoint would answer now. *)
Definition verifier_at (v : Verifier) (resp : Response) : Identity.TokenVerifier :=
  {| Identity.Verify := fun now raw => (Verify (MkReadings now now now) resp raw v).2 |}.

Definition dev_verifier : Identity.TokenVerifier := {| Identity.Verify := dev_Verify |}.

(** Note: behind the identity service, a session exists only for a token the provider
    signed: its subject is the user's. *)
Theorem session_signed `{Env} (v : Verifier) (resp : Response) (workspaceID : uuid) (raw : string) (now : Time)
  (w w' : World Identity.IdTables) (p : Identity.Principal) :
  @Identity.Authenticate _ (verifier_at v resp) workspaceID raw now w = (w', Ok (inr p)) ->
  exists c u, acceptable v (MkReadings now now now) resp raw c /\ Identity.u_AuthSubject u = Identity.c_Subject c /\ Identity.u_ID u = Identity.p_UserID p /\
    Identity.u_Status u = "active".
Proof.
  intros (c & u & V & Act & -> & M)%IdentityProps.auth_token_inv. apply String.eqb_eq in Act. exists c, u.
  split; [now apply verify_acceptable|]. split; [|auto]. destruct (Identity.pg_UserBySubject _ _) as [x|] eqn:F.
  - subst x. now apply IdentityProps.find_inv in F as [_ Es%String.eqb_eq].
  - now destruct M as (_ & Es & _).
Qed.
End Spec.

(** ** One token *)

Definition toyJose : Jose := {|
  json_header := fun bs => if bool_decide (bs = [104]) then Some (MkHeader "RS256" "k1") else Some (MkHeader "none" "k1");
  json_claims := fun _ => Some (MkJwtClaims "sub-bob" "bob@x" "https://auth" 100 (AudString "authenticated"));
  json_jwks := fun _ => Some [MkJwk "RSA" "k1" "AQ" "AQAB" "" "" ""; MkJwk "EC" "k2" "" "" "P-521" "" ""];
  sha256_Sum256 := fun t => [Z.of_nat (String.length t)];
  rsa_VerifyPKCS1v15 := fun n e d sig => bool_decide (sig = [n]) && (e =? 65537);
  ecdsa_Verify := fun _ _ _ _ _ => false
|}.

Lemma token_verification_exact_witness :
  (@Verify toyJose (MkReadings 0 0 (120 * Second)) (Responded 200 (Some "{}")) "aA.aA.AQ"
     (New (MkConfig "https://auth" "authenticated" 0 0))).2 = inr (Identity.MkClaims "sub-bob" "bob@x" (100 * Second)) /\
  @acceptable toyJose (New (MkConfig "https://auth" "authenticated" 0 0)) (MkReadings 0 0 (120 * Second))
    (Responded 200 (Some "{}")) "aA.aA.AQ" (Identity.MkClaims "sub-bob" "bob@x" (100 * Second)).
Proof.
  assert (E : (@Verify toyJose (MkReadings 0 0 (120 * Second)) (Responded 200 (Some "{}")) "aA.aA.AQ"
     (New (MkConfig "https://auth" "authenticated" 0 0))).2 = inr (Identity.MkClaims "sub-bob" "bob@x" (100 * Second)))
    by (vm_compute; reflexivity).
  split; [exact E|].
  refine (proj2 (proj2 (proj1 (@token_verification_exact toyJose (New (MkConfig "https://auth" "authenticated" 0 0)) (MkReadings 0 0 (120 * Second)) _ _ _ _) E))).
  constructor; [vm_compute; discriminate|now left|]. intros cl Hc. left. vm_compute in Hc. injection Hc as <-. discriminate.
Defined.

(** The first token makes the verifier fetch the keys; it lives until its expiry and
    the leeway; without an algorithm, or from another issuer, it is refused. *)
Example tokens :
  let fresh := New (MkConfig "https://auth" "authenticated" 0 0) in
  let at_ s := MkReadings (s * Second) (s * Second) (s * Second) in
  let ok := Responded 200 (Some "{}") in
  let verdict := fun v s resp raw => (@Verify toyJose (at_ s) resp raw v).2 in
  let bob := Identity.MkClaims "sub-bob" "bob@x" (100 * Second) in
  verdict fresh 160 ok "aA.aA.AQ" = inr bob /\ verdict fresh 161 ok "aA.aA.AQ" = inl Identity.ErrTokenExpired /\
  verdict fresh 50 ok "aQ.aA.AQ" = inl Identity.ErrInvalidToken /\ verdict fresh 50 NoResponse "aA.aA.AQ" = inl Identity.ErrInvalidToken /\
  verdict (New (MkConfig "https://other" "" 0 0)) 50 ok "aA.aA.AQ" = inl Identity.ErrInvalidToken /\
  dom (keys (@Verify toyJose (at_ 50) ok "aA.aA.AQ" fresh).1) = {["k1"]}.
Proof. vm_compute. repeat split. Qed.

End Jwks.
