(* ===== verification/PayloadStore.v ===== *)
(** * The payload store ([adapters/payloadstore/filesystem.go])

    Compressed provider responses as files under a root directory, addressed by keys
    with a scheme.  Paths are Unix paths: [filepath.Join] and [Clean] are written out
    for absolute ones.  The disk is a map from paths to contents; whether a system
    call fails, and what a failed write leaves behind, is an argument of the operation.
    [gzip] is a parameter with its round trip as a law; directories and file modes are
    left out.  An operation runs alone: two writers of one key, which would share the
    temporary file, and a crash between two calls are not modelled. *)

From Stdlib Require Import ZArith Lia Bool String Ascii.
From stdpp Require Import base list strings gmap.
From S2P Require Import Prelude GoTime GoStrings Collection.

Local Open Scope string_scope.
Local Open Scope list_scope.

Module PayloadStore.

(** ** Paths *)

Definition slash : ascii := "/"%char.

(** [path.Clean] on the components of an absolute path: the components so far, in order. *)
Definition clean_step (stack : list string) (c : string) : list string :=
  if String.eqb c "" || String.eqb c "." then stack
  else if String.eqb c ".." then removelast stack
  else stack ++ [c].

Fixpoint render_parts (parts : list string) : string :=
  match parts with [] => "" | c :: parts => "/" +:+ c +:+ render_parts parts end.

Definition render (parts : list string) : string := match parts with [] => "/" | _ => render_parts parts end.

Definition Clean (p : string) : string := render (foldl clean_step [] (Split slash p)).

(** [filepath.Join] of an absolute directory and a relative path. *)
Definition Join (root rel : string) : string := Clean (root +:+ "/" +:+ rel).

(** [filepath.Abs] in the directory [cwd]. *)
Definition Abs (cwd dir : string) : string := if HasPrefix dir "/" then Clean dir else Join cwd dir.

(** [strings.Contains] *)
Fixpoint Contains (s sub : string) : bool :=
  HasPrefix s sub || match s with "" => false | String _ s => Contains s sub end.

(** ** filesystem.go *)

Definition NewFilesystemStore (cwd dir : string) : string := Abs cwd dir.

Definition relative (objectKey : string) : string := TrimPrefix (TrimPrefix objectKey Collection.PayloadSchemeFile) "/".

Definition resolve (root objectKey : string) : option string :=
  let rel := relative objectKey in
  if String.eqb rel "" || Contains rel ".." then None
  else
    let path := Join root rel in
    if negb (HasPrefix path (root +:+ "/")) then None else Some path.

Class Gzip := { gzip : string -> string; gunzip : string -> option string }.
Class GzipLaws `{Gzip} := { gunzip_gzip : forall s, gunzip (gzip s) = Some s }.

Abbreviation Disk := (gmap string string).

(** How the system calls of one operation go: the directory, the write (a failed one
    may leave something in the file), the rename. *)
Record IO := MkIO { io_mkdir : bool; io_write : bool; io_left : option string; io_rename : bool }.

Section Store.
Context `{Gzip} (root : string).

Definition os_WriteFile (io : IO) (path data : string) (fs : Disk) : Disk * bool :=
  if io_write io then (<[path := data]> fs, true)
  else (match io_left io with Some part => <[path := part]> fs | None => fs end, false).

Definition os_Rename (io : IO) (from to : string) (fs : Disk) : Disk * bool :=
  match fs !! from with
  | Some data => if io_rename io then (<[to := data]> (delete from fs), true) else (fs, false)
  | None => (fs, false)
  end.

Definition Write (io : IO) (objectKey raw : string) (fs : Disk) : Disk * bool :=
  match resolve root objectKey with
  | None => (fs, false)
  | Some path =>
      if negb (io_mkdir io) then (fs, false)
      else
        let tmp := path +:+ ".tmp" in
        match os_WriteFile io tmp (gzip raw) fs with
        | (fs, false) => (fs, false)
        | (fs, true) => os_Rename io tmp path fs
        end
  end.

Inductive ReadError := InvalidKey | NotExist | Unreadable | Corrupt.

(** [can_open]: opening an existing file may fail too. *)
Definition Read (can_open : bool) (objectKey : string) (fs : Disk) : ReadError + string :=
  match resolve root objectKey with
  | None => inl InvalidKey
  | Some path =>
      match fs !! path with
      | None => inl NotExist
      | Some data => if negb can_open then inl Unreadable else match gunzip data with Some raw => inr raw | None => inl Corrupt end
      end
  end.

Definition Quarantine (io : IO) (stamp objectKey : string) (fs : Disk) : Disk * option string :=
  match resolve root objectKey with
  | None => (fs, None)
  | Some path =>
      let suffix := ".corrupt-" +:+ stamp in
      match os_Rename io path (path +:+ suffix) fs with
      | (fs, true) => (fs, Some (objectKey +:+ suffix))
      | (fs, false) => (fs, None)
      end
  end.

(** The probe file is removed again; a failing removal is ignored. *)
Definition Writable (io : IO) (removed : bool) (fs : Disk) : Disk * bool :=
  if negb (io_mkdir io) then (fs, false)
  else
    let probe := Join root ".write-probe" in
    match os_WriteFile io probe "ok" fs with
    | (fs, false) => (fs, false)
    | (fs, true) => (if removed then delete probe fs else fs, true)
    end.
End Store.

(** ** Paths stay under the root *)

Definition part_ok (c : string) : Prop := c <> "" /\ c <> "." /\ c <> ".." /\ Split slash c = [c].

Lemma Split_cons sep x s : Split sep (String x s) =
  if Ascii.eqb x sep then "" :: Split sep s else match Split sep s with y :: ys => String x y :: ys | [] => [String x ""] end.
Proof. reflexivity. Qed.

Lemma Split_not_nil sep s : Split sep s <> [].
Proof. destruct s as [|x s]; [discriminate|]. rewrite Split_cons. destruct (Ascii.eqb x sep); [discriminate|]. now destruct (Split sep s). Qed.

Lemma Split_app sep a b : Split sep (a +:+ String sep b) = Split sep a ++ Split sep b.
Proof.
  induction a as [|x a IH].
  - change ("" +:+ String sep b) with (String sep b). rewrite Split_cons, Ascii.eqb_refl. reflexivity.
  - change (String x a +:+ String sep b) with (String x (a +:+ String sep b)). rewrite !Split_cons, IH. destruct (Ascii.eqb x sep); [reflexivity|].
    pose proof (Split_not_nil sep a). now destruct (Split sep a).
Qed.

Lemma append_nil s : s +:+ "" = s.
Proof. induction s as [|x s IH]; [reflexivity|]. change (String x s +:+ "") with (String x (s +:+ "")). now rewrite IH. Qed.

Lemma append_assoc a b c : (a +:+ b) +:+ c = a +:+ b +:+ c.
Proof. induction a as [|x a IH]; [reflexivity|]. change ((String x a +:+ b) +:+ c) with (String x ((a +:+ b) +:+ c)). now rewrite IH. Qed.

Lemma Split_render parts : Forall part_ok parts -> parts <> [] -> Split slash (render parts) = "" :: parts.
Proof.
  intros F N. assert (G : Forall part_ok parts -> parts <> [] -> Split slash (render_parts parts) = "" :: parts).
  { clear. induction 1 as [|c parts (_ & _ & _ & Hc) F IH]; [easy|]. intros _. cbn [render_parts].
    change ("/" +:+ c +:+ render_parts parts) with (String slash (c +:+ render_parts parts)). rewrite Split_cons, Ascii.eqb_refl. f_equal.
    destruct parts as [|d parts]; [cbn [render_parts]; now rewrite append_nil|]. specialize (IH ltac:(discriminate)).
    change (render_parts (d :: parts)) with (String slash (d +:+ render_parts parts)) in *. rewrite Split_app, Hc. rewrite Split_cons, Ascii.eqb_refl in IH.
    injection IH as ->. reflexivity. }
  destruct parts; [easy|]. now apply G.
Qed.

Definition kept (c : string) : bool := negb (String.eqb c "" || String.eqb c ".").

(** Without [..] the cleaning keeps the components that say something. *)
Lemma clean_kept l : ".." ∉ l -> forall stack, foldl clean_step stack l = stack ++ List.filter kept l.
Proof.
  induction l as [|c l IH]; intros N stack; [cbn; now rewrite app_nil_r|]. apply not_elem_of_cons in N as [Nc N]. cbn [foldl List.filter].
  rewrite IH by assumption. unfold clean_step, kept. destruct (_ || _); [reflexivity|]. cbn [negb].
  destruct (String.eqb_spec c ".."); [congruence|]. now rewrite <- app_assoc.
Qed.

(** A component is a piece of the string, the first one its beginning. *)
Lemma Split_head sep s y ys : Split sep s = y :: ys -> exists b, s = y +:+ b.
Proof.
  revert y ys. induction s as [|x s IH]; intros y ys; [intros [= <- _]; now exists ""|]. rewrite Split_cons.
  destruct (Ascii.eqb x sep); [intros [= <- _]; now exists (String x s)|]. destruct (Split sep s) as [|z zs]; [intros [= <- _]; now exists s|].
  intros [= <- _]. destruct (IH z zs eq_refl) as [b ->]. now exists b.
Qed.

Lemma Split_piece sep s c : c ∈ Split sep s -> (exists a b, s = a +:+ c +:+ b) /\ Split sep c = [c].
Proof.
  revert c. induction s as [|x s IH]; intros c; [intros ->%list_elem_of_singleton; split; [now exists "", ""|reflexivity]|]. rewrite Split_cons.
  destruct (Ascii.eqb x sep) eqn:E.
  - intros [->|Hc]%elem_of_cons; [split; [now exists "", (String x s)|reflexivity]|]. destruct (IH c Hc) as [(a & b & ->) S].
    split; [now exists (String x a), b|exact S].
  - pose proof (Split_not_nil sep s) as N. destruct (Split sep s) as [|y ys] eqn:Es; [easy|]. intros [->|Hc]%elem_of_cons.
    + destruct (Split_head sep s y ys Es) as [b Eb]. split; [exists "", b; now rewrite Eb|]. rewrite Split_cons, E.
      destruct (IH y ltac:(now left)) as [_ ->]. reflexivity.
    + destruct (IH c ltac:(now right)) as [(a & b & ->) S]. split; [now exists (String x a), b|exact S].
Qed.

Lemma HasPrefix_app a b : HasPrefix (a +:+ b) a = true.
Proof.
  unfold HasPrefix. induction a as [|x a IH]; [now destruct b|]. change (String x a +:+ b) with (String x (a +:+ b)). cbn [strip_prefix].
  now rewrite Ascii.eqb_refl.
Qed.

Lemma Contains_piece a c b : Contains (a +:+ c +:+ b) c = true.
Proof.
  induction a as [|x a IH].
  - change ("" +:+ c +:+ b) with (c +:+ b). destruct (c +:+ b) eqn:E; cbn [Contains]; rewrite <- E, HasPrefix_app; reflexivity.
  - change (String x a +:+ c +:+ b) with (String x (a +:+ c +:+ b)). cbn [Contains]. rewrite IH. apply orb_true_r.
Qed.

Lemma render_app rp parts : rp <> [] -> render (rp ++ parts) = render rp +:+ render_parts parts.
Proof.
  intros N. assert (G : render_parts (rp ++ parts) = render_parts rp +:+ render_parts parts).
  { clear N. induction rp as [|c rp IH]; [reflexivity|]. cbn [app render_parts]. rewrite IH. now rewrite !append_assoc. }
  destruct rp; [easy|]. exact G.
Qed.

Lemma longer_prefix a x : HasPrefix a (a +:+ String x "") = false.
Proof.
  unfold HasPrefix. induction a as [|y a IH]; [reflexivity|]. change (String y a +:+ String x "") with (String y (a +:+ String x "")). cbn [strip_prefix].
  now rewrite Ascii.eqb_refl.
Qed.

Definition key_parts (objectKey : string) : list string := List.filter kept (Split slash (relative objectKey)).

Section Contained.
Context (rp : list string) (Hrp : Forall part_ok rp) (Nrp : rp <> []).

Lemma kept_root : List.filter kept ("" :: rp) = rp.
Proof.
  cbn. induction Hrp as [|c l (N1 & N2 & _) F IH]; [reflexivity|]. cbn. unfold kept. rewrite (proj2 (String.eqb_neq _ _) N1), (proj2 (String.eqb_neq _ _) N2).
  cbn. f_equal. destruct l; [reflexivity|]. now apply IH.
Qed.

Lemma root_no_dots : ".." ∉ "" :: rp.
Proof. intros [E|Hx]%elem_of_cons; [discriminate|]. rewrite Forall_forall in Hrp. destruct (Hrp _ Hx) as (_ & _ & X & _). easy. Qed.

Lemma no_dots rel : Contains rel ".." = false -> ".." ∉ Split slash rel.
Proof. intros C ((a & b & ->) & _)%Split_piece. now rewrite Contains_piece in C. Qed.

Lemma Join_parts rel : Contains rel ".." = false -> Join (render rp) rel = render (rp ++ List.filter kept (Split slash rel)).
Proof.
  intros C. unfold Join, Clean. change ("/" +:+ rel) with (String slash rel). rewrite Split_app, Split_render by assumption.
  rewrite clean_kept by (rewrite elem_of_app; intros [X|X]; [now apply root_no_dots|now apply no_dots in X]).
  rewrite List.filter_app, kept_root. reflexivity.
Qed.

Lemma parts_ok rel : Contains rel ".." = false -> Forall part_ok (List.filter kept (Split slash rel)).
Proof.
  intros C. apply Forall_forall. intros c Hc. apply list_elem_of_In, filter_In in Hc as [Hc K]. rewrite <- list_elem_of_In in Hc.
  unfold kept in K. apply negb_true_iff, orb_false_iff in K as [K1%String.eqb_neq K2%String.eqb_neq].
  split_and!; [exact K1|exact K2| |now apply Split_piece in Hc as [_ ?]]. intros ->. now apply no_dots in Hc.
Qed.

(** What a key resolves to. *)
Lemma resolve_eq key : resolve (render rp) key =
  if Contains (relative key) ".." then None
  else match key_parts key with [] => None | parts => Some (render (rp ++ parts)) end.
Proof.
  unfold resolve, key_parts. destruct (String.eqb_spec (relative key) "") as [->|_]; [reflexivity|]. cbn [orb].
  destruct (Contains (relative key) "..") eqn:C; [reflexivity|]. rewrite Join_parts by exact C.
  destruct (List.filter kept (Split slash (relative key))) as [|c parts].
  - rewrite app_nil_r. assert (E : HasPrefix (render rp) (render rp +:+ "/") = false) by apply longer_prefix. now rewrite E.
  - rewrite render_app by exact Nrp. change (render_parts (c :: parts)) with ("/" +:+ c +:+ render_parts parts).
    rewrite <- append_assoc, HasPrefix_app. reflexivity.
Qed.
End Contained.

Lemma append_longer a x b : a <> a +:+ String x b.
Proof.
  induction a as [|y a IH]; [discriminate|]. change (String y a +:+ String x b) with (String y (a +:+ String x b)). intros [= E]. now apply IH.
Qed.

(** [path] is a file strictly below the root. *)
Definition below (rp : list string) (path : string) : Prop :=
  exists parts, parts <> [] /\ Forall part_ok parts /\ path = render (rp ++ parts).

Lemma resolve_below rp key path : Forall part_ok rp -> rp <> [] -> resolve (render rp) key = Some path -> below rp path.
Proof.
  intros F N. rewrite resolve_eq by assumption. destruct (Contains _ _) eqn:C; [discriminate|]. unfold key_parts.
  pose proof (parts_ok (relative key) C) as P. destruct (List.filter _ _) as [|c parts] eqn:E; [discriminate|].
  intros [= <-]. exists (c :: parts). split; [discriminate|auto].
Qed.

Section Laws.
Context `{GzipLaws} (root : string).

Lemma rename_done io from to (fs : Disk) data : fs !! from = Some data -> io_rename io = true ->
  os_Rename io from to fs = (<[to := data]> (delete from fs), true).
Proof. intros E R. unfold os_Rename. now rewrite E, R. Qed.

(** The three ways a write ends. *)
Lemma Write_cases io key raw fs path : resolve root key = Some path ->
  let tmp := path +:+ ".tmp" in
  Write root io key raw fs = (fs, false) \/ (exists x, Write root io key raw fs = (<[tmp := x]> fs, false)) \/
  Write root io key raw fs = (<[path := gzip raw]> (delete tmp (<[tmp := gzip raw]> fs)), true).
Proof.
  intros E tmp. unfold Write, os_WriteFile, os_Rename. rewrite E. fold tmp. destruct (io_mkdir io); [|now left]. cbn [negb].
  destruct (io_write io); [|destruct (io_left io); [right; left; eauto|now left]]. rewrite lookup_insert_eq.
  destruct (io_rename io); [right; now right|right; left; eauto].
Qed.
End Laws.

(** C38: payload files are written whole and only below the root: a key names a path
    strictly under the root directory or nothing; whatever system call fails, a write
    leaves the payload as it was or complete, touches no other file but its temporary
    one, and a successful write is read back as it was given; quarantining a payload
    moves its bytes aside, so the key no longer reads. *)
Theorem payload_writes_atomic `{GzipLaws} (rp : list string) (io : IO) (key raw stamp path : string) (fs : Disk) :
  Forall part_ok rp -> rp <> [] -> resolve (render rp) key = Some path ->
  below rp path /\
  (let '(fs', ok) := Write (render rp) io key raw fs in
   (fs' !! path = if ok then Some (gzip raw) else fs !! path) /\
   (ok = true -> Read (render rp) true key fs' = inr raw) /\
   (forall p, p <> path -> p <> path +:+ ".tmp" -> fs' !! p = fs !! p)) /\
  (forall fs' key', Quarantine (render rp) io stamp key fs = (fs', Some key') ->
     Read (render rp) true key fs' = inl NotExist /\ fs' !! (path +:+ ".corrupt-" +:+ stamp) = fs !! path).
Proof.
  intros F N E. split; [now apply resolve_below with key|]. split.
  - destruct (Write_cases (render rp) io key raw fs path E) as [->|[[x ->]| ->]]; cbv beta iota.
    + split_and!; auto; discriminate.
    + split_and!; [|discriminate|]; intros; rewrite lookup_insert_ne; auto. intros X. symmetry in X. revert X. apply append_longer.
    + unfold Read. rewrite E, lookup_insert_eq. cbn [negb]. rewrite gunzip_gzip. split_and!; auto. intros p N1 N2.
      rewrite lookup_insert_ne, lookup_delete_ne, lookup_insert_ne; auto.
  - intros fs' key'. unfold Quarantine, os_Rename, Read. rewrite E. destruct (fs !! path) as [data|] eqn:D; [|discriminate].
    destruct (io_rename io); [|discriminate]. intros [= <- _].
    rewrite lookup_insert_eq, lookup_insert_ne, lookup_delete_eq; [auto|]. intros X. symmetry in X. revert X. apply append_longer.
Qed.

Definition plainGzip : Gzip := {| gzip := fun s => "gz:" +:+ s; gunzip := fun s => strip_prefix "gz:" s |}.

Lemma plainGzip_laws : @GzipLaws plainGzip.
Proof. constructor. intros s. unfold gunzip, gzip, plainGzip. cbn. reflexivity. Qed.

Example resolve_examples :
  resolve "/data/payloads" "file://open-meteo/2026/03/01/x.json.gz" = Some "/data/payloads/open-meteo/2026/03/01/x.json.gz" /\
  resolve "/data/payloads" "file://../../etc/passwd" = None /\ resolve "/data/payloads" "file:///etc//passwd" = Some "/data/payloads/etc/passwd" /\
  resolve "/data/payloads" "file://./" = None /\ NewFilesystemStore "/srv/app" "./data/payloads" = "/srv/app/data/payloads".
Proof. vm_compute. repeat split. Qed.

Lemma payload_writes_atomic_witness :
  below ["data"] "/data/a/x.gz" /\
  @Read plainGzip "/data" true "file://a/x.gz" (@Write plainGzip "/data" (MkIO true true None true) "file://a/x.gz" "body" ∅).1 = inr "body".
Proof.
  destruct (@payload_writes_atomic plainGzip plainGzip_laws ["data"] (MkIO true true None true) "file://a/x.gz" "body" "1" "/data/a/x.gz" ∅) as (B & W & _).
  - repeat constructor; discriminate.
  - discriminate.
  - vm_compute. reflexivity.
  - split; [exact B|]. destruct (Write _ _ _ _ _) as [fs' ok] eqn:E. destruct W as (_ & R & _). apply R.
    apply (f_equal snd) in E. vm_compute in E. now subst ok.
Defined.

End PayloadStore.
