(* ===== verification/Config.v ===== *)
(** * Configuration ([internal/platform/config])

    The settings read from the environment, after the two local files have filled in
    what it does not set.  The environment is a map; a file is its lines, or absent.
    [Load] collects every complaint as it goes and gives the settings only when there
    is none; [checks] lists the variables and when their value is invalid.
    [time.ParseDuration] is a parameter; error texts keep the name of the
    variable and leave out what [fmt] and [strconv] add. *)

From Stdlib Require Import ZArith Lia Bool String Ascii.
From stdpp Require Import base list strings gmap.
From S2P Require Import Prelude GoTime GoStrings PayloadStore.

Local Open Scope string_scope.
Local Open Scope list_scope.
Local Open Scope Z_scope.

Module Config.

Class Durations := { ParseDuration : string -> option Duration }.

Abbreviation Environ := (gmap string string).

(** ** The environment files *)

(** [strings.Cut(s, "=")] *)
Fixpoint cut_eq (s : string) : option (string * string) :=
  match s with
  | "" => None
  | String a r => if Ascii.eqb a "=" then Some ("", r) else (fun p => (String a p.1, p.2)) <$> cut_eq r
  end.

Definition is_quote (a : ascii) : bool := Ascii.eqb a "'"%char || Ascii.eqb a "034"%char.

Fixpoint trim_left_quotes (s : string) : string :=
  match s with "" => "" | String a r => if is_quote a then trim_left_quotes r else s end.

Fixpoint trim_right_quotes (s : string) : string :=
  match s with
  | "" => ""
  | String a r => match trim_right_quotes r with "" => if is_quote a then "" else String a "" | r' => String a r' end
  end.

Definition dotenv_line (env : Environ) (line : string) : Environ :=
  let line := TrimSpace line in
  if String.eqb line "" || HasPrefix line "#" then env
  else match cut_eq (TrimPrefix line "export ") with
       | None => env
       | Some (k, v) =>
           let k := TrimSpace k in
           let v := trim_right_quotes (trim_left_quotes (TrimSpace v)) in
           match env !! k with Some _ => env | None => if String.eqb k "" then env else <[k := v]> env end
       end.

Definition loadDotenv (file : option (list string)) (env : Environ) : Environ :=
  match file with None => env | Some lines => foldl dotenv_line env lines end.

(** ** Reading one setting *)

(** [strings.ToLower] on ASCII letters; no other rune becomes a letter of the words compared. *)
Definition lower (a : ascii) : ascii := if is_upper a then ascii_of_N (N_of_ascii a + 32) else a.
Fixpoint ToLower (s : string) : string := match s with "" => "" | String a s => String (lower a) (ToLower s) end.

Definition getEnv (env : Environ) (key def : string) : string :=
  match env !! key with Some v => if String.eqb v "" then def else v | None => def end.

(** [strconv.ParseBool] *)
Definition ParseBool (s : string) : option bool :=
  if existsb (String.eqb s) ["1"; "t"; "T"; "TRUE"; "true"; "True"] then Some true
  else if existsb (String.eqb s) ["0"; "f"; "F"; "FALSE"; "false"; "False"] then Some false
  else None.

Definition getBool (env : Environ) (key : string) (def : bool) : bool :=
  match env !! key with Some v => if String.eqb v "" then def else default def (ParseBool v) | None => def end.

(** A value and the complaints about it. *)
Definition getInt (env : Environ) (key : string) (def : Z) : Z * list string :=
  match env !! key with
  | Some v => if String.eqb v "" then (def, []) else match Atoi v with Some n => (n, []) | None => (def, [key +:+ " is not a valid integer"]) end
  | None => (def, [])
  end.

(** [int32(n)] *)
Definition to_int32 (n : Z) : Z := (n + 2 ^ 31) mod 2 ^ 32 - 2 ^ 31.

Definition fail (bad : bool) (message : string) : list string := if bad then [message] else [].

Section Load.
Context `{Durations}.

Definition getDuration (env : Environ) (key : string) (def : Duration) : Duration * list string :=
  match env !! key with
  | Some v => if String.eqb v "" then (def, []) else match ParseDuration v with Some d => (d, []) | None => (def, [key +:+ " is not a valid duration"]) end
  | None => (def, [])
  end.

(** ** The settings *)

Record Config := MkConfig {
  Env : string;
  Mode : string;
  HTTPAddr : string;
  MetricsAddr : string;
  ReadTimeout : Duration;
  WriteTimeout : Duration;
  ShutdownTimeout : Duration;
  RequestBodyLimit : Z;
  CORSAllowOrigins : list string;
  RateLimitIPPerMin : Z;
  LogLevel : string;
  LogFormat : string;
  DatabaseURL : string;
  DBMaxConns : Z;
  DBMinConns : Z;
  DBMaxConnLife : Duration;
  AutoMigrate : bool;
  AutoSeed : bool;
  MigrationsTable : string;
  PayloadStoreDir : string;
  BackupStatusFile : string;
  ProviderTimeout : Duration;
  ProviderMaxRespBytes : Z;
  ProviderCredentialEnv : list (string * string);
  OpenWeatherDailyBudget : Z;
  SchedulerInterval : Duration;
  SlotLeaseDuration : Duration;
  WorkerMaxConcurrent : Z;
  WorkerJobTimeout : Duration;
  SchedulerDrain : Duration;
  SchedulerMissed : Duration;
  DevAdminToken : string;
  AuthJWKSURL : string;
  AuthIssuer : string;
  AuthAudience : string;
  AuthDevMode : bool;
  AuthBootstrapAdminSubject : string;
  AuthBootstrapAdminEmail : string;
  SupabaseProjectURL : string;
  SupabaseServiceRoleKey : string;
  AuthWebhookSecret : string
}.

Definition one_of (s : string) (l : list string) : bool := existsb (String.eqb s) l.

Definition origins (cors : string) : list string := List.filter (fun o => negb (String.eqb o "")) (TrimSpace <$> Split ","%char cors).

(** The settings as read, and every complaint in order. *)
Definition read_settings (e : Environ) : Config * list string :=
  let env := getEnv e "FIQ_ENV" "development" in
  let mode := getEnv e "FIQ_MODE" "all" in
  let '(readT, e1) := getDuration e "FIQ_HTTP_READ_TIMEOUT" (10 * Second) in
  let '(writeT, e2) := getDuration e "FIQ_HTTP_WRITE_TIMEOUT" (30 * Second) in
  let '(shutT, e3) := getDuration e "FIQ_HTTP_SHUTDOWN_TIMEOUT" (30 * Second) in
  let '(rate, e4) := getInt e "FIQ_RATE_LIMIT_PER_IP_PER_MIN" 120 in
  let level := ToLower (getEnv e "FIQ_LOG_LEVEL" "info") in
  let format := ToLower (getEnv e "FIQ_LOG_FORMAT" "json") in
  let url := getEnv e "FIQ_DATABASE_URL" "" in
  let '(maxC, e5) := getInt e "FIQ_DB_MAX_CONNS" 20 in
  let '(minC, e6) := getInt e "FIQ_DB_MIN_CONNS" 2 in
  let '(maxC, minC) := (to_int32 maxC, to_int32 minC) in
  let '(life, e7) := getDuration e "FIQ_DB_MAX_CONN_LIFETIME" Hour in
  let '(provT, e8) := getDuration e "FIQ_PROVIDER_TIMEOUT" (10 * Second) in
  let '(respB, e9) := getInt e "FIQ_PROVIDER_MAX_RESPONSE_BYTES" (10 * 2 ^ 20) in
  let '(budget, e10) := getInt e "FIQ_PROVIDER_OPENWEATHER_DAILY_BUDGET" 1000 in
  let '(interval, e11) := getDuration e "FIQ_SCHEDULER_INTERVAL" (15 * Second) in
  let '(lease, e12) := getDuration e "FIQ_SLOT_LEASE_DURATION" (5 * Minute) in
  let '(workers, e13) := getInt e "FIQ_WORKER_MAX_CONCURRENT" 8 in
  let '(jobT, e14) := getDuration e "FIQ_WORKER_JOB_TIMEOUT" (60 * Second) in
  let '(drain, e15) := getDuration e "FIQ_SCHEDULER_DRAIN_TIMEOUT" (30 * Second) in
  let '(missed, e16) := getDuration e "FIQ_SCHEDULER_MISSED_THRESHOLD" 0 in
  let production := String.eqb env "production" in
  let devToken := getEnv e "FIQ_DEV_ADMIN_TOKEN" "" in
  let jwks := getEnv e "FIQ_AUTH_JWKS_URL" "" in
  let devMode := getBool e "FIQ_AUTH_DEV_MODE" (negb production) in
  (MkConfig env mode (getEnv e "FIQ_HTTP_ADDR" "0.0.0.0:8080") (getEnv e "FIQ_METRICS_ADDR" "127.0.0.1:9090") readT writeT shutT (2 ^ 20)
     (origins (getEnv e "FIQ_CORS_ALLOW_ORIGINS" "http://localhost:3000")) rate level format url maxC minC life
     (getBool e "FIQ_AUTO_MIGRATE" false) (getBool e "FIQ_AUTO_SEED" false) "schema_migrations"
     (getEnv e "FIQ_PAYLOAD_STORE_DIR" "./data/payloads") (getEnv e "FIQ_BACKUP_STATUS_FILE" "") provT respB
     [("open-meteo", "FIQ_PROVIDER_OPENMETEO_API_KEY"); ("openweather", "FIQ_PROVIDER_OPENWEATHER_API_KEY")] budget
     interval lease workers jobT drain missed devToken jwks (getEnv e "FIQ_AUTH_ISSUER" "") (getEnv e "FIQ_AUTH_AUDIENCE" "") devMode
     (getEnv e "FIQ_BOOTSTRAP_ADMIN_SUBJECT" "") (getEnv e "FIQ_BOOTSTRAP_ADMIN_EMAIL" "") (getEnv e "FIQ_SUPABASE_URL" "")
     (getEnv e "FIQ_SUPABASE_SERVICE_ROLE_KEY" "") (getEnv e "FIQ_AUTH_WEBHOOK_SECRET" ""),
   fail (negb (one_of env ["development"; "test"; "production"])) "FIQ_ENV must be one of development|test|production"
   ++ fail (negb (one_of mode ["api"; "worker"; "all"])) "FIQ_MODE must be one of api|worker|all"
   ++ e1 ++ e2 ++ e3 ++ e4 ++ fail (rate <=? 0) "FIQ_RATE_LIMIT_PER_IP_PER_MIN must be > 0"
   ++ fail (negb (one_of level ["debug"; "info"; "warn"; "error"])) "FIQ_LOG_LEVEL must be one of debug|info|warn|error"
   ++ fail (negb (one_of format ["json"; "text"])) "FIQ_LOG_FORMAT must be one of json|text"
   ++ (if String.eqb url "" then ["FIQ_DATABASE_URL is required"]
       else fail (negb (HasPrefix url "postgres://") && negb (HasPrefix url "postgresql://")) "FIQ_DATABASE_URL must be a postgres:// URL")
   ++ e5 ++ e6 ++ e7
   ++ fail ((maxC <=? 0) || (minC <? 0) || (maxC <? minC)) "FIQ_DB_MIN_CONNS/FIQ_DB_MAX_CONNS invalid (need 0 <= min <= max, max > 0)"
   ++ e8 ++ e9 ++ e10 ++ e11 ++ e12 ++ e13 ++ fail (workers <=? 0) "FIQ_WORKER_MAX_CONCURRENT must be > 0"
   ++ e14 ++ e15 ++ e16
   ++ fail (production && negb (String.eqb devToken "")) "FIQ_DEV_ADMIN_TOKEN must NOT be set in production (use Supabase JWKS auth)"
   ++ fail (production && devMode) "FIQ_AUTH_DEV_MODE must be false in production"
   ++ fail (production && String.eqb jwks "") "FIQ_AUTH_JWKS_URL is required in production").

(** [Load]: [.env.local] first, then [.env]; what is set already stays. *)
Definition Load (dotenvLocal dotenv : option (list string)) (env : Environ) : list string + Config :=
  let '(cfg, errs) := read_settings (loadDotenv dotenv (loadDotenv dotenvLocal env)) in
  match errs with [] => inr cfg | _ => inl errs end.

Definition IsProduction (c : Config) : bool := String.eqb (Env c) "production".

Definition ResolveCredential (env : Environ) (credentialRef : string) : string :=
  if String.eqb credentialRef "" then "" else default "" (env !! credentialRef).
End Load.

(** ** What accepted settings guarantee *)

Record valid_config (c : Config) : Prop := {
  vc_env : Env c ∈ ["development"; "test"; "production"];
  vc_mode : Mode c ∈ ["api"; "worker"; "all"];
  vc_rate : 0 < RateLimitIPPerMin c;
  vc_level : LogLevel c ∈ ["debug"; "info"; "warn"; "error"];
  vc_format : LogFormat c ∈ ["json"; "text"];
  vc_url : HasPrefix (DatabaseURL c) "postgres://" = true \/ HasPrefix (DatabaseURL c) "postgresql://" = true;
  vc_conns : 0 <= DBMinConns c <= DBMaxConns c /\ 0 < DBMaxConns c < 2 ^ 31;
  vc_workers : 0 < WorkerMaxConcurrent c;
  vc_production : IsProduction c = true -> DevAdminToken c = "" /\ AuthDevMode c = false /\ AuthJWKSURL c <> ""
}.

Lemma fail_nil b m : fail b m = [] -> b = false.
Proof. now destruct b. Qed.

Lemma one_of_elem s l : negb (one_of s l) = false -> s ∈ l.
Proof. rewrite negb_false_iff. intros (x & Hx & ->%String.eqb_eq)%existsb_exists. now apply list_elem_of_In. Qed.

Lemma to_int32_range n : - 2 ^ 31 <= to_int32 n < 2 ^ 31.
Proof. unfold to_int32. pose proof (Z.mod_pos_bound (n + 2 ^ 31) (2 ^ 32) ltac:(lia)). lia. Qed.

Lemma settings_valid `{Durations} e cfg : read_settings e = (cfg, []) -> valid_config cfg.
Proof.
  unfold read_settings. repeat match goal with |- context [let '(_, _) := ?x in _] => destruct x as [? ?] eqn:? end.
  intros [= <- E]. repeat match goal with E : _ ++ _ = [] |- _ => apply app_eq_nil in E as [? ?] end.
  repeat match goal with E : fail _ _ = [] |- _ => apply fail_nil in E end.
  try match goal with E : (to_int32 _, to_int32 _) = (_, _) |- _ => injection E as <- <- end.
  constructor; cbn [Env Mode RateLimitIPPerMin LogLevel LogFormat DatabaseURL DBMinConns DBMaxConns WorkerMaxConcurrent IsProduction DevAdminToken AuthDevMode AuthJWKSURL];
    try (now apply one_of_elem); try lia.
  - destruct (String.eqb (getEnv e "FIQ_DATABASE_URL" "") ""); [discriminate|].
    match goal with E : fail (negb _ && negb _) _ = [] |- _ => apply fail_nil, andb_false_iff in E; rewrite !negb_false_iff in E; exact E end.
  - match goal with |- _ /\ _ < to_int32 ?a < _ => pose proof (to_int32_range a) end. lia.
  - unfold IsProduction. cbn [Env]. intros P. rewrite P in *. cbn [andb] in *. split_and!.
    + match goal with E : negb (String.eqb _ "") = false |- _ => apply negb_false_iff, String.eqb_eq in E; exact E end.
    + assumption.
    + match goal with E : String.eqb (getEnv e "FIQ_AUTH_JWKS_URL" "") "" = false |- _ => now apply String.eqb_neq in E end.
Qed.

Lemma dotenv_keeps file env k v : env !! k = Some v -> loadDotenv file env !! k = Some v.
Proof.
  intros E. destruct file as [lines|]; [|exact E]. cbn. revert env E. induction lines as [|l lines IH]; intros env E; [exact E|]. cbn. apply IH.
  unfold dotenv_line. destruct (_ || _); [exact E|]. destruct (cut_eq _) as [[k' v']|]; [|exact E]. destruct (env !! TrimSpace k') eqn:E'; [exact E|].
  destruct (String.eqb _ _); [exact E|]. rewrite lookup_insert_ne; [exact E|]. congruence.
Qed.

(** *** The checks *)

Section Checks.
Context `{Durations}.

(** A variable that is set to something. *)
Definition given (e : Environ) (k : string) : option string := v ← e !! k; if String.eqb v "" then None else Some v.

Definition bad_int (e : Environ) (k : string) : bool := match given e k with Some v => bool_decide (Atoi v = None) | None => false end.
Definition bad_duration (e : Environ) (k : string) : bool := match given e k with Some v => bool_decide (ParseDuration v = None) | None => false end.

(** The number a variable stands for. *)
Definition number (e : Environ) (k : string) (def : Z) : Z := default def (given e k ≫= Atoi).

Definition in_production (e : Environ) : bool := bool_decide (given e "FIQ_ENV" = Some "production").

Definition connections_ok (e : Environ) : bool :=
  (0 <? number e "FIQ_DB_MAX_CONNS" 20) && (0 <=? number e "FIQ_DB_MIN_CONNS" 2) && (number e "FIQ_DB_MIN_CONNS" 2 <=? number e "FIQ_DB_MAX_CONNS" 20).

Definition word (e : Environ) (k def : string) (words : list string) : bool := bool_decide (default def (given e k) ∈ words).
Definition word_lower (e : Environ) (k def : string) (words : list string) : bool := bool_decide (ToLower (default def (given e k)) ∈ words).

(** The variables and whether their value is invalid. *)
Definition checks (e : Environ) : list (string * bool) :=
  [("FIQ_ENV", negb (word e "FIQ_ENV" "development" ["development"; "test"; "production"]));
   ("FIQ_MODE", negb (word e "FIQ_MODE" "all" ["api"; "worker"; "all"]));
   ("FIQ_RATE_LIMIT_PER_IP_PER_MIN", bad_int e "FIQ_RATE_LIMIT_PER_IP_PER_MIN" || (number e "FIQ_RATE_LIMIT_PER_IP_PER_MIN" 120 <=? 0));
   ("FIQ_LOG_LEVEL", negb (word_lower e "FIQ_LOG_LEVEL" "info" ["debug"; "info"; "warn"; "error"]));
   ("FIQ_LOG_FORMAT", negb (word_lower e "FIQ_LOG_FORMAT" "json" ["json"; "text"]));
   ("FIQ_DATABASE_URL", negb (match given e "FIQ_DATABASE_URL" with Some u => HasPrefix u "postgres://" || HasPrefix u "postgresql://" | None => false end));
   ("FIQ_DB_MAX_CONNS", bad_int e "FIQ_DB_MAX_CONNS" || negb (connections_ok e));
   ("FIQ_DB_MIN_CONNS", bad_int e "FIQ_DB_MIN_CONNS" || negb (connections_ok e));
   ("FIQ_WORKER_MAX_CONCURRENT", bad_int e "FIQ_WORKER_MAX_CONCURRENT" || (number e "FIQ_WORKER_MAX_CONCURRENT" 8 <=? 0));
   ("FIQ_DEV_ADMIN_TOKEN", in_production e && bool_decide (is_Some (given e "FIQ_DEV_ADMIN_TOKEN")));
   ("FIQ_AUTH_DEV_MODE", in_production e && bool_decide (given e "FIQ_AUTH_DEV_MODE" ≫= ParseBool = Some true));
   ("FIQ_AUTH_JWKS_URL", in_production e && bool_decide (given e "FIQ_AUTH_JWKS_URL" = None))]
  ++ ((fun k => (k, bad_int e k)) <$> ["FIQ_PROVIDER_MAX_RESPONSE_BYTES"; "FIQ_PROVIDER_OPENWEATHER_DAILY_BUDGET"])
  ++ ((fun k => (k, bad_duration e k)) <$>
       ["FIQ_HTTP_READ_TIMEOUT"; "FIQ_HTTP_WRITE_TIMEOUT"; "FIQ_HTTP_SHUTDOWN_TIMEOUT"; "FIQ_DB_MAX_CONN_LIFETIME"; "FIQ_PROVIDER_TIMEOUT";
        "FIQ_SCHEDULER_INTERVAL"; "FIQ_SLOT_LEASE_DURATION"; "FIQ_WORKER_JOB_TIMEOUT"; "FIQ_SCHEDULER_DRAIN_TIMEOUT"; "FIQ_SCHEDULER_MISSED_THRESHOLD"]).

Definition invalid (e : Environ) (k : string) : Prop := (k, true) ∈ checks e.

(** The three booleans, when set, are booleans; the connection limits fit 32 bits. *)
Definition booleans_ok (e : Environ) : Prop :=
  Forall (fun k => forall v, given e k = Some v -> is_Some (ParseBool v)) ["FIQ_AUTO_MIGRATE"; "FIQ_AUTO_SEED"; "FIQ_AUTH_DEV_MODE"].
Definition connections_fit (e : Environ) : Prop :=
  Forall (fun n => - 2 ^ 31 <= n < 2 ^ 31) [number e "FIQ_DB_MAX_CONNS" 20; number e "FIQ_DB_MIN_CONNS" 2].

(** A message that names the variable. *)
Definition names (errs : list string) (k : string) : Prop := exists m, m ∈ errs /\ PayloadStore.Contains m k = true.

Lemma getEnv_given e k def : getEnv e k def = default def (given e k).
Proof. unfold getEnv, given. destruct (e !! k) as [v|]; [|reflexivity]. cbn. now destruct (String.eqb v ""). Qed.

Lemma getInt_given e k def : getInt e k def = (number e k def, fail (bad_int e k) (k +:+ " is not a valid integer")).
Proof.
  unfold getInt, number, bad_int, given. destruct (e !! k) as [v|]; [|reflexivity]. cbn. destruct (String.eqb v ""); [reflexivity|]. cbn.
  destruct (Atoi v) as [n|]; [now rewrite bool_decide_false|now rewrite bool_decide_true].
Qed.

Lemma getDuration_given e k def : exists d, getDuration e k def = (d, fail (bad_duration e k) (k +:+ " is not a valid duration")).
Proof.
  unfold getDuration, bad_duration, given. destruct (e !! k) as [v|]; [|eexists; reflexivity]. cbn. destruct (String.eqb v ""); [eexists; reflexivity|]. cbn.
  destruct (ParseDuration v) as [n|]; [rewrite bool_decide_false by discriminate|rewrite bool_decide_true by reflexivity]; eexists; reflexivity.
Qed.

Lemma getBool_given e k : getBool e k false = bool_decide (given e k ≫= ParseBool = Some true).
Proof.
  unfold getBool, given. destruct (e !! k) as [v|]; [|reflexivity]. cbn. destruct (String.eqb v ""); [reflexivity|]. cbn. now destruct (ParseBool v) as [[]|].
Qed.

Lemma to_int32_fit n : - 2 ^ 31 <= n < 2 ^ 31 -> to_int32 n = n.
Proof. intros B. unfold to_int32. rewrite Z.mod_small; lia. Qed.

Lemma one_of_decide s l : one_of s l = bool_decide (s ∈ l).
Proof.
  apply eq_bool_prop_intro. rewrite !Is_true_true, bool_decide_eq_true. unfold one_of. rewrite existsb_exists, list_elem_of_In. split.
  - intros (x & Hx & ->%String.eqb_eq). exact Hx.
  - intros Hx. exists s. split; [exact Hx|apply String.eqb_refl].
Qed.

(** The complaints of [read_settings], check by check. *)
Definition bad_number (e : Environ) (k : string) : list string := fail (bad_int e k) (k +:+ " is not a valid integer").
Definition bad_span (e : Environ) (k : string) : list string := fail (bad_duration e k) (k +:+ " is not a valid duration").

Definition complaints (e : Environ) : list string :=
  fail (negb (word e "FIQ_ENV" "development" ["development"; "test"; "production"])) "FIQ_ENV must be one of development|test|production"
  ++ fail (negb (word e "FIQ_MODE" "all" ["api"; "worker"; "all"])) "FIQ_MODE must be one of api|worker|all"
  ++ bad_span e "FIQ_HTTP_READ_TIMEOUT" ++ bad_span e "FIQ_HTTP_WRITE_TIMEOUT" ++ bad_span e "FIQ_HTTP_SHUTDOWN_TIMEOUT"
  ++ bad_number e "FIQ_RATE_LIMIT_PER_IP_PER_MIN"
  ++ fail (number e "FIQ_RATE_LIMIT_PER_IP_PER_MIN" 120 <=? 0) "FIQ_RATE_LIMIT_PER_IP_PER_MIN must be > 0"
  ++ fail (negb (word_lower e "FIQ_LOG_LEVEL" "info" ["debug"; "info"; "warn"; "error"])) "FIQ_LOG_LEVEL must be one of debug|info|warn|error"
  ++ fail (negb (word_lower e "FIQ_LOG_FORMAT" "json" ["json"; "text"])) "FIQ_LOG_FORMAT must be one of json|text"
  ++ match given e "FIQ_DATABASE_URL" with
     | None => ["FIQ_DATABASE_URL is required"]
     | Some u => fail (negb (HasPrefix u "postgres://") && negb (HasPrefix u "postgresql://")) "FIQ_DATABASE_URL must be a postgres:// URL"
     end
  ++ bad_number e "FIQ_DB_MAX_CONNS" ++ bad_number e "FIQ_DB_MIN_CONNS" ++ bad_span e "FIQ_DB_MAX_CONN_LIFETIME"
  ++ fail (negb (connections_ok e)) "FIQ_DB_MIN_CONNS/FIQ_DB_MAX_CONNS invalid (need 0 <= min <= max, max > 0)"
  ++ bad_span e "FIQ_PROVIDER_TIMEOUT" ++ bad_number e "FIQ_PROVIDER_MAX_RESPONSE_BYTES" ++ bad_number e "FIQ_PROVIDER_OPENWEATHER_DAILY_BUDGET"
  ++ bad_span e "FIQ_SCHEDULER_INTERVAL" ++ bad_span e "FIQ_SLOT_LEASE_DURATION" ++ bad_number e "FIQ_WORKER_MAX_CONCURRENT"
  ++ fail (number e "FIQ_WORKER_MAX_CONCURRENT" 8 <=? 0) "FIQ_WORKER_MAX_CONCURRENT must be > 0"
  ++ bad_span e "FIQ_WORKER_JOB_TIMEOUT" ++ bad_span e "FIQ_SCHEDULER_DRAIN_TIMEOUT" ++ bad_span e "FIQ_SCHEDULER_MISSED_THRESHOLD"
  ++ fail (in_production e && bool_decide (is_Some (given e "FIQ_DEV_ADMIN_TOKEN"))) "FIQ_DEV_ADMIN_TOKEN must NOT be set in production (use Supabase JWKS auth)"
  ++ fail (in_production e && bool_decide (given e "FIQ_AUTH_DEV_MODE" ≫= ParseBool = Some true)) "FIQ_AUTH_DEV_MODE must be false in production"
  ++ fail (in_production e && bool_decide (given e "FIQ_AUTH_JWKS_URL" = None)) "FIQ_AUTH_JWKS_URL is required in production".

Lemma given_some e k v : given e k = Some v -> String.eqb v "" = false.
Proof. unfold given. destruct (e !! k) as [u|]; [|discriminate]. cbn. destruct (String.eqb u "") eqn:E; [discriminate|]. now intros [= <-]. Qed.

Lemma production_given e : String.eqb (default "development" (given e "FIQ_ENV")) "production" = in_production e.
Proof. unfold in_production. destruct (given e "FIQ_ENV") as [v|]; [|reflexivity]. cbn. destruct (String.eqb_spec v "production") as [->|N]; [reflexivity|]. now rewrite bool_decide_false by congruence. Qed.

Lemma empty_given e k : String.eqb (default "" (given e k)) "" = bool_decide (given e k = None).
Proof. destruct (given e k) as [v|] eqn:E; [|reflexivity]. cbn. now rewrite (given_some e k v E). Qed.

Lemma present_given e k : negb (String.eqb (default "" (given e k)) "") = bool_decide (is_Some (given e k)).
Proof. rewrite empty_given. now destruct (given e k). Qed.

Lemma production_boolean b e k : b && getBool e k (negb b) = b && bool_decide (given e k ≫= ParseBool = Some true).
Proof. destruct b; [|reflexivity]. cbn. apply getBool_given. Qed.

Lemma bad_connections a b : ((a <=? 0) || (b <? 0) || (a <? b)) = negb ((0 <? a) && (0 <=? b) && (b <=? a)).
Proof. destruct (Z.leb_spec a 0), (Z.ltb_spec b 0), (Z.ltb_spec a b), (Z.ltb_spec 0 a), (Z.leb_spec 0 b), (Z.leb_spec b a); try lia; reflexivity. Qed.

Lemma read_complaints e : connections_fit e -> (read_settings e).2 = complaints e.
Proof.
  intros F. unfold connections_fit in F. rewrite !Forall_cons in F. destruct F as (F1 & F2 & _). unfold read_settings.
  rewrite !getInt_given, !(to_int32_fit _ F1), !(to_int32_fit _ F2).
  repeat match goal with |- context [getDuration e ?k ?d] => let E := fresh in destruct (getDuration_given e k d) as [? E]; rewrite E; clear E end.
  cbv beta iota zeta. cbn [snd]. rewrite !getEnv_given, !production_given, !production_boolean, !bad_connections, !one_of_decide, present_given, !empty_given.
  unfold complaints, bad_number, bad_span, word, word_lower, connections_ok. repeat f_equal.
  destruct (given e "FIQ_DATABASE_URL"); reflexivity.
Qed.

Lemma names_l a b k : names a k -> names (a ++ b) k.
Proof. intros (m & Hm & C). exists m. rewrite elem_of_app. auto. Qed.

Lemma names_r a b k : names b k -> names (a ++ b) k.
Proof. intros (m & Hm & C). exists m. rewrite elem_of_app. auto. Qed.

Lemma names_fail b m k : b = true -> PayloadStore.Contains m k = true -> names (fail b m) k.
Proof. intros -> C. exists m. split; [left|exact C]. Qed.

Lemma names_number e k : bad_int e k = true -> names (bad_number e k) k.
Proof. intros B. apply names_fail; [exact B|apply (PayloadStore.Contains_piece "")]. Qed.

Lemma names_span e k : bad_duration e k = true -> names (bad_span e k) k.
Proof. intros B. apply names_fail; [exact B|apply (PayloadStore.Contains_piece "")]. Qed.

Lemma names_url e : negb (match given e "FIQ_DATABASE_URL" with Some u => HasPrefix u "postgres://" || HasPrefix u "postgresql://" | None => false end) = true ->
  names match given e "FIQ_DATABASE_URL" with
        | None => ["FIQ_DATABASE_URL is required"]
        | Some u => fail (negb (HasPrefix u "postgres://") && negb (HasPrefix u "postgresql://")) "FIQ_DATABASE_URL must be a postgres:// URL"
        end "FIQ_DATABASE_URL".
Proof.
  destruct (given e "FIQ_DATABASE_URL") as [u|]; intros B.
  - rewrite negb_orb in B. now apply names_fail.
  - exists "FIQ_DATABASE_URL is required". split; [left|reflexivity].
Qed.

(** Finds the piece of the complaints that the fact [B] accounts for. *)
Ltac piece B := first [exact (names_number _ _ B)|exact (names_span _ _ B)|exact (names_url _ B)|refine (names_fail _ _ _ B _); vm_compute; reflexivity].
Ltac seek B := first [piece B|apply names_l; piece B|apply names_r; seek B].

(** Every invalid value is complained about, by name. *)
Lemma invalid_named e k : invalid e k -> names (complaints e) k.
Proof.
  unfold invalid, checks. cbn [fmap list_fmap app]. intros X.
  repeat (apply elem_of_cons in X as [X|X];
    [injection X as -> X; symmetry in X; unfold complaints; first [seek X|apply orb_true_iff in X as [X|X]; seek X]|]).
  now apply not_elem_of_nil in X.
Qed.

Lemma fail_no b m : b = false -> fail b m = [].
Proof. now intros ->. Qed.

(** Valid values are not complained about. *)
Lemma valid_silent e : (forall k, ~ invalid e k) -> complaints e = [].
Proof.
  intros V. assert (A : Forall (fun p => p.2 = false) (checks e)).
  { apply Forall_forall. intros [k []] Hk; [|reflexivity]. now destruct (V k). }
  unfold checks in A. cbn [fmap list_fmap app] in A. repeat (apply Forall_cons in A as [? A]). clear A. cbn [snd] in *.
  repeat match goal with A : _ || _ = false |- _ => apply orb_false_iff in A as [? ?] end.
  unfold complaints, bad_number, bad_span. rewrite !fail_no by assumption. cbn [app].
  destruct (given e "FIQ_DATABASE_URL") as [u|]; [|discriminate]. rewrite fail_no; [reflexivity|]. now rewrite <- negb_orb.
Qed.

(** What loads is valid, and what is invalid is named. *)
Lemma load_checked local env_file env : let e := loadDotenv env_file (loadDotenv local env) in connections_fit e ->
  match Load local env_file env with
  | inr cfg => valid_config cfg /\ forall k, ~ invalid e k
  | inl errs => forall k, invalid e k -> names errs k
  end.
Proof.
  intros e F. pose proof (read_complaints e F) as C. unfold Load. fold e. destruct (read_settings e) as [cfg [|m errs]] eqn:E; cbn [snd] in C.
  - split; [now apply settings_valid in E|]. intros k (x & Hx & _)%invalid_named. rewrite <- C in Hx. now apply not_elem_of_nil in Hx.
  - intros k Hk%invalid_named. now rewrite C.
Qed.

End Checks.

(** Note: a boolean that does not parse is not reported but replaced by its default:
    outside production the development login stays on when it is switched off by a
    word such as "no" or "off". *)
Theorem bad_boolean_ignored (env : Environ) (key v : string) (def : bool) :
  env !! key = Some v -> ParseBool v = None -> getBool env key def = def.
Proof. intros E P. unfold getBool. rewrite E, P. now destruct (String.eqb v ""). Qed.

(** Note: a connection limit beyond 32 bits is not reported but wraps around. *)
Theorem connection_limit_wraps : let d := {| ParseDuration := fun _ => None |} in
  match @Load d None None (list_to_map [("FIQ_DATABASE_URL", "postgres://db"); ("FIQ_DB_MAX_CONNS", "4294967299")]) with
  | inr c => DBMaxConns c = 3
  | inl _ => False
  end.
Proof. vm_compute. reflexivity. Qed.


Example settings_examples :
  let noDurations := {| ParseDuration := fun _ => None |} in
  let load := @Load noDurations in
  let base := [("FIQ_DATABASE_URL", "postgres://db")] in
  let run l := match load None None (list_to_map (l ++ base)) with inr c => Some (AuthDevMode c) | inl _ => None end in
  run [] = Some true /\ run [("FIQ_AUTH_DEV_MODE", "off")] = Some true /\ run [("FIQ_ENV", "production")] = None /\
  run [("FIQ_ENV", "production"); ("FIQ_AUTH_JWKS_URL", "https://keys")] = Some false /\
  loadDotenv (Some ["# local"; "export FIQ_MODE = 'api' "]) ∅ = {["FIQ_MODE" := "api"]}.
Proof. vm_compute. repeat split. Qed.

End Config.
