(* ===== verification/Logging.v ===== *)
(** * Log redaction and the event bus ([platform/logging/sanitize.go], [platform/events/events.go])

    Attributes are trees of keys; the handler that wraps every other replaces the value
    of a sensitive key at any depth.  A value that is not a group is its text; one that
    a [slog.LogValuer] resolves to a group only when it is written is [Lazy].  The inner
    handler is one of [slog]'s: it keeps the attached attributes and opened groups in
    order and nests what follows.  The bus
    delivers an event to the subscribers of its name, one after the other; a handler is
    a program on the state the subscribers share that may panic. *)

From Stdlib Require Import ZArith Lia Bool String Ascii.
From stdpp Require Import base list strings gmap.
From S2P Require Import Prelude GoTime Uuid GoStrings PayloadStore.

Local Open Scope string_scope.
Local Open Scope list_scope.
Local Open Scope Z_scope.

Module Logging.

Inductive Attr := Leaf (key value : string) | Group (key : string) (attrs : list Attr) | Lazy (key : string) (attrs : list Attr).

(** Induction through the groups. *)
Fixpoint Attr_ind' (P : Attr -> Prop) (HL : forall k v, P (Leaf k v)) (HG : forall k l, Forall P l -> P (Group k l))
  (HZ : forall k l, Forall P l -> P (Lazy k l)) (a : Attr) : P a :=
  match a with
  | Leaf k v => HL k v
  | Lazy k l => HZ k l ((fix all l : Forall P l := match l with [] => Forall_nil_2 P | b :: l => Forall_cons_2 P b l (Attr_ind' P HL HG HZ b) (all l) end) l)
  | Group k l => HG k l ((fix all l : Forall P l := match l with [] => Forall_nil_2 P | b :: l => Forall_cons_2 P b l (Attr_ind' P HL HG HZ b) (all l) end) l)
  end.

(** ** sanitize.go *)

Definition sensitiveKeys : list string :=
  ["token"; "password"; "passwd"; "apikey"; "secret"; "credential"; "authorization"; "servicerole"; "jwt"; "bearer"].

Definition redactedValue : string := "[REDACTED]".

(** [strings.ToLower] followed by the replacer that drops [_] and [-].  Of the runes
    beyond ASCII two become ASCII letters, the dotted capital I and the Kelvin sign;
    the others stay outside ASCII and are kept as they are. *)
Fixpoint normalized (key : string) : string :=
  match key with
  | "" => ""
  | String "196" (String "176" s) => String "i" (normalized s)
  | String "226" (String "132" (String "170" s)) => String "k" (normalized s)
  | String a s =>
      if Ascii.eqb a "_" || Ascii.eqb a "-" then normalized s
      else String (if is_upper a then ascii_of_N (N_of_ascii a + 32) else a) (normalized s)
  end.

Definition isSensitiveKey (key : string) : bool := existsb (PayloadStore.Contains (normalized key)) sensitiveKeys.
#[local] Arguments isSensitiveKey : simpl never.

(** [slog.GroupValue] leaves out empty groups. *)
Definition is_empty_group (a : Attr) : bool := match a with Group _ [] => true | _ => false end.
Definition GroupValue (l : list Attr) : list Attr := List.filter (fun a => negb (is_empty_group a)) l.

Fixpoint sanitizeAttr (a : Attr) : Attr :=
  match a with
  | Leaf k v => if isSensitiveKey k then Leaf k redactedValue else a
  | Group k l => if isSensitiveKey k then Leaf k redactedValue else Group k (GroupValue (List.map sanitizeAttr l))
  | Lazy k l => if isSensitiveKey k then Leaf k redactedValue else a
  end.

(** A handler of [slog]: what was attached to it and the groups opened on it, in order. *)
Inductive Attached := AttachedAttrs (attrs : list Attr) | OpenedGroup (name : string).

(** What it writes for the attributes of a record; the empty group name opens nothing. *)
Fixpoint written (h : list Attached) (attrs : list Attr) : list Attr :=
  match h with
  | [] => attrs
  | AttachedAttrs l :: h => l ++ written h attrs
  | OpenedGroup name :: h => if String.eqb name "" then written h attrs else [Group name (written h attrs)]
  end.

Record SanitizingHandler := MkSanitizing { inner : list Attached }.
Definition NewSanitizingHandler (h : list Attached) : SanitizingHandler := MkSanitizing h.

(** [AddAttrs] leaves out empty groups too. *)
Definition Handle (h : SanitizingHandler) (attrs : list Attr) : list Attr := written (inner h) (GroupValue (List.map sanitizeAttr attrs)).
Definition WithAttrs (h : SanitizingHandler) (attrs : list Attr) : SanitizingHandler := MkSanitizing (inner h ++ [AttachedAttrs (List.map sanitizeAttr attrs)]).
Definition WithGroup (h : SanitizingHandler) (name : string) : SanitizingHandler := MkSanitizing (inner h ++ [OpenedGroup name]).

(** ** No sensitive value is written *)

(** Every sensitive key, at any depth, holds the placeholder. *)
Fixpoint redacted (a : Attr) : bool :=
  match a with
  | Leaf k v => negb (isSensitiveKey k) || String.eqb v redactedValue
  | Group k l | Lazy k l => negb (isSensitiveKey k) && forallb redacted l
  end.

(** The values no key on the way to which is sensitive, with their keys. *)
Fixpoint plain_values (a : Attr) : list (list string * string) :=
  match a with
  | Leaf k v => if isSensitiveKey k then [] else [([k], v)]
  | Group k l | Lazy k l => if isSensitiveKey k then [] else List.map (fun p => (k :: p.1, p.2)) (flat_map plain_values l)
  end.

(** No key in the tree is sensitive. *)
Fixpoint clean (a : Attr) : bool :=
  match a with
  | Leaf k v => negb (isSensitiveKey k)
  | Group k l | Lazy k l => negb (isSensitiveKey k) && forallb clean l
  end.

(** No value resolves, once it is written, to a group with a sensitive key. *)
Fixpoint resolves_clean (a : Attr) : bool :=
  match a with
  | Leaf k v => true
  | Group k l => forallb resolves_clean l
  | Lazy k l => forallb clean l
  end.

Lemma GroupValue_forall (p : Attr -> bool) l : forallb p l = true -> forallb p (GroupValue l) = true.
Proof. rewrite !forallb_forall. intros F x [Hx _]%filter_In. now apply F. Qed.

Lemma forallb_Forall_impl (p q : Attr -> bool) l : Forall (fun a => p a = true -> q a = true) l -> forallb p l = true -> forallb q l = true.
Proof. induction 1 as [|a l Ha _ IH]; [reflexivity|]. cbn. intros [Pa Pl]%andb_prop. now rewrite Ha, IH. Qed.

Lemma forallb_map (p : Attr -> bool) (f : Attr -> Attr) l : forallb p (List.map f l) = forallb (fun a => p (f a)) l.
Proof. induction l as [|a l IH]; [reflexivity|]. cbn. now rewrite IH. Qed.

Lemma clean_redacted a : clean a = true -> redacted a = true.
Proof.
  induction a as [k v|k l IH|k l IH] using Attr_ind'; cbn; [now intros ->|..]; intros [-> C]%andb_prop; cbn; now apply (forallb_Forall_impl clean).
Qed.

Lemma sanitize_redacted a : resolves_clean a = true -> redacted (sanitizeAttr a) = true.
Proof.
  induction a as [k v|k l IH|k l IH] using Attr_ind'; cbn; intros C; destruct (isSensitiveKey k) eqn:S; cbn; rewrite ?S; try reflexivity; cbn.
  - apply GroupValue_forall. rewrite forallb_map. now apply (forallb_Forall_impl resolves_clean).
  - apply (forallb_Forall_impl clean); [|exact C]. apply Forall_forall. intros a _. apply clean_redacted.
Qed.

Lemma GroupValue_plain l : flat_map plain_values (GroupValue l) = flat_map plain_values l.
Proof.
  induction l as [|a l IH]; [reflexivity|]. unfold GroupValue in *. cbn [List.filter].
  destruct a as [k v|k [|b l']|k l']; cbn [is_empty_group negb flat_map]; rewrite ?IH; try reflexivity. cbn. now destruct (isSensitiveKey k).
Qed.

Lemma sanitize_plain a : plain_values (sanitizeAttr a) = plain_values a.
Proof.
  induction a as [k v|k l IH|k l IH] using Attr_ind'; cbn; destruct (isSensitiveKey k) eqn:S; cbn; rewrite ?S; try reflexivity.
  f_equal. rewrite GroupValue_plain. induction IH as [|a l Ha _ IHl]; [reflexivity|]. cbn. now rewrite Ha, IHl.
Qed.

(** What the loggers derived from the root do: attach attributes, open groups. *)
Inductive Derive := With (attrs : list Attr) | InGroup (name : string).

Definition derived (ds : list Derive) : SanitizingHandler :=
  foldl (fun h d => match d with With l => WithAttrs h l | InGroup name => WithGroup h name end) (NewSanitizingHandler []) ds.

(** The same on the inner handler alone. *)
Definition underived (ds : list Derive) : list Attached := (fun d => match d with With l => AttachedAttrs l | InGroup name => OpenedGroup name end) <$> ds.

Definition derive_ok (d : Derive) : bool := match d with With l => forallb resolves_clean l | InGroup name => negb (isSensitiveKey name) end.

Definition sanitized (d : Derive) : Attached := match d with With l => AttachedAttrs (List.map sanitizeAttr l) | InGroup name => OpenedGroup name end.

Lemma derived_inner ds : inner (derived ds) = sanitized <$> ds.
Proof.
  unfold derived. induction ds as [|d ds IH] using rev_ind; [reflexivity|]. rewrite foldl_app, fmap_app, <- IH. now destruct d.
Qed.

Lemma sanitize_all l : forallb resolves_clean l = true -> forallb redacted (List.map sanitizeAttr l) = true.
Proof. intros C. rewrite forallb_map. apply (forallb_Forall_impl resolves_clean); [|exact C]. apply Forall_forall. intros a _. apply sanitize_redacted. Qed.

Lemma sanitize_all_plain l : flat_map plain_values (List.map sanitizeAttr l) = flat_map plain_values l.
Proof. induction l as [|a l IH]; [reflexivity|]. cbn. now rewrite sanitize_plain, IH. Qed.

(** C40: no value of a sensitive key reaches the log.  Take any logger derived from the
    root by attaching attributes and opening groups, and any record.  Unless an opened
    group itself has a sensitive name, or a value turns into a group with a sensitive
    key only when it is written: what the inner handler writes has, at any depth of
    groups, only the placeholder under a sensitive key, and every value with no
    sensitive key above it is the one that would be written without redaction, under
    the same keys and in the same order. *)
Theorem logs_redacted (ds : list Derive) (attrs : list Attr) :
  forallb derive_ok ds = true -> forallb resolves_clean attrs = true ->
  let out := Handle (derived ds) attrs in
  forallb redacted out = true /\ flat_map plain_values out = flat_map plain_values (written (underived ds) attrs).
Proof.
  intros D A. unfold Handle. rewrite derived_inner. induction ds as [|d ds IH]; cbn.
  - rewrite GroupValue_plain, sanitize_all_plain. split; [|reflexivity]. now apply GroupValue_forall, sanitize_all.
  - cbn in D. apply andb_prop in D as [Dd D]. specialize (IH D) as [R V]. destruct d as [l|name]; cbn in Dd |- *.
    + rewrite forallb_app, R, (sanitize_all l Dd), !flat_map_app, sanitize_all_plain, V. auto.
    + destruct (String.eqb name ""); [auto|]. cbn. rewrite Dd, R, V, !app_nil_r. auto.
Qed.

Lemma logs_redacted_witness :
  forallb redacted (Handle (derived [With [Leaf "api_key" "k"]; InGroup "req"]) [Leaf "path" "/me"; Leaf "authorization" "Bearer x"]) = true.
Proof. exact (proj1 (logs_redacted [With [Leaf "api_key" "k"]; InGroup "req"] [Leaf "path" "/me"; Leaf "authorization" "Bearer x"] eq_refl eq_refl)). Defined.

Example sanitize_examples :
  isSensitiveKey "X-Api-Key" = true /\ isSensitiveKey "refreshToken" = true /\ isSensitiveKey "to" = false /\
  isSensitiveKey (String "t" (String "o" (String "226" (String "132" (String "170" "en"))))) = true /\
  Handle (derived []) [Group "req" [Leaf "path" "/me"; Leaf "authorization" "Bearer x"; Group "none" []]] =
    [Group "req" [Leaf "path" "/me"; Leaf "authorization" "[REDACTED]"]].
Proof. vm_compute. repeat split. Qed.

(** Note: a group opened under a sensitive name is written with its values, and so is a
    value that resolves to a group with a sensitive key. *)
Theorem redaction_gaps :
  Handle (derived [InGroup "credentials"]) [Leaf "value" "s3cr3t"] = [Group "credentials" [Leaf "value" "s3cr3t"]] /\
  Handle (derived []) [Lazy "user" [Leaf "password" "s3cr3t"]] = [Lazy "user" [Leaf "password" "s3cr3t"]].
Proof. vm_compute. split; reflexivity. Qed.

(** ** events.go *)

Inductive Event :=
| ForecastCollected (version : Z) (collectionID providerID locationID : uuid) (snapshotCount : Z) (status : string) (at_ : Time)
| ObservationCollected (version : Z) (locationID : uuid) (source : string) (count : Z) (mix : list (string * Z))
| ObservationCorrected (version : Z) (locationID : uuid) (observedAt : Time) (supersededID newID : uuid)
| AccuracyCalculated (version : Z) (batchID : uuid) (scope : string) (metricsWritten rankingsWritten : Z)
| ProviderHealthChanged (version : Z) (providerID : uuid) (oldState newState : string) (consecutiveFailures : Z).

Definition Name (e : Event) : string :=
  match e with
  | ForecastCollected _ _ _ _ _ _ _ => "forecast.collected"
  | ObservationCollected _ _ _ _ _ => "observation.collected"
  | ObservationCorrected _ _ _ _ _ => "observation.corrected"
  | AccuracyCalculated _ _ _ _ _ => "accuracy.calculated"
  | ProviderHealthChanged _ _ _ _ _ => "provider.health_changed"
  end.

Definition orOne (v : Z) : Z := if v =? 0 then 1 else v.

Definition SchemaVersion (e : Event) : Z :=
  match e with
  | ForecastCollected v _ _ _ _ _ _ | ObservationCollected v _ _ _ _ | ObservationCorrected v _ _ _ _ | AccuracyCalculated v _ _ _ _
  | ProviderHealthChanged v _ _ _ _ => orOne v
  end.

Section Bus.
Context {S : Type}.

(** What a handler makes of the state, and whether it panicked on the way. *)
Definition EventHandler : Type := Event -> S -> S * bool.
Definition SyncBus : Type := gmap string (list EventHandler).
Definition NewSyncBus : SyncBus := ∅.

Definition Subscribe (name : string) (h : EventHandler) (b : SyncBus) : SyncBus := <[name := default [] (b !! name) ++ [h]]> b.

(** The state after all handlers and the number of panics logged. *)
Definition Publish (e : Event) (b : SyncBus) (s : S) : S * nat :=
  foldl (fun '(s, n) h => let '(s', panicked) := h e s in (s', if panicked : bool then Datatypes.S n else n)) (s, O) (default [] (b !! Name e)).

Definition subscribed (subs : list (string * EventHandler)) : SyncBus := foldl (fun b '(n, h) => Subscribe n h b) NewSyncBus subs.

Lemma subscribers subs name : default [] (subscribed subs !! name) = snd <$> List.filter (fun '(n, _) => String.eqb n name) subs.
Proof.
  unfold subscribed. induction subs as [|[n h] subs IH] using rev_ind; [reflexivity|].
  rewrite foldl_app, List.filter_app, fmap_app. cbn. unfold Subscribe, SyncBus in *.
  destruct (String.eqb_spec n name) as [->|N]; [rewrite lookup_insert_eq; cbn; now rewrite IH|rewrite lookup_insert_ne by exact N; now rewrite app_nil_r].
Qed.

(** Note: an event reaches every subscriber of its name in the order of subscription,
    and no other, whichever of them panic. *)
Theorem publish_reaches_all (subs : list (string * EventHandler)) (e : Event) (s : S) :
  (Publish e (subscribed subs) s).1 = foldl (fun s h => (h e s).1) s (snd <$> List.filter (fun '(n, _) => String.eqb n (Name e)) subs).
Proof.
  rewrite <- subscribers. unfold Publish. generalize O. revert s.
  induction (default [] (subscribed subs !! Name e)) as [|h hs IH]; intros s n; [reflexivity|]. cbn. destruct (h e s) as [s' p]. apply IH.
Qed.
End Bus.

End Logging.
