(* ===== verification/CatalogApi.v ===== *)
(** * The catalog and collection handlers ([internal/api/handlers]: location.go, provider.go, admin_provider.go, collection.go)

    The handlers over the catalog services and the collection workflows, with the
    representations of [handlers.go], and the whole request: router, gates and handler
    on one sequence of statements and ids.  The database has the catalog and the
    collection tables; the collection workflows read the providers of the catalog.
    JSON decoding is a parameter ([Bodies]) that gives a request's fields or an error
    text; which fields are missing is decided here, by the [binding:"required"] tags.
    An error is answered by [respond.Error]; the headers it sets first are kept. *)

From Stdlib Require Import ZArith Lia Bool String.
From Stdlib Require Import SpecFloat.
From stdpp Require Import base list strings gmap.
From S2P Require Import Prelude Float64 GoTime Uuid GoStrings Effects Catalog CatalogService Records Circuit Collection Reader ReadModel Credential Identity Limiter Respond Api Dashboard Config.

Import Catalog Records Respond Api.
Local Open Scope string_scope.
Local Open Scope list_scope.
Local Open Scope Z_scope.
Local Open Scope m_scope.

Module CatalogApi.

(** ** handlers.go: representations *)

Record LocationDTO := MkLocationDTO {
  ld_ID : string; ld_Name : string; ld_CountryCode : string; ld_Latitude : float64; ld_Longitude : float64;
  ld_Timezone : string; ld_Status : string; ld_CreatedAt : Time
}.

Definition locationDTO (l : Location) : LocationDTO :=
  MkLocationDTO (Uuid.to_string (l_ID l)) (l_Name l) (l_CountryCode l) (l_Latitude l) (l_Longitude l) (l_Timezone l)
    (CatalogService.status_string (l_Status l)) (l_CreatedAt l).

Record ProviderDTO := MkProviderDTO {
  pd_ID : string; pd_Name : string; pd_Slug : string; pd_Status : string; pd_Attribution : Dashboard.AttributionDTO;
  pd_AdapterVersion : string; pd_CollectingSince : option Time
}.

Definition providerDTO (p : Provider) : ProviderDTO :=
  MkProviderDTO (Uuid.to_string (p_ID p)) (p_Name p) (p_Slug p) (CatalogService.status_string (p_Status p))
    (Dashboard.MkAttributionDTO (p_AttributionText p) (p_AttributionURL p)) "" None.

(** [enrichedProviderDTO] (provider.go) *)
Definition enrichedProviderDTO (lineages : gmap uuid Reader.ProviderLineage) (p : Provider) : ProviderDTO :=
  let dto := providerDTO p in
  match lineages !! p_ID p with
  | Some l => MkProviderDTO (pd_ID dto) (pd_Name dto) (pd_Slug dto) (pd_Status dto) (pd_Attribution dto)
                (Reader.pl_AdapterVersion l) (Reader.pl_CollectingSince l)
  | None => dto
  end.

Record CollectionDTO := MkCollectionDTO {
  cd_ID : string; cd_ProviderID : string; cd_LocationID : string; cd_Status : string; cd_RequestedAt : Time; cd_CompletedAt : option Time;
  cd_RecordsReceived : Z; cd_SnapshotsStored : Z; cd_SnapshotsDeduplicated : Z; cd_SnapshotsInvalid : Z;
  cd_SchemaVersion : string; cd_AdapterVersion : string; cd_ErrorCode : string; cd_ErrorMessage : string;
  cd_RawPayloadObjectKey : string; cd_RawPayloadChecksum : string; cd_ResponseStatusCode : Z; cd_ResponseLatencyMS : Z
}.

Definition collectionDTO (c : ForecastCollection) : CollectionDTO :=
  MkCollectionDTO (Uuid.to_string (fc_ID c)) (Uuid.to_string (fc_ProviderID c)) (Uuid.to_string (fc_LocationID c))
    (Reader.status_text (fc_Status c)) (fc_RequestedAt c) (fc_CompletedAt c)
    (fc_RecordsReceived c) (fc_SnapshotsStored c) (fc_SnapshotsDeduplicated c) (fc_SnapshotsInvalid c)
    (fc_SchemaVersion c) (fc_AdapterVersion c) (fc_ErrorCode c) (fc_ErrorMessage c)
    (fc_RawPayloadObjectKey c) (fc_RawPayloadChecksum c) (fc_ResponseStatusCode c) (fc_ResponseLatencyMS c).

Record SnapshotDTO := MkSnapshotDTO {
  sd_ID : string; sd_ForecastCollectionID : string; sd_TargetTime : Time; sd_IssuedAt : Time; sd_ForecastHorizonMinutes : Z;
  sd_TemperatureC : option float64; sd_FeelsLikeTemperatureC : option float64; sd_PrecipitationProbability : option float64;
  sd_PrecipitationAmountMM : option float64; sd_HumidityPct : option float64; sd_WindSpeedMS : option float64;
  sd_WindDirectionDeg : option float64; sd_PressureHPa : option float64; sd_CloudCoverPct : option float64; sd_CanonicalConditionCode : string
}.

Definition snapshotDTO (s : ForecastSnapshot) : SnapshotDTO :=
  MkSnapshotDTO (Uuid.to_string (s_ID s)) (Uuid.to_string (s_ForecastCollectionID s)) (s_TargetTime s) (s_IssuedAt s) (s_ForecastHorizonMinutes s)
    (s_TemperatureC s) (s_FeelsLikeTemperatureC s) (s_PrecipitationProbability s) (s_PrecipitationAmountMM s) (s_HumidityPct s)
    (s_WindSpeedMS s) (s_WindDirectionDeg s) (s_PressureHPa s) (s_CloudCoverPct s) (s_CanonicalConditionCode s).

(** admin_provider.go: the credential reference is shown as its presence. *)
Record providerConfigDTO := MkProviderConfigDTO {
  gd_ID : string; gd_ProviderID : string; gd_WorkspaceID : string; gd_Status : string; gd_HasCredential : bool;
  gd_Interval : string; gd_MinuteOffset : Z; gd_AdapterVersion : string; gd_ValidationState : string; gd_UpdatedAt : Time
}.

Definition providerConfigDTOOf (c : ProviderConfiguration) : providerConfigDTO :=
  MkProviderConfigDTO (Uuid.to_string (cfg_ID c)) (Uuid.to_string (cfg_ProviderID c)) (Uuid.to_string (cfg_WorkspaceID c))
    (CatalogService.status_string (cfg_Status c)) (negb (String.eqb (cfg_CredentialRef c) ""))
    (Interval (cfg_CollectionSchedule c)) (MinuteOffset (cfg_CollectionSchedule c)) (cfg_AdapterVersion c) (cfg_ValidationState c) (cfg_UpdatedAt c).

(** ** Request bodies *)

Record CreateLocationRequest := MkCreateRequest {
  cr_Name : string; cr_Latitude : float64; cr_Longitude : float64; cr_CountryCode : string; cr_Timezone : string;
  cr_AllowNearDuplicate : bool; cr_OverrideReason : string
}.

Record UpdateProviderConfigRequest := MkConfigRequest {
  ur_Status : option string; ur_MinuteOffset : option Z; ur_AdapterVersion : option string; ur_ValidationState : option string
}.

Record TriggerCollectionRequest := MkTriggerRequest { tr_ProviderID : string; tr_LocationID : string }.

(** JSON decoding, and the validator's text for the missing fields. *)
Class Bodies := {
  decode_create : Body -> string + CreateLocationRequest;
  decode_name : Body -> string + string;
  decode_status : Body -> string + string;
  decode_config : Body -> string + UpdateProviderConfigRequest;
  decode_trigger : Body -> string + TriggerCollectionRequest;
  required_error : list string -> string
}.

(** [binding:"required"]: the zero value counts as missing. *)
Definition no_text (s name : string) : list string := if String.eqb s "" then [name] else [].
Definition no_number (x : float64) (name : string) : list string := match x with S754_zero _ => [name] | _ => [] end.

Definition create_missing (q : CreateLocationRequest) : list string :=
  no_text (cr_Name q) "Name" ++ no_number (cr_Latitude q) "Latitude" ++ no_number (cr_Longitude q) "Longitude"
  ++ no_text (cr_CountryCode q) "CountryCode" ++ no_text (cr_Timezone q) "Timezone".

Definition trigger_missing (q : TriggerCollectionRequest) : list string :=
  no_text (tr_ProviderID q) "ProviderID" ++ no_text (tr_LocationID q) "LocationID".

(** [catalog.Status(s)] *)
Definition Status_of (t : string) : Status :=
  if String.eqb t "active" then StatusActive else if String.eqb t "disabled" then StatusDisabled
  else if String.eqb t "archived" then StatusArchived else StatusOther t.

(** ** The database of the handlers *)

Record SiteTables := MkSite { st_catalog : CatalogService.CatalogTables; st_collection : Collection.CollectionTables }.

#[export] Instance catalog_part : Part SiteTables CatalogService.CatalogTables :=
  {| part := st_catalog; put := fun t d => MkSite t (st_collection d) |}.

(** The collection workflows on the providers of the catalog. *)
#[export] Instance collection_part : Part SiteTables Collection.CollectionTables := {|
  part := fun d => let t := st_collection d in
    Collection.MkCT (CatalogService.t_providers (st_catalog d)) (Collection.ct_collections t) (Collection.ct_snapshots t) (Collection.ct_partitions t)
      (Collection.ct_circuits t) (Collection.ct_audit t) (Collection.ct_events t) (Collection.ct_store t);
  put := fun t d => MkSite (st_catalog d)
    (Collection.MkCT (Collection.ct_providers (st_collection d)) (Collection.ct_collections t) (Collection.ct_snapshots t) (Collection.ct_partitions t)
      (Collection.ct_circuits t) (Collection.ct_audit t) (Collection.ct_events t) (Collection.ct_store t))
|}.

(** ** Answers *)

Inductive View :=
| VLocation (l : LocationDTO) | VLocations (ls : list LocationDTO)
| VProvider (p : ProviderDTO) | VProviders (ps : list ProviderDTO)
| VConfig (c : providerConfigDTO) | VConfigs (cs : list providerConfigDTO)
| VCollection (c : CollectionDTO) | VCollections (cs : list CollectionDTO)
| VForecast (c : CollectionDTO) (ss : list SnapshotDTO).

Inductive SiteReply :=
| Answered (status : Z) (v : View) (o : Options)
| Refusal (headers : list (string * string)) (p : Problem).

(** An error with the headers set before it. *)
Record Failure := MkFailure { fl_headers : list (string * string); fl_error : ApiError }.

Definition with_id (r : Request) : Options := MkOptions (rq_RequestID r) "" [] "" "" None None [] [] None.
Definition in_zone (tz : string) (o : Options) : Options :=
  MkOptions (op_RequestID o) tz (op_Units o) (op_MethodologyVersion o) (op_WeightsVersion o) (op_Freshness o) (op_Provenance o) (op_Attribution o)
    (op_Warnings o) (op_Pagination o).
Definition paged (p : Pagination) (o : Options) : Options :=
  MkOptions (op_RequestID o) (op_Timezone o) (op_Units o) (op_MethodologyVersion o) (op_WeightsVersion o) (op_Freshness o) (op_Provenance o)
    (op_Attribution o) (op_Warnings o) (Some p).
Definition credited (l : list Attribution) (o : Options) : Options :=
  MkOptions (op_RequestID o) (op_Timezone o) (op_Units o) (op_MethodologyVersion o) (op_WeightsVersion o) (op_Freshness o) (op_Provenance o) l
    (op_Warnings o) (op_Pagination o).

Definition credit_of (p : Provider) : Attribution := MkAttribution (p_Name p) (p_AttributionText p) (p_AttributionURL p).

(** [collectionFreshness] *)
Definition collectionFreshness (c : ForecastCollection) (now : Time) : Freshness :=
  match fc_CompletedAt c with
  | None => MkFreshness "unavailable" None 0 0 "no_completed_collection"
  | Some t =>
      let age := Sub now t in
      let state := if 24 * Hour <? age then "stale" else if 180 * Minute <? age then "delayed" else "fresh" in
      MkFreshness state (Some t) (whole_seconds age) (75 * 60) ""
  end.

Definition forecast_units : list (string * string) :=
  [("temperature", "°C"); ("precipitation", "mm"); ("wind_speed", "m/s"); ("pressure", "hPa"); ("humidity", "%")].

(** [actor]: the audit actor of the request. *)
Definition actor (r : Request) (p : option Respond.Principal) : Actor :=
  MkActor (p ≫= rp_UserID) (default "" (rp_Name <$> p)) (rq_ClientIP r).

Section Handlers.
Context `{Env} `{CatalogService.Trig} `{CatalogService.Lookups} `{ReadModel.Database} `{Collection.CollectDeps} `{Bodies}.

Definition HM (A : Type) : Type := M SiteTables (Failure + A).
Definition done {A} (a : A) : HM A := ret (inr a).
Definition stop {A} (e : ApiError) : HM A := ret (inl (MkFailure [] e)).

(** A call of a service over its tables; its error goes to [respond.Error]. *)
Definition call {T E A} `{Part SiteTables T} (cause : E -> ApiError) (m : M T (E + A)) : HM A :=
  bind (attempt (zoom m)) (fun x => match x with Ok (inr a) => done a | Ok (inl e) => stop (cause e) | Error t => stop (Other t) end).

Definition read_error (e : Reader.ReadError) : ApiError :=
  match e with Reader.Domain e => Collection_ e | Reader.Invalid f m => FieldMessage f m end.

Definition bind_json {A} (decoded : string + A) (missing : A -> list string) : HM A :=
  match decoded with
  | inl t => stop (FieldMessage "body" t)
  | inr a => match missing a with [] => done a | fs => stop (FieldMessage "body" (required_error fs)) end
  end.

Definition parse_uuid (raw field : string) : HM uuid :=
  match CatalogService.ids_Parse raw with Some id => done id | None => stop (badUUID field) end.
Definition pathUUID (r : Request) : HM uuid := parse_uuid (Param r "id") "id".
Definition queryUUID (r : Request) (name : string) : HM (option uuid) :=
  if String.eqb (Query r name) "" then done None else id <-! parse_uuid (Query r name) name ;; done (Some id).
Definition queryLimit (r : Request) : Z := if String.eqb (Query r "limit") "" then 50 else default 50 (Atoi (Query r "limit")).

(** *** location.go *)

Definition h_ListLocations (r : Request) : HM (Z * View * Options) :=
  let active := if String.eqb (Query r "active") "" then None else Some (default false (Config.ParseBool (Query r "active"))) in
  res <-! call Catalog_ (CatalogService.ListLocations (CatalogService.MkListLocations active (Query r "cursor") (queryLimit r))) ;;
  done (200, VLocations (locationDTO <$> res.1), paged (MkPagination (CatalogService.NextCursor res.2) (CatalogService.HasMore res.2)) (with_id r)).

Definition h_GetLocation (r : Request) : HM (Z * View * Options) :=
  id <-! pathUUID r ;;
  loc <-! call Catalog_ (CatalogService.GetLocation id) ;;
  done (200, VLocation (locationDTO loc), in_zone (l_Timezone loc) (with_id r)).

Definition h_CreateLocation (r : Request) (p : option Respond.Principal) (now : Time) : HM (Z * View * Options) :=
  q <-! bind_json (decode_create (rq_Body r)) create_missing ;;
  loc <-! call Catalog_ (CatalogService.CreateLocation
    (CatalogService.MkCreateLocation uuid_Nil (cr_Name q) (cr_Latitude q) (cr_Longitude q) (cr_CountryCode q) (cr_Timezone q)
       (cr_AllowNearDuplicate q) (cr_OverrideReason q) (actor r p)) now) ;;
  done (201, VLocation (locationDTO loc), with_id r).

Definition h_UpdateLocation (r : Request) (p : option Respond.Principal) : HM (Z * View * Options) :=
  id <-! pathUUID r ;;
  name <-! bind_json (decode_name (rq_Body r)) (fun n => no_text n "Name") ;;
  loc <-! call Catalog_ (CatalogService.UpdateLocation id (CatalogService.MkUpdateLocation (Some name) (actor r p))) ;;
  done (200, VLocation (locationDTO loc), with_id r).

Definition h_SetLocationStatus (r : Request) (p : option Respond.Principal) : HM (Z * View * Options) :=
  id <-! pathUUID r ;;
  status <-! bind_json (decode_status (rq_Body r)) (fun s => no_text s "Status") ;;
  loc <-! call Catalog_ (CatalogService.SetLocationStatus id (Status_of status) (actor r p)) ;;
  done (200, VLocation (locationDTO loc), in_zone (l_Timezone loc) (with_id r)).

(** *** provider.go *)

(** [ORDER BY slug] *)
Definition pg_ListProviders (d : CatalogService.CatalogTables) : list Provider :=
  stable_sort (fun a b => ReadModel.text_ltb (p_Slug a) (p_Slug b)) (CatalogService.t_providers d).

Definition catalog_ListProviders : M CatalogService.CatalogTables (CatalogService.CatalogError + list Provider) :=
  query "list providers" (fun d => inr (pg_ListProviders d)).

Definition h_ListProviders (r : Request) : HM (Z * View * Options) :=
  ps <-! call Catalog_ catalog_ListProviders ;;
  lineages <-! call read_error Reader.ProviderLineages ;;
  done (200, VProviders (enrichedProviderDTO lineages <$> ps), credited (credit_of <$> ps) (with_id r)).

Definition h_GetProvider (r : Request) : HM (Z * View * Options) :=
  id <-! pathUUID r ;;
  p <-! call Catalog_ (CatalogService.GetProvider id) ;;
  lineages <-! call read_error Reader.ProviderLineages ;;
  done (200, VProvider (enrichedProviderDTO lineages p), credited [credit_of p] (with_id r)).

(** *** admin_provider.go *)

Definition h_SetProviderStatus (r : Request) (p : option Respond.Principal) (now : Time) : HM (Z * View * Options) :=
  id <-! pathUUID r ;;
  status <-! bind_json (decode_status (rq_Body r)) (fun s => no_text s "Status") ;;
  prov <-! call Catalog_ (CatalogService.SetProviderStatus id (Status_of status) (actor r p) now) ;;
  done (200, VProvider (providerDTO prov), with_id r).

Definition h_ListProviderConfigurations (r : Request) : HM (Z * View * Options) :=
  cs <-! call Catalog_ CatalogService.ListConfigurations ;;
  done (200, VConfigs (providerConfigDTOOf <$> cs), with_id r).

Definition h_UpdateProviderConfiguration (r : Request) (p : option Respond.Principal) (now : Time) : HM (Z * View * Options) :=
  id <-! pathUUID r ;;
  q <-! bind_json (decode_config (rq_Body r)) (fun _ => []) ;;
  c <-! call Catalog_ (CatalogService.UpdateConfiguration id
    (CatalogService.MkUpdateConfig (Status_of <$> ur_Status q) (ur_MinuteOffset q) (ur_AdapterVersion q) (ur_ValidationState q)) (actor r p) now) ;;
  done (200, VConfig (providerConfigDTOOf c), with_id r).

(** *** collection.go *)

Definition h_TriggerCollection (r : Request) (p : option Respond.Principal) (clk : Collection.Clock) : HM (Z * View * Options) :=
  q <-! bind_json (decode_trigger (rq_Body r)) trigger_missing ;;
  providerID <-! parse_uuid (tr_ProviderID q) "provider_id" ;;
  locationID <-! parse_uuid (tr_LocationID q) "location_id" ;;
  provider <-! call Catalog_ (CatalogService.GetProvider providerID) ;;
  location <-! call Catalog_ (CatalogService.GetLocation locationID) ;;
  config <-! call Catalog_ (CatalogService.GetConfigurationByProviderID providerID) ;;
  coll <-! call Collection_ (Collection.Collect (Collection.MkCollectInput provider location config (actor r p) Collection.SourceManual) clk) ;;
  if bool_decide (fc_Status coll = StatusRateLimited) then ret (inl (MkFailure [("Retry-After", "60")] ErrRateLimited))
  else done (200, VCollection (collectionDTO coll), with_id r).

Definition h_ReplayCollection (r : Request) (p : option Respond.Principal) (clk : Collection.Clock) : HM (Z * View * Options) :=
  id <-! pathUUID r ;;
  coll <-! call Collection_ (Collection.Replay id (actor r p) clk) ;;
  done (200, VCollection (collectionDTO coll), with_id r).

Definition h_ListCollections (r : Request) : HM (Z * View * Options) :=
  providerID <-! queryUUID r "provider_id" ;;
  locationID <-! queryUUID r "location_id" ;;
  let status := if String.eqb (Query r "status") "" then None else Some (Query r "status") in
  res <-! call read_error (Reader.ListCollections (Reader.MkListInput providerID locationID status (Query r "cursor") (queryLimit r))) ;;
  done (200, VCollections (collectionDTO <$> res.1), paged (MkPagination (Reader.NextCursor res.2) (Reader.HasMore res.2)) (with_id r)).

Definition h_GetCollection (r : Request) : HM (Z * View * Options) :=
  id <-! pathUUID r ;;
  c <-! call read_error (Reader.GetCollection id) ;;
  done (200, VCollection (collectionDTO c), with_id r).

Definition h_CollectionSnapshots (r : Request) : HM (Z * View * Options) :=
  id <-! pathUUID r ;;
  c <-! call read_error (Reader.GetCollection id) ;;
  ss <-! call read_error (Reader.SnapshotsByCollection id) ;;
  done (200, VForecast (collectionDTO c) (snapshotDTO <$> ss), with_id r).

Definition forecast_options (r : Request) (provider : Provider) (c : ForecastCollection) (now : Time) : Options :=
  MkOptions (rq_RequestID r) "" forecast_units "" "" (Some (collectionFreshness c now)) None [credit_of provider] [] None.

Definition h_LatestForecast (r : Request) (now : Time) : HM (Z * View * Options) :=
  locationID <-! queryUUID r "location_id" ;;
  providerID <-! queryUUID r "provider_id" ;;
  match locationID, providerID with
  | Some l, Some p =>
      latest <-! call read_error (Reader.LatestForecast p l) ;;
      match latest with
      | None => stop (Collection_ Collection.ErrNotFound)
      | Some (c, ss) =>
          provider <-! call Catalog_ (CatalogService.GetProvider p) ;;
          done (200, VForecast (collectionDTO c) (snapshotDTO <$> ss), forecast_options r provider c now)
      end
  | _, _ => stop (FieldMessage "body" "location_id and provider_id are required")
  end.

(** ** A whole request *)

Definition site_handler (h : Handler) (r : Request) (p : option Respond.Principal) (now : Time) (clk : Collection.Clock) : option (HM (Z * View * Options)) :=
  match h with
  | ListLocations => Some (h_ListLocations r)
  | GetLocation => Some (h_GetLocation r)
  | CreateLocation => Some (h_CreateLocation r p now)
  | UpdateLocation => Some (h_UpdateLocation r p)
  | SetLocationStatus => Some (h_SetLocationStatus r p)
  | ListProviders => Some (h_ListProviders r)
  | GetProvider => Some (h_GetProvider r)
  | SetProviderStatus => Some (h_SetProviderStatus r p now)
  | ListProviderConfigurations => Some (h_ListProviderConfigurations r)
  | UpdateProviderConfiguration => Some (h_UpdateProviderConfiguration r p now)
  | TriggerCollection => Some (h_TriggerCollection r p clk)
  | ReplayCollection => Some (h_ReplayCollection r p clk)
  | ListCollections => Some (h_ListCollections r)
  | GetCollection => Some (h_GetCollection r)
  | CollectionSnapshots => Some (h_CollectionSnapshots r)
  | LatestForecast => Some (h_LatestForecast r now)
  | _ => None
  end.
End Handlers.

(** The server and the tables of the site; statements and ids are counted in one place. *)
Record Site := MkSiteState { si_server : Server; si_db : SiteTables }.

Section Serve.
Context `{Env} `{CatalogService.Trig} `{CatalogService.Lookups} `{ReadModel.Database} `{Collection.CollectDeps} `{Bodies}.
Context `{Credential.Crypto} `{Identity.TokenVerifier} `{Texts} (workspaceID : uuid).

Definition reply (r : Request) (x : result (Failure + (Z * View * Options))) : SiteReply :=
  match x with
  | Ok (inr (status, v, o)) => Answered status v o
  | Ok (inl f) => Refusal (fl_headers f) (Classify (fl_error f) (rq_RequestID r) (rq_Path r))
  | Error t => Refusal [] (Classify (Other t) (rq_RequestID r) (rq_Path r))
  end.

(** What becomes of a request: answered before its handler, by one of the handlers
    here, or by a handler of another component. *)
Inductive SiteResult := Turned (x : Dispatch) | Served (x : SiteReply) | Outside (h : Handler).

Definition run_site {A} (m : M SiteTables A) (s : Site) : Site * result A :=
  let w := sv_world (si_server s) in
  let '(w', x) := m (MkWorld (si_db s) (tick w) (nids w)) in
  (MkSiteState (MkServer (sv_limiter (si_server s)) (MkWorld (db w) (tick w') (nids w'))) (db w'), x).

Definition site_serve (cfg : RouterConfig) (r : Request) (now : Time) (clk : Collection.Clock) (s : Site) : Site * SiteResult :=
  match dispatch workspaceID cfg r now (si_server s) with
  | (sv, Reached h p) =>
      let s' := MkSiteState sv (si_db s) in
      match site_handler h r p now clk with
      | None => (s', Outside h)
      | Some m => let '(s'', x) := run_site m s' in (s'', Served (reply r x))
      end
  | (sv, d) => (MkSiteState sv (si_db s), Turned d)
  end.
End Serve.

End CatalogApi.
