(* ===== verification/CatalogApiProps.v ===== *)
(** * What catalog and collection requests do

    Whole requests against the catalog: a mutation is reported as done exactly when it
    was committed with the audit record of the administrator who asked for it.  The
    latest forecast of a pair as it is served, and the freshness it claims. *)

From Stdlib Require Import ZArith Lia Bool String Sorting.Sorted.
From Stdlib Require Import SpecFloat.
From stdpp Require Import base list strings gmap.
From S2P Require Import Prelude Float64 GoTime Uuid GoStrings Effects Catalog CatalogService CatalogProps Records Circuit Collection CollectionProps Reader ReadModel Credential Identity IdentityProps Limiter Respond Api ApiProps Config CatalogApi.

Import Catalog Records Respond Api CatalogApi.
Local Open Scope string_scope.
Local Open Scope list_scope.
Local Open Scope Z_scope.
Local Open Scope m_scope.

Module CatalogApiProps.

Create HintDb handlers.

(** ** Handlers and the catalog *)

(** The handlers that change the catalog. *)
Definition mutating (h : Handler) : bool :=
  match h with CreateLocation | UpdateLocation | SetLocationStatus | SetProviderStatus | UpdateProviderConfiguration => true | _ => false end.

Definition view_of (res : CatalogProps.Resource) : View :=
  match res with
  | CatalogProps.ResLocation l => VLocation (locationDTO l)
  | CatalogProps.ResProvider p => VProvider (providerDTO p)
  | CatalogProps.ResConfig c => VConfig (providerConfigDTOOf c)
  end.

Definition success_status (c : CatalogProps.Command) : Z := match c with CatalogProps.CmdCreate _ => 201 | _ => 200 end.

Section Outcomes.
Context `{Env} `{CatalogService.Trig} `{CatalogService.Lookups} `{ReadModel.Database} `{Collection.CollectDeps} `{Bodies}.

Abbreviation Cat := CatalogService.CatalogTables.

(** A handler's step: a failure leaves the catalog as it was, a result is related to
    the catalog before and after. *)
Definition outcome {A} (P : Cat -> Cat -> A -> Prop) (m : HM A) : Prop := forall w,
  match m w with
  | (w', Ok (inr a)) => P (st_catalog (db w)) (st_catalog (db w')) a
  | (w', Ok (inl _)) => st_catalog (db w') = st_catalog (db w)
  | (_, Error _) => False
  end.

Definition same {A} (d d' : Cat) (_ : A) : Prop := d' = d.

Lemma outcome_done {A} (P : Cat -> Cat -> A -> Prop) a : (forall d, P d d a) -> outcome P (done a).
Proof. intros Hp w. apply Hp. Qed.

Lemma outcome_stop {A} (P : Cat -> Cat -> A -> Prop) e : outcome P (stop e).
Proof. intros w. reflexivity. Qed.

Lemma outcome_fail {A} (P : Cat -> Cat -> A -> Prop) f : outcome P (ret (inl f)).
Proof. intros w. reflexivity. Qed.

Lemma outcome_read {A B} (P : Cat -> Cat -> B -> Prop) (m : HM A) (k : A -> HM B) :
  outcome same m -> (forall a, outcome P (k a)) -> outcome P (bindE m k).
Proof.
  intros Hm Hk w. unfold bindE. rewrite bind_run. specialize (Hm w). destruct (m w) as [w1 [[f|a]|e]]; [exact Hm| |exact Hm].
  specialize (Hk a w1). unfold same in Hm. rewrite <- Hm. exact Hk.
Qed.

Lemma outcome_map {A B} (P : Cat -> Cat -> A -> Prop) (Q : Cat -> Cat -> B -> Prop) (m : HM A) (f : A -> B) :
  outcome P m -> (forall d d' a, P d d' a -> Q d d' (f a)) -> outcome Q (a <-! m ;; done (f a)).
Proof. intros Hm Hq w. unfold bindE. rewrite bind_run. specialize (Hm w). destruct (m w) as [w1 [[e|a]|e]]; [exact Hm|now apply Hq|exact Hm]. Qed.

Lemma outcome_json {A} dec (missing : A -> list string) : outcome same (bind_json dec missing).
Proof. unfold bind_json. destruct dec as [t|a]; [apply outcome_stop|]. destruct (missing a); [now apply outcome_done|apply outcome_stop]. Qed.

Lemma outcome_uuid raw field : outcome same (parse_uuid raw field).
Proof. unfold parse_uuid. destruct (CatalogService.ids_Parse raw); [now apply outcome_done|apply outcome_stop]. Qed.

Lemma outcome_query_uuid r name : outcome same (queryUUID r name).
Proof.
  unfold queryUUID. destruct (String.eqb _ _); [now apply outcome_done|]. apply outcome_read; [apply outcome_uuid|]. intros a. now apply outcome_done.
Qed.

(** A service of the catalog that commits or leaves the tables. *)
Lemma outcome_commit {A} (P : Cat -> Cat -> A -> Prop) (m : M Cat (CatalogService.CatalogError + A)) :
  (forall w, CatalogProps.committed (P (db w)) (db w) (m w)) -> outcome P (call Catalog_ m).
Proof.
  intros Hm w. unfold call, attempt, zoom. rewrite bind_run. specialize (Hm (MkWorld (part (db w)) (tick w) (nids w))). cbn in Hm.
  destruct (m _) as [w1 [[e|a]|e]]; destruct Hm as [(r & Er & Hr)|[Ed Er]]; cbn in *; try discriminate; try exact Ed.
  - now injection Er as ->.
  - now destruct (Er a).
Qed.

(** One that only reads. *)
Lemma outcome_query {A} (m : M Cat (CatalogService.CatalogError + A)) : (forall d, preserves (eq d) m) -> outcome same (call Catalog_ m).
Proof.
  intros Hm w. unfold call, attempt, zoom. rewrite bind_run. pose proof (Hm (part (db w)) (MkWorld (part (db w)) (tick w) (nids w)) eq_refl) as E.
  destruct (m _) as [w1 [[e|a]|e]]; cbn in *; now symmetry.
Qed.

(** The collection side never writes the catalog. *)
Lemma outcome_collection {E A} (cause : E -> ApiError) (m : M Collection.CollectionTables (E + A)) : outcome same (call cause m).
Proof. intros w. unfold call, attempt, zoom. rewrite bind_run. now destruct (m _) as [w1 [[e|a]|e]]. Qed.

Lemma read_locations inp d : preserves (eq d) (CatalogService.ListLocations inp).
Proof.
  unfold CatalogService.ListLocations. destruct (if String.eqb _ _ then _ else _); [|apply preserves_ret].
  apply preserves_bind; [apply preserves_query|]. intros rows. destruct (Keyset.cut_page _ _ _) as [[? ?] ?]. apply preserves_ret.
Qed.

(** What a mutation by [a] makes of the catalog and the answer. *)
Definition reported (a : Actor) (d d' : Cat) (x : Z * View * Options) : Prop :=
  exists c res o, CatalogProps.cmd_actor c = a /\ CatalogProps.audited c d d' res /\ x = (success_status c, view_of res, o).

Lemma outcome_lookup {A} op (f : Cat -> CatalogService.CatalogError + A) : outcome same (call Catalog_ (query op f)).
Proof. apply outcome_query. intros d. apply preserves_query. Qed.

Lemma outcome_locations inp : outcome same (call Catalog_ (CatalogService.ListLocations inp)).
Proof. apply outcome_query, read_locations. Qed.

#[local] Hint Resolve outcome_json outcome_uuid outcome_query_uuid outcome_collection outcome_stop outcome_fail outcome_lookup outcome_locations : handlers.
#[local] Hint Extern 1 (outcome same (pathUUID _)) => apply outcome_uuid : handlers.
#[local] Hint Extern 1 (outcome same (call Catalog_ _)) => apply outcome_lookup : handlers.

(** Steps of a handler that leave the catalog, down to the last one. *)
Ltac reading := repeat (apply outcome_read; [solve [auto with handlers]|intros ?]).

Lemma mutation_step {A} c (res : A -> CatalogProps.Resource) (m : M Cat (CatalogService.CatalogError + A)) (f : A -> Z * View * Options) :
  (forall w, CatalogProps.committed (fun d' a => CatalogProps.audited c (db w) d' (res a)) (db w) (m w)) ->
  (forall a, exists o, f a = (success_status c, view_of (res a), o)) ->
  outcome (reported (CatalogProps.cmd_actor c)) (a <-! call Catalog_ m ;; done (f a)).
Proof.
  intros Hm Hf. apply outcome_map with (P := fun d d' a => CatalogProps.audited c d d' (res a)); [now apply outcome_commit|].
  intros d d' a Ha. destruct (Hf a) as [o E]. exists c, (res a), o. auto.
Qed.

Lemma mutation_reported h r p now clk m : mutating h = true -> site_handler h r p now clk = Some m -> outcome (reported (actor r p)) m.
Proof.
  destruct h; try discriminate; intros _ [= <-]; unfold h_CreateLocation, h_UpdateLocation, h_SetLocationStatus, h_SetProviderStatus, h_UpdateProviderConfiguration;
    reading.
  - eapply (mutation_step (CatalogProps.CmdCreate (CatalogService.MkCreateLocation _ _ _ _ _ _ _ _ _)) CatalogProps.ResLocation); [apply CatalogProps.create_audited|eauto].
  - eapply (mutation_step (CatalogProps.CmdUpdate _ (CatalogService.MkUpdateLocation _ _)) CatalogProps.ResLocation); [apply CatalogProps.update_audited|eauto].
  - eapply (mutation_step (CatalogProps.CmdStatus _ _ _) CatalogProps.ResLocation); [apply CatalogProps.status_audited|eauto].
  - eapply (mutation_step (CatalogProps.CmdProvider _ _ _) CatalogProps.ResProvider); [apply CatalogProps.provider_audited|eauto].
  - eapply (mutation_step (CatalogProps.CmdConfig _ _ _) CatalogProps.ResConfig); [apply CatalogProps.config_audited|eauto].
Qed.

Lemma other_same h r p now clk m : mutating h = false -> site_handler h r p now clk = Some m -> outcome same m.
Proof.
  destruct h; try discriminate; intros _ [= <-];
    unfold h_ListLocations, h_GetLocation, h_ListProviders, h_GetProvider, h_ListProviderConfigurations, h_TriggerCollection, h_ReplayCollection,
      h_ListCollections, h_GetCollection, h_CollectionSnapshots, h_LatestForecast; reading; try now apply outcome_done.
  - destruct a, a0; try apply outcome_stop. apply outcome_read; [auto with handlers|]. intros [[c ss]|]; [|apply outcome_stop].
    reading. now apply outcome_done.
  - case_bool_decide; [apply outcome_fail|now apply outcome_done].
Qed.
End Outcomes.

(** ** Whole requests *)

Section Requests.
Context `{Env} `{CatalogService.Trig} `{CatalogService.Lookups} `{ReadModel.Database} `{Collection.CollectDeps} `{Bodies}.
Context `{Credential.Crypto} `{Identity.TokenVerifier} `{Texts} (workspaceID : uuid).

Lemma run_site_outcome (P : CatalogService.CatalogTables -> CatalogService.CatalogTables -> Z * View * Options -> Prop) m s s' x r :
  outcome P m -> run_site m s = (s', x) ->
  match reply r x with
  | Answered st v o => P (st_catalog (si_db s)) (st_catalog (si_db s')) (st, v, o)
  | Refusal _ _ => st_catalog (si_db s') = st_catalog (si_db s)
  end.
Proof.
  intros Hm E. unfold run_site in E. specialize (Hm (MkWorld (si_db s) (tick (sv_world (si_server s))) (nids (sv_world (si_server s))))).
  destruct (m _) as [w [[f|[[st v] o]]|t]]; injection E as <- <-; [exact Hm|exact Hm|now destruct Hm].
Qed.

Lemma reached_route cfg r now s sv h p : dispatch workspaceID cfg r now s = (sv, Reached h p) -> rt_Handler <$> find_route cfg r = Some h.
Proof.
  unfold dispatch. destruct (front cfg r); [discriminate|]. destruct (find_route cfg r) as [rt|]; [|discriminate].
  destruct (run_gates _ _ _ _ _ _ _) as [s' [x|q]]; [discriminate|]. now intros [= _ <- _].
Qed.

(** C17: the catalog changes only on an administrator's request, and the answer tells the
    truth about it.  Whatever statements fail, a request either leaves the catalog as it
    was, and then no mutation is answered as done; or its credential is that of an
    active administrator, the catalog has moved by one command with one audit record
    naming that user and the client's address, and the answer shows the resource as it
    was committed. *)
Theorem site_requests_audited (cfg : RouterConfig) (r : Request) (now : Time) (clk : Collection.Clock) (s s' : Site) (x : SiteResult) :
  site_serve workspaceID cfg r now clk s = (s', x) ->
  (st_catalog (si_db s') = st_catalog (si_db s) /\
   (forall rt st v o, find_route cfg r = Some rt -> mutating (rt_Handler rt) = true -> x <> Served (Answered st v o))) \/
  exists ip c res o,
    ApiProps.genuine (rc_Auth cfg) r now (db (sv_world (si_server s))) ip /\ Identity.p_Role ip = "admin" /\
    CatalogProps.cmd_actor c = MkActor (Some (Identity.p_UserID ip)) (Identity.p_Email ip) (rq_ClientIP r) /\
    CatalogProps.audited c (st_catalog (si_db s)) (st_catalog (si_db s')) res /\
    x = Served (Answered (success_status c) (view_of res) o).
Proof.
  unfold site_serve. destruct (dispatch workspaceID cfg r now (si_server s)) as [sv dp] eqn:D.
  assert (Quiet : forall y, (MkSiteState sv (si_db s), y) = (s', x) -> (forall st v o, y <> Served (Answered st v o)) ->
    st_catalog (si_db s') = st_catalog (si_db s) /\
    (forall rt st v o, find_route cfg r = Some rt -> mutating (rt_Handler rt) = true -> x <> Served (Answered st v o))).
  { intros y [= <- <-] N. split; [reflexivity|]. intros rt st v o _ _. apply N. }
  destruct dp as [z| |h p]; [intros E; left; now apply (Quiet _ E)|intros E; left; now apply (Quiet _ E)|].
  destruct (site_handler h r p now clk) as [m|] eqn:Hm; [|intros E; left; now apply (Quiet _ E)].
  destruct (run_site m (MkSiteState sv (si_db s))) as [s1 y] eqn:R. intros [= <- <-].
  pose proof (reached_route _ _ _ _ _ _ _ D) as Rt. destruct (mutating h) eqn:Mu.
  - pose proof (run_site_outcome _ _ _ _ _ r (mutation_reported h r p now clk m Mu Hm) R) as O.
    destruct (reply r y) as [st v o|hs pb] eqn:Ey; [right|left; split; [exact O|discriminate]].
    destruct O as (c & res & o' & Ec & Ha & [= -> -> ->]). apply ApiProps.reached_genuine in D.
    destruct D as [[Ac _]|(ip & _ & -> & G & Pm)]; [now destruct h|].
    exists ip, c, res, o'. split_and!; [exact G| |exact Ec|exact Ha|reflexivity]. now destruct h; try discriminate Mu; apply String.eqb_eq in Pm.
  - left. pose proof (run_site_outcome _ _ _ _ _ r (other_same h r p now clk m Mu Hm) R) as O. split; [now destruct (reply r y)|].
    intros rt st v o Er Mt. rewrite Er in Rt. injection Rt as Rt. rewrite Rt in Mt. congruence.
Qed.
End Requests.

(** ** The latest forecast *)

Section Latest.
Context `{Healthy} `{CatalogService.Trig} `{CatalogService.Lookups} `{ReadModel.Database} `{Collection.CollectDeps} `{Bodies} `{Texts}.

Definition query_id (r : Request) (name : string) : option uuid :=
  if String.eqb (Query r name) "" then None else CatalogService.ids_Parse (Query r name).

(** The collection tables as the workflows see them. *)
Definition collections (d : SiteTables) : Collection.CollectionTables := part d.

Lemma put_collections d : put (collections d) d = d.
Proof. now destruct d as [c []]. Qed.

Lemma put_catalog (d : SiteTables) : put (st_catalog d) d = d.
Proof. now destruct d. Qed.

Lemma call_lookup {A} op (f : CatalogService.CatalogTables -> CatalogService.CatalogError + A) (w : World SiteTables) :
  call Catalog_ (query op f) w =
    (MkWorld (db w) (S (tick w)) (nids w), Ok (match f (st_catalog (db w)) with inr a => inr a | inl e => inl (MkFailure [] (Catalog_ e)) end)).
Proof.
  unfold call, attempt, zoom. rewrite bind_run, query_healthy. cbn [db tick nids]. change (part (db w)) with (st_catalog (db w)).
  rewrite put_catalog. now destruct (f (st_catalog (db w))).
Qed.

Lemma call_latest p l (w : World SiteTables) : exists w' o,
  call read_error (Reader.LatestForecast p l) w = (w', Ok (inr o)) /\ db w' = db w /\ Reader.latest_of p l (collections (db w)) o.
Proof.
  unfold call, attempt, zoom. rewrite bind_run. destruct (Reader.LatestForecast_run p l (MkWorld (collections (db w)) (tick w) (nids w))) as (w1 & o & E & Ed & L).
  change (part (db w)) with (collections (db w)). rewrite E. cbn [db] in Ed. rewrite Ed, put_collections. eexists _, o. split; [reflexivity|]. split; [reflexivity|exact L].
Qed.

Lemma queryUUID_run r name (w : World SiteTables) :
  queryUUID r name w = (w, Ok (if String.eqb (Query r name) "" then inr None else
    match CatalogService.ids_Parse (Query r name) with Some id => inr (Some id) | None => inl (MkFailure [] (badUUID name)) end)).
Proof. unfold queryUUID. destruct (String.eqb _ _); [reflexivity|]. unfold parse_uuid, bindE. rewrite bind_run. now destruct (CatalogService.ids_Parse _). Qed.

(** What may be answered to a request for the latest forecast. *)
Definition forecast_reply (r : Request) (now : Time) (d : SiteTables) (x : SiteReply) : Prop :=
  match x with
  | Answered st v o => exists p l c ss prov,
      query_id r "provider_id" = Some p /\ query_id r "location_id" = Some l /\
      Reader.latest_of p l (collections d) (Some (c, ss)) /\ CatalogService.pg_GetProvider p (st_catalog d) = Some prov /\
      st = 200 /\ v = VForecast (collectionDTO c) (snapshotDTO <$> ss) /\ o = forecast_options r prov c now
  | Refusal _ pb =>
      (pr_Status pb = 422 /\ (query_id r "provider_id" = None \/ query_id r "location_id" = None)) \/
      (pr_Status pb = 404 /\ exists p l, query_id r "provider_id" = Some p /\ query_id r "location_id" = Some l /\
        (Reader.latest_of p l (collections d) None \/ CatalogService.pg_GetProvider p (st_catalog d) = None))
  end.

(** A missing or malformed id. *)
Ltac malformed := eexists _, _; split; [reflexivity|split; [reflexivity|left; split; [reflexivity|auto]]].

(** C30: the latest forecast is the latest: when nothing fails, the answer to a
    well-formed request shows the most recent usable collection of the provider for the
    location with all the snapshots stored for it, in time order, as many as the
    collection counts and all of this pair when the tables are consistent; it is 404
    exactly when the pair has no usable collection or the provider is unknown, and 422
    when an id is missing or malformed.  Nothing is written. *)
Theorem latest_forecast_served (r : Request) (now : Time) (w : World SiteTables) : exists w' x,
  h_LatestForecast r now w = (w', x) /\ db w' = db w /\ forecast_reply r now (db w) (reply r x).
Proof.
  unfold h_LatestForecast, bindE. rewrite bind_run, queryUUID_run. unfold forecast_reply, query_id.
  destruct (String.eqb (Query r "location_id") "") eqn:El; cbv beta iota.
  { rewrite bind_run, queryUUID_run. destruct (String.eqb (Query r "provider_id") ""); [malformed|].
    destruct (CatalogService.ids_Parse (Query r "provider_id")); malformed. }
  destruct (CatalogService.ids_Parse (Query r "location_id")) as [l|]; [|malformed].
  rewrite bind_run, queryUUID_run. destruct (String.eqb (Query r "provider_id") ""); [malformed|].
  destruct (CatalogService.ids_Parse (Query r "provider_id")) as [p|]; [|malformed]. cbv beta iota.
  rewrite bind_run. destruct (call_latest p l w) as (w1 & o & E & Ed & L). rewrite E. destruct o as [[c ss]|].
  - rewrite bind_run. unfold CatalogService.GetProvider. rewrite call_lookup, Ed. unfold CatalogService.found.
    destruct (CatalogService.pg_GetProvider p (st_catalog (db w))) as [prov|] eqn:Ep; eexists _, _; (split; [reflexivity|]; split; [reflexivity|]); cbn.
    + exists p, l, c, ss, prov. auto 10.
    + right. split; [reflexivity|]. exists p, l. auto.
  - eexists _, _. split; [reflexivity|]. split; [exact Ed|]. right. split; [reflexivity|]. exists p, l. auto.
Qed.
End Latest.

(** ** Deviations *)

Section Deviations.
Context `{Env} `{CatalogService.Trig} `{CatalogService.Lookups} `{ReadModel.Database} `{Collection.CollectDeps} `{Bodies} `{Texts}.

(** Note: a location on the equator or on the prime meridian cannot be created: a
    coordinate of zero counts as a missing field. *)
Theorem equator_refused (r : Request) (p : option Respond.Principal) (now : Time) (w : World SiteTables) (q : CreateLocationRequest) (sign : bool) :
  decode_create (rq_Body r) = inr q -> cr_Latitude q = S754_zero sign \/ cr_Longitude q = S754_zero sign ->
  exists pb, reply r (h_CreateLocation r p now w).2 = Refusal [] pb /\ pr_Status pb = 422 /\ (h_CreateLocation r p now w).1 = w.
Proof.
  intros E Z. unfold h_CreateLocation. rewrite E. unfold bind_json. assert (N : exists f fs, create_missing q = f :: fs).
  { unfold create_missing, no_text. destruct Z as [-> | ->]; destruct (String.eqb (cr_Name q) ""); cbn; eauto.
    - destruct (no_number (cr_Latitude q) "Latitude"); cbn; eauto. }
  destruct N as (f & fs & ->). cbn. eexists. split; [reflexivity|]. auto.
Qed.

(** Note: the state says fresh while the age it reports is beyond the threshold it
    reports: between 75 minutes and three hours. *)
Theorem stale_served_as_fresh (c : ForecastCollection) (t now : Time) :
  fc_CompletedAt c = Some t -> 75 * Minute < Sub now t <= 180 * Minute ->
  fr_State (collectionFreshness c now) = "fresh" /\ fr_ThresholdSeconds (collectionFreshness c now) * 1000000000 < Sub now t.
Proof.
  intros E Ha. change (75 * Minute) with 4500000000000 in Ha. change (180 * Minute) with 10800000000000 in Ha.
  unfold collectionFreshness. rewrite E. change (24 * Hour) with 86400000000000. change (180 * Minute) with 10800000000000.
  replace (86400000000000 <? Sub now t) with false by (symmetry; apply Z.ltb_ge; lia).
  replace (10800000000000 <? Sub now t) with false by (symmetry; apply Z.ltb_ge; lia). split; [reflexivity|]. cbn [fr_ThresholdSeconds]. lia.
Qed.

(** Note: a status filter that is no label of the enum is answered as an internal error,
    and not as a validation error. *)
Theorem unknown_status_internal (r : Request) (w : World SiteTables) :
  Query r "provider_id" = "" -> Query r "location_id" = "" -> Query r "cursor" = "" -> Query r "status" <> "" ->
  Reader.status_known (Query r "status") = false ->
  exists pb, reply r (h_ListCollections r w).2 = Refusal [] pb /\ pr_Status pb = 500.
Proof.
  intros Ep El Ec Es Hs. apply String.eqb_neq in Es. unfold h_ListCollections, bindE. rewrite bind_run, queryUUID_run, Ep, String.eqb_refl. cbv beta iota.
  rewrite bind_run, queryUUID_run, El, Es, Ec, String.eqb_refl. cbv beta iota. rewrite bind_run.
  unfold call, attempt, zoom, Reader.ListCollections. rewrite bind_run. cbn [Reader.cl_Cursor Reader.cl_Status]. rewrite String.eqb_refl, bind_run.
  unfold dbexec, Reader.pg_List. cbn [Reader.cf_Status]. rewrite Hs. destruct (fault _); eexists; split; reflexivity.
Qed.
End Deviations.

(** ** A site with one administrator *)

Definition siteTrig : CatalogService.Trig := {| CatalogService.Sin := fun x => x; CatalogService.Cos := fun _ => f1; CatalogService.Atan2 := fun y _ => y |}.
Definition siteLookups : CatalogService.Lookups :=
  {| CatalogService.LoadLocation := fun z => String.eqb z "Asia/Kuala_Lumpur";
     CatalogService.ids_Parse := fun s => if Nat.eqb (String.length s) 36 then Uuid.parse_from 0 s else None |}.
Definition siteDatabase : ReadModel.Database := {| ReadModel.text_ltb := Uuid.str_ltb; ReadModel.calculated_at := fun _ => 0 |}.
Definition siteDeps : Collection.CollectDeps := CollectionProps.demo_deps Collection.OutcomePartial.
Definition muar : CreateLocationRequest := MkCreateRequest "Muar" (f64_of_Z 2) (f64_of_Z 102) "MY" "Asia/Kuala_Lumpur" false "".
Definition siteBodies : Bodies :=
  {| decode_create := fun b => match b with RawBody _ => inr muar | _ => inl "EOF" end;
     decode_name := fun _ => inl "EOF"; decode_status := fun _ => inl "EOF"; decode_config := fun _ => inl "EOF"; decode_trigger := fun _ => inl "EOF";
     required_error := fun _ => "required" |}.
Definition aliceVerifier : Identity.TokenVerifier :=
  {| Identity.Verify := fun now raw => if String.eqb raw "token" then inr (Identity.MkClaims "sub-alice" "alice@x" 99) else inl Identity.ErrInvalidToken |}.

Definition post_location : Request :=
  MkRequest "POST" "/api/v1/locations" "/api/v1/locations" [] [] [("Authorization", "Bearer token")] 0 "10.0.0.1" "req-1" (RawBody "muar").
Definition site : Site := MkSiteState ApiProps.quiet (MkSite CatalogProps.demo_catalog CollectionProps.demo_db).
Definition posted : Site * SiteResult :=
  @site_serve calm siteTrig siteLookups siteDatabase siteDeps siteBodies Credential.toy aliceVerifier ApiProps.plainTexts 9%N ApiProps.open_cfg
    post_location 5 CollectionProps.demo_clock site.

Lemma site_requests_audited_witness :
  length (CatalogService.t_locations (st_catalog (si_db posted.1))) = 4%nat /\
  exists ip c res o, Identity.p_Role ip = "admin" /\
    CatalogProps.cmd_actor c = MkActor (Some (Identity.p_UserID ip)) (Identity.p_Email ip) "10.0.0.1" /\
    posted.2 = Served (Answered (success_status c) (view_of res) o).
Proof.
  split; [vm_compute; reflexivity|]. destruct posted as [s' x] eqn:E.
  assert (L : length (CatalogService.t_locations (st_catalog (si_db s'))) = 4%nat) by (apply (f_equal fst) in E; cbn in E; rewrite <- E; vm_compute; reflexivity).
  destruct (@site_requests_audited calm siteTrig siteLookups siteDatabase siteDeps siteBodies Credential.toy aliceVerifier ApiProps.plainTexts 9%N
    ApiProps.open_cfg post_location 5 CollectionProps.demo_clock site s' x E) as [[Ec _]|(ip & c & res & o & _ & R & A & _ & X)].
  - rewrite Ec in L. vm_compute in L. discriminate.
  - exists ip, c, res, o. auto.
Defined.

Definition get_latest : Request :=
  MkRequest "GET" "/api/v1/forecasts/latest" "/api/v1/forecasts/latest" [] [("provider_id", Uuid.to_string 7); ("location_id", Uuid.to_string 9)] [] 0 "10.0.0.1" "req-2" Unreadable.
Definition collected : World SiteTables := MkWorld (MkSite
  (CatalogService.MkCatalog [1%N] [] [Collection.in_Provider CollectionProps.demo_input] [] []) (db CollectionProps.demo_run)) 0 0.

Lemma latest_forecast_served_witness : exists w' v o,
  @h_LatestForecast calm siteLookups get_latest (12 * Hour) collected = (w', Ok (inr (200, v, o))) /\
  (exists c ss, v = VForecast c ss /\ length ss = 2%nat) /\ db w' = db collected.
Proof.
  destruct (@latest_forecast_served calm calm_healthy siteLookups ApiProps.plainTexts get_latest (12 * Hour) collected) as (w' & x & E & Ed & _).
  assert (Ex : x = (@h_LatestForecast calm siteLookups get_latest (12 * Hour) collected).2) by now rewrite E.
  exists w'. rewrite E, Ex. eexists _, _. split; [|split; [eexists _, _; split; [reflexivity|]|exact Ed]]; vm_compute; reflexivity.
Defined.
End CatalogApiProps.
