(* ===== verification/Boot.v ===== *)
(** * Starting up ([cmd/forecastiq/seed.go], [internal/collection/registry.go], [internal/platform/health])

    The reference data seeded at every boot, the first administrator, the registry of
    provider adapters and the readiness checks.  Seeding runs its statements one by one,
    without a transaction.  Of a workspace the model keeps the id. *)

From Stdlib Require Import ZArith Lia Bool String.
From stdpp Require Import base list strings gmap.
From S2P Require Import Prelude Float64 GoTime Uuid Effects Keyset Catalog CatalogService CatalogProps Records Circuit Collection Credential Identity IdentityProps Respond.

Import Catalog CatalogService.
Local Open Scope string_scope.
Local Open Scope list_scope.
Local Open Scope Z_scope.

Module Boot.

(** ** domain/seed.go *)

Definition OpenMeteoProviderID : uuid := 16%N.
Definition OpenWeatherProviderID : uuid := 17%N.
Definition OpenMeteoConfigID : uuid := 32%N.
Definition OpenWeatherConfigID : uuid := 33%N.
Definition JohorBahruLocationID : uuid := 48%N.

Example seed_ids_text :
  Uuid.to_string SystemWorkspaceID = "00000000-0000-0000-0000-000000000001" /\ Uuid.to_string OpenMeteoProviderID = "00000000-0000-0000-0000-000000000010" /\
  Uuid.to_string OpenWeatherProviderID = "00000000-0000-0000-0000-000000000011" /\ Uuid.to_string OpenMeteoConfigID = "00000000-0000-0000-0000-000000000020" /\
  Uuid.to_string OpenWeatherConfigID = "00000000-0000-0000-0000-000000000021" /\ Uuid.to_string JohorBahruLocationID = "00000000-0000-0000-0000-000000000030".
Proof. vm_compute. repeat split. Qed.

(** ** seed.go *)

Definition seed_openmeteo (now : Time) : Provider :=
  MkProvider OpenMeteoProviderID "Open-Meteo" "open-meteo" "https://api.open-meteo.com" StatusActive "Weather data by Open-Meteo.com" "https://open-meteo.com/" now now.
Definition seed_openweather (now : Time) : Provider :=
  MkProvider OpenWeatherProviderID "OpenWeather" "openweather" "https://api.openweathermap.org" StatusActive "Weather data by OpenWeather" "https://openweathermap.org/" now now.
Definition seed_providers (now : Time) : list Provider := [seed_openmeteo now; seed_openweather now].

Definition seed_config (now : Time) : ProviderConfiguration :=
  MkConfiguration OpenMeteoConfigID SystemWorkspaceID OpenMeteoProviderID StatusActive "" DefaultSchedule "1.0.0" "unvalidated" now now.
Definition seed_ow_config (now : Time) : ProviderConfiguration :=
  MkConfiguration OpenWeatherConfigID SystemWorkspaceID OpenWeatherProviderID StatusDisabled "FIQ_PROVIDER_OPENWEATHER_API_KEY" (MkSchedule "hourly" 2) "1.0.0" "unvalidated" now now.

Definition seed_location (now : Time) : Location :=
  MkLocation JohorBahruLocationID SystemWorkspaceID "Johor Bahru" (f64_lit 14927 10000) (f64_lit 1037414 10000) "MY" "Asia/Kuala_Lumpur" StatusActive now now.

(** [INSERT INTO workspaces ... ON CONFLICT (id) DO UPDATE] *)
Definition pg_SeedWorkspace (d : CatalogTables) : CatalogTables * unit :=
  (MkCatalog (if bool_decide (SystemWorkspaceID ∈ t_workspaces d) then t_workspaces d else t_workspaces d ++ [SystemWorkspaceID])
     (t_locations d) (t_providers d) (t_configurations d) (t_audit d), tt).

Section Seed.
Context `{Env}.

Definition seed (now : Time) : M CatalogTables unit :=
  dbcall "seed workspace" pg_SeedWorkspace ;;;
  iterM (fun p => dbexec "seed provider" (pg_UpsertProvider p)) (seed_providers now) ;;;
  dbexec "seed configuration" (pg_SeedConfiguration (seed_config now)) ;;;
  dbexec "seed openweather configuration" (pg_SeedConfiguration (seed_ow_config now)) ;;;
  loc <-- query "seed location lookup" (pg_GetLocation JohorBahruLocationID) ;;
  match loc with
  | Some _ => ret tt
  | None =>
      r <-- dbexec "seed location" (pg_InsertLocation (seed_location now)) ;;
      match r with inl _ => throw "seed location" | inr _ => ret tt end
  end.

(** [INSERT INTO users ... ON CONFLICT (auth_subject) DO UPDATE SET role, status]; any
    other conflict is an error. *)
Definition promoted (u : Identity.User) : Identity.User :=
  Identity.MkUser (Identity.u_ID u) (Identity.u_WorkspaceID u) (Identity.u_AuthSubject u) (Identity.u_Email u) Identity.RoleAdmin "active"
    (Identity.u_DefaultLocationID u) (Identity.u_Preferences u) (Identity.u_CreatedAt u) (Identity.u_UpdatedAt u) (Identity.u_LastLoginAt u).

Definition pg_BootstrapAdmin (u : Identity.User) (d : Identity.IdTables) : option (Identity.IdTables * unit) :=
  if existsb (fun x => String.eqb (Identity.u_AuthSubject x) (Identity.u_AuthSubject u)) (Identity.it_users d)
  then Some (Identity.with_users d ((fun x => if String.eqb (Identity.u_AuthSubject x) (Identity.u_AuthSubject u) then promoted x else x) <$> Identity.it_users d), tt)
  else if existsb (fun x => N.eqb (Identity.u_ID x) (Identity.u_ID u) || String.eqb (Identity.u_Email x) (Identity.u_Email u)) (Identity.it_users d) then None
  else Some (Identity.with_users d (Identity.it_users d ++ [u]), tt).

Definition seedBootstrapAdmin (subject email : string) (now : Time) : M Identity.IdTables unit :=
  if String.eqb subject "" then ret tt
  else
    let email := if String.eqb email "" then "admin@forecastiq.local" else email in
    id <-- fresh ;;
    dbexec "seed bootstrap admin" (pg_BootstrapAdmin (Identity.MkUser id SystemWorkspaceID subject email Identity.RoleAdmin "active" None [] now now None)).
End Seed.

(** ** registry.go *)

(** An adapter with what it declares. *)
Record Registered := MkRegistered {
  rg_Slug : string; rg_SchemaVersion : string; rg_AdapterVersion : string; rg_SupportsReplay : bool; rg_Adapter : Collection.Adapter
}.

Abbreviation Registry := (gmap string Registered).
Definition NewRegistry : Registry := ∅.

Section Registry.
Context `{Respond.Texts}.

Definition Register (r : Registry) (a : option Registered) : string + Registry :=
  match a with
  | None => inl "provider registry: nil adapter"
  | Some a =>
      let slug := rg_Slug a in
      let named text := "provider registry: adapter " +:+ Respond.quoted slug +:+ text in
      if String.eqb slug "" then inl "provider registry: adapter has empty slug"
      else if String.eqb (rg_SchemaVersion a) "" then inl (named " has empty schema version")
      else if String.eqb (rg_AdapterVersion a) "" then inl (named " has empty adapter version")
      else if bool_decide (is_Some (r !! slug)) then inl (named " already registered")
      else if rg_SupportsReplay a && negb (bool_decide (is_Some (Collection.DecodeStored (rg_Adapter a))))
      then inl (named " declares replay support but does not implement ReplayDecoder")
      else inr (<[slug := a]> r)
  end.

Definition Adapters (r : Registry) : gmap string Collection.Adapter := rg_Adapter <$> r.
Definition Len (r : Registry) : nat := size r.

Record ProviderDescriptor := MkDescriptor { de_Slug : string; de_SchemaVersion : string; de_AdapterVersion : string; de_SupportsReplay : bool }.

Definition Descriptors (r : Registry) : list ProviderDescriptor :=
  stable_sort (fun a b => Uuid.str_ltb (de_Slug a) (de_Slug b))
    ((fun '(_, a) => MkDescriptor (rg_Slug a) (rg_SchemaVersion a) (rg_AdapterVersion a) (rg_SupportsReplay a)) <$> map_to_list r).

(** The wiring registers its adapters one after the other and stops at an error. *)
Fixpoint register_all (r : Registry) (l : list (option Registered)) : string + Registry :=
  match l with
  | [] => inr r
  | a :: l => match Register r a with inl e => inl e | inr r' => register_all r' l end
  end.
End Registry.

(** ** health.go, handlers/health.go *)

Record CheckResult := MkResult { cr_Name : string; cr_Healthy : bool; cr_Error : string }.

(** A check is its name and what running it gives: an error or none. *)
Definition RunAll (checks : list (string * option string)) : list CheckResult * bool :=
  foldl (fun '(rs, ok) '(name, err) =>
    match err with None => (rs ++ [MkResult name true ""], ok) | Some e => (rs ++ [MkResult name false e], false) end) ([], true) checks.

Definition h_Readyz (checks : list (string * option string)) : Z * string * list CheckResult :=
  let '(rs, ok) := RunAll checks in if ok then (200, "ready", rs) else (503, "not_ready", rs).

(** ** What seeding keeps *)

Definition seeded_ids : list uuid := [OpenMeteoProviderID; OpenWeatherProviderID].

(** A provider row through a seeding: only the two seeded rows are written, and they keep
    their id, slug and creation time. *)
Definition row_kept (p p' : Provider) : Prop :=
  p_ID p' = p_ID p /\ p_Slug p' = p_Slug p /\ p_CreatedAt p' = p_CreatedAt p /\ (p_ID p ∉ seeded_ids -> p' = p).

Record operator_kept (d d' : CatalogTables) : Prop := {
  ok_locations : t_locations d `prefix_of` t_locations d';
  ok_configurations : t_configurations d `prefix_of` t_configurations d';
  ok_audit : t_audit d' = t_audit d;
  ok_providers : exists ps new, t_providers d' = ps ++ new /\ Forall2 row_kept (t_providers d) ps;
}.

Lemma row_kept_refl p : row_kept p p.
Proof. now split_and!. Qed.

Lemma row_kept_trans p q r : row_kept p q -> row_kept q r -> row_kept p r.
Proof. intros (A & B & C & D) (A' & B' & C' & D'). split_and!; try congruence. intros N. rewrite D', D; auto. rewrite A. auto. Qed.

Lemma operator_kept_refl d : operator_kept d d.
Proof. constructor; try reflexivity. exists (t_providers d), []. rewrite app_nil_r. split; [reflexivity|]. apply Forall2_same_length_lookup_2; [reflexivity|]. intros i x y Hx Hy. rewrite Hx in Hy. injection Hy as ->. apply row_kept_refl. Qed.

Definition overwrite (p x : Provider) : Provider :=
  if N.eqb (p_ID x) (p_ID p)
  then MkProvider (p_ID x) (p_Name p) (p_Slug x) (p_APIBaseURL p) (p_Status p) (p_AttributionText p) (p_AttributionURL p) (p_CreatedAt x) (p_UpdatedAt p)
  else x.

Lemma overwrite_kept p x : p_ID p ∈ seeded_ids -> row_kept x (overwrite p x).
Proof. intros Hp. unfold overwrite. destruct (N.eqb_spec (p_ID x) (p_ID p)) as [E|E]; [|apply row_kept_refl]. split_and!; try reflexivity. intros N. now rewrite E in N. Qed.

(** What an upsert does to the providers. *)
Lemma upsert_cases p d d' u : pg_UpsertProvider p d = Some (d', u) ->
  (t_providers d' = overwrite p <$> t_providers d \/ (t_providers d' = t_providers d ++ [p] /\ p_ID p ∉ p_ID <$> t_providers d)) /\
  t_workspaces d' = t_workspaces d /\ t_locations d' = t_locations d /\ t_configurations d' = t_configurations d /\ t_audit d' = t_audit d.
Proof.
  unfold pg_UpsertProvider. destruct (negb _); [discriminate|]. destruct (existsb _ (t_providers d)) eqn:X.
  - intros [= <- _]. split; [now left|repeat split].
  - destruct (existsb (fun x => String.eqb _ _) _); [discriminate|]. intros [= <- _]. split; [right; split; [reflexivity|]|repeat split].
    intros (x & E & Hx)%list_elem_of_fmap. apply not_true_iff_false in X. apply X, existsb_exists. exists x. split; [now apply list_elem_of_In|].
    apply N.eqb_eq. congruence.
Qed.

Lemma upsert_kept d0 p d d' u : p_ID p ∈ seeded_ids -> operator_kept d0 d -> pg_UpsertProvider p d = Some (d', u) -> operator_kept d0 d'.
Proof.
  intros Hp [K1 K2 K3 (ps & new & E & F)] U. apply upsert_cases in U as ([Ep|[Ep _]] & _ & El & Ec & Ea).
  - constructor; [now rewrite El|now rewrite Ec|congruence|]. exists (overwrite p <$> ps), (overwrite p <$> new). rewrite Ep, E, fmap_app. split; [reflexivity|].
    apply Forall2_fmap_r. eapply Forall2_impl; [exact F|]. intros x y Hxy. eapply row_kept_trans; [exact Hxy|]. now apply overwrite_kept.
  - constructor; [now rewrite El|now rewrite Ec|congruence|]. exists ps, (new ++ [p]). rewrite Ep, E, app_assoc. auto.
Qed.

Lemma config_kept d0 c d d' u : operator_kept d0 d -> pg_SeedConfiguration c d = Some (d', u) -> operator_kept d0 d'.
Proof.
  intros [K1 K2 K3 K4]. unfold pg_SeedConfiguration. destruct (existsb _ _); [now intros [= <- _]|]. destruct (config_check d c); [|discriminate].
  intros [= <- _]. constructor; cbn; auto. now apply prefix_app_r.
Qed.

Section Seeding.
Context `{Env}.

Lemma preserves_seed d0 now : preserves (operator_kept d0) (seed now).
Proof.
  unfold seed. apply preserves_bind; [apply preserves_dbcall; intros d []; constructor; auto|]. intros _.
  apply preserves_bind.
  { unfold seed_providers. cbn [iterM foldr]. apply preserves_bind; [apply preserves_dbexec; intros d d' a; apply upsert_kept; set_solver|]. intros _.
    apply preserves_bind; [apply preserves_dbexec; intros d d' a; apply upsert_kept; set_solver|]. intros _. apply preserves_ret. }
  intros _. apply preserves_bind; [apply preserves_dbexec; intros d d' a; apply config_kept|]. intros _.
  apply preserves_bind; [apply preserves_dbexec; intros d d' a; apply config_kept|]. intros _.
  apply preserves_bind; [apply preserves_query|]. intros [l|]; [apply preserves_ret|].
  apply preserves_bind; [apply preserves_dbexec; intros d d' a|intros [e|[]]; [apply preserves_throw|apply preserves_ret]].
  intros [K1 K2 K3 K4]. unfold pg_InsertLocation. destruct (name_taken _ _); [now intros [= <- _]|]. destruct (_ || _); [discriminate|].
  intros [= <- _]. constructor; cbn; auto. now apply prefix_app_r.
Qed.

(** Note: seeding, complete or cut short by any failure, keeps what operators made:
    locations, configurations and the audit log only grow, and of the providers only
    the two seeded rows are written, never their id, slug or creation time. *)
Theorem seed_keeps_operator_rows (now : Time) (w : World CatalogTables) : operator_kept (db w) (db (seed now w).1).
Proof. apply preserves_seed, operator_kept_refl. Qed.
End Seeding.

(** ** Seeding again *)

(** The row of the seeded provider [p], up to its slug and times. *)
Definition is_seed (p x : Provider) : Prop :=
  p_ID x = p_ID p -> x = MkProvider (p_ID p) (p_Name p) (p_Slug x) (p_APIBaseURL p) (p_Status p) (p_AttributionText p) (p_AttributionURL p) (p_CreatedAt x) (p_UpdatedAt x).

Definition holds_seed (p : Provider) (d : CatalogTables) : Prop := p_ID p ∈ p_ID <$> t_providers d /\ Forall (is_seed p) (t_providers d).

Definition touch (now : Time) (x : Provider) : Provider :=
  if bool_decide (p_ID x ∈ seeded_ids)
  then MkProvider (p_ID x) (p_Name x) (p_Slug x) (p_APIBaseURL x) (p_Status x) (p_AttributionText x) (p_AttributionURL x) (p_CreatedAt x) now
  else x.

Record seeded (d : CatalogTables) : Prop := {
  sd_workspace : SystemWorkspaceID ∈ t_workspaces d;
  sd_openmeteo : holds_seed (seed_openmeteo 0) d;
  sd_openweather : holds_seed (seed_openweather 0) d;
  sd_config : OpenMeteoConfigID ∈ cfg_ID <$> t_configurations d;
  sd_ow_config : OpenWeatherConfigID ∈ cfg_ID <$> t_configurations d;
  sd_location : is_Some (pg_GetLocation JohorBahruLocationID d);
}.

Lemma overwrite_id p x : p_ID (overwrite p x) = p_ID x.
Proof. unfold overwrite. now destruct (N.eqb _ _). Qed.

Lemma overwrite_seed p x : is_seed p (overwrite p x).
Proof. unfold is_seed, overwrite. destruct (N.eqb_spec (p_ID x) (p_ID p)) as [E|E]; cbn; intros E'; [now rewrite E|contradiction]. Qed.

Lemma overwrite_other p q x : p_ID p <> p_ID q -> is_seed p x -> is_seed p (overwrite q x).
Proof. intros N Hx E. unfold overwrite in *. destruct (N.eqb_spec (p_ID x) (p_ID q)) as [E'|E']; [cbn in E; congruence|auto]. Qed.

Lemma upsert_holds p d d' u : pg_UpsertProvider p d = Some (d', u) -> holds_seed p d'.
Proof.
  intros U. pose proof (upsert_cases _ _ _ _ U) as ([Ep|[Ep N]] & _); unfold holds_seed; rewrite Ep.
  - split; [|apply Forall_fmap, Forall_forall; intros x _; apply overwrite_seed].
    unfold pg_UpsertProvider in U. destruct (negb _); [discriminate|]. destruct (existsb _ (t_providers d)) eqn:X.
    + apply existsb_exists in X as (x & Hx%list_elem_of_In & E%N.eqb_eq). rewrite <- E, <- (overwrite_id p x). now apply list_elem_of_fmap_2, list_elem_of_fmap_2.
    + destruct (existsb (fun x => String.eqb _ _) _); [discriminate|]. injection U as <-. cbn in Ep. rewrite <- Ep, fmap_app. cbn. set_solver.
  - split; [rewrite fmap_app; cbn; set_solver|]. apply Forall_app. split; [|repeat constructor; now destruct p].
    apply Forall_forall. intros x Hx E. destruct N. rewrite <- E. now apply list_elem_of_fmap_2.
Qed.

Lemma upsert_other p q d d' u : p_ID p <> p_ID q -> holds_seed p d -> pg_UpsertProvider q d = Some (d', u) -> holds_seed p d'.
Proof.
  intros N [Hi Hf] U. apply upsert_cases in U as ([E|[E _]] & _); unfold holds_seed; rewrite E.
  - split; [|apply Forall_fmap; eapply Forall_impl; [exact Hf|]; intros x; now apply overwrite_other].
    rewrite <- list_fmap_compose. erewrite list_fmap_ext; [exact Hi|]. intros i x _. apply overwrite_id.
  - split; [rewrite fmap_app; set_solver|]. apply Forall_app. split; [exact Hf|]. repeat constructor. intros E'. now destruct N.
Qed.

Lemma config_in c d d' u : pg_SeedConfiguration c d = Some (d', u) -> cfg_ID c ∈ cfg_ID <$> t_configurations d'.
Proof.
  unfold pg_SeedConfiguration. destruct (existsb _ _) eqn:X.
  - intros [= <- _]. apply existsb_exists in X as (x & Hx%list_elem_of_In & E%N.eqb_eq). rewrite <- E. now apply list_elem_of_fmap_2.
  - destruct (config_check d c); [|discriminate]. intros [= <- _]. cbn. rewrite fmap_app. cbn. set_solver.
Qed.

Section Again.
Context `{Env}.

(** The tables other than the providers, as far as seeding is concerned. *)
Lemma upsert_rest p d d' u : pg_UpsertProvider p d = Some (d', u) ->
  t_workspaces d' = t_workspaces d /\ t_locations d' = t_locations d /\ t_configurations d' = t_configurations d.
Proof. intros (_ & A & B & C & _)%upsert_cases. auto. Qed.

Lemma config_rest c d d' u : pg_SeedConfiguration c d = Some (d', u) ->
  t_workspaces d' = t_workspaces d /\ t_providers d' = t_providers d /\ t_locations d' = t_locations d /\ t_configurations d `prefix_of` t_configurations d'.
Proof.
  unfold pg_SeedConfiguration. destruct (existsb _ _); [now intros [= <- _]|]. destruct (config_check d c); [|discriminate].
  intros [= <- _]. split_and!; try reflexivity. cbn. now apply prefix_app_r.
Qed.

Lemma location_in d d' now : pg_InsertLocation (seed_location now) d = Some (d', inr tt) ->
  t_workspaces d' = t_workspaces d /\ t_providers d' = t_providers d /\ t_configurations d' = t_configurations d /\
  is_Some (pg_GetLocation JohorBahruLocationID d').
Proof.
  unfold pg_InsertLocation. destruct (name_taken _ _); [discriminate|]. destruct (_ || _); [discriminate|]. intros [= <-].
  split_and!; try reflexivity. unfold pg_GetLocation. cbn [t_locations with_locations].
  induction (t_locations d) as [|l ls IH]; cbn; [eauto|]. destruct (N.eqb _ _); eauto.
Qed.

(** A seeding that ends well leaves the tables seeded. *)
Lemma seed_seeded now w w' u : seed now w = (w', Ok u) -> seeded (db w').
Proof.
  unfold seed. intros (w1 & [] & E1 & E)%bind_ok. apply CatalogProps.dbcall_ok, (f_equal fst) in E1 as W1. cbn [fst] in W1.
  apply bind_ok in E as (w2 & [] & E2 & E). cbn [iterM seed_providers foldr] in E2. apply bind_ok in E2 as (wa & [] & Ea%CatalogProps.dbexec_ok & E2).
  apply bind_ok in E2 as (wb & [] & Eb%CatalogProps.dbexec_ok & E2). apply CatalogProps.ret_ok in E2 as [-> _].
  apply bind_ok in E as (w3 & [] & E3%CatalogProps.dbexec_ok & E). apply bind_ok in E as (w4 & [] & E4%CatalogProps.dbexec_ok & E).
  apply bind_ok in E as (w5 & loc & [W5 Eloc]%CatalogProps.query_ok & E).
  pose proof (upsert_holds _ _ _ _ Ea) as Ha. assert (Ha' : holds_seed (seed_openmeteo now) (db wb)) by (eapply upsert_other; [|exact Ha|exact Eb]; discriminate).
  pose proof (upsert_holds _ _ _ _ Eb) as Hb. apply upsert_rest in Ea as (A1 & _ & _). apply upsert_rest in Eb as (B1 & _ & _).
  pose proof (config_in _ _ _ _ E3) as C3. pose proof (config_in _ _ _ _ E4) as C4.
  apply config_rest in E3 as (X1 & X2 & _ & _). apply config_rest in E4 as (Y1 & Y2 & _ & Y4).
  assert (Ws : SystemWorkspaceID ∈ t_workspaces (db w4)).
  { rewrite Y1, X1, B1, A1, <- W1. cbn. case_bool_decide; [assumption|set_solver]. }
  assert (C3' : OpenMeteoConfigID ∈ cfg_ID <$> t_configurations (db w4)).
  { destruct Y4 as [k ->]. rewrite fmap_app. apply elem_of_app. left. exact C3. }
  unfold holds_seed in Ha', Hb. rewrite <- X2, <- Y2 in Ha', Hb. rewrite <- W5 in *.
  destruct loc as [l|].
  - apply CatalogProps.ret_ok in E as [-> _]. constructor; try assumption. rewrite <- Eloc. eauto.
  - apply bind_ok in E as (w6 & r & E6%CatalogProps.dbexec_ok & E). destruct r as [e|[]]; [discriminate|]. apply CatalogProps.ret_ok in E as [-> _].
    apply location_in in E6 as (Z1 & Z2 & Z3 & Z4). constructor; unfold holds_seed; rewrite ?Z1, ?Z2, ?Z3; assumption.
Qed.
End Again.

Section Rerun.
Context `{Healthy}.

Lemma dbexec_run {D A} op (f : D -> option (D * A)) t n d0 d a : f d0 = Some (d, a) -> dbexec op f (MkWorld d0 t n) = (MkWorld d (S t) n, Ok a).
Proof. intros E. unfold dbexec. rewrite healthy. cbn [db]. now rewrite E. Qed.

Lemma in_ids {A} (f : A -> uuid) (l : list A) id : id ∈ f <$> l -> existsb (fun x => N.eqb (f x) id) l = true.
Proof. intros (x & -> & Hx)%list_elem_of_fmap. apply existsb_exists. exists x. split; [now apply list_elem_of_In|]. apply N.eqb_refl. Qed.

Lemma upsert_again p d : Status_Valid (p_Status p) = true -> holds_seed p d ->
  pg_UpsertProvider p d = Some (with_providers d (overwrite p <$> t_providers d), tt).
Proof. intros V [Hi _]. unfold pg_UpsertProvider. rewrite V. cbn. now rewrite (in_ids p_ID _ _ Hi). Qed.

Lemma config_again c d : cfg_ID c ∈ cfg_ID <$> t_configurations d -> pg_SeedConfiguration c d = Some (d, tt).
Proof. intros Hi. unfold pg_SeedConfiguration. now rewrite (in_ids cfg_ID _ _ Hi). Qed.

(** Overwriting a seeded row with its seed touches its time only. *)
Lemma overwrite_touch now x : is_seed (seed_openmeteo 0) x -> is_seed (seed_openweather 0) x ->
  overwrite (seed_openweather now) (overwrite (seed_openmeteo now) x) = touch now x.
Proof.
  unfold is_seed. cbn. intros A B. unfold overwrite, touch, seeded_ids. cbn [p_ID seed_openmeteo seed_openweather].
  destruct (N.eqb_spec (p_ID x) OpenMeteoProviderID) as [E|N1].
  - rewrite bool_decide_true by (rewrite E; set_solver). cbn [p_ID]. rewrite E. cbn. specialize (A E). now rewrite A.
  - destruct (N.eqb_spec (p_ID x) OpenWeatherProviderID) as [E|N2].
    + rewrite bool_decide_true by (rewrite E; set_solver). specialize (B E). now rewrite B.
    + rewrite bool_decide_false by set_solver. reflexivity.
Qed.

(** On seeded tables a seeding succeeds and touches only the two provider rows' times. *)
Lemma seed_again now w : seeded (db w) -> exists w', seed now w = (w', Ok tt) /\
  db w' = MkCatalog (t_workspaces (db w)) (t_locations (db w)) (touch now <$> t_providers (db w)) (t_configurations (db w)) (t_audit (db w)).
Proof.
  intros [Ws [Ia Fa] [Ib Fb] C1 C2 [l L]]. unfold seed. rewrite bind_run, dbcall_healthy. cbn [pg_SeedWorkspace fst snd].
  rewrite (bool_decide_true _ Ws). set (d := db w). set (d1 := MkCatalog _ _ _ _ _). rewrite bind_run. cbn [iterM seed_providers foldr].
  assert (U1 : pg_UpsertProvider (seed_openmeteo now) d1 = Some (with_providers d1 (overwrite (seed_openmeteo now) <$> t_providers d1), tt))
    by (apply upsert_again; [reflexivity|split; assumption]).
  rewrite bind_run, (dbexec_run _ _ _ _ _ _ _ U1). set (d2 := with_providers d1 _).
  assert (U2 : pg_UpsertProvider (seed_openweather now) d2 = Some (with_providers d2 (overwrite (seed_openweather now) <$> t_providers d2), tt)).
  { apply upsert_again; [reflexivity|]. apply (upsert_other (seed_openweather now) (seed_openmeteo now) d1 d2 tt); [discriminate|split; assumption|exact U1]. }
  rewrite bind_run, (dbexec_run _ _ _ _ _ _ _ U2). set (d3 := with_providers d2 _). cbn [ret].
  rewrite bind_run. unfold ret at 1. rewrite (dbexec_run _ _ _ _ d3 d3 tt) by now apply config_again.
  rewrite bind_run, (dbexec_run _ _ _ _ d3 d3 tt) by now apply config_again. rewrite bind_run, query_healthy. cbn [db].
  change (pg_GetLocation JohorBahruLocationID d3) with (pg_GetLocation JohorBahruLocationID d). unfold d in *. rewrite L. eexists. split; [reflexivity|].
  cbn [db]. unfold d3, d2, with_providers. cbn. f_equal. rewrite <- list_fmap_compose. apply list_fmap_ext. intros i x Hx%list_elem_of_lookup_2. cbn.
  apply overwrite_touch; [exact (proj1 (Forall_forall _ _) Fa x Hx)|exact (proj1 (Forall_forall _ _) Fb x Hx)].
Qed.

(** Note: seeding is idempotent: once it has succeeded, every later boot's seeding succeeds
    when nothing fails, and changes nothing but the update time of the two seeded
    providers, as long as nobody else writes in between. *)
Theorem seed_idempotent (now now' : Time) (w w1 : World CatalogTables) : seed now w = (w1, Ok tt) ->
  exists w2, seed now' w1 = (w2, Ok tt) /\
    t_workspaces (db w2) = t_workspaces (db w1) /\ t_locations (db w2) = t_locations (db w1) /\ t_configurations (db w2) = t_configurations (db w1) /\
    t_audit (db w2) = t_audit (db w1) /\ t_providers (db w2) = touch now' <$> t_providers (db w1).
Proof. intros E%seed_seeded. destruct (seed_again now' w1 E) as (w2 & E2 & D). exists w2. rewrite D. now split_and!. Qed.
End Rerun.

(** Note: a provider that an operator disabled is active again after the seeding of the
    next boot: the upsert writes the status, too. *)
Theorem reseed_reactivates `{Env} (now : Time) (w w' : World CatalogTables) (p : Provider) :
  seed now w = (w', Ok tt) -> p ∈ t_providers (db w') -> p_ID p ∈ seeded_ids -> p_Status p = StatusActive.
Proof.
  intros S%seed_seeded Hp Hi. destruct (sd_openmeteo _ S) as [_ A]. destruct (sd_openweather _ S) as [_ B].
  rewrite Forall_forall in A, B. specialize (A p Hp). specialize (B p Hp). unfold is_seed in A, B. cbn in A, B.
  unfold seeded_ids in Hi. apply elem_of_cons in Hi as [E|Hi]; [now rewrite (A E)|]. apply list_elem_of_singleton in Hi. now rewrite (B Hi).
Qed.

(** ** The first administrator *)

Lemma bootstrap_users u d d' x : pg_BootstrapAdmin u d = Some (d', x) ->
  (exists a, a ∈ Identity.it_users d' /\ Identity.u_AuthSubject a = Identity.u_AuthSubject u /\ (a = u \/ exists o, a = promoted o)) /\
  (forall o, o ∈ Identity.it_users d -> Identity.u_AuthSubject o <> Identity.u_AuthSubject u -> o ∈ Identity.it_users d').
Proof.
  unfold pg_BootstrapAdmin. destruct (existsb _ _) eqn:X.
  - intros [= <- _]. cbn. apply existsb_exists in X as (o & Ho%list_elem_of_In & E). split.
    + exists (promoted o). split_and!; [|cbn; now apply String.eqb_eq|eauto]. apply list_elem_of_fmap. exists o. now rewrite E.
    + intros y Hy N. apply list_elem_of_fmap. exists y. now rewrite (proj2 (String.eqb_neq _ _) N).
  - clear X. destruct (existsb _ _); [discriminate|]. intros [= <- _]. cbn. split; [exists u; split_and!; [set_solver|reflexivity|auto]|]. intros o Ho _. set_solver.
Qed.

Lemma bootstrap_ok u d d' x : IdentityProps.id_ok d -> pg_BootstrapAdmin u d = Some (d', x) -> IdentityProps.id_ok d'.
Proof.
  intros I. unfold pg_BootstrapAdmin. destruct (existsb _ _) eqn:X.
  - intros [= <- _]. revert I. unfold IdentityProps.id_ok, IdentityProps.users_ok. cbn. now rewrite !(IdentityProps.column_kept _ _ promoted) by reflexivity.
  - destruct (existsb (fun x => _ || _) _) eqn:Y; [discriminate|]. intros [= <- _].
    apply (IdentityProps.insert_user_ok u d); [exact I|]. unfold Identity.pg_InsertUser.
    replace (existsb _ (Identity.it_users d)) with false; [reflexivity|]. symmetry. apply not_true_iff_false. intros (y & Hy & E)%existsb_exists.
    apply list_elem_of_In in Hy. pose proof (IdentityProps.existsb_false _ _ X y Hy) as A. pose proof (IdentityProps.existsb_false _ _ Y y Hy) as B. cbn in A, B.
    apply orb_false_iff in B as [B1 B2]. apply orb_true_iff in E as [[E|E]%orb_true_iff|E]; [|congruence|congruence].
    apply bool_decide_eq_true in E. rewrite E, N.eqb_refl in B1. discriminate.
Qed.

(** Note: the bootstrap either fails and leaves the users alone, or the configured subject
    is an active administrator afterwards and every other user is as before; the
    identity tables stay consistent. *)
Theorem bootstrap_admin `{Env} (subject email : string) (now : Time) (w : World Identity.IdTables) : subject <> "" ->
  let '(w', x) := seedBootstrapAdmin subject email now w in
  (IdentityProps.id_ok (db w) -> IdentityProps.id_ok (db w')) /\
  match x with
  | Error _ => db w' = db w
  | Ok _ => (exists a, a ∈ Identity.it_users (db w') /\ Identity.u_AuthSubject a = subject /\ Identity.u_Role a = "admin" /\ Identity.u_Status a = "active") /\
      (forall o, o ∈ Identity.it_users (db w) -> Identity.u_AuthSubject o <> subject -> o ∈ Identity.it_users (db w'))
  end.
Proof.
  intros N. unfold seedBootstrapAdmin. rewrite (proj2 (String.eqb_neq _ _) N). cbv zeta. unfold bind, fresh. set (u := Identity.MkUser _ _ _ _ _ _ _ _ _ _ _).
  unfold dbexec. cbn [db tick nids]. destruct (fault _); [auto|]. destruct (pg_BootstrapAdmin u (db w)) as [[d' []]|] eqn:E; cbn [db]; [|auto].
  split; [intros I; eapply bootstrap_ok; eauto|]. destruct (bootstrap_users _ _ _ _ E) as [(a & Ha & Es & [->|[o ->]]) K].
  - split; [exists u; auto|exact K].
  - split; [exists (promoted o); auto|exact K].
Qed.

(** ** The registry *)

Section Adapters.
Context `{Respond.Texts}.

Definition entry_ok (slug : string) (a : Registered) : Prop :=
  rg_Slug a = slug /\ slug <> "" /\ rg_SchemaVersion a <> "" /\ rg_AdapterVersion a <> "" /\
  (rg_SupportsReplay a = true -> is_Some (Collection.DecodeStored (rg_Adapter a))).

Lemma Register_ok r a r' : Register r a = inr r' -> exists x, a = Some x /\ entry_ok (rg_Slug x) x /\ r !! rg_Slug x = None /\ r' = <[rg_Slug x := x]> r.
Proof.
  unfold Register. destruct a as [x|]; [cbv zeta|discriminate]. destruct (String.eqb_spec (rg_Slug x) "") as [|N1]; [discriminate|].
  destruct (String.eqb_spec (rg_SchemaVersion x) "") as [|N2]; [discriminate|]. destruct (String.eqb_spec (rg_AdapterVersion x) "") as [|N3]; [discriminate|].
  case_bool_decide as Du; [discriminate|]. destruct (rg_SupportsReplay x && _) eqn:Re; [discriminate|]. intros [= <-]. exists x.
  unfold entry_ok. split_and!; try reflexivity; try assumption; [|now apply eq_None_not_Some]. intros Su. rewrite Su in Re. cbn in Re.
  apply negb_false_iff, bool_decide_eq_true in Re. exact Re.
Qed.

Lemma register_all_ok l : forall r r', register_all r l = inr r' ->
  exists xs, l = Some <$> xs /\ NoDup (rg_Slug <$> xs) /\ Forall (fun x => entry_ok (rg_Slug x) x /\ r !! rg_Slug x = None) xs /\
    (forall s a, r' !! s = Some a <-> r !! s = Some a \/ (a ∈ xs /\ rg_Slug a = s)).
Proof.
  induction l as [|a l IH]; intros r r'; cbn.
  - intros [= <-]. exists []. split_and!; [reflexivity|constructor|constructor|]. intros s a. split; [auto|]. intros [|[Ha _]]; [assumption|now apply not_elem_of_nil in Ha].
  - destruct (Register r a) as [|r1] eqn:E; [discriminate|]. apply Register_ok in E as (x & -> & Ok & Fr & ->). intros R.
    destruct (IH _ _ R) as (xs & -> & Nd & Fa & L). exists (x :: xs). rewrite Forall_forall in Fa. split_and!; [reflexivity| | |].
    + rewrite fmap_cons. apply NoDup_cons. split; [|exact Nd]. intros (y & Ey & Hy)%list_elem_of_fmap. destruct (Fa y Hy) as [_ F].
      rewrite <- Ey, lookup_insert_eq in F. discriminate.
    + apply Forall_cons. split; [auto|]. apply Forall_forall. intros y Hy. destruct (Fa y Hy) as [Oy F]. split; [exact Oy|].
      destruct (decide (rg_Slug x = rg_Slug y)) as [Ey|Ny]; [now rewrite Ey, lookup_insert_eq in F|now rewrite lookup_insert_ne in F].
    + intros s a. rewrite L, lookup_insert_Some, elem_of_cons. split.
      * intros [[[<- <-]|[N F]]|[Ha Es]]; auto.
      * intros [F|[[->|Ha] Es]]; [|subst; auto|auto]. left. right. split; [|exact F]. intros <-. congruence.
Qed.

(** Note: a start-up that registers its adapters without an error has each of them under
    its own slug and nothing else, every version named, and a decoder behind every
    declared replay support, so that the workflows find by slug what was wired. *)
Theorem registry_sound (l : list (option Registered)) (r : Registry) : register_all NewRegistry l = inr r ->
  exists xs, l = Some <$> xs /\ NoDup (rg_Slug <$> xs) /\
    forall s ad, Adapters r !! s = Some ad <-> exists a, a ∈ xs /\ rg_Adapter a = ad /\ entry_ok s a.
Proof.
  intros (xs & -> & Nd & Fa & L)%register_all_ok. exists xs. split_and!; [reflexivity|exact Nd|]. intros s ad. unfold Adapters.
  rewrite lookup_fmap_Some. rewrite Forall_forall in Fa. split.
  - intros (a & <- & Ha). apply L in Ha as [Ha|[Ha <-]]; [discriminate (eq_trans (eq_sym Ha) (lookup_empty _))|]. exists a. split_and!; auto. now apply Fa.
  - intros (a & Ha & <- & Ok). exists a. split; [reflexivity|]. apply L. right. split; [exact Ha|]. now destruct Ok.
Qed.
End Adapters.

(** ** Readiness *)

Lemma RunAll_spec checks : forall rs ok, foldl (fun '(rs, ok) '(name, err) =>
    match err with None => (rs ++ [MkResult name true ""], ok) | Some e => (rs ++ [MkResult name false e], false) end) (rs, ok) checks =
  (rs ++ ((fun '(name, err) => match err with None => MkResult name true "" | Some e => MkResult name false e end) <$> checks),
   ok && forallb (fun c => bool_decide (c.2 = None)) checks).
Proof.
  induction checks as [|[name [e|]] checks IH]; intros rs ok; cbn; [now rewrite app_nil_r, andb_true_r| |]; rewrite IH, <- app_assoc; cbn; f_equal.
  now rewrite andb_false_r.
Qed.

(** The service is ready when every check passes. *)
Lemma readyz_exact checks : (h_Readyz checks).1.1 = 200 <-> Forall (fun c => c.2 = None) checks.
Proof.
  unfold h_Readyz, RunAll. rewrite RunAll_spec. cbn [andb]. destruct (forallb _ checks) eqn:E; cbn.
  - split; [intros _|reflexivity]. apply Forall_forall. intros c Hc%list_elem_of_In. rewrite forallb_forall in E. exact (proj1 (bool_decide_eq_true _) (E c Hc)).
  - split; [discriminate|]. intros F. exfalso. apply not_true_iff_false in E. apply E, forallb_forall. intros c Hc%list_elem_of_In.
    apply bool_decide_eq_true. exact (proj1 (Forall_forall _ _) F c Hc).
Qed.

(** ** A first boot, and a second one after an operator disabled a provider *)

Definition first_boot : World CatalogTables := (seed 5 (MkWorld (MkCatalog [] [] [] [] []) 0 0)).1.
Definition disabled : World CatalogTables :=
  (CatalogService.SetProviderStatus OpenMeteoProviderID StatusDisabled (MkActor None "op" "") 6 first_boot).1.

Lemma seed_idempotent_witness :
  length (t_locations (db first_boot)) = 1%nat /\ exists w2, seed 9 first_boot = (w2, Ok tt) /\ t_locations (db w2) = t_locations (db first_boot).
Proof.
  split; [vm_compute; reflexivity|].
  destruct (@seed_idempotent calm calm_healthy 5 9 (MkWorld (MkCatalog [] [] [] [] []) 0 0) first_boot) as (w2 & E & _ & L & _); [vm_compute; reflexivity|].
  exists w2. split; [exact E|exact L].
Defined.

Example reactivated :
  p_Status <$> t_providers (db disabled) = [StatusDisabled; StatusActive] /\ p_Status <$> t_providers (db (seed 9 disabled).1) = [StatusActive; StatusActive].
Proof. vm_compute. split; reflexivity. Qed.
End Boot.
