(* ===== verification/Admin.v ===== *)
(** * Operations ([internal/admin], [adminpg], [handlers/admin_health.go], [admin_recompute.go])

    The collection-health view, assembled from the tables of the other components, and
    the on-demand recompute with its audit record.  The queries are those of [adminpg];
    the session works in UTC.  Volume statistics and the backup file are what their
    readers return, an error or a value. *)

From Stdlib Require Import ZArith Lia Bool String.
From stdpp Require Import base list strings pretty gmap.
From S2P Require Import Prelude Float64 GoTime Uuid GoStrings Effects Versioned Records Circuit Aggregate Catalog CatalogService ReadModel Collection CollectionProps Observe Scheduler Reader Credential Identity IdentityProps Limiter Respond Api Dashboard.

Import Catalog Records Circuit Respond.
Local Open Scope string_scope.
Local Open Scope list_scope.
Local Open Scope Z_scope.

Module Admin.

(** ** health.go *)

Record CellHealth := MkCellHealth {
  ch_ProviderID : uuid; ch_ProviderName : string; ch_ProviderSlug : string; ch_LocationID : uuid; ch_LocationName : string;
  ch_LastSuccessAt : option Time; ch_LastStatus : string; ch_NextScheduledAt : option Time
}.

Record CircuitHealth := MkCircuitHealth {
  ci_ProviderID : uuid; ci_ProviderName : string; ci_State : string; ci_ConsecutiveFailures : Z; ci_NextProbeAt : option Time
}.

Record ObservationLocation := MkObservationLocation {
  ol_LocationID : uuid; ol_LocationName : string; ol_LastObservedAt : option Time; ol_SuspectCount24h : Z
}.

Record VolumeUsage := MkVolumeUsage { vu_UsedBytes : Z; vu_TotalBytes : Z; vu_UsedPct : float64 }.
Record BackupStatus := MkBackupStatus { bs_CompletedAt : option Time; bs_Status : string }.

Record Health := MkHealth {
  he_Cells : list CellHealth;
  he_Circuits : list CircuitHealth;
  he_ObservationLocations : list ObservationLocation;
  he_Volume : option VolumeUsage;
  he_EngineLagSeconds : option Z;
  he_LastBackup : option BackupStatus;
  he_LastRestoreTest : option BackupStatus;
  he_GeneratedAt : Time
}.

(** ** adminpg *)

Record HealthTables := MkHealthTables {
  ht_providers : list Provider;
  ht_locations : list Location;
  ht_configurations : list ProviderConfiguration;
  ht_collections : list ForecastCollection;
  ht_circuits : CircuitTable;
  ht_slots : list Scheduler.Slot;
  ht_observations : list Observation;
  ht_metrics : list Aggregate.StoredMetric
}.

(** A forecast slot of the location under a configuration of the provider. *)
Definition config_of (d : HealthTables) (id : uuid) : option ProviderConfiguration := List.find (fun c => N.eqb (cfg_ID c) id) (ht_configurations d).

Definition forecast_slot_of (d : HealthTables) (s : Scheduler.Slot) : option (uuid * uuid) :=
  if String.eqb (Scheduler.sl_JobType s) "forecast_collection"
  then c ← config_of d (Scheduler.sl_ProviderConfigurationID s); l ← Scheduler.sl_LocationID s; Some (cfg_ProviderID c, l)
  else None.

(** [SELECT DISTINCT ... UNION SELECT DISTINCT ...] *)
Definition cell_keys (d : HealthTables) : list (uuid * uuid) :=
  remove_dups (((fun c => (fc_ProviderID c, fc_LocationID c)) <$> ht_collections d) ++ omap (forecast_slot_of d) (ht_slots d)).

Definition of_cell (p l : uuid) (c : ForecastCollection) : bool := N.eqb (fc_ProviderID c) p && N.eqb (fc_LocationID c) l.

Definition last_success (p l : uuid) (d : HealthTables) : option Time :=
  ReadModel.max_of (omap fc_CompletedAt (List.filter (fun c => of_cell p l c && Successful (fc_Status c)) (ht_collections d))).

Definition last_status (p l : uuid) (d : HealthTables) : string :=
  default "" ((fun c => Reader.status_text (fc_Status c)) <$> head (stable_sort Reader.newest_first (List.filter (of_cell p l) (ht_collections d)))).

Definition pending (s : Scheduler.Slot) : bool :=
  match Scheduler.sl_Status s with Scheduler.SlotDue | Scheduler.SlotClaimed => true | _ => false end.

Definition next_slot (p l : uuid) (now : Time) (d : HealthTables) : option Time :=
  ReadModel.min_of (Scheduler.sl_SlotTime <$> List.filter (fun s =>
    bool_decide (forecast_slot_of d s = Some (p, l)) && (now <? Scheduler.sl_SlotTime s) && pending s) (ht_slots d)).

(** The next minute of the hourly schedule. *)
Definition derived_next (sch : Schedule) (now : Time) : Time :=
  let t := Add (Truncate now Hour) (MinuteOffset sch * Minute) in
  if now <? t then t else Add (Add (Truncate now Hour) Hour) (MinuteOffset sch * Minute).

Definition scheduled_next (p : uuid) (now : Time) (d : HealthTables) : option Time :=
  (fun c => derived_next (cfg_CollectionSchedule c) now)
  <$> head (stable_sort (fun a b => cfg_CreatedAt a <? cfg_CreatedAt b) (List.filter (fun c => N.eqb (cfg_ProviderID c) p && Active (cfg_Status c)) (ht_configurations d))).

(** [COALESCE] *)
Definition next_scheduled (p l : uuid) (now : Time) (d : HealthTables) : option Time :=
  match next_slot p l now d with Some t => Some t | None => scheduled_next p now d end.

Definition cell_health (now : Time) (d : HealthTables) (p : Provider) (l : Location) : CellHealth :=
  MkCellHealth (p_ID p) (p_Name p) (p_Slug p) (l_ID l) (l_Name l) (last_success (p_ID p) (l_ID l) d) (last_status (p_ID p) (l_ID l) d)
    (next_scheduled (p_ID p) (l_ID l) now d).

Definition circuit_text (s : CircuitState) : string :=
  match s with CircuitClosed => "closed" | CircuitHalfOpen => "half_open" | CircuitOpen => "open" end.

Section Queries.
Context `{ReadModel.Database}.

Definition cell_before (a b : CellHealth) : bool :=
  ReadModel.text_ltb (ch_ProviderSlug a) (ch_ProviderSlug b)
  || (String.eqb (ch_ProviderSlug a) (ch_ProviderSlug b) && ReadModel.text_ltb (ch_LocationName a) (ch_LocationName b)).

Definition pg_Cells (now : Time) (d : HealthTables) : list CellHealth :=
  stable_sort cell_before
    (omap (fun '(p, l) =>
       prov ← List.find (fun x => N.eqb (p_ID x) p) (ht_providers d); loc ← List.find (fun x => N.eqb (l_ID x) l) (ht_locations d);
       Some (cell_health now d prov loc)) (cell_keys d)).

Definition pg_Circuits (d : HealthTables) : list CircuitHealth :=
  (fun '(p, c) => MkCircuitHealth (p_ID p) (p_Name p) (circuit_text (State c)) (ConsecutiveFailures c) (NextProbeAt c))
  <$> stable_sort (fun a b => ReadModel.text_ltb (p_Slug a.1) (p_Slug b.1)) (omap (fun p => (fun c => (p, c)) <$> ht_circuits d !! p_ID p) (ht_providers d)).

Definition pg_ObservationLocations (now : Time) (d : HealthTables) : list ObservationLocation :=
  let since := Add now (- (24 * Hour)) in
  (fun l => MkObservationLocation (l_ID l) (l_Name l)
     (ReadModel.max_of (o_ObservedAt <$> List.filter (fun o => N.eqb (o_LocationID o) (l_ID l) && Observe.is_live o) (ht_observations d)))
     (Z.of_nat (length (List.filter (fun o => N.eqb (o_LocationID o) (l_ID l) && String.eqb (o_QualityFlag o) QualitySuspect && (since <? o_CreatedAt o)) (ht_observations d)))))
  <$> stable_sort (fun a b => ReadModel.text_ltb (l_Name a) (l_Name b)) (List.filter (fun l => Active (l_Status l)) (ht_locations d)).

Definition pg_EngineLagSeconds (now : Time) (d : HealthTables) : option Z :=
  (fun latest => Z.max 0 (whole_seconds (Sub now latest))) <$> ReadModel.max_of ((fun m => ReadModel.calculated_at (Aggregate.am_ID m)) <$> live (ht_metrics d)).

(** ** Assemble *)

(** The optional readers: not wired, or what they return. *)
Record Readers := MkReaders {
  re_volume : option (result VolumeUsage);
  re_backup : option (result (option BackupStatus * option BackupStatus))
}.

Context `{Env}.

Definition Assemble (rs : Readers) (now : Time) : M HealthTables Health :=
  cells <-- query "health cells" (pg_Cells now) ;;
  circuits <-- query "health circuits" pg_Circuits ;;
  obs <-- query "health observation locations" (pg_ObservationLocations now) ;;
  lag <-- query "engine lag" (pg_EngineLagSeconds now) ;;
  let volume := match re_volume rs with Some (Ok u) => Some u | _ => None end in
  let '(lb, lr) := match re_backup rs with Some (Ok x) => x | _ => (None, None) end in
  ret (MkHealth cells circuits obs volume lag lb lr now).

(** ** admin_health.go *)

Definition cellFreshMax : Duration := 90 * Minute.
Definition cellStaleMax : Duration := 180 * Minute.

Record healthCellDTO := MkHealthCellDTO {
  hc_ProviderID : string; hc_ProviderName : string; hc_ProviderSlug : string; hc_LocationID : string; hc_LocationName : string;
  hc_LastSuccessAt : option Time; hc_LastStatus : string; hc_NextScheduledAt : option Time; hc_Freshness : Freshness
}.

Record healthCircuitDTO := MkHealthCircuitDTO {
  hi_ProviderID : string; hi_ProviderName : string; hi_State : string; hi_ConsecutiveFailures : Z; hi_NextProbeAt : option Time
}.

Record healthObsLocationDTO := MkHealthObsDTO {
  ho_LocationID : string; ho_LocationName : string; ho_LastObservedAt : option Time; ho_SuspectCount24h : Z
}.

Record adminHealthDTO := MkAdminHealthDTO {
  ah_Cells : list healthCellDTO;
  ah_Circuits : list healthCircuitDTO;
  ah_ObservationLocations : list healthObsLocationDTO;
  ah_LocationsCovered : Z;
  ah_EngineLagSeconds : option Z;
  ah_PayloadVolume : option VolumeUsage;
  ah_LastBackup : option BackupStatus;
  ah_LastRestoreTest : option BackupStatus
}.

Definition volumeToDTO (v : VolumeUsage) : VolumeUsage :=
  MkVolumeUsage (vu_UsedBytes v) (vu_TotalBytes v) (default (vu_UsedPct v) (RoundScore (Some (vu_UsedPct v)))).

(** The freshness of a cell; an open circuit makes it unavailable. *)
Definition cell_freshness (open : bool) (c : CellHealth) (now : Time) : Freshness :=
  if open && bool_decide (ch_LastSuccessAt c = None) then MkFreshness FreshnessUnavailable None 0 0 "circuit_open"
  else
    let f := ComputeFreshness (ch_LastSuccessAt c) now cellFreshMax cellStaleMax "never_collected" in
    if open then MkFreshness FreshnessUnavailable (fr_LastUpdated f) (fr_AgeSeconds f) (fr_ThresholdSeconds f) "circuit_open" else f.

Definition open_circuits (h : Health) : list uuid := ci_ProviderID <$> List.filter (fun c => String.eqb (ci_State c) "open") (he_Circuits h).

Definition is_or_all (o : option uuid) (id : uuid) : bool := match o with Some x => bool_decide (x = id) | None => true end.

Definition cell_dto (h : Health) (now : Time) (c : CellHealth) : healthCellDTO :=
  MkHealthCellDTO (Uuid.to_string (ch_ProviderID c)) (ch_ProviderName c) (ch_ProviderSlug c) (Uuid.to_string (ch_LocationID c)) (ch_LocationName c)
    (ch_LastSuccessAt c) (ch_LastStatus c) (ch_NextScheduledAt c) (cell_freshness (bool_decide (ch_ProviderID c ∈ open_circuits h)) c now).

Definition cell_shown (h : Health) (providerID locationID : option uuid) (status : string) (now : Time) (c : CellHealth) : bool :=
  is_or_all providerID (ch_ProviderID c) && is_or_all locationID (ch_LocationID c)
  && (String.eqb status "" || String.eqb (fr_State (hc_Freshness (cell_dto h now c))) status).

Definition health_dto (h : Health) (providerID locationID : option uuid) (status : string) (now : Time) : adminHealthDTO :=
  let obs := List.filter (fun o => is_or_all locationID (ol_LocationID o)) (he_ObservationLocations h) in
  MkAdminHealthDTO
    (cell_dto h now <$> List.filter (cell_shown h providerID locationID status now) (he_Cells h))
    ((fun c => MkHealthCircuitDTO (Uuid.to_string (ci_ProviderID c)) (ci_ProviderName c) (ci_State c) (ci_ConsecutiveFailures c) (ci_NextProbeAt c))
     <$> List.filter (fun c => is_or_all providerID (ci_ProviderID c)) (he_Circuits h))
    ((fun o => MkHealthObsDTO (Uuid.to_string (ol_LocationID o)) (ol_LocationName o) (ol_LastObservedAt o) (ol_SuspectCount24h o)) <$> obs)
    (Z.of_nat (length (List.filter (fun o => bool_decide (is_Some (ol_LastObservedAt o))) obs)))
    (he_EngineLagSeconds h) (volumeToDTO <$> he_Volume h) (he_LastBackup h) (he_LastRestoreTest h).

Context `{CatalogService.Lookups}.

(** [queryUUID]: absent, or read. *)
Definition query_uuid (r : Api.Request) (name : string) : ApiError + option uuid :=
  if String.eqb (Api.Query r name) "" then inr None
  else match CatalogService.ids_Parse (Api.Query r name) with Some id => inr (Some id) | None => inl (Api.badUUID name) end.

Definition h_AdminHealth (rs : Readers) (r : Api.Request) (assembledAt now : Time) : M HealthTables (ApiError + adminHealthDTO) :=
  match query_uuid r "provider_id" with
  | inl e => ret (inl e)
  | inr providerID =>
  match query_uuid r "location_id" with
  | inl e => ret (inl e)
  | inr locationID =>
      res <-- attempt (Assemble rs assembledAt) ;;
      match res with
      | Error t => ret (inl (Other t))
      | Ok h => ret (inr (health_dto h providerID locationID (Api.Query r "status") now))
      end
  end end.
End Queries.

(** ** recompute.go, admin_recompute.go *)

Section Recompute.
Context `{Env} {D : Type} `{Part D Identity.IdTables}.

Record RecomputeActor := MkRecomputeActor { ra_UserID : option uuid; ra_Name : string; ra_IPAddress : string }.

Definition recompute_event (actor : RecomputeActor) (affected : Z) (now : Time) : Identity.Event :=
  Identity.MkEvent (ra_UserID actor) "analysis.recompute" "analysis" None [("records_affected", pretty affected); ("actor", ra_Name actor)] (ra_IPAddress actor) now.

Definition Recompute (a : Scheduler.Analysis) (actor : RecomputeActor) (now : Time) : M D (Scheduler.JobError + Z) :=
  affected <-! Scheduler.Recompute a ;;
  r <-- zoom (tx_runE (Identity.RecordEvent (recompute_event actor affected now))) ;;
  match r with inl _ => throw "record audit event" | inr _ => ret (inr affected) end.

Definition h_AdminRecompute (a : Scheduler.Analysis) (r : Api.Request) (p : option Respond.Principal) (now : Time) : M D (ApiError + Z) :=
  res <-- attempt (Recompute a (MkRecomputeActor (p ≫= rp_UserID) (default "" (rp_Name <$> p)) (Api.rq_ClientIP r)) now) ;;
  ret (match res with Ok (inr n) => inr n | Ok (inl e) => inl (Other (Scheduler.error_text e)) | Error t => inl (Other t) end).
End Recompute.

(** ** The next run *)

Lemma derived_next_spec sch now : Schedule_Valid sch = true -> on_schedule sch (derived_next sch now) /\ now < derived_next sch now <= now + Hour.
Proof.
  unfold Schedule_Valid. intros V. bool_simp. unfold derived_next, Add, on_schedule. pose proof (Truncate_hour_bounds now) as B. set (h := Truncate now Hour) in *.
  assert (O : 0 <= MinuteOffset sch * Minute < Hour) by (unfold Hour, Minute, Second; lia).
  assert (Md : forall k, (h + k * Hour + MinuteOffset sch * Minute) mod Hour = MinuteOffset sch * Minute).
  { intros k. unfold h. rewrite Truncate_hour. pose proof (Z.div_mod now Hour ltac:(discriminate)) as E.
    replace (_ + _ + _) with (MinuteOffset sch * Minute + (now / Hour + k) * Hour) by lia. rewrite Z.mod_add by discriminate. now apply Z.mod_small. }
  destruct (now <? h + MinuteOffset sch * Minute) eqn:E; bool_simp; (split; [|lia]).
  - specialize (Md 0). now rewrite Z.mul_0_l, Z.add_0_r in Md.
  - specialize (Md 1). now rewrite Z.mul_1_l in Md.
Qed.

(** Note: the next run that the health query derives in SQL is the one the scheduler's own
    cadence gives: the first slot of a supported schedule strictly after now. *)
Theorem next_run_exact (sch : Schedule) (now : Time) : Schedule_Valid sch = true ->
  SlotTimes sch (now + 1) (now + 1 + Hour) = [derived_next sch now].
Proof.
  intros V. destruct (derived_next_spec sch now V) as [O B]. destruct (slot_times_spec sch (now + 1) (now + 1 + Hour)) as [S L].
  assert (U : forall t, t ∈ SlotTimes sch (now + 1) (now + 1 + Hour) -> t = derived_next sch now).
  { intros t Ht. apply L in Ht as (_ & Bt & Ot). unfold on_schedule in *. pose proof Hour_pos.
    pose proof (Z.div_mod t Hour ltac:(lia)). pose proof (Z.div_mod (derived_next sch now) Hour ltac:(lia)).
    assert (t / Hour = derived_next sch now / Hour) by nia. nia. }
  assert (I : derived_next sch now ∈ SlotTimes sch (now + 1) (now + 1 + Hour)) by (apply L; split_and!; auto; lia).
  destruct (SlotTimes sch (now + 1) (now + 1 + Hour)) as [|a [|b l]]; [now apply not_elem_of_nil in I|f_equal; apply U; left|].
  exfalso. inversion S as [|? ? _ F]; subst. apply Forall_cons in F as [F _]. pose proof (U a ltac:(left)). pose proof (U b ltac:(right; left)). lia.
Qed.

Lemma next_run_exact_witness : SlotTimes (MkSchedule "hourly" 2) (7200000000001 + 1) (7200000000001 + 1 + Hour) = [7320000000000].
Proof. rewrite (next_run_exact (MkSchedule "hourly" 2) 7200000000001); vm_compute; reflexivity. Defined.

(** ** What the view shows *)

Lemma max_of_spec (l : list Time) : match ReadModel.max_of l with None => l = [] | Some m => m ∈ l /\ forall t, t ∈ l -> t <= m end.
Proof.
  induction l as [|t l IH] using rev_ind; [reflexivity|]. unfold ReadModel.max_of in *. rewrite foldl_app. cbn. destruct (foldl _ None l) as [m|].
  - destruct IH as [Hm Hb]. split; [destruct (Z.max_spec m t) as [[_ ->]|[_ ->]]; set_solver|]. intros x [Hx|Hx]%elem_of_app; [specialize (Hb x Hx); lia|].
    apply list_elem_of_singleton in Hx. lia.
  - subst l. split; [set_solver|]. intros x Hx. apply list_elem_of_singleton in Hx. lia.
Qed.

(** [c] is a usable collection of the pair, completed at [t]. *)
Definition succeeded (d : HealthTables) (p l : uuid) (t : Time) : Prop :=
  exists c, c ∈ ht_collections d /\ of_cell p l c = true /\ Successful (fc_Status c) = true /\ fc_CompletedAt c = Some t.

(** The last success is the latest one, and missing only when there is none. *)
Lemma last_success_spec p l d :
  match last_success p l d with
  | Some t => succeeded d p l t /\ forall u, succeeded d p l u -> u <= t
  | None => forall u, ~ succeeded d p l u
  end.
Proof.
  unfold last_success. set (ts := omap fc_CompletedAt _). assert (I : forall t, t ∈ ts <-> succeeded d p l t).
  { intros t. unfold ts, succeeded. rewrite list_elem_of_omap. split.
    - intros (c & Hc & E). apply list_elem_of_In, filter_In in Hc as [Hc [A B]%andb_true_iff]. apply list_elem_of_In in Hc. now exists c.
    - intros (c & Hc & A & B & E). exists c. split; [|exact E]. apply list_elem_of_In, filter_In. rewrite A, B. split; [now apply list_elem_of_In|reflexivity]. }
  pose proof (max_of_spec ts) as M. destruct (ReadModel.max_of ts) as [m|].
  - destruct M as [M1 M2]. split; [now apply I|]. intros u Hu. now apply M2, I.
  - intros u Hu%I. rewrite M in Hu. now apply not_elem_of_nil in Hu.
Qed.

Section View.
Context `{ReadModel.Database} `{Healthy} `{CatalogService.Lookups}.

Lemma Assemble_run rs now w : exists w', db w' = db w /\ exists vol lb lr,
  Assemble rs now w = (w', Ok (MkHealth (pg_Cells now (db w)) (pg_Circuits (db w)) (pg_ObservationLocations now (db w)) vol (pg_EngineLagSeconds now (db w)) lb lr now)).
Proof.
  unfold Assemble. do 4 (rewrite bind_run, query_healthy). cbn [db].
  destruct (match re_backup rs with Some (Ok x) => x | _ => (None, None) end) as [lb lr]. eexists. split; [|eexists _, _, _; reflexivity]. reflexivity.
Qed.

(** A pair the view has a cell for: it was collected, or a forecast slot is for it. *)
Definition tracked (d : HealthTables) (p l : uuid) : Prop :=
  (exists c, c ∈ ht_collections d /\ of_cell p l c = true) \/ exists s, s ∈ ht_slots d /\ forecast_slot_of d s = Some (p, l).

Lemma cell_keys_elem d p l : (p, l) ∈ cell_keys d <-> tracked d p l.
Proof.
  unfold cell_keys, tracked, of_cell. rewrite elem_of_remove_dups, elem_of_app, list_elem_of_fmap, list_elem_of_omap.
  setoid_rewrite andb_true_iff. setoid_rewrite N.eqb_eq. split; (intros [(c & X1 & X2)|X]; [left; exists c|right; exact X]).
  - injection X1 as -> ->. auto.
  - destruct X2 as [<- <-]. auto.
Qed.

(** The primary keys. *)
Definition keyed (d : HealthTables) : Prop := NoDup (p_ID <$> ht_providers d) /\ NoDup (l_ID <$> ht_locations d).

Lemma find_key {A} (key : A -> uuid) (rows : list A) (x : A) : NoDup (key <$> rows) -> x ∈ rows ->
  List.find (fun y => N.eqb (key y) (key x)) rows = Some x.
Proof.
  intros N Hx. destruct (List.find _ rows) as [y|] eqn:F.
  - apply List.find_some in F as [Hy E%N.eqb_eq]. apply list_elem_of_In in Hy. f_equal. now apply (NoDup_key_unique key rows).
  - apply list_elem_of_In in Hx. pose proof (List.find_none _ _ F x Hx) as C. cbn in C. now rewrite N.eqb_refl in C.
Qed.

Definition cell_key (c : CellHealth) : uuid * uuid := (ch_ProviderID c, ch_LocationID c).

Lemma cells_elem now d c : keyed d -> c ∈ pg_Cells now d <->
  exists p l, p ∈ ht_providers d /\ l ∈ ht_locations d /\ tracked d (p_ID p) (l_ID l) /\ c = cell_health now d p l.
Proof.
  intros [Kp Kl]. unfold pg_Cells. rewrite stable_sort_perm, list_elem_of_omap. split.
  - intros ([p l] & T%cell_keys_elem & E). destruct (List.find (fun x => N.eqb (p_ID x) p) _) as [prov|] eqn:Fp; [|discriminate]. cbn in E.
    destruct (List.find (fun x => N.eqb (l_ID x) l) _) as [loc|] eqn:Fl; [|discriminate]. injection E as <-.
    apply List.find_some in Fp as [Hp <-%N.eqb_eq], Fl as [Hl <-%N.eqb_eq]. apply list_elem_of_In in Hp, Hl. exists prov, loc. auto.
  - intros (p & l & Hp & Hl & T & ->). exists (p_ID p, l_ID l). split; [now apply cell_keys_elem|]. rewrite (find_key p_ID) by assumption. cbn.
    now rewrite (find_key l_ID) by assumption.
Qed.

(** One cell per pair. *)
Lemma cells_once now d : NoDup (cell_key <$> pg_Cells now d).
Proof.
  unfold pg_Cells. rewrite stable_sort_perm. assert (N : NoDup (cell_keys d)) by apply NoDup_remove_dups.
  induction (cell_keys d) as [|[p l] ks IH]; [constructor|]. apply NoDup_cons in N as [F N]. cbn.
  destruct (List.find (fun x => N.eqb (p_ID x) p) _) as [prov|] eqn:Fp; cbn; [|auto]. destruct (List.find (fun x => N.eqb (l_ID x) l) _) as [loc|] eqn:Fl; [|auto].
  cbn. constructor; [|auto]. apply List.find_some in Fp as [_ E1%N.eqb_eq], Fl as [_ E2%N.eqb_eq]. intros (c & Ec & Hc)%list_elem_of_fmap. apply F.
  apply list_elem_of_omap in Hc as ([p' l'] & Hk & E). destruct (List.find (fun x => N.eqb (p_ID x) p') _) as [q|] eqn:Gp; [|discriminate]. cbn in E.
  destruct (List.find (fun x => N.eqb (l_ID x) l') _) as [m|] eqn:Gl; [|discriminate]. injection E as <-.
  apply List.find_some in Gp as [_ E3%N.eqb_eq], Gl as [_ E4%N.eqb_eq]. cbn in Ec. injection Ec as X1 X2. congruence.
Qed.

(** The providers that the view takes as cut off are those with an open breaker. *)
Lemma open_circuits_elem now d cells obs vol lag lb lr p : p ∈ ht_providers d ->
  p_ID p ∈ open_circuits (MkHealth cells (pg_Circuits d) obs vol lag lb lr now) <-> State <$> ht_circuits d !! p_ID p = Some CircuitOpen.
Proof.
  intros Hp. unfold open_circuits. cbn [he_Circuits]. rewrite list_elem_of_fmap. setoid_rewrite list_elem_of_In. setoid_rewrite filter_In.
  setoid_rewrite <- list_elem_of_In. unfold pg_Circuits. setoid_rewrite list_elem_of_fmap. split.
  - intros (h & Eh & ([q c] & -> & Hq) & So). rewrite stable_sort_perm in Hq. apply list_elem_of_omap in Hq as (q' & _ & Eq).
    destruct (ht_circuits d !! p_ID q') as [c'|] eqn:El; [|discriminate]. injection Eq as -> ->. cbn in Eh. rewrite Eh, El. cbn in So |- *. now destruct (State c).
  - destruct (ht_circuits d !! p_ID p) as [c|] eqn:El; [|discriminate]. intros [= Es].
    exists (MkCircuitHealth (p_ID p) (p_Name p) (circuit_text (State c)) (ConsecutiveFailures c) (NextProbeAt c)). split; [reflexivity|]. split; [|cbn; now rewrite Es].
    exists (p, c). split; [reflexivity|]. rewrite stable_sort_perm. apply list_elem_of_omap. exists p. split; [exact Hp|]. now rewrite El.
Qed.

Definition breaker_open (d : HealthTables) (p : uuid) : Prop := State <$> ht_circuits d !! p = Some CircuitOpen.

(** What the cell [x] of the pair says at [now]. *)
Record truthful_cell (d : HealthTables) (now : Time) (p : Provider) (l : Location) (x : healthCellDTO) : Prop := {
  tc_provider : hc_ProviderID x = Uuid.to_string (p_ID p) /\ hc_ProviderName x = p_Name p /\ hc_ProviderSlug x = p_Slug p;
  tc_location : hc_LocationID x = Uuid.to_string (l_ID l) /\ hc_LocationName x = l_Name l;
  tc_success : match hc_LastSuccessAt x with
               | Some t => succeeded d (p_ID p) (l_ID l) t /\ forall u, succeeded d (p_ID p) (l_ID l) u -> u <= t
               | None => forall u, ~ succeeded d (p_ID p) (l_ID l) u
               end;
  tc_open : breaker_open d (p_ID p) -> fr_State (hc_Freshness x) = "unavailable" /\ fr_Reason (hc_Freshness x) = "circuit_open";
  tc_never : hc_LastSuccessAt x = None -> fr_State (hc_Freshness x) = "unavailable";
  tc_age : forall t, hc_LastSuccessAt x = Some t -> ~ breaker_open d (p_ID p) ->
    (Sub now t <= 75 * Minute -> fr_State (hc_Freshness x) = "fresh") /\
    (90 * Minute < Sub now t <= 180 * Minute -> fr_State (hc_Freshness x) = "delayed") /\
    (180 * Minute < Sub now t <= 24 * Hour -> fr_State (hc_Freshness x) = "stale")
}.

Lemma freshness_age t now reason : let f := ComputeFreshness (Some t) now cellFreshMax cellStaleMax reason in
  (Sub now t <= 75 * Minute -> fr_State f = "fresh") /\ (90 * Minute < Sub now t <= 180 * Minute -> fr_State f = "delayed") /\
  (180 * Minute < Sub now t <= 24 * Hour -> fr_State f = "stale").
Proof.
  unfold ComputeFreshness, cellFreshMax, cellStaleMax, Hour, Minute, Second. cbn [fr_State].
  destruct (Z.ltb_spec (Sub now t) 0);
    repeat match goal with |- context [?a <=? ?b] => destruct (Z.leb_spec a b) end; split_and!; intros; (reflexivity || lia).
Qed.

Section Cells.
Context (now assembledAt : Time) (d : HealthTables) (vol : option VolumeUsage) (lb lr : option BackupStatus).

Let h : Health :=
  MkHealth (pg_Cells assembledAt d) (pg_Circuits d) (pg_ObservationLocations assembledAt d) vol (pg_EngineLagSeconds assembledAt d) lb lr assembledAt.

Lemma cell_truthful p l : p ∈ ht_providers d -> truthful_cell d now p l (cell_dto h now (cell_health assembledAt d p l)).
Proof.
  intros Hp. pose proof (open_circuits_elem assembledAt d (pg_Cells assembledAt d) (pg_ObservationLocations assembledAt d) vol
    (pg_EngineLagSeconds assembledAt d) lb lr p Hp) as O. fold h in O.
  constructor; cbn [cell_dto cell_health hc_ProviderID hc_ProviderName hc_ProviderSlug hc_LocationID hc_LocationName hc_LastSuccessAt hc_Freshness
    ch_ProviderID ch_ProviderName ch_ProviderSlug ch_LocationID ch_LocationName ch_LastSuccessAt].
  - auto.
  - auto.
  - apply last_success_spec.
  - intros B%O. rewrite bool_decide_true by exact B. unfold cell_freshness. cbn [andb]. now destruct (bool_decide _).
  - intros E. unfold cell_freshness. cbn [ch_LastSuccessAt cell_health]. rewrite E. now destruct (bool_decide _).
  - intros t E B. rewrite bool_decide_false by (intros C; apply B, O, C). unfold cell_freshness. cbn [andb ch_LastSuccessAt cell_health]. rewrite E.
    apply freshness_age.
Qed.

(** The cells shown, with the pairs they are of. *)
Lemma shown_cells pid lid status : keyed d ->
  let shown := List.filter (cell_shown h pid lid status now) (pg_Cells assembledAt d) in
  exists pairs, Forall2 (fun pl x => truthful_cell d now pl.1 pl.2 x) pairs (cell_dto h now <$> shown) /\
    NoDup ((fun pl : Provider * Location => (p_ID pl.1, l_ID pl.2)) <$> pairs) /\
    (forall p l, (p, l) ∈ pairs -> p ∈ ht_providers d /\ l ∈ ht_locations d /\ tracked d (p_ID p) (l_ID l) /\
       is_or_all pid (p_ID p) = true /\ is_or_all lid (l_ID l) = true).
Proof.
  intros K shown. assert (N : NoDup (cell_key <$> shown)).
  { unfold shown. pose proof (cells_once assembledAt d) as N. induction (pg_Cells assembledAt d) as [|c cs IH]; [constructor|].
    rewrite fmap_cons in N. apply NoDup_cons in N as [F N]. cbn. destruct (cell_shown _ _ _ _ _ c); [|auto]. cbn. constructor; [|auto].
    intros (c' & E & Hc)%list_elem_of_fmap. apply F. rewrite E. apply list_elem_of_fmap_2. apply list_elem_of_In, filter_In in Hc as [Hc _].
    now apply list_elem_of_In. }
  assert (A : forall c, c ∈ shown -> exists p l, p ∈ ht_providers d /\ l ∈ ht_locations d /\ tracked d (p_ID p) (l_ID l) /\
    c = cell_health assembledAt d p l /\ is_or_all pid (p_ID p) = true /\ is_or_all lid (l_ID l) = true).
  { intros c Hc. apply list_elem_of_In, filter_In in Hc as [Hc Sh]. apply list_elem_of_In, (cells_elem _ _ _ K) in Hc as (p & l & Hp & Hl & T & ->).
    unfold cell_shown in Sh. rewrite !andb_true_iff in Sh. exists p, l. intuition. }
  assert (exists pairs, shown = (fun pl => cell_health assembledAt d pl.1 pl.2) <$> pairs /\
    forall p l, (p, l) ∈ pairs -> p ∈ ht_providers d /\ l ∈ ht_locations d /\ tracked d (p_ID p) (l_ID l) /\
       is_or_all pid (p_ID p) = true /\ is_or_all lid (l_ID l) = true) as (pairs & E & Ap).
  { clear N. clearbody shown. induction shown as [|c cs IH]; [exists []; split; [reflexivity|intros p l X; now apply not_elem_of_nil in X]|].
    destruct IH as (pairs & -> & Ap); [intros x Hx; apply A; now right|]. destruct (A c ltac:(left)) as (p & l & Hp & Hl & T & -> & F).
    exists ((p, l) :: pairs). split; [reflexivity|]. intros p' l' [[= -> ->]|X]%elem_of_cons; auto. }
  exists pairs. rewrite E in *. split; [|split; [|exact Ap]].
  - clear N A E. induction pairs as [|[p l] pairs IH]; [constructor|]. cbn. constructor; [apply cell_truthful, (Ap p l); left|]. apply IH.
    intros p' l' X. apply Ap. now right.
  - rewrite <- list_fmap_compose in N. exact N.
Qed.

(** A tracked pair that matches the filters has its cell. *)
Lemma tracked_shown pid lid status p l : keyed d -> p ∈ ht_providers d -> l ∈ ht_locations d -> tracked d (p_ID p) (l_ID l) ->
  is_or_all pid (p_ID p) = true -> is_or_all lid (l_ID l) = true ->
  exists x, truthful_cell d now p l x /\ (status = "" \/ fr_State (hc_Freshness x) = status ->
    x ∈ cell_dto h now <$> List.filter (cell_shown h pid lid status now) (pg_Cells assembledAt d)).
Proof.
  intros K Hp Hl T F1 F2. exists (cell_dto h now (cell_health assembledAt d p l)). split; [now apply cell_truthful|]. intros St.
  apply list_elem_of_fmap_2, list_elem_of_In, filter_In. split.
  - apply list_elem_of_In, cells_elem; [exact K|]. exists p, l. auto.
  - unfold cell_shown. rewrite !andb_true_iff, orb_true_iff, !String.eqb_eq. auto.
Qed.
End Cells.

(** What the cells of the view are, for the filters of the request. *)
Record health_view (d : HealthTables) (now : Time) (pid lid : option uuid) (status : string) (cells : list healthCellDTO) : Prop := {
  hv_cells : exists pairs, Forall2 (fun pl x => truthful_cell d now pl.1 pl.2 x) pairs cells /\
    NoDup ((fun pl : Provider * Location => (p_ID pl.1, l_ID pl.2)) <$> pairs) /\
    forall p l, (p, l) ∈ pairs -> p ∈ ht_providers d /\ l ∈ ht_locations d /\ tracked d (p_ID p) (l_ID l) /\
      is_or_all pid (p_ID p) = true /\ is_or_all lid (l_ID l) = true;
  hv_status : forall x, x ∈ cells -> status = "" \/ fr_State (hc_Freshness x) = status;
  hv_complete : forall p l, p ∈ ht_providers d -> l ∈ ht_locations d -> tracked d (p_ID p) (l_ID l) ->
    is_or_all pid (p_ID p) = true -> is_or_all lid (l_ID l) = true ->
    exists x, truthful_cell d now p l x /\ (status = "" \/ fr_State (hc_Freshness x) = status -> x ∈ cells)
}.


(** Note: a disabled location is promised a next run: without a pending slot the time comes
    from the provider's active configuration, whatever the status of the location, for
    which the scheduler generates no slots. *)
Theorem disabled_location_promised (p : Provider) (l : Location) (now : Time) (d : HealthTables) (c : ProviderConfiguration) :
  c ∈ ht_configurations d -> cfg_ProviderID c = p_ID p -> Active (cfg_Status c) = true -> is_Some (ch_NextScheduledAt (cell_health now d p l)).
Proof.
  intros Hc Ep A. cbn [cell_health ch_NextScheduledAt]. unfold next_scheduled. destruct (next_slot _ _ _ _); [eauto|]. unfold scheduled_next.
  destruct (head _) as [x|] eqn:Hh; [cbn; eauto|]. exfalso.
  assert (I : c ∈ List.filter (fun c => N.eqb (cfg_ProviderID c) (p_ID p) && Active (cfg_Status c)) (ht_configurations d)).
  { apply list_elem_of_In, filter_In. rewrite <- list_elem_of_In, Ep, N.eqb_refl, A. auto. }
  rewrite <- (stable_sort_perm (fun a b => cfg_CreatedAt a <? cfg_CreatedAt b)) in I. destruct (stable_sort _ _); [now apply not_elem_of_nil in I|discriminate].
Qed.
End View.

(** ** Recompute *)

(** Note: a recompute that is answered as done ran the whole pipeline, and one audit record
    names the operator, the address and the number of rows. *)
Theorem recompute_audited `{Env} {D} `{PartLaws D Identity.IdTables} (a : Scheduler.Analysis) (actor : RecomputeActor) (now : Time) (w w' : World D) (n : Z) :
  Recompute a actor now w = (w', Ok (inr n)) ->
  exists w1 id, Scheduler.Recompute a w = (w1, Ok (inr n)) /\
    Identity.it_audit (part (db w')) = Identity.it_audit (part (db w1)) ++
      [Identity.MkRecordedEvent id (ra_UserID actor) "analysis.recompute" "analysis" None [("records_affected", pretty n); ("actor", ra_Name actor)] (ra_IPAddress actor) now].
Proof.
  intros (w1 & k & E1 & E)%bindE_ok. apply bind_ok in E as (w2 & r & E2 & E). destruct r as [e|[]]; [discriminate|]. injection E as <- <-. unfold zoom in E2.
  destruct (tx_runE _ _) as [v x] eqn:T. injection E2 as <- ->. cbn [db]. exists w1.
  match type of T with tx_runE ?m ?w0 = _ => destruct (tx_runE_inv m w0) as [(w3 & u & Eb & Ed & _)|[_ Er]] end; rewrite T in *; cbn [fst snd] in *.
  - unfold Identity.RecordEvent in Eb. apply bindE_ok in Eb as (w4 & id & En & Ei). unfold Identity.newID_ in En. apply bind_ok in En as (w5 & id' & Ef & En).
    injection Ef as <- <-. injection En as <- <-. exists (newID (nids w1)). split; [exact E1|]. rewrite part_put, Ed.
    unfold Identity.insert, dbexec in Ei. cbn [db tick nids] in Ei. destruct (fault _); [discriminate|].
    unfold Identity.pg_InsertEvent in Ei. destruct (_ || _); [discriminate|]. injection Ei as <- _. reflexivity.
  - now destruct (Er tt).
Qed.

(** ** A view after one collection *)

Definition plainDatabase : ReadModel.Database := {| ReadModel.text_ltb := Uuid.str_ltb; ReadModel.calculated_at := fun _ => 0 |}.
Definition plainLookups : CatalogService.Lookups := {| CatalogService.LoadLocation := fun _ => true; CatalogService.ids_Parse := fun _ => None |}.
Definition after_collect : HealthTables :=
  MkHealthTables [Collection.in_Provider CollectionProps.demo_input] [Collection.in_Location CollectionProps.demo_input]
    [Collection.in_Config CollectionProps.demo_input] (Collection.ct_collections (db CollectionProps.demo_run)) (Collection.ct_circuits (db CollectionProps.demo_run)) [] [] [].
Definition get_health : Api.Request := Api.MkRequest "GET" "/api/v1/admin/health" "/api/v1/admin/health" [] [("status", "fresh")] [] 0 "10.0.0.1" "req-1" Api.Unreadable.
Definition viewed : World HealthTables * result (ApiError + adminHealthDTO) :=
  @h_AdminHealth plainDatabase calm plainLookups (MkReaders None None) get_health (11 * Hour) (11 * Hour) (MkWorld after_collect 0 0).

End Admin.
